(* ===== verification/_CoqProject ===== *)
-Q . S2P
Prelude.v
Rings.v
NanoState.v
NanoSchedule.v
NanoSyscalls.v
NanoSpec.v
NanoLinks.v
NanoRep.v
NanoRefineSched.v
NanoInv.v
NanoRefineFutex.v
NanoRefineSys.v
NanoInvPres.v
NanoInvSys.v
NanoBoot.v
NanoKernel.v
NanoTheorems.v
SyncLang.v
NanoFutexService.v
NanoSync.v
SyncMutex.v
SyncSemaphore.v
SyncBarrier.v
Heap.v
BitmapAlloc.v
UserLib.v
NanoMessage.v
NanoThreads.v
RangeAlloc.v
LinkedList.v
HashTable.v
BinaryTree.v
CircularBuffer.v
RangeFl.v
BitFl.v
CString.v
MicroLib.v
Queueing.v
MicroState.v
MicroSched.v
MicroReady.v
MicroBlocked.v
MicroInherit.v
MicroPropagate.v
MicroSync.v
MicroKernel.v
MicroPaths.v
MicroMutex.v
MicroLock.v
MicroDeadlock.v
MicroTheorems.v
MicroKmem.v
MicroSmall.v
MicroSmallProof.v
MicroResource.v
MicroResourceProof.v
MicroCaps.v
MicroCapInv.v
MicroCapOps.v
MicroCapControl.v
MicroThreadControl.v
MicroCapTheorems.v
