(* ===== verification/Prelude.v ===== *)
(** * Verification of the OKL4 kernels and of the core libraries of OKL4

    The repository holds OKL4 3.0: the nanokernel ([nanokernel/], with its
    ARM and platform parts under [arch/] and [platform/]), the much larger
    C++ microkernel ([pistachio/]), the libraries applications are written
    with ([libs/]), the Iguana operating system personality, drivers and
    tools.  This development models the nanokernel as a whole, the
    synchronisation, message, thread and interrupt library that runs on it,
    the scheduler, the priority inheritance, the mutexes, the memory
    allocators (heap, pools, resources) and the capabilities of the microkernel, and the
    allocators, containers and string functions of the libraries, and proves
    them correct.

    ** How code is modelled

    A C function is a Rocq function in the state-and-crash monad [M S A] of
    this file: it takes a state and either returns a value and a new state
    ([Done]) or crashes ([Crash]), with the reason (a failed assertion, an
    invalid pointer, an index out of range, a loop that exceeds its bound).
    [wp c Q s] says that [c] returns from [s] without crashing, in a state
    that satisfies [Q]; every specification below is such a total statement.
    Loops that are not structural take a bound: the number of objects the
    loop can visit (TCBs of the machine, cells of the heap, bytes of memory)
    plus one, so that the bound is never reached on a well-formed state;
    the theorems prove that it is not.  Words are [Z] with wrap-around
    written out ([u32], [s32], [bit32], ...).  Objects that are linked by
    pointers are records in a [gmap] from addresses; NULL is [None].

    ** The nanokernel

    - [NanoState]: TCBs ([nanokernel/src/tcb.reg]) and the kernel's global
      variables; [thread.h]'s inline functions.  The class [NanoConfig] holds
      the numbers that the image weaver patches in (TCBs, futex slots,
      execution units, interrupts).
    - [NanoSchedule]: [c_schedule.c] and [sys_yield.c].
    - [NanoSyscalls]: [sys_futex.c], [sys_ipc.c], [sys_signal.c],
      [sys_interrupt.c], [sys_thread.c], the ARM interrupt handler and the
      versatile interrupt controller, a Module each.
    - [NanoSpec]: the abstract kernel: queues are lists, and each system call
      is a function on them.
    - [Rings], [NanoLinks], [NanoRep]: doubly linked rings and chains (used
      by the linked list library as well), and the relation [Rep] between
      kernel states and abstract kernels.
    - [NanoRefineSched], [NanoRefineFutex], [NanoRefineSys]: each function
      implements its specification.
    - [NanoInv], [NanoInvPres], [NanoInvSys]: the invariant [AInv] of the
      abstract kernel and its preservation by every system call.
    - [NanoBoot]: a bootable state that satisfies the invariant.
    - [NanoKernel], [NanoTheorems]: kernel entries as events, the reachable
      states, and the properties of the kernel as a whole: no crash
      (but for negative interrupt numbers), refinement, priority scheduling, exact ready queues, no lost wake-ups, and the functional
      behaviour of futexes, interrupts, yield, IPC, thread creation and exit.

    The system calls run with interrupts disabled on the unit that makes
    them, so that each is one step; the spin locks around them are not
    modelled.

    ** User-level synchronisation

    - [SyncLang]: programs made of the shared-memory accesses, atomic
      operations and futex system calls that the code between two
      interleaving points consists of, the futex service as two relations
      ([fwait], [fsignal]), and the interleaving of any number of threads that
      run such programs on one object.
    - [NanoFutexService]: the nanokernel provides that service: its
      futex calls are steps of the relations on the sleeping threads and the
      pending signals, and no other entry changes these.
    - [NanoSync]: [arch/arm/libs/nano/src/futex.c], [semaphore.c],
      [libs/nano/src/barrier.c] and their wrappers in [libs/okl4/src/nano]:
      the counted mutex, the semaphore and the barrier.
    - [SyncMutex], [SyncSemaphore], [SyncBarrier]: correctness, by an invariant
      on the points of the code that the threads are at.  The retry loop of
      [okn_semaphore_try_down] has a bound on its attempts that is an argument
      of the call, so that the theorem covers every number of them.

    ** The okl4 library on the nanokernel

    - [UserLib]: [libs/okl4/src/nano]: messages, notification, threads, the
      threads of a protection domain, and interrupt sets.  A call runs up to
      its system call; it goes on with the registers the kernel gives back.
    - [NanoMessage]: what one thread packs by a send or a call another
      unpacks, with the kernel model between them; blocking and errors.
    - [NanoThreads]: thread creation and join over the bitmap
      allocator and the kernel, with every outcome of the kernel's calls, and
      interrupt sets that follow the kernel's table.  The address of [thread_entry_point] is a parameter.

    ** Allocators and containers

    - [Heap]: heaps of objects, with [malloc] as a class ([Malloc]) that
      promises a fresh address or NULL and nothing else.
    - [BitmapAlloc] ([libs/okl4/src/bitmap_*.c]), [RangeAlloc]
      ([libs/okl4/src/range_*.c]): the okl4 allocators.
    - [LinkedList] ([libs/ll]), [HashTable] ([libs/hash]), [BinaryTree]
      ([libs/binary_tree]): containers, each with an abstract step relation
      that its operations implement.
    - [CircularBuffer] ([libs/circular_buffer]), [RangeFl] ([libs/range_fl]),
      [BitFl] ([libs/bit_fl]): buffers and free lists.

    ** The C library

    - [CString]: the [str*] and [mem*] functions of [libs/c/src] on a memory
      of bytes.

    ** The microkernel

    The files model the uniprocessor configuration of [pistachio/]; the
    build's choice of CONFIG_SCHEDULE_INHERITANCE is the class [MicroConfig].
    A C++ method is a function whose first argument is the object's address.
    Functions that do not return (they jump to a continuation) end with the
    continuation recorded in the state.

    - [MicroLib]: the kernel library's bit search ([lib.h]) and bitmaps
      ([bitmap.h]).  [Queueing]: the ring macros of [queueing.h].
    - [MicroState], [MicroSched]: threads, mutexes, synchronisation points and
      the scheduler's state; the operations of [prioqueue.cc], [syncpoint.cc],
      [endpoint.cc], [schedule.cc], [schedule.h] and [mutex.cc], a Module per
      class.
    - [MicroReady]: the ready queues refine a list of threads per priority.
    - [MicroBlocked], [MicroInherit], [MicroPropagate], [MicroSync]: the
      sorted queues of blocked threads and priority inheritance: what a
      thread inherits is defined over the graph of waiting threads, and both
      propagations restore it after a change.
    - [MicroKernel], [MicroPaths]: the states in which the kernel runs and in
      which it leaves to a thread, and the scheduler's slow and fast paths
      between them.
    - [MicroMutex], [MicroLock]: the rings of held mutexes, lock and unlock.
    - [MicroDeadlock]: Brent's cycle search on the graph of waiting threads.
    - [MicroTheorems]: the properties, each with an application to a small
      running system.

    - [MicroKmem]: the kernel heap ([kmemory.cc]), a list of free chunks in
      the words of memory, and the interface [Kheap] with its laws
      [KheapLaws], which the heap satisfies and its clients rely on.
    - [MicroSmall], [MicroSmallProof]: the pools of small objects
      ([smallalloc.cc]) over any such heap, and their correctness.
    - [MicroResource], [MicroResourceProof]: memory resources
      ([kmem_resource.cc]), a heap and the pools that take blocks from it:
      every byte that is not free has one owner, so that no two objects
      overlap.
    - [MicroCaps]: capabilities ([caps.h], [capid.h], [clist.cc], [caps.cc],
      [ref_inline.h]), the references threads hold to each other, and the
      two system calls that change them, [SYS_CAP_CONTROL] and, as far as
      capabilities go, [SYS_THREAD_CONTROL] ([thread.cc]); over any heap
      that is a [Kheap].
    - [MicroCapInv], [MicroCapOps]: the invariant ([Rep]) that relates the
      cells and their chains to a map of rights, and what each function does
      to that map.
    - [MicroCapControl], [MicroThreadControl]: capability lists in the heap,
      abstract descriptions of the two system calls and the proofs that the
      calls implement them.
    - [MicroCapTheorems]: the properties of capabilities, reachable states,
      and a small system on the heap of [MicroKmem].

    The bounds of the loops, with [n] threads: [n + 1] turns for the
    propagation of an increase (each turn raises a thread to the same
    priority), [256 n + 1] for that of a change (each turn moves a priority in
    one direction), [4 n + 4] and [n + 1] for the two phases of the cycle
    search; the walks along a chain of references are bounded by the number
    of cells, those of the heap by the number of chunks and those of a pool by
    the number of its blocks.  The theorems prove
    that they are not reached.

    ** Where the theorems stop

    Some inputs make the code fail, and the theorems then say so or leave them
    out by a hypothesis that their comments name.  The theorem, or a lemma
    beside it, shows the failure for negative interrupt numbers
    ([NanoTheorems], [NanoThreads]), errors of the kernel that the library
    takes for success ([NanoThreads]), the circular buffer's full and
    wrapping cases ([CircularBuffer]), lost ranges and sizes that wrap
    ([RangeFl]), [strstr] on empty strings and characters that are not
    converted ([CString]), whole-word bitmaps ([MicroLib]) and the timeslice
    donation of the microkernel ([MicroTheorems]).  Left out by a hypothesis
    are capability requests that the kernel does not check
    ([MicroCapTheorems]) and pools with a limit or with a multiple of 32
    objects in a block ([MicroSmallProof], with a lemma for the latter).

    ** Not modelled

    Of the microkernel: IPC transfer, address spaces and page tables, the
    table of thread handles, hybrid mutexes, the multiprocessor variants,
    interrupts and exceptions; the B+ tree library, whose nodes and keys are
    those of a configuration file of its user; Iguana and the libraries that only wrap microkernel system calls; device
    drivers, serial output and start-up
    code; the standard input and output functions; tests, build tools and
    vendored parsers. *)

From Stdlib Require Export ZArith Lia.
From stdpp Require Export numbers option base gmap sets list sorting.
Export list_basics.list list_relations.list list_monad.list list_misc.list list_numbers.list.

Declare Scope cmonad_scope.
Delimit Scope cmonad_scope with cmonad.

#[local] Open Scope Z_scope.

(** ** Machine words *)

Definition WORD_BITS : Z := 32.
Definition WORD_MOD : Z := 2 ^ 32.

(** Conversion of an integer to [uint32_t]: reduction modulo 2^32. *)
Definition u32 (x : Z) : Z := x mod WORD_MOD.

(** Conversion to [int]: two's complement reading of the low 32 bits. *)
Definition s32 (x : Z) : Z :=
  let y := u32 x in if y <? 2 ^ 31 then y else y - WORD_MOD.

(** [~x] on a 32-bit word. *)
Definition not32 (x : Z) : Z := WORD_MOD - 1 - u32 x.

Definition is_word (x : Z) : Prop := 0 <= x < WORD_MOD.

(** [1 << n] and the bit macros built on it. *)
Definition bit32 (n : Z) : Z := u32 (Z.shiftl 1 n).
Definition set_bit32 (w n : Z) : Z := Z.lor w (bit32 n).
Definition clear_bit32 (w n : Z) : Z := Z.land w (not32 (bit32 n)).


(** *** Bits of words *)

Lemma word_of_bits x :
  0 <= x -> (forall p, 32 <= p -> Z.testbit x p = false) -> is_word x.
Proof.
  intros Hx Hb. unfold is_word, WORD_MOD. destruct (Z.eq_dec x 0) as [->|Hne]; [lia|].
  split; [done|]. apply Z.log2_lt_pow2; [lia|].
  destruct (Z.lt_ge_cases (Z.log2 x) 32) as [|Hge]; [done|].
  specialize (Hb _ Hge). rewrite Z.bit_log2 in Hb by lia. done.
Qed.

Lemma word_bits_high x p : is_word x -> 32 <= p -> Z.testbit x p = false.
Proof.
  intros [Hx Hlt] Hp. destruct (Z.eq_dec x 0) as [->|Hne]; [apply Z.bits_0|].
  apply Z.bits_above_log2; [lia|]. unfold WORD_MOD in Hlt.
  apply Z.log2_lt_pow2 in Hlt; lia.
Qed.

Lemma is_word_u32 x : is_word (u32 x).
Proof. apply Z.mod_pos_bound. reflexivity. Qed.

Lemma u32_word x : is_word x -> u32 x = x.
Proof. intros. by apply Z.mod_small. Qed.

Lemma is_word_lor x y : is_word x -> is_word y -> is_word (Z.lor x y).
Proof.
  intros Hx Hy. apply word_of_bits.
  - apply Z.lor_nonneg. split; [apply Hx|apply Hy].
  - intros p Hp. by rewrite Z.lor_spec, !word_bits_high.
Qed.

Lemma is_word_land x y : is_word x -> 0 <= y -> is_word (Z.land x y).
Proof.
  intros Hx Hy. apply word_of_bits.
  - apply Z.land_nonneg. left. apply Hx.
  - intros p Hp. by rewrite Z.land_spec, word_bits_high.
Qed.

Lemma bit32_pow n : 0 <= n < 32 -> bit32 n = 2 ^ n.
Proof.
  intros Hn. unfold bit32. rewrite Z.shiftl_1_l. apply u32_word.
  unfold is_word, WORD_MOD. split; [lia|]. apply Z.pow_lt_mono_r; lia.
Qed.

Lemma testbit_bit32 n p : 0 <= n < 32 -> Z.testbit (bit32 n) p = (p =? n).
Proof.
  intros Hn. rewrite bit32_pow by done. rewrite Z.pow2_bits_eqb by lia. apply Z.eqb_sym.
Qed.

Lemma is_word_not32 x : is_word (not32 x).
Proof. unfold not32. pose proof (is_word_u32 x) as H. unfold is_word in *. lia. Qed.

Lemma testbit_not32 x p : is_word x -> 0 <= p < 32 -> Z.testbit (not32 x) p = negb (Z.testbit x p).
Proof.
  intros Hx Hp. unfold not32. rewrite u32_word by done.
  assert (Hl : Z.ldiff x (Z.ones 32) = 0).
  { apply Z.bits_inj_0. intros i. rewrite Z.ldiff_spec.
    destruct (Z.lt_ge_cases i 0) as [|Hi]; [by rewrite Z.testbit_neg_r|].
    destruct (Z.lt_ge_cases i 32); [|by rewrite word_bits_high].
    rewrite Z.ones_spec_low by lia. by rewrite andb_false_r. }
  change (WORD_MOD - 1) with (Z.ones 32).
  rewrite (Z.sub_nocarry_ldiff _ _ Hl), Z.ldiff_spec, Z.ones_spec_low by lia. done.
Qed.

Lemma testbit_set_bit32 w n p :
  0 <= n < 32 -> Z.testbit (set_bit32 w n) p = Z.testbit w p || (p =? n).
Proof. intros. unfold set_bit32. by rewrite Z.lor_spec, testbit_bit32. Qed.

Lemma testbit_clear_bit32 w n p :
  0 <= n < 32 -> 0 <= p < 32 -> Z.testbit (clear_bit32 w n) p = Z.testbit w p && negb (p =? n).
Proof.
  intros. unfold clear_bit32. rewrite Z.land_spec, testbit_not32; [|apply is_word_u32|done].
  by rewrite testbit_bit32.
Qed.

Lemma is_word_set_bit32 w n : is_word w -> is_word (set_bit32 w n).
Proof. intros. apply is_word_lor; [done|apply is_word_u32]. Qed.
Lemma is_word_clear_bit32 w n : is_word w -> is_word (clear_bit32 w n).
Proof. intros. apply is_word_land; [done|apply is_word_not32]. Qed.

(** ** Sorted lists *)

Lemma StronglySorted_middle {A} (R : relation A) L1 e L2 :
  StronglySorted R (L1 ++ e :: L2) <->
  StronglySorted R (L1 ++ L2) /\ Forall (fun x => R x e) L1 /\ Forall (R e) L2.
Proof.
  induction L1 as [|x L1 IH]; simpl.
  - split; [intros [H1 H2]%StronglySorted_inv|intros (H1 & _ & H2)]; [done|by constructor].
  - split.
    + intros [H1 H2]%StronglySorted_inv. apply IH in H1 as (H1 & H3 & H4). rewrite Forall_app, Forall_cons in H2.
      destruct H2 as (H2 & H5 & H6). split_and!; [|by constructor|done]. constructor; [done|]. by apply Forall_app.
    + intros (H1 & H3 & H4). apply StronglySorted_inv in H1 as [H1 H2]. apply Forall_cons in H3 as [H3 H5].
      constructor; [by apply IH|]. rewrite Forall_app in *. destruct H2. by split; [|constructor].
Qed.

(** ** Finite stores *)

(** A list of distinct addresses of a store is no longer than the store: the
    bound of the loops that follow links. *)
Lemma nodup_length_size `{Countable K} {V} (m : gmap K V) (l : list K) :
  NoDup l -> (forall a, a ∈ l -> is_Some (m !! a)) -> (length l <= size m)%nat.
Proof.
  intros Hnd Hd. rewrite <-(size_list_to_set (C := gset K)) by done. rewrite <-(size_dom (D := gset K)).
  apply subseteq_size. intros a Ha. apply elem_of_dom, Hd. by apply elem_of_list_to_set in Ha.
Qed.

(** ** A state monad with crashes

    C code is modelled as a function from a state to either a result and a
    new state, or a crash: a failed [ASSERT], a dereference of a pointer that
    designates no object, an array access outside the array, or a loop that
    has exhausted its bound. *)

Inductive fault : Type :=
| AssertionFailed
| InvalidPointer
| IndexOutOfBounds
| LoopBoundExceeded.

#[export] Instance fault_eq_dec : EqDecision fault.
Proof. solve_decision. Defined.

Inductive outcome (S A : Type) : Type :=
| Done (a : A) (s : S)
| Crash (f : fault).
Arguments Done {S A} a s.
Arguments Crash {S A} f.

Definition M (S A : Type) : Type := S -> outcome S A.

Section monad.
Context {S : Type}.

Definition ret {A} (a : A) : M S A := fun s => Done a s.

Definition bind {A B} (m : M S A) (k : A -> M S B) : M S B :=
  fun s => match m s with Done a s' => k a s' | Crash f => Crash f end.

Definition crash {A} (f : fault) : M S A := fun _ => Crash f.

Definition gets {A} (f : S -> A) : M S A := fun s => Done (f s) s.

Definition modify (f : S -> S) : M S unit := fun s => Done tt (f s).

(** [ASSERT(b)] *)
Definition ASSERT (b : bool) : M S unit :=
  if b then ret tt else crash AssertionFailed.

(** The value of a C expression that exists only when an access is valid. *)
Definition demand {A} (f : fault) (o : option A) : M S A :=
  match o with Some a => ret a | None => crash f end.

(** [arr[i]] with an integer index *)
Definition index {A} (l : list A) (i : Z) : M S A :=
  if 0 <=? i then demand IndexOutOfBounds (l !! Z.to_nat i) else crash IndexOutOfBounds.

(** The array after [arr[i] = v]; the access must be within the array. *)
Definition index_set {A} (l : list A) (i : Z) (v : A) : M S (list A) :=
  bind (index l i) (fun _ => ret (<[Z.to_nat i := v]> l)).

(** Total-correctness predicate transformer: [wp m Q s] says that [m] run
    from [s] does not crash and ends with a result satisfying [Q]. *)
Definition wp {A} (m : M S A) (Q : A -> S -> Prop) (s : S) : Prop :=
  match m s with Done a s' => Q a s' | Crash _ => False end.

End monad.

Notation "'let!' x ':=' m 'in' k" := (bind m (fun x => k))
  (at level 10, x pattern, m at level 100, k at level 200,
   format "'[v' 'let!'  x  ':='  m  'in' '/' k ']'") : cmonad_scope.
Notation "'do!' m 'in' k" := (bind m (fun _ => k))
  (at level 10, m at level 100, k at level 200,
   format "'[v' 'do!'  m  'in' '/' k ']'") : cmonad_scope.
Notation "'when' b 'do' m" := (if b : bool then m else ret tt)
  (at level 199, b at level 100, m at level 100) : cmonad_scope.
Open Scope cmonad_scope.

Section wp_rules.
Context {S : Type}.
Implicit Types s : S.

Lemma wp_ret {A} (a : A) Q s : Q a s -> wp (ret a) Q s.
Proof. done. Qed.

Lemma wp_bind {A B} (m : M S A) (k : A -> M S B) Q s :
  wp m (fun a s' => wp (k a) Q s') s -> wp (bind m k) Q s.
Proof. unfold wp, bind. by destruct (m s). Qed.

Lemma wp_gets {A} (f : S -> A) Q s : Q (f s) s -> wp (gets f) Q s.
Proof. done. Qed.

Lemma wp_modify (f : S -> S) Q s : Q tt (f s) -> wp (modify f) Q s.
Proof. done. Qed.

Lemma wp_ASSERT (b : bool) Q s : b = true -> Q tt s -> wp (ASSERT b) Q s.
Proof. by intros ->. Qed.

Lemma wp_demand {A} f (o : option A) (a : A) Q s :
  o = Some a -> Q a s -> wp (demand f o) Q s.
Proof. by intros ->. Qed.

Lemma wp_mono {A} (m : M S A) (P Q : A -> S -> Prop) s :
  wp m P s -> (forall a s', P a s' -> Q a s') -> wp m Q s.
Proof. unfold wp. destruct (m s); eauto. Qed.

Lemma wp_index {T} (l : list T) i x Q s :
  0 <= i -> l !! Z.to_nat i = Some x -> Q x s -> wp (index l i) Q s.
Proof.
  intros Hi Hl HQ. unfold index. destruct (Z.leb_spec 0 i); [|lia]. by apply (wp_demand _ _ x).
Qed.

Lemma wp_index_set {T} (l : list T) i v Q s :
  0 <= i < Z.of_nat (length l) -> Q (<[Z.to_nat i := v]> l) s -> wp (index_set l i v) Q s.
Proof.
  intros Hi HQ. unfold index_set. apply wp_bind.
  destruct (lookup_lt_is_Some_2 l (Z.to_nat i)) as [x Hx]; [lia|].
  eapply wp_index; [lia|done|]. by apply wp_ret.
Qed.

(** A [wp] fact exhibits the run it talks about. *)
Lemma wp_run {A} (m : M S A) Q s :
  wp m Q s <-> exists a s', m s = Done a s' /\ Q a s'.
Proof.
  unfold wp. destruct (m s) as [a s'|f]; split; naive_solver.
Qed.

End wp_rules.

Create HintDb wp discriminated.

(** One step of symbolic execution of a monadic program under [wp]. *)
Ltac wp_step :=
  lazymatch goal with
  | |- wp (bind _ _) _ _ => apply wp_bind
  | |- wp (ret _) _ _ => apply wp_ret
  | |- wp (gets _) _ _ => apply wp_gets
  | |- wp (modify _) _ _ => apply wp_modify
  | |- wp (ASSERT _) _ _ => apply wp_ASSERT
  | |- wp (demand _ _) _ _ => eapply wp_demand
  | |- wp (let _ := _ in _) _ _ => cbv zeta
  end.
Ltac wp_steps := repeat (wp_step; cbn beta).

(** Continue after a call whose specification is [lem]. *)
Tactic Notation "wp_call" uconstr(lem) := eapply wp_mono; [ eapply lem |].
