(* ===== verification/Rings.v ===== *)
(** * Linked lists in a store of records

    Records that carry a [next] and a [prev] pointer are threaded on circular
    doubly linked lists (rings) and on NULL-terminated chains.  This file
    relates the link fields of a store to the list of addresses they
    represent, for any type of records: the thread control blocks of the
    nanokernel and the cells of the [ll] library are its instances. *)

From S2P Require Import Prelude.

(** Records with link fields. *)
Class Links (V : Type) := {
  link_next : V -> option nat;
  link_prev : V -> option nat
}.

Section links.
Context {V : Type} {L : Links V}.
Implicit Types (m : gmap nat V) (a x y z h : nat) (l : list nat).

(** The link fields stored at an address. *)
Definition nxt m x : option (option nat) := link_next <$> m !! x.
Definition prv m x : option (option nat) := link_prev <$> m !! x.

Definition linked m x y : Prop := nxt m x = Some (Some y) /\ prv m y = Some (Some x).

(** [path m x l]: following [next] from [x] visits [l], and [prev] goes back. *)
Fixpoint path m x l : Prop :=
  match l with
  | [] => True
  | y :: l' => linked m x y /\ path m y l'
  end.

Definition ring m l : Prop :=
  match l with
  | [] => True
  | x :: l' => path m x (l' ++ [x])
  end.

(** NULL-terminated chain through [next] only. *)
Fixpoint chain m l : Prop :=
  match l with
  | [] => True
  | x :: l' => nxt m x = Some (head l') /\ prv m x = Some None /\ chain m l'
  end.

Lemma is_Some_nxt m x v : nxt m x = Some v -> is_Some (m !! x).
Proof. unfold nxt. destruct (m !! x); by eauto. Qed.
Lemma is_Some_prv m x v : prv m x = Some v -> is_Some (m !! x).
Proof. unfold prv. destruct (m !! x); by eauto. Qed.

(** ** Paths and rings *)

Lemma path_app m x l1 y l2 :
  path m x (l1 ++ y :: l2) <-> path m x (l1 ++ [y]) /\ path m y l2.
Proof. revert x. induction l1 as [|z l1 IH]; intros x; simpl; [tauto|]. rewrite IH. tauto. Qed.

Lemma path_snoc m x l y :
  path m x (l ++ [y]) <-> path m x l /\ linked m (default x (last l)) y.
Proof.
  revert x. induction l as [|z l IH]; intros x; simpl; [tauto|].
  rewrite IH. rewrite (last_cons z l). destruct (last l); simpl; tauto.
Qed.

Lemma path_frame m m' x l :
  path m x l ->
  NoDup (x :: l) ->
  (forall y, y ∈ x :: l -> y <> default x (last l) -> nxt m' y = nxt m y) ->
  (forall y, y ∈ l -> prv m' y = prv m y) ->
  path m' x l.
Proof.
  revert x. induction l as [|y l IH]; intros x; simpl; [done|].
  intros [[H1 H2] Hp] Hnd Hn Hpv.
  assert (Hx : x <> default y (last l)).
  { apply NoDup_cons in Hnd as [Hx _]. destruct (last l) as [w|] eqn:E; simpl.
    - apply last_Some_elem_of in E. set_solver.
    - set_solver. }
  assert (Hd : default x (last (y :: l)) = default y (last l)).
  { rewrite last_cons. by destruct (last l). }
  rewrite Hd in Hn.
  split; [split|].
  - rewrite Hn; [done|set_solver|done].
  - rewrite Hpv; [done|set_solver].
  - apply IH; [done| by apply NoDup_cons in Hnd as [_ ?] | | ].
    + intros w Hw. apply Hn. set_solver.
    + intros w Hw. apply Hpv. set_solver.
Qed.

Lemma ring_path m x l : ring m (x :: l) <-> path m x l /\ linked m (default x (last l)) x.
Proof. apply path_snoc. Qed.

Lemma ring_rotate m l1 l2 : ring m (l1 ++ l2) -> ring m (l2 ++ l1).
Proof.
  destruct l1 as [|x l1]; [by rewrite app_nil_r|].
  destruct l2 as [|y l2]; [by rewrite app_nil_r|]. simpl.
  intros H. rewrite <-!app_assoc in *. simpl in *.
  apply path_app in H as [H1 H2]. by apply path_app.
Qed.

Lemma ring_frame m m' l :
  ring m l -> (forall y, y ∈ l -> nxt m' y = nxt m y /\ prv m' y = prv m y) -> ring m' l.
Proof.
  destruct l as [|x l]; [done|]. unfold ring. intros H Hf.
  assert (Hf' : forall y, y ∈ x :: (l ++ [x]) -> nxt m' y = nxt m y /\ prv m' y = prv m y).
  { intros y Hy. apply Hf. set_solver. }
  clear Hf. generalize dependent x. intros x. generalize (l ++ [x]). clear l.
  intros l. revert x. induction l as [|y l IH]; intros x; simpl; [done|].
  intros [[H1 H2] Hp] Hf. split; [split|].
  - destruct (Hf x) as [-> _]; [set_solver|done].
  - destruct (Hf y) as [_ ->]; [set_solver|done].
  - apply IH; [done|]. intros w Hw. apply Hf. set_solver.
Qed.

Lemma ring_head_prev m x l : ring m (x :: l) -> prv m x = Some (Some (default x (last l))).
Proof. rewrite ring_path. by intros [_ [_ H]]. Qed.

Lemma ring_head_next m x l : ring m (x :: l) -> nxt m x = Some (Some (default x (head l))).
Proof. destruct l as [|y l]; simpl; unfold linked; tauto. Qed.

Lemma ring_elem m l x : ring m l -> x ∈ l -> exists n p, nxt m x = Some (Some n) /\ prv m x = Some (Some p).
Proof.
  intros Hr Hx. apply list_elem_of_split in Hx as (l1 & l2 & ->).
  apply ring_rotate in Hr. simpl in Hr.
  eexists _, _. split; [by eapply ring_head_next | by eapply ring_head_prev].
Qed.

Lemma ring_singleton m x : nxt m x = Some (Some x) -> prv m x = Some (Some x) -> ring m [x].
Proof. simpl. unfold linked. tauto. Qed.

(** A record linked to itself is alone on its ring. *)
Lemma ring_self m x l : NoDup (x :: l) -> ring m (x :: l) -> nxt m x = Some (Some x) -> l = [].
Proof.
  intros Hnd Hr Hn. rewrite (ring_head_next _ _ _ Hr) in Hn.
  destruct l as [|y l]; [done|]. simpl in Hn. apply NoDup_cons in Hnd as [Hx _]. set_solver.
Qed.

(** Insertion of [a] between the last element and the head. *)
Lemma ring_insert m m' h l a z :
  NoDup (h :: l) -> ring m (h :: l) -> a ∉ h :: l -> z = default h (last l) ->
  nxt m' a = Some (Some h) -> prv m' a = Some (Some z) ->
  nxt m' z = Some (Some a) -> prv m' h = Some (Some a) ->
  (forall x, x <> a -> x <> z -> nxt m' x = nxt m x) ->
  (forall x, x <> a -> x <> h -> prv m' x = prv m x) ->
  ring m' ((h :: l) ++ [a]).
Proof.
  intros Hnd Hr Ha -> Hna Hpa Hnz Hph Hn Hp. apply ring_path in Hr as [Hr _].
  simpl. apply ring_path. rewrite last_snoc. simpl. split; [|done].
  apply path_snoc. split; [|done].
  apply NoDup_cons in Hnd as Hnd'. destruct Hnd' as [Hh _].
  eapply path_frame; [done|done|..]; intros y Hy.
  - intros Hz. apply Hn; [set_solver|done].
  - apply Hp; set_solver.
Qed.

(** Removal of the head [a]. *)
Lemma ring_remove m m' a x r z :
  NoDup (a :: x :: r) -> ring m (a :: x :: r) -> z = default x (last r) ->
  nxt m' z = Some (Some x) -> prv m' x = Some (Some z) ->
  (forall y, y <> a -> y <> z -> nxt m' y = nxt m y) ->
  (forall y, y <> a -> y <> x -> prv m' y = prv m y) ->
  ring m' (x :: r).
Proof.
  intros Hnd Hr -> Hnz Hpx Hn Hp. simpl in Hr. destruct Hr as [_ Hr].
  apply path_snoc in Hr as [Hr _]. apply NoDup_cons in Hnd as [Ha Hnd].
  apply ring_path. split; [|done].
  apply NoDup_cons in Hnd as Hnd'. destruct Hnd' as [Hx _].
  eapply path_frame; [done|done|..]; intros y Hy.
  - intros Hz. apply Hn; [set_solver|done].
  - apply Hp; set_solver.
Qed.

(** ** Chains *)

Lemma chain_frame m m' l :
  chain m l -> (forall y, y ∈ l -> nxt m' y = nxt m y /\ prv m' y = prv m y) -> chain m' l.
Proof.
  induction l as [|x l IH]; simpl; [done|]. intros (H1 & H2 & H3) Hf.
  destruct (Hf x) as [-> ->]; [set_solver|]. split_and!; try done.
  apply IH; [done|]. intros; apply Hf; set_solver.
Qed.

Lemma chain_app m l1 l2 : chain m (l1 ++ l2) -> chain m l2.
Proof. induction l1; simpl; naive_solver. Qed.

(** Insertion of [a] before the part [l2] of a chain. *)
Lemma chain_insert m m' l1 l2 a :
  NoDup (l1 ++ l2) -> a ∉ l1 ++ l2 -> chain m (l1 ++ l2) ->
  nxt m' a = Some (head l2) -> prv m' a = Some None ->
  (forall y, last l1 = Some y -> nxt m' y = Some (Some a)) ->
  (forall y, y ∈ l1 ++ l2 -> last l1 <> Some y -> nxt m' y = nxt m y) ->
  (forall y, y ∈ l1 ++ l2 -> prv m' y = prv m y) ->
  chain m' (l1 ++ a :: l2).
Proof.
  intros Hnd Ha Hc Hna Hpa Hl Hn Hp. induction l1 as [|x l1 IH]; simpl in *.
  - split_and!; [done|done|]. eapply chain_frame; [done|].
    intros y Hy. split; [apply Hn|apply Hp]; set_solver.
  - destruct Hc as (Hc1 & Hc2 & Hc3). apply NoDup_cons in Hnd as [Hx Hnd].
    rewrite not_elem_of_cons in Ha. destruct Ha as [Hax Ha].
    split_and!.
    + destruct l1 as [|w l1]; simpl in *; [by apply Hl|].
      rewrite Hn; [done|set_solver|]. intros Hlast.
      assert (x ∈ w :: l1) by (by apply last_Some_elem_of). set_solver.
    + rewrite Hp; [done|set_solver].
    + apply IH; try done.
      * intros y Hy. apply Hl. rewrite last_cons. by rewrite Hy.
      * intros y Hy Hyl. apply Hn; [set_solver|]. rewrite last_cons.
        destruct (last l1); [congruence|]. set_solver.
      * intros y Hy. apply Hp. set_solver.
Qed.

(** Removal of [a] from a chain. *)
Lemma chain_remove m m' l1 a l2 :
  NoDup (l1 ++ a :: l2) -> chain m (l1 ++ a :: l2) ->
  (forall y, last l1 = Some y -> nxt m' y = Some (head l2)) ->
  (forall y, y ∈ l1 ++ l2 -> last l1 <> Some y -> nxt m' y = nxt m y) ->
  (forall y, y ∈ l1 ++ l2 -> prv m' y = prv m y) ->
  chain m' (l1 ++ l2).
Proof.
  intros Hnd Hc Hl Hn Hp. induction l1 as [|x l1 IH]; simpl in *.
  - destruct Hc as (_ & _ & Hc). eapply chain_frame; [done|].
    intros y Hy. split; [by apply Hn|by apply Hp].
  - destruct Hc as (Hc1 & Hc2 & Hc3). apply NoDup_cons in Hnd as [Hx Hnd].
    split_and!.
    + destruct l1 as [|w l1]; simpl in *; [by apply Hl|].
      rewrite Hn; [done|set_solver|]. intros Hlast.
      assert (x ∈ w :: l1) by (by apply last_Some_elem_of). set_solver.
    + rewrite Hp; [done|set_solver].
    + apply IH; try done.
      * intros y Hy. apply Hl. rewrite last_cons. by rewrite Hy.
      * intros y Hy Hyl. apply Hn; [set_solver|]. rewrite last_cons.
        destruct (last l1); [congruence|]. set_solver.
      * intros y Hy. apply Hp. set_solver.
Qed.

Lemma chain_elem m l1 x l2 :
  chain m (l1 ++ x :: l2) -> nxt m x = Some (head l2) /\ prv m x = Some None.
Proof. intros H%chain_app. simpl in H. tauto. Qed.

End links.

Create HintDb links discriminated.
#[export] Hint Resolve is_Some_nxt is_Some_prv : links.
