(* ===== verification/NanoState.v ===== *)
(** * The nanokernel's data: TCBs, kernel globals, and access to them

    Models [nanokernel/src/tcb.reg] (the thread control block),
    [nanokernel/include/thread.h] (thread states and return values), and the
    global variables of the [nanokernel/src] files, gathered in one record.

    A [tcb_t *] is an index into the [tcbs] array, or NULL.  On ARM the idle
    thread is the NULL pointer ([IDLE_TCB_PTR] in
    [arch/arm/nanokernel/include/nano.h]), and that is the convention used
    here.  Spinlocks are empty structures there ([sync.h]) and the kernel
    runs with interrupts disabled, so a kernel entry is one atomic step. *)

From S2P Require Import Prelude.
#[local] Open Scope Z_scope.

(** ** Configuration

    Values fixed when the kernel is built or patched by elfweaver. *)

Class NanoConfig := {
  NUM_EXECUTION_UNITS : nat;
  max_tcbs : nat;
  futex_hash_slots : Z;
  futex_hash_slots_lg2 : Z;
  NUM_INTERRUPTS : Z;
  cfg_units_pos : (1 <= NUM_EXECUTION_UNITS)%nat;
  cfg_tcbs_word : Z.of_nat max_tcbs < WORD_MOD - 1;
  cfg_slots_lg2 : 0 <= futex_hash_slots_lg2 < 16;
  cfg_slots : futex_hash_slots = 2 ^ futex_hash_slots_lg2;
  cfg_interrupts : 0 < NUM_INTERRUPTS <= 32
}.

(** [arch/arm/nanokernel/include/nano.h] *)
Definition MAX_PRIORITY : Z := 31.
Definition NUM_PRIORITIES : nat := 32.

(** [nanokernel/include/errors.h] *)
Definition EINVAL : Z := -1.
Definition ENOMEM : Z := -2.
Definition EBUSY : Z := -3.
Definition EWOULDBLOCK : Z := -4.

(** ** Threads *)

Inductive thread_state_t : Type :=
| THREAD_STATE_RUNNABLE
| THREAD_STATE_WAIT_FUTEX
| THREAD_STATE_WAIT_INT
| THREAD_STATE_WAIT_SIGNAL
| THREAD_STATE_WAIT_IPC_RECV
| THREAD_STATE_WAIT_IPC_SEND
| THREAD_STATE_WAIT_IPC_CALL
| THREAD_STATE_WAIT_JOIN
| THREAD_STATE_HALTED
| THREAD_STATE_ZOMBIE.

#[export] Instance thread_state_eq_dec : EqDecision thread_state_t.
Proof. solve_decision. Defined.

(** The [word_t] that encodes a thread state. *)
Definition state_word (st : thread_state_t) : Z :=
  u32 match st with
      | THREAD_STATE_RUNNABLE => 0
      | THREAD_STATE_WAIT_FUTEX => 2
      | THREAD_STATE_WAIT_INT => 3
      | THREAD_STATE_WAIT_SIGNAL => 4
      | THREAD_STATE_WAIT_IPC_RECV => 5
      | THREAD_STATE_WAIT_IPC_SEND => 6
      | THREAD_STATE_WAIT_IPC_CALL => 7
      | THREAD_STATE_WAIT_JOIN => 8
      | THREAD_STATE_HALTED => -1
      | THREAD_STATE_ZOMBIE => -2
      end.

Abbreviation ptr := (option nat).

Record tcb : Type := Tcb {
  regs : list Z;                   (* r0 - r15 *)
  cpsr : Z;
  full_context_saved : Z;
  priority : Z;
  thread_state : thread_state_t;
  next : ptr;
  prev : ptr;
  futex_tag : Z;
  tid : Z;
  ipc_waiting_for : ptr;
  ipc_send_head : ptr;
  signals : Z;
  signal_mask : Z;
  registered_interrupt : Z;
  joiner : ptr
}.

Definition set_regs v t := Tcb v (cpsr t) (full_context_saved t) (priority t) (thread_state t) (next t) (prev t) (futex_tag t) (tid t) (ipc_waiting_for t) (ipc_send_head t) (signals t) (signal_mask t) (registered_interrupt t) (joiner t).
Definition set_full_context_saved v t := Tcb (regs t) (cpsr t) v (priority t) (thread_state t) (next t) (prev t) (futex_tag t) (tid t) (ipc_waiting_for t) (ipc_send_head t) (signals t) (signal_mask t) (registered_interrupt t) (joiner t).
Definition set_priority v t := Tcb (regs t) (cpsr t) (full_context_saved t) v (thread_state t) (next t) (prev t) (futex_tag t) (tid t) (ipc_waiting_for t) (ipc_send_head t) (signals t) (signal_mask t) (registered_interrupt t) (joiner t).
Definition set_thread_state v t := Tcb (regs t) (cpsr t) (full_context_saved t) (priority t) v (next t) (prev t) (futex_tag t) (tid t) (ipc_waiting_for t) (ipc_send_head t) (signals t) (signal_mask t) (registered_interrupt t) (joiner t).
Definition set_next v t := Tcb (regs t) (cpsr t) (full_context_saved t) (priority t) (thread_state t) v (prev t) (futex_tag t) (tid t) (ipc_waiting_for t) (ipc_send_head t) (signals t) (signal_mask t) (registered_interrupt t) (joiner t).
Definition set_prev v t := Tcb (regs t) (cpsr t) (full_context_saved t) (priority t) (thread_state t) (next t) v (futex_tag t) (tid t) (ipc_waiting_for t) (ipc_send_head t) (signals t) (signal_mask t) (registered_interrupt t) (joiner t).
Definition set_futex_tag v t := Tcb (regs t) (cpsr t) (full_context_saved t) (priority t) (thread_state t) (next t) (prev t) v (tid t) (ipc_waiting_for t) (ipc_send_head t) (signals t) (signal_mask t) (registered_interrupt t) (joiner t).
Definition set_ipc_waiting_for v t := Tcb (regs t) (cpsr t) (full_context_saved t) (priority t) (thread_state t) (next t) (prev t) (futex_tag t) (tid t) v (ipc_send_head t) (signals t) (signal_mask t) (registered_interrupt t) (joiner t).
Definition set_ipc_send_head v t := Tcb (regs t) (cpsr t) (full_context_saved t) (priority t) (thread_state t) (next t) (prev t) (futex_tag t) (tid t) (ipc_waiting_for t) v (signals t) (signal_mask t) (registered_interrupt t) (joiner t).
Definition set_signals v t := Tcb (regs t) (cpsr t) (full_context_saved t) (priority t) (thread_state t) (next t) (prev t) (futex_tag t) (tid t) (ipc_waiting_for t) (ipc_send_head t) v (signal_mask t) (registered_interrupt t) (joiner t).
Definition set_signal_mask v t := Tcb (regs t) (cpsr t) (full_context_saved t) (priority t) (thread_state t) (next t) (prev t) (futex_tag t) (tid t) (ipc_waiting_for t) (ipc_send_head t) (signals t) v (registered_interrupt t) (joiner t).
Definition set_registered_interrupt v t := Tcb (regs t) (cpsr t) (full_context_saved t) (priority t) (thread_state t) (next t) (prev t) (futex_tag t) (tid t) (ipc_waiting_for t) (ipc_send_head t) (signals t) (signal_mask t) v (joiner t).
Definition set_joiner v t := Tcb (regs t) (cpsr t) (full_context_saved t) (priority t) (thread_state t) (next t) (prev t) (futex_tag t) (tid t) (ipc_waiting_for t) (ipc_send_head t) (signals t) (signal_mask t) (registered_interrupt t) v.

(** [tcb->r<i> = v] *)
Definition set_reg (i : nat) (v : Z) (t : tcb) : tcb := set_regs (<[i := v]> (regs t)) t.
Definition get_reg (i : nat) (t : tcb) : Z := default 0 (regs t !! i).

(** ** Kernel globals *)

Record kstate : Type := KState {
  tcbs : gmap nat tcb;
  current_tcb : ptr;
  current_unit : nat;
  unit_priorities : list Z;
  reschedule_irqs : nat;           (* reschedule IPIs raised so far *)
  priority_bitmap : Z;
  priority_heads : list ptr;
  futex_hash : list (ptr * ptr);   (* head, tail *)
  futex_pending_tags : list Z;
  num_pending_tags : Z;
  tcb_free_head : ptr;
  interrupt_handlers : list ptr;
  priority_int_mask : list Z;
  irq_enable : Z                   (* the interrupt controller's enable bits *)
}.

Definition set_tcbs v s := KState v (current_tcb s) (current_unit s) (unit_priorities s) (reschedule_irqs s) (priority_bitmap s) (priority_heads s) (futex_hash s) (futex_pending_tags s) (num_pending_tags s) (tcb_free_head s) (interrupt_handlers s) (priority_int_mask s) (irq_enable s).
Definition set_current_tcb v s := KState (tcbs s) v (current_unit s) (unit_priorities s) (reschedule_irqs s) (priority_bitmap s) (priority_heads s) (futex_hash s) (futex_pending_tags s) (num_pending_tags s) (tcb_free_head s) (interrupt_handlers s) (priority_int_mask s) (irq_enable s).
Definition set_unit_priorities v s := KState (tcbs s) (current_tcb s) (current_unit s) v (reschedule_irqs s) (priority_bitmap s) (priority_heads s) (futex_hash s) (futex_pending_tags s) (num_pending_tags s) (tcb_free_head s) (interrupt_handlers s) (priority_int_mask s) (irq_enable s).
Definition set_reschedule_irqs v s := KState (tcbs s) (current_tcb s) (current_unit s) (unit_priorities s) v (priority_bitmap s) (priority_heads s) (futex_hash s) (futex_pending_tags s) (num_pending_tags s) (tcb_free_head s) (interrupt_handlers s) (priority_int_mask s) (irq_enable s).
Definition set_priority_bitmap v s := KState (tcbs s) (current_tcb s) (current_unit s) (unit_priorities s) (reschedule_irqs s) v (priority_heads s) (futex_hash s) (futex_pending_tags s) (num_pending_tags s) (tcb_free_head s) (interrupt_handlers s) (priority_int_mask s) (irq_enable s).
Definition set_priority_heads v s := KState (tcbs s) (current_tcb s) (current_unit s) (unit_priorities s) (reschedule_irqs s) (priority_bitmap s) v (futex_hash s) (futex_pending_tags s) (num_pending_tags s) (tcb_free_head s) (interrupt_handlers s) (priority_int_mask s) (irq_enable s).
Definition set_futex_hash v s := KState (tcbs s) (current_tcb s) (current_unit s) (unit_priorities s) (reschedule_irqs s) (priority_bitmap s) (priority_heads s) v (futex_pending_tags s) (num_pending_tags s) (tcb_free_head s) (interrupt_handlers s) (priority_int_mask s) (irq_enable s).
Definition set_pending v n s := KState (tcbs s) (current_tcb s) (current_unit s) (unit_priorities s) (reschedule_irqs s) (priority_bitmap s) (priority_heads s) (futex_hash s) v n (tcb_free_head s) (interrupt_handlers s) (priority_int_mask s) (irq_enable s).
Definition set_tcb_free_head v s := KState (tcbs s) (current_tcb s) (current_unit s) (unit_priorities s) (reschedule_irqs s) (priority_bitmap s) (priority_heads s) (futex_hash s) (futex_pending_tags s) (num_pending_tags s) v (interrupt_handlers s) (priority_int_mask s) (irq_enable s).
Definition set_interrupt_handlers v s := KState (tcbs s) (current_tcb s) (current_unit s) (unit_priorities s) (reschedule_irqs s) (priority_bitmap s) (priority_heads s) (futex_hash s) (futex_pending_tags s) (num_pending_tags s) (tcb_free_head s) v (priority_int_mask s) (irq_enable s).
Definition set_priority_int_mask v s := KState (tcbs s) (current_tcb s) (current_unit s) (unit_priorities s) (reschedule_irqs s) (priority_bitmap s) (priority_heads s) (futex_hash s) (futex_pending_tags s) (num_pending_tags s) (tcb_free_head s) (interrupt_handlers s) v (irq_enable s).
Definition set_irq_enable v s := KState (tcbs s) (current_tcb s) (current_unit s) (unit_priorities s) (reschedule_irqs s) (priority_bitmap s) (priority_heads s) (futex_hash s) (futex_pending_tags s) (num_pending_tags s) (tcb_free_head s) (interrupt_handlers s) (priority_int_mask s) v.
Definition set_unit v s := KState (tcbs s) (current_tcb s) v (unit_priorities s) (reschedule_irqs s) (priority_bitmap s) (priority_heads s) (futex_hash s) (futex_pending_tags s) (num_pending_tags s) (tcb_free_head s) (interrupt_handlers s) (priority_int_mask s) (irq_enable s).

Abbreviation K A := (M kstate A).

(** ** Access to TCBs and arrays *)

(** [*p] *)
Definition deref (p : ptr) : K tcb :=
  let! a := demand InvalidPointer p in
  let! m := gets tcbs in
  demand InvalidPointer (m !! a).

(** [p->field] *)
Definition rd {A} (p : ptr) (field : tcb -> A) : K A :=
  let! t := deref p in ret (field t).

(** [p->field = v], the assignment being the function [f] on the TCB *)
Definition wr (p : ptr) (f : tcb -> tcb) : K unit :=
  let! a := demand InvalidPointer p in
  let! m := gets tcbs in
  let! t := demand InvalidPointer (m !! a) in
  modify (set_tcbs (<[a := f t]> m)).

(** ** [nanokernel/include/thread.h] *)

Definition is_thread_alive (t : tcb) : bool :=
  state_word (thread_state t) <? state_word THREAD_STATE_ZOMBIE.

(** [switch_to]: installs the next thread as the current one and leaves the
    kernel (the register restore is [arch/arm/nanokernel/src/switch_to.S]). *)
Definition switch_to (p : ptr) : K unit := modify (set_current_tcb p).

Definition set_syscall_return_val_success (p : ptr) (value : Z) : K unit :=
  wr p (set_reg 0 (u32 value)).

Definition set_syscall_return_val_error (p : ptr) (value error_code : Z) : K unit :=
  wr p (set_reg 0 (u32 value)).

Definition syscall_return_success (result : Z) : K unit :=
  let! c := gets current_tcb in
  do! set_syscall_return_val_success c result in
  switch_to c.

Definition syscall_return_error (result error_code : Z) : K unit :=
  let! c := gets current_tcb in
  do! set_syscall_return_val_error c result error_code in
  switch_to c.
