(* ===== verification/NanoSchedule.v ===== *)
(** * The nanokernel scheduler ([nanokernel/src/c_schedule.c])

    Definitions of the scheduler's operations on the ready queues.  The
    [#if NUM_EXECUTION_UNITS > 1] parts are guarded by the configuration's
    [NUM_EXECUTION_UNITS]. *)

From S2P Require Import Prelude NanoState.
#[local] Open Scope Z_scope.

Section schedule.
Context {cfg : NanoConfig}.

Definition IDLE_TCB_PTR : ptr := None.

(** [NUM_EXECUTION_UNITS > 1] *)
Definition multi_unit : bool := (1 <? NUM_EXECUTION_UNITS)%nat.

(** [__builtin_clz] on a 32-bit word; the ARM instruction yields 32 on 0. *)
Definition clz (x : Z) : Z := if x =? 0 then 32 else 31 - Z.log2 x.

Definition get_highest_priority : K Z :=
  let! bm := gets priority_bitmap in ret (MAX_PRIORITY - clz bm).

(** [flag_reschedule()] *)
Definition flag_reschedule : K unit :=
  modify (fun s => set_reschedule_irqs (S (reschedule_irqs s)) s).

(** The second branch of the C function assigns instead of comparing, and
    yields the assigned value. *)
Definition is_current_unit_prio_correct : K bool :=
  if multi_unit then
    let! c := gets current_tcb in
    let! u := gets current_unit in
    let! ups := gets unit_priorities in
    if bool_decide (c = IDLE_TCB_PTR) then
      let! up := index ups (Z.of_nat u) in ret (up =? 0)
    else
      let! p := rd c priority in
      let v := (p + 1) mod 256 in
      let! ups' := index_set ups (Z.of_nat u) v in
      do! modify (set_unit_priorities ups') in
      ret (negb (v =? 0))
  else ret true.

(** The search loop of [smt_reschedule], from unit [i] on. *)
Fixpoint smt_reschedule_from (ups : list Z) (min_thread : Z) (n : nat) (i : Z) : K unit :=
  match n with
  | O => ret tt
  | S n' =>
      let! up := index ups i in
      if up <? min_thread then flag_reschedule
      else smt_reschedule_from ups min_thread n' (i + 1)
  end.

Definition smt_reschedule : K unit :=
  if multi_unit then
    let! hp := get_highest_priority in
    let! ups := gets unit_priorities in
    smt_reschedule_from ups (hp + 1) NUM_EXECUTION_UNITS 0
  else ret tt.

Definition set_unit_priority (prio : Z) : K unit :=
  if multi_unit then
    let! u := gets current_unit in
    let! ups := gets unit_priorities in
    let! ups' := index_set ups (Z.of_nat u) ((prio + 1) mod 256) in
    modify (set_unit_priorities ups')
  else ret tt.

Definition enqueue (tp : ptr) : K unit :=
  do! ASSERT (bool_decide (tp <> IDLE_TCB_PTR)) in
  let! t := deref tp in
  do! ASSERT (bool_decide (next t = None) && bool_decide (prev t = None)) in
  let! heads := gets priority_heads in
  let! first := index heads (priority t) in
  if bool_decide (first = None) then
    let! heads' := index_set heads (priority t) tp in
    do! modify (set_priority_heads heads') in
    do! wr tp (set_next tp) in
    do! wr tp (set_prev tp) in
    modify (fun s => set_priority_bitmap (set_bit32 (priority_bitmap s) (priority t)) s)
  else
    let! prv := rd first prev in
    do! wr tp (set_next first) in
    do! wr tp (set_prev prv) in
    do! wr first (set_prev tp) in
    wr prv (set_next tp).

Definition dequeue_head (prio : Z) : K ptr :=
  let! heads := gets priority_heads in
  let! tp := index heads prio in
  do! ASSERT (bool_decide (tp <> None)) in
  let! t := deref tp in
  do! (if bool_decide (next t = tp) then
         do! modify (fun s => set_priority_bitmap (clear_bit32 (priority_bitmap s) prio) s) in
         let! heads' := index_set heads prio None in
         modify (set_priority_heads heads')
       else
         let prv := prev t in
         let nxt := next t in
         do! wr prv (set_next nxt) in
         do! wr nxt (set_prev prv) in
         let! heads' := index_set heads prio nxt in
         modify (set_priority_heads heads')) in
  do! wr tp (set_next None) in
  do! wr tp (set_prev None) in
  ret tp.

Definition do_schedule : K ptr :=
  let! ok := is_current_unit_prio_correct in
  do! ASSERT ok in
  let! bm := gets priority_bitmap in
  if bm =? 0 then
    do! set_unit_priority (-1) in
    ret IDLE_TCB_PTR
  else
    let! next_prio := get_highest_priority in
    let! nxt := dequeue_head next_prio in
    do! ASSERT (bool_decide (nxt <> None)) in
    do! set_unit_priority next_prio in
    do! smt_reschedule in
    ret nxt.

(** The scheduler lock is a no-op, see [NanoState]. *)
Definition schedule : K ptr := do_schedule.

(** The comparison is between an [int] and a [word_t], hence unsigned. *)
Definition yield : K ptr :=
  let! c := gets current_tcb in
  do! ASSERT (bool_decide (c <> None)) in
  let! t := deref c in
  do! ASSERT (bool_decide (thread_state t = THREAD_STATE_RUNNABLE)) in
  let! ok := is_current_unit_prio_correct in
  do! ASSERT ok in
  let! hp := get_highest_priority in
  if priority t <=? u32 hp then
    do! enqueue c in
    do_schedule
  else ret c.

Definition deactivate_self (st : thread_state_t) : K unit :=
  let! c := gets current_tcb in
  do! ASSERT (bool_decide (c <> IDLE_TCB_PTR)) in
  let! cst := rd c thread_state in
  do! ASSERT (bool_decide (cst = THREAD_STATE_RUNNABLE)) in
  do! ASSERT (bool_decide (st <> THREAD_STATE_RUNNABLE)) in
  wr c (set_thread_state st).

Definition deactivate_self_schedule (st : thread_state_t) : K ptr :=
  let! c := gets current_tcb in
  do! ASSERT (bool_decide (c <> IDLE_TCB_PTR)) in
  let! cst := rd c thread_state in
  do! ASSERT (bool_decide (cst = THREAD_STATE_RUNNABLE)) in
  let! ok := is_current_unit_prio_correct in
  do! ASSERT ok in
  do! ASSERT (bool_decide (st <> THREAD_STATE_RUNNABLE)) in
  do! wr c (set_thread_state st) in
  do_schedule.

Definition activate (dest : ptr) : K unit :=
  do! ASSERT (bool_decide (dest <> IDLE_TCB_PTR)) in
  let! dst := rd dest thread_state in
  do! ASSERT (bool_decide (dst <> THREAD_STATE_RUNNABLE)) in
  do! wr dest (set_thread_state THREAD_STATE_RUNNABLE) in
  enqueue dest.

Definition activate_schedule (dest : ptr) : K ptr :=
  do! ASSERT (bool_decide (dest <> IDLE_TCB_PTR)) in
  let! c := gets current_tcb in
  do! (if bool_decide (c = IDLE_TCB_PTR) then ret tt
       else let! cst := rd c thread_state in
            ASSERT (bool_decide (cst = THREAD_STATE_RUNNABLE))) in
  let! ok := is_current_unit_prio_correct in
  do! ASSERT ok in
  let! dst := rd dest thread_state in
  do! ASSERT (bool_decide (dst <> THREAD_STATE_RUNNABLE)) in
  do! wr dest (set_thread_state THREAD_STATE_RUNNABLE) in
  let! dprio := rd dest priority in
  if bool_decide (c = IDLE_TCB_PTR) then
    do! set_unit_priority dprio in
    ret dest
  else
    let! cprio := rd c priority in
    if cprio <? dprio then
      do! enqueue c in
      do! set_unit_priority dprio in
      do! smt_reschedule in
      ret dest
    else
      do! enqueue dest in
      do! smt_reschedule in
      ret c.

(** [nanokernel/src/sys_yield.c] *)
Definition sys_yield : K unit :=
  let! nxt := yield in switch_to nxt.

End schedule.
