(* ===== verification/NanoSyscalls.v ===== *)
(** * The nanokernel system calls

    One module per source file: [Futex] ([sys_futex.c]), [Ipc]
    ([sys_ipc.c]), [Signal] ([sys_signal.c]), [Interrupt]
    ([sys_interrupt.c] and [arch/arm/nanokernel/src/interrupt_arch.c] with
    the Versatile interrupt controller) and [Thread] ([sys_thread.c]).  A
    system call that does not return in C is a program that ends by
    [switch_to]; an early [syscall_return_*] is the end of its branch. *)

From S2P Require Import Prelude NanoState NanoSchedule.
#[local] Open Scope Z_scope.

Module Futex.
Section futex.
Context {cfg : NanoConfig}.

Definition hash_tag (tag : Z) : Z :=
  let h1 := u32 (Z.shiftr tag 2
                 + Z.shiftr tag (1 * futex_hash_slots_lg2)
                 + Z.shiftr tag (2 * futex_hash_slots_lg2)) in
  Z.land h1 (futex_hash_slots - 1).

Definition get_entry (h : Z) : K (ptr * ptr) :=
  let! tbl := gets futex_hash in index tbl h.
Definition put_entry (h : Z) (e : ptr * ptr) : K unit :=
  let! tbl := gets futex_hash in
  let! tbl' := index_set tbl h e in
  modify (set_futex_hash tbl').

(** The place a [tcb_t **prev] points to: the head field of the hash entry,
    or the [next] field of a thread. *)
Inductive slot : Type := SlotHead | SlotNext (p : ptr).

Definition store_slot (h : Z) (sl : slot) (v : ptr) : K unit :=
  match sl with
  | SlotHead => let! e := get_entry h in put_entry h (v, snd e)
  | SlotNext p => wr p (set_next v)
  end.

(** The [while] loop of [enqueue_futex] and what follows it.  A queue holds
    at most [max_tcbs] threads, which bounds the iterations. *)
Fixpoint enqueue_futex_loop (fuel : nat) (h : Z) (thread : ptr) (prv : slot) (curr : ptr) : K unit :=
  if bool_decide (curr = None) then
    do! wr thread (set_next None) in
    let! e := get_entry h in
    do! put_entry h (fst e, thread) in
    store_slot h prv thread
  else
    match fuel with
    | O => crash LoopBoundExceeded
    | S fuel' =>
        let! tprio := rd thread priority in
        let! cprio := rd curr priority in
        if cprio <? tprio then
          do! store_slot h prv thread in
          wr thread (set_next curr)
        else
          let! nxt := rd curr next in
          enqueue_futex_loop fuel' h thread (SlotNext curr) nxt
    end.

Definition enqueue_futex (h : Z) (thread : ptr) : K unit :=
  let! e := get_entry h in
  enqueue_futex_loop max_tcbs h thread SlotHead (fst e).

Definition dequeue_futex (h : Z) (prv thread : ptr) : K unit :=
  let! e := get_entry h in
  let! nxt := rd thread next in
  do! (if bool_decide (fst e = thread) then
         do! ASSERT (bool_decide (prv = None)) in
         put_entry h (nxt, snd e)
       else
         do! ASSERT (bool_decide (prv <> None)) in
         wr prv (set_next nxt)) in
  let! e' := get_entry h in
  do! (if bool_decide (snd e' = thread) then put_entry h (fst e', prv) else ret tt) in
  wr thread (set_next None).

(** The [for] loop over the pending tags, from index [n - 1] down to 0:
    the index of a pending signal for [tag], if there is one. *)
Fixpoint find_pending (tags : list Z) (tag : Z) (n : nat) : K (option Z) :=
  match n with
  | O => ret None
  | S n' =>
      let! x := index tags (Z.of_nat n') in
      if x =? tag then ret (Some (Z.of_nat n')) else find_pending tags tag n'
  end.

Definition sys_futex_wait (tag : Z) : K unit :=
  if tag =? 0 then syscall_return_error 1 EINVAL
  else
    let! tags := gets futex_pending_tags in
    let! num := gets num_pending_tags in
    let! found := find_pending tags tag (Z.to_nat num) in
    match found with
    | Some i =>
        let! last := index tags (num - 1) in
        let! tags' := index_set tags i last in
        do! modify (set_pending tags' (num - 1)) in
        syscall_return_success 0
    | None =>
        let h := hash_tag tag in
        let! c := gets current_tcb in
        do! set_syscall_return_val_success c 0 in
        let! nxt := deactivate_self_schedule THREAD_STATE_WAIT_FUTEX in
        do! enqueue_futex h c in
        do! wr c (set_futex_tag tag) in
        switch_to nxt
    end.

(** The search loop of [signal_futex]. *)
Fixpoint signal_futex_loop (fuel : nat) (h : Z) (tag : Z) (previous head : ptr) : K ptr :=
  if bool_decide (head = None) then ret None
  else
    match fuel with
    | O => crash LoopBoundExceeded
    | S fuel' =>
        let! ft := rd head futex_tag in
        if ft =? tag then
          do! dequeue_futex h previous head in
          ret head
        else
          let! nxt := rd head next in
          signal_futex_loop fuel' h tag head nxt
    end.

Definition signal_futex (tag : Z) : K ptr :=
  let h := hash_tag tag in
  let! e := get_entry h in
  signal_futex_loop max_tcbs h tag None (fst e).

Definition sys_futex_signal (tag : Z) : K unit :=
  if tag =? 0 then syscall_return_error 1 EINVAL
  else
    let! t := signal_futex tag in
    if bool_decide (t <> None) then
      let! nxt := activate_schedule t in
      let! c := gets current_tcb in
      do! set_syscall_return_val_success c 0 in
      switch_to nxt
    else
      let! num := gets num_pending_tags in
      if Z.of_nat max_tcbs <=? num then syscall_return_error 1 ENOMEM
      else
        let! tags := gets futex_pending_tags in
        let! tags' := index_set tags num tag in
        do! modify (set_pending tags' (num + 1)) in
        syscall_return_success 0.

End futex.
End Futex.

Module Ipc.
Section ipc.
Context {cfg : NanoConfig}.

Definition IPC_WAIT_ANY : Z := u32 (-1).
Definition IPC_ERROR : Z := u32 (-1).

Definition OPERATION_IS_NON_BLOCKING (x : Z) : bool := negb (Z.land x 1 =? 0).
Definition OPERATION_IS_CALL (x : Z) : bool := negb (Z.land x 2 =? 0).

Definition is_ready_to_receive (src dest : ptr) : K bool :=
  let! d := deref dest in
  if bool_decide (thread_state d <> THREAD_STATE_WAIT_IPC_RECV) then ret false
  else ret (bool_decide (ipc_waiting_for d = src) || bool_decide (ipc_waiting_for d = None)).

(** [d[i] = s[i]] for i = 1..7 *)
Definition copy_regs (s d : tcb) : tcb :=
  foldl (fun d i => set_reg i (get_reg i s) d) d [1; 2; 3; 4; 5; 6; 7]%nat.

Definition copy_message (src dest : ptr) : K unit :=
  do! wr dest (set_full_context_saved 1) in
  let! s := deref src in
  wr dest (copy_regs s).

Definition enqueue_send (dest src : ptr) : K unit :=
  let! s := deref src in
  do! ASSERT (bool_decide (next s = None) && bool_decide (prev s = None)) in
  let! first := rd dest ipc_send_head in
  if bool_decide (first = None) then
    do! wr dest (set_ipc_send_head src) in
    do! wr src (set_next src) in
    wr src (set_prev src)
  else
    let! f := deref first in
    do! ASSERT (bool_decide (next f <> None)) in
    do! ASSERT (bool_decide (prev f <> None)) in
    let last := prev f in
    do! wr src (set_next first) in
    do! wr src (set_prev last) in
    do! wr first (set_prev src) in
    wr last (set_next src).

Definition dequeue_send (dest src : ptr) : K unit :=
  let! s := deref src in
  do! ASSERT (bool_decide (next s <> None) && bool_decide (prev s <> None)) in
  let! hd := rd dest ipc_send_head in
  do! ASSERT (bool_decide (hd <> None)) in
  let! hdn := rd hd next in
  do! ASSERT (bool_decide (hdn <> None)) in
  do! (if bool_decide (next s = src) then
         wr dest (set_ipc_send_head None)
       else
         do! wr (next s) (set_prev (prev s)) in
         do! wr (prev s) (set_next (next s)) in
         let! hd' := rd dest ipc_send_head in
         if bool_decide (hd' = src) then wr dest (set_ipc_send_head (next s)) else ret tt) in
  do! wr src (set_next None) in
  wr src (set_prev None).

Definition do_send (dest : ptr) (is_call is_non_blocking : bool) : K ptr :=
  let! c := gets current_tcb in
  let! ready := is_ready_to_receive c dest in
  if negb ready then
    if is_non_blocking then
      do! set_syscall_return_val_error c IPC_ERROR EWOULDBLOCK in
      ret c
    else
      do! enqueue_send dest c in
      do! wr c (set_ipc_waiting_for dest) in
      deactivate_self_schedule
        (if is_call then THREAD_STATE_WAIT_IPC_CALL else THREAD_STATE_WAIT_IPC_SEND)
  else
    do! copy_message c dest in
    do! wr dest (set_ipc_waiting_for None) in
    let! ctid := rd c tid in
    do! set_syscall_return_val_success dest ctid in
    if negb is_call then
      do! set_syscall_return_val_success c 0 in
      activate_schedule dest
    else
      do! wr c (set_ipc_waiting_for dest) in
      do! activate dest in
      do! deactivate_self THREAD_STATE_WAIT_IPC_RECV in
      schedule.

Definition sys_ipc_send_c (dest_thread operation : Z) : K unit :=
  if Z.of_nat max_tcbs <=? dest_thread then syscall_return_error IPC_ERROR EINVAL
  else
    let dest := Some (Z.to_nat dest_thread) in
    let! d := deref dest in
    if negb (is_thread_alive d) then syscall_return_error IPC_ERROR EINVAL
    else
      let! nxt := do_send dest (OPERATION_IS_CALL operation) (OPERATION_IS_NON_BLOCKING operation) in
      switch_to nxt.

Definition sys_ipc_recv (src_thread operation : Z) : K unit :=
  if (Z.of_nat max_tcbs <=? src_thread) && negb (src_thread =? IPC_WAIT_ANY)
  then syscall_return_error IPC_ERROR EINVAL
  else
    let! c := gets current_tcb in
    let! src := rd c ipc_send_head in
    if bool_decide (src = None) then
      do! wr c (set_ipc_waiting_for src) in
      let! nxt := deactivate_self_schedule THREAD_STATE_WAIT_IPC_RECV in
      switch_to nxt
    else
      do! dequeue_send c src in
      do! copy_message src c in
      let! s := deref src in
      if bool_decide (thread_state s = THREAD_STATE_WAIT_IPC_CALL) then
        do! ASSERT (bool_decide (ipc_waiting_for s = c)) in
        do! wr src (set_thread_state THREAD_STATE_WAIT_IPC_RECV) in
        syscall_return_success (tid s)
      else
        do! wr src (set_ipc_waiting_for None) in
        do! set_syscall_return_val_success src 0 in
        let! stid := rd src tid in
        do! set_syscall_return_val_success c stid in
        let! nxt := activate_schedule src in
        switch_to nxt.

(** The creation and deletion callbacks of [sys_ipc.c] only take and release
    the (empty) IPC lock. *)
Definition sys_ipc_pre_thread_create_callback (tp : ptr) : K unit := ret tt.
Definition sys_ipc_post_thread_create_callback (tp : ptr) : K unit := ret tt.
Definition sys_ipc_pre_thread_delete_callback (tp : ptr) : K unit := ret tt.
Definition sys_ipc_post_thread_delete_callback (tp : ptr) : K unit := ret tt.

End ipc.
End Ipc.

Module Signal.
Section signal.
Context {cfg : NanoConfig}.

Definition sys_signal_poll (mask : Z) : K unit :=
  let! c := gets current_tcb in
  let! sg := rd c signals in
  do! wr c (set_signals (Z.land sg (not32 mask))) in
  syscall_return_success (Z.land sg mask).

Definition sys_signal_wait (mask : Z) : K unit :=
  let! c := gets current_tcb in
  let! sg := rd c signals in
  if negb (Z.land sg mask =? 0) then
    do! wr c (set_signals (Z.land sg (not32 mask))) in
    syscall_return_success (Z.land sg mask)
  else
    do! wr c (set_signal_mask mask) in
    let! nxt := deactivate_self_schedule THREAD_STATE_WAIT_SIGNAL in
    switch_to nxt.

Definition sys_signal_send (thread_id sigs : Z) : K unit :=
  if Z.of_nat max_tcbs <=? thread_id then syscall_return_error 1 EINVAL
  else
    let dest := Some (Z.to_nat thread_id) in
    let! d := deref dest in
    if negb (is_thread_alive d) then syscall_return_error 1 EINVAL
    else
      do! wr dest (set_signals (Z.lor (signals d) sigs)) in
      let! c := gets current_tcb in
      do! set_syscall_return_val_success c 0 in
      let! d' := deref dest in
      if bool_decide (thread_state d' = THREAD_STATE_WAIT_SIGNAL)
         && negb (Z.land sigs (signal_mask d') =? 0) then
        do! set_syscall_return_val_success dest (Z.land (signals d') (signal_mask d')) in
        do! wr dest (set_signals (Z.land (signals d') (not32 (signal_mask d')))) in
        let! nxt := activate_schedule dest in
        switch_to nxt
      else switch_to c.

Definition sys_signal_pre_thread_create_callback (tp : ptr) : K unit :=
  do! wr tp (set_signals 0) in
  wr tp (set_signal_mask 0).

(** The other callbacks only take and release the (empty) signal lock. *)
Definition sys_signal_post_thread_create_callback (tp : ptr) : K unit := ret tt.
Definition sys_signal_pre_thread_delete_callback (tp : ptr) : K unit := ret tt.
Definition sys_signal_post_thread_delete_callback (tp : ptr) : K unit := ret tt.

End signal.
End Signal.

Module Interrupt.
Section interrupt.
Context {cfg : NanoConfig}.

(** [-1UL]: no interrupt registered. *)
Definition NO_INTERRUPT : Z := u32 (-1).

(** [platform/versatile/nanokernel/src/interrupt.c]: writing to VICINTENABLE
    sets enable bits, writing to VICINTENCLEAR clears them. *)
Definition plat_unmask_interrupt (irq : Z) : K unit :=
  modify (fun s => set_irq_enable (set_bit32 (irq_enable s) irq) s).
Definition plat_mask_interrupt (irq : Z) : K unit :=
  modify (fun s => set_irq_enable (clear_bit32 (irq_enable s) irq) s).
(** The argument is the value read from VICIRQSTATUS. *)
Definition plat_decode_interrupt (status : Z) : Z := 31 - clz status.

Definition arch_unmask_interrupt (irq : Z) : K unit := plat_unmask_interrupt irq.
Definition arch_enable_interrupt (irq : Z) : K unit := ret tt.
Definition arch_disable_interrupt (irq : Z) : K unit := ret tt.

Definition INTERRUPT_BITMASK (n : Z) : Z := bit32 n.

Definition sys_interrupt_wait : K unit :=
  let! c := gets current_tcb in
  let! ri := rd c registered_interrupt in
  if ri =? NO_INTERRUPT then syscall_return_error (-1) EINVAL
  else
    let! nxt := deactivate_self_schedule THREAD_STATE_WAIT_INT in
    let! ri' := rd c registered_interrupt in
    do! arch_unmask_interrupt ri' in
    switch_to nxt.

(** The two loops over [priority_int_mask]: entries above [prio] get the
    interrupt's bit, the others lose it. *)
Definition register_int_mask (prio interrupt : Z) (masks : list Z) : list Z :=
  imap (fun i m => if prio <? Z.of_nat i then Z.lor m (INTERRUPT_BITMASK interrupt)
                   else Z.land m (not32 (INTERRUPT_BITMASK interrupt))) masks.

(** The loop of [sys_interrupt_deregister] over [priority_int_mask]. *)
Definition deregister_int_mask (interrupt : Z) (masks : list Z) : list Z :=
  (fun m => Z.lor m (INTERRUPT_BITMASK interrupt)) <$> masks.

Definition sys_interrupt_register (interrupt : Z) : K unit :=
  if NUM_INTERRUPTS <=? interrupt then syscall_return_error 1 EINVAL
  else
    let! handlers := gets interrupt_handlers in
    let! h := index handlers interrupt in
    if bool_decide (h <> None) then syscall_return_error 1 EBUSY
    else
      let! c := gets current_tcb in
      let! t := deref c in
      if negb (registered_interrupt t =? NO_INTERRUPT) then syscall_return_error 1 EBUSY
      else
        do! (when multi_unit do
               modify (fun s => set_priority_int_mask
                 (register_int_mask (priority t) interrupt (priority_int_mask s)) s)) in
        let! handlers' := index_set handlers interrupt c in
        do! modify (set_interrupt_handlers handlers') in
        do! wr c (set_registered_interrupt (u32 interrupt)) in
        do! arch_enable_interrupt interrupt in
        syscall_return_success 0.

Definition sys_interrupt_deregister (interrupt : Z) : K unit :=
  if NUM_INTERRUPTS <=? interrupt then syscall_return_error 1 EINVAL
  else
    let! handlers := gets interrupt_handlers in
    let! h := index handlers interrupt in
    let! c := gets current_tcb in
    if bool_decide (h <> c) then syscall_return_error 1 EINVAL
    else
      do! (when multi_unit do
             modify (fun s => set_priority_int_mask
               (deregister_int_mask interrupt (priority_int_mask s)) s)) in
      do! arch_disable_interrupt interrupt in
      do! wr c (set_registered_interrupt NO_INTERRUPT) in
      let! handlers' := index_set handlers interrupt None in
      do! modify (set_interrupt_handlers handlers') in
      syscall_return_success 0.

Definition sys_interrupt_pre_thread_delete_callback (tp : ptr) : K unit :=
  let! ri := rd tp registered_interrupt in
  if negb (ri =? NO_INTERRUPT) then
    do! arch_disable_interrupt ri in
    let! handlers := gets interrupt_handlers in
    let! handlers' := index_set handlers ri None in
    do! modify (set_interrupt_handlers handlers') in
    wr tp (set_registered_interrupt NO_INTERRUPT)
  else ret tt.

(** [c_handle_interrupt], entered with the interrupt status [status]. *)
Definition c_handle_interrupt (status : Z) : K unit :=
  let interrupt_number := plat_decode_interrupt status in
  do! ASSERT ((0 <=? interrupt_number) && (interrupt_number <=? NUM_INTERRUPTS)) in
  let! handlers := gets interrupt_handlers in
  let! handler := index handlers interrupt_number in
  do! ASSERT (bool_decide (handler <> None)) in
  let! hst := rd handler thread_state in
  do! ASSERT (bool_decide (hst = THREAD_STATE_WAIT_INT)) in
  do! plat_mask_interrupt interrupt_number in
  do! set_syscall_return_val_success handler interrupt_number in
  let! nxt := activate_schedule handler in
  switch_to nxt.

End interrupt.
End Interrupt.

Module Thread.
Import Ipc Signal Interrupt.
Section thread.
Context {cfg : NanoConfig}.

Definition pre_create_thread_callbacks (tp : ptr) : K unit :=
  do! sys_signal_pre_thread_create_callback tp in
  sys_ipc_pre_thread_create_callback tp.

Definition post_create_thread_callbacks (tp : ptr) : K unit :=
  do! sys_ipc_post_thread_create_callback tp in
  sys_signal_post_thread_create_callback tp.

Definition pre_delete_thread_callbacks (tp : ptr) : K unit :=
  do! sys_signal_pre_thread_delete_callback tp in
  do! sys_ipc_pre_thread_delete_callback tp in
  sys_interrupt_pre_thread_delete_callback tp.

Definition post_delete_thread_callbacks (tp : ptr) : K unit :=
  do! sys_ipc_post_thread_delete_callback tp in
  sys_signal_post_thread_delete_callback tp.

(** The dequeueing of the first free TCB in [sys_thread_create]. *)
Definition dequeue_free (new_tcb : ptr) : K unit :=
  let! n := deref new_tcb in
  do! (if bool_decide (next n = new_tcb) then
         modify (set_tcb_free_head None)
       else
         let nxt := next n in
         let prv := prev n in
         do! modify (set_tcb_free_head nxt) in
         do! wr nxt (set_prev prv) in
         wr prv (set_next nxt)) in
  do! wr new_tcb (set_next None) in
  wr new_tcb (set_prev None).

Definition sys_thread_create (pc sp r0 prio : Z) : K unit :=
  if MAX_PRIORITY <? prio then syscall_return_error (-1) EINVAL
  else
    let! new_tcb := gets tcb_free_head in
    if bool_decide (new_tcb = None) then syscall_return_error (-1) ENOMEM
    else
      do! dequeue_free new_tcb in
      let! st := rd new_tcb thread_state in
      do! ASSERT (bool_decide (st = THREAD_STATE_HALTED)) in
      do! wr new_tcb (set_reg 13 sp) in
      do! wr new_tcb (set_reg 15 pc) in
      do! wr new_tcb (set_reg 0 r0) in
      do! wr new_tcb (set_priority prio) in
      do! pre_create_thread_callbacks new_tcb in
      let! nxt := activate_schedule new_tcb in
      do! post_create_thread_callbacks new_tcb in
      let! c := gets current_tcb in
      let! id := rd new_tcb tid in
      do! set_syscall_return_val_success c id in
      switch_to nxt.

Definition thread_reap (tp : ptr) : K unit :=
  let! st := rd tp thread_state in
  do! ASSERT (bool_decide (st = THREAD_STATE_ZOMBIE)) in
  do! wr tp (set_thread_state THREAD_STATE_HALTED) in
  let! head := gets tcb_free_head in
  if bool_decide (head = None) then
    do! modify (set_tcb_free_head tp) in
    do! wr tp (set_next tp) in
    wr tp (set_prev tp)
  else
    let! prv := rd head prev in
    do! wr prv (set_next tp) in
    do! wr head (set_prev tp) in
    do! wr tp (set_next head) in
    do! wr tp (set_prev prv) in
    modify (set_tcb_free_head tp).

Definition sys_thread_exit : K unit :=
  let! c := gets current_tcb in
  do! pre_delete_thread_callbacks c in
  do! deactivate_self THREAD_STATE_ZOMBIE in
  do! post_delete_thread_callbacks c in
  let! j := rd c joiner in
  do! (if bool_decide (j <> None) then
         do! thread_reap c in
         let! j' := rd c joiner in
         do! activate j' in
         wr c (set_joiner None)
       else ret tt) in
  let! nxt := schedule in
  switch_to nxt.

Definition sys_thread_join (thread_id : Z) : K unit :=
  if Z.of_nat max_tcbs <=? thread_id then syscall_return_error 1 EINVAL
  else
    let dest := Some (Z.to_nat thread_id) in
    let! d := deref dest in
    if bool_decide (thread_state d = THREAD_STATE_HALTED) then syscall_return_error 1 EINVAL
    else if bool_decide (thread_state d = THREAD_STATE_ZOMBIE) then
      do! thread_reap dest in
      syscall_return_success 0
    else if bool_decide (joiner d <> None) then syscall_return_error 1 EINVAL
    else
      let! c := gets current_tcb in
      do! set_syscall_return_val_success c 0 in
      let! nxt := deactivate_self_schedule THREAD_STATE_WAIT_JOIN in
      do! wr dest (set_joiner c) in
      switch_to nxt.

Definition sys_thread_myself : K unit :=
  let! c := gets current_tcb in
  let! id := rd c tid in
  syscall_return_success id.

End thread.
End Thread.
