(* ===== verification/NanoSpec.v ===== *)
(** * Abstract specification of the nanokernel

    The abstract kernel keeps each queue of the kernel as a list of thread
    indices and each thread as a TCB without link fields.  Every system call
    has a specification that is a function on abstract kernels; the
    refinement theorems of [NanoRefine] show that the pointer code of
    [NanoSchedule] and [NanoSyscalls] implements these functions. *)

From S2P Require Import Prelude NanoState NanoSchedule NanoSyscalls.
#[local] Open Scope Z_scope.

(** ** Queues *)

Inductive qid : Type :=
| QReady (p : Z)       (* ready threads of priority p *)
| QFree                (* free TCBs *)
| QSend (d : nat)      (* threads blocked sending to thread d *)
| QFutex (h : Z).      (* threads blocked on a futex tag of hash h *)

#[export] Instance qid_eq_dec : EqDecision qid.
Proof. solve_decision. Defined.

(** A TCB without the fields that implement the queues. *)
Definition erase (t : tcb) : tcb :=
  set_next None (set_prev None (set_ipc_send_head None t)).

Record akernel : Type := AK {
  a_tcbs : gmap nat tcb;
  a_queue : qid -> list nat;
  a_current : ptr;
  a_unit : nat;
  a_unit_priorities : list Z;
  a_reschedule_irqs : nat;
  a_pending : list Z;
  a_handlers : list ptr;
  a_int_mask : list Z;
  a_irq_enable : Z
}.

Definition a_set_tcbs v A := AK v (a_queue A) (a_current A) (a_unit A) (a_unit_priorities A) (a_reschedule_irqs A) (a_pending A) (a_handlers A) (a_int_mask A) (a_irq_enable A).
Definition a_set_queue v A := AK (a_tcbs A) v (a_current A) (a_unit A) (a_unit_priorities A) (a_reschedule_irqs A) (a_pending A) (a_handlers A) (a_int_mask A) (a_irq_enable A).
Definition a_switch_to v A := AK (a_tcbs A) (a_queue A) v (a_unit A) (a_unit_priorities A) (a_reschedule_irqs A) (a_pending A) (a_handlers A) (a_int_mask A) (a_irq_enable A).
Definition a_set_unit_priorities v A := AK (a_tcbs A) (a_queue A) (a_current A) (a_unit A) v (a_reschedule_irqs A) (a_pending A) (a_handlers A) (a_int_mask A) (a_irq_enable A).
Definition a_set_reschedule_irqs v A := AK (a_tcbs A) (a_queue A) (a_current A) (a_unit A) (a_unit_priorities A) v (a_pending A) (a_handlers A) (a_int_mask A) (a_irq_enable A).
Definition a_set_pending v A := AK (a_tcbs A) (a_queue A) (a_current A) (a_unit A) (a_unit_priorities A) (a_reschedule_irqs A) v (a_handlers A) (a_int_mask A) (a_irq_enable A).
Definition a_set_handlers v A := AK (a_tcbs A) (a_queue A) (a_current A) (a_unit A) (a_unit_priorities A) (a_reschedule_irqs A) (a_pending A) v (a_int_mask A) (a_irq_enable A).
Definition a_set_int_mask v A := AK (a_tcbs A) (a_queue A) (a_current A) (a_unit A) (a_unit_priorities A) (a_reschedule_irqs A) (a_pending A) (a_handlers A) v (a_irq_enable A).
Definition a_set_irq_enable v A := AK (a_tcbs A) (a_queue A) (a_current A) (a_unit A) (a_unit_priorities A) (a_reschedule_irqs A) (a_pending A) (a_handlers A) (a_int_mask A) v.

(** Update of one thread, of one queue. *)
Definition a_upd (a : nat) (f : tcb -> tcb) (A : akernel) : akernel :=
  a_set_tcbs (alter f a (a_tcbs A)) A.
Definition qset (q : qid) (l : list nat) (Q : qid -> list nat) : qid -> list nat :=
  fun q' => if decide (q' = q) then l else Q q'.
Definition a_setq (q : qid) (l : list nat) (A : akernel) : akernel :=
  a_set_queue (qset q l (a_queue A)) A.
Definition a_push (q : qid) (a : nat) (A : akernel) : akernel :=
  a_setq q (a_queue A q ++ [a]) A.
Definition a_push_front (q : qid) (a : nat) (A : akernel) : akernel :=
  a_setq q (a :: a_queue A q) A.
(** Removal of the first element. *)
Definition a_pop (q : qid) (A : akernel) : akernel := a_setq q (tail (a_queue A q)) A.

Definition unqueued (A : akernel) (a : nat) : Prop := forall q, a ∉ a_queue A q.

Definition a_get {T} (A : akernel) (a : nat) (f : tcb -> T) (d : T) : T :=
  match a_tcbs A !! a with Some t => f t | None => d end.
Definition a_prio (A : akernel) (a : nat) : Z := a_get A a priority 0.
Definition a_state (A : akernel) (a : nat) : thread_state_t :=
  a_get A a thread_state THREAD_STATE_HALTED.

Section spec.
Context {cfg : NanoConfig}.

(** ** Scheduling *)

(** The greatest [p < n] such that [f p]. *)
Fixpoint highest_below (f : Z -> bool) (n : nat) : option Z :=
  match n with
  | O => None
  | S n' => if f (Z.of_nat n') then Some (Z.of_nat n') else highest_below f n'
  end.

(** The highest priority that has a ready thread. *)
Definition a_highest (A : akernel) : option Z :=
  highest_below (fun p => negb (bool_decide (a_queue A (QReady p) = []))) NUM_PRIORITIES.
Definition a_highest_int (A : akernel) : Z := default (-1) (a_highest A).

Definition a_set_unit_priority (prio : Z) (A : akernel) : akernel :=
  if multi_unit then a_set_unit_priorities (<[a_unit A := (prio + 1) mod 256]> (a_unit_priorities A)) A
  else A.

(** A reschedule IPI is raised when some unit runs below the best ready thread. *)
Definition a_smt_reschedule (A : akernel) : akernel :=
  if multi_unit && existsb (fun up => up <? a_highest_int A + 1)
                     (take NUM_EXECUTION_UNITS (a_unit_priorities A))
  then a_set_reschedule_irqs (S (a_reschedule_irqs A)) A else A.

Definition a_do_schedule (A : akernel) : ptr * akernel :=
  match a_highest A with
  | None => (None, a_set_unit_priority (-1) A)
  | Some p => (head (a_queue A (QReady p)),
               a_smt_reschedule (a_set_unit_priority p (a_pop (QReady p) A)))
  end.

Definition a_enqueue (a : nat) (A : akernel) : akernel := a_push (QReady (a_prio A a)) a A.

Definition a_activate (a : nat) (A : akernel) : akernel :=
  a_enqueue a (a_upd a (set_thread_state THREAD_STATE_RUNNABLE) A).

Definition a_activate_schedule (a : nat) (A : akernel) : ptr * akernel :=
  let A := a_upd a (set_thread_state THREAD_STATE_RUNNABLE) A in
  match a_current A with
  | None => (Some a, a_set_unit_priority (a_prio A a) A)
  | Some c =>
      if a_prio A c <? a_prio A a
      then (Some a, a_smt_reschedule (a_set_unit_priority (a_prio A a) (a_enqueue c A)))
      else (Some c, a_smt_reschedule (a_enqueue a A))
  end.

(** The current thread blocks in state [st]. *)
Definition a_deactivate_self (st : thread_state_t) (A : akernel) : akernel :=
  match a_current A with
  | Some c => a_upd c (set_thread_state st) A
  | None => A
  end.

Definition a_deactivate_self_schedule (st : thread_state_t) (A : akernel) : ptr * akernel :=
  a_do_schedule (a_deactivate_self st A).

Definition a_then_switch (r : ptr * akernel) : akernel := a_switch_to (fst r) (snd r).

(** The yielding thread goes behind its peers when one of its priority or
    above is ready, and keeps running otherwise. *)
Definition a_yield (A : akernel) : ptr * akernel :=
  match a_current A with
  | Some c =>
      if a_prio A c <=? u32 (a_highest_int A) then a_do_schedule (a_enqueue c A)
      else (Some c, A)
  | None => (None, A)
  end.

Definition a_sys_yield (A : akernel) : akernel := a_then_switch (a_yield A).

(** Set a return value. *)
Definition a_return (a : nat) (v : Z) : akernel -> akernel := a_upd a (set_reg 0 (u32 v)).

(** ** Futexes *)

(** Insertion before the first thread of strictly lower priority. *)
Fixpoint insert_prio (A : akernel) (a : nat) (l : list nat) : list nat :=
  match l with
  | [] => [a]
  | b :: l' => if a_prio A b <? a_prio A a then a :: l else b :: insert_prio A a l'
  end.

Definition a_enqueue_futex (h : Z) (a : nat) (A : akernel) : akernel :=
  a_setq (QFutex h) (insert_prio A a (a_queue A (QFutex h))) A.

(** The last pending tag equal to [tag] is replaced by the last one. *)
Fixpoint last_index (tag : Z) (l : list Z) (n : nat) : option nat :=
  match n with
  | O => None
  | S n' => if bool_decide (l !! n' = Some tag) then Some n' else last_index tag l n'
  end.
Definition a_take_pending (tag : Z) (l : list Z) : option (list Z) :=
  match last_index tag l (length l), last l with
  | Some i, Some x => Some (take (length l - 1) (<[i := x]> l))
  | _, _ => None
  end.

Definition a_sys_futex_wait (c : nat) (tag : Z) (A : akernel) : akernel :=
  if tag =? 0 then a_return c 1 A
  else match a_take_pending tag (a_pending A) with
  | Some l => a_return c 0 (a_set_pending l A)
  | None =>
      let '(n, A1) := a_deactivate_self_schedule THREAD_STATE_WAIT_FUTEX (a_return c 0 A) in
      a_switch_to n (a_upd c (set_futex_tag tag) (a_enqueue_futex (Futex.hash_tag tag) c A1))
  end.

(** The first waiter for [tag] in its hash queue. *)
Definition has_tag (A : akernel) (tag : Z) (a : nat) : bool := a_get A a futex_tag 0 =? tag.
Definition a_find_waiter (tag : Z) (A : akernel) : option nat :=
  find (has_tag A tag) (a_queue A (QFutex (Futex.hash_tag tag))).

Definition a_remove (q : qid) (a : nat) (A : akernel) : akernel :=
  a_setq q (filter (fun b => b <> a) (a_queue A q)) A.

Definition a_sys_futex_signal (c : nat) (tag : Z) (A : akernel) : akernel :=
  if tag =? 0 then a_return c 1 A
  else match a_find_waiter tag A with
  | Some w =>
      let '(n, A1) := a_activate_schedule w (a_remove (QFutex (Futex.hash_tag tag)) w A) in
      a_switch_to n (a_return c 0 A1)
  | None =>
      if Z.of_nat max_tcbs <=? Z.of_nat (length (a_pending A)) then a_return c 1 A
      else a_return c 0 (a_set_pending (a_pending A ++ [tag]) A)
  end.

(** ** IPC *)

Definition a_ready_to_receive (c d : nat) (A : akernel) : bool :=
  bool_decide (a_state A d = THREAD_STATE_WAIT_IPC_RECV)
  && (bool_decide (a_get A d ipc_waiting_for None = Some c)
      || bool_decide (a_get A d ipc_waiting_for None = None)).

Definition a_copy_message (src dest : nat) (A : akernel) : akernel :=
  let A1 := a_upd dest (set_full_context_saved 1) A in
  match a_tcbs A1 !! src with
  | Some s => a_upd dest (Ipc.copy_regs s) A1
  | None => A1
  end.

Definition a_do_send (c d : nat) (is_call is_non_blocking : bool) (A : akernel) : ptr * akernel :=
  if a_ready_to_receive c d A then
    let A1 := a_return d (a_get A c tid 0)
                (a_upd d (set_ipc_waiting_for None) (a_copy_message c d A)) in
    if is_call then
      a_do_schedule (a_deactivate_self THREAD_STATE_WAIT_IPC_RECV
        (a_activate d (a_upd c (set_ipc_waiting_for (Some d)) A1)))
    else a_activate_schedule d (a_return c 0 A1)
  else if is_non_blocking then (Some c, a_return c Ipc.IPC_ERROR A)
  else a_deactivate_self_schedule
         (if is_call then THREAD_STATE_WAIT_IPC_CALL else THREAD_STATE_WAIT_IPC_SEND)
         (a_upd c (set_ipc_waiting_for (Some d)) (a_push (QSend d) c A)).

Definition a_alive (A : akernel) (a : nat) : bool := a_get A a is_thread_alive false.

Definition a_sys_ipc_send (c : nat) (dest_thread operation : Z) (A : akernel) : akernel :=
  if Z.of_nat max_tcbs <=? dest_thread then a_return c Ipc.IPC_ERROR A
  else
    let d := Z.to_nat dest_thread in
    if a_alive A d then
      a_then_switch (a_do_send c d (Ipc.OPERATION_IS_CALL operation)
                       (Ipc.OPERATION_IS_NON_BLOCKING operation) A)
    else a_return c Ipc.IPC_ERROR A.

Definition a_sys_ipc_recv (c : nat) (src_thread operation : Z) (A : akernel) : akernel :=
  if (Z.of_nat max_tcbs <=? src_thread) && negb (src_thread =? Ipc.IPC_WAIT_ANY)
  then a_return c Ipc.IPC_ERROR A
  else match a_queue A (QSend c) with
  | [] => a_then_switch (a_deactivate_self_schedule THREAD_STATE_WAIT_IPC_RECV
                           (a_upd c (set_ipc_waiting_for None) A))
  | s :: _ =>
      let A1 := a_copy_message s c (a_pop (QSend c) A) in
      if bool_decide (a_state A1 s = THREAD_STATE_WAIT_IPC_CALL) then
        a_return c (a_get A1 s tid 0) (a_upd s (set_thread_state THREAD_STATE_WAIT_IPC_RECV) A1)
      else
        a_then_switch (a_activate_schedule s
          (a_return c (a_get A1 s tid 0) (a_return s 0 (a_upd s (set_ipc_waiting_for None) A1))))
  end.

(** ** Signals *)

Definition a_sys_signal_poll (c : nat) (mask : Z) (A : akernel) : akernel :=
  let sg := a_get A c signals 0 in
  a_return c (Z.land sg mask) (a_upd c (set_signals (Z.land sg (not32 mask))) A).

Definition a_sys_signal_wait (c : nat) (mask : Z) (A : akernel) : akernel :=
  if negb (Z.land (a_get A c signals 0) mask =? 0) then a_sys_signal_poll c mask A
  else a_then_switch (a_deactivate_self_schedule THREAD_STATE_WAIT_SIGNAL
                        (a_upd c (set_signal_mask mask) A)).

Definition a_sys_signal_send (c : nat) (thread_id sigs : Z) (A : akernel) : akernel :=
  if Z.of_nat max_tcbs <=? thread_id then a_return c 1 A
  else
    let d := Z.to_nat thread_id in
    if a_alive A d then
      let pend := Z.lor (a_get A d signals 0) sigs in
      let mask := a_get A d signal_mask 0 in
      let A1 := a_return c 0 (a_upd d (set_signals pend) A) in
      if bool_decide (a_state A d = THREAD_STATE_WAIT_SIGNAL) && negb (Z.land sigs mask =? 0) then
        a_then_switch (a_activate_schedule d
          (a_upd d (set_signals (Z.land pend (not32 mask))) (a_return d (Z.land pend mask) A1)))
      else A1
    else a_return c 1 A.

(** ** Interrupts *)

Definition a_sys_interrupt_wait (c : nat) (A : akernel) : akernel :=
  let ri := a_get A c registered_interrupt 0 in
  if ri =? Interrupt.NO_INTERRUPT then a_return c (-1) A
  else
    let '(n, A1) := a_deactivate_self_schedule THREAD_STATE_WAIT_INT A in
    a_switch_to n (a_set_irq_enable (set_bit32 (a_irq_enable A1) ri) A1).

Definition a_sys_interrupt_register (c : nat) (interrupt : Z) (A : akernel) : akernel :=
  if NUM_INTERRUPTS <=? interrupt then a_return c 1 A
  else match a_handlers A !! Z.to_nat interrupt with
  | Some None =>
      if a_get A c registered_interrupt 0 =? Interrupt.NO_INTERRUPT then
        let A1 := if multi_unit
                  then a_set_int_mask (Interrupt.register_int_mask (a_prio A c) interrupt (a_int_mask A)) A
                  else A in
        a_return c 0 (a_upd c (set_registered_interrupt (u32 interrupt))
          (a_set_handlers (<[Z.to_nat interrupt := Some c]> (a_handlers A)) A1))
      else a_return c 1 A
  | _ => a_return c 1 A
  end.

Definition a_sys_interrupt_deregister (c : nat) (interrupt : Z) (A : akernel) : akernel :=
  if NUM_INTERRUPTS <=? interrupt then a_return c 1 A
  else if bool_decide (a_handlers A !! Z.to_nat interrupt = Some (Some c)) then
    let A1 := if multi_unit
              then a_set_int_mask (Interrupt.deregister_int_mask interrupt (a_int_mask A)) A
              else A in
    a_return c 0 (a_set_handlers (<[Z.to_nat interrupt := None]> (a_handlers A))
      (a_upd c (set_registered_interrupt Interrupt.NO_INTERRUPT) A1))
  else a_return c 1 A.

Definition a_handle_interrupt (status : Z) (A : akernel) : akernel :=
  let i := Interrupt.plat_decode_interrupt status in
  match a_handlers A !! Z.to_nat i with
  | Some (Some h) =>
      a_then_switch (a_activate_schedule h (a_return h i
        (a_set_irq_enable (clear_bit32 (a_irq_enable A) i) A)))
  | _ => A
  end.

(** ** Threads *)

Definition a_init_thread (n : nat) (pc sp r0 prio : Z) (A : akernel) : akernel :=
  a_upd n (set_signal_mask 0) (a_upd n (set_signals 0) (a_upd n (set_priority prio)
    (a_upd n (set_reg 0 r0) (a_upd n (set_reg 15 pc) (a_upd n (set_reg 13 sp) A))))).

Definition a_sys_thread_create (c : nat) (pc sp r0 prio : Z) (A : akernel) : akernel :=
  if MAX_PRIORITY <? prio then a_return c (-1) A
  else match a_queue A QFree with
  | [] => a_return c (-1) A
  | n :: _ =>
      let '(nx, A1) := a_activate_schedule n (a_init_thread n pc sp r0 prio (a_pop QFree A)) in
      a_switch_to nx (a_return c (a_get A1 n tid 0) A1)
  end.

Definition a_reap (a : nat) (A : akernel) : akernel :=
  a_push_front QFree a (a_upd a (set_thread_state THREAD_STATE_HALTED) A).

(** Deregistration of the interrupt of a dying thread. *)
Definition a_drop_interrupt (c : nat) (A : akernel) : akernel :=
  let ri := a_get A c registered_interrupt 0 in
  if ri =? Interrupt.NO_INTERRUPT then A
  else a_upd c (set_registered_interrupt Interrupt.NO_INTERRUPT)
         (a_set_handlers (<[Z.to_nat ri := None]> (a_handlers A)) A).

Definition a_sys_thread_exit (c : nat) (A : akernel) : akernel :=
  let A1 := a_upd c (set_thread_state THREAD_STATE_ZOMBIE) (a_drop_interrupt c A) in
  let A2 := match a_get A c joiner None with
            | Some j => a_upd c (set_joiner None) (a_activate j (a_reap c A1))
            | None => A1
            end in
  a_then_switch (a_do_schedule A2).

Definition a_sys_thread_join (c : nat) (thread_id : Z) (A : akernel) : akernel :=
  if Z.of_nat max_tcbs <=? thread_id then a_return c 1 A
  else
    let d := Z.to_nat thread_id in
    if bool_decide (a_state A d = THREAD_STATE_HALTED) then a_return c 1 A
    else if bool_decide (a_state A d = THREAD_STATE_ZOMBIE) then a_return c 0 (a_reap d A)
    else if bool_decide (a_get A d joiner None <> None) then a_return c 1 A
    else
      let '(n, A1) := a_deactivate_self_schedule THREAD_STATE_WAIT_JOIN (a_return c 0 A) in
      a_switch_to n (a_upd d (set_joiner (Some c)) A1).

Definition a_sys_thread_myself (c : nat) (A : akernel) : akernel :=
  a_return c (a_get A c tid 0) A.

End spec.
