(* ===== verification/NanoLinks.v ===== *)
(** * Link fields of TCBs

    The kernel threads TCBs on circular doubly linked lists (ready queues,
    send queues, the free list) and on NULL-terminated singly linked lists
    (the futex hash chains).  This file makes the TCB an instance of the
    theory of linked records and computes the links of updated TCB stores. *)

From S2P Require Import Prelude Rings NanoState.
#[local] Open Scope Z_scope.

#[export] Instance tcb_links : Links tcb := {| link_next := next; link_prev := prev |}.

Implicit Types (m : gmap nat tcb) (a x y z h : nat) (l : list nat).

(** ** Reading updated stores *)

Lemma nxt_alter_eq f m x v :
  nxt m x = Some v -> (forall t, next (f t) = next t) -> nxt (alter f x m) x = Some v.
Proof.
  unfold nxt. rewrite lookup_alter_eq. destruct (m !! x); simpl; [|done].
  intros [= <-] Hf. by rewrite Hf.
Qed.

Lemma nxt_alter_ne f m x y : x <> y -> nxt (alter f x m) y = nxt m y.
Proof. intros. unfold nxt. by rewrite lookup_alter_ne. Qed.
Lemma prv_alter_ne f m x y : x <> y -> prv (alter f x m) y = prv m y.
Proof. intros. unfold prv. by rewrite lookup_alter_ne. Qed.

Lemma nxt_set_next_eq m x v : is_Some (m !! x) -> nxt (alter (set_next v) x m) x = Some v.
Proof. intros [t Ht]. unfold nxt. by rewrite lookup_alter_eq, Ht. Qed.
Lemma prv_set_prev_eq m x v : is_Some (m !! x) -> prv (alter (set_prev v) x m) x = Some v.
Proof. intros [t Ht]. unfold prv. by rewrite lookup_alter_eq, Ht. Qed.

(** Updates that leave a link field alone. *)
Lemma nxt_alter_id f m x y :
  (forall t, next (f t) = next t) -> nxt (alter f x m) y = nxt m y.
Proof.
  intros Hf. unfold nxt. destruct (decide (x = y)) as [->|].
  - rewrite lookup_alter_eq. destruct (m !! y); simpl; [by rewrite Hf|done].
  - by rewrite lookup_alter_ne.
Qed.
Lemma prv_alter_id f m x y :
  (forall t, prev (f t) = prev t) -> prv (alter f x m) y = prv m y.
Proof.
  intros Hf. unfold prv. destruct (decide (x = y)) as [->|].
  - rewrite lookup_alter_eq. destruct (m !! y); simpl; [by rewrite Hf|done].
  - by rewrite lookup_alter_ne.
Qed.

Lemma is_Some_alter f m x y : is_Some (m !! y) -> is_Some (alter f x m !! y).
Proof.
  intros [t Ht]. destruct (decide (x = y)) as [->|].
  - rewrite lookup_alter_eq, Ht. by eexists.
  - rewrite lookup_alter_ne by done. by eexists.
Qed.

#[export] Hint Resolve is_Some_alter : links.

(** Computes the link fields of a store built by [alter]s. *)
Ltac solve_link :=
  repeat first
    [ rewrite nxt_set_next_eq by eauto using is_Some_alter with links
    | rewrite prv_set_prev_eq by eauto using is_Some_alter with links
    | rewrite (nxt_alter_id (set_prev _)) by (intros []; reflexivity)
    | rewrite (prv_alter_id (set_next _)) by (intros []; reflexivity)
    | rewrite (nxt_alter_id (set_ipc_send_head _)) by (intros []; reflexivity)
    | rewrite (prv_alter_id (set_ipc_send_head _)) by (intros []; reflexivity)
    | rewrite (nxt_alter_id (set_thread_state _)) by (intros []; reflexivity)
    | rewrite (prv_alter_id (set_thread_state _)) by (intros []; reflexivity)
    | rewrite nxt_alter_ne by (first [congruence | done])
    | rewrite prv_alter_ne by (first [congruence | done]) ];
  try done.

