(* ===== verification/NanoRep.v ===== *)
(** * Representation of an abstract kernel by a kernel state

    [Links] relates the link fields of the TCB store to the abstract queues,
    [Rep] the whole kernel state to an abstract kernel.  The lemmas of this
    file are the memory-level facts used by the refinement proofs: reading
    and writing a TCB field, pushing and removing a thread on a queue. *)

From S2P Require Import Prelude NanoState NanoSchedule NanoSyscalls NanoSpec Rings NanoLinks.
#[local] Open Scope Z_scope.

Definition is_ring (q : qid) : bool := match q with QFutex _ => false | _ => true end.
Definition linked_list m q l : Prop := if is_ring q then ring m l else chain m l.

(** ** Links *)

Record Links (m : gmap nat tcb) (Q : qid -> list nat) : Prop := {
  lk_disj : forall q1 q2 a, a ∈ Q q1 -> a ∈ Q q2 -> q1 = q2;
  lk_nodup : forall q, NoDup (Q q);
  lk_list : forall q, linked_list m q (Q q);
  lk_unq : forall a, is_Some (m !! a) -> (forall q, a ∉ Q q) ->
           nxt m a = Some None /\ prv m a = Some None
}.

Lemma qset_eq q l Q : qset q l Q q = l.
Proof. unfold qset. by rewrite decide_True. Qed.
Lemma qset_ne q q' l Q : q' <> q -> qset q l Q q' = Q q'.
Proof. intros. unfold qset. by rewrite decide_False. Qed.

Lemma linked_list_frame m m' q l :
  linked_list m q l ->
  (forall y, y ∈ l -> nxt m' y = nxt m y /\ prv m' y = prv m y) -> linked_list m' q l.
Proof.
  unfold linked_list. destruct (is_ring q); [apply ring_frame | apply chain_frame].
Qed.

Lemma links_elem m Q q a : Links m Q -> a ∈ Q q -> is_Some (m !! a).
Proof.
  intros HL Ha. pose proof (lk_list _ _ HL q) as Hl. unfold linked_list in Hl.
  destruct (is_ring q).
  - destruct (ring_elem _ _ _ Hl Ha) as (n & p & Hn & _). by eapply is_Some_nxt.
  - apply list_elem_of_split in Ha as (l1 & l2 & Hq). rewrite Hq in Hl.
    apply chain_elem in Hl as [Hn _]. by eapply is_Some_nxt.
Qed.

Lemma links_frame m m' Q :
  Links m Q -> (forall y, nxt m' y = nxt m y /\ prv m' y = prv m y) -> Links m' Q.
Proof.
  intros HL Hf. constructor.
  - apply (lk_disj _ _ HL).
  - apply (lk_nodup _ _ HL).
  - intros q. eapply linked_list_frame; [apply (lk_list _ _ HL)|auto].
  - intros a Ha Hq. destruct (Hf a) as [-> ->]. apply (lk_unq _ _ HL); [|done].
    destruct (Hf a) as [Hn _]. unfold nxt in Hn. destruct Ha as [t Ht].
    rewrite Ht in Hn. destruct (m !! a); by eauto.
Qed.

(** Replacement of one queue. *)
Lemma links_update m m' Q q l' :
  Links m Q ->
  NoDup l' ->
  (forall x q', x ∈ l' -> q' <> q -> x ∉ Q q') ->
  linked_list m' q l' ->
  (forall x, x ∉ Q q -> x ∉ l' -> nxt m' x = nxt m x /\ prv m' x = prv m x) ->
  (forall x, x ∈ Q q -> x ∉ l' -> nxt m' x = Some None /\ prv m' x = Some None) ->
  Links m' (qset q l' Q).
Proof.
  intros HL Hnd Hdis Hll Hsame Hout. constructor.
  - intros q1 q2 a. unfold qset. repeat case_decide; subst; try done.
    + intros H1 H2. by destruct (Hdis a q2 H1 ltac:(done)).
    + intros H1 H2. by destruct (Hdis a q1 H2 ltac:(done)).
    + apply (lk_disj _ _ HL).
  - intros q'. unfold qset. case_decide; [done|apply (lk_nodup _ _ HL)].
  - intros q'. unfold qset. case_decide as Hq; [by subst|].
    eapply linked_list_frame; [apply (lk_list _ _ HL)|].
    intros y Hy. apply Hsame.
    + intros Hyq. apply Hq. by eapply (lk_disj _ _ HL).
    + intros Hyl. by eapply Hdis.
  - intros a Ha Hunq.
    assert (Hal : a ∉ l') by (rewrite <-(qset_eq q l' Q); apply Hunq).
    destruct (decide (a ∈ Q q)) as [Haq|Haq]; [by apply Hout|].
    destruct (Hsame a Haq Hal) as [Hn Hp]. rewrite Hn, Hp.
    apply (lk_unq _ _ HL).
    + destruct Ha as [t Ht]. unfold nxt in Hn. rewrite Ht in Hn. destruct (m !! a); by eauto.
    + intros q'. destruct (decide (q' = q)) as [->|Hq']; [done|].
      specialize (Hunq q'). by rewrite qset_ne in Hunq.
Qed.

(** [a] becomes the only element of an empty ring. *)
Lemma links_push_empty m m' Q q a :
  Links m Q -> is_ring q = true -> (forall q, a ∉ Q q) -> Q q = [] ->
  nxt m' a = Some (Some a) -> prv m' a = Some (Some a) ->
  (forall x, x <> a -> nxt m' x = nxt m x /\ prv m' x = prv m x) ->
  Links m' (qset q [a] Q).
Proof.
  intros HL Hr Ha Hq Hn Hp Hs. eapply links_update; try done.
  - apply NoDup_singleton.
  - intros x q' Hx. apply list_elem_of_singleton in Hx as ->. done.
  - unfold linked_list. rewrite Hr. by apply ring_singleton.
  - intros x _ Hx. apply Hs. set_solver.
  - rewrite Hq. set_solver.
Qed.

(** [a] is inserted between the last element and the head of a ring. *)
Lemma links_push m m' Q q a h l z :
  Links m Q -> is_ring q = true -> (forall q, a ∉ Q q) -> Q q = h :: l ->
  prv m h = Some (Some z) ->
  nxt m' a = Some (Some h) -> prv m' a = Some (Some z) ->
  nxt m' z = Some (Some a) -> prv m' h = Some (Some a) ->
  (forall x, x <> a -> x <> z -> nxt m' x = nxt m x) ->
  (forall x, x <> a -> x <> h -> prv m' x = prv m x) ->
  Links m' (qset q (h :: l ++ [a]) Q) /\ Links m' (qset q (a :: h :: l) Q).
Proof.
  intros HL Hr Ha Hq Hz Hna Hpa Hnz Hph Hn Hp.
  pose proof (lk_nodup _ _ HL q) as Hnd. pose proof (lk_list _ _ HL q) as Hll.
  unfold linked_list in Hll. rewrite Hr, Hq in *. pose proof (Ha q) as Haq. rewrite Hq in Haq.
  assert (Hz' : z = default h (last l)).
  { rewrite (ring_head_prev _ _ _ Hll) in Hz. congruence. }
  assert (Hring : ring m' ((h :: l) ++ [a])) by (eapply ring_insert; eauto).
  assert (Hzin : z ∈ Q q).
  { rewrite Hq, Hz'. destruct (last l) eqn:E; simpl; [|set_solver].
    apply last_Some_elem_of in E. set_solver. }
  assert (Hnd' : NoDup ((h :: l) ++ [a])).
  { apply NoDup_app. split_and!; [done| |apply NoDup_singleton]. set_solver. }
  assert (Hdis : forall x q', x ∈ a :: h :: l -> q' <> q -> x ∉ Q q').
  { intros x q' Hx Hne Hxq'. apply elem_of_cons in Hx as [->|Hx]; [by eapply Ha|].
    apply Hne. eapply (lk_disj _ _ HL); [done|]. by rewrite Hq. }
  assert (Hsame : forall x, x ∉ Q q -> x <> a -> nxt m' x = nxt m x /\ prv m' x = prv m x).
  { intros x Hx Hxa. rewrite Hq in *. split; [apply Hn|apply Hp]; set_solver. }
  rewrite <-Hq in *.
  split; (eapply links_update; [done|..]).
  - by rewrite app_comm_cons, <-Hq.
  - intros x q' Hx. apply Hdis. rewrite Hq. clear -Hx. set_solver.
  - unfold linked_list. rewrite Hr, app_comm_cons, <-Hq. done.
  - intros x Hx Hxl. apply Hsame; [done|]. clear -Hxl. set_solver.
  - intros x Hx Hxl. exfalso. rewrite Hq in Hx. clear -Hx Hxl. set_solver.
  - by apply NoDup_cons.
  - intros x q' Hx. by apply Hdis.
  - unfold linked_list. rewrite Hr. by apply (ring_rotate _ (Q q) [a]).
  - intros x Hx Hxl. apply Hsame; [done|]. clear -Hxl. set_solver.
  - intros x Hx Hxl. exfalso. clear -Hx Hxl. set_solver.
Qed.

(** [a] leaves a ring where it is alone. *)
Lemma links_remove_last m m' Q q a :
  Links m Q -> is_ring q = true -> Q q = [a] ->
  nxt m' a = Some None -> prv m' a = Some None ->
  (forall x, x <> a -> nxt m' x = nxt m x /\ prv m' x = prv m x) ->
  Links m' (qset q [] Q).
Proof.
  intros HL Hr Hq Hn Hp Hs. eapply links_update; try done.
  - by apply NoDup_nil.
  - set_solver.
  - unfold linked_list. by rewrite Hr.
  - intros x Hx _. apply Hs. rewrite Hq in Hx. set_solver.
  - intros x Hx _. rewrite Hq in Hx. apply list_elem_of_singleton in Hx as ->. done.
Qed.

(** [a] leaves a ring that has other elements. *)
Lemma links_remove m m' Q q l1 a l2 n p :
  Links m Q -> is_ring q = true -> Q q = l1 ++ a :: l2 -> l1 ++ l2 <> [] ->
  nxt m a = Some (Some n) -> prv m a = Some (Some p) ->
  nxt m' a = Some None -> prv m' a = Some None ->
  nxt m' p = Some (Some n) -> prv m' n = Some (Some p) ->
  (forall x, x <> a -> x <> p -> nxt m' x = nxt m x) ->
  (forall x, x <> a -> x <> n -> prv m' x = prv m x) ->
  Links m' (qset q (l1 ++ l2) Q).
Proof.
  intros HL Hr Hq Hne Hnxt Hprv Hna Hpa Hnp Hpn Hn Hp.
  pose proof (lk_nodup _ _ HL q) as Hnd. pose proof (lk_list _ _ HL q) as Hll.
  unfold linked_list in Hll. rewrite Hr, Hq in *.
  assert (Hndr : NoDup (a :: l2 ++ l1)).
  { eapply NoDup_Permutation_proper; [|exact Hnd]. solve_Permutation. }
  apply (ring_rotate _ l1) in Hll. simpl app in Hll.
  destruct (l2 ++ l1) as [|x r] eqn:E.
  { apply app_nil in E as [-> ->]. done. }
  assert (x = n) as ->.
  { rewrite (ring_head_next _ _ _ Hll) in Hnxt. simpl in Hnxt. congruence. }
  assert (Hpz : p = default n (last r)).
  { rewrite (ring_head_prev _ _ _ Hll) in Hprv. rewrite last_cons in Hprv.
    destruct (last r); simpl in *; congruence. }
  assert (Hring : ring m' (n :: r)) by (eapply ring_remove; eauto).
  assert (Hmem : forall y, y ∈ l1 ++ l2 <-> y ∈ n :: r) by (rewrite <-E; set_solver).
  assert (Hpin : p ∈ n :: r).
  { rewrite Hpz. destruct (last r) eqn:E'; simpl; [|set_solver].
    apply last_Some_elem_of in E'. set_solver. }
  assert (Han : a ∉ n :: r) by (by apply NoDup_cons in Hndr as [? _]).
  eapply links_update; [done|..].
  - apply NoDup_app in Hnd as (? & Hd & Hnd2). apply NoDup_cons in Hnd2 as [? ?].
    apply NoDup_app. split_and!; [done| |done]. set_solver.
  - intros y q' Hy Hq' Hyq'. apply Hq'. eapply (lk_disj _ _ HL); [done|].
    rewrite Hq. set_solver.
  - unfold linked_list. rewrite Hr. apply ring_rotate. by rewrite E.
  - intros y Hy Hyl. rewrite Hq in Hy. split; [apply Hn|apply Hp]; set_solver.
  - intros y Hy Hyl. rewrite Hq in Hy. assert (y = a) as -> by set_solver. done.
Qed.

(** ** Fields that are not links *)

(** A TCB update that neither reads nor writes the link fields. *)
Class DataUpd (f : tcb -> tcb) : Prop := {
  data_next : forall t, next (f t) = next t;
  data_prev : forall t, prev (f t) = prev t;
  data_head : forall t, ipc_send_head (f t) = ipc_send_head t;
  data_erase : forall t, erase (f t) = f (erase t)
}.

(** A field that is not a link field. *)
Class DataField {A} (f : tcb -> A) : Prop := data_field : forall t, f (erase t) = f t.

#[export] Instance data_set_regs v : DataUpd (set_regs v). Proof. done. Qed.
#[export] Instance data_set_full_context_saved v : DataUpd (set_full_context_saved v). Proof. done. Qed.
#[export] Instance data_set_priority v : DataUpd (set_priority v). Proof. done. Qed.
#[export] Instance data_set_thread_state v : DataUpd (set_thread_state v). Proof. done. Qed.
#[export] Instance data_set_futex_tag v : DataUpd (set_futex_tag v). Proof. done. Qed.
#[export] Instance data_set_ipc_waiting_for v : DataUpd (set_ipc_waiting_for v). Proof. done. Qed.
#[export] Instance data_set_signals v : DataUpd (set_signals v). Proof. done. Qed.
#[export] Instance data_set_signal_mask v : DataUpd (set_signal_mask v). Proof. done. Qed.
#[export] Instance data_set_registered_interrupt v : DataUpd (set_registered_interrupt v). Proof. done. Qed.
#[export] Instance data_set_joiner v : DataUpd (set_joiner v). Proof. done. Qed.
#[export] Instance data_set_reg i v : DataUpd (set_reg i v). Proof. done. Qed.
#[export] Instance data_copy_regs s : DataUpd (Ipc.copy_regs s). Proof. done. Qed.

#[export] Instance field_regs : DataField regs. Proof. done. Qed.
#[export] Instance field_priority : DataField priority. Proof. done. Qed.
#[export] Instance field_thread_state : DataField thread_state. Proof. done. Qed.
#[export] Instance field_futex_tag : DataField futex_tag. Proof. done. Qed.
#[export] Instance field_tid : DataField tid. Proof. done. Qed.
#[export] Instance field_ipc_waiting_for : DataField ipc_waiting_for. Proof. done. Qed.
#[export] Instance field_signals : DataField signals. Proof. done. Qed.
#[export] Instance field_signal_mask : DataField signal_mask. Proof. done. Qed.
#[export] Instance field_registered_interrupt : DataField registered_interrupt. Proof. done. Qed.
#[export] Instance field_joiner : DataField joiner. Proof. done. Qed.
#[export] Instance field_alive : DataField is_thread_alive. Proof. done. Qed.

(** ** Representation *)

Section rep.
Context {cfg : NanoConfig}.

Record Rep (s : kstate) (A : akernel) : Prop := {
  rep_tcbs : a_tcbs A = erase <$> tcbs s;
  rep_current : a_current A = current_tcb s;
  rep_unit : a_unit A = current_unit s;
  rep_unit_priorities : a_unit_priorities A = unit_priorities s;
  rep_reschedule_irqs : a_reschedule_irqs A = reschedule_irqs s;
  rep_handlers : a_handlers A = interrupt_handlers s;
  rep_int_mask : a_int_mask A = priority_int_mask s;
  rep_irq_enable : a_irq_enable A = irq_enable s;
  rep_links : Links (tcbs s) (a_queue A);
  rep_heads_len : length (priority_heads s) = NUM_PRIORITIES;
  rep_heads : forall p, 0 <= p < 32 ->
    priority_heads s !! Z.to_nat p = Some (head (a_queue A (QReady p)));
  rep_ready : forall p, a_queue A (QReady p) <> [] -> 0 <= p < 32;
  rep_bitmap_word : is_word (priority_bitmap s);
  rep_bitmap : forall p, 0 <= p < 32 ->
    Z.testbit (priority_bitmap s) p = negb (bool_decide (a_queue A (QReady p) = []));
  rep_free : tcb_free_head s = head (a_queue A QFree);
  rep_send : forall d t, tcbs s !! d = Some t -> ipc_send_head t = head (a_queue A (QSend d));
  rep_futex_len : Z.of_nat (length (futex_hash s)) = futex_hash_slots;
  rep_futex : forall h, 0 <= h < futex_hash_slots ->
    futex_hash s !! Z.to_nat h
    = Some (head (a_queue A (QFutex h)), last (a_queue A (QFutex h)));
  rep_pending_len : length (futex_pending_tags s) = max_tcbs;
  rep_num_pending : num_pending_tags s = Z.of_nat (length (a_pending A));
  rep_pending : take (length (a_pending A)) (futex_pending_tags s) = a_pending A
}.

Lemma rep_lookup s A a t :
  Rep s A -> tcbs s !! a = Some t -> a_tcbs A !! a = Some (erase t).
Proof. intros HR Ht. by rewrite (rep_tcbs _ _ HR), lookup_fmap, Ht. Qed.

Lemma rep_lookup_inv s A a t' :
  Rep s A -> a_tcbs A !! a = Some t' -> exists t, tcbs s !! a = Some t /\ erase t = t'.
Proof.
  intros HR. rewrite (rep_tcbs _ _ HR), lookup_fmap. destruct (tcbs s !! a); naive_solver.
Qed.

Lemma rep_elem s A q a : Rep s A -> a ∈ a_queue A q -> is_Some (a_tcbs A !! a).
Proof.
  intros HR Ha. destruct (links_elem _ _ _ _ (rep_links _ _ HR) Ha) as [t Ht].
  eexists. by eapply rep_lookup.
Qed.

(** *** Reading *)

Lemma wp_deref s A a t' Q :
  Rep s A -> a_tcbs A !! a = Some t' ->
  (forall t, tcbs s !! a = Some t -> erase t = t' -> Q t s) -> wp (deref (Some a)) Q s.
Proof.
  intros HR Ha HQ. destruct (rep_lookup_inv _ _ _ _ HR Ha) as (t & Ht & He).
  unfold deref. wp_steps; try done. by apply HQ.
Qed.

Lemma wp_rd {T} (f : tcb -> T) `{!DataField f} s A a t' Q :
  Rep s A -> a_tcbs A !! a = Some t' -> Q (f t') s -> wp (rd (Some a) f) Q s.
Proof.
  intros HR Ha HQ. unfold rd. wp_step. eapply wp_deref; [done..|].
  intros t Ht <-. wp_steps. by rewrite (data_field (f := f)) in HQ.
Qed.

(** The link fields of a thread, as stored. *)
Lemma wp_rd_raw {T} (f : tcb -> T) s a t Q :
  tcbs s !! a = Some t -> Q (f t) s -> wp (rd (Some a) f) Q s.
Proof. intros Ht HQ. unfold rd, deref. by wp_steps. Qed.

Lemma wp_deref_raw s a t Q : tcbs s !! a = Some t -> Q t s -> wp (deref (Some a)) Q s.
Proof. intros Ht HQ. unfold deref. by wp_steps. Qed.

(** *** Writing *)

Lemma wp_wr_raw s a f Q :
  is_Some (tcbs s !! a) -> Q tt (set_tcbs (alter f a (tcbs s)) s) -> wp (wr (Some a) f) Q s.
Proof.
  intros [t Ht] HQ. unfold wr. wp_steps; try done.
  replace (<[a:=f t]> (tcbs s)) with (alter f a (tcbs s)); [done|].
  apply map_eq. intros i. destruct (decide (a = i)) as [->|].
  - by rewrite lookup_alter_eq, lookup_insert_eq, Ht.
  - by rewrite lookup_alter_ne, lookup_insert_ne.
Qed.

Lemma erase_alter f a (m : gmap nat tcb) :
  (forall t, erase (f t) = erase t) -> erase <$> alter f a m = erase <$> m.
Proof.
  intros Hf. apply map_eq. intros i. rewrite !lookup_fmap. destruct (decide (a = i)) as [->|].
  - rewrite lookup_alter_eq. destruct (m !! i); simpl; [by rewrite Hf|done].
  - by rewrite lookup_alter_ne.
Qed.

Lemma erase_alter_data f `{!DataUpd f} a (m : gmap nat tcb) : erase <$> alter f a m = alter f a (erase <$> m).
Proof.
  apply map_eq. intros i. destruct (decide (a = i)) as [->|].
  - rewrite lookup_fmap, !lookup_alter_eq, lookup_fmap.
    destruct (m !! i); simpl; [by rewrite data_erase|done].
  - by rewrite lookup_fmap, !lookup_alter_ne, lookup_fmap.
Qed.

(** A write to fields that are not links. *)
Lemma rep_upd f `{!DataUpd f} s A a :
  Rep s A -> Rep (set_tcbs (alter f a (tcbs s)) s) (a_upd a f A).
Proof.
  intros []. constructor; simpl; try done.
  - rewrite rep_tcbs0. by rewrite erase_alter_data.
  - eapply links_frame; [done|]. intros y.
    by rewrite (nxt_alter_id f) by apply data_next; rewrite (prv_alter_id f) by apply data_prev.
  - intros d t. destruct (decide (a = d)) as [->|].
    + rewrite lookup_alter_eq. destruct (tcbs s !! d) eqn:E; simpl; [|done].
      intros [= <-]. rewrite data_head. eauto.
    + rewrite lookup_alter_ne by done. eauto.
Qed.

Lemma wp_wr f `{!DataUpd f} s A a Q :
  Rep s A -> is_Some (a_tcbs A !! a) ->
  (forall s', Rep s' (a_upd a f A) -> Q tt s') -> wp (wr (Some a) f) Q s.
Proof.
  intros HR [t' Ha] HQ. destruct (rep_lookup_inv _ _ _ _ HR Ha) as (t & Ht & _).
  apply wp_wr_raw; [by eauto|]. apply HQ. by apply rep_upd.
Qed.

(** *** Queue updates

    A store whose TCBs differ from another's in [next] and [prev] only. *)
Definition core (t : tcb) : tcb := set_next None (set_prev None t).
#[local] Arguments core : simpl never.
Definition same_core (m m' : gmap nat tcb) : Prop := core <$> m' = core <$> m.

Lemma same_core_refl m : same_core m m.
Proof. done. Qed.
Lemma same_core_next m m' a v : same_core m m' -> same_core m (alter (set_next v) a m').
Proof.
  unfold same_core. intros H. rewrite <-H. apply map_eq. intros i. rewrite !lookup_fmap. destruct (decide (a = i)) as [->|].
  - rewrite lookup_alter_eq. by destruct (m' !! i).
  - by rewrite lookup_alter_ne.
Qed.
Lemma same_core_prev m m' a v : same_core m m' -> same_core m (alter (set_prev v) a m').
Proof.
  unfold same_core. intros H. rewrite <-H. apply map_eq. intros i. rewrite !lookup_fmap. destruct (decide (a = i)) as [->|].
  - rewrite lookup_alter_eq. by destruct (m' !! i).
  - by rewrite lookup_alter_ne.
Qed.

Lemma same_core_erase m m' : same_core m m' -> erase <$> m' = erase <$> m.
Proof.
  intros H. apply map_eq. intros i. rewrite !lookup_fmap.
  assert (Hi : core <$> m' !! i = core <$> m !! i) by (by rewrite <-!lookup_fmap, H).
  destruct (m' !! i) as [t'|], (m !! i) as [t|]; try done.
  apply (inj Some) in Hi. simpl. f_equal. change (erase t') with (set_ipc_send_head None (core t')).
  change (erase t) with (set_ipc_send_head None (core t)). congruence.
Qed.

Lemma same_core_head m m' a t' :
  same_core m m' -> m' !! a = Some t' ->
  exists t, m !! a = Some t /\ ipc_send_head t = ipc_send_head t'.
Proof.
  intros H Ht.
  assert (Hi : core <$> m' !! a = core <$> m !! a) by (by rewrite <-!lookup_fmap, H).
  rewrite Ht in Hi. destruct (m !! a) as [t|]; [|done]. apply (inj Some) in Hi.
  exists t. split; [done|].
  change (ipc_send_head t') with (ipc_send_head (core t')).
  change (ipc_send_head t) with (ipc_send_head (core t)). congruence.
Qed.

(** A ready queue is replaced. *)
Lemma rep_set_ready s A p l' m' bm' :
  Rep s A -> 0 <= p < 32 -> same_core (tcbs s) m' ->
  Links m' (qset (QReady p) l' (a_queue A)) -> is_word bm' ->
  (forall p', 0 <= p' < 32 ->
     Z.testbit bm' p' = if p' =? p then negb (bool_decide (l' = []))
                        else Z.testbit (priority_bitmap s) p') ->
  Rep (set_tcbs m' (set_priority_bitmap bm'
         (set_priority_heads (<[Z.to_nat p := head l']> (priority_heads s)) s)))
      (a_setq (QReady p) l' A).
Proof.
  intros HR Hp Hm HL Hw Hbm. pose proof (rep_heads_len _ _ HR) as Hlen.
  unfold NUM_PRIORITIES in Hlen. pose proof HR as []. constructor; simpl; try done.
  - by rewrite (same_core_erase _ _ Hm).
  - by rewrite length_insert.
  - intros p' Hp'. destruct (decide (p' = p)) as [->|Hne].
    + rewrite list_lookup_insert_eq by lia. by rewrite qset_eq.
    + rewrite list_lookup_insert_ne by lia. rewrite qset_ne by congruence. auto.
  - intros p'. destruct (decide (p' = p)) as [->|Hne]; [done|].
    rewrite qset_ne by congruence. auto.
  - intros p' Hp'. rewrite Hbm by done. destruct (Z.eqb_spec p' p) as [->|Hne].
    + by rewrite qset_eq.
    + rewrite qset_ne by congruence. auto.
  - intros d t' Ht'. rewrite qset_ne by done.
    destruct (same_core_head _ _ _ _ Hm Ht') as (t & Ht & <-). eauto.
Qed.

(** The free list is replaced. *)
Lemma rep_set_free s A l' m' :
  Rep s A -> same_core (tcbs s) m' -> Links m' (qset QFree l' (a_queue A)) ->
  Rep (set_tcbs m' (set_tcb_free_head (head l') s)) (a_setq QFree l' A).
Proof.
  intros HR Hm HL. pose proof HR as []. constructor; simpl; try done.
  - by rewrite (same_core_erase _ _ Hm).
  - intros d t' Ht'. rewrite qset_ne by done.
    destruct (same_core_head _ _ _ _ Hm Ht') as (t & Ht & <-). eauto.
Qed.

(** The send queue of thread [d] is replaced. *)
Lemma rep_set_send s A d l' m' :
  Rep s A -> same_core (tcbs s) m' -> Links m' (qset (QSend d) l' (a_queue A)) ->
  Rep (set_tcbs (alter (set_ipc_send_head (head l')) d m') s) (a_setq (QSend d) l' A).
Proof.
  intros HR Hm HL. pose proof HR as []. constructor; simpl; try done.
  - rewrite erase_alter by (by intros []). by rewrite (same_core_erase _ _ Hm).
  - eapply links_frame; [done|]. intros y.
    by rewrite nxt_alter_id, prv_alter_id by (by intros []).
  - intros d' t'. destruct (decide (d' = d)) as [->|Hne].
    + rewrite lookup_alter_eq, qset_eq. destruct (m' !! d); simpl; [|done]. by intros [= <-].
    + rewrite lookup_alter_ne, qset_ne by congruence. intros Ht'.
      destruct (same_core_head _ _ _ _ Hm Ht') as (t & Ht & <-). eauto.
Qed.

(** A futex chain is replaced. *)
Lemma rep_set_futex s A h l' m' :
  Rep s A -> 0 <= h < futex_hash_slots -> same_core (tcbs s) m' ->
  Links m' (qset (QFutex h) l' (a_queue A)) ->
  Rep (set_tcbs m' (set_futex_hash (<[Z.to_nat h := (head l', last l')]> (futex_hash s)) s))
      (a_setq (QFutex h) l' A).
Proof.
  intros HR Hh Hm HL. pose proof HR as []. constructor; simpl; try done.
  - by rewrite (same_core_erase _ _ Hm).
  - intros d t' Ht'. rewrite qset_ne by done.
    destruct (same_core_head _ _ _ _ Hm Ht') as (t & Ht & <-). eauto.
  - by rewrite length_insert.
  - intros h' Hh'. destruct (decide (h' = h)) as [->|Hne].
    + rewrite list_lookup_insert_eq by lia. by rewrite qset_eq.
    + rewrite list_lookup_insert_ne by lia. rewrite qset_ne by congruence. auto.
Qed.

(** The stored links of the head of a ring. *)
Lemma rep_ring_head s A q a l :
  Rep s A -> is_ring q = true -> a_queue A q = a :: l ->
  exists t, tcbs s !! a = Some t /\ next t = Some (default a (head l))
            /\ prev t = Some (default a (last l)).
Proof.
  intros HR Hq Eq. pose proof (lk_list _ _ (rep_links _ _ HR) q) as Hr.
  unfold linked_list in Hr. rewrite Hq, Eq in Hr.
  pose proof (ring_head_next _ _ _ Hr) as Hn. pose proof (ring_head_prev _ _ _ Hr) as Hp.
  destruct (is_Some_nxt _ _ _ Hn) as [t Ht]. exists t. unfold nxt, prv in *.
  rewrite Ht in *. by simplify_eq/=.
Qed.

Lemma rep_queue_dom s A q a : Rep s A -> a ∈ a_queue A q -> is_Some (tcbs s !! a).
Proof. intros HR. apply (links_elem _ _ _ _ (rep_links _ _ HR)). Qed.

(** The links of a thread that is on no queue are NULL. *)
Lemma rep_unqueued s A a t :
  Rep s A -> unqueued A a -> tcbs s !! a = Some t -> next t = None /\ prev t = None.
Proof.
  intros HR Hu Ht. destruct (lk_unq _ _ (rep_links _ _ HR) a) as [Hn Hp]; [by eauto|apply Hu|].
  unfold nxt, prv in *. rewrite Ht in *. by simplify_eq/=.
Qed.

(** *** Thread lookups after updates *)

Lemma a_upd_eq a f A t : a_tcbs A !! a = Some t -> a_tcbs (a_upd a f A) !! a = Some (f t).
Proof. intros H. simpl. by rewrite lookup_alter_eq, H. Qed.
Lemma a_upd_ne a b f A : a <> b -> a_tcbs (a_upd a f A) !! b = a_tcbs A !! b.
Proof. intros H. simpl. by rewrite lookup_alter_ne. Qed.
Lemma a_upd_is_Some a b f A : is_Some (a_tcbs A !! b) -> is_Some (a_tcbs (a_upd a f A) !! b).
Proof. apply is_Some_alter. Qed.

End rep.

Lemma default_last_in (a : nat) l : default a (last l) ∈ a :: l.
Proof.
  destruct (last l) eqn:E; simpl; [|set_solver].
  apply last_Some_elem_of in E. set_solver.
Qed.

(** Step over [gets current_tcb]. *)
Ltac wp_cur HR Hc :=
  wp_step; apply wp_gets; cbn beta; rewrite <-(rep_current _ _ HR);
  cbn [a_current a_upd a_set_tcbs]; rewrite ?Hc.

(** Validity of a pointer in a store built by updates. *)
Ltac solve_dom := simpl; repeat apply is_Some_alter; eauto using mk_is_Some.

#[export] Hint Resolve a_upd_is_Some same_core_refl same_core_next same_core_prev : links.
