(* ===== verification/NanoRefineSched.v ===== *)
(** * The scheduler implements its specification

    Each operation of [NanoSchedule], run from a state that represents an
    abstract kernel, does not crash and ends in a state that represents the
    abstract operation's result. *)

From S2P Require Import Prelude NanoState NanoSchedule NanoSyscalls NanoSpec Rings NanoLinks NanoRep.
#[local] Open Scope Z_scope.

Section refine_sched.
Context {cfg : NanoConfig}.

(** ** The highest ready priority *)

Lemma highest_below_Some f n p :
  highest_below f n = Some p ->
  0 <= p < Z.of_nat n /\ f p = true /\ forall p', p < p' < Z.of_nat n -> f p' = false.
Proof.
  induction n as [|n IH]; simpl; [done|]. destruct (f (Z.of_nat n)) eqn:E.
  - intros [= <-]. split_and!; [lia|lia|done|]. intros. lia.
  - intros H. destruct (IH H) as (Hp & Hf & Hm). split_and!; [lia|lia|done|].
    intros p' Hp'. destruct (decide (p' = Z.of_nat n)) as [->|]; [done|]. apply Hm. lia.
Qed.

Lemma highest_below_None f n p :
  highest_below f n = None -> 0 <= p < Z.of_nat n -> f p = false.
Proof.
  induction n as [|n IH]; simpl; [lia|]. destruct (f (Z.of_nat n)) eqn:E; [done|].
  intros H Hp. destruct (decide (p = Z.of_nat n)) as [->|]; [done|]. apply IH; [done|lia].
Qed.

Lemma a_highest_Some A p :
  a_highest A = Some p ->
  0 <= p < 32 /\ a_queue A (QReady p) <> [] /\
  forall p', p < p' < 32 -> a_queue A (QReady p') = [].
Proof.
  intros H. apply highest_below_Some in H as (Hp & Hf & Hm).
  change (Z.of_nat NUM_PRIORITIES) with 32 in *. split_and!; [lia|lia| |].
  - simpl in Hf. by case_bool_decide.
  - intros p' Hp'. specialize (Hm p' Hp'). simpl in Hm. by case_bool_decide.
Qed.

Lemma a_highest_None A p : a_highest A = None -> 0 <= p < 32 -> a_queue A (QReady p) = [].
Proof.
  intros H Hp. pose proof (highest_below_None _ _ p H Hp) as Hf. simpl in Hf. by case_bool_decide.
Qed.

Lemma rep_bitmap_zero s A : Rep s A -> priority_bitmap s = 0 <-> a_highest A = None.
Proof.
  intros HR. split.
  - intros Hbm. destruct (a_highest A) as [p|] eqn:E; [|done].
    apply a_highest_Some in E as (Hp & Hq & _).
    pose proof (rep_bitmap _ _ HR p Hp) as Hb. rewrite Hbm, Z.bits_0 in Hb.
    by rewrite bool_decide_false in Hb.
  - intros Hn. apply Z.bits_inj_0. intros p.
    destruct (Z.lt_ge_cases p 0) as [|Hp]; [by apply Z.testbit_neg_r|].
    destruct (Z.lt_ge_cases p 32).
    + rewrite (rep_bitmap _ _ HR) by lia. rewrite (a_highest_None _ p Hn) by lia.
      by rewrite bool_decide_true.
    + apply word_bits_high; [apply HR|lia].
Qed.

(** [MAX_PRIORITY - clz(priority_bitmap)] is the highest ready priority, or
    -1 when no thread is ready. *)
Lemma rep_highest s A : Rep s A -> MAX_PRIORITY - clz (priority_bitmap s) = a_highest_int A.
Proof.
  intros HR. unfold a_highest_int, clz, MAX_PRIORITY.
  destruct (a_highest A) as [p|] eqn:E; simpl.
  - destruct (Z.eqb_spec (priority_bitmap s) 0) as [Hz|Hz].
    { apply (rep_bitmap_zero _ _ HR) in Hz. congruence. }
    apply a_highest_Some in E as (Hp & Hq & Hm).
    enough (Z.log2 (priority_bitmap s) = p) by lia.
    pose proof (rep_bitmap_word _ _ HR) as Hw. unfold is_word in Hw.
    assert (Hb : Z.testbit (priority_bitmap s) p = true).
    { rewrite (rep_bitmap _ _ HR) by done. by rewrite bool_decide_false. }
    assert (Hl : Z.testbit (priority_bitmap s) (Z.log2 (priority_bitmap s)) = true)
      by (apply Z.bit_log2; lia).
    assert (Hl32 : Z.log2 (priority_bitmap s) < 32).
    { destruct (Z.lt_ge_cases (Z.log2 (priority_bitmap s)) 32) as [|Hge]; [done|].
      by rewrite word_bits_high in Hl. }
    pose proof (Z.log2_nonneg (priority_bitmap s)).
    destruct (Z.lt_trichotomy (Z.log2 (priority_bitmap s)) p) as [Hlt|[Heq|Hgt]]; [|done|].
    + rewrite Z.bits_above_log2 in Hb by lia. done.
    + rewrite (rep_bitmap _ _ HR) in Hl by lia. by rewrite (Hm _ (conj Hgt Hl32)) in Hl.
  - apply (rep_bitmap_zero _ _ HR) in E. by rewrite E.
Qed.

Lemma wp_get_highest_priority s A Q :
  Rep s A -> Q (a_highest_int A) s -> wp get_highest_priority Q s.
Proof.
  intros HR HQ. unfold get_highest_priority. wp_steps. by rewrite (rep_highest _ _ HR).
Qed.

(** ** Enqueue and dequeue *)

Lemma enqueue_spec s A a t :
  Rep s A -> a_tcbs A !! a = Some t -> unqueued A a -> 0 <= priority t < 32 ->
  wp (enqueue (Some a)) (fun _ s' => Rep s' (a_enqueue a A)) s.
Proof.
  intros HR Ha Hunq Hp. unfold enqueue. wp_step. wp_step; [done|].
  wp_step. eapply wp_deref; [done..|]. intros t0 Ht0 He.
  assert (Hpr : priority t0 = priority t) by (by rewrite <-He). rewrite !Hpr. clear Hpr.
  destruct (rep_unqueued _ _ _ _ HR Hunq Ht0) as [-> ->].
  wp_step. wp_step; [done|]. wp_steps.
  eapply wp_index; [lia|by apply (rep_heads _ _ HR)|].
  pose proof (rep_heads_len _ _ HR) as Hlen. unfold NUM_PRIORITIES in Hlen.
  pose proof (rep_links _ _ HR) as HL.
  unfold a_enqueue, a_prio, a_get. rewrite Ha. set (q := QReady (priority t)) in *.
  unfold a_push. destruct (a_queue A q) as [|h l] eqn:Eq; simpl head.
  - rewrite bool_decide_true by done. wp_step. apply wp_index_set; [lia|].
    wp_steps. apply wp_wr_raw; [solve_dom|]. wp_step.
    apply wp_wr_raw; [solve_dom|]. wp_steps.
    apply (rep_set_ready s A (priority t) [a]
      (alter (set_prev (Some a)) a (alter (set_next (Some a)) a (tcbs s)))
      (set_bit32 (priority_bitmap s) (priority t)) HR Hp);
      [by eauto with links | | by apply is_word_set_bit32, HR | ].
    + eapply links_push_empty; [done|done|done|done|..]; solve_link.
      intros x Hx. split; solve_link.
    + intros p' Hp'. rewrite testbit_set_bit32 by done.
      destruct (Z.eqb_spec p' (priority t)); simpl; [by rewrite orb_true_r | by rewrite orb_false_r].
  - rewrite bool_decide_false by done.
    destruct (rep_ring_head _ _ q h l HR eq_refl Eq) as (th & Hth & Hhn & Hhp).
    wp_step. eapply wp_rd_raw; [done|]. rewrite Hhp. set (z := default h (last l)) in *.
    assert (Hzp : prv (tcbs s) h = Some (Some z)) by (unfold prv; by rewrite Hth, <-Hhp).
    assert (Hzin : z ∈ a_queue A q) by (rewrite Eq; apply default_last_in).
    assert (Hah : a <> h) by (intros ->; apply (Hunq q); rewrite Eq; set_solver).
    assert (Haz : a <> z) by (intros ->; by apply (Hunq q)).
    destruct (links_elem _ _ q z HL Hzin) as [tz Htz].
    wp_step. apply wp_wr_raw; [solve_dom|]. wp_step.
    apply wp_wr_raw; [solve_dom|]. wp_step.
    apply wp_wr_raw; [solve_dom|].
    apply wp_wr_raw; [solve_dom|]. simpl tcbs.
    assert (Hid : <[Z.to_nat (priority t) := head (h :: l ++ [a])]> (priority_heads s) = priority_heads s).
    { apply list_insert_id. rewrite (rep_heads _ _ HR) by done. fold q. by rewrite Eq. }
    pose proof (rep_set_ready s A (priority t) (h :: l ++ [a])
      (alter (set_next (Some a)) z (alter (set_prev (Some a)) h
        (alter (set_prev (Some z)) a (alter (set_next (Some h)) a (tcbs s)))))
      (priority_bitmap s) HR Hp) as Hrep. rewrite Hid in Hrep. apply Hrep; clear Hrep;
      [by eauto 10 with links | | by apply HR | ].
    + eapply (links_push _ _ _ _ a h l z); try done; try (intros x Hx1 Hx2); solve_link; solve_dom.
    + intros p' Hp'. destruct (Z.eqb_spec p' (priority t)) as [->|]; [|done].
      rewrite (rep_bitmap _ _ HR) by done. fold q. by rewrite Eq.
Qed.

Lemma dequeue_head_spec s A p a l :
  Rep s A -> 0 <= p < 32 -> a_queue A (QReady p) = a :: l ->
  wp (dequeue_head p) (fun r s' => r = Some a /\ Rep s' (a_pop (QReady p) A)) s.
Proof.
  intros HR Hp Eq. unfold dequeue_head. wp_steps.
  eapply wp_index; [lia|by apply (rep_heads _ _ HR)|]. rewrite Eq. simpl head.
  pose proof (rep_heads_len _ _ HR) as Hlen. unfold NUM_PRIORITIES in Hlen.
  pose proof (rep_links _ _ HR) as HL.
  wp_steps; [done|].
  destruct (rep_ring_head _ _ (QReady p) a l HR eq_refl Eq) as (t & Ht & Hn & Hpv).
  eapply wp_deref_raw; [done|]. rewrite Hn, Hpv. unfold a_pop. rewrite Eq. simpl tail.
  pose proof (lk_nodup _ _ HL (QReady p)) as Hnd. rewrite Eq in Hnd.
  destruct l as [|x r]; cbn [head hd_error from_option id] in *.
  - rewrite bool_decide_true by done. wp_steps. apply wp_index_set; [simpl; lia|]. wp_steps.
    apply wp_wr_raw; [solve_dom|]. wp_steps. apply wp_wr_raw; [solve_dom|]. wp_steps.
    split; [done|].
    apply (rep_set_ready s A p []
      (alter (set_prev None) a (alter (set_next None) a (tcbs s)))
      (clear_bit32 (priority_bitmap s) p) HR Hp);
      [by eauto with links | | by apply is_word_clear_bit32, HR | ].
    + eapply (links_remove_last _ _ _ _ a); try done; try (intros x Hx; split); solve_link; solve_dom.
    + intros p' Hp'. rewrite testbit_clear_bit32 by done.
      destruct (Z.eqb_spec p' p); simpl; [by rewrite andb_false_r | by rewrite andb_true_r].
  - apply NoDup_cons in Hnd as [Hna Hnd].
    assert (Hax : a <> x) by (intros ->; apply Hna; set_solver).
    set (z := default a (last (x :: r))) in *.
    assert (Hz : z = default x (last r)) by (unfold z; rewrite last_cons; by destruct (last r)).
    assert (Hzin : z ∈ x :: r) by (rewrite Hz; apply default_last_in).
    assert (Haz : a <> z) by (intros Heq; apply Hna; by rewrite Heq).
    rewrite bool_decide_false by congruence.
    assert (Hdx : is_Some (tcbs s !! x)).
    { apply (rep_queue_dom _ _ (QReady p) _ HR). rewrite Eq. set_solver. }
    assert (Hdz : is_Some (tcbs s !! z)).
    { apply (rep_queue_dom _ _ (QReady p) _ HR). rewrite Eq. set_solver. }
    wp_steps. apply wp_wr_raw; [solve_dom|]. wp_steps. apply wp_wr_raw; [solve_dom|]. wp_steps.
    apply wp_index_set; [simpl; lia|]. wp_steps.
    apply wp_wr_raw; [solve_dom|]. wp_steps. apply wp_wr_raw; [solve_dom|]. wp_steps.
    split; [done|].
    apply (rep_set_ready s A p (x :: r)
      (alter (set_prev None) a (alter (set_next None) a
        (alter (set_prev (Some z)) x (alter (set_next (Some x)) z (tcbs s)))))
      (priority_bitmap s) HR Hp);
      [by eauto 10 with links | | by apply HR | ].
    + apply (links_remove _ _ _ (QReady p) [] a (x :: r) x z HL); try done;
        try (intros y Hy1 Hy2); solve_link; try solve_dom.
      * unfold nxt. by rewrite Ht, <-Hn.
      * unfold prv. by rewrite Ht, <-Hpv.
    + intros p' Hp'. destruct (Z.eqb_spec p' p) as [->|]; [|done].
      rewrite (rep_bitmap _ _ HR) by done. by rewrite Eq.
Qed.

(** ** Execution units *)

(** The unit-priority array has its declared size and the executing unit is
    one of the units. *)
Definition units_wf (A : akernel) : Prop :=
  multi_unit = true ->
  length (a_unit_priorities A) = (NUM_EXECUTION_UNITS + 2)%nat /\ (a_unit A < NUM_EXECUTION_UNITS)%nat.

(** The current thread is a thread, and the entry of the executing unit is
    the priority of the current thread plus one, or 0 when idle. *)
Definition unit_ok (A : akernel) : Prop :=
  units_wf A /\
  match a_current A with
  | None => multi_unit = true -> a_unit_priorities A !! a_unit A = Some 0
  | Some c => exists t, a_tcbs A !! c = Some t /\ 0 <= priority t < 32 /\
      (multi_unit = true -> a_unit_priorities A !! a_unit A = Some (priority t + 1))
  end.

Lemma wp_is_current_unit_prio_correct s A Q :
  Rep s A -> unit_ok A -> Q true s -> wp is_current_unit_prio_correct Q s.
Proof.
  intros HR [Hwf Hu] HQ. unfold is_current_unit_prio_correct, units_wf in *.
  destruct multi_unit; [|by wp_steps]. destruct (Hwf eq_refl) as [Hlen Hlt].
  wp_steps. rewrite <-(rep_current _ _ HR), <-(rep_unit _ _ HR), <-(rep_unit_priorities _ _ HR).
  destruct (a_current A) as [c|].
  - destruct Hu as (t & Ht & Hp & Hups). specialize (Hups eq_refl).
    rewrite bool_decide_false by done. wp_steps. eapply wp_rd; [apply _|done..|]. wp_steps.
    rewrite Z.mod_small by lia. apply wp_index_set; [lia|]. rewrite Nat2Z.id.
    rewrite list_insert_id by done. wp_steps.
    destruct (Z.eqb_spec (priority t + 1) 0); [lia|]. simpl.
    rewrite (rep_unit_priorities _ _ HR). by destruct s.
  - rewrite bool_decide_true by done. wp_steps.
    eapply wp_index; [lia|rewrite Nat2Z.id; by apply Hu|]. by wp_steps.
Qed.

Lemma wp_set_unit_priority s A p Q :
  Rep s A -> units_wf A -> (forall s', Rep s' (a_set_unit_priority p A) -> Q tt s') ->
  wp (set_unit_priority p) Q s.
Proof.
  intros HR Hwf HQ. unfold set_unit_priority, a_set_unit_priority, units_wf in *.
  destruct multi_unit; [|wp_steps; by apply HQ]. destruct (Hwf eq_refl) as [Hlen Hlt].
  wp_steps. rewrite <-(rep_unit _ _ HR), <-(rep_unit_priorities _ _ HR).
  apply wp_index_set; [lia|]. rewrite Nat2Z.id. wp_steps. apply HQ.
  destruct HR. by constructor.
Qed.

(** The search loop raises one IPI when one of the units it visits runs
    below [mt], and none otherwise. *)
Lemma wp_smt_reschedule_from s A mt n i Q :
  Rep s A -> (i + n <= length (a_unit_priorities A))%nat ->
  (forall s', Rep s' (if existsb (fun up => up <? mt) (take n (drop i (a_unit_priorities A)))
                      then a_set_reschedule_irqs (S (a_reschedule_irqs A)) A else A) -> Q tt s') ->
  wp (smt_reschedule_from (a_unit_priorities A) mt n (Z.of_nat i)) Q s.
Proof.
  intros HR. revert i. induction n as [|n IH]; intros i Hlen HQ; simpl.
  { wp_steps. by apply HQ. }
  destruct (lookup_lt_is_Some_2 (a_unit_priorities A) i) as [up Hup]; [lia|].
  wp_step. eapply wp_index; [lia|by rewrite Nat2Z.id|].
  rewrite (drop_S _ _ _ Hup) in HQ. simpl in HQ. destruct (up <? mt) eqn:E; simpl in HQ.
  - unfold flag_reschedule. wp_steps. apply HQ.
    rewrite (rep_reschedule_irqs _ _ HR). destruct HR. by constructor.
  - replace (Z.of_nat i + 1) with (Z.of_nat (S i)) by lia. apply IH; [lia|done].
Qed.

Lemma wp_smt_reschedule s A Q :
  Rep s A -> units_wf A -> (forall s', Rep s' (a_smt_reschedule A) -> Q tt s') ->
  wp smt_reschedule Q s.
Proof.
  intros HR Hwf HQ. unfold smt_reschedule, a_smt_reschedule, units_wf in *.
  destruct multi_unit; simpl in HQ; [|wp_steps; by apply HQ]. destruct (Hwf eq_refl) as [Hlen Hlt].
  wp_steps. eapply wp_get_highest_priority; [done|]. wp_steps.
  rewrite <-(rep_unit_priorities _ _ HR).
  apply (wp_smt_reschedule_from _ _ _ _ 0 _ HR); [lia|]. rewrite drop_0. done.
Qed.

Lemma units_wf_unit p A : units_wf A -> units_wf (a_set_unit_priority p A).
Proof.
  unfold units_wf, a_set_unit_priority. destruct multi_unit; simpl; [|done].
  by rewrite length_insert.
Qed.

(** ** Scheduling *)

Lemma do_schedule_spec s A :
  Rep s A -> unit_ok A ->
  wp do_schedule (fun r s' => r = fst (a_do_schedule A) /\ Rep s' (snd (a_do_schedule A))) s.
Proof.
  intros HR Hu. unfold do_schedule. wp_step.
  eapply wp_is_current_unit_prio_correct; [done..|]. wp_steps; [done|].
  destruct Hu as [Hwf _]. pose proof (rep_bitmap_zero _ _ HR) as Hz. unfold a_do_schedule.
  destruct (Z.eqb_spec (priority_bitmap s) 0) as [Hb|Hb].
  - rewrite (proj1 Hz Hb). wp_step. eapply wp_set_unit_priority; [done..|].
    intros s' HR'. by wp_steps.
  - destruct (a_highest A) as [p|] eqn:E; [|by destruct Hb; apply Hz].
    destruct (a_highest_Some _ _ E) as (Hp & Hq & _).
    wp_step. eapply wp_get_highest_priority; [done|]. unfold a_highest_int. rewrite E. simpl.
    destruct (a_queue A (QReady p)) as [|a l] eqn:Eq; [done|].
    wp_step. eapply wp_mono; [by eapply dequeue_head_spec|]. simpl. intros r s1 [-> HR1].
    wp_steps; [done|]. eapply wp_set_unit_priority; [done|done|]. intros s2 HR2.
    wp_step. eapply wp_smt_reschedule; [done|by apply units_wf_unit|]. intros s3 HR3.
    by wp_steps.
Qed.

Lemma yield_spec s A c t :
  Rep s A -> unit_ok A -> a_current A = Some c -> a_tcbs A !! c = Some t ->
  thread_state t = THREAD_STATE_RUNNABLE -> unqueued A c ->
  wp yield (fun r s' => r = fst (a_yield A) /\ Rep s' (snd (a_yield A))) s.
Proof.
  intros HR Hu Hc Ht Hst Hunq. unfold yield, a_yield. wp_cur HR Hc. wp_steps; [done|].
  eapply wp_deref; [done..|]. intros t0 Ht0 He.
  assert (Hst0 : thread_state t0 = THREAD_STATE_RUNNABLE) by (by rewrite <-He in Hst).
  rewrite Hst0. wp_steps; [done|].
  eapply wp_is_current_unit_prio_correct; [done..|]. wp_steps; [done|].
  eapply wp_get_highest_priority; [done|].
  assert (Hpr : a_prio A c = priority t0) by (unfold a_prio, a_get; by rewrite Ht, <-He).
  rewrite Hpr. destruct (priority t0 <=? u32 (a_highest_int A)); [|by wp_steps].
  pose proof Hu as [_ Hcur]. rewrite Hc in Hcur. destruct Hcur as (t' & Ht' & Hp & _).
  wp_step. eapply wp_mono; [eapply (enqueue_spec _ _ c t'); done|].
  simpl. intros _ s1 HR1. eapply do_schedule_spec; [done|]. exact Hu.
Qed.

Lemma sys_yield_spec s A c t :
  Rep s A -> unit_ok A -> a_current A = Some c -> a_tcbs A !! c = Some t ->
  thread_state t = THREAD_STATE_RUNNABLE -> unqueued A c ->
  wp sys_yield (fun _ s' => Rep s' (a_sys_yield A)) s.
Proof.
  intros. unfold sys_yield. wp_step. eapply wp_mono; [by eapply yield_spec|].
  simpl. intros r s1 [-> HR1]. unfold switch_to. wp_steps.
  destruct HR1. by constructor.
Qed.

(** ** Activation and deactivation *)

Lemma unit_ok_upd a f A :
  (forall t, priority (f t) = priority t) -> unit_ok A -> unit_ok (a_upd a f A).
Proof.
  intros Hf [Hwf Hu]. split; [exact Hwf|]. simpl. destruct (a_current A) as [c|]; [|done].
  destruct Hu as (t & Ht & Hp & Hups). destruct (decide (a = c)) as [->|Hne].
  - exists (f t). rewrite lookup_alter_eq, Ht, Hf. done.
  - exists t. by rewrite lookup_alter_ne.
Qed.

Lemma a_prio_upd a b f A :
  (forall t, priority (f t) = priority t) -> a_prio (a_upd a f A) b = a_prio A b.
Proof.
  intros Hf. unfold a_prio, a_get. simpl. destruct (decide (a = b)) as [->|Hne].
  - rewrite lookup_alter_eq. destruct (a_tcbs A !! b); simpl; [by rewrite Hf|done].
  - by rewrite lookup_alter_ne.
Qed.

Lemma a_prio_eq A a t : a_tcbs A !! a = Some t -> a_prio A a = priority t.
Proof. intros H. unfold a_prio, a_get. by rewrite H. Qed.

(** A thread that may be woken: on no queue, blocked, of a valid priority. *)
Definition wakeable (A : akernel) (a : nat) : Prop :=
  unqueued A a /\ exists t, a_tcbs A !! a = Some t /\
    thread_state t <> THREAD_STATE_RUNNABLE /\ 0 <= priority t < 32.

(** The current thread of the executing unit is running. *)
Definition running_cur (A : akernel) (c : nat) : Prop :=
  a_current A = Some c /\ unqueued A c /\
  exists t, a_tcbs A !! c = Some t /\ thread_state t = THREAD_STATE_RUNNABLE.

Lemma activate_spec s A a :
  Rep s A -> wakeable A a -> wp (activate (Some a)) (fun _ s' => Rep s' (a_activate a A)) s.
Proof.
  intros HR (Hunq & t & Ht & Hst & Hp). unfold activate. wp_steps; [done|].
  eapply wp_rd; [apply _|done..|]. wp_steps; [by rewrite bool_decide_true|].
  eapply wp_wr; [apply _|done|by eauto|]. intros s1 HR1.
  eapply (enqueue_spec _ _ a (set_thread_state THREAD_STATE_RUNNABLE t));
    [done|by apply a_upd_eq|done|done].
Qed.

Lemma activate_schedule_spec s A a :
  Rep s A -> unit_ok A -> wakeable A a ->
  (forall c, a_current A = Some c -> running_cur A c) ->
  wp (activate_schedule (Some a))
     (fun r s' => r = fst (a_activate_schedule a A) /\ Rep s' (snd (a_activate_schedule a A))) s.
Proof.
  intros HR Hu (Hunq & t & Ht & Hst & Hp) Hcur. unfold activate_schedule. wp_step. wp_step; [done|].
  wp_cur HR HR. wp_step.
  assert (Hc : forall Q, Q tt s -> wp (if bool_decide (a_current A = IDLE_TCB_PTR) then ret tt
       else let! cst := rd (a_current A) thread_state in
            ASSERT (bool_decide (cst = THREAD_STATE_RUNNABLE))) Q s).
  { intros Q HQ. destruct (a_current A) as [c|]; [|by rewrite bool_decide_true; wp_steps].
    rewrite bool_decide_false by done. destruct (Hcur c eq_refl) as (_ & _ & tc & Htc & Hcst).
    wp_step. eapply wp_rd; [apply _|done..|]. wp_steps; [|done]. by rewrite bool_decide_true. }
  apply Hc; clear Hc. wp_step.
  eapply wp_is_current_unit_prio_correct; [done..|]. wp_steps; [done|].
  eapply wp_rd; [apply _|done..|]. wp_steps; [by rewrite bool_decide_true|].
  eapply wp_wr; [apply _|done|by eauto|]. intros s1 HR1.
  unfold a_activate_schedule. set (A1 := a_upd a (set_thread_state THREAD_STATE_RUNNABLE) A) in *.
  assert (Ht1 : a_tcbs A1 !! a = Some (set_thread_state THREAD_STATE_RUNNABLE t)) by (by apply a_upd_eq).
  wp_step. eapply wp_rd; [apply _|done..|]. simpl.
  assert (Hu1 : unit_ok A1) by (by apply unit_ok_upd). rewrite (a_prio_eq _ _ _ Ht1). simpl.
  change (a_current A1) with (a_current A).
  destruct (a_current A) as [c|] eqn:Ec.
  - destruct (Hcur c eq_refl) as (_ & Hcunq & tc & Htc & Hcst).
    assert (Hca : c <> a) by congruence.
    assert (Htc1 : a_tcbs A1 !! c = Some tc) by (unfold A1; by rewrite a_upd_ne).
    rewrite bool_decide_false by done.
    wp_step. eapply wp_rd; [apply _|done..|]. rewrite (a_prio_eq _ _ _ Htc1).
    assert (Hpc : 0 <= priority tc < 32).
    { destruct Hu as [_ Hu]. rewrite Ec in Hu. destruct Hu as (tc' & ? & ? & _). congruence. }
    destruct (priority tc <? priority t).
    + wp_step. eapply wp_mono; [by eapply (enqueue_spec _ _ c tc)|]. simpl. intros _ s2 HR2.
      wp_step. eapply wp_set_unit_priority; [done|apply Hu1|]. intros s3 HR3.
      wp_step. eapply wp_smt_reschedule; [done|apply units_wf_unit, Hu1|]. intros s4 HR4. by wp_steps.
    + wp_step. eapply wp_mono; [by eapply (enqueue_spec _ _ a)|]. simpl. intros _ s2 HR2.
      wp_step. eapply wp_smt_reschedule; [done|apply Hu1|]. intros s3 HR3. by wp_steps.
  - rewrite bool_decide_true by done. wp_step.
    eapply wp_set_unit_priority; [done|apply Hu1|]. intros s3 HR3. by wp_steps.
Qed.

(** What the code checks of the current thread before it blocks. *)
Definition cur_runnable (A : akernel) (c : nat) : Prop :=
  a_current A = Some c /\
  exists t, a_tcbs A !! c = Some t /\ thread_state t = THREAD_STATE_RUNNABLE.

Lemma running_runnable A c : running_cur A c -> cur_runnable A c.
Proof. intros (? & _ & ?). by split. Qed.

Lemma deactivate_self_spec s A c st :
  Rep s A -> cur_runnable A c -> st <> THREAD_STATE_RUNNABLE ->
  wp (deactivate_self st) (fun _ s' => Rep s' (a_deactivate_self st A)) s.
Proof.
  intros HR (Hc & t & Ht & Hst) Hne. unfold deactivate_self, a_deactivate_self.
  rewrite Hc. wp_cur HR Hc. wp_steps; [done|].
  eapply wp_rd; [apply _|done..|]. rewrite Hst. wp_steps; [done|by rewrite bool_decide_true|].
  eapply wp_wr; [apply _|done|by eauto|]. auto.
Qed.

Lemma deactivate_self_schedule_spec s A c st :
  Rep s A -> unit_ok A -> cur_runnable A c -> st <> THREAD_STATE_RUNNABLE ->
  wp (deactivate_self_schedule st)
     (fun r s' => r = fst (a_deactivate_self_schedule st A) /\
                  Rep s' (snd (a_deactivate_self_schedule st A))) s.
Proof.
  intros HR Hu (Hc & t & Ht & Hst) Hne.
  unfold deactivate_self_schedule, a_deactivate_self_schedule, a_deactivate_self.
  rewrite Hc. wp_cur HR Hc. wp_steps; [done|].
  eapply wp_rd; [apply _|done..|]. rewrite Hst. wp_steps; [done|].
  eapply wp_is_current_unit_prio_correct; [done..|]. wp_steps; [done|by rewrite bool_decide_true|].
  eapply wp_wr; [apply _|done|by eauto|]. intros s1 HR1.
  eapply do_schedule_spec; [done|]. by apply unit_ok_upd.
Qed.

Lemma rep_switch s A p : Rep s A -> Rep (set_current_tcb p s) (a_switch_to p A).
Proof. intros []. by constructor. Qed.

(** ** Return values *)

Lemma wp_return s A c v Q :
  Rep s A -> is_Some (a_tcbs A !! c) ->
  (forall s', Rep s' (a_return c v A) -> Q tt s') ->
  wp (set_syscall_return_val_success (Some c) v) Q s.
Proof. intros. unfold set_syscall_return_val_success. by eapply wp_wr; [apply _|..]. Qed.

Lemma a_switch_self A p : a_current A = p -> a_switch_to p A = A.
Proof. intros <-. by destruct A. Qed.

Lemma wp_syscall_return_success s A c v Q :
  Rep s A -> a_current A = Some c -> is_Some (a_tcbs A !! c) ->
  (forall s', Rep s' (a_return c v A) -> Q tt s') ->
  wp (syscall_return_success v) Q s.
Proof.
  intros HR Hc Hd HQ. unfold syscall_return_success. wp_cur HR Hc. wp_step.
  eapply wp_return; [done..|]. intros s1 HR1. unfold switch_to. wp_steps. apply HQ.
  rewrite <-(a_switch_self (a_return c v A) (Some c)) by done. by apply rep_switch.
Qed.

Lemma wp_syscall_return_error s A c v e Q :
  Rep s A -> a_current A = Some c -> is_Some (a_tcbs A !! c) ->
  (forall s', Rep s' (a_return c v A) -> Q tt s') ->
  wp (syscall_return_error v e) Q s.
Proof. apply wp_syscall_return_success. Qed.

End refine_sched.
