(* ===== verification/NanoInv.v ===== *)
(** * The nanokernel invariant

    Stated on abstract kernels: every thread that is not running is on the
    queue its state calls for and on no other ([Placed]), and the data kept
    about blocked threads is coherent ([DataOk]).  The lemmas show how the
    scheduler's primitives move threads between queues. *)

From Stdlib Require Import Sorting.Sorted.
From S2P Require Import Prelude NanoState NanoSchedule NanoSyscalls NanoSpec Rings NanoLinks NanoRep NanoRefineSched.
#[local] Open Scope Z_scope.

Create HintDb nano discriminated.

Section inv.
Context {cfg : NanoConfig}.

(** ** Queue membership *)

(** The queue a thread belongs to when it is not running. *)
Definition home (t : tcb) : option qid :=
  match thread_state t with
  | THREAD_STATE_RUNNABLE => Some (QReady (priority t))
  | THREAD_STATE_HALTED => Some QFree
  | THREAD_STATE_WAIT_FUTEX => Some (QFutex (Futex.hash_tag (futex_tag t)))
  | THREAD_STATE_WAIT_IPC_SEND | THREAD_STATE_WAIT_IPC_CALL => QSend <$> ipc_waiting_for t
  | _ => None
  end.

(** Threads outside [F] are exactly on their home queue; those of [F] are
    on none. *)
Record Placed (F : gset nat) (A : akernel) : Prop := {
  pl_float : forall a, a ∈ F -> unqueued A a /\ is_Some (a_tcbs A !! a);
  pl_home : forall a t q, a_tcbs A !! a = Some t -> a ∉ F ->
            (a ∈ a_queue A q <-> home t = Some q);
  pl_dom : forall q a, a ∈ a_queue A q -> is_Some (a_tcbs A !! a)
}.

Lemma placed_not_float F A q a : Placed F A -> a ∈ a_queue A q -> a ∉ F.
Proof. intros HP Ha HF. by eapply (pl_float _ _ HP). Qed.

(** Operations that change neither threads nor queues. *)
Lemma placed_same F A A' :
  Placed F A -> a_tcbs A' = a_tcbs A -> (forall q, a_queue A' q = a_queue A q) -> Placed F A'.
Proof.
  intros [] Ht Hq. constructor; unfold unqueued in *.
  - intros a Ha. rewrite Ht. setoid_rewrite Hq. auto.
  - intros a t q. rewrite Ht, Hq. auto.
  - intros q a. rewrite Ht, Hq. eauto.
Qed.

Lemma placed_set F F' A : (forall x, x ∈ F <-> x ∈ F') -> Placed F A -> Placed F' A.
Proof. intros H. assert (F = F') as -> by (by apply set_eq). done. Qed.

Lemma placed_upd F A a f :
  Placed F A -> a ∈ F \/ (forall t, home (f t) = home t) -> Placed F (a_upd a f A).
Proof.
  intros HP Hor. pose proof HP as []. constructor; simpl.
  - intros x Hx. destruct (pl_float0 x Hx). split; [done|]. by apply is_Some_alter.
  - intros x t q. destruct (decide (a = x)) as [->|Hne].
    + rewrite lookup_alter_eq. destruct (a_tcbs A !! x) as [t0|] eqn:E; simpl; [|done].
      intros [= <-] Hx. destruct Hor as [|Hf]; [done|]. rewrite Hf. eauto.
    + rewrite lookup_alter_ne by done. eauto.
  - intros q x Hx. apply is_Some_alter. eauto.
Qed.

(** A floating thread joins its home queue. *)
Lemma placed_settle F A a t q l' :
  Placed F A -> a ∈ F -> a_tcbs A !! a = Some t -> home t = Some q ->
  (forall x, x ∈ l' <-> x = a \/ x ∈ a_queue A q) ->
  Placed (F ∖ {[a]}) (a_setq q l' A).
Proof.
  intros HP HF Ht Hh Hl. pose proof HP as []. constructor; unfold unqueued; simpl.
  - intros x Hx. assert (x <> a) by set_solver. assert (x ∈ F) by set_solver.
    destruct (pl_float0 x) as [Hu Hd]; [done|]. split; [|done]. intros q'. unfold qset.
    case_decide; [|apply Hu]. rewrite Hl. intros [|?]; [done|by eapply Hu].
  - intros x t' q' Ht' Hx. destruct (decide (x = a)) as [->|Hne].
    + simplify_eq. unfold qset. case_decide as Hq; subst.
      * rewrite Hl. naive_solver.
      * split; [|congruence]. intros Ha. by destruct (pl_float0 a HF) as [Hu _]; edestruct Hu.
    + assert (x ∉ F) by set_solver. unfold qset. case_decide as Hq; subst.
      * rewrite Hl. rewrite <-(pl_home0 x t' q) by done. naive_solver.
      * by apply pl_home0.
  - intros q' x. unfold qset. case_decide; [|eauto]. rewrite Hl. intros [->|?]; eauto.
Qed.

Lemma placed_settle_none F A a t :
  Placed F A -> a ∈ F -> a_tcbs A !! a = Some t -> home t = None -> Placed (F ∖ {[a]}) A.
Proof.
  intros HP HF Ht Hh. pose proof HP as []. constructor.
  - intros x Hx. apply pl_float0. set_solver.
  - intros x t' q Ht' Hx. destruct (decide (x = a)) as [->|].
    + simplify_eq. split; [|congruence]. intros Ha.
      by destruct (pl_float0 a HF) as [Hu _]; edestruct Hu.
    + apply pl_home0; [done|]. set_solver.
  - done.
Qed.

(** A thread leaves its queue. *)
Lemma placed_remove F A a q l' :
  Placed F A -> a ∈ a_queue A q ->
  (forall x, x ∈ l' <-> x <> a /\ x ∈ a_queue A q) ->
  Placed (F ∪ {[a]}) (a_setq q l' A).
Proof.
  intros HP Ha Hl. pose proof HP as []. pose proof (placed_not_float _ _ _ _ HP Ha) as HaF.
  destruct (pl_dom0 q a Ha) as [ta Hta].
  assert (Hh : home ta = Some q) by (by apply (pl_home0 a ta q)).
  constructor; unfold unqueued; simpl.
  - intros x Hx. apply elem_of_union in Hx as [Hx|Hx].
    + destruct (pl_float0 x Hx) as [Hu Hd]. split; [|done]. intros q'. unfold qset.
      case_decide; [|apply Hu]. rewrite Hl. intros [_ ?]. by eapply Hu.
    + apply elem_of_singleton in Hx as ->. split; [|by eauto]. intros q'. unfold qset.
      case_decide as Hq; [rewrite Hl; naive_solver|]. intros Hq'.
      apply (pl_home0 a ta q') in Hq'; [congruence|done|done].
  - intros x t q' Ht Hx. assert (x <> a) by set_solver. assert (x ∉ F) by set_solver.
    unfold qset. case_decide; subst; [rewrite Hl|]; rewrite <-(pl_home0 x t) by done; naive_solver.
  - intros q' x. unfold qset. case_decide; [|eauto]. rewrite Hl. naive_solver.
Qed.

Lemma placed_float_none F A a t :
  Placed F A -> a ∉ F -> a_tcbs A !! a = Some t -> home t = None -> Placed (F ∪ {[a]}) A.
Proof.
  intros HP HF Ht Hh. pose proof HP as []. constructor.
  - intros x Hx. apply elem_of_union in Hx as [Hx|Hx]; [by apply pl_float0|].
    apply elem_of_singleton in Hx as ->. split; [|by eauto]. intros q Hq.
    apply (pl_home0 a t q) in Hq; [congruence|done|done].
  - intros x t' q Ht' Hx. apply pl_home0; [done|]. set_solver.
  - done.
Qed.

(** ** Scheduling and placement *)

Lemma a_unit_tcbs p A : a_tcbs (a_set_unit_priority p A) = a_tcbs A.
Proof. unfold a_set_unit_priority. by destruct multi_unit. Qed.
Lemma a_unit_queue p A : a_queue (a_set_unit_priority p A) = a_queue A.
Proof. unfold a_set_unit_priority. by destruct multi_unit. Qed.
Lemma a_smt_tcbs A : a_tcbs (a_smt_reschedule A) = a_tcbs A.
Proof. unfold a_smt_reschedule. by destruct (_ && _). Qed.
Lemma a_smt_queue A : a_queue (a_smt_reschedule A) = a_queue A.
Proof. unfold a_smt_reschedule. by destruct (_ && _). Qed.

(** Scheduling changes no thread, and takes at most one from a ready queue. *)
Lemma a_do_schedule_tcbs A : a_tcbs (snd (a_do_schedule A)) = a_tcbs A.
Proof. unfold a_do_schedule. destruct (a_highest A); simpl; by rewrite ?a_smt_tcbs, a_unit_tcbs. Qed.
Lemma a_do_schedule_queue A q :
  (forall p, q <> QReady p) -> a_queue (snd (a_do_schedule A)) q = a_queue A q.
Proof.
  intros Hq. unfold a_do_schedule. destruct (a_highest A); simpl; rewrite ?a_smt_queue, a_unit_queue; [|done].
  apply qset_ne, Hq.
Qed.
Lemma a_do_schedule_sub A q x : x ∈ a_queue (snd (a_do_schedule A)) q -> x ∈ a_queue A q.
Proof.
  unfold a_do_schedule. destruct (a_highest A) as [p|]; simpl; rewrite ?a_smt_queue, a_unit_queue; [|done].
  simpl. unfold qset. case_decide; subst; [|done]. destruct (a_queue A (QReady p)); simpl; set_solver.
Qed.
Lemma a_do_schedule_unqueued A a : unqueued A a -> unqueued (snd (a_do_schedule A)) a.
Proof. intros Hu q Hq. by eapply Hu, a_do_schedule_sub. Qed.

Lemma a_unit_current p A : a_current (a_set_unit_priority p A) = a_current A.
Proof. unfold a_set_unit_priority. by destruct multi_unit. Qed.
Lemma a_smt_current A : a_current (a_smt_reschedule A) = a_current A.
Proof. unfold a_smt_reschedule. by destruct (_ && _). Qed.

Lemma a_activate_schedule_tcbs a A :
  a_tcbs (snd (a_activate_schedule a A)) = alter (set_thread_state THREAD_STATE_RUNNABLE) a (a_tcbs A).
Proof.
  unfold a_activate_schedule. destruct (a_current _); [case_match|]; simpl;
    by rewrite ?a_smt_tcbs, ?a_unit_tcbs.
Qed.
Lemma a_activate_schedule_current a A : a_current (snd (a_activate_schedule a A)) = a_current A.
Proof.
  unfold a_activate_schedule. simpl. destruct (a_current A) eqn:E; [case_match|]; simpl;
    by rewrite ?a_smt_current, ?a_unit_current.
Qed.
Lemma a_activate_schedule_queue a A q :
  (forall p, q <> QReady p) -> a_queue (snd (a_activate_schedule a A)) q = a_queue A q.
Proof.
  intros Hq. unfold a_activate_schedule. destruct (a_current _); [case_match|]; simpl;
    rewrite ?a_smt_queue, ?a_unit_queue; simpl; by rewrite ?qset_ne.
Qed.

Lemma placed_unit F p A : Placed F A -> Placed F (a_set_unit_priority p A).
Proof. intros HP. eapply placed_same; [done|apply a_unit_tcbs|]. intros. by rewrite a_unit_queue. Qed.
Lemma placed_smt F A : Placed F A -> Placed F (a_smt_reschedule A).
Proof. intros HP. eapply placed_same; [done|apply a_smt_tcbs|]. intros. by rewrite a_smt_queue. Qed.

(** The set of a possibly idle pointer. *)
Definition pset (p : ptr) : gset nat := match p with Some a => {[a]} | None => ∅ end.

Lemma placed_do_schedule F A :
  Placed F A -> (forall q, NoDup (a_queue A q)) ->
  Placed (F ∪ pset (fst (a_do_schedule A))) (snd (a_do_schedule A)).
Proof.
  intros HP Hnd. unfold a_do_schedule. destruct (a_highest A) as [p|] eqn:E; simpl.
  - destruct (a_highest_Some _ _ E) as (_ & Hq & _). apply placed_smt, placed_unit.
    unfold a_pop. specialize (Hnd (QReady p)).
    destruct (a_queue A (QReady p)) as [|a l] eqn:Eq; [done|]. simpl.
    apply NoDup_cons in Hnd as [Ha _].
    apply placed_remove; [done|rewrite Eq; set_solver|]. intros x. rewrite Eq. set_solver.
  - rewrite union_empty_r_L. by apply placed_unit.
Qed.

Lemma placed_enqueue F A a t :
  Placed F A -> a ∈ F -> a_tcbs A !! a = Some t -> thread_state t = THREAD_STATE_RUNNABLE ->
  Placed (F ∖ {[a]}) (a_enqueue a A).
Proof.
  intros HP HF Ht Hst. unfold a_enqueue, a_push. rewrite (a_prio_eq _ _ _ Ht).
  eapply placed_settle; [done|done|done|unfold home; by rewrite Hst|]. set_solver.
Qed.

Lemma placed_activate F A a :
  Placed F A -> a ∈ F -> Placed (F ∖ {[a]}) (a_activate a A).
Proof.
  intros HP HF. destruct (pl_float _ _ HP a HF) as [_ [t Ht]]. unfold a_activate.
  eapply placed_enqueue; [apply placed_upd; auto|done|by apply a_upd_eq|done].
Qed.

(** Of the woken and the current thread, the one that does not run next is
    queued. *)
Lemma placed_activate_schedule O A a :
  Placed (O ∪ pset (a_current A) ∪ {[a]}) A -> a ∉ O -> (forall c, a_current A = Some c -> c ∉ O /\ c <> a /\
     exists t, a_tcbs A !! c = Some t /\ thread_state t = THREAD_STATE_RUNNABLE) ->
  Placed (O ∪ pset (fst (a_activate_schedule a A))) (snd (a_activate_schedule a A)).
Proof.
  intros HP HaO Hc. unfold a_activate_schedule.
  set (A1 := a_upd a (set_thread_state THREAD_STATE_RUNNABLE) A).
  assert (HP1 : Placed (O ∪ pset (a_current A) ∪ {[a]}) A1) by (apply placed_upd; set_solver).
  destruct (pl_float _ _ HP a) as [_ [t Ht]]; [set_solver|].
  change (a_current A1) with (a_current A).
  destruct (a_current A) as [c|] eqn:Ec; simpl pset in *.
  - destruct (Hc c eq_refl) as (HcO & Hca & tc & Htc & Hst).
    assert (Htc1 : a_tcbs A1 !! c = Some tc) by (unfold A1; by rewrite a_upd_ne).
    case_match; simpl; apply placed_smt; try apply placed_unit.
    + eapply placed_set; [|eapply (placed_enqueue _ _ c)]; [|done|set_solver|done|done]. set_solver.
    + eapply placed_set; [|eapply (placed_enqueue _ _ a)]; [|done|set_solver| by apply a_upd_eq|done].
      set_solver.
  - simpl. apply placed_unit. eapply placed_set; [|done]. set_solver.
Qed.

(** ** Coherence of the data *)

Definition alive_state (st : thread_state_t) : bool :=
  negb (bool_decide (st = THREAD_STATE_HALTED) || bool_decide (st = THREAD_STATE_ZOMBIE)).

(** The comparison of state words in [is_thread_alive] excludes exactly the
    halted and zombie states. *)
Lemma is_thread_alive_spec t : is_thread_alive t = alive_state (thread_state t).
Proof. unfold is_thread_alive. by destruct (thread_state t). Qed.

Definition blocked_sending (st : thread_state_t) : bool :=
  bool_decide (st = THREAD_STATE_WAIT_IPC_SEND) || bool_decide (st = THREAD_STATE_WAIT_IPC_CALL).

Record DataOk (A : akernel) : Prop := {
  d_dom : forall a, is_Some (a_tcbs A !! a) <-> (a < max_tcbs)%nat;
  d_prio : forall a t, a_tcbs A !! a = Some t -> 0 <= priority t < 32;
  d_tid : forall a t, a_tcbs A !! a = Some t -> tid t = Z.of_nat a;
  d_regs : forall a t, a_tcbs A !! a = Some t -> length (regs t) = 16%nat;
  d_send : forall a t, a_tcbs A !! a = Some t -> blocked_sending (thread_state t) = true ->
           exists d, ipc_waiting_for t = Some d /\ (d < max_tcbs)%nat;
  (* a joiner waits for one live thread *)
  d_join : forall b t j, a_tcbs A !! b = Some t -> joiner t = Some j ->
           a_state A j = THREAD_STATE_WAIT_JOIN /\ alive_state (thread_state t) = true;
  d_join_inj : forall b b' t t' j, a_tcbs A !! b = Some t -> a_tcbs A !! b' = Some t' ->
           joiner t = Some j -> joiner t' = Some j -> b = b';
  (* the handler table and the registrations agree *)
  d_handlers_len : Z.of_nat (length (a_handlers A)) = NUM_INTERRUPTS;
  d_reg : forall a t, a_tcbs A !! a = Some t -> registered_interrupt t <> Interrupt.NO_INTERRUPT ->
          0 <= registered_interrupt t < NUM_INTERRUPTS /\
          a_handlers A !! Z.to_nat (registered_interrupt t) = Some (Some a);
  d_handler : forall i a, a_handlers A !! i = Some (Some a) ->
          exists t, a_tcbs A !! a = Some t /\ registered_interrupt t = Z.of_nat i;
  (* an unmasked interrupt has a handler that waits for it *)
  d_enable_word : is_word (a_irq_enable A);
  d_enable : forall i, 0 <= i -> Z.testbit (a_irq_enable A) i = true ->
          exists a, a_handlers A !! Z.to_nat i = Some (Some a) /\ a_state A a = THREAD_STATE_WAIT_INT;
  (* no signal is pending for a tag on which a thread sleeps *)
  d_pending_len : (length (a_pending A) <= max_tcbs)%nat;
  d_nolost : forall a t, a_tcbs A !! a = Some t -> thread_state t = THREAD_STATE_WAIT_FUTEX ->
          futex_tag t ∉ a_pending A;
  d_sorted : forall h, StronglySorted (fun x y => a_prio A y <= a_prio A x) (a_queue A (QFutex h))
}.

(** Only the threads, the futex queues and the interrupt and futex tables
    matter. *)
Lemma data_ext A A' :
  DataOk A -> a_tcbs A' = a_tcbs A -> a_handlers A' = a_handlers A -> a_pending A' = a_pending A ->
  a_irq_enable A' = a_irq_enable A -> (forall h, a_queue A' (QFutex h) = a_queue A (QFutex h)) ->
  DataOk A'.
Proof.
  intros [] Ht Hh Hp He Hq.
  constructor; unfold a_state, a_prio, a_get in *; rewrite ?Ht, ?Hh, ?Hp, ?He; try done.
  intros h. by rewrite Hq.
Qed.

Lemma alter_Some f a (m : gmap nat tcb) b t :
  alter f a m !! b = Some t ->
  (b = a /\ exists t0, m !! a = Some t0 /\ t = f t0) \/ (b <> a /\ m !! b = Some t).
Proof.
  destruct (decide (a = b)) as [->|Hne].
  - rewrite lookup_alter_eq. destruct (m !! b) as [t0|]; simpl; [|done]. intros [= <-].
    left. eauto.
  - rewrite lookup_alter_ne by done. auto.
Qed.

Lemma a_state_eq A a t : a_tcbs A !! a = Some t -> a_state A a = thread_state t.
Proof. intros H. unfold a_state, a_get. by rewrite H. Qed.

Lemma a_state_upd_id a b f A :
  (forall t, thread_state (f t) = thread_state t) -> a_state (a_upd a f A) b = a_state A b.
Proof.
  intros Hf. unfold a_state, a_get. simpl. destruct (decide (a = b)) as [->|Hne].
  - rewrite lookup_alter_eq. destruct (a_tcbs A !! b); simpl; [by rewrite Hf|done].
  - by rewrite lookup_alter_ne.
Qed.

Lemma a_state_upd_ne a b f A : a <> b -> a_state (a_upd a f A) b = a_state A b.
Proof. intros. unfold a_state, a_get. simpl. by rewrite lookup_alter_ne. Qed.

(** Queue orders depend on the priorities of the queue's threads only. *)
Lemma sorted_prio_ext A A' l :
  (forall x, x ∈ l -> a_prio A' x = a_prio A x) ->
  StronglySorted (fun x y => a_prio A y <= a_prio A x) l ->
  StronglySorted (fun x y => a_prio A' y <= a_prio A' x) l.
Proof.
  intros Heq. induction 1 as [|x l Hs IH Hf]; constructor.
  - apply IH. intros. apply Heq. set_solver.
  - rewrite List.Forall_forall in *. intros y Hy. rewrite !Heq; [by apply Hf|set_solver|].
    apply list_elem_of_In in Hy. set_solver.
Qed.

(** What an update of thread [a] from [t0] to [t1] has to respect. *)
Record UpdOk (A : akernel) (a : nat) (t0 t1 : tcb) : Prop := {
  u_prio : 0 <= priority t1 < 32;
  u_prio_q : priority t1 = priority t0 \/ forall h, a ∉ a_queue A (QFutex h);
  u_tid : tid t1 = tid t0;
  u_regs : length (regs t1) = length (regs t0);
  u_reg : registered_interrupt t1 = registered_interrupt t0;
  u_send : blocked_sending (thread_state t1) = true ->
           exists d, ipc_waiting_for t1 = Some d /\ (d < max_tcbs)%nat;
  u_joiner : joiner t1 = joiner t0 \/ joiner t1 = None;
  u_alive : joiner t1 <> None -> alive_state (thread_state t1) = true;
  u_joins : thread_state t1 = THREAD_STATE_WAIT_JOIN \/
            forall b t, a_tcbs A !! b = Some t -> b <> a -> joiner t <> Some a;
  u_joins_self : joiner t1 = Some a -> thread_state t1 = THREAD_STATE_WAIT_JOIN;
  u_int : thread_state t1 = THREAD_STATE_WAIT_INT \/
          forall i, 0 <= i -> Z.testbit (a_irq_enable A) i = true ->
                    a_handlers A !! Z.to_nat i <> Some (Some a);
  u_tag : thread_state t1 = THREAD_STATE_WAIT_FUTEX -> futex_tag t1 ∉ a_pending A
}.

Lemma a_state_upd a b f A t :
  a_tcbs A !! a = Some t ->
  a_state (a_upd a f A) b = if decide (b = a) then thread_state (f t) else a_state A b.
Proof.
  intros Ht. case_decide; subst; [by eapply a_state_eq, a_upd_eq|by apply a_state_upd_ne].
Qed.

(** The joiners after an update were joiners before, and still wait. *)
Lemma data_upd_join A a f t0 :
  DataOk A -> a_tcbs A !! a = Some t0 -> UpdOk A a t0 (f t0) ->
  (forall b t j, a_tcbs (a_upd a f A) !! b = Some t -> joiner t = Some j ->
     a_state (a_upd a f A) j = THREAD_STATE_WAIT_JOIN /\ alive_state (thread_state t) = true) /\
  (forall b b' t t' j, a_tcbs (a_upd a f A) !! b = Some t -> a_tcbs (a_upd a f A) !! b' = Some t' ->
     joiner t = Some j -> joiner t' = Some j -> b = b').
Proof.
  intros HD H0 [].
  assert (Hold : forall b t j, a_tcbs (a_upd a f A) !! b = Some t -> joiner t = Some j ->
    exists t', a_tcbs A !! b = Some t' /\ joiner t' = Some j).
  { intros b t j [(-> & t' & Ht' & ->)|[Hne Ht]]%alter_Some Hj; [|by eauto].
    simplify_eq. exists t0. split; [done|]. destruct u_joiner0; congruence. }
  split.
  - intros b t j Hb Hj. destruct (Hold b t j Hb Hj) as (t' & Ht' & Hj').
    destruct (d_join _ HD b t' j Ht' Hj') as [Hst Hal].
    rewrite (a_state_upd _ _ _ _ _ H0).
    apply alter_Some in Hb as [(-> & t2 & Ht2 & ->)|[Hne Ht]]; simplify_eq.
    + split; [|by apply u_alive0; congruence]. case_decide; subst; auto.
    + split; [|done]. case_decide; subst; [|done].
      destruct u_joins0 as [|Hn]; [done|]. by destruct (Hn b t Ht Hne).
  - intros b b' t t' j Hb Hb' Hj Hj'.
    destruct (Hold b t j Hb Hj) as (? & ? & ?). destruct (Hold b' t' j Hb' Hj') as (? & ? & ?).
    by eapply (d_join_inj _ HD).
Qed.

Lemma data_upd A a f t0 :
  DataOk A -> a_tcbs A !! a = Some t0 -> UpdOk A a t0 (f t0) -> DataOk (a_upd a f A).
Proof.
  intros HD H0 HU. destruct (data_upd_join _ _ _ _ HD H0 HU) as [Hj1 Hj2].
  pose proof HD as []. destruct HU. constructor; try done.
  - intros x. rewrite <-d_dom0. simpl. destruct (decide (a = x)) as [->|].
    + rewrite lookup_alter_eq. by rewrite fmap_is_Some.
    + by rewrite lookup_alter_ne.
  - intros x t [(-> & t2 & ? & ->)|[_ ?]]%alter_Some; simplify_eq; eauto.
  - intros x t [(-> & t2 & ? & ->)|[_ ?]]%alter_Some; simplify_eq; [rewrite u_tid0|]; eauto.
  - intros x t [(-> & t2 & ? & ->)|[_ ?]]%alter_Some; simplify_eq; [rewrite u_regs0|]; eauto.
  - intros x t [(-> & t2 & ? & ->)|[_ ?]]%alter_Some; simplify_eq; eauto.
  - intros x t [(-> & t2 & ? & ->)|[_ ?]]%alter_Some; simplify_eq; [rewrite u_reg0|]; eauto.
  - intros i x Hx. destruct (d_handler0 i x Hx) as (t & Ht & Hr). simpl.
    destruct (decide (a = x)) as [->|].
    + exists (f t). rewrite lookup_alter_eq, Ht. simplify_eq. by rewrite u_reg0.
    + exists t. by rewrite lookup_alter_ne.
  - intros i Hi Hb. destruct (d_enable0 i Hi Hb) as (x & Hx & Hst). exists x. split; [done|].
    rewrite (a_state_upd _ _ _ _ _ H0). case_decide; subst; [|done].
    destruct u_int0 as [|Hn]; [done|]. by destruct (Hn i Hi Hb).
  - intros x t [(-> & t2 & ? & ->)|[_ ?]]%alter_Some; simplify_eq; eauto.
  - intros h. eapply sorted_prio_ext; [|apply d_sorted0]. simpl. intros x Hx.
    destruct u_prio_q0 as [Hp|Hp].
    + unfold a_prio, a_get. simpl. destruct (decide (a = x)) as [->|].
      * by rewrite lookup_alter_eq, H0.
      * by rewrite lookup_alter_ne.
    + unfold a_prio, a_get. simpl. rewrite lookup_alter_ne; [done|]. intros ->. by eapply Hp.
Qed.

(** Fields the coherence conditions do not mention. *)
Class Irrelevant (f : tcb -> tcb) : Prop := {
  irr_prio : forall t, priority (f t) = priority t;
  irr_tid : forall t, tid (f t) = tid t;
  irr_regs : forall t, length (regs (f t)) = length (regs t);
  irr_state : forall t, thread_state (f t) = thread_state t;
  irr_wait : forall t, ipc_waiting_for (f t) = ipc_waiting_for t;
  irr_joiner : forall t, joiner (f t) = joiner t;
  irr_reg : forall t, registered_interrupt (f t) = registered_interrupt t;
  irr_tag : forall t, futex_tag (f t) = futex_tag t
}.

#[export] Instance irr_set_full_context_saved v : Irrelevant (set_full_context_saved v). Proof. done. Qed.
#[export] Instance irr_set_signals v : Irrelevant (set_signals v). Proof. done. Qed.
#[export] Instance irr_set_signal_mask v : Irrelevant (set_signal_mask v). Proof. done. Qed.
#[export] Instance irr_set_reg i v : Irrelevant (set_reg i v).
Proof. constructor; try done. intros t. simpl. apply length_insert. Qed.
#[export] Instance irr_copy_regs s : Irrelevant (Ipc.copy_regs s).
Proof. constructor; try done. intros t. simpl. by rewrite !length_insert. Qed.

(** An update that keeps the state, the joiner and the waiting data. *)
Lemma upd_ok_same A a t0 t1 :
  DataOk A -> a_tcbs A !! a = Some t0 ->
  priority t1 = priority t0 -> tid t1 = tid t0 -> length (regs t1) = length (regs t0) ->
  thread_state t1 = thread_state t0 ->
  (blocked_sending (thread_state t0) = true -> ipc_waiting_for t1 = ipc_waiting_for t0) ->
  joiner t1 = joiner t0 -> registered_interrupt t1 = registered_interrupt t0 ->
  (thread_state t0 = THREAD_STATE_WAIT_FUTEX -> futex_tag t1 = futex_tag t0) ->
  UpdOk A a t0 t1.
Proof.
  intros HD H0 Hp Ht Hr Hs Hw Hj Hi Hg. pose proof HD as []. constructor; auto; rewrite ?Hp, ?Hs.
  - eauto.
  - intros Hb. rewrite Hw by done. eauto.
  - rewrite Hj. intros Hn. destruct (joiner t0) as [j|] eqn:E; [|done].
    by eapply (d_join0 a t0 j).
  - destruct (decide (thread_state t0 = THREAD_STATE_WAIT_JOIN)); [by left|right].
    intros b t Hb _ Hj'. destruct (d_join0 b t a Hb Hj') as [Hst _].
    by rewrite (a_state_eq _ _ _ H0) in Hst.
  - rewrite Hj. intros Hja. destruct (d_join0 a t0 a H0 Hja) as [Hst _].
    by rewrite (a_state_eq _ _ _ H0) in Hst.
  - destruct (decide (thread_state t0 = THREAD_STATE_WAIT_INT)); [by left|right].
    intros i Hi0 Hb Hh. destruct (d_enable0 i Hi0 Hb) as (x & Hx & Hst).
    rewrite Hh in Hx. simplify_eq. by rewrite (a_state_eq _ _ _ H0) in Hst.
  - intros Hf. rewrite Hg by done. eauto.
Qed.

Lemma upd_none A a f : a_tcbs A !! a = None -> a_upd a f A = A.
Proof.
  intros H. unfold a_upd. replace (alter f a (a_tcbs A)) with (a_tcbs A); [by destruct A|].
  apply map_eq. intros i. destruct (decide (a = i)) as [->|].
  - by rewrite lookup_alter_eq, H.
  - by rewrite lookup_alter_ne.
Qed.

Lemma data_irr A a f `{!Irrelevant f} : DataOk A -> DataOk (a_upd a f A).
Proof.
  intros HD. destruct (a_tcbs A !! a) as [t|] eqn:E; [|by rewrite upd_none].
  eapply data_upd; [done..|]. apply upd_ok_same; try done; intros;
    [apply irr_prio|apply irr_tid|apply irr_regs|apply irr_state|apply irr_wait|
     apply irr_joiner|apply irr_reg|apply irr_tag].
Qed.

(** The conditions under which a thread may change state. *)
Lemma data_set_state A a st t :
  DataOk A -> a_tcbs A !! a = Some t ->
  (blocked_sending st = true -> exists d, ipc_waiting_for t = Some d /\ (d < max_tcbs)%nat) ->
  (alive_state st = false -> joiner t = None) ->
  st = THREAD_STATE_WAIT_JOIN \/ (forall b t', a_tcbs A !! b = Some t' -> joiner t' <> Some a) ->
  st = THREAD_STATE_WAIT_INT \/ (forall i, 0 <= i -> Z.testbit (a_irq_enable A) i = true ->
     a_handlers A !! Z.to_nat i <> Some (Some a)) ->
  (st = THREAD_STATE_WAIT_FUTEX -> futex_tag t ∉ a_pending A) ->
  DataOk (a_upd a (set_thread_state st) A).
Proof.
  intros HD Ht Hs Hal Hj Hi Hf. eapply data_upd; [done..|]. constructor; simpl; auto.
  - by eapply (d_prio _ HD).
  - intros Hn. destruct (alive_state st); [done|]. by destruct Hn; apply Hal.
  - destruct Hj as [|Hj]; [by left|]. right. intros b t' Hb _. by eapply Hj.
  - intros Hja. destruct Hj as [|Hj]; [done|]. by destruct (Hj a t Ht).
Qed.

(** A thread that is neither joining nor handling an unmasked interrupt. *)
Lemma data_no_joiner A a t st :
  DataOk A -> a_tcbs A !! a = Some t -> thread_state t = st -> st <> THREAD_STATE_WAIT_JOIN ->
  forall b t', a_tcbs A !! b = Some t' -> joiner t' <> Some a.
Proof.
  intros HD Ht Hst Hne b t' Hb Hj. destruct (d_join _ HD b t' a Hb Hj) as [Hs _].
  rewrite (a_state_eq _ _ _ Ht) in Hs. congruence.
Qed.
Lemma data_no_handler A a t st :
  DataOk A -> a_tcbs A !! a = Some t -> thread_state t = st -> st <> THREAD_STATE_WAIT_INT ->
  forall i, 0 <= i -> Z.testbit (a_irq_enable A) i = true -> a_handlers A !! Z.to_nat i <> Some (Some a).
Proof.
  intros HD Ht Hst Hne i Hi Hb Hh. destruct (d_enable _ HD i Hi Hb) as (x & Hx & Hs).
  rewrite Hh in Hx. simplify_eq. rewrite (a_state_eq _ _ _ Ht) in Hs. congruence.
Qed.

(** ** The running thread is a best one *)

(** No ready thread has a higher priority than the running one, and the
    unit is idle only when no thread is ready. *)
Definition top_ok (A : akernel) : Prop :=
  forall p, a_queue A (QReady p) <> [] -> exists c, a_current A = Some c /\ p <= a_prio A c.

(** ** The invariant

    [O] is the set of threads running on the other execution units. *)
Record AInv (O : gset nat) (A : akernel) : Prop := {
  inv_placed : Placed (O ∪ pset (a_current A)) A;
  inv_other : forall c, a_current A = Some c -> c ∉ O;
  inv_run : forall a, a ∈ O ∪ pset (a_current A) -> a_state A a = THREAD_STATE_RUNNABLE;
  inv_unit : unit_ok A;
  inv_data : DataOk A;
  inv_nodup : forall q, NoDup (a_queue A q);
  inv_top : top_ok A
}.

Lemma a_state_inv A a st :
  a_state A a = st -> st <> THREAD_STATE_HALTED ->
  exists t, a_tcbs A !! a = Some t /\ thread_state t = st.
Proof. unfold a_state, a_get. destruct (a_tcbs A !! a) as [t|]; [by eauto|congruence]. Qed.

Lemma inv_running O A c : AInv O A -> a_current A = Some c -> running_cur A c.
Proof.
  intros HI Hc. split; [done|].
  assert (Hin : c ∈ O ∪ pset (a_current A)) by (rewrite Hc; set_solver).
  split; [by eapply (pl_float _ _ (inv_placed _ _ HI))|].
  eapply a_state_inv; [|done]. by apply (inv_run _ _ HI).
Qed.

Lemma inv_thread O A d : AInv O A -> (d < max_tcbs)%nat -> exists t, a_tcbs A !! d = Some t.
Proof. intros HI Hd. by apply (d_dom _ (inv_data _ _ HI)) in Hd. Qed.

(** A thread that is not runnable is not running. *)
Lemma inv_not_running O A a t :
  AInv O A -> a_tcbs A !! a = Some t -> thread_state t <> THREAD_STATE_RUNNABLE ->
  a ∉ O ∪ pset (a_current A).
Proof.
  intros HI Ht Hst Ha. apply (inv_run _ _ HI) in Ha. by rewrite (a_state_eq _ _ _ Ht) in Ha.
Qed.

Lemma inv_home O A a t q :
  AInv O A -> a_tcbs A !! a = Some t -> thread_state t <> THREAD_STATE_RUNNABLE ->
  a ∈ a_queue A q <-> home t = Some q.
Proof.
  intros HI Ht Hst. apply (pl_home _ _ (inv_placed _ _ HI)); [done|].
  by eapply inv_not_running.
Qed.

(** A blocked thread that belongs to no queue can be woken. *)
Lemma inv_wakeable O A a t :
  AInv O A -> a_tcbs A !! a = Some t -> thread_state t <> THREAD_STATE_RUNNABLE ->
  home t = None -> wakeable A a.
Proof.
  intros HI Ht Hst Hh. split.
  - intros q Hq. apply (inv_home _ _ _ _ _ HI Ht Hst) in Hq. congruence.
  - exists t. split_and!; [done|done|..]; by eapply (d_prio _ (inv_data _ _ HI)).
Qed.

(** A thread found on a queue of blocked threads. *)
Lemma inv_queued O A a q :
  AInv O A -> a ∈ a_queue A q ->
  exists t, a_tcbs A !! a = Some t /\ home t = Some q /\ a ∉ O ∪ pset (a_current A).
Proof.
  intros HI Ha. pose proof (inv_placed _ _ HI) as HP.
  destruct (pl_dom _ _ HP _ _ Ha) as [t Ht]. pose proof (placed_not_float _ _ _ _ HP Ha).
  exists t. split_and!; [done| |done]. by apply (pl_home _ _ HP a t q).
Qed.

(** A queue holds each thread at most once, hence at most [max_tcbs]. *)
Lemma inv_queue_length O A q : AInv O A -> (length (a_queue A q) <= max_tcbs)%nat.
Proof.
  intros HI. rewrite <-(length_seq max_tcbs 0). apply submseteq_length, NoDup_submseteq.
  - apply (inv_nodup _ _ HI).
  - intros a Ha. destruct (inv_queued _ _ _ _ HI Ha) as (t & Ht & _).
    apply elem_of_seq. enough (a < max_tcbs)%nat by lia.
    apply (d_dom _ (inv_data _ _ HI)). eauto.
Qed.

Lemma inv_tags O A h : AInv O A ->
  StronglySorted (fun x y => a_prio A y <= a_prio A x) (a_queue A (QFutex h)).
Proof. intros HI. apply (d_sorted _ (inv_data _ _ HI)). Qed.

(** ** Frames for the scheduler's preconditions *)

Lemma running_cur_upd a f A c :
  a <> c \/ (forall t, thread_state (f t) = thread_state t) ->
  running_cur A c -> running_cur (a_upd a f A) c.
Proof.
  intros Hor (Hc & Hu & t & Ht & Hst). split_and!; [done|done|].
  destruct (decide (a = c)) as [->|Hne].
  - destruct Hor as [|Hf]; [done|]. exists (f t). split; [by apply a_upd_eq|]. by rewrite Hf.
  - exists t. by rewrite a_upd_ne.
Qed.

Lemma wakeable_upd a f A b :
  a <> b \/ (forall t, thread_state (f t) = thread_state t /\ priority (f t) = priority t) ->
  wakeable A b -> wakeable (a_upd a f A) b.
Proof.
  intros Hor (Hu & t & Ht & Hst & Hp). split; [done|].
  destruct (decide (a = b)) as [->|Hne].
  - destruct Hor as [|Hf]; [done|]. destruct (Hf t) as [Hf1 Hf2].
    exists (f t). rewrite Hf1, Hf2. split; [by apply a_upd_eq|done].
  - exists t. by rewrite a_upd_ne.
Qed.

End inv.

#[export] Hint Resolve unit_ok_upd running_cur_upd wakeable_upd : nano.
