(* ===== verification/NanoRefineFutex.v ===== *)
(** * The futex system calls implement their specification

    [enqueue_futex] keeps a hash chain in priority order by a walk with a
    pointer to the previous link; [signal_futex] unlinks the first thread
    that waits for a tag. *)

From S2P Require Import Prelude NanoState NanoSchedule NanoSyscalls NanoSpec Rings NanoLinks NanoRep NanoRefineSched NanoInv.
#[local] Open Scope Z_scope.

Section refine_futex.
Context {cfg : NanoConfig}.
Import Futex.

(** ** The hash function *)

Lemma hash_tag_range tag : 0 <= hash_tag tag < futex_hash_slots.
Proof.
  unfold hash_tag. pose proof cfg_slots_lg2 as Hl. rewrite cfg_slots.
  replace (2 ^ futex_hash_slots_lg2 - 1) with (Z.ones futex_hash_slots_lg2)
    by (rewrite Z.ones_equiv; lia).
  rewrite Z.land_ones by lia. apply Z.mod_pos_bound. lia.
Qed.

(** ** Hash entries *)

Lemma wp_get_entry s A h Q :
  Rep s A -> 0 <= h < futex_hash_slots ->
  Q (head (a_queue A (QFutex h)), last (a_queue A (QFutex h))) s -> wp (get_entry h) Q s.
Proof.
  intros HR Hh HQ. unfold get_entry. wp_steps.
  eapply wp_index; [lia|by apply (rep_futex _ _ HR)|done].
Qed.

Lemma wp_get_entry_raw s h e Q :
  0 <= h -> futex_hash s !! Z.to_nat h = Some e -> Q e s -> wp (get_entry h) Q s.
Proof. intros Hh He HQ. unfold get_entry. wp_steps. by eapply wp_index. Qed.

Lemma wp_put_entry s h e Q :
  0 <= h < Z.of_nat (length (futex_hash s)) ->
  Q tt (set_futex_hash (<[Z.to_nat h := e]> (futex_hash s)) s) -> wp (put_entry h e) Q s.
Proof. intros Hh HQ. unfold put_entry. wp_steps. apply wp_index_set; [lia|]. by wp_steps. Qed.

(** ** Insertion *)

(** The store after [a] is linked between [l1] and [l2]. *)
Definition link_between (l1 : list nat) (a : nat) (l2 : list nat) (m : gmap nat tcb) : gmap nat tcb :=
  match last l1 with
  | Some y => alter (set_next (Some a)) y (alter (set_next (head l2)) a m)
  | None => alter (set_next (head l2)) a m
  end.

Lemma rep_futex_insert s A h l1 l2 a :
  Rep s A -> 0 <= h < futex_hash_slots -> a_queue A (QFutex h) = l1 ++ l2 -> unqueued A a ->
  is_Some (tcbs s !! a) ->
  Rep (set_tcbs (link_between l1 a l2 (tcbs s))
        (set_futex_hash (<[Z.to_nat h := (head (l1 ++ a :: l2), last (l1 ++ a :: l2))]> (futex_hash s)) s))
      (a_setq (QFutex h) (l1 ++ a :: l2) A).
Proof.
  intros HR Hh Hq Hu Hd. pose proof (rep_links _ _ HR) as HL.
  pose proof (lk_nodup _ _ HL (QFutex h)) as Hnd. pose proof (lk_list _ _ HL (QFutex h)) as Hc.
  simpl in Hc. rewrite Hq in Hnd, Hc. pose proof (Hu (QFutex h)) as Ha. rewrite Hq in Ha.
  destruct (lk_unq _ _ HL a Hd Hu) as [Hna Hpa].
  assert (Hlast : forall y, last l1 = Some y -> y ∈ l1 /\ y <> a /\ is_Some (tcbs s !! y)).
  { intros y Hy. assert (Hyl : y ∈ l1) by (by apply last_Some_elem_of in Hy).
    split_and!; [done|intros ->; set_solver|]. apply (rep_queue_dom _ _ (QFutex h) _ HR).
    rewrite Hq. set_solver. }
  apply rep_set_futex; [done|done| |].
  - unfold link_between. destruct (last l1); eauto with links.
  - assert (Hsame : forall y, y <> a -> last l1 <> Some y ->
      nxt (link_between l1 a l2 (tcbs s)) y = nxt (tcbs s) y).
    { intros y Hya Hy. unfold link_between. destruct (last l1); solve_link. }
    assert (Hsame' : forall y, prv (link_between l1 a l2 (tcbs s)) y = prv (tcbs s) y).
    { intros y. unfold link_between. destruct (last l1); solve_link. }
    eapply links_update; [done|..].
    + apply (NoDup_Permutation_proper (a :: l1 ++ l2)); [solve_Permutation|]. by apply NoDup_cons.
    + intros x q' Hx Hne Hxq. assert (x = a \/ x ∈ l1 ++ l2) as [->|Hx'] by set_solver.
      * by apply (Hu q').
      * apply Hne. eapply (lk_disj _ _ HL); [done|]. by rewrite Hq.
    + simpl. unfold linked_list. simpl. eapply (chain_insert (tcbs s)); [done..| | | | |].
      * unfold link_between. destruct (last l1) as [y|] eqn:E; [|solve_link].
        destruct (Hlast y eq_refl) as (_ & Hya & _). solve_link.
      * by rewrite Hsame'.
      * intros y Hy. unfold link_between. rewrite Hy. destruct (Hlast y Hy) as (_ & _ & Hd').
        solve_link.
      * intros y Hy Hy'. apply Hsame; [|done]. intros ->. done.
      * intros. apply Hsame'.
    + intros x Hx Hxl. rewrite Hq in Hx. split; [apply Hsame|apply Hsame'].
      * intros ->. set_solver.
      * intros Hx'. apply Hlast in Hx' as [? _]. set_solver.
    + intros x Hx Hxl. exfalso. rewrite Hq in Hx. set_solver.
Qed.

Definition slot_of (l1 : list nat) : slot :=
  match last l1 with Some y => SlotNext (Some y) | None => SlotHead end.

(** The insertion point is reached at [l2]: the writes of either exit of
    the loop link the thread there. *)
Lemma futex_link_mid s A h l1 b l2 a :
  Rep s A -> 0 <= h < futex_hash_slots -> a_queue A (QFutex h) = l1 ++ b :: l2 -> unqueued A a ->
  is_Some (tcbs s !! a) ->
  wp (do! store_slot h (slot_of l1) (Some a) in wr (Some a) (set_next (Some b)))
     (fun _ s' => Rep s' (a_setq (QFutex h) (l1 ++ a :: b :: l2) A)) s.
Proof.
  intros HR Hh Hq Hu Hd. pose proof (rep_futex_len _ _ HR) as Hlen.
  pose proof (rep_futex_insert _ _ _ _ _ _ HR Hh Hq Hu Hd) as Hrep.
  rewrite last_app_cons, last_cons_cons in Hrep.
  wp_step. unfold slot_of, link_between in *. destruct (last l1) as [y|] eqn:E; simpl store_slot.
  - assert (Hy : y ∈ l1) by (by apply last_Some_elem_of in E).
    assert (Hdy : is_Some (tcbs s !! y)).
    { apply (rep_queue_dom _ _ (QFutex h) _ HR). rewrite Hq. set_solver. }
    apply wp_wr_raw; [done|]. apply wp_wr_raw; [solve_dom|]. simpl.
    replace (<[_ := _]> (futex_hash s)) with (futex_hash s) in Hrep.
    + assert (Hya : y <> a) by (intros ->; apply (Hu (QFutex h)); rewrite Hq; set_solver).
      rewrite alter_alter_ne by done. destruct s. exact Hrep.
    + symmetry. apply list_insert_id. rewrite (rep_futex _ _ HR) by done. rewrite Hq.
      rewrite last_app_cons. destruct l1; [done|]. done.
  - apply last_None in E as ->. simpl in *. wp_step.
    eapply wp_get_entry; [done..|]. apply wp_put_entry; [lia|]. apply wp_wr_raw; [solve_dom|].
    rewrite Hq. exact Hrep.
Qed.

Lemma futex_link_end s A h l1 a :
  Rep s A -> 0 <= h < futex_hash_slots -> a_queue A (QFutex h) = l1 -> unqueued A a ->
  is_Some (tcbs s !! a) ->
  wp (do! wr (Some a) (set_next None) in
      let! e := get_entry h in
      do! put_entry h (fst e, Some a) in
      store_slot h (slot_of l1) (Some a))
     (fun _ s' => Rep s' (a_setq (QFutex h) (l1 ++ [a]) A)) s.
Proof.
  intros HR Hh Hq Hu Hd. pose proof (rep_futex_len _ _ HR) as Hlen.
  pose proof (rep_futex_insert s A h l1 [] a HR Hh) as Hrep.
  rewrite app_nil_r, last_snoc in Hrep. specialize (Hrep Hq Hu Hd).
  pose proof (rep_futex _ _ HR h Hh) as He. rewrite Hq in He.
  wp_step. apply wp_wr_raw; [done|]. wp_step.
  eapply wp_get_entry_raw; [lia|done|]. simpl fst. wp_step. apply wp_put_entry; [simpl; lia|]. simpl.
  unfold slot_of, link_between in *. destruct (last l1) as [y|] eqn:E; simpl store_slot.
  - assert (Hy : y ∈ l1) by (by apply last_Some_elem_of in E).
    assert (Hdy : is_Some (tcbs s !! y)).
    { apply (rep_queue_dom _ _ (QFutex h) _ HR). by rewrite Hq. }
    apply wp_wr_raw; [solve_dom|].
    replace (head (l1 ++ [a])) with (head l1) in Hrep by (by destruct l1). exact Hrep.
  - apply last_None in E as ->. simpl in *. wp_step. eapply wp_get_entry_raw; [lia| |].
    { simpl. rewrite list_lookup_insert_eq by lia. done. }
    apply wp_put_entry; [simpl; rewrite length_insert; lia|]. simpl.
    rewrite list_insert_insert_eq. exact Hrep.
Qed.

Lemma enqueue_futex_loop_spec s A h a t l1 l2 fuel :
  Rep s A -> 0 <= h < futex_hash_slots -> a_queue A (QFutex h) = l1 ++ l2 -> unqueued A a ->
  a_tcbs A !! a = Some t -> (length l2 <= fuel)%nat ->
  wp (enqueue_futex_loop fuel h (Some a) (slot_of l1) (head l2))
     (fun _ s' => Rep s' (a_setq (QFutex h) (l1 ++ insert_prio A a l2) A)) s.
Proof.
  intros HR Hh Hq Hu Ha. destruct (rep_lookup_inv _ _ _ _ HR Ha) as (t0 & Ht0 & _).
  revert l1 fuel Hq. induction l2 as [|b l2 IH]; intros l1 fuel Hq Hf.
  - rewrite app_nil_r in Hq. simpl insert_prio.
    destruct fuel; simpl; apply futex_link_end; by eauto.
  - destruct fuel as [|fuel]; simpl in Hf; [lia|]. simpl.
    destruct (rep_elem _ _ (QFutex h) b HR) as [tb Htb]; [rewrite Hq; set_solver|].
    wp_step. eapply wp_rd; [apply _|done|exact Ha|]. wp_step. eapply wp_rd; [apply _|done|exact Htb|].
    rewrite (a_prio_eq _ _ _ Ha), (a_prio_eq _ _ _ Htb).
    destruct (priority tb <? priority t); [apply futex_link_mid; by eauto|].
    destruct (rep_lookup_inv _ _ _ _ HR Htb) as (tb0 & Htb0 & _).
    pose proof (lk_list _ _ (rep_links _ _ HR) (QFutex h)) as Hc. rewrite Hq in Hc.
    apply chain_elem in Hc as [Hn _]. unfold nxt in Hn. rewrite Htb0 in Hn. simpl in Hn.
    apply (inj Some) in Hn. wp_step. eapply wp_rd_raw; [done|]. rewrite Hn.
    specialize (IH (l1 ++ [b]) fuel). unfold slot_of in IH at 1. rewrite last_snoc in IH.
    rewrite <-!app_assoc in IH. apply IH; [done|lia].
Qed.

Lemma enqueue_futex_spec s A h a t :
  Rep s A -> (length (a_queue A (QFutex h)) <= max_tcbs)%nat ->
  0 <= h < futex_hash_slots -> unqueued A a -> a_tcbs A !! a = Some t ->
  wp (enqueue_futex h (Some a)) (fun _ s' => Rep s' (a_enqueue_futex h a A)) s.
Proof.
  intros HR Hlen Hh Hu Ha. unfold enqueue_futex. wp_step. eapply wp_get_entry; [done..|]. simpl fst.
  by apply (enqueue_futex_loop_spec s A h a t [] _ max_tcbs).
Qed.

(** ** Removal *)

(** The store after [a] is unlinked from between [l1] and [l2]. *)
Definition unlink (l1 : list nat) (a : nat) (l2 : list nat) (m : gmap nat tcb) : gmap nat tcb :=
  alter (set_next None) a
    match last l1 with
    | Some y => alter (set_next (head l2)) y m
    | None => m
    end.

Lemma rep_futex_remove s A h l1 a l2 :
  Rep s A -> 0 <= h < futex_hash_slots -> a_queue A (QFutex h) = l1 ++ a :: l2 ->
  Rep (set_tcbs (unlink l1 a l2 (tcbs s))
        (set_futex_hash (<[Z.to_nat h := (head (l1 ++ l2), last (l1 ++ l2))]> (futex_hash s)) s))
      (a_setq (QFutex h) (l1 ++ l2) A).
Proof.
  intros HR Hh Hq. pose proof (rep_links _ _ HR) as HL.
  pose proof (lk_nodup _ _ HL (QFutex h)) as Hnd. pose proof (lk_list _ _ HL (QFutex h)) as Hc.
  simpl in Hc. rewrite Hq in Hnd, Hc. destruct (chain_elem _ _ _ _ Hc) as [Hna Hpa].
  assert (Hnd' : NoDup (a :: l1 ++ l2)) by (eapply NoDup_Permutation_proper; [|exact Hnd]; solve_Permutation).
  apply NoDup_cons in Hnd' as [Ha Hnd'].
  assert (Hlast : forall y, last l1 = Some y -> y ∈ l1 /\ y <> a /\ is_Some (tcbs s !! y)).
  { intros y Hy. assert (Hyl : y ∈ l1) by (by apply last_Some_elem_of in Hy).
    split_and!; [done|intros ->; set_solver|]. apply (rep_queue_dom _ _ (QFutex h) _ HR).
    rewrite Hq. set_solver. }
  apply rep_set_futex; [done|done| |].
  - unfold unlink. destruct (last l1); eauto with links.
  - assert (Hsame : forall y, y <> a -> last l1 <> Some y ->
      nxt (unlink l1 a l2 (tcbs s)) y = nxt (tcbs s) y).
    { intros y Hya Hy. unfold unlink. destruct (last l1); solve_link. }
    assert (Hsame' : forall y, prv (unlink l1 a l2 (tcbs s)) y = prv (tcbs s) y).
    { intros y. unfold unlink. destruct (last l1); solve_link. }
    eapply links_update; [done|done|..].
    + intros x q' Hx Hne Hxq. apply Hne. eapply (lk_disj _ _ HL); [done|]. rewrite Hq. set_solver.
    + unfold linked_list. simpl. eapply (chain_remove (tcbs s)); [done..| | |].
      * intros y Hy. unfold unlink. rewrite Hy. destruct (Hlast y Hy) as (_ & ? & ?). solve_link.
      * intros y Hy Hy'. apply Hsame; [|done]. intros ->. done.
      * intros. apply Hsame'.
    + intros x Hx Hxl. rewrite Hq in Hx. split; [apply Hsame|apply Hsame'].
      * intros ->. set_solver.
      * intros Hx'. apply Hlast in Hx' as [? _]. set_solver.
    + intros x Hx Hxl. assert (x = a) as -> by (rewrite Hq in Hx; set_solver).
      rewrite Hsame'. split; [|done]. unfold unlink. destruct (last l1); solve_link.
Qed.

Lemma dequeue_futex_spec s A h l1 a l2 :
  Rep s A -> 0 <= h < futex_hash_slots -> a_queue A (QFutex h) = l1 ++ a :: l2 ->
  wp (dequeue_futex h (last l1) (Some a)) (fun _ s' => Rep s' (a_setq (QFutex h) (l1 ++ l2) A)) s.
Proof.
  intros HR Hh Hq. pose proof (rep_futex_len _ _ HR) as Hlen.
  pose proof (rep_futex_remove _ _ _ _ _ _ HR Hh Hq) as Hrep.
  pose proof (rep_futex _ _ HR h Hh) as He. rewrite Hq in He.
  pose proof (lk_nodup _ _ (rep_links _ _ HR) (QFutex h)) as Hnd. rewrite Hq in Hnd.
  pose proof (lk_list _ _ (rep_links _ _ HR) (QFutex h)) as Hc. rewrite Hq in Hc.
  apply chain_elem in Hc as [Hn _].
  assert (exists t, tcbs s !! a = Some t /\ next t = head l2) as (t & Ht & Hnt).
  { unfold nxt in Hn. destruct (tcbs s !! a) as [t|]; [|done]. exists t. by simplify_eq/=. }
  unfold dequeue_futex. wp_step. eapply wp_get_entry_raw; [lia|done|]. simpl fst.
  wp_step. eapply wp_rd_raw; [done|]. rewrite Hnt. rewrite last_app_cons in He.
  unfold unlink in Hrep. wp_step. destruct l1 as [|x l1']; simpl head.
  - rewrite bool_decide_true by done. wp_steps; [done|]. apply wp_put_entry; [lia|].
    wp_step. eapply wp_get_entry_raw; [lia|simpl; by rewrite list_lookup_insert_eq by lia|].
    simpl snd. simpl fst. simpl in Hrep. wp_step. destruct l2 as [|z l2].
    + rewrite bool_decide_true by done. apply wp_put_entry; [simpl; rewrite length_insert; lia|].
      apply wp_wr_raw; [solve_dom|]. simpl. rewrite list_insert_insert_eq. exact Hrep.
    + rewrite last_cons_cons in *. rewrite bool_decide_false.
      * wp_steps. apply wp_wr_raw; [solve_dom|]. exact Hrep.
      * intros Hl. apply last_Some_elem_of in Hl. apply NoDup_cons in Hnd as [? _]. set_solver.
  - destruct (last (x :: l1')) as [y|] eqn:E; [|by apply last_None in E].
    assert (Hy : y ∈ x :: l1') by (by apply last_Some_elem_of in E).
    assert (Hdy : is_Some (tcbs s !! y)).
    { apply (rep_queue_dom _ _ (QFutex h) _ HR). rewrite Hq. set_solver. }
    apply NoDup_app in Hnd as (_ & Hdis & Hnd).
    assert (Hxa : x <> a) by (intros ->; apply (Hdis a); clear; set_solver).
    rewrite (bool_decide_false (head _ = Some a)) by (simpl; congruence).
    wp_steps; [done|]. apply wp_wr_raw; [done|]. wp_step.
    eapply wp_get_entry_raw; [lia|done|]. simpl snd. simpl fst. wp_step.
    destruct l2 as [|z l2].
    + rewrite bool_decide_true by done. apply wp_put_entry; [simpl; lia|].
      apply wp_wr_raw; [solve_dom|]. rewrite app_nil_r in *. rewrite E in Hrep. exact Hrep.
    + rewrite last_cons_cons in *. rewrite bool_decide_false.
      * wp_steps. apply wp_wr_raw; [solve_dom|]. rewrite last_app_cons in Hrep.
        rewrite list_insert_id in Hrep by done. destruct s. exact Hrep.
      * intros Hl. apply last_Some_elem_of in Hl. apply NoDup_cons in Hnd as [? _]. set_solver.
Qed.

Lemma filter_remove_app (a : nat) l1 l2 :
  NoDup (l1 ++ a :: l2) -> filter (fun b => b <> a) (l1 ++ a :: l2) = l1 ++ l2.
Proof.
  intros Hnd. apply NoDup_app in Hnd as (_ & Hd & Hnd). apply NoDup_cons in Hnd as [Ha _].
  assert (Hid : forall l : list nat, a ∉ l -> filter (fun b => b <> a) l = l).
  { clear. induction l as [|x l IH]; [done|]. intros Ha. rewrite filter_cons_True by set_solver.
    f_equal. apply IH. set_solver. }
  rewrite filter_app, filter_cons_False by naive_solver. rewrite !Hid; [done|done|set_solver].
Qed.

Definition a_wake (tag : Z) (A : akernel) : akernel :=
  match a_find_waiter tag A with
  | Some w => a_remove (QFutex (hash_tag tag)) w A
  | None => A
  end.

Lemma signal_futex_loop_spec s A tag l1 l2 fuel :
  Rep s A -> a_queue A (QFutex (hash_tag tag)) = l1 ++ l2 ->
  find (has_tag A tag) (l1 ++ l2) = find (has_tag A tag) l2 -> (length l2 <= fuel)%nat ->
  wp (signal_futex_loop fuel (hash_tag tag) tag (last l1) (head l2))
     (fun r s' => r = a_find_waiter tag A /\ Rep s' (a_wake tag A)) s.
Proof.
  intros HR. revert l1 fuel. induction l2 as [|b l2 IH]; intros l1 fuel Hq Hfind Hf.
  - unfold a_wake, a_find_waiter. rewrite Hq, Hfind. by destruct fuel; simpl; wp_steps.
  - destruct fuel as [|fuel]; simpl in Hf; [lia|]. simpl.
    destruct (rep_elem _ _ (QFutex (hash_tag tag)) b HR) as [tb Htb]; [rewrite Hq; set_solver|].
    assert (Hb : has_tag A tag b = (futex_tag tb =? tag)) by (unfold has_tag, a_get; by rewrite Htb).
    wp_step. eapply wp_rd; [apply _|done|exact Htb|]. simpl in Hfind. rewrite Hb in Hfind.
    destruct (futex_tag tb =? tag) eqn:E.
    + wp_step. eapply wp_mono; [eapply dequeue_futex_spec; [done|apply hash_tag_range|done]|].
      simpl. intros _ s1 HR1. wp_steps. unfold a_wake, a_find_waiter. rewrite Hq, Hfind.
      split; [done|]. unfold a_remove. rewrite Hq, filter_remove_app; [done|].
      rewrite <-Hq. apply (lk_nodup _ _ (rep_links _ _ HR)).
    + destruct (rep_lookup_inv _ _ _ _ HR Htb) as (tb0 & Htb0 & _).
      pose proof (lk_list _ _ (rep_links _ _ HR) (QFutex (hash_tag tag))) as Hc. rewrite Hq in Hc.
      apply chain_elem in Hc as [Hn _]. unfold nxt in Hn. rewrite Htb0 in Hn. simpl in Hn.
      apply (inj Some) in Hn. wp_step. eapply wp_rd_raw; [done|]. rewrite Hn.
      specialize (IH (l1 ++ [b]) fuel). rewrite last_snoc, <-!app_assoc in IH. simpl in IH.
      apply IH; [done|done|lia].
Qed.

Lemma signal_futex_spec s A tag :
  Rep s A -> (length (a_queue A (QFutex (hash_tag tag))) <= max_tcbs)%nat ->
  wp (signal_futex tag) (fun r s' => r = a_find_waiter tag A /\ Rep s' (a_wake tag A)) s.
Proof.
  intros HR Hl. unfold signal_futex. wp_steps.
  eapply wp_get_entry; [done|apply hash_tag_range|]. simpl fst.
  by apply (signal_futex_loop_spec s A tag []).
Qed.

(** ** Pending signals *)

Lemma find_pending_spec s tags l tag n Q :
  (n <= length l)%nat -> (length l <= length tags)%nat -> take (length l) tags = l ->
  Q (Z.of_nat <$> last_index tag l n) s ->
  wp (find_pending tags tag n) Q s.
Proof.
  intros Hn Hlen Htake. revert Q. induction n as [|n IH]; intros Q HQ; simpl in *; [by wp_steps|].
  assert (Hl : l !! n = tags !! n) by (rewrite <-Htake at 1; by rewrite lookup_take_lt by lia).
  destruct (lookup_lt_is_Some_2 tags n) as [x Hx]; [lia|].
  wp_step. eapply wp_index; [lia|by rewrite Nat2Z.id|]. rewrite Hl, Hx in HQ.
  destruct (Z.eqb_spec x tag) as [->|Hne].
  - rewrite bool_decide_true in HQ by done. by wp_steps.
  - rewrite bool_decide_false in HQ by congruence. apply IH; [lia|done].
Qed.

Lemma last_index_lt tag l n i : last_index tag l n = Some i -> (i < n)%nat.
Proof.
  induction n as [|n IH]; simpl; [done|]. case_bool_decide; [intros [= <-]; lia|].
  intros Hi%IH. lia.
Qed.

Lemma a_take_pending_length tag l l' :
  a_take_pending tag l = Some l' -> S (length l') = length l.
Proof.
  unfold a_take_pending. destruct (last_index tag l (length l)) as [i|] eqn:E; [|done].
  apply last_index_lt in E. destruct (last l); [|done]. intros [= <-].
  rewrite length_take, length_insert. lia.
Qed.

Lemma rep_set_pending s A l tags :
  Rep s A -> length tags = max_tcbs -> take (length l) tags = l ->
  Rep (set_pending tags (Z.of_nat (length l)) s) (a_set_pending l A).
Proof. intros [] ? ?. by constructor. Qed.

(** Swap removal on the array is swap removal on the pending list. *)
Lemma rep_take_pending s A tag i :
  Rep s A -> last_index tag (a_pending A) (length (a_pending A)) = Some i ->
  exists x l', last (a_pending A) = Some x /\ a_take_pending tag (a_pending A) = Some l' /\
    futex_pending_tags s !! Z.to_nat (num_pending_tags s - 1) = Some x /\
    Rep (set_pending (<[i := x]> (futex_pending_tags s)) (num_pending_tags s - 1) s)
        (a_set_pending l' A).
Proof.
  intros HR Hi. pose proof (last_index_lt _ _ _ _ Hi) as Hlt.
  pose proof (rep_pending _ _ HR) as Hp. pose proof (rep_num_pending _ _ HR) as Hn.
  set (l := a_pending A) in *.
  destruct (last l) as [x|] eqn:El; [|apply last_None in El; rewrite El in Hlt; simpl in Hlt; lia].
  assert (Htp : a_take_pending tag l = Some (take (length l - 1) (<[i := x]> l)))
    by (unfold a_take_pending; by rewrite Hi, El).
  pose proof (a_take_pending_length _ _ _ Htp) as Hlen.
  exists x, (take (length l - 1) (<[i := x]> l)). split_and!; [done|done| |].
  - rewrite Hn. replace (Z.to_nat (Z.of_nat (length l) - 1)) with (pred (length l)) by lia.
    rewrite <-El, last_lookup. rewrite <-(lookup_take_lt _ (length l)) by lia. by rewrite Hp.
  - rewrite Hn. replace (Z.of_nat (length l) - 1)
      with (Z.of_nat (length (take (length l - 1) (<[i := x]> l)))) by lia.
    apply rep_set_pending; [done|by rewrite length_insert, (rep_pending_len _ _ HR)|].
    replace (length (take (length l - 1) (<[i:=x]> l))) with (length l - 1)%nat by lia.
    trans (take (length l - 1) (<[i := x]> (take (length l) (futex_pending_tags s)))); [|by rewrite Hp].
    rewrite <-take_insert_lt by done. rewrite take_take. f_equal. lia.
Qed.

(** ** The system calls *)

Lemma a_take_pending_None tag l : a_take_pending tag l = None <-> last_index tag l (length l) = None.
Proof.
  unfold a_take_pending. destruct (last_index tag l (length l)) as [i|] eqn:E; [|done].
  apply last_index_lt in E. destruct (last l) eqn:El; [done|].
  apply last_None in El as ->. simpl in E. lia.
Qed.

Lemma wp_switch_to s A p : Rep s A -> wp (switch_to p) (fun _ s' => Rep s' (a_switch_to p A)) s.
Proof. intros HR. unfold switch_to. wp_steps. by apply rep_switch. Qed.

Lemma sys_futex_wait_spec O s A c tag :
  Rep s A -> AInv O A -> a_current A = Some c ->
  wp (sys_futex_wait tag) (fun _ s' => Rep s' (a_sys_futex_wait c tag A)) s.
Proof.
  intros HR HI Hc. pose proof (inv_running _ _ _ HI Hc) as Hrun.
  pose proof Hrun as (_ & Hunq & t & Ht & _).
  unfold sys_futex_wait, a_sys_futex_wait. destruct (tag =? 0).
  { eapply wp_syscall_return_error; [done|done|by eauto|done]. }
  wp_steps. pose proof (rep_num_pending _ _ HR) as Hn.
  apply (find_pending_spec _ _ (a_pending A)); rewrite ?Hn, ?Nat2Z.id.
  { done. }
  { rewrite (rep_pending_len _ _ HR). apply (d_pending_len _ (inv_data _ _ HI)). }
  { apply (rep_pending _ _ HR). }
  destruct (last_index tag (a_pending A) (length (a_pending A))) as [i|] eqn:E; simpl.
  - destruct (rep_take_pending _ _ _ _ HR E) as (x & l' & _ & -> & Hx & Hrep).
    rewrite Hn in *. pose proof (last_index_lt _ _ _ _ E). wp_step. eapply wp_index; [lia|done|].
    wp_step. apply wp_index_set.
    { rewrite (rep_pending_len _ _ HR). pose proof (d_pending_len _ (inv_data _ _ HI)). lia. }
    wp_steps. rewrite Nat2Z.id. eapply wp_syscall_return_success; [done|done|by eauto|done].
  - apply a_take_pending_None in E as ->. wp_cur HR Hc. wp_step.
    eapply wp_return; [done|by eauto|]. intros s1 HR1. wp_step. eapply wp_mono.
    { eapply deactivate_self_schedule_spec; [done| | |done].
      - by apply unit_ok_upd, HI.
      - apply running_runnable, running_cur_upd; [by right|done]. }
    simpl. intros r s2 [-> HR2].
    set (A1 := a_return c 0 A) in *.
    unfold a_deactivate_self_schedule, a_deactivate_self in *. change (a_current A1) with (a_current A) in *.
    rewrite Hc in *. set (A2 := a_upd c (set_thread_state THREAD_STATE_WAIT_FUTEX) A1) in *.
    destruct (a_do_schedule A2) as [n A3] eqn:Ed. simpl in HR2 |- *.
    assert (HA3 : A3 = snd (a_do_schedule A2)) by (by rewrite Ed).
    assert (Ht3 : is_Some (a_tcbs A3 !! c)).
    { rewrite HA3, a_do_schedule_tcbs. by apply a_upd_is_Some, a_upd_is_Some; eauto. }
    destruct Ht3 as [t3 Ht3].
    wp_step. eapply wp_mono; [eapply (enqueue_futex_spec _ _ _ _ t3); [done| |apply hash_tag_range| |done]|].
    + rewrite HA3, a_do_schedule_queue by done. simpl. by eapply inv_queue_length.
    + rewrite HA3. by apply a_do_schedule_unqueued.
    + simpl. intros _ s3 HR3. wp_step. eapply wp_wr; [apply _|done|by eauto|]. intros s4 HR4.
      by apply wp_switch_to.
Qed.

Lemma a_find_waiter_Some tag A w :
  a_find_waiter tag A = Some w -> w ∈ a_queue A (QFutex (hash_tag tag)) /\ has_tag A tag w = true.
Proof.
  unfold a_find_waiter. intros H. apply List.find_some in H as [Hin Ht].
  split; [by apply list_elem_of_In|done].
Qed.

Lemma unqueued_remove A q a :
  (forall q', a ∈ a_queue A q' -> q' = q) -> unqueued (a_remove q a A) a.
Proof.
  intros H q'. simpl. unfold qset. case_decide; subst; [|naive_solver].
  rewrite list_elem_of_filter. naive_solver.
Qed.

(** The current thread is not woken by its own signal. *)
Lemma sys_futex_signal_spec O s A c tag :
  Rep s A -> AInv O A -> a_current A = Some c ->
  wp (sys_futex_signal tag) (fun _ s' => Rep s' (a_sys_futex_signal c tag A)) s.
Proof.
  intros HR HI Hc. pose proof (inv_running _ _ _ HI Hc) as Hrun.
  pose proof Hrun as (_ & Hunq & t & Ht & Hst).
  unfold sys_futex_signal, a_sys_futex_signal. destruct (tag =? 0).
  { eapply wp_syscall_return_error; [done|done|by eauto|done]. }
  wp_step. eapply wp_mono; [apply signal_futex_spec; [done|by eapply inv_queue_length]|].
  simpl. intros r s1 [-> HR1]. unfold a_wake in HR1.
  destruct (a_find_waiter tag A) as [w|] eqn:Ew.
  - rewrite bool_decide_true by done. apply a_find_waiter_Some in Ew as [Hw _].
    destruct (inv_queued _ _ _ _ HI Hw) as (tw & Htw & Hh & Hnr).
    assert (Hwst : thread_state tw <> THREAD_STATE_RUNNABLE).
    { intros Hr. unfold home in Hh. by rewrite Hr in Hh. }
    set (A1 := a_remove (QFutex (hash_tag tag)) w A) in *.
    assert (Hu1 : unqueued A1 w).
    { apply unqueued_remove. intros q' Hq'.
      apply (inv_home _ _ _ _ _ HI Htw Hwst) in Hq'. congruence. }
    assert (Hrun1 : running_cur A1 c).
    { split; [done|]. split; [|by eauto]. intros q Hq. apply (Hunq q). revert Hq. simpl. unfold qset.
      case_decide; subst; [rewrite list_elem_of_filter; tauto|done]. }
    wp_step. eapply wp_mono; [eapply activate_schedule_spec; [done|apply HI| |]|].
    + split; [done|]. exists tw. split; [done|]. split; [done|]. by eapply (d_prio _ (inv_data _ _ HI)).
    + intros c' Hc'. simpl in Hc'. rewrite Hc in Hc'. by injection Hc' as <-.
    + simpl. intros r s2 [-> HR2]. destruct (a_activate_schedule w A1) as [n A2] eqn:E2. simpl in *.
      assert (HA2 : a_current A2 = Some c /\ is_Some (a_tcbs A2 !! c)).
      { change A2 with (snd (n, A2)). rewrite <-E2, a_activate_schedule_current, a_activate_schedule_tcbs.
        split; [done|]. by apply is_Some_alter; eauto. }
      destruct HA2 as [Hc2 Hd2]. wp_cur HR2 Hc2. wp_step. eapply wp_return; [done..|].
      intros s3 HR3. by apply wp_switch_to.
  - rewrite bool_decide_false by naive_solver. wp_steps.
    pose proof (rep_num_pending _ _ HR1) as Hn. rewrite Hn.
    destruct (Z.leb_spec (Z.of_nat max_tcbs) (Z.of_nat (length (a_pending A)))).
    { eapply wp_syscall_return_error; [done|done|by eauto|done]. }
    wp_steps. pose proof (rep_pending_len _ _ HR1) as Hl. apply wp_index_set; [lia|]. wp_steps.
    rewrite Nat2Z.id.
    eapply (wp_syscall_return_success _ (a_set_pending (a_pending A ++ [tag]) A)); [|done|by eauto|done].
    replace (Z.of_nat (length (a_pending A)) + 1) with (Z.of_nat (length (a_pending A ++ [tag])))
      by (rewrite length_app; simpl; lia).
    apply rep_set_pending; [done|by rewrite length_insert|].
    rewrite length_app. simpl. rewrite Nat.add_1_r.
    rewrite (take_S_r _ _ tag) by (apply list_lookup_insert_eq; lia).
    by rewrite take_insert_ge, (rep_pending _ _ HR1).
Qed.

End refine_futex.
