(* ===== verification/NanoRefineSys.v ===== *)
(** * The IPC, signal, interrupt and thread system calls implement their
    specifications

    Each system call, entered by thread [c] in a state that represents an
    abstract kernel satisfying the invariant, does not crash and ends in a
    state that represents the result of its specification. *)

From S2P Require Import Prelude NanoState NanoSchedule NanoSyscalls NanoSpec Rings NanoLinks NanoRep NanoRefineSched NanoInv NanoRefineFutex.
#[local] Open Scope Z_scope.

(** TCB updates that keep the state and the priority. *)
Class Neutral (f : tcb -> tcb) : Prop := {
  neutral_state : forall t, thread_state (f t) = thread_state t;
  neutral_prio : forall t, priority (f t) = priority t
}.
#[export] Instance neutral_set_reg i v : Neutral (set_reg i v). Proof. done. Qed.
#[export] Instance neutral_set_fcs v : Neutral (set_full_context_saved v). Proof. done. Qed.
#[export] Instance neutral_copy_regs s : Neutral (Ipc.copy_regs s). Proof. done. Qed.
#[export] Instance neutral_set_waiting v : Neutral (set_ipc_waiting_for v). Proof. done. Qed.
#[export] Instance neutral_set_signals v : Neutral (set_signals v). Proof. done. Qed.
#[export] Instance neutral_set_signal_mask v : Neutral (set_signal_mask v). Proof. done. Qed.
#[export] Instance neutral_set_joiner v : Neutral (set_joiner v). Proof. done. Qed.
#[export] Instance neutral_set_registered v : Neutral (set_registered_interrupt v). Proof. done. Qed.
#[export] Instance neutral_set_futex_tag v : Neutral (set_futex_tag v). Proof. done. Qed.

Section refine_sys.
Context {cfg : NanoConfig}.

(** ** Preconditions of the scheduler *)

Record SchedPre (A : akernel) (c : nat) : Prop := {
  sp_unit : unit_ok A;
  sp_run : running_cur A c
}.

Lemma inv_sched O A c : AInv O A -> a_current A = Some c -> SchedPre A c.
Proof. intros HI Hc. split; [apply HI|by eapply inv_running]. Qed.

Lemma sched_upd A c a f `{!Neutral f} : SchedPre A c -> SchedPre (a_upd a f A) c.
Proof.
  intros []. split.
  - apply unit_ok_upd; [apply neutral_prio|done].
  - apply running_cur_upd; [|done]. right. apply neutral_state.
Qed.

Lemma wakeable_neutral A b a f `{!Neutral f} : wakeable A b -> wakeable (a_upd a f A) b.
Proof. apply wakeable_upd. right. intros t. split; [apply neutral_state|apply neutral_prio]. Qed.

(** A queue operation on other threads. *)
Lemma sched_setq A c q l :
  (forall x, x ∈ l -> x ∈ a_queue A q \/ x <> c) -> SchedPre A c -> SchedPre (a_setq q l A) c.
Proof.
  intros Hl [Hu (Hc & Hq & Ht)]. split; [done|]. split; [done|]. split; [|done].
  intros q'. simpl. unfold qset. case_decide; subst; [|by apply Hq].
  intros Hx. destruct (Hl c Hx) as [Hin|]; [by eapply Hq|done].
Qed.

(** A property of the abstract kernel kept by every update of a message
    transfer. *)
Lemma copy_message_pres (P : akernel -> Prop) src dest A :
  (forall f B, Irrelevant f -> Neutral f -> P B -> P (a_upd dest f B)) ->
  P A -> P (a_copy_message src dest A).
Proof.
  intros Hs HP. unfold a_copy_message. destruct (a_tcbs _ !! src); repeat apply Hs; try apply _; done.
Qed.

Lemma wp_activate_switch s A c a :
  Rep s A -> SchedPre A c -> wakeable A a ->
  wp (let! nxt := activate_schedule (Some a) in switch_to nxt)
     (fun _ s' => Rep s' (a_then_switch (a_activate_schedule a A))) s.
Proof.
  intros HR [Hu Hrun] Hw. wp_step. eapply wp_mono; [apply (activate_schedule_spec _ A a HR Hu Hw)|].
  - intros c' Hc'. pose proof Hrun as [Hc _]. rewrite Hc in Hc'. by injection Hc' as <-.
  - simpl. intros r s1 [-> HR1]. by apply wp_switch_to.
Qed.

Lemma wp_deactivate_switch s A c st :
  Rep s A -> SchedPre A c -> st <> THREAD_STATE_RUNNABLE ->
  wp (let! nxt := deactivate_self_schedule st in switch_to nxt)
     (fun _ s' => Rep s' (a_then_switch (a_deactivate_self_schedule st A))) s.
Proof.
  intros HR [Hu Hrun] Hst. wp_step. eapply wp_mono; [eapply deactivate_self_schedule_spec; by eauto using running_runnable|].
  simpl. intros r s1 [-> HR1]. by apply wp_switch_to.
Qed.

(** ** Send queues *)

Lemma alter_comm f g a b (m : gmap nat tcb) :
  (forall t, f (g t) = g (f t)) -> alter f a (alter g b m) = alter g b (alter f a m).
Proof.
  intros Hfg. destruct (decide (a = b)) as [->|Hne]; [|by rewrite alter_alter_ne].
  rewrite !alter_alter_eq. apply alter_ext. intros t _. apply Hfg.
Qed.

(** Writing the head a send queue already has changes nothing. *)
Lemma alter_send_head_id m m' d h :
  same_core m m' -> (forall t, m !! d = Some t -> ipc_send_head t = h) ->
  alter (set_ipc_send_head h) d m' = m'.
Proof.
  intros Hm Hh. apply alter_id. intros t Ht.
  destruct (same_core_head _ _ _ _ Hm Ht) as (t0 & Ht0 & He). rewrite (Hh _ Ht0) in He.
  rewrite He. by destruct t.
Qed.

Lemma enqueue_send_spec s A a d :
  Rep s A -> unqueued A a -> is_Some (a_tcbs A !! a) -> is_Some (a_tcbs A !! d) ->
  wp (Ipc.enqueue_send (Some d) (Some a)) (fun _ s' => Rep s' (a_push (QSend d) a A)) s.
Proof.
  intros HR Hunq [ta' Ha] [td' Hd]. destruct (rep_lookup_inv _ _ _ _ HR Hd) as (td & Htd & _).
  unfold Ipc.enqueue_send. wp_step. eapply wp_deref; [done..|]. intros ta Hta _.
  destruct (rep_unqueued _ _ _ _ HR Hunq Hta) as [-> ->]. wp_steps; [done|].
  eapply wp_rd_raw; [done|]. rewrite (rep_send _ _ HR _ _ Htd).
  pose proof (rep_links _ _ HR) as HL. unfold a_push.
  destruct (a_queue A (QSend d)) as [|h l] eqn:Eq; simpl head.
  - rewrite bool_decide_true by done. wp_step. apply wp_wr_raw; [solve_dom|]. wp_step.
    apply wp_wr_raw; [solve_dom|]. apply wp_wr_raw; [solve_dom|]. simpl.
    pose proof (rep_set_send s A d [a]
      (alter (set_prev (Some a)) a (alter (set_next (Some a)) a (tcbs s))) HR) as Hrep.
    simpl in Hrep. rewrite !(alter_comm (set_ipc_send_head _)) in Hrep by (by intros []).
    apply Hrep; [by eauto with links|].
    eapply links_push_empty; [done|done|done|done|..]; solve_link.
    intros x Hx. split; solve_link.
  - rewrite bool_decide_false by done.
    destruct (rep_ring_head _ _ (QSend d) h l HR eq_refl Eq) as (th & Hth & Hhn & Hhp).
    wp_step. eapply wp_deref_raw; [done|]. rewrite Hhn, Hhp. wp_steps; [done|done|].
    set (z := default h (last l)) in *.
    assert (Hzp : prv (tcbs s) h = Some (Some z)) by (unfold prv; by rewrite Hth, <-Hhp).
    assert (Hzin : z ∈ a_queue A (QSend d)) by (rewrite Eq; apply default_last_in).
    assert (Hah : a <> h) by (intros ->; apply (Hunq (QSend d)); rewrite Eq; set_solver).
    assert (Haz : a <> z) by (intros ->; by apply (Hunq (QSend d))).
    destruct (links_elem _ _ (QSend d) z HL Hzin) as [tz Htz].
    apply wp_wr_raw; [solve_dom|]. wp_step. apply wp_wr_raw; [solve_dom|]. wp_step.
    apply wp_wr_raw; [solve_dom|]. apply wp_wr_raw; [solve_dom|]. simpl.
    pose proof (rep_set_send s A d (h :: l ++ [a])
      (alter (set_next (Some a)) z (alter (set_prev (Some a)) h
        (alter (set_prev (Some z)) a (alter (set_next (Some h)) a (tcbs s))))) HR) as Hrep.
    rewrite (alter_send_head_id (tcbs s)) in Hrep; [|by eauto 10 with links|].
    + apply Hrep; [by eauto 10 with links|].
      eapply (links_push _ _ _ _ a h l z); try done; try (intros x Hx1 Hx2); solve_link; solve_dom.
    + intros t Ht. rewrite (rep_send _ _ HR _ _ Ht). by rewrite Eq.
Qed.

Lemma dequeue_send_spec s A a d l :
  Rep s A -> a_queue A (QSend d) = a :: l -> is_Some (a_tcbs A !! d) ->
  wp (Ipc.dequeue_send (Some d) (Some a)) (fun _ s' => Rep s' (a_pop (QSend d) A)) s.
Proof.
  intros HR Eq [td' Hd]. destruct (rep_lookup_inv _ _ _ _ HR Hd) as (td & Htd & _).
  pose proof (rep_links _ _ HR) as HL.
  destruct (rep_ring_head _ _ (QSend d) a l HR eq_refl Eq) as (t & Ht & Hn & Hpv).
  unfold Ipc.dequeue_send. wp_step. eapply wp_deref_raw; [done|]. rewrite Hn, Hpv.
  wp_steps; [done|]. eapply wp_rd_raw; [done|]. rewrite (rep_send _ _ HR _ _ Htd), Eq. simpl head.
  wp_steps; [done|]. eapply wp_rd_raw; [done|]. rewrite Hn. wp_steps; [done|].
  unfold a_pop. rewrite Eq. simpl tail.
  pose proof (lk_nodup _ _ HL (QSend d)) as Hnd. rewrite Eq in Hnd.
  destruct l as [|x r]; cbn [head hd_error from_option id] in *.
  - rewrite bool_decide_true by done. apply wp_wr_raw; [solve_dom|]. wp_step.
    apply wp_wr_raw; [solve_dom|]. apply wp_wr_raw; [solve_dom|]. simpl.
    pose proof (rep_set_send s A d [] (alter (set_prev None) a (alter (set_next None) a (tcbs s))) HR) as Hrep.
    simpl in Hrep. rewrite !(alter_comm (set_ipc_send_head _)) in Hrep by (by intros []).
    apply Hrep; [by eauto with links|].
    eapply (links_remove_last _ _ _ _ a); try done; try (intros x Hx; split); solve_link; solve_dom.
  - apply NoDup_cons in Hnd as [Hna Hnd].
    assert (Hax : a <> x) by (intros ->; apply Hna; set_solver).
    set (z := default a (last (x :: r))) in *.
    assert (Hz : z = default x (last r)) by (unfold z; rewrite last_cons; by destruct (last r)).
    assert (Hzin : z ∈ x :: r) by (rewrite Hz; apply default_last_in).
    assert (Haz : a <> z) by (intros Heq; apply Hna; by rewrite Heq).
    rewrite bool_decide_false by congruence.
    assert (Hdx : is_Some (tcbs s !! x)).
    { apply (rep_queue_dom _ _ (QSend d) _ HR). rewrite Eq. set_solver. }
    assert (Hdz : is_Some (tcbs s !! z)).
    { apply (rep_queue_dom _ _ (QSend d) _ HR). rewrite Eq. set_solver. }
    wp_step. apply wp_wr_raw; [solve_dom|]. wp_step. apply wp_wr_raw; [solve_dom|]. simpl.
    set (m1 := alter (set_next (Some x)) z (alter (set_prev (Some z)) x (tcbs s))).
    assert (Hm1 : same_core (tcbs s) m1) by (unfold m1; eauto with links).
    assert (is_Some (m1 !! d)) as [td1 Htd1] by (unfold m1; solve_dom).
    wp_step. eapply wp_rd_raw; [exact Htd1|].
    destruct (same_core_head _ _ _ _ Hm1 Htd1) as (td0 & Htd0 & Hh0).
    rewrite <-Hh0, (rep_send _ _ HR _ _ Htd0), Eq. simpl head. rewrite bool_decide_true by done.
    apply wp_wr_raw; [unfold m1; solve_dom|]. wp_step.
    apply wp_wr_raw; [unfold m1; solve_dom|]. apply wp_wr_raw; [unfold m1; solve_dom|]. simpl.
    pose proof (rep_set_send s A d (x :: r)
      (alter (set_prev None) a (alter (set_next None) a m1)) HR) as Hrep.
    simpl in Hrep. rewrite !(alter_comm (set_ipc_send_head _)) in Hrep by (by intros []).
    apply Hrep; [by eauto 10 with links|].
    apply (links_remove _ _ _ (QSend d) [] a (x :: r) x z HL); try done; unfold m1;
      try (intros y Hy1 Hy2); solve_link; try solve_dom.
    + unfold nxt. by rewrite Ht, <-Hn.
    + unfold prv. by rewrite Ht, <-Hpv.
Qed.

(** ** IPC *)

Lemma copy_message_spec s A src dest :
  Rep s A -> is_Some (a_tcbs A !! src) -> is_Some (a_tcbs A !! dest) ->
  wp (Ipc.copy_message (Some src) (Some dest)) (fun _ s' => Rep s' (a_copy_message src dest A)) s.
Proof.
  intros HR Hs Hd. unfold Ipc.copy_message, a_copy_message. wp_step.
  eapply wp_wr; [apply _|done..|]. intros s1 HR1.
  destruct (a_upd_is_Some dest src (set_full_context_saved 1) A Hs) as [ts Hts]. rewrite Hts.
  wp_step. eapply wp_deref; [done..|]. intros ts0 _ He.
  replace (Ipc.copy_regs ts0) with (Ipc.copy_regs ts) by (by rewrite <-He).
  eapply wp_wr; [apply _|done|by apply a_upd_is_Some|done].
Qed.

(** A receiver is ready when it waits for anyone or for the sender. *)
Lemma is_ready_to_receive_spec s A c d Q :
  Rep s A -> is_Some (a_tcbs A !! d) -> Q (a_ready_to_receive c d A) s ->
  wp (Ipc.is_ready_to_receive (Some c) (Some d)) Q s.
Proof.
  intros HR [td Htd] HQ. unfold Ipc.is_ready_to_receive. wp_step. eapply wp_deref; [done..|].
  intros t _ He. unfold a_ready_to_receive, a_state, a_get in HQ. rewrite Htd, <-He in HQ. simpl in HQ.
  destruct (decide (thread_state t = THREAD_STATE_WAIT_IPC_RECV)) as [Hst|Hst].
  - rewrite bool_decide_true in HQ by done. rewrite bool_decide_false by naive_solver. by wp_steps.
  - rewrite bool_decide_false in HQ by done. rewrite bool_decide_true by done. by wp_steps.
Qed.

Lemma sched_copy_message A c src dest : SchedPre A c -> SchedPre (a_copy_message src dest A) c.
Proof. apply (copy_message_pres (fun B => SchedPre B c)). intros. by apply sched_upd. Qed.
Lemma wakeable_copy_message A a src dest : wakeable A a -> wakeable (a_copy_message src dest A) a.
Proof. apply (copy_message_pres (fun B => wakeable B a)). intros. by apply wakeable_neutral. Qed.
Lemma is_Some_copy_message A a src dest :
  is_Some (a_tcbs A !! a) -> is_Some (a_tcbs (a_copy_message src dest A) !! a).
Proof. apply (copy_message_pres (fun B => is_Some (a_tcbs B !! a))). intros. by apply a_upd_is_Some. Qed.

Lemma a_get_neutral {T} (g : tcb -> T) x a b f A :
  (forall t, g (f t) = g t) -> a_get (a_upd a f A) b g x = a_get A b g x.
Proof.
  intros Hf. unfold a_get. simpl. destruct (decide (a = b)) as [->|].
  - rewrite lookup_alter_eq. destruct (a_tcbs A !! b); simpl; [apply Hf|done].
  - by rewrite lookup_alter_ne.
Qed.

Lemma a_get_return {T} (g : tcb -> T) x a b v A :
  (forall i w t, g (set_reg i w t) = g t) -> a_get (a_return a v A) b g x = a_get A b g x.
Proof. intros Hg. by apply a_get_neutral. Qed.

Lemma a_get_eq {T} (g : tcb -> T) x a t A : a_tcbs A !! a = Some t -> a_get A a g x = g t.
Proof. intros H. unfold a_get. by rewrite H. Qed.

Lemma a_get_copy_message {T} (g : tcb -> T) x a src dest A :
  (forall f t, Irrelevant f -> Neutral f -> g (f t) = g t) ->
  a_get (a_copy_message src dest A) a g x = a_get A a g x.
Proof.
  intros Hg. apply (copy_message_pres (fun B => a_get B a g x = a_get A a g x)); [|done].
  intros f B Hi Hn HB. rewrite a_get_neutral; [done|]. intros t. by apply Hg.
Qed.

Lemma a_ready_inv c d A :
  a_ready_to_receive c d A = true -> a_state A d = THREAD_STATE_WAIT_IPC_RECV.
Proof. unfold a_ready_to_receive. intros [H _]%andb_prop. by apply bool_decide_eq_true in H. Qed.

Lemma wp_get {T} (f : tcb -> T) `{!DataField f} s A a x Q :
  Rep s A -> is_Some (a_tcbs A !! a) -> Q (a_get A a f x) s -> wp (rd (Some a) f) Q s.
Proof.
  intros HR [t Ht] HQ. eapply wp_rd; [apply _|done..|]. by rewrite (a_get_eq _ _ _ _ _ Ht) in HQ.
Qed.

(** The call operation: the message is delivered, the receiver woken, and
    the caller waits for the reply. *)
Lemma do_call_spec s A c d :
  Rep s A -> SchedPre A c -> wakeable A d -> c <> d ->
  wp (do! wr (Some c) (set_ipc_waiting_for (Some d)) in
      do! activate (Some d) in
      do! deactivate_self THREAD_STATE_WAIT_IPC_RECV in
      schedule)
    (fun r s' => let R := a_do_schedule (a_deactivate_self THREAD_STATE_WAIT_IPC_RECV
                   (a_activate d (a_upd c (set_ipc_waiting_for (Some d)) A))) in
                 r = fst R /\ Rep s' (snd R)) s.
Proof.
  intros HR HS Hw Hne. pose proof (sp_run _ _ HS) as (Hc & Hu & t & Ht & Hst). wp_step.
  eapply wp_wr; [apply _|done|by eauto|]. intros s1 HR1.
  set (A1 := a_upd c (set_ipc_waiting_for (Some d)) A) in *.
  assert (Hw1 : wakeable A1 d) by (by apply wakeable_neutral; [apply _|]).
  assert (HS1 : SchedPre A1 c) by (by apply sched_upd; [apply _|]).
  wp_step. eapply wp_mono; [by apply activate_spec|]. simpl. intros _ s2 HR2.
  assert (HS2 : SchedPre (a_activate d A1) c).
  { unfold a_activate, a_enqueue, a_push. apply sched_setq; [clear -Hne; set_solver|]. destruct HS1. split.
    - by apply unit_ok_upd.
    - apply running_cur_upd; [by left|done]. }
  wp_step. eapply wp_mono; [eapply deactivate_self_spec; [done|apply running_runnable, HS2|done]|].
  simpl. intros _ s3 HR3. unfold schedule. eapply do_schedule_spec; [done|].
  unfold a_deactivate_self. pose proof (sp_run _ _ HS2) as [-> _].
  apply unit_ok_upd; [done|]. apply HS2.
Qed.

Lemma do_send_spec O s A c d is_call is_nb :
  Rep s A -> AInv O A -> a_current A = Some c -> is_Some (a_tcbs A !! d) ->
  wp (Ipc.do_send (Some d) is_call is_nb)
     (fun r s' => let R := a_do_send c d is_call is_nb A in r = fst R /\ Rep s' (snd R)) s.
Proof.
  intros HR HI Hc Hd. pose proof (inv_sched _ _ _ HI Hc) as HS.
  pose proof (sp_run _ _ HS) as (_ & Hu & t & Ht & Hst).
  unfold Ipc.do_send, a_do_send. wp_cur HR Hc. wp_step. eapply is_ready_to_receive_spec; [done..|].
  destruct (a_ready_to_receive c d A) eqn:Er; simpl.
  - apply a_ready_inv in Er. destruct (a_state_inv _ _ _ Er) as (td & Htd & Hstd); [done|].
    assert (Hw : wakeable A d).
    { eapply inv_wakeable; [done..| |]; [congruence|]. unfold home. by rewrite Hstd. }
    assert (Hne : c <> d) by congruence.
    wp_step. eapply wp_mono; [apply copy_message_spec; by eauto|]. simpl. intros _ s1 HR1.
    set (A1 := a_copy_message c d A) in *.
    assert (Hd1 : is_Some (a_tcbs A1 !! d)) by (by apply is_Some_copy_message).
    assert (Hc1 : is_Some (a_tcbs A1 !! c)) by (apply is_Some_copy_message; by eauto).
    wp_step. eapply wp_wr; [apply _|done|done|]. intros s2 HR2.
    wp_step. eapply (wp_get tid _ _ _ 0); [done|by apply a_upd_is_Some|].
    assert (Htid : a_get A1 c tid 0 = a_get A c tid 0) by (apply a_get_copy_message; intros; apply irr_tid).
    rewrite a_get_neutral by done. rewrite Htid.
    wp_step. eapply wp_return; [done|by apply a_upd_is_Some|]. intros s3 HR3.
    set (A3 := a_return d _ _) in *.
    assert (HS3 : SchedPre A3 c).
    { unfold A3. apply sched_upd; [apply _|]. apply sched_upd; [apply _|]. by apply sched_copy_message. }
    assert (Hw3 : wakeable A3 d).
    { unfold A3. apply wakeable_neutral; [apply _|]. apply wakeable_neutral; [apply _|].
      by apply wakeable_copy_message. }
    destruct is_call; simpl.
    + by eapply do_call_spec.
    + pose proof (sp_run _ _ HS3) as (_ & _ & t3 & Ht3 & _).
      wp_step. eapply wp_return; [done|by eauto|]. intros s4 HR4.
      assert (HS4 : SchedPre (a_return c 0 A3) c) by (by apply sched_upd; [apply _|]).
      eapply activate_schedule_spec; [done|apply HS4| |].
      * by apply wakeable_neutral; [apply _|].
      * intros c' Hc'. pose proof (sp_run _ _ HS4) as [Hc4 _]. rewrite Hc4 in Hc'. injection Hc' as <-.
        apply HS4.
  - destruct is_nb.
    + wp_step. eapply wp_return; [done|by eauto|]. intros s1 HR1. by wp_steps.
    + wp_step. eapply wp_mono; [apply enqueue_send_spec; by eauto|]. simpl. intros _ s1 HR1.
      wp_step. eapply wp_wr; [apply _|done|by eauto|]. intros s2 HR2.
      eapply deactivate_self_schedule_spec; [done| | |by destruct is_call].
      * apply unit_ok_upd; [done|]. apply HI.
      * split; [done|]. eexists. split; [by apply a_upd_eq|done].
Qed.

Lemma inv_thread_id O A i :
  AInv O A -> 0 <= i < Z.of_nat max_tcbs -> exists t, a_tcbs A !! Z.to_nat i = Some t.
Proof. intros HI Hi. eapply inv_thread; [done|lia]. Qed.

Lemma sys_ipc_send_spec O s A c dest operation :
  Rep s A -> AInv O A -> a_current A = Some c -> 0 <= dest ->
  wp (Ipc.sys_ipc_send_c dest operation) (fun _ s' => Rep s' (a_sys_ipc_send c dest operation A)) s.
Proof.
  intros HR HI Hc Hdest. pose proof (inv_running _ _ _ HI Hc) as (_ & _ & t & Ht & _).
  unfold Ipc.sys_ipc_send_c, a_sys_ipc_send. destruct (Z.leb_spec (Z.of_nat max_tcbs) dest).
  { eapply wp_syscall_return_error; [done|done|by eauto|done]. }
  destruct (inv_thread_id _ _ dest HI) as [td Htd]; [lia|].
  wp_steps. eapply wp_deref; [done..|]. intros td0 _ He. unfold a_alive.
  rewrite (a_get_eq _ _ _ _ _ Htd). replace (is_thread_alive td0) with (is_thread_alive td) by (by rewrite <-He).
  destruct (is_thread_alive td); simpl.
  - wp_step. eapply wp_mono; [by eapply do_send_spec; eauto|]. simpl. intros r s1 [-> HR1].
    by apply wp_switch_to.
  - eapply wp_syscall_return_error; [done|done|by eauto|done].
Qed.

(** A sender waiting in the receiver's queue. *)
Lemma inv_sender O A c a l :
  AInv O A -> a_queue A (QSend c) = a :: l ->
  exists t, a_tcbs A !! a = Some t /\ ipc_waiting_for t = Some c /\
    (thread_state t = THREAD_STATE_WAIT_IPC_SEND \/ thread_state t = THREAD_STATE_WAIT_IPC_CALL) /\
    (forall q, a ∈ a_queue A q -> q = QSend c).
Proof.
  intros HI Hq. destruct (inv_queued _ _ a (QSend c) HI) as (t & Ht & Hh & Hn); [rewrite Hq; set_solver|].
  exists t. split; [done|].
  assert (Hsn : thread_state t = THREAD_STATE_WAIT_IPC_SEND \/ thread_state t = THREAD_STATE_WAIT_IPC_CALL).
  { revert Hh. unfold home. destruct (thread_state t); naive_solver. }
  split_and!; [|done|].
  - revert Hh. unfold home. destruct Hsn as [-> | ->]; destruct (ipc_waiting_for t); naive_solver.
  - intros q Ha. apply (pl_home _ _ (inv_placed _ _ HI) a t q Ht Hn) in Ha. congruence.
Qed.

Lemma wakeable_pop A q a l t :
  a_queue A q = a :: l -> NoDup (a_queue A q) -> (forall q', a ∈ a_queue A q' -> q' = q) ->
  a_tcbs A !! a = Some t -> thread_state t <> THREAD_STATE_RUNNABLE -> 0 <= priority t < 32 ->
  wakeable (a_pop q A) a.
Proof.
  intros Hq Hnd Honly Ht Hst Hp. split; [|by eauto]. intros q'. simpl. unfold qset.
  case_decide; subst; [|naive_solver]. rewrite Hq in *. apply NoDup_cons in Hnd as [? _]. done.
Qed.

Lemma sched_pop A c q : SchedPre A c -> SchedPre (a_pop q A) c.
Proof. apply sched_setq. intros x Hx. left. destruct (a_queue A q); [done|]. by right. Qed.

Lemma sys_ipc_recv_spec O s A c src operation :
  Rep s A -> AInv O A -> a_current A = Some c ->
  wp (Ipc.sys_ipc_recv src operation) (fun _ s' => Rep s' (a_sys_ipc_recv c src operation A)) s.
Proof.
  intros HR HI Hc. pose proof (inv_sched _ _ _ HI Hc) as HS.
  pose proof (sp_run _ _ HS) as (_ & Hu & t & Ht & _).
  destruct (rep_lookup_inv _ _ _ _ HR Ht) as (t0 & Ht0 & _).
  unfold Ipc.sys_ipc_recv, a_sys_ipc_recv. case_match.
  { eapply wp_syscall_return_error; [done|done|by eauto|done]. }
  wp_cur HR Hc. wp_step. eapply wp_rd_raw; [done|]. rewrite (rep_send _ _ HR _ _ Ht0).
  destruct (a_queue A (QSend c)) as [|a l] eqn:Eq; simpl head.
  - rewrite bool_decide_true by done. wp_step. eapply wp_wr; [apply _|done|by eauto|]. intros s1 HR1.
    eapply wp_deactivate_switch; [done| |done]. by apply sched_upd; [apply _|].
  - rewrite bool_decide_false by done.
    destruct (inv_sender _ _ _ _ _ HI Eq) as (ta & Hta & Hwf & Hst & Honly).
    assert (Hne : a <> c) by (intros ->; apply (Hu (QSend c)); rewrite Eq; set_solver).
    wp_step. eapply wp_mono; [eapply dequeue_send_spec; by eauto|]. simpl. intros _ s1 HR1.
    wp_step. eapply wp_mono; [apply copy_message_spec; simpl; by eauto|]. simpl. intros _ s2 HR2.
    set (A1 := a_pop (QSend c) A) in *. set (A2 := a_copy_message a c A1) in *.
    assert (HS2 : SchedPre A2 c) by (by apply sched_copy_message, sched_pop).
    assert (Hw2 : wakeable A2 a).
    { apply wakeable_copy_message. eapply (wakeable_pop A _ a l ta); [done| |done|done| |].
      - apply (inv_nodup _ _ HI).
      - by destruct Hst as [-> | ->].
      - by eapply (d_prio _ (inv_data _ _ HI)). }
    assert (Ha2 : a_tcbs A2 !! a = Some ta).
    { apply (copy_message_pres (fun B => a_tcbs B !! a = Some ta)); [|done].
      intros f B _ _ HB. by rewrite a_upd_ne. }
    assert (Hc2 : is_Some (a_tcbs A2 !! c)) by (apply is_Some_copy_message; simpl; by eauto).
    wp_step. eapply wp_deref; [done|exact Ha2|]. intros ta0 _ He. unfold a_state.
    rewrite (a_get_eq _ _ _ _ _ Ha2), (a_get_eq tid _ _ _ _ Ha2).
    replace (thread_state ta) with (thread_state ta0) by (by rewrite <-He).
    destruct (bool_decide (thread_state ta0 = THREAD_STATE_WAIT_IPC_CALL)).
    + wp_step. wp_step.
      { apply bool_decide_eq_true_2. by rewrite <-He in Hwf. }
      wp_step. eapply wp_wr; [apply _|done|by eauto|]. intros s3 HR3.
      replace (tid ta0) with (tid ta) by (by rewrite <-He).
      eapply wp_syscall_return_success; [done|apply HS2|by apply a_upd_is_Some|done].
    + wp_step. eapply wp_wr; [apply _|done|by eauto|]. intros s3 HR3. wp_step.
      eapply wp_return; [done|apply a_upd_is_Some; by eauto|]. intros s4 HR4.
      wp_step. eapply (wp_get tid _ _ _ 0); [done|do 2 apply a_upd_is_Some; by eauto|].
      rewrite a_get_return, a_get_neutral by done. rewrite (a_get_eq tid _ _ _ _ Ha2).
      wp_step. eapply wp_return; [done|by do 2 apply a_upd_is_Some|]. intros s5 HR5.
      eapply wp_activate_switch; [done|..].
      * do 3 (apply sched_upd; [apply _|]). done.
      * do 3 (apply wakeable_neutral; [apply _|]). done.
Qed.

(** ** Signals *)

Lemma sys_signal_poll_spec O s A c mask :
  Rep s A -> AInv O A -> a_current A = Some c ->
  wp (Signal.sys_signal_poll mask) (fun _ s' => Rep s' (a_sys_signal_poll c mask A)) s.
Proof.
  intros HR HI Hc. pose proof (inv_running _ _ _ HI Hc) as (_ & _ & t & Ht & _).
  unfold Signal.sys_signal_poll, a_sys_signal_poll. wp_cur HR Hc. wp_step.
  eapply (wp_get signals _ _ _ 0); [done|by eauto|]. wp_step.
  eapply wp_wr; [apply _|done|by eauto|]. intros s1 HR1.
  eapply wp_syscall_return_success; [done|done|apply a_upd_is_Some; by eauto|done].
Qed.

Lemma sys_signal_wait_spec O s A c mask :
  Rep s A -> AInv O A -> a_current A = Some c ->
  wp (Signal.sys_signal_wait mask) (fun _ s' => Rep s' (a_sys_signal_wait c mask A)) s.
Proof.
  intros HR HI Hc. pose proof (inv_running _ _ _ HI Hc) as (_ & _ & t & Ht & _).
  unfold Signal.sys_signal_wait, a_sys_signal_wait. wp_cur HR Hc. wp_step.
  eapply (wp_get signals _ _ _ 0); [done|by eauto|]. case_match.
  - wp_step. eapply wp_wr; [apply _|done|by eauto|]. intros s1 HR1.
    eapply wp_syscall_return_success; [done|done|apply a_upd_is_Some; by eauto|done].
  - wp_step. eapply wp_wr; [apply _|done|by eauto|]. intros s1 HR1.
    eapply wp_deactivate_switch; [done| |done]. apply sched_upd; [apply _|]. by eapply inv_sched.
Qed.

Lemma sys_signal_send_spec O s A c dest sigs :
  Rep s A -> AInv O A -> a_current A = Some c -> 0 <= dest ->
  wp (Signal.sys_signal_send dest sigs) (fun _ s' => Rep s' (a_sys_signal_send c dest sigs A)) s.
Proof.
  intros HR HI Hc Hdest. pose proof (inv_running _ _ _ HI Hc) as (_ & _ & t & Ht & Hst).
  unfold Signal.sys_signal_send, a_sys_signal_send. destruct (Z.leb_spec (Z.of_nat max_tcbs) dest).
  { eapply wp_syscall_return_error; [done|done|by eauto|done]. }
  destruct (inv_thread_id _ _ dest HI) as [td Htd]; [lia|]. set (d := Z.to_nat dest) in *.
  wp_steps. eapply wp_deref; [done..|]. intros td0 _ He. unfold a_alive, a_state.
  rewrite !(a_get_eq _ _ _ _ _ Htd). replace (is_thread_alive td0) with (is_thread_alive td) by (by rewrite <-He).
  destruct (is_thread_alive td); simpl.
  2: { eapply wp_syscall_return_error; [done|done|by eauto|done]. }
  replace (signals td0) with (signals td) by (by rewrite <-He). clear td0 He.
  wp_step. eapply wp_wr; [apply _|done|by eauto|]. intros s1 HR1.
  wp_cur HR1 Hc. wp_step. eapply wp_return; [done|apply a_upd_is_Some; by eauto|]. intros s2 HR2.
  set (pend := Z.lor (signals td) sigs) in *. set (A2 := a_return c 0 _) in *.
  assert (exists td2, a_tcbs A2 !! d = Some td2 /\ thread_state td2 = thread_state td /\
            signals td2 = pend /\ signal_mask td2 = signal_mask td /\ priority td2 = priority td)
    as (td2 & Htd2 & Hst2 & Hsg2 & Hm2 & Hp2).
  { unfold A2, a_return. destruct (decide (c = d)) as [Heq|Hne].
    - exists (set_reg 0 (u32 0) (set_signals pend td)). rewrite Heq.
      split; [by do 2 apply a_upd_eq|done].
    - exists (set_signals pend td). rewrite a_upd_ne by done. split; [by apply a_upd_eq|done]. }
  wp_step. eapply wp_deref; [done..|]. intros td3 _ He.
  replace (thread_state td3) with (thread_state td2) by (by rewrite <-He).
  replace (signals td3) with (signals td2) by (by rewrite <-He).
  replace (signal_mask td3) with (signal_mask td2) by (by rewrite <-He).
  rewrite Hst2, Hsg2, Hm2. clear td3 He. case_match eqn:Ew.
  - apply andb_prop in Ew as [Ew%bool_decide_eq_true _].
    wp_step. eapply wp_return; [done|by eauto|]. intros s3 HR3. wp_step.
    eapply wp_wr; [apply _|done|apply a_upd_is_Some; by eauto|]. intros s4 HR4.
    eapply (wp_activate_switch _ _ c); [done|..].
    + do 2 (apply sched_upd; [apply _|]). do 2 (apply sched_upd; [apply _|]). by eapply inv_sched.
    + do 4 (apply wakeable_neutral; [apply _|]). eapply inv_wakeable; [done..| |]; [congruence|].
      unfold home. by rewrite Ew.
  - unfold switch_to. wp_steps.
    rewrite <-(a_switch_self A2 (Some c)) by done. by apply rep_switch.
Qed.

(** ** Interrupts *)

Lemma rep_set_enable v s A : Rep s A -> Rep (set_irq_enable v s) (a_set_irq_enable v A).
Proof. intros []. by constructor. Qed.
Lemma rep_set_handlers v s A : Rep s A -> Rep (set_interrupt_handlers v s) (a_set_handlers v A).
Proof. intros []. by constructor. Qed.
Lemma rep_set_int_mask v s A : Rep s A -> Rep (set_priority_int_mask v s) (a_set_int_mask v A).
Proof. intros []. by constructor. Qed.

Lemma sys_interrupt_wait_spec O s A c :
  Rep s A -> AInv O A -> a_current A = Some c ->
  wp Interrupt.sys_interrupt_wait (fun _ s' => Rep s' (a_sys_interrupt_wait c A)) s.
Proof.
  intros HR HI Hc. pose proof (inv_sched _ _ _ HI Hc) as HS.
  pose proof (sp_run _ _ HS) as (_ & _ & t & Ht & _).
  unfold Interrupt.sys_interrupt_wait, a_sys_interrupt_wait. wp_cur HR Hc. wp_step.
  eapply (wp_get registered_interrupt _ _ _ 0); [done|by eauto|]. case_match.
  { eapply wp_syscall_return_error; [done|done|by eauto|done]. }
  wp_step. eapply wp_mono; [eapply deactivate_self_schedule_spec; [done|apply HS|by apply running_runnable, HS|done]|].
  simpl. intros r s1 [-> HR1].
  destruct (a_deactivate_self_schedule THREAD_STATE_WAIT_INT A) as [n A1] eqn:E. simpl in *.
  assert (Htc : a_tcbs A1 = alter (set_thread_state THREAD_STATE_WAIT_INT) c (a_tcbs A)).
  { change A1 with (snd (n, A1)). rewrite <-E. unfold a_deactivate_self_schedule, a_deactivate_self.
    rewrite Hc, a_do_schedule_tcbs. done. }
  assert (Ht1 : a_tcbs A1 !! c = Some (set_thread_state THREAD_STATE_WAIT_INT t))
    by (by rewrite Htc, lookup_alter_eq, Ht).
  wp_step. eapply wp_rd; [apply _|done..|]. rewrite (a_get_eq _ _ _ _ _ Ht). simpl.
  unfold Interrupt.arch_unmask_interrupt, Interrupt.plat_unmask_interrupt. wp_steps.
  apply wp_switch_to. rewrite (rep_irq_enable _ _ HR1). by apply rep_set_enable.
Qed.

(** The optional update of the per-priority interrupt masks. *)
Lemma wp_int_mask s A f Q :
  Rep s A ->
  (forall s', Rep s' (if multi_unit then a_set_int_mask (f (a_int_mask A)) A else A) ->
     interrupt_handlers s' = interrupt_handlers s -> Q tt s') ->
  wp (when multi_unit do modify (fun s => set_priority_int_mask (f (priority_int_mask s)) s)) Q s.
Proof.
  intros HR HQ. destruct multi_unit; wp_steps; apply HQ; try done.
  rewrite (rep_int_mask _ _ HR). by apply rep_set_int_mask.
Qed.

Lemma sys_interrupt_register_spec O s A c i :
  Rep s A -> AInv O A -> a_current A = Some c -> 0 <= i ->
  wp (Interrupt.sys_interrupt_register i) (fun _ s' => Rep s' (a_sys_interrupt_register c i A)) s.
Proof.
  intros HR HI Hc Hi. pose proof (inv_running _ _ _ HI Hc) as (_ & _ & t & Ht & _).
  unfold Interrupt.sys_interrupt_register, a_sys_interrupt_register.
  destruct (Z.leb_spec NUM_INTERRUPTS i).
  { eapply wp_syscall_return_error; [done|done|by eauto|done]. }
  pose proof (d_handlers_len _ (inv_data _ _ HI)) as Hlen.
  destruct (lookup_lt_is_Some_2 (a_handlers A) (Z.to_nat i)) as [h Hh]; [lia|].
  wp_steps. rewrite <-(rep_handlers _ _ HR). eapply wp_index; [done|done|]. rewrite Hh.
  destruct h as [h|].
  { rewrite bool_decide_true by done. eapply wp_syscall_return_error; [done|done|by eauto|done]. }
  rewrite bool_decide_false by naive_solver. wp_cur HR Hc. wp_step.
  eapply wp_deref; [done..|]. intros t0 _ He. rewrite (a_get_eq _ _ _ _ _ Ht).
  replace (registered_interrupt t0) with (registered_interrupt t) by (by rewrite <-He).
  destruct (registered_interrupt t =? Interrupt.NO_INTERRUPT); simpl.
  2: { eapply wp_syscall_return_error; [done|done|by eauto|done]. }
  replace (priority t0) with (a_prio A c) by (rewrite (a_prio_eq _ _ _ Ht); by rewrite <-He).
  wp_step. eapply (wp_int_mask _ _ (Interrupt.register_int_mask (a_prio A c) i)); [done|].
  intros s1 HR1 Hh1. set (A1 := if multi_unit then _ else _) in *.
  assert (HA1 : a_tcbs A1 = a_tcbs A /\ a_current A1 = Some c) by (unfold A1; by destruct multi_unit).
  destruct HA1 as [Htc1 Hc1].
  wp_step. apply wp_index_set; [lia|]. wp_steps.
  eapply wp_wr; [apply _|by apply rep_set_handlers| |].
  { simpl. rewrite Htc1. by eauto. }
  intros s2 HR2. wp_steps. unfold Interrupt.arch_enable_interrupt. wp_steps.
  eapply wp_syscall_return_success; [done|done| |done].
  apply a_upd_is_Some. simpl. rewrite Htc1. by eauto.
Qed.

Lemma sys_interrupt_deregister_spec O s A c i :
  Rep s A -> AInv O A -> a_current A = Some c -> 0 <= i ->
  wp (Interrupt.sys_interrupt_deregister i) (fun _ s' => Rep s' (a_sys_interrupt_deregister c i A)) s.
Proof.
  intros HR HI Hc Hi. pose proof (inv_running _ _ _ HI Hc) as (_ & _ & t & Ht & _).
  unfold Interrupt.sys_interrupt_deregister, a_sys_interrupt_deregister.
  destruct (Z.leb_spec NUM_INTERRUPTS i).
  { eapply wp_syscall_return_error; [done|done|by eauto|done]. }
  pose proof (d_handlers_len _ (inv_data _ _ HI)) as Hlen.
  destruct (lookup_lt_is_Some_2 (a_handlers A) (Z.to_nat i)) as [h Hh]; [lia|].
  wp_steps. rewrite <-(rep_handlers _ _ HR). eapply wp_index; [done|done|]. rewrite Hh.
  wp_cur HR Hc. destruct (decide (h = Some c)) as [->|Hne].
  2: { rewrite bool_decide_true by done. rewrite bool_decide_false by congruence.
       eapply wp_syscall_return_error; [done|done|by eauto|done]. }
  rewrite bool_decide_false by naive_solver. rewrite bool_decide_true by done.
  wp_step. eapply (wp_int_mask _ _ (Interrupt.deregister_int_mask i)); [done|].
  intros s1 HR1 Hh1. set (A1 := if multi_unit then _ else _) in *.
  assert (HA1 : a_tcbs A1 = a_tcbs A /\ a_current A1 = Some c) by (unfold A1; by destruct multi_unit).
  destruct HA1 as [Htc1 Hc1].
  unfold Interrupt.arch_disable_interrupt. wp_steps.
  eapply wp_wr; [apply _|done| |]. { rewrite Htc1. by eauto. }
  intros s2 HR2. wp_step. apply wp_index_set; [lia|]. wp_steps.
  eapply wp_syscall_return_success; [by apply rep_set_handlers|done| |done].
  apply (a_upd_is_Some c c). rewrite Htc1. by eauto.
Qed.

(** ** Interrupt entry *)

(** The interrupt controller reports only enabled interrupts. *)
Definition reported (status : Z) (A : akernel) : Prop :=
  is_word status /\ status <> 0 /\ Z.land status (a_irq_enable A) = status.

Lemma decode_reported status A :
  reported status A ->
  let i := Interrupt.plat_decode_interrupt status in
  0 <= i < 32 /\ Z.testbit (a_irq_enable A) i = true.
Proof.
  intros ([H0 H1] & Hne & Hsub). unfold Interrupt.plat_decode_interrupt, clz.
  destruct (Z.eqb_spec status 0); [done|]. replace (31 - (31 - Z.log2 status)) with (Z.log2 status) by lia.
  pose proof (Z.log2_nonneg status). split.
  - split; [done|]. apply Z.log2_lt_pow2; [lia|]. by unfold WORD_MOD in H1.
  - assert (Hb : Z.testbit status (Z.log2 status) = true) by (apply Z.bit_log2; lia).
    assert (Hl : Z.testbit (Z.land status (a_irq_enable A)) (Z.log2 status) = true) by (by rewrite Hsub).
    rewrite Z.land_spec in Hl. by apply andb_prop in Hl as [_ ?].
Qed.

Lemma handle_interrupt_handler O A status :
  AInv O A -> reported status A ->
  exists h t, a_handlers A !! Z.to_nat (Interrupt.plat_decode_interrupt status) = Some (Some h) /\
    a_tcbs A !! h = Some t /\ thread_state t = THREAD_STATE_WAIT_INT /\
    0 <= Interrupt.plat_decode_interrupt status < NUM_INTERRUPTS.
Proof.
  intros HI Hrep. destruct (decode_reported _ _ Hrep) as [Hi Hb]. pose proof (inv_data _ _ HI) as HD.
  destruct (d_enable _ HD _ (proj1 Hi) Hb) as (h & Hh & Hst).
  destruct (a_state_inv _ _ _ Hst) as (t & Ht & Hst'); [done|].
  exists h, t. split_and!; try done; [lia|]. apply lookup_lt_Some in Hh.
  pose proof (d_handlers_len _ HD). lia.
Qed.

Lemma c_handle_interrupt_spec O s A status :
  Rep s A -> AInv O A -> reported status A ->
  wp (Interrupt.c_handle_interrupt status) (fun _ s' => Rep s' (a_handle_interrupt status A)) s.
Proof.
  intros HR HI Hrep.
  destruct (handle_interrupt_handler _ _ _ HI Hrep) as (h & t & Hh & Ht & Hst & Hi).
  unfold Interrupt.c_handle_interrupt, a_handle_interrupt. set (i := Interrupt.plat_decode_interrupt status) in *.
  rewrite Hh. wp_step. wp_step.
  { apply andb_true_intro. split; apply Z.leb_le; lia. }
  wp_steps. rewrite <-(rep_handlers _ _ HR). eapply wp_index; [lia|done|]. wp_steps; [done|].
  eapply wp_rd; [apply _|done..|]. rewrite Hst. wp_steps; [done|].
  unfold Interrupt.plat_mask_interrupt. wp_steps. rewrite (rep_irq_enable _ _ HR).
  eapply wp_return; [by apply rep_set_enable|by eauto|]. intros s1 HR1.
  assert (Hw : wakeable A h).
  { eapply inv_wakeable; [done|done|congruence|]. unfold home. by rewrite Hst. }
  wp_step. eapply wp_mono; [eapply activate_schedule_spec; [done| | |]|].
  - apply unit_ok_upd; [done|]. apply HI.
  - by apply (wakeable_neutral (a_set_irq_enable _ A)).
  - intros c Hc. apply (running_cur_upd _ _ (a_set_irq_enable _ A)); [by right|].
    apply (inv_running _ _ _ HI) in Hc as (? & ? & ?). by split.
  - simpl. intros r s2 [-> HR2]. by apply wp_switch_to.
Qed.

(** ** Threads *)

Lemma dequeue_free_spec s A a l :
  Rep s A -> a_queue A QFree = a :: l ->
  wp (Thread.dequeue_free (Some a)) (fun _ s' => Rep s' (a_pop QFree A)) s.
Proof.
  intros HR Eq. pose proof (rep_links _ _ HR) as HL.
  destruct (rep_ring_head _ _ QFree a l HR eq_refl Eq) as (t & Ht & Hn & Hpv).
  unfold Thread.dequeue_free. wp_step. eapply wp_deref_raw; [done|]. rewrite Hn, Hpv.
  unfold a_pop. rewrite Eq. simpl tail.
  pose proof (lk_nodup _ _ HL QFree) as Hnd. rewrite Eq in Hnd.
  destruct l as [|x r]; cbn [head hd_error from_option id] in *.
  - rewrite bool_decide_true by done. wp_steps. apply wp_wr_raw; [solve_dom|]. 
    apply wp_wr_raw; [solve_dom|].
    apply (rep_set_free s A [] (alter (set_prev None) a (alter (set_next None) a (tcbs s))) HR);
      [by eauto with links|].
    eapply (links_remove_last _ _ _ _ a); try done; try (intros x Hx; split); solve_link; solve_dom.
  - apply NoDup_cons in Hnd as [Hna Hnd].
    assert (Hax : a <> x) by (intros ->; apply Hna; set_solver).
    set (z := default a (last (x :: r))) in *.
    assert (Hz : z = default x (last r)) by (unfold z; rewrite last_cons; by destruct (last r)).
    assert (Hzin : z ∈ x :: r) by (rewrite Hz; apply default_last_in).
    assert (Haz : a <> z) by (intros Heq; apply Hna; by rewrite Heq).
    rewrite bool_decide_false by congruence.
    assert (Hdx : is_Some (tcbs s !! x)).
    { apply (rep_queue_dom _ _ QFree _ HR). rewrite Eq. set_solver. }
    assert (Hdz : is_Some (tcbs s !! z)).
    { apply (rep_queue_dom _ _ QFree _ HR). rewrite Eq. set_solver. }
    wp_steps. apply wp_wr_raw; [solve_dom|]. apply wp_wr_raw; [solve_dom|]. wp_steps.
    apply wp_wr_raw; [solve_dom|]. apply wp_wr_raw; [solve_dom|].
    apply (rep_set_free s A (x :: r) (alter (set_prev None) a (alter (set_next None) a
        (alter (set_next (Some x)) z (alter (set_prev (Some z)) x (tcbs s))))) HR);
      [by eauto 10 with links|].
    apply (links_remove _ _ _ QFree [] a (x :: r) x z HL); try done;
      try (intros y Hy1 Hy2); solve_link; try solve_dom.
    + unfold nxt. by rewrite Ht, <-Hn.
    + unfold prv. by rewrite Ht, <-Hpv.
Qed.

Lemma thread_reap_spec s A a t :
  Rep s A -> a_tcbs A !! a = Some t -> thread_state t = THREAD_STATE_ZOMBIE -> unqueued A a ->
  wp (Thread.thread_reap (Some a)) (fun _ s' => Rep s' (a_reap a A)) s.
Proof.
  intros HR Ha Hst Hunq. unfold Thread.thread_reap, a_reap. wp_step.
  eapply wp_rd; [apply _|done..|]. rewrite Hst. wp_steps; [done|].
  eapply wp_wr; [apply _|done|by eauto|]. intros s1 HR1.
  destruct (rep_lookup_inv _ _ _ _ HR1 (a_upd_eq _ _ _ _ Ha)) as (t1 & Ht1 & _).
  set (A1 := a_upd a _ A) in *. assert (Hunq1 : unqueued A1 a) by done. clearbody A1.
  wp_steps. rewrite (rep_free _ _ HR1). pose proof (rep_links _ _ HR1) as HL. unfold a_push_front.
  destruct (a_queue A1 QFree) as [|h l] eqn:Eq; simpl head.
  - rewrite bool_decide_true by done. wp_steps. apply wp_wr_raw; [solve_dom|]. apply wp_wr_raw; [solve_dom|].
    apply (rep_set_free s1 A1 [a] (alter (set_prev (Some a)) a (alter (set_next (Some a)) a (tcbs s1))) HR1);
      [by eauto with links|].
    eapply links_push_empty; [done|done|done|done|..]; solve_link. intros x Hx. split; solve_link.
  - rewrite bool_decide_false by done.
    destruct (rep_ring_head _ _ QFree h l HR1 eq_refl Eq) as (th & Hth & Hhn & Hhp).
    wp_step. eapply wp_rd_raw; [done|]. rewrite Hhp. set (z := default h (last l)) in *.
    assert (Hzp : prv (tcbs s1) h = Some (Some z)) by (unfold prv; by rewrite Hth, <-Hhp).
    assert (Hzin : z ∈ a_queue A1 QFree) by (rewrite Eq; apply default_last_in).
    assert (Hah : a <> h) by (intros ->; apply (Hunq1 QFree); rewrite Eq; set_solver).
    assert (Haz : a <> z) by (intros ->; by apply (Hunq1 QFree)).
    destruct (links_elem _ _ QFree z HL Hzin) as [tz Htz].
    wp_step. apply wp_wr_raw; [solve_dom|]. wp_step. apply wp_wr_raw; [solve_dom|]. wp_step.
    apply wp_wr_raw; [solve_dom|]. wp_step. apply wp_wr_raw; [solve_dom|]. wp_steps.
    apply (rep_set_free s1 A1 (a :: h :: l) (alter (set_prev (Some z)) a (alter (set_next (Some h)) a
        (alter (set_prev (Some a)) h (alter (set_next (Some a)) z (tcbs s1))))) HR1);
      [by eauto 10 with links|].
    eapply (links_push _ _ _ _ a h l z); try done; try (intros x Hx1 Hx2); solve_link; solve_dom.
Qed.

Lemma unit_ok_upd_ne a f A : a_current A <> Some a -> unit_ok A -> unit_ok (a_upd a f A).
Proof.
  intros Hne [Hwf Hu]. split; [exact Hwf|]. simpl. destruct (a_current A) as [c|]; [|done].
  rewrite lookup_alter_ne by congruence. done.
Qed.

Lemma sched_upd_ne A c a f : a <> c -> SchedPre A c -> SchedPre (a_upd a f A) c.
Proof.
  intros Hne [Hu Hrun]. split; [|apply running_cur_upd; [by left|done]].
  apply unit_ok_upd_ne; [|done]. destruct Hrun as [-> _]. congruence.
Qed.

(** A free TCB is halted and only on the free list. *)
Lemma inv_free O A a l :
  AInv O A -> a_queue A QFree = a :: l ->
  exists t, a_tcbs A !! a = Some t /\ thread_state t = THREAD_STATE_HALTED /\
    (forall q, a ∈ a_queue A q -> q = QFree).
Proof.
  intros HI Hq. destruct (inv_queued _ _ a QFree HI) as (t & Ht & Hh & Hn); [rewrite Hq; set_solver|].
  exists t. split_and!; [done| |].
  - revert Hh. unfold home. destruct (thread_state t); try done; destruct (ipc_waiting_for t); done.
  - intros q Ha. apply (pl_home _ _ (inv_placed _ _ HI) a t q Ht Hn) in Ha. congruence.
Qed.

Lemma a_init_thread_sched n pc sp r0 prio A c :
  n <> c -> SchedPre A c -> SchedPre (a_init_thread n pc sp r0 prio A) c.
Proof. intros. unfold a_init_thread. by repeat (apply sched_upd_ne; [done|]). Qed.

Lemma a_init_thread_wakeable n pc sp r0 prio A :
  wakeable A n -> 0 <= prio < 32 -> wakeable (a_init_thread n pc sp r0 prio A) n.
Proof.
  intros (Hu & t & Ht & Hst & _) Hp. split; [done|]. unfold a_init_thread.
  eexists. split; [do 6 apply a_upd_eq; done|done].
Qed.

Lemma sys_thread_create_spec O s A c pc sp r0 prio :
  Rep s A -> AInv O A -> a_current A = Some c -> 0 <= prio ->
  wp (Thread.sys_thread_create pc sp r0 prio)
     (fun _ s' => Rep s' (a_sys_thread_create c pc sp r0 prio A)) s.
Proof.
  intros HR HI Hc Hp. pose proof (inv_sched _ _ _ HI Hc) as HS.
  pose proof (sp_run _ _ HS) as (_ & Hu & t & Ht & _).
  unfold Thread.sys_thread_create, a_sys_thread_create.
  destruct (Z.ltb_spec MAX_PRIORITY prio) as [|Hp'].
  { eapply wp_syscall_return_error; [done|done|by eauto|done]. }
  assert (Hp32 : 0 <= prio < 32) by (unfold MAX_PRIORITY in Hp'; lia).
  wp_steps. rewrite (rep_free _ _ HR). destruct (a_queue A QFree) as [|n l] eqn:Eq; simpl head.
  { rewrite bool_decide_true by done. eapply wp_syscall_return_error; [done|done|by eauto|done]. }
  rewrite bool_decide_false by done.
  destruct (inv_free _ _ _ _ HI Eq) as (tn & Htn & Hst & Honly).
  assert (Hne : n <> c) by (intros ->; apply (Hu QFree); rewrite Eq; set_solver).
  wp_step. eapply wp_mono; [by eapply dequeue_free_spec|]. simpl. intros _ s1 HR1.
  set (A1 := a_pop QFree A) in *.
  assert (Hd : forall B, a_tcbs B = a_tcbs A1 -> is_Some (a_tcbs B !! n)) by (intros B ->; by eauto).
  wp_step. eapply wp_rd; [apply _|done|exact Htn|]. rewrite Hst. wp_steps; [done|].
  eapply wp_wr; [apply _|done|by auto|]. intros s2 HR2. wp_step.
  eapply wp_wr; [apply _|done|by eauto with links|]. intros s3 HR3. wp_step.
  eapply wp_wr; [apply _|done|by eauto with links|]. intros s4 HR4. wp_step.
  eapply wp_wr; [apply _|done|by eauto with links|]. intros s5 HR5. wp_step.
  unfold Thread.pre_create_thread_callbacks, Signal.sys_signal_pre_thread_create_callback.
  wp_step. wp_step. eapply wp_wr; [apply _|done|by eauto 10 with links|]. intros s6 HR6.
  eapply wp_wr; [apply _|done|by eauto 10 with links|]. intros s7 HR7.
  unfold Ipc.sys_ipc_pre_thread_create_callback. wp_steps.
  change (Rep s7 (a_init_thread n pc sp r0 prio A1)) in HR7. set (A2 := a_init_thread _ _ _ _ _ A1) in *.
  assert (HS2 : SchedPre A2 c) by (by apply a_init_thread_sched, sched_pop).
  eapply wp_mono; [eapply activate_schedule_spec; [done|apply HS2| |]|].
  - apply a_init_thread_wakeable; [|done]. eapply (wakeable_pop A QFree n l tn); try done.
    + apply (inv_nodup _ _ HI).
    + by rewrite Hst.
    + by eapply (d_prio _ (inv_data _ _ HI)).
  - intros c' Hc'. pose proof (sp_run _ _ HS2) as [Hc2 _]. rewrite Hc2 in Hc'. injection Hc' as <-.
    apply HS2.
  - simpl. intros r s8 [-> HR8]. unfold Thread.post_create_thread_callbacks,
      Ipc.sys_ipc_post_thread_create_callback, Signal.sys_signal_post_thread_create_callback. wp_steps.
    assert (HA3 : a_current (snd (a_activate_schedule n A2)) = Some c /\
      (forall x, is_Some (a_tcbs A2 !! x) -> is_Some (a_tcbs (snd (a_activate_schedule n A2)) !! x))).
    { rewrite a_activate_schedule_current, a_activate_schedule_tcbs.
      split; [apply HS2|]. intros x. apply is_Some_alter. }
    destruct (a_activate_schedule n A2) as [nx A3]. simpl in *. destruct HA3 as [Hc3 Hd3].
    rewrite <-(rep_current _ _ HR8), Hc3.
    eapply (wp_get tid _ _ _ 0); [done|apply Hd3; unfold A2, a_init_thread; by eauto 10 with links|].
    wp_step. eapply wp_return; [done| |].
    + apply Hd3. pose proof (sp_run _ _ HS2) as (_ & _ & ? & ? & _). by eauto.
    + intros s9 HR9. by apply wp_switch_to.
Qed.

(** The deletion callback deregisters the thread's interrupt. *)
Lemma drop_interrupt_spec O s A c :
  Rep s A -> AInv O A -> a_current A = Some c ->
  wp (Thread.pre_delete_thread_callbacks (Some c)) (fun _ s' => Rep s' (a_drop_interrupt c A)) s.
Proof.
  intros HR HI Hc. pose proof (inv_running _ _ _ HI Hc) as (_ & _ & t & Ht & _).
  unfold Thread.pre_delete_thread_callbacks, Signal.sys_signal_pre_thread_delete_callback,
    Ipc.sys_ipc_pre_thread_delete_callback, Interrupt.sys_interrupt_pre_thread_delete_callback,
    a_drop_interrupt. wp_steps.
  eapply wp_rd; [apply _|done..|]. rewrite (a_get_eq _ _ _ _ _ Ht).
  destruct (Z.eqb_spec (registered_interrupt t) Interrupt.NO_INTERRUPT) as [|Hne]; simpl; [by wp_steps|].
  destruct (d_reg _ (inv_data _ _ HI) _ _ Ht Hne) as [Hr Hh].
  unfold Interrupt.arch_disable_interrupt. wp_steps. rewrite <-(rep_handlers _ _ HR).
  apply wp_index_set; [apply lookup_lt_Some in Hh; lia|]. wp_steps.
  eapply wp_wr; [apply _|by apply rep_set_handlers|by eauto|done].
Qed.

Lemma a_drop_interrupt_ind (P : akernel -> Prop) c A :
  (forall h, P A -> P (a_set_handlers h A)) ->
  (forall B, P B -> P (a_upd c (set_registered_interrupt Interrupt.NO_INTERRUPT) B)) ->
  P A -> P (a_drop_interrupt c A).
Proof. intros H1 H2 HP. unfold a_drop_interrupt. case_match; auto. Qed.

Lemma drop_interrupt_sched A c a : SchedPre A c -> SchedPre (a_drop_interrupt a A) c.
Proof.
  apply (a_drop_interrupt_ind (fun B => SchedPre B c)).
  - by intros h [].
  - intros B. apply sched_upd. apply _.
Qed.

Lemma drop_interrupt_wakeable A c a : wakeable A a -> wakeable (a_drop_interrupt c A) a.
Proof.
  apply (a_drop_interrupt_ind (fun B => wakeable B a)).
  - done.
  - intros B. apply wakeable_neutral. apply _.
Qed.

(** A joined thread is reaped and its joiner woken. *)
Lemma exit_joiner_spec s A c j t :
  Rep s A -> a_tcbs A !! c = Some t -> thread_state t = THREAD_STATE_ZOMBIE -> joiner t = Some j ->
  unqueued A c -> unit_ok A -> wakeable A j -> j <> c ->
  wp (do! Thread.thread_reap (Some c) in
      let! j' := rd (Some c) joiner in
      do! activate j' in
      wr (Some c) (set_joiner None))
    (fun _ s' => let B := a_upd c (set_joiner None) (a_activate j (a_reap c A)) in
                 Rep s' B /\ unit_ok B) s.
Proof.
  intros HR Ht Hst Hj Hu Hunit Hw Hne. wp_step.
  eapply wp_mono; [by eapply thread_reap_spec|]. simpl. intros _ s3 HR3.
  wp_step. eapply wp_rd; [apply _|done|by apply (a_upd_eq c _ A)|]. simpl. rewrite Hj.
  assert (Hw1 : wakeable (a_reap c A) j).
  { apply (wakeable_upd c (set_thread_state THREAD_STATE_HALTED)) in Hw as [Hq Hx]; [|by left].
    split; [|exact Hx]. intros q. unfold a_reap, a_push_front. simpl. unfold qset.
    case_decide; subst; [|apply Hq]. rewrite elem_of_cons. intros [|Hin]; [done|by eapply Hq]. }
  wp_step. eapply wp_mono; [by apply activate_spec|]. simpl. intros _ s4 HR4.
  eapply wp_wr; [apply _|done| |].
  - unfold a_activate, a_enqueue, a_push, a_reap, a_push_front. simpl. do 2 apply is_Some_alter. by eauto.
  - intros s5 HR5. split; [done|]. apply unit_ok_upd; [done|].
    unfold a_activate, a_enqueue, a_push. apply (unit_ok_upd j (set_thread_state THREAD_STATE_RUNNABLE)); [done|].
    by apply (unit_ok_upd c (set_thread_state THREAD_STATE_HALTED)).
Qed.

Lemma sys_thread_exit_spec O s A c :
  Rep s A -> AInv O A -> a_current A = Some c ->
  wp Thread.sys_thread_exit (fun _ s' => Rep s' (a_sys_thread_exit c A)) s.
Proof.
  intros HR HI Hc. pose proof (inv_sched _ _ _ HI Hc) as HS.
  pose proof (sp_run _ _ HS) as (_ & Hu & t & Ht & Hst).
  unfold Thread.sys_thread_exit, a_sys_thread_exit. wp_cur HR Hc. wp_step.
  eapply wp_mono; [by eapply drop_interrupt_spec|]. simpl. intros _ s1 HR1.
  assert (HS1 : SchedPre (a_drop_interrupt c A) c) by (by apply drop_interrupt_sched).
  assert (Hj1 : a_get (a_drop_interrupt c A) c joiner None = joiner t).
  { rewrite <-(a_get_eq joiner None _ _ _ Ht).
    apply (a_drop_interrupt_ind (fun B => a_get B c joiner None = a_get A c joiner None)); try done.
    intros B <-. by apply a_get_neutral. }
  rewrite (a_get_eq _ _ _ _ _ Ht).
  assert (Hw : forall j, joiner t = Some j -> wakeable (a_drop_interrupt c A) j /\ j <> c).
  { intros j Hj. destruct (d_join _ (inv_data _ _ HI) _ _ _ Ht Hj) as [Hsj _].
    destruct (a_state_inv _ _ _ Hsj) as (tj & Htj & Hstj); [done|]. split; [|congruence].
    apply drop_interrupt_wakeable. eapply inv_wakeable; [done|done|congruence|]. unfold home. by rewrite Hstj. }
  set (A1 := a_drop_interrupt c A) in *. clearbody A1.
  pose proof (sp_run _ _ HS1) as (Hc1 & Hu1 & t1 & Ht1 & _). rewrite (a_get_eq _ _ _ _ _ Ht1) in Hj1.
  wp_step. eapply wp_mono; [eapply deactivate_self_spec; [done|apply running_runnable, HS1|done]|].
  simpl. intros _ s2 HR2. unfold a_deactivate_self in HR2. rewrite Hc1 in HR2.
  set (A2 := a_upd c (set_thread_state THREAD_STATE_ZOMBIE) A1) in *.
  assert (Hu2 : unit_ok A2) by (apply unit_ok_upd; [done|apply HS1]).
  unfold Thread.post_delete_thread_callbacks, Ipc.sys_ipc_post_thread_delete_callback,
    Signal.sys_signal_post_thread_delete_callback. wp_steps.
  assert (Ht2 : a_tcbs A2 !! c = Some (set_thread_state THREAD_STATE_ZOMBIE t1)) by (by apply a_upd_eq).
  eapply wp_rd; [apply _|done..|]. simpl. rewrite Hj1. destruct (joiner t) as [j|].
  - rewrite bool_decide_true by done. destruct (Hw j eq_refl) as [Hwj Hne].
    wp_step. eapply wp_mono; [eapply exit_joiner_spec; [done|done|done|done|done|done| |done]|].
    + by apply wakeable_upd; [left|].
    + simpl. intros _ s3 [HR3 Hu3]. wp_step. unfold schedule.
      eapply wp_mono; [by eapply do_schedule_spec|]. simpl. intros r s4 [-> HR4]. by apply wp_switch_to.
  - rewrite bool_decide_false by naive_solver. wp_steps. unfold schedule.
    eapply wp_mono; [by eapply do_schedule_spec|]. simpl. intros r s3 [-> HR3]. by apply wp_switch_to.
Qed.

Lemma sys_thread_join_spec O s A c i :
  Rep s A -> AInv O A -> a_current A = Some c -> 0 <= i ->
  wp (Thread.sys_thread_join i) (fun _ s' => Rep s' (a_sys_thread_join c i A)) s.
Proof.
  intros HR HI Hc Hi. pose proof (inv_sched _ _ _ HI Hc) as HS.
  pose proof (sp_run _ _ HS) as (_ & _ & t & Ht & _).
  unfold Thread.sys_thread_join, a_sys_thread_join. destruct (Z.leb_spec (Z.of_nat max_tcbs) i).
  { eapply wp_syscall_return_error; [done|done|by eauto|done]. }
  destruct (inv_thread_id _ _ i HI) as [td Htd]; [lia|]. set (d := Z.to_nat i) in *.
  wp_steps. eapply wp_deref; [done..|]. intros td0 _ He. unfold a_state.
  rewrite !(a_get_eq _ _ _ _ _ Htd).
  replace (thread_state td0) with (thread_state td) by (by rewrite <-He).
  replace (joiner td0) with (joiner td) by (by rewrite <-He). clear td0 He.
  case_bool_decide as Hh. { eapply wp_syscall_return_error; [done|done|by eauto|done]. }
  case_bool_decide as Hz.
  - assert (Hw : wakeable A d).
    { eapply inv_wakeable; [done|done|congruence|]. unfold home. by rewrite Hz. }
    wp_step. eapply wp_mono; [eapply thread_reap_spec; [done..|apply Hw]|]. simpl. intros _ s1 HR1.
    eapply wp_syscall_return_success; [done|done| |done]. simpl. apply is_Some_alter. by eauto.
  - case_bool_decide. { eapply wp_syscall_return_error; [done|done|by eauto|done]. }
    wp_cur HR Hc. wp_step. eapply wp_return; [done|by eauto|]. intros s1 HR1.
    assert (HS1 : SchedPre (a_return c 0 A) c) by (by apply sched_upd; [apply _|]).
    wp_step. eapply wp_mono; [eapply deactivate_self_schedule_spec; [done|apply HS1|by apply running_runnable, HS1|done]|].
    simpl. intros r s2 [-> HR2].
    assert (Hd2 : is_Some (a_tcbs (snd (a_deactivate_self_schedule THREAD_STATE_WAIT_JOIN (a_return c 0 A))) !! d)).
    { unfold a_deactivate_self_schedule, a_deactivate_self. rewrite a_do_schedule_tcbs. simpl. rewrite Hc.
      apply a_upd_is_Some, a_upd_is_Some. by eauto. }
    destruct (a_deactivate_self_schedule _ _) as [n A2]. simpl in *.
    wp_step. eapply wp_wr; [apply _|done|done|]. intros s3 HR3. by apply wp_switch_to.
Qed.

Lemma sys_thread_myself_spec O s A c :
  Rep s A -> AInv O A -> a_current A = Some c ->
  wp Thread.sys_thread_myself (fun _ s' => Rep s' (a_sys_thread_myself c A)) s.
Proof.
  intros HR HI Hc. pose proof (inv_running _ _ _ HI Hc) as (_ & _ & t & Ht & _).
  unfold Thread.sys_thread_myself, a_sys_thread_myself. wp_cur HR Hc. wp_step.
  eapply (wp_get tid _ _ _ 0); [done|by eauto|].
  eapply wp_syscall_return_success; [done|done|by eauto|done].
Qed.

End refine_sys.
