(* ===== verification/NanoInvPres.v ===== *)
(** * The nanokernel invariant is preserved by every system call

    Stated on the specifications of [NanoSpec]: from an abstract kernel that
    satisfies [AInv], every system call and every interrupt leads to one that
    satisfies it.  The first part has the scheduling lemmas all calls share:
    what a thread switch, a wake-up and a blocking call do to the
    invariant. *)

From Stdlib Require Import Sorting.Sorted.
From S2P Require Import Prelude NanoState NanoSchedule NanoSyscalls NanoSpec Rings NanoLinks NanoRep NanoRefineSched NanoInv NanoRefineFutex NanoRefineSys.
#[local] Open Scope Z_scope.

Section inv_pres.
Context {cfg : NanoConfig}.
Implicit Types (A B : akernel) (O F : gset nat).

(** ** Placement with duplicate-free queues *)

Record Queued (F : gset nat) (A : akernel) : Prop := {
  qd_placed : Placed F A;
  qd_nodup : forall q, NoDup (a_queue A q)
}.

Lemma nodup_qset q l Q : NoDup l -> (forall q, NoDup (Q q)) -> forall q' : qid, NoDup (qset q l Q q').
Proof. intros Hl HQ q'. unfold qset. by case_decide. Qed.

Lemma queued_same F A A' :
  Queued F A -> a_tcbs A' = a_tcbs A -> (forall q, a_queue A' q = a_queue A q) -> Queued F A'.
Proof. intros [HP Hnd] Ht Hq. split; [by eapply placed_same|]. intros q. by rewrite Hq. Qed.

Lemma queued_set F F' A : (forall x, x ∈ F <-> x ∈ F') -> Queued F A -> Queued F' A.
Proof. intros Hx [HP Hnd]. split; [by eapply placed_set|done]. Qed.

Lemma queued_upd F A a f :
  a ∈ F \/ (forall t, home (f t) = home t) -> Queued F A -> Queued F (a_upd a f A).
Proof. intros Hf [HP Hnd]. split; [by apply placed_upd|done]. Qed.

Lemma queued_unqueued F A a : Queued F A -> a ∈ F -> unqueued A a.
Proof. intros [HP _] Ha. by apply (pl_float _ _ HP). Qed.

Lemma queued_settle F A a t q l' :
  Queued F A -> a ∈ F -> a_tcbs A !! a = Some t -> home t = Some q -> NoDup l' ->
  (forall x, x ∈ l' <-> x = a \/ x ∈ a_queue A q) -> Queued (F ∖ {[a]}) (a_setq q l' A).
Proof. intros [HP Hnd] Ha Ht Hh Hl Hx. split; [by eapply placed_settle|by apply nodup_qset]. Qed.

Lemma queued_push F A a t q :
  Queued F A -> a ∈ F -> a_tcbs A !! a = Some t -> home t = Some q -> Queued (F ∖ {[a]}) (a_push q a A).
Proof.
  intros HQ Ha Ht Hh. eapply queued_settle; [done..| |set_solver].
  apply NoDup_app. split_and!; [apply HQ| |apply NoDup_singleton].
  intros x Hx ->%list_elem_of_singleton. by eapply queued_unqueued.
Qed.

Lemma queued_push_front F A a t q :
  Queued F A -> a ∈ F -> a_tcbs A !! a = Some t -> home t = Some q -> Queued (F ∖ {[a]}) (a_push_front q a A).
Proof.
  intros HQ Ha Ht Hh. eapply queued_settle; [done..| |set_solver].
  apply NoDup_cons. split; [by eapply queued_unqueued|apply HQ].
Qed.

Lemma queued_settle_none F A a t :
  Queued F A -> a ∈ F -> a_tcbs A !! a = Some t -> home t = None -> Queued (F ∖ {[a]}) A.
Proof. intros [HP Hnd] Ha Ht Hh. split; [by eapply placed_settle_none|done]. Qed.

Lemma queued_float_none F A a t :
  Queued F A -> a ∉ F -> a_tcbs A !! a = Some t -> home t = None -> Queued (F ∪ {[a]}) A.
Proof. intros [HP Hnd] Ha Ht Hh. split; [by eapply placed_float_none|done]. Qed.

Lemma queued_remove F A a q : Queued F A -> a ∈ a_queue A q -> Queued (F ∪ {[a]}) (a_remove q a A).
Proof.
  intros [HP Hnd] Ha. split.
  - apply placed_remove; [done|done|]. intros x. rewrite list_elem_of_filter. done.
  - apply nodup_qset; [|done]. apply NoDup_filter, Hnd.
Qed.

Lemma queued_pop F A a l q : Queued F A -> a_queue A q = a :: l -> Queued (F ∪ {[a]}) (a_pop q A).
Proof.
  intros [HP Hnd] Hq. pose proof (Hnd q) as Hn. rewrite Hq in Hn. apply NoDup_cons in Hn as [Ha Hn].
  split.
  - apply placed_remove; [done|rewrite Hq; set_solver|]. rewrite Hq. simpl. intros x. set_solver.
  - apply nodup_qset; [|done]. by rewrite Hq.
Qed.

Lemma queued_enqueue F A a t :
  Queued F A -> a ∈ F -> a_tcbs A !! a = Some t -> thread_state t = THREAD_STATE_RUNNABLE ->
  Queued (F ∖ {[a]}) (a_enqueue a A).
Proof.
  intros HQ Ha Ht Hst. eapply queued_push; [done..|]. unfold home. rewrite Hst.
  by rewrite (a_prio_eq _ _ _ Ht).
Qed.

Lemma queued_activate F A a : Queued F A -> a ∈ F -> Queued (F ∖ {[a]}) (a_activate a A).
Proof.
  intros HQ HF. destruct (pl_float _ _ (qd_placed _ _ HQ) a HF) as [_ [t Ht]]. unfold a_activate.
  eapply queued_enqueue; [apply queued_upd; by auto|done|by apply a_upd_eq|done].
Qed.

Lemma queued_smt F A : Queued F A -> Queued F (a_smt_reschedule A).
Proof. intros HQ. eapply queued_same; [done|apply a_smt_tcbs|]. intros. by rewrite a_smt_queue. Qed.
Lemma queued_unit F p A : Queued F A -> Queued F (a_set_unit_priority p A).
Proof. intros HQ. eapply queued_same; [done|apply a_unit_tcbs|]. intros. by rewrite a_unit_queue. Qed.

Lemma queued_do_schedule F A :
  Queued F A -> Queued (F ∪ pset (fst (a_do_schedule A))) (snd (a_do_schedule A)).
Proof.
  intros HQ. unfold a_do_schedule. destruct (a_highest A) as [p|] eqn:E; simpl.
  - destruct (a_highest_Some _ _ E) as (_ & Hq & _). apply queued_smt, queued_unit.
    destruct (a_queue A (QReady p)) as [|a l] eqn:Eq; [done|]. simpl. by eapply queued_pop.
  - rewrite union_empty_r_L. by apply queued_unit.
Qed.

(** ** Execution units *)

(** The unit entry of thread [p] is what the next invariant requires. *)
Lemma unit_ok_switch A a t :
  units_wf A -> a_tcbs A !! a = Some t -> 0 <= priority t < 32 ->
  unit_ok (a_switch_to (Some a) (a_set_unit_priority (priority t) A)).
Proof.
  intros Hwf Ht Hp. unfold a_set_unit_priority, unit_ok, units_wf in *. simpl.
  destruct multi_unit eqn:Em; simpl.
  - destruct (Hwf eq_refl) as [Hl Hu]. split; [intros _; by rewrite length_insert|].
    exists t. split; [done|]. split; [done|]. intros _.
    rewrite list_lookup_insert_eq by lia. by rewrite Z.mod_small by lia.
  - split; [done|]. by exists t.
Qed.

Lemma unit_ok_switch_idle A : units_wf A -> unit_ok (a_switch_to None (a_set_unit_priority (-1) A)).
Proof.
  intros Hwf. unfold a_set_unit_priority, unit_ok, units_wf in *. simpl.
  destruct multi_unit eqn:Em; simpl; [|done].
  destruct (Hwf eq_refl) as [Hl Hu]. split; [intros _; by rewrite length_insert|].
  intros _. by rewrite list_lookup_insert_eq by lia.
Qed.

Lemma unit_ok_smt p A : unit_ok (a_switch_to p A) -> unit_ok (a_switch_to p (a_smt_reschedule A)).
Proof. unfold a_smt_reschedule. by destruct (_ && _). Qed.

(** ** Scheduling *)

Lemma home_ready t p : home t = Some (QReady p) -> thread_state t = THREAD_STATE_RUNNABLE /\ priority t = p.
Proof. unfold home. destruct (thread_state t), (ipc_waiting_for t); naive_solver. Qed.

Definition prios_ok (A : akernel) : Prop := forall a t, a_tcbs A !! a = Some t -> 0 <= priority t < 32.

Lemma schedule_next F A :
  Queued F A -> prios_ok A -> units_wf A ->
  unit_ok (a_switch_to (fst (a_do_schedule A)) (snd (a_do_schedule A))) /\
  (forall a, fst (a_do_schedule A) = Some a -> a ∉ F /\ a_state A a = THREAD_STATE_RUNNABLE).
Proof.
  intros HQ Hpr Hwf. unfold a_do_schedule. destruct (a_highest A) as [p|] eqn:E; simpl.
  - destruct (a_highest_Some _ _ E) as (_ & Hq & _).
    destruct (a_queue A (QReady p)) as [|a l] eqn:Eq; [done|]. simpl.
    assert (Ha : a ∈ a_queue A (QReady p)) by (rewrite Eq; set_solver).
    pose proof (qd_placed _ _ HQ) as HP. pose proof (placed_not_float _ _ _ _ HP Ha) as HaF.
    destruct (pl_dom _ _ HP _ _ Ha) as [t Ht].
    apply (pl_home _ _ HP a t _ Ht HaF), home_ready in Ha as [Hst Hpa]. split.
    + apply unit_ok_smt. rewrite <-Hpa. apply (unit_ok_switch (a_pop (QReady (priority t)) A)); [done|done|by eapply Hpr].
    + intros b [= <-]. split; [done|]. by rewrite (a_state_eq _ _ _ Ht).
  - split; [by apply unit_ok_switch_idle|done].
Qed.

(** *** Priorities *)

Lemma ready_range F A p :
  Queued F A -> prios_ok A -> a_queue A (QReady p) <> [] -> 0 <= p < 32.
Proof.
  intros HQ Hpr Hq. destruct (a_queue A (QReady p)) as [|a l] eqn:Eq; [done|].
  assert (Ha : a ∈ a_queue A (QReady p)) by (rewrite Eq; set_solver).
  pose proof (qd_placed _ _ HQ) as HP. pose proof (placed_not_float _ _ _ _ HP Ha) as HaF.
  destruct (pl_dom _ _ HP _ _ Ha) as [t Ht].
  apply (pl_home _ _ HP a t _ Ht HaF), home_ready in Ha as [_ <-]. by eapply Hpr.
Qed.

(** The scheduler's choice is a best one. *)
Lemma top_schedule F A :
  Queued F A -> prios_ok A -> top_ok (a_switch_to (fst (a_do_schedule A)) (snd (a_do_schedule A))).
Proof.
  intros HQ Hpr p Hp. unfold a_do_schedule in *. destruct (a_highest A) as [p0|] eqn:E; simpl in *.
  - destruct (a_highest_Some _ _ E) as (_ & Hq & Hm). rewrite a_smt_queue, a_unit_queue in Hp. simpl in Hp.
    destruct (a_queue A (QReady p0)) as [|a l] eqn:Eq; [done|]. simpl in *. exists a. split; [done|].
    assert (Ha : a ∈ a_queue A (QReady p0)) by (rewrite Eq; set_solver).
    pose proof (qd_placed _ _ HQ) as HP. pose proof (placed_not_float _ _ _ _ HP Ha) as HaF.
    destruct (pl_dom _ _ HP _ _ Ha) as [t Ht].
    apply (pl_home _ _ HP a t _ Ht HaF), home_ready in Ha as [_ Hpa].
    unfold a_prio, a_get. simpl. rewrite a_smt_tcbs, a_unit_tcbs. simpl. rewrite Ht, Hpa.
    unfold qset in Hp. case_decide as Hd; [naive_solver lia|].
    destruct (Z.le_gt_cases p p0) as [|Hgt]; [done|]. exfalso. apply Hp, Hm.
    split; [done|]. by eapply ready_range.
  - rewrite a_unit_queue in Hp. exfalso. apply Hp. apply a_highest_None; [done|]. by eapply ready_range.
Qed.

Lemma a_prio_tcbs A B a : a_tcbs A = a_tcbs B -> a_prio A a = a_prio B a.
Proof. intros H. unfold a_prio, a_get. by rewrite H. Qed.

(** A wake-up keeps the better of two threads running. *)
Lemma top_activate_schedule a A :
  top_ok A -> top_ok (a_switch_to (fst (a_activate_schedule a A)) (snd (a_activate_schedule a A))).
Proof.
  intros Htop p Hp. unfold a_prio, a_get. simpl. rewrite a_activate_schedule_tcbs.
  set (A1 := a_upd a (set_thread_state THREAD_STATE_RUNNABLE) A).
  assert (HA1 : forall x, a_prio A1 x = a_prio A x) by (intros; by apply a_prio_upd).
  unfold a_prio, a_get in HA1. simpl in HA1.
  unfold a_activate_schedule in *. fold A1 in Hp |- *. change (a_current A1) with (a_current A) in *.
  destruct (a_current A) as [c|] eqn:Ec.
  - destruct (Z.ltb_spec (a_prio A1 c) (a_prio A1 a)) as [Hlt|Hge]; simpl in *;
      rewrite a_smt_queue, ?a_unit_queue in Hp; simpl in Hp.
    + exists a. split; [done|]. rewrite HA1. unfold a_prio, a_get in Hlt. simpl in Hlt. rewrite !HA1 in Hlt.
      revert Hp. unfold qset. case_decide as Hd.
      * injection Hd as ->. intros _. unfold a_prio, a_get. simpl. rewrite HA1. lia.
      * intros Hp. destruct (Htop p Hp) as (c' & Hc' & Hle). simplify_eq. unfold a_prio, a_get in Hle. lia.
    + exists c. split; [done|]. rewrite HA1. unfold a_prio, a_get in Hge. simpl in Hge. rewrite !HA1 in Hge.
      revert Hp. unfold qset. case_decide as Hd.
      * injection Hd as ->. intros _. unfold a_prio, a_get. simpl. rewrite HA1. lia.
      * intros Hp. destruct (Htop p Hp) as (c' & Hc' & Hle). simplify_eq. by unfold a_prio, a_get in Hle.
  - simpl in Hp. rewrite a_unit_queue in Hp. destruct (Htop p Hp) as (c' & Hc' & _). congruence.
Qed.

(** Updates of priorities, queues of blocked threads and other data. *)
Lemma top_upd a f A :
  (forall t, priority (f t) = priority t) \/ a_current A <> Some a -> top_ok A -> top_ok (a_upd a f A).
Proof.
  intros Hf Ht p Hp. destruct (Ht p Hp) as (c & Hc & Hle). exists c. split; [done|].
  destruct Hf as [Hf|Hne]; [by rewrite a_prio_upd|]. unfold a_prio, a_get. simpl.
  rewrite lookup_alter_ne by congruence. exact Hle.
Qed.
Lemma top_setq q l A : (forall p, q <> QReady p) -> top_ok A -> top_ok (a_setq q l A).
Proof. intros Hq Ht p Hp. simpl in Hp. rewrite qset_ne in Hp by done. by apply Ht. Qed.

Lemma a_unit_data p A :
  a_handlers (a_set_unit_priority p A) = a_handlers A /\ a_pending (a_set_unit_priority p A) = a_pending A
  /\ a_irq_enable (a_set_unit_priority p A) = a_irq_enable A.
Proof. unfold a_set_unit_priority. by destruct multi_unit. Qed.
Lemma a_smt_data A :
  a_handlers (a_smt_reschedule A) = a_handlers A /\ a_pending (a_smt_reschedule A) = a_pending A
  /\ a_irq_enable (a_smt_reschedule A) = a_irq_enable A.
Proof. unfold a_smt_reschedule. by destruct (_ && _). Qed.

Lemma a_do_schedule_data A :
  a_handlers (snd (a_do_schedule A)) = a_handlers A /\ a_pending (snd (a_do_schedule A)) = a_pending A
  /\ a_irq_enable (snd (a_do_schedule A)) = a_irq_enable A.
Proof.
  unfold a_do_schedule. destruct (a_highest A) as [p|]; simpl; [|apply a_unit_data].
  destruct (a_smt_data (a_set_unit_priority p (a_pop (QReady p) A))) as (-> & -> & ->). exact (a_unit_data p (a_pop (QReady p) A)).
Qed.

Lemma a_activate_schedule_data a A :
  a_handlers (snd (a_activate_schedule a A)) = a_handlers A /\ a_pending (snd (a_activate_schedule a A)) = a_pending A
  /\ a_irq_enable (snd (a_activate_schedule a A)) = a_irq_enable A.
Proof.
  unfold a_activate_schedule. set (A1 := a_upd a _ A). destruct (a_current A1) as [c|].
  - destruct (_ <? _); simpl.
    + destruct (a_smt_data (a_set_unit_priority (a_prio A1 a) (a_enqueue c A1))) as (-> & -> & ->).
      exact (a_unit_data (a_prio A1 a) (a_enqueue c A1)).
    + exact (a_smt_data (a_enqueue a A1)).
  - exact (a_unit_data (a_prio A1 a) A1).
Qed.

(** Queues of ready threads, of senders and of free TCBs carry no data. *)
Lemma data_setq q l A : (forall h, q <> QFutex h) -> DataOk A -> DataOk (a_setq q l A).
Proof. intros Hq HD. eapply data_ext; [done..|]. intros h. simpl. by rewrite qset_ne. Qed.
Lemma data_unit p A : DataOk A -> DataOk (a_set_unit_priority p A).
Proof.
  intros HD. destruct (a_unit_data p A) as (? & ? & ?).
  eapply data_ext; [done|apply a_unit_tcbs|done..|]. intros. by rewrite a_unit_queue.
Qed.
Lemma data_smt A : DataOk A -> DataOk (a_smt_reschedule A).
Proof.
  intros HD. destruct (a_smt_data A) as (? & ? & ?).
  eapply data_ext; [done|apply a_smt_tcbs|done..|]. intros. by rewrite a_smt_queue.
Qed.
Lemma data_switch p A : DataOk A -> DataOk (a_switch_to p A).
Proof. intros HD. by eapply data_ext. Qed.

Lemma data_do_schedule A : DataOk A -> DataOk (snd (a_do_schedule A)).
Proof.
  intros HD. unfold a_do_schedule. destruct (a_highest A); simpl.
  - by apply data_smt, data_unit, data_setq.
  - by apply data_unit.
Qed.

Lemma data_activate_schedule a A :
  DataOk (a_upd a (set_thread_state THREAD_STATE_RUNNABLE) A) -> DataOk (snd (a_activate_schedule a A)).
Proof.
  intros HD. unfold a_activate_schedule. destruct (a_current _); [case_match|]; simpl.
  - by apply data_smt, data_unit, data_setq.
  - by apply data_smt, data_setq.
  - by apply data_unit.
Qed.

(** The threads of the other units keep running. *)
Definition others_run (O : gset nat) (A : akernel) : Prop :=
  forall a, a ∈ O -> a_state A a = THREAD_STATE_RUNNABLE.

Lemma others_run_tcbs O A A' : a_tcbs A' = a_tcbs A -> others_run O A -> others_run O A'.
Proof. intros Ht H a Ha. unfold a_state, a_get. rewrite Ht. by apply H. Qed.

Lemma others_run_upd O A a f :
  a ∉ O \/ (forall t, thread_state (f t) = thread_state t) -> others_run O A -> others_run O (a_upd a f A).
Proof.
  intros Hor H b Hb. destruct Hor as [Ha|Hf]; [|rewrite a_state_upd_id by done; by apply H].
  rewrite a_state_upd_ne; [by apply H|]. intros ->. done.
Qed.

(** A switch to [n] re-establishes the invariant. *)
Lemma inv_switch O A n :
  Queued (O ∪ pset n) A -> (forall a, n = Some a -> a ∉ O /\ a_state A a = THREAD_STATE_RUNNABLE) ->
  others_run O A -> unit_ok (a_switch_to n A) -> DataOk A -> top_ok (a_switch_to n A) ->
  AInv O (a_switch_to n A).
Proof.
  intros [HP Hnd] Hn Ho Hu HD Htop. constructor; simpl; try done.
  - by eapply placed_same.
  - intros c ->. by apply Hn.
  - intros a [Ha|Ha]%elem_of_union; [by apply Ho|]. destruct n as [b|]; simpl in Ha; [|set_solver].
    apply elem_of_singleton in Ha as ->. by apply (Hn b).
  - by apply data_switch.
Qed.

(** After the current thread has been put where it belongs, the scheduler
    picks the next one. *)
Lemma inv_schedule O A :
  Queued O A -> DataOk A -> units_wf A -> others_run O A -> AInv O (a_then_switch (a_do_schedule A)).
Proof.
  intros HQ HD Hwf Ho. destruct (schedule_next O A HQ) as [Hu Hn]; [exact (d_prio _ HD)|done|].
  apply inv_switch; [by apply queued_do_schedule| | |done|by apply data_do_schedule|
    by eapply top_schedule; [|exact (d_prio _ HD)]].
  - intros a Ha. unfold a_state, a_get. rewrite a_do_schedule_tcbs. by apply Hn.
  - eapply others_run_tcbs; [apply a_do_schedule_tcbs|done].
Qed.

(** The invariant as the parts the tail lemmas use. *)
Lemma inv_queued_F O A : AInv O A -> Queued (O ∪ pset (a_current A)) A.
Proof. intros HI. split; apply HI. Qed.
Lemma inv_others O A : AInv O A -> others_run O A.
Proof. intros HI a Ha. apply (inv_run _ _ HI). set_solver. Qed.
Lemma inv_wf O A : AInv O A -> units_wf A.
Proof. intros HI. apply (inv_unit _ _ HI). Qed.

Lemma unit_ok_prio A c t :
  unit_ok A -> a_current A = Some c -> a_tcbs A !! c = Some t -> 0 <= priority t < 32.
Proof. intros [_ Hu] Hc Ht. rewrite Hc in Hu. destruct Hu as (t' & ? & ? & _). congruence. Qed.

(** Thread [a], taken off its queue, is made runnable: the better of it and
    the current thread runs next, the other one becomes ready. *)
Lemma inv_wake O A a t :
  Queued (O ∪ pset (a_current A) ∪ {[a]}) A -> a ∉ O ->
  (forall c, a_current A = Some c -> c ∉ O /\ c <> a /\ a_state A c = THREAD_STATE_RUNNABLE) ->
  others_run O A -> unit_ok A -> top_ok A -> a_tcbs A !! a = Some t ->
  DataOk (a_upd a (set_thread_state THREAD_STATE_RUNNABLE) A) ->
  AInv O (a_then_switch (a_activate_schedule a A)).
Proof.
  intros HQ HaO Hc Ho Hu Htop Ht HD. unfold a_then_switch.
  apply (top_activate_schedule a) in Htop. pose proof (data_activate_schedule _ _ HD) as HDf. unfold a_activate_schedule in *.
  set (A1 := a_upd a (set_thread_state THREAD_STATE_RUNNABLE) A) in *.
  assert (HQ1 : Queued (O ∪ pset (a_current A) ∪ {[a]}) A1) by (apply queued_upd; [left; set_solver|done]).
  assert (Ht1 : a_tcbs A1 !! a = Some (set_thread_state THREAD_STATE_RUNNABLE t)) by (by apply a_upd_eq).
  pose proof (d_prio _ HD _ _ Ht1) as Hpa. pose proof (a_prio_eq _ _ _ Ht1) as Hpr. simpl in Hpr.
  assert (Hwf1 : units_wf A1) by apply Hu.
  assert (Ho1 : others_run O A1) by (apply others_run_upd; [by left|done]).
  assert (Hsta : a_state A1 a = THREAD_STATE_RUNNABLE) by (by rewrite (a_state_eq _ _ _ Ht1)).
  change (a_current A1) with (a_current A) in *.
  destruct (a_current A) as [c|] eqn:Ec; simpl pset in *.
  - destruct (Hc c eq_refl) as (HcO & Hca & Hst).
    destruct (a_state_inv _ _ _ Hst) as (tc & Htc & Hstc); [done|].
    assert (Htc1 : a_tcbs A1 !! c = Some tc) by (unfold A1; by rewrite a_upd_ne).
    destruct (a_prio A1 c <? a_prio A1 a); simpl in *.
    + apply inv_switch; [|intros b [= <-]; split; [done|]| | |done|done].
      * apply queued_smt, queued_unit. eapply queued_set; [|eapply (queued_enqueue _ _ c); [exact HQ1|set_solver|done|done]].
        clear -Hca HcO. set_solver.
      * rewrite <-Hsta. unfold a_state, a_get. by rewrite a_smt_tcbs, a_unit_tcbs.
      * eapply others_run_tcbs; [|done]. by rewrite a_smt_tcbs, a_unit_tcbs.
      * apply unit_ok_smt. rewrite Hpr. by apply (unit_ok_switch (a_enqueue c A1) a (set_thread_state THREAD_STATE_RUNNABLE t)).
    + apply inv_switch; [|intros b [= <-]; split; [done|]| | |done|done].
      * apply queued_smt. eapply queued_set; [|eapply (queued_enqueue _ _ a); [exact HQ1|set_solver|done|done]].
        clear -Hca HaO. set_solver.
      * unfold a_state, a_get. rewrite a_smt_tcbs. simpl. by rewrite lookup_alter_ne, Htc.
      * eapply others_run_tcbs; [|done]. by rewrite a_smt_tcbs.
      * apply unit_ok_smt. rewrite a_switch_self by done. by apply unit_ok_upd.
  - simpl in *. apply inv_switch; [|intros b [= <-]; split; [done|]| | |done|done].
    + apply queued_unit. eapply queued_set; [|done]. set_solver.
    + rewrite <-Hsta. unfold a_state, a_get. by rewrite a_unit_tcbs.
    + eapply others_run_tcbs; [|done]. by rewrite a_unit_tcbs.
    + rewrite Hpr. by apply (unit_ok_switch A1 a (set_thread_state THREAD_STATE_RUNNABLE t)).
Qed.

(** A blocked thread that is on no queue is woken. *)
Lemma inv_wake_none O A a t :
  AInv O A -> a_tcbs A !! a = Some t -> thread_state t <> THREAD_STATE_RUNNABLE -> home t = None ->
  DataOk (a_upd a (set_thread_state THREAD_STATE_RUNNABLE) A) ->
  AInv O (a_then_switch (a_activate_schedule a A)).
Proof.
  intros HI Ht Hst Hh HD. pose proof (inv_not_running _ _ _ _ HI Ht Hst) as Hn.
  eapply inv_wake; [by eapply queued_float_none; [apply inv_queued_F| |..]|set_solver| |
                    by apply inv_others|apply HI|apply HI|done|done].
  intros c Hc. split; [by apply (inv_other _ _ HI)|]. split.
  - intros ->. rewrite Hc in Hn. set_solver.
  - apply (inv_run _ _ HI). rewrite Hc. set_solver.
Qed.

(** The current thread blocks in a state that has no queue. *)
Lemma inv_block_none O A c st :
  AInv O A -> a_current A = Some c -> (forall t, home (set_thread_state st t) = None) ->
  DataOk (a_upd c (set_thread_state st) A) ->
  AInv O (a_then_switch (a_deactivate_self_schedule st A)).
Proof.
  intros HI Hc Hh HD. unfold a_deactivate_self_schedule, a_deactivate_self. rewrite Hc.
  pose proof (inv_other _ _ HI _ Hc) as HcO.
  destruct (inv_running _ _ _ HI Hc) as (_ & _ & t & Ht & _).
  apply inv_schedule; [|done|exact (inv_wf _ _ HI)|].
  - pose proof (inv_queued_F _ _ HI) as HQ. rewrite Hc in HQ. simpl in HQ.
    eapply queued_set; [|eapply queued_settle_none; [apply queued_upd; [left|exact HQ]| |by apply a_upd_eq|apply Hh]];
      [|set_solver..]. clear -HcO. set_solver.
  - apply others_run_upd; [by left|by apply inv_others].
Qed.

(** ** Updates that keep every thread where it is *)

Lemma home_irr f `{!Irrelevant f} t : home (f t) = home t.
Proof. unfold home. by rewrite irr_state, irr_prio, irr_tag, irr_wait. Qed.

(** Updates of one thread that keep its state, its priority and its home. *)
Lemma inv_upd O A a f :
  (forall t, thread_state (f t) = thread_state t) -> (forall t, priority (f t) = priority t) ->
  (forall t, a_tcbs A !! a = Some t -> home (f t) = home t) ->
  DataOk (a_upd a f A) -> AInv O A -> AInv O (a_upd a f A).
Proof.
  intros Hs Hp Hh HD [HP Hot Hrun Hu _ Hnd Htop]. constructor; try done.
  - destruct HP as [Hfl Hho Hdo]. constructor; simpl.
    + intros x Hx. destruct (Hfl x Hx). split; [done|]. by apply is_Some_alter.
    + intros x t q [(-> & t0 & Ht0 & ->)|[_ ?]]%alter_Some Hx; [rewrite Hh by done|]; eauto.
    + intros q x Hx. apply is_Some_alter. eauto.
  - intros x Hx. rewrite a_state_upd_id by done. by apply Hrun.
  - by apply unit_ok_upd.
  - by apply top_upd; [left|].
Qed.

Lemma inv_irr O A a f `{!Irrelevant f} : AInv O A -> AInv O (a_upd a f A).
Proof.
  intros HI. apply inv_upd; [apply irr_state|apply irr_prio| | |done].
  - intros. by apply home_irr.
  - apply data_irr; [done|apply HI].
Qed.

Lemma inv_return O A a v : AInv O A -> AInv O (a_return a v A).
Proof. apply inv_irr. apply _. Qed.

Lemma inv_copy_message O A src dest : AInv O A -> AInv O (a_copy_message src dest A).
Proof. apply (copy_message_pres (fun B => AInv O B)). intros f B ? _. by apply inv_irr. Qed.

(** The partner of a thread that is not blocked sending is not looked at. *)
Lemma data_waiting A a v t :
  DataOk A -> a_tcbs A !! a = Some t -> blocked_sending (thread_state t) = false ->
  DataOk (a_upd a (set_ipc_waiting_for v) A).
Proof.
  intros HD Ht Hb. eapply data_upd; [done..|]. apply upd_ok_same; try done. by rewrite Hb.
Qed.

Lemma inv_waiting O A a v t :
  AInv O A -> a_tcbs A !! a = Some t -> blocked_sending (thread_state t) = false ->
  AInv O (a_upd a (set_ipc_waiting_for v) A).
Proof.
  intros HI Ht Hb. apply inv_upd; [done|done| |by eapply data_waiting; [apply HI|..]|done].
  intros t' Ht'. assert (t' = t) as -> by congruence. revert Hb. unfold home, blocked_sending. simpl.
  by destruct (thread_state t).
Qed.

Lemma a_upd_comm a b f g A :
  (forall t, f (g t) = g (f t)) -> a_upd a f (a_upd b g A) = a_upd b g (a_upd a f A).
Proof. intros Hfg. unfold a_upd. simpl. by rewrite alter_comm. Qed.

End inv_pres.
