(* ===== verification/NanoInvSys.v ===== *)
(** * Each nanokernel system call preserves the invariant

    One lemma per system call of [NanoSpec], built from the wake-up, blocking
    and scheduling lemmas of [NanoInvPres]. *)

From Stdlib Require Import Sorting.Sorted.
From S2P Require Import Prelude NanoState NanoSchedule NanoSyscalls NanoSpec Rings NanoLinks NanoRep NanoRefineSched NanoInv NanoRefineFutex NanoRefineSys NanoInvPres.
#[local] Open Scope Z_scope.

Section inv_sys.
Context {cfg : NanoConfig}.
Implicit Types (A B : akernel) (O F : gset nat).

Lemma inv_cur O A c :
  AInv O A -> a_current A = Some c ->
  exists t, a_tcbs A !! c = Some t /\ thread_state t = THREAD_STATE_RUNNABLE.
Proof. intros HI Hc. by apply (inv_running _ _ _ HI). Qed.

(** The running thread is nobody's joiner and handles no unmasked interrupt. *)
Lemma inv_cur_free O A c t :
  AInv O A -> a_tcbs A !! c = Some t -> thread_state t = THREAD_STATE_RUNNABLE ->
  (forall b t', a_tcbs A !! b = Some t' -> joiner t' <> Some c) /\
  (forall i, 0 <= i -> Z.testbit (a_irq_enable A) i = true -> a_handlers A !! Z.to_nat i <> Some (Some c)).
Proof.
  intros HI Ht Hst. pose proof (inv_data _ _ HI) as HD. split.
  - by eapply data_no_joiner.
  - by eapply data_no_handler.
Qed.

Lemma a_state_return A a v b : a_state (a_return a v A) b = a_state A b.
Proof. by apply a_state_upd_id. Qed.

(** ** Yield *)

Lemma yield_inv O A c : AInv O A -> a_current A = Some c -> AInv O (a_sys_yield A).
Proof.
  intros HI Hc. destruct (inv_cur _ _ _ HI Hc) as (t & Ht & Hst).
  pose proof (inv_other _ _ HI _ Hc) as HcO.
  unfold a_sys_yield, a_yield. rewrite Hc. case_match.
  - apply inv_schedule; [|apply data_setq; [done|apply HI]|exact (inv_wf _ _ HI)|exact (inv_others _ _ HI)].
    pose proof (inv_queued_F _ _ HI) as HQ. rewrite Hc in HQ. simpl in HQ.
    eapply queued_set; [|eapply queued_enqueue; [exact HQ|set_solver|done|done]]. set_solver.
  - unfold a_then_switch. simpl. by rewrite a_switch_self.
Qed.

(** ** Signals *)

Lemma signal_poll_inv O A c mask : AInv O A -> AInv O (a_sys_signal_poll c mask A).
Proof. intros HI. apply inv_return. by apply inv_irr; [apply _|]. Qed.

(** Blocking in a state that involves no other data. *)
Lemma inv_block_plain O A c st :
  AInv O A -> a_current A = Some c ->
  st = THREAD_STATE_WAIT_SIGNAL \/ st = THREAD_STATE_WAIT_IPC_RECV \/ st = THREAD_STATE_WAIT_INT \/
  st = THREAD_STATE_WAIT_JOIN ->
  AInv O (a_then_switch (a_deactivate_self_schedule st A)).
Proof.
  intros HI Hc Hst. destruct (inv_cur _ _ _ HI Hc) as (t & Ht & Hrun).
  destruct (inv_cur_free _ _ _ _ HI Ht Hrun) as [Hj Hh].
  apply (inv_block_none O A c); [done|done| |].
  - intros t'. unfold home. simpl. naive_solver.
  - eapply data_set_state; [apply HI|done|..]; naive_solver.
Qed.

Lemma signal_wait_inv O A c mask :
  AInv O A -> a_current A = Some c -> AInv O (a_sys_signal_wait c mask A).
Proof.
  intros HI Hc. unfold a_sys_signal_wait. case_match; [by apply signal_poll_inv|].
  apply (inv_block_plain O _ c); [by apply inv_irr; [apply _|]|done|by left].
Qed.

(** Waking a thread whose state involves no other data. *)
Lemma inv_wake_plain O A a t :
  AInv O A -> a_tcbs A !! a = Some t ->
  thread_state t = THREAD_STATE_WAIT_SIGNAL \/ thread_state t = THREAD_STATE_WAIT_IPC_RECV ->
  AInv O (a_then_switch (a_activate_schedule a A)).
Proof.
  intros HI Ht Hst. pose proof (inv_data _ _ HI) as HD.
  eapply (inv_wake_none O A a t); [done|done| | |].
  - by destruct Hst as [-> | ->].
  - unfold home. by destruct Hst as [-> | ->].
  - eapply data_set_state; [done|done|done|done| | |done].
    + right. eapply data_no_joiner; [done|done|done|]. by destruct Hst as [-> | ->].
    + right. eapply data_no_handler; [done|done|done|]. by destruct Hst as [-> | ->].
Qed.

Lemma state_upds_tcb A a (f : tcb -> tcb) b t :
  a_tcbs A !! b = Some t -> (forall t, thread_state (f t) = thread_state t) ->
  exists t', a_tcbs (a_upd a f A) !! b = Some t' /\ thread_state t' = thread_state t.
Proof.
  intros Ht Hf. destruct (decide (a = b)) as [->|Hne].
  - exists (f t). split; [by apply a_upd_eq|apply Hf].
  - exists t. by rewrite a_upd_ne.
Qed.

Lemma inv_wake_state O A a st :
  AInv O A -> a_state A a = st -> st = THREAD_STATE_WAIT_SIGNAL \/ st = THREAD_STATE_WAIT_IPC_RECV ->
  AInv O (a_then_switch (a_activate_schedule a A)).
Proof.
  intros HI Hs Hst. destruct (a_state_inv _ _ _ Hs) as (t & Ht & Ht'); [by destruct Hst as [-> | ->]|].
  eapply inv_wake_plain; [done|done|by rewrite Ht'].
Qed.

Lemma signal_send_inv O A c d sigs : AInv O A -> AInv O (a_sys_signal_send c d sigs A).
Proof.
  intros HI. unfold a_sys_signal_send. case_match; [by apply inv_return|].
  case_match; [|by apply inv_return].
  assert (HI1 : AInv O (a_return c 0 (a_upd (Z.to_nat d)
      (set_signals (Z.lor (a_get A (Z.to_nat d) signals 0) sigs)) A))).
  { apply inv_return. by apply inv_irr; [apply _|]. }
  case_match eqn:E; [|done]. apply andb_prop in E as [E%bool_decide_eq_true _].
  apply (inv_wake_state O _ _ THREAD_STATE_WAIT_SIGNAL); [| |by left].
  2: by rewrite a_state_upd_id, !a_state_return, a_state_upd_id.
  apply inv_irr; [apply _|]. by apply inv_return.
Qed.

(** ** Interrupts *)

Lemma data_set_enable v A :
  DataOk A -> is_word v ->
  (forall i, 0 <= i -> Z.testbit v i = true -> Z.testbit (a_irq_enable A) i = true \/
     exists a, a_handlers A !! Z.to_nat i = Some (Some a) /\ a_state A a = THREAD_STATE_WAIT_INT) ->
  DataOk (a_set_irq_enable v A).
Proof.
  intros HD Hw Hv. constructor; simpl; try apply HD; try done.
  intros i Hi Hb. destruct (Hv i Hi Hb) as [Hb'|?]; [by apply (d_enable _ HD)|done].
Qed.

Lemma inv_set_enable O v A : DataOk (a_set_irq_enable v A) -> AInv O A -> AInv O (a_set_irq_enable v A).
Proof. intros HD [HP Hot Hrun Hu _ Hnd Htop]. constructor; try done. by eapply placed_same. Qed.

Lemma interrupt_wait_inv O A c :
  AInv O A -> a_current A = Some c -> AInv O (a_sys_interrupt_wait c A).
Proof.
  intros HI Hc. destruct (inv_cur _ _ _ HI Hc) as (t & Ht & Hrun). unfold a_sys_interrupt_wait.
  rewrite (a_get_eq _ _ _ _ _ Ht).
  destruct (Z.eqb_spec (registered_interrupt t) Interrupt.NO_INTERRUPT) as [|Hne]; [by apply inv_return|].
  pose proof (inv_block_plain O A c THREAD_STATE_WAIT_INT HI Hc ltac:(tauto)) as HI1.
  destruct (d_reg _ (inv_data _ _ HI) _ _ Ht Hne) as [Hr Hh].
  assert (Hsnd : a_state (snd (a_deactivate_self_schedule THREAD_STATE_WAIT_INT A)) c = THREAD_STATE_WAIT_INT /\
     a_handlers (snd (a_deactivate_self_schedule THREAD_STATE_WAIT_INT A)) = a_handlers A).
  { unfold a_deactivate_self_schedule, a_deactivate_self. rewrite Hc. split.
    - unfold a_state, a_get. rewrite a_do_schedule_tcbs. simpl. by rewrite lookup_alter_eq, Ht.
    - by rewrite (proj1 (a_do_schedule_data _)). }
  destruct (a_deactivate_self_schedule THREAD_STATE_WAIT_INT A) as [n A1]. simpl in Hsnd.
  unfold a_then_switch in HI1. simpl in HI1. destruct Hsnd as [Hs1 Hh1].
  apply (inv_set_enable O _ (a_switch_to n A1)); [|done].
  pose proof (inv_data _ _ HI1) as HD1. apply data_set_enable; [done|apply is_word_set_bit32, HD1|].
  pose proof cfg_interrupts. intros i Hi. simpl. rewrite testbit_set_bit32 by lia.
  destruct (Z.eqb_spec i (registered_interrupt t)) as [->|].
  - intros _. right. exists c. by rewrite Hh1.
  - rewrite orb_false_r. by left.
Qed.

Lemma NO_INTERRUPT_large : Interrupt.NO_INTERRUPT = 4294967295.
Proof. reflexivity. Qed.

(** A change of the handler table and of one thread's registration. *)
Lemma data_handlers A c v hs :
  DataOk A -> length hs = length (a_handlers A) ->
  let B := a_upd c (set_registered_interrupt v) (a_set_handlers hs A) in
  (forall a t, a_tcbs B !! a = Some t -> registered_interrupt t <> Interrupt.NO_INTERRUPT ->
     0 <= registered_interrupt t < NUM_INTERRUPTS /\ hs !! Z.to_nat (registered_interrupt t) = Some (Some a)) ->
  (forall i a, hs !! i = Some (Some a) ->
     exists t, a_tcbs B !! a = Some t /\ registered_interrupt t = Z.of_nat i) ->
  (forall i a, a_handlers A !! i = Some (Some a) -> a_state A a = THREAD_STATE_WAIT_INT -> hs !! i = Some (Some a)) ->
  DataOk B.
Proof.
  intros HD Hlen B Hr Hh Hen.
  assert (Hst : forall b, a_state B b = a_state A b) by (intros b; unfold B; by rewrite a_state_upd_id).
  pose proof (d_prio _ HD) as d1. pose proof (d_tid _ HD) as d2. pose proof (d_regs _ HD) as d3.
  pose proof (d_send _ HD) as d4. pose proof (d_join _ HD) as d5. pose proof (d_join_inj _ HD) as d6.
  pose proof (d_nolost _ HD) as d7. unfold B in *. constructor; simpl; try done; try apply HD.
  - intros x. rewrite <-(d_dom _ HD). destruct (decide (c = x)) as [->|].
    + rewrite lookup_alter_eq. by rewrite fmap_is_Some.
    + by rewrite lookup_alter_ne.
  - intros x t' [(-> & t2 & ? & ->)|[_ ?]]%alter_Some; simpl; eauto.
  - intros x t' [(-> & t2 & ? & ->)|[_ ?]]%alter_Some; simpl; eauto.
  - intros x t' [(-> & t2 & ? & ->)|[_ ?]]%alter_Some; simpl; eauto.
  - intros x t' [(-> & t2 & ? & ->)|[_ ?]]%alter_Some; simpl; eauto.
  - intros b t' j. rewrite Hst. intros [(-> & t2 & ? & ->)|[_ ?]]%alter_Some; simpl; eauto.
  - intros b b' t1 t2 j [(-> & t3 & ? & ->)|[_ ?]]%alter_Some [(-> & t4 & ? & ->)|[_ ?]]%alter_Some;
      simpl; eauto.
  - rewrite Hlen. apply HD.
  - intros k Hk Hb. destruct (d_enable _ HD k Hk Hb) as (a & Ha & Hsa). exists a. rewrite Hst. auto.
  - intros x t' [(-> & t2 & ? & ->)|[_ ?]]%alter_Some; simpl; eauto.
  - intros h. eapply sorted_prio_ext; [|apply (d_sorted _ HD)]. intros x _. by rewrite a_prio_upd.
Qed.

(** Registration of a free interrupt by a thread that has none. *)
Lemma data_register A c i t :
  DataOk A -> a_tcbs A !! c = Some t -> registered_interrupt t = Interrupt.NO_INTERRUPT ->
  0 <= i < NUM_INTERRUPTS -> a_handlers A !! Z.to_nat i = Some None ->
  DataOk (a_upd c (set_registered_interrupt (u32 i)) (a_set_handlers (<[Z.to_nat i := Some c]> (a_handlers A)) A)).
Proof.
  intros HD Ht Hno Hi Hfree. pose proof cfg_interrupts as HN.
  assert (Hu : u32 i = i) by (apply u32_word; unfold is_word, WORD_MOD; lia).
  assert (Hlt : (Z.to_nat i < length (a_handlers A))%nat) by (by apply lookup_lt_Some in Hfree).
  apply data_handlers; [done|by rewrite length_insert|..]; simpl.
  - intros x t' [(-> & t2 & ? & ->)|[Hne Hx]]%alter_Some; simpl.
    + intros _. rewrite Hu. split; [done|]. by rewrite list_lookup_insert_eq.
    + intros Hr. destruct (d_reg _ HD x t' Hx Hr) as [Hr1 Hr2]. split; [done|].
      rewrite list_lookup_insert_ne; [done|]. intros Heq. rewrite <-Heq in Hr2. congruence.
  - intros k a. destruct (decide (k = Z.to_nat i)) as [->|Hk].
    + rewrite list_lookup_insert_eq by done. intros [= <-].
      exists (set_registered_interrupt (u32 i) t). rewrite lookup_alter_eq, Ht. split; [done|]. simpl. lia.
    + rewrite list_lookup_insert_ne by done. intros Ha. destruct (d_handler _ HD k a Ha) as (ta & Hta & Hra).
      exists ta. rewrite lookup_alter_ne; [done|]. intros ->. assert (ta = t) as -> by congruence.
      rewrite Hno, NO_INTERRUPT_large in Hra. apply lookup_lt_Some in Ha.
      pose proof (d_handlers_len _ HD). lia.
  - intros k a Ha _. rewrite list_lookup_insert_ne; [done|]. intros Heq. rewrite <-Heq in Ha. congruence.
Qed.

(** Deregistration by a thread that is not waiting for the interrupt. *)
Lemma data_deregister A c i t :
  DataOk A -> a_tcbs A !! c = Some t -> a_handlers A !! Z.to_nat i = Some (Some c) ->
  thread_state t <> THREAD_STATE_WAIT_INT ->
  DataOk (a_upd c (set_registered_interrupt Interrupt.NO_INTERRUPT)
           (a_set_handlers (<[Z.to_nat i := None]> (a_handlers A)) A)).
Proof.
  intros HD Ht Hreg Hsc.
  assert (Hlt : (Z.to_nat i < length (a_handlers A))%nat) by (by apply lookup_lt_Some in Hreg).
  destruct (d_handler _ HD _ _ Hreg) as (t0 & Ht0 & Hrt). assert (t0 = t) as -> by congruence.
  apply data_handlers; [done|by rewrite length_insert|..]; simpl.
  - intros x t' [(-> & t2 & ? & ->)|[Hne Hx]]%alter_Some; simpl; [done|].
    intros Hr. destruct (d_reg _ HD x t' Hx Hr) as [Hr1 Hr2]. split; [done|].
    rewrite list_lookup_insert_ne; [done|]. intros Heq. rewrite <-Heq in Hr2. congruence.
  - intros k a. destruct (decide (k = Z.to_nat i)) as [->|Hk].
    + by rewrite list_lookup_insert_eq.
    + rewrite list_lookup_insert_ne by done. intros Ha. destruct (d_handler _ HD k a Ha) as (ta & Hta & Hra).
      exists ta. rewrite lookup_alter_ne; [done|]. intros ->. assert (ta = t) as -> by congruence. lia.
  - intros k a Ha Hsa. rewrite list_lookup_insert_ne; [done|]. intros Heq. rewrite <-Heq, Hreg in Ha.
    assert (a = c) as -> by congruence. by rewrite (a_state_eq _ _ _ Ht) in Hsa.
Qed.

Lemma inv_data_swap O A A' :
  AInv O A -> a_queue A' = a_queue A -> a_current A' = a_current A -> unit_ok A' ->
  (forall a, home <$> a_tcbs A' !! a = home <$> a_tcbs A !! a) ->
  (forall a, a_state A' a = a_state A a) -> (forall a, a_prio A' a = a_prio A a) -> DataOk A' -> AInv O A'.
Proof.
  intros [HP Hot Hrun Hu _ Hnd Htop] Hq Hc Hu' Hh Hs Hp HD. constructor; rewrite ?Hc, ?Hq; try done.
  - assert (Hd : forall a, is_Some (a_tcbs A' !! a) <-> is_Some (a_tcbs A !! a)).
    { intros a. specialize (Hh a). rewrite <-!(fmap_is_Some home). by rewrite Hh. }
    destruct HP as [Hfl Hho Hdo]. constructor.
    + intros a Ha. destruct (Hfl a Ha) as [? ?]. split; [unfold unqueued; by rewrite Hq|by apply Hd].
    + intros a t q Ht. rewrite Hq. specialize (Hh a). rewrite Ht in Hh. simpl in Hh.
      destruct (a_tcbs A !! a) as [t0|] eqn:E; simpl in Hh; [|done]. injection Hh as ->. by apply Hho.
    + intros q a. rewrite Hq. intros Ha. apply Hd. eauto.
  - intros a Ha. rewrite Hs. by apply Hrun.
  - intros p. rewrite Hq. intros Hp'. destruct (Htop p Hp') as (c & ? & ?). exists c. by rewrite Hc, Hp.
Qed.

(** Registration and deregistration move no thread. *)
Lemma inv_handlers O A c v hs (m : list Z) :
  AInv O A ->
  DataOk (a_upd c (set_registered_interrupt v) (a_set_handlers hs A)) ->
  AInv O (a_upd c (set_registered_interrupt v) (a_set_handlers hs (a_set_int_mask m A))) /\
  AInv O (a_upd c (set_registered_interrupt v) (a_set_handlers hs A)).
Proof.
  intros HI HD.
  assert (HI1 : AInv O (a_upd c (set_registered_interrupt v) (a_set_handlers hs A))).
  { eapply (inv_data_swap O A); try done.
    - apply (unit_ok_upd c _ (a_set_handlers hs A)); [done|]. apply HI.
    - intros a. simpl. destruct (decide (c = a)) as [->|].
      + rewrite lookup_alter_eq. by destruct (a_tcbs A !! a).
      + by rewrite lookup_alter_ne.
    - intros a. by rewrite a_state_upd_id.
    - intros a. by rewrite a_prio_upd. }
  split; [|done]. eapply (inv_data_swap O _ _ HI1); try done; [apply HI1|]. by eapply data_ext.
Qed.

Lemma interrupt_register_inv O A c i :
  AInv O A -> a_current A = Some c -> 0 <= i -> AInv O (a_sys_interrupt_register c i A).
Proof.
  intros HI Hc Hi. destruct (inv_cur _ _ _ HI Hc) as (t & Ht & Hrun). unfold a_sys_interrupt_register.
  destruct (Z.leb_spec NUM_INTERRUPTS i); [by apply inv_return|].
  destruct (a_handlers A !! Z.to_nat i) as [[h|]|] eqn:Eh; [by apply inv_return| |by apply inv_return].
  rewrite (a_get_eq _ _ _ _ _ Ht).
  destruct (Z.eqb_spec (registered_interrupt t) Interrupt.NO_INTERRUPT); [|by apply inv_return].
  apply inv_return. destruct (inv_handlers O A c (u32 i) (<[Z.to_nat i := Some c]> (a_handlers A))
    (Interrupt.register_int_mask (a_prio A c) i (a_int_mask A)) HI) as [H1 H2].
  - eapply data_register; by try apply HI.
  - by destruct multi_unit.
Qed.

Lemma interrupt_deregister_inv O A c i :
  AInv O A -> a_current A = Some c -> AInv O (a_sys_interrupt_deregister c i A).
Proof.
  intros HI Hc. destruct (inv_cur _ _ _ HI Hc) as (t & Ht & Hrun). unfold a_sys_interrupt_deregister.
  case_match; [by apply inv_return|]. case_bool_decide; [|by apply inv_return].
  apply inv_return. destruct (inv_handlers O A c Interrupt.NO_INTERRUPT (<[Z.to_nat i := None]> (a_handlers A))
    (Interrupt.deregister_int_mask i (a_int_mask A)) HI) as [H1 H2].
  - eapply data_deregister; [apply HI|done|done|by rewrite Hrun].
  - by destruct multi_unit.
Qed.

(** Interrupt entry: the interrupt is masked before its handler wakes, so
    no unmasked interrupt is left without a waiting handler. *)
Lemma handle_interrupt_inv O A status :
  AInv O A -> reported status A -> AInv O (a_handle_interrupt status A).
Proof.
  intros HI Hrep. destruct (handle_interrupt_handler _ _ _ HI Hrep) as (h & t & Hh & Ht & Hst & Hi).
  unfold a_handle_interrupt. rewrite Hh. set (i := Interrupt.plat_decode_interrupt status) in *.
  pose proof cfg_interrupts as HN. pose proof (inv_data _ _ HI) as HD.
  assert (Hclr : forall k, 0 <= k -> Z.testbit (clear_bit32 (a_irq_enable A) i) k = true ->
            Z.testbit (a_irq_enable A) k = true /\ k <> i).
  { intros k Hk Hb. destruct (Z.lt_ge_cases k 32).
    - rewrite testbit_clear_bit32 in Hb by lia. apply andb_prop in Hb as [? Hb]. split; [done|].
      intros ->. by rewrite Z.eqb_refl in Hb.
    - rewrite word_bits_high in Hb; [done|apply is_word_clear_bit32, HD|done]. }
  assert (HI1 : AInv O (a_return h i (a_set_irq_enable (clear_bit32 (a_irq_enable A) i) A))).
  { apply inv_return, inv_set_enable; [|done].
    apply data_set_enable; [done|apply is_word_clear_bit32, HD|]. intros k Hk Hb. left. by apply Hclr. }
  assert (Ht1 : a_tcbs (a_return h i (a_set_irq_enable (clear_bit32 (a_irq_enable A) i) A)) !! h
                = Some (set_reg 0 (u32 i) t)) by (by apply a_upd_eq).
  eapply (inv_wake_none O _ h _ HI1 Ht1); [by simpl; rewrite Hst|unfold home; simpl; by rewrite Hst|].
  eapply data_set_state; [apply HI1|done|done|done| | |done].
  - right. by eapply (data_no_joiner _ _ _ THREAD_STATE_WAIT_INT); [apply HI1|exact Ht1|exact Hst|].
  - right. intros k Hk Hb Hk'. simpl in Hb, Hk'. apply Hclr in Hb as [Hb Hne]; [|done].
    destruct (d_handler _ HD _ _ Hk') as (t1 & Ht2 & Hr1). destruct (d_handler _ HD _ _ Hh) as (t2 & Ht3 & Hr2).
    assert (t1 = t2) as -> by congruence. lia.
Qed.

(** ** IPC *)

(** The current thread joins the send queue of [d] and blocks. *)
Lemma inv_block_send O A c d st :
  AInv O A -> a_current A = Some c -> (d < max_tcbs)%nat -> blocked_sending st = true ->
  AInv O (a_then_switch (a_deactivate_self_schedule st
            (a_upd c (set_ipc_waiting_for (Some d)) (a_push (QSend d) c A)))).
Proof.
  intros HI Hc Hd Hb. destruct (inv_cur _ _ _ HI Hc) as (t & Ht & Hrun).
  pose proof (inv_other _ _ HI _ Hc) as HcO.
  destruct (inv_cur_free _ _ _ _ HI Ht Hrun) as [Hj Hh].
  unfold a_deactivate_self_schedule, a_deactivate_self. simpl a_current. rewrite Hc.
  set (A2 := a_upd c (set_ipc_waiting_for (Some d)) A).
  set (A3 := a_upd c (set_thread_state st) A2).
  change (a_upd c (set_thread_state st) (a_upd c _ (a_push (QSend d) c A))) with (a_push (QSend d) c A3).
  assert (Ht3 : a_tcbs A3 !! c = Some (set_thread_state st (set_ipc_waiting_for (Some d) t)))
    by (by do 2 apply a_upd_eq).
  apply inv_schedule.
  - pose proof (inv_queued_F _ _ HI) as HQ. rewrite Hc in HQ. simpl in HQ.
    assert (HQ3 : Queued (O ∪ {[c]}) A3) by (do 2 (apply queued_upd; [left; set_solver|]); exact HQ).
    eapply queued_set; [|eapply (queued_push _ _ _ _ _ HQ3); [set_solver|exact Ht3|]].
    + clear -HcO. set_solver.
    + unfold home. simpl. by destruct st.
  - apply data_setq; [done|].
    assert (HD2 : DataOk A2) by (eapply data_waiting; [apply HI|done|by rewrite Hrun]).
    eapply data_set_state; [done|by apply a_upd_eq|by eauto|by destruct st| | |by destruct st].
    + right. intros b t' [(-> & t2 & Ht2 & ->)|[_ ?]]%alter_Some; simpl; by eapply Hj.
    + by right.
  - exact (inv_wf _ _ HI).
  - apply (others_run_upd O A2); [by left|]. apply others_run_upd; [by left|]. by apply inv_others.
Qed.

(** Message delivery to a waiting receiver, before it is woken. *)
Lemma inv_deliver O A c d v :
  AInv O A -> a_state A d = THREAD_STATE_WAIT_IPC_RECV ->
  let B := a_return d v (a_upd d (set_ipc_waiting_for None) (a_copy_message c d A)) in
  AInv O B /\ (forall x, a_state B x = a_state A x) /\ a_current B = a_current A.
Proof.
  intros HI Hst B.
  assert (Hs1 : forall x, a_state (a_copy_message c d A) x = a_state A x).
  { intros x. apply (copy_message_pres (fun B => a_state B x = a_state A x)); [|done].
    intros f B' _ ? <-. apply a_state_upd_id. apply neutral_state. }
  split; [|split].
  - apply inv_return. destruct (a_state_inv (a_copy_message c d A) d THREAD_STATE_WAIT_IPC_RECV) as (t & Ht & Ht');
      [by rewrite Hs1|done|].
    eapply inv_waiting; [by apply inv_copy_message|done|by rewrite Ht'].
  - intros x. unfold B. by rewrite a_state_return, a_state_upd_id.
  - unfold B. simpl. apply (copy_message_pres (fun B => a_current B = a_current A)); done.
Qed.

(** The call: the receiver is made ready and the caller waits for a reply. *)
Lemma inv_call O A c d :
  AInv O A -> a_current A = Some c -> a_state A d = THREAD_STATE_WAIT_IPC_RECV ->
  AInv O (a_then_switch (a_do_schedule (a_deactivate_self THREAD_STATE_WAIT_IPC_RECV
        (a_activate d (a_upd c (set_ipc_waiting_for (Some d)) A))))).
Proof.
  intros HI Hc Hd. destruct (inv_cur _ _ _ HI Hc) as (t & Ht & Hrun).
  destruct (a_state_inv _ _ _ Hd) as (td & Htd & Hstd); [done|].
  assert (Hcd : c <> d) by congruence. pose proof (inv_other _ _ HI _ Hc) as HcO.
  assert (HI2 : AInv O (a_upd c (set_ipc_waiting_for (Some d)) A))
    by (eapply inv_waiting; [done|done|by rewrite Hrun]).
  set (A2 := a_upd c (set_ipc_waiting_for (Some d)) A) in *.
  assert (Htd2 : a_tcbs A2 !! d = Some td) by (unfold A2; by rewrite a_upd_ne).
  assert (Ht2 : a_tcbs A2 !! c = Some (set_ipc_waiting_for (Some d) t)) by (by apply a_upd_eq).
  assert (HD3 : DataOk (a_upd d (set_thread_state THREAD_STATE_RUNNABLE) A2)).
  { eapply data_set_state; [apply HI2|done|done|done| | |done]; right.
    - by eapply (data_no_joiner _ _ _ _ (inv_data _ _ HI2) Htd2 Hstd).
    - by eapply (data_no_handler _ _ _ _ (inv_data _ _ HI2) Htd2 Hstd). }
  set (A3 := a_upd d (set_thread_state THREAD_STATE_RUNNABLE) A2) in *.
  assert (Ht3 : a_tcbs (a_activate d A2) !! c = Some (set_ipc_waiting_for (Some d) t))
    by (simpl; by rewrite lookup_alter_ne, <-Ht2).
  pose proof (inv_not_running _ _ _ _ HI2 Htd2 ltac:(congruence)) as Hdn.
  unfold a_deactivate_self. change (a_current (a_activate d A2)) with (a_current A). rewrite Hc.
  change (a_current A2) with (a_current A) in Hdn. rewrite Hc in Hdn. simpl in Hdn.
  apply inv_schedule.
  - pose proof (inv_queued_F _ _ HI2) as HQ. change (a_current A2) with (a_current A) in HQ.
    rewrite Hc in HQ. simpl in HQ.
    apply (queued_float_none _ _ d td) in HQ; [|done|done|unfold home; by rewrite Hstd].
    apply (queued_activate _ _ d) in HQ; [|set_solver].
    eapply queued_set; [|eapply (queued_settle_none _ _ c);
      [apply queued_upd; [left|exact HQ]| |by apply a_upd_eq|done]]; set_solver.
  - unfold a_activate. apply (data_setq _ _ (a_upd c (set_thread_state THREAD_STATE_WAIT_IPC_RECV) A3)); [done|].
    assert (Htc3 : a_tcbs A3 !! c = Some (set_ipc_waiting_for (Some d) t)) by (unfold A3; by rewrite a_upd_ne).
    eapply data_set_state; [done|done|done|done| | |done]; right.
    + by eapply (data_no_joiner _ _ _ _ HD3 Htc3 Hrun).
    + by eapply (data_no_handler _ _ _ _ HD3 Htc3 Hrun).
  - exact (inv_wf _ _ HI2).
  - apply others_run_upd; [by left|]. apply (others_run_upd O A2); [|by apply inv_others].
    left. set_solver.
Qed.

Lemma do_send_inv O A c d is_call is_nb :
  AInv O A -> a_current A = Some c -> (d < max_tcbs)%nat ->
  AInv O (a_then_switch (a_do_send c d is_call is_nb A)).
Proof.
  intros HI Hc Hd. unfold a_do_send. destruct (a_ready_to_receive c d A) eqn:Er.
  - apply a_ready_inv in Er.
    destruct (inv_deliver O A c d (a_get A c tid 0) HI Er) as (HI1 & Hs1 & Hc1).
    set (A1 := a_return d _ _) in *. destruct is_call.
    + apply inv_call; [done|by rewrite Hc1|by rewrite Hs1].
    + apply (inv_wake_state O _ d THREAD_STATE_WAIT_IPC_RECV); [by apply inv_return| |by right].
      by rewrite a_state_return, Hs1.
  - destruct is_nb.
    + unfold a_then_switch. simpl. rewrite a_switch_self by done. by apply inv_return.
    + apply inv_block_send; [done..|]. by destruct is_call.
Qed.

Lemma ipc_send_inv O A c d op :
  AInv O A -> a_current A = Some c -> 0 <= d -> AInv O (a_sys_ipc_send c d op A).
Proof.
  intros HI Hc Hd. unfold a_sys_ipc_send. destruct (Z.leb_spec (Z.of_nat max_tcbs) d); [by apply inv_return|].
  destruct (a_alive _ _); [|by apply inv_return]. apply do_send_inv; [done|done|lia].
Qed.

(** The first waiting sender is served. *)
Lemma recv_sender_inv O A c a l t :
  AInv O A -> a_current A = Some c -> a_queue A (QSend c) = a :: l ->
  a_tcbs A !! a = Some t -> blocked_sending (thread_state t) = true ->
  a ∉ O -> a <> c -> forall v,
  let A1 := a_copy_message a c (a_pop (QSend c) A) in
  (thread_state t = THREAD_STATE_WAIT_IPC_CALL ->
   AInv O (a_return c v (a_upd a (set_thread_state THREAD_STATE_WAIT_IPC_RECV) A1))) /\
  AInv O (a_then_switch (a_activate_schedule a
     (a_return c v (a_return a 0 (a_upd a (set_ipc_waiting_for None) A1))))).
Proof.
  intros HI Hc Hq Ht Hst HaO Hac v A1. destruct (inv_cur _ _ _ HI Hc) as (tc & Htc & Hrun).
  pose proof (inv_other _ _ HI _ Hc) as HcO.
  pose proof (inv_queued_F _ _ HI) as HQ. rewrite Hc in HQ. simpl in HQ.
  assert (HQ1 : Queued (O ∪ {[c]} ∪ {[a]}) A1).
  { apply (copy_message_pres (fun B => Queued (O ∪ {[c]} ∪ {[a]}) B)); [|by eapply queued_pop].
    intros f B ? _. apply queued_upd. left. set_solver. }
  assert (HD1 : DataOk A1).
  { apply (copy_message_pres DataOk); [|apply data_setq; [done|apply HI]].
    intros f B ? _. by apply data_irr. }
  assert (Ht1 : a_tcbs A1 !! a = Some t).
  { apply (copy_message_pres (fun B => a_tcbs B !! a = Some t)); [|done].
    intros f B _ _ HB. by rewrite a_upd_ne. }
  assert (Hs1 : forall x, a_state A1 x = a_state A x).
  { intros x. apply (copy_message_pres (fun B => a_state B x = a_state A x)); [|done].
    intros f B' _ ? <-. apply a_state_upd_id. apply neutral_state. }
  assert (Hc1 : a_current A1 = Some c).
  { by apply (copy_message_pres (fun B => a_current B = Some c)). }
  assert (Hu1 : unit_ok A1).
  { apply (copy_message_pres unit_ok); [|apply HI]. intros f B _ ?. apply unit_ok_upd, neutral_prio. }
  assert (Htop1 : top_ok A1).
  { apply (copy_message_pres top_ok); [|apply top_setq; [done|apply HI]].
    intros f B _ ?. apply top_upd. left. apply neutral_prio. }
  assert (Ho1 : others_run O A1) by (intros x Hx; rewrite Hs1; by apply (inv_others _ _ HI)).
  assert (Hnew : forall st, blocked_sending st = false -> alive_state st = true ->
      st <> THREAD_STATE_WAIT_FUTEX -> DataOk (a_upd a (set_thread_state st) A1)).
  { intros st H1 H2 H3. eapply data_set_state; [done|done|congruence|congruence| | |done]; right.
    - eapply (data_no_joiner _ _ _ _ HD1 Ht1 eq_refl). intros Hx. by rewrite Hx in Hst.
    - eapply (data_no_handler _ _ _ _ HD1 Ht1 eq_refl). intros Hx. by rewrite Hx in Hst. }
  split.
  - intros _. apply inv_return. rewrite <-(a_switch_self (a_upd a _ A1) (Some c)) by done.
    apply inv_switch; [| | | |by apply Hnew|by rewrite a_switch_self by done; apply top_upd; [left|]].
    + eapply queued_set; [|eapply (queued_settle_none _ _ a);
        [apply queued_upd; [left|exact HQ1]| |by apply a_upd_eq|done]]; simpl; [|set_solver..].
      clear -HaO Hac. set_solver.
    + intros b [= <-]. split; [done|]. rewrite a_state_upd_ne, Hs1 by done. by rewrite (a_state_eq _ _ _ Htc).
    + apply others_run_upd; [by left|done].
    + rewrite a_switch_self by done. by apply unit_ok_upd.
  - assert (Ht2 : a_tcbs (a_return c v (a_return a 0 (a_upd a (set_ipc_waiting_for None) A1))) !! a
        = Some (set_reg 0 (u32 0) (set_ipc_waiting_for None t))).
    { unfold a_return at 1. rewrite a_upd_ne by done. by do 2 apply a_upd_eq. }
    eapply (inv_wake O _ a _); [|done| | | | |exact Ht2|].
    + simpl. rewrite Hc1. do 3 (apply queued_upd; [left; set_solver|]). exact HQ1.
    + intros c' Hc'. simpl in Hc'. rewrite Hc1 in Hc'. injection Hc' as <-. split_and!; [done|done|].
      rewrite !a_state_return, a_state_upd_id, Hs1 by done. by rewrite (a_state_eq _ _ _ Htc).
    + do 3 (apply others_run_upd; [by right|]). done.
    + by do 3 (apply unit_ok_upd; [done|]).
    + by do 3 (apply top_upd; [by left|]).
    + unfold a_return. rewrite !(a_upd_comm a _ (set_thread_state THREAD_STATE_RUNNABLE)) by done.
      do 2 (apply data_irr; [apply _|]).
      eapply data_waiting; [by apply Hnew|by apply a_upd_eq|done].
Qed.

Lemma ipc_recv_inv O A c src op :
  AInv O A -> a_current A = Some c -> AInv O (a_sys_ipc_recv c src op A).
Proof.
  intros HI Hc. destruct (inv_cur _ _ _ HI Hc) as (t & Ht & Hrun).
  unfold a_sys_ipc_recv. case_match; [by apply inv_return|].
  destruct (a_queue A (QSend c)) as [|a l] eqn:Eq.
  - apply (inv_block_plain O _ c); [|done|by auto].
    eapply inv_waiting; [done|done|by rewrite Hrun].
  - destruct (inv_sender _ _ _ _ _ HI Eq) as (ta & Hta & Hwf & Hst & Honly).
    destruct (inv_queued _ _ a (QSend c) HI) as (_ & _ & _ & Hn); [rewrite Eq; set_solver|].
    rewrite Hc in Hn. simpl in Hn.
    assert (Hb : blocked_sending (thread_state ta) = true) by (by destruct Hst as [-> | ->]).
    edestruct (recv_sender_inv O A c a l ta HI Hc Eq Hta Hb) as [H1 H2]; [set_solver|set_solver|].
    case_bool_decide as Hcall; [apply H1|exact H2].
    rewrite <-Hcall. symmetry.
    apply (copy_message_pres (fun B => a_state B a = thread_state ta)); [|by rewrite <-(a_state_eq _ _ _ Hta)].
    intros f B _ ? <-. apply a_state_upd_id, neutral_state.
Qed.

(** ** Futexes *)

Lemma insert_prio_elem A a l x : x ∈ insert_prio A a l <-> x = a \/ x ∈ l.
Proof. induction l as [|b l IH]; simpl; [set_solver|]. case_match; set_solver. Qed.

Lemma insert_prio_nodup A a l : NoDup l -> a ∉ l -> NoDup (insert_prio A a l).
Proof.
  induction l as [|b l IH]; simpl; [intros; apply NoDup_singleton|].
  intros Hnd Ha. case_match; [by apply NoDup_cons|].
  apply NoDup_cons in Hnd as [Hb Hnd]. rewrite not_elem_of_cons in Ha. destruct Ha as [Hab Ha].
  apply NoDup_cons. split; [|by apply IH]. rewrite insert_prio_elem. naive_solver.
Qed.

(** Threads of equal priority keep their order of arrival: insertion is
    behind every thread of at least the same priority. *)
Lemma insert_prio_sorted A a l :
  StronglySorted (fun x y => a_prio A y <= a_prio A x) l ->
  StronglySorted (fun x y => a_prio A y <= a_prio A x) (insert_prio A a l).
Proof.
  induction 1 as [|b l Hs IH Hf]; simpl; [by repeat constructor|].
  destruct (Z.ltb_spec (a_prio A b) (a_prio A a)) as [Hlt|Hge].
  - constructor; [by constructor|]. constructor; [lia|].
    rewrite List.Forall_forall in *. intros y Hy. specialize (Hf y Hy). lia.
  - constructor; [done|]. rewrite List.Forall_forall in *. intros y Hy.
    apply list_elem_of_In, insert_prio_elem in Hy as [->|Hy]; [lia|]. by apply Hf, list_elem_of_In.
Qed.

Lemma insert_prio_ext A B a l :
  (forall x, a_prio A x = a_prio B x) -> insert_prio A a l = insert_prio B a l.
Proof. intros Heq. induction l as [|b l IH]; simpl; [done|]. by rewrite !Heq, IH. Qed.

Lemma data_set_futex A h l :
  StronglySorted (fun x y => a_prio A y <= a_prio A x) l -> DataOk A -> DataOk (a_setq (QFutex h) l A).
Proof.
  intros Hl HD. constructor; simpl; try apply HD. intros h'. unfold qset. case_decide; [done|].
  apply (d_sorted _ HD).
Qed.

(** Taking a pending signal leaves the others pending. *)
Lemma a_take_pending_sub tag l l' x : a_take_pending tag l = Some l' -> x ∈ l' -> x ∈ l.
Proof.
  unfold a_take_pending. destruct (last_index tag l (length l)) as [i|]; [|done].
  destruct (last l) as [y|] eqn:El; [|done]. intros [= <-] Hx.
  apply list_elem_of_lookup in Hx as [k Hk]. apply lookup_take_Some in Hk as [Hk _].
  apply list_lookup_insert_Some in Hk as [(-> & <- & _)|[_ Hk]].
  - by apply last_Some_elem_of in El.
  - by apply list_elem_of_lookup_2 in Hk.
Qed.

Lemma last_index_None tag l n :
  last_index tag l n = None -> forall i, (i < n)%nat -> l !! i <> Some tag.
Proof.
  induction n as [|n IH]; simpl; [lia|]. case_bool_decide; [done|]. intros Hn i Hi.
  destruct (decide (i = n)) as [->|]; [done|]. apply IH; [done|lia].
Qed.

Lemma a_take_pending_none tag l : a_take_pending tag l = None -> tag ∉ l.
Proof.
  intros H%a_take_pending_None Hin. apply list_elem_of_lookup in Hin as [i Hi].
  eapply last_index_None; [done|by eapply lookup_lt_Some|done].
Qed.

Lemma data_set_pending A l :
  DataOk A -> (length l <= max_tcbs)%nat ->
  (forall a t, a_tcbs A !! a = Some t -> thread_state t = THREAD_STATE_WAIT_FUTEX -> futex_tag t ∉ l) ->
  DataOk (a_set_pending l A).
Proof. intros HD Hl Hn. constructor; simpl; try apply HD; done. Qed.

Lemma inv_set_pending O A l : DataOk (a_set_pending l A) -> AInv O A -> AInv O (a_set_pending l A).
Proof. intros HD [HP Hot Hrun Hu _ Hnd Htop]. constructor; try done. by eapply placed_same. Qed.

Definition sleep_on (tag : Z) (t : tcb) : tcb :=
  set_futex_tag tag (set_thread_state THREAD_STATE_WAIT_FUTEX t).

Lemma data_sleep_on O A c tag :
  AInv O A -> a_current A = Some c -> tag ∉ a_pending A -> DataOk (a_upd c (sleep_on tag) A).
Proof.
  intros HI Hc Hp. destruct (inv_cur _ _ _ HI Hc) as (t & Ht & Hrun).
  destruct (inv_cur_free _ _ _ _ HI Ht Hrun) as [Hj Hh].
  eapply data_upd; [apply HI|done|]. constructor; simpl; auto; try done.
  - by eapply (d_prio _ (inv_data _ _ HI)).
  - right. intros b t' Hb _. by eapply Hj.
  - intros Hjs. by destruct (Hj c t Ht).
Qed.

(** The current thread goes to sleep on a tag that has no pending signal. *)
Lemma futex_sleep_inv O A c tag :
  AInv O A -> a_current A = Some c -> tag ∉ a_pending A ->
  let '(n, A1) := a_deactivate_self_schedule THREAD_STATE_WAIT_FUTEX A in
  AInv O (a_switch_to n (a_upd c (set_futex_tag tag) (a_enqueue_futex (Futex.hash_tag tag) c A1))).
Proof.
  intros HI Hc Hp. destruct (inv_cur _ _ _ HI Hc) as (t & Ht & Hrun).
  pose proof (inv_other _ _ HI _ Hc) as HcO. pose proof (data_sleep_on _ _ _ _ HI Hc Hp) as HD.
  unfold a_deactivate_self_schedule, a_deactivate_self. rewrite Hc.
  set (A1 := a_upd c (set_thread_state THREAD_STATE_WAIT_FUTEX) A).
  pose proof (inv_queued_F _ _ HI) as HQ. rewrite Hc in HQ. simpl in HQ.
  assert (HQ1 : Queued (O ∪ {[c]}) A1) by (apply queued_upd; [left; set_solver|done]).
  destruct (schedule_next _ _ HQ1) as [Hu Hn].
  { intros x tx [(-> & t2 & ? & ->)|[_ ?]]%alter_Some; simpl; by eapply (d_prio _ (inv_data _ _ HI)). }
  { exact (inv_wf _ _ HI). }
  assert (Htop : top_ok (a_switch_to (fst (a_do_schedule A1)) (snd (a_do_schedule A1)))).
  { eapply top_schedule; [exact HQ1|].
    intros x tx [(-> & t2 & ? & ->)|[_ ?]]%alter_Some; simpl; by eapply (d_prio _ (inv_data _ _ HI)). }
  pose proof (queued_do_schedule _ _ HQ1) as HQ2. pose proof (a_do_schedule_tcbs A1) as Htc.
  pose proof (fun h => a_do_schedule_queue A1 (QFutex h) ltac:(done)) as Hqf.
  destruct (a_do_schedule_data A1) as (Hd1 & Hd2 & Hd3).
  destruct (a_do_schedule A1) as [n A2]. simpl fst in *. simpl snd in *.
  set (h := Futex.hash_tag tag). unfold a_enqueue_futex. set (l' := insert_prio A2 c _).
  assert (Htc2 : a_tcbs (a_upd c (set_futex_tag tag) A2) = a_tcbs (a_upd c (sleep_on tag) A))
    by (simpl; rewrite Htc; simpl; apply alter_alter_eq).
  assert (Ht2 : a_tcbs (a_upd c (set_futex_tag tag) A2) !! c = Some (sleep_on tag t))
    by (rewrite Htc2; by apply a_upd_eq).
  assert (Hunq : unqueued A2 c) by (eapply queued_unqueued; [exact HQ2|set_solver]).
  change (a_upd c (set_futex_tag tag) (a_setq (QFutex h) l' A2))
    with (a_setq (QFutex h) l' (a_upd c (set_futex_tag tag) A2)).
  assert (Hst : forall x, x <> c -> a_state (a_setq (QFutex h) l' (a_upd c (set_futex_tag tag) A2)) x = a_state A x).
  { intros x Hx. unfold a_state, a_get. change (a_tcbs (a_setq _ _ ?B)) with (a_tcbs B).
    rewrite Htc2. by rewrite a_upd_ne. }
  apply inv_switch.
  - eapply queued_set; [|eapply queued_settle; [apply queued_upd; [left|exact HQ2]| |exact Ht2|done| |]].
    + intros x. destruct n as [b|]; simpl; [|clear -HcO; set_solver].
      destruct (Hn b eq_refl) as [Hb _]. clear -HcO Hb. set_solver.
    + set_solver.
    + set_solver.
    + apply insert_prio_nodup; [apply HQ2|apply Hunq].
    + intros x. apply insert_prio_elem.
  - intros a Ha. destruct (Hn a Ha) as [Hac Hsa]. split; [set_solver|].
    rewrite Hst by set_solver. rewrite <-Hsa. symmetry. apply a_state_upd_ne. set_solver.
  - intros a Ha. rewrite Hst by (intros ->; done). by apply (inv_others _ _ HI).
  - by apply (unit_ok_upd c (set_futex_tag tag) (a_switch_to n A2)).
  - assert (Hl' : l' = insert_prio A c (a_queue A (QFutex h))).
    { unfold l'. rewrite Hqf. apply insert_prio_ext. intros x. unfold a_prio, a_get. rewrite Htc.
      apply (a_prio_upd c). done. }
    eapply (data_ext (a_setq (QFutex h) l' (a_upd c (sleep_on tag) A))); [|done|done|done|done|].
    + apply data_set_futex; [|done]. eapply (sorted_prio_ext A); [intros; by apply a_prio_upd|].
      rewrite Hl'. apply insert_prio_sorted, (d_sorted _ (inv_data _ _ HI)).
    + intros h'. simpl. unfold qset. case_decide; [done|]. apply Hqf.
  - apply (top_setq (QFutex h) l' (a_upd c (set_futex_tag tag) (a_switch_to n A2))); [done|].
    by apply top_upd; [left|].
Qed.

Lemma futex_wait_inv O A c tag :
  AInv O A -> a_current A = Some c -> AInv O (a_sys_futex_wait c tag A).
Proof.
  intros HI Hc. unfold a_sys_futex_wait. case_match; [by apply inv_return|].
  destruct (a_take_pending tag (a_pending A)) as [l|] eqn:Et.
  - apply inv_return, inv_set_pending; [|done]. pose proof (inv_data _ _ HI) as HD.
    apply data_set_pending; [done| |].
    + pose proof (a_take_pending_length _ _ _ Et). pose proof (d_pending_len _ HD). lia.
    + intros a t Ht Hst Hin. eapply (d_nolost _ HD); [done..|]. by eapply a_take_pending_sub.
  - pose proof (futex_sleep_inv O (a_return c 0 A) c tag) as Hs.
    destruct (a_deactivate_self_schedule _ _) as [n A1].
    apply Hs; [by apply inv_return|done|by apply a_take_pending_none].
Qed.

Lemma sorted_filter A (P : nat -> Prop) `{!forall x, Decision (P x)} l :
  StronglySorted (fun x y => a_prio A y <= a_prio A x) l ->
  StronglySorted (fun x y => a_prio A y <= a_prio A x) (filter P l).
Proof.
  induction 1 as [|x l Hs IH Hf]; [constructor|]. rewrite filter_cons. case_decide; [|done].
  constructor; [done|]. rewrite List.Forall_forall in *. intros y Hy. apply Hf.
  apply list_elem_of_In in Hy. apply list_elem_of_filter in Hy as [_ Hy]. by apply list_elem_of_In.
Qed.

Lemma futex_signal_inv O A c tag :
  AInv O A -> a_current A = Some c -> AInv O (a_sys_futex_signal c tag A).
Proof.
  intros HI Hc. unfold a_sys_futex_signal. case_match; [by apply inv_return|].
  destruct (a_find_waiter tag A) as [w|] eqn:Ew.
  - apply a_find_waiter_Some in Ew as [Hw Htag]. destruct (inv_queued _ _ _ _ HI Hw) as (t & Ht & Hh & Hn).
    rewrite Hc in Hn. simpl in Hn.
    assert (Hst : thread_state t = THREAD_STATE_WAIT_FUTEX).
    { revert Hh. unfold home. destruct (thread_state t), (ipc_waiting_for t); done. }
    pose proof (inv_queued_F _ _ HI) as HQ. rewrite Hc in HQ. simpl in HQ.
    pose proof (queued_remove _ _ w _ HQ Hw) as HQ1.
    destruct (inv_cur _ _ _ HI Hc) as (tc & Htc & Hrun).
    assert (HI1 : AInv O (a_then_switch (a_activate_schedule w (a_remove (QFutex (Futex.hash_tag tag)) w A)))).
    { eapply (inv_wake O _ w t); [by simpl; rewrite Hc|set_solver| |exact (inv_others _ _ HI)|apply HI|
        by apply top_setq; [|apply HI]|done|].
      - intros c' Hc'. simpl in Hc'. rewrite Hc in Hc'. injection Hc' as <-.
        split; [by apply (inv_other _ _ HI)|]. split; [set_solver|]. by eapply eq_trans; [apply (a_state_eq A _ _ Htc)|].
      - apply (data_set_futex (a_upd w (set_thread_state THREAD_STATE_RUNNABLE) A)).
        + eapply (sorted_prio_ext A); [intros; by apply a_prio_upd|].
          apply sorted_filter, (d_sorted _ (inv_data _ _ HI)).
        + pose proof (inv_data _ _ HI) as HD. eapply data_set_state; [done|done|done|done| | |done]; right.
          * by eapply (data_no_joiner _ _ _ _ HD Ht Hst).
          * by eapply (data_no_handler _ _ _ _ HD Ht Hst). }
    destruct (a_activate_schedule w _) as [n A1]. by apply (inv_return O (a_switch_to n A1)).
  - destruct (Z.leb_spec (Z.of_nat max_tcbs) (Z.of_nat (length (a_pending A)))); [by apply inv_return|].
    apply inv_return, inv_set_pending; [|done]. pose proof (inv_data _ _ HI) as HD.
    apply data_set_pending; [done|rewrite length_app; simpl; lia|].
    intros a t Ht Hst Hin. apply elem_of_app in Hin as [Hin|Hin%list_elem_of_singleton].
    + by eapply (d_nolost _ HD).
    + unfold a_find_waiter in Ew. pose proof (List.find_none _ _ Ew a) as Hf.
      unfold has_tag in Hf. rewrite (a_get_eq _ _ _ _ _ Ht), Hin, Z.eqb_refl in Hf.
      enough (true = false) by done. apply Hf, list_elem_of_In.
      apply (inv_home _ _ _ _ _ HI Ht); [by rewrite Hst|]. unfold home. by rewrite Hst, Hin.
Qed.

(** ** Threads *)

Lemma thread_myself_inv O A c : AInv O A -> AInv O (a_sys_thread_myself c A).
Proof. apply inv_return. Qed.

(** The initialisation of a free TCB. *)
Lemma data_init_thread A n t pc sp r0 prio :
  DataOk A -> a_tcbs A !! n = Some t -> thread_state t = THREAD_STATE_HALTED ->
  (forall h, n ∉ a_queue A (QFutex h)) -> 0 <= prio < 32 ->
  DataOk (a_upd n (set_thread_state THREAD_STATE_RUNNABLE) (a_init_thread n pc sp r0 prio A)).
Proof.
  intros HD Ht Hst Hq Hp. unfold a_init_thread.
  set (A3 := a_upd n (set_reg 0 r0) (a_upd n (set_reg 15 pc) (a_upd n (set_reg 13 sp) A))).
  assert (HD3 : DataOk A3) by (by repeat (apply data_irr; [apply _|])).
  assert (exists t3, a_tcbs A3 !! n = Some t3 /\ thread_state t3 = THREAD_STATE_HALTED) as (t3 & Ht3 & Hst3)
    by (eexists; split; [by do 3 apply a_upd_eq|done]).
  rewrite !(a_upd_comm n n (set_thread_state THREAD_STATE_RUNNABLE)) by done.
  do 2 (apply data_irr; [apply _|]). rewrite <-(a_upd_comm n n (set_thread_state THREAD_STATE_RUNNABLE)) by done.
  assert (HD4 : DataOk (a_upd n (set_priority prio) A3)).
  { eapply data_upd; [done|done|].
    pose proof (upd_ok_same A3 n t3 t3 HD3 Ht3) as Hs. destruct Hs; try done.
    constructor; simpl; auto. }
  eapply data_set_state; [done|by apply a_upd_eq|done|done| | |done]; right.
  - by eapply (data_no_joiner _ _ (set_priority prio t3) THREAD_STATE_HALTED HD4); [apply a_upd_eq|..].
  - by eapply (data_no_handler _ _ (set_priority prio t3) THREAD_STATE_HALTED HD4); [apply a_upd_eq|..].
Qed.

Lemma thread_create_inv O A c pc sp r0 prio :
  AInv O A -> a_current A = Some c -> 0 <= prio -> AInv O (a_sys_thread_create c pc sp r0 prio A).
Proof.
  intros HI Hc Hp. unfold a_sys_thread_create.
  destruct (Z.ltb_spec MAX_PRIORITY prio) as [|Hp']; [by apply inv_return|].
  destruct (a_queue A QFree) as [|n l] eqn:Eq; [by apply inv_return|].
  destruct (inv_free _ _ _ _ HI Eq) as (tn & Htn & Hst & Honly).
  destruct (inv_cur _ _ _ HI Hc) as (tc & Htc & Hrun).
  destruct (inv_queued _ _ n QFree HI) as (_ & _ & _ & Hn); [rewrite Eq; set_solver|].
  rewrite Hc in Hn. simpl in Hn. pose proof (inv_queued_F _ _ HI) as HQ. rewrite Hc in HQ. simpl in HQ.
  pose proof (queued_pop _ _ n l _ HQ Eq) as HQ1.
  assert (Hne : n <> c) by set_solver.
  assert (Hs : forall x, a_state (a_init_thread n pc sp r0 prio (a_pop QFree A)) x = a_state A x).
  { intros x. unfold a_init_thread. by rewrite !a_state_upd_id. }
  assert (HI1 : AInv O (a_then_switch (a_activate_schedule n (a_init_thread n pc sp r0 prio (a_pop QFree A))))).
  { eapply (inv_wake O _ n); [|set_solver| | | | |by do 6 apply a_upd_eq|].
    - simpl. rewrite Hc. do 6 (apply queued_upd; [left; set_solver|]). exact HQ1.
    - intros c' Hc'. simpl in Hc'. rewrite Hc in Hc'. injection Hc' as <-.
      split; [by apply (inv_other _ _ HI)|]. split; [done|]. rewrite Hs. by rewrite (a_state_eq _ _ _ Htc).
    - intros x Hx. rewrite Hs. by apply (inv_others _ _ HI).
    - unfold a_init_thread. do 6 (apply unit_ok_upd_ne; [simpl; congruence|]). apply HI.
    - unfold a_init_thread. do 6 (apply top_upd; [right; simpl; congruence|]). apply top_setq; [done|apply HI].
    - eapply data_init_thread; [apply data_setq; [done|apply HI]|done|done| |unfold MAX_PRIORITY in Hp'; lia].
      intros h Hq. apply Honly in Hq. done. }
  destruct (a_activate_schedule n _) as [nx A1]. by apply (inv_return O (a_switch_to nx A1)).
Qed.

(** A zombie is reaped. *)
Lemma inv_reap O A d t :
  AInv O A -> a_tcbs A !! d = Some t -> thread_state t = THREAD_STATE_ZOMBIE -> AInv O (a_reap d A).
Proof.
  intros HI Ht Hst. pose proof (inv_data _ _ HI) as HD.
  pose proof (inv_not_running _ _ _ _ HI Ht ltac:(congruence)) as Hn.
  rewrite <-(a_switch_self (a_reap d A) (a_current A)) by done. apply inv_switch.
  - pose proof (inv_queued_F _ _ HI) as HQ.
    apply (queued_float_none _ _ d t) in HQ; [|done|done|unfold home; by rewrite Hst].
    unfold a_reap. eapply queued_set; [|eapply queued_push_front;
      [apply queued_upd; [left|exact HQ]| |by apply a_upd_eq|done]]; set_solver.
  - intros a Ha. split; [by apply (inv_other _ _ HI)|]. unfold a_reap.
    assert (a <> d) by (intros ->; rewrite Ha in Hn; set_solver).
    change (a_state (a_upd d (set_thread_state THREAD_STATE_HALTED) A) a = THREAD_STATE_RUNNABLE).
    rewrite a_state_upd_ne by done. apply (inv_run _ _ HI). rewrite Ha. set_solver.
  - apply (others_run_upd O A); [left; set_solver|by apply inv_others].
  - rewrite a_switch_self by done. apply (unit_ok_upd d _ A); [done|apply HI].
  - apply data_setq; [done|]. eapply data_set_state; [done|done|done| | | |done].
    + intros _. destruct (joiner t) as [j|] eqn:E; [|done].
      destruct (d_join _ HD _ _ _ Ht E) as [_ Hal]. by rewrite Hst in Hal.
    + right. by eapply (data_no_joiner _ _ _ _ HD Ht Hst).
    + right. by eapply (data_no_handler _ _ _ _ HD Ht Hst).
  - rewrite a_switch_self by done.
    apply top_setq; [done|]. apply (top_upd d _ A); [by left|apply HI].
Qed.

(** A blocked thread becomes the joiner of a live one. *)
Lemma data_set_joiner A c d t :
  DataOk A -> a_tcbs A !! d = Some t -> alive_state (thread_state t) = true ->
  a_state A c = THREAD_STATE_WAIT_JOIN -> (forall b t', a_tcbs A !! b = Some t' -> joiner t' <> Some c) ->
  DataOk (a_upd d (set_joiner (Some c)) A).
Proof.
  intros HD Ht Hal Hst Hno.
  assert (Hs : forall b, a_state (a_upd d (set_joiner (Some c)) A) b = a_state A b)
    by (intros b; by rewrite a_state_upd_id).
  pose proof (d_prio _ HD) as d1. pose proof (d_tid _ HD) as d2. pose proof (d_regs _ HD) as d3.
  pose proof (d_send _ HD) as d4. pose proof (d_reg _ HD) as d5. pose proof (d_nolost _ HD) as d6.
  constructor; simpl; try apply HD.
  - intros x. rewrite <-(d_dom _ HD). destruct (decide (d = x)) as [->|].
    + rewrite lookup_alter_eq. by rewrite fmap_is_Some.
    + by rewrite lookup_alter_ne.
  - intros x t' [(-> & t2 & ? & ->)|[_ ?]]%alter_Some; simpl; eauto.
  - intros x t' [(-> & t2 & ? & ->)|[_ ?]]%alter_Some; simpl; eauto.
  - intros x t' [(-> & t2 & ? & ->)|[_ ?]]%alter_Some; simpl; eauto.
  - intros x t' [(-> & t2 & ? & ->)|[_ ?]]%alter_Some; simpl; eauto.
  - intros b t' j. rewrite Hs. intros [(-> & t2 & Ht2 & ->)|[_ Hb]]%alter_Some; simpl.
    + intros [= <-]. split; [done|]. by assert (t2 = t) as -> by congruence.
    + by eapply (d_join _ HD).
  - intros b b' t1 t2 j [(-> & t3 & ? & ->)|[? H1]]%alter_Some [(-> & t4 & ? & ->)|[? H2]]%alter_Some;
      simpl; intros Hj1 Hj2; [done|exfalso..|by eapply (d_join_inj _ HD)].
    + apply (Hno _ _ H2). congruence.
    + apply (Hno _ _ H1). congruence.
  - intros x t' [(-> & t2 & ? & ->)|[_ ?]]%alter_Some; simpl; eauto.
  - intros i x Hx. destruct (d_handler _ HD i x Hx) as (t' & Ht' & Hr).
    destruct (state_upds_tcb A d (set_joiner (Some c)) x t' Ht') as (t2 & Ht2 & _); [done|].
    exists t2. split; [done|]. apply alter_Some in Ht2 as [(-> & t3 & ? & ->)|[_ ?]]; simpl; congruence.
  - intros i Hi Hb. destruct (d_enable _ HD i Hi Hb) as (x & Hx & Hsx). exists x. by rewrite Hs.
  - intros x t' [(-> & t2 & ? & ->)|[_ ?]]%alter_Some; simpl; eauto.
  - intros h. eapply sorted_prio_ext; [|apply (d_sorted _ HD)]. intros x _. by rewrite a_prio_upd.
Qed.

Lemma thread_join_inv O A c i :
  AInv O A -> a_current A = Some c -> 0 <= i -> AInv O (a_sys_thread_join c i A).
Proof.
  intros HI Hc Hi. unfold a_sys_thread_join.
  destruct (Z.leb_spec (Z.of_nat max_tcbs) i); [by apply inv_return|]. set (d := Z.to_nat i).
  destruct (inv_thread_id _ _ i HI) as [td Htd]; [lia|]. fold d in Htd.
  case_bool_decide as Hh; [by apply inv_return|]. rewrite (a_state_eq _ _ _ Htd) in *.
  case_bool_decide as Hz; [by apply inv_return; eapply inv_reap|].
  case_bool_decide as Hj; [by apply inv_return|].
  assert (HI0 : AInv O (a_return c 0 A)) by (by apply inv_return).
  pose proof (inv_block_plain O _ c THREAD_STATE_WAIT_JOIN HI0 Hc ltac:(tauto)) as HI1.
  assert (Hfacts : a_tcbs (snd (a_deactivate_self_schedule THREAD_STATE_WAIT_JOIN (a_return c 0 A)))
    = a_tcbs (a_upd c (set_thread_state THREAD_STATE_WAIT_JOIN) (a_return c 0 A))).
  { unfold a_deactivate_self_schedule, a_deactivate_self. rewrite a_do_schedule_tcbs. simpl. by rewrite Hc. }
  destruct (a_deactivate_self_schedule _ _) as [n A1]. unfold a_then_switch in HI1. simpl fst in *. simpl snd in *.
  destruct (inv_cur _ _ _ HI Hc) as (tc & Htc & Hrun).
  destruct (inv_cur_free _ _ _ _ HI Htc Hrun) as [Hnoj _].
  apply (inv_upd O (a_switch_to n A1)); [done|done|done| |done].
  assert (exists t1, a_tcbs A1 !! d = Some t1 /\ alive_state (thread_state t1) = true) as (t1 & Ht1 & Hal).
  { rewrite Hfacts. destruct (decide (c = d)) as [<-|Hne].
    - eexists. split; [by do 2 apply a_upd_eq|done].
    - exists td. unfold a_return. rewrite !a_upd_ne by done. split; [done|].
      unfold alive_state. by rewrite !bool_decide_false. }
  eapply data_set_joiner; [apply HI1|exact Ht1|done| |].
  - unfold a_state, a_get. simpl. rewrite Hfacts. simpl. by rewrite !lookup_alter_eq, Htc.
  - simpl. rewrite Hfacts. intros b t' [(-> & t2 & [(_ & t3 & ? & ->)|[? ?]]%alter_Some & ->)|[_
      [(-> & t3 & ? & ->)|[_ ?]]%alter_Some]]%alter_Some; simpl; by eapply Hnoj.
Qed.

(** The dying thread gives up its interrupt. *)
Lemma inv_drop_interrupt O A c :
  AInv O A -> a_current A = Some c ->
  AInv O (a_drop_interrupt c A) /\ a_current (a_drop_interrupt c A) = Some c.
Proof.
  intros HI Hc. destruct (inv_cur _ _ _ HI Hc) as (t & Ht & Hrun). unfold a_drop_interrupt.
  rewrite (a_get_eq _ _ _ _ _ Ht).
  destruct (Z.eqb_spec (registered_interrupt t) Interrupt.NO_INTERRUPT) as [|Hne]; [done|].
  destruct (d_reg _ (inv_data _ _ HI) _ _ Ht Hne) as [Hr Hh]. split; [|done].
  eapply (inv_handlers O A c Interrupt.NO_INTERRUPT _ []); [done|].
  eapply data_deregister; [apply HI|done|done|by rewrite Hrun].
Qed.

(** Exit of a thread nobody has joined: it stays as a zombie. *)
Lemma exit_zombie_inv O A c t :
  AInv O A -> a_current A = Some c -> a_tcbs A !! c = Some t -> joiner t = None ->
  AInv O (a_then_switch (a_do_schedule (a_upd c (set_thread_state THREAD_STATE_ZOMBIE) A))).
Proof.
  intros HI Hc Ht Hj. destruct (inv_cur _ _ _ HI Hc) as (t' & Ht' & Hrun).
  destruct (inv_cur_free _ _ _ _ HI Ht' Hrun) as [Hnj Hnh].
  pose proof (inv_block_none O A c THREAD_STATE_ZOMBIE HI Hc) as Hb.
  unfold a_deactivate_self_schedule, a_deactivate_self in Hb. rewrite Hc in Hb. apply Hb; [done|].
  eapply data_set_state; [apply HI|exact Ht|done|done|by right|by right|done].
Qed.

(** The data after the exit of a joined thread: its joiner is cleared
    first, then it is halted, and the joiner made runnable. *)
Lemma data_exit_joined O A c t j :
  AInv O A -> a_current A = Some c -> a_tcbs A !! c = Some t -> joiner t = Some j ->
  DataOk (a_upd j (set_thread_state THREAD_STATE_RUNNABLE)
    (a_upd c (set_thread_state THREAD_STATE_HALTED) (a_upd c (set_joiner None) A))).
Proof.
  intros HI Hc Ht Hj. pose proof (inv_data _ _ HI) as HD.
  assert (Hrun : thread_state t = THREAD_STATE_RUNNABLE).
  { destruct (inv_cur _ _ _ HI Hc) as (t' & Ht' & ?). congruence. }
  destruct (inv_cur_free _ _ _ _ HI Ht Hrun) as [Hnj Hnh].
  destruct (d_join _ HD _ _ _ Ht Hj) as [Hsj _].
  destruct (a_state_inv _ _ _ Hsj) as (tj & Htj & Hstj); [done|]. assert (Hcj : c <> j) by congruence.
  assert (HD1 : DataOk (a_upd c (set_joiner None) A)).
  { eapply data_upd; [done|done|]. destruct (upd_ok_same A c t t HD Ht); try done. constructor; simpl; auto; done. }
  set (A1 := a_upd c (set_joiner None) A) in *.
  assert (Ht1 : a_tcbs A1 !! c = Some (set_joiner None t)) by (by apply a_upd_eq).
  assert (HD2 : DataOk (a_upd c (set_thread_state THREAD_STATE_HALTED) A1)).
  { eapply data_set_state; [done|done|done|done| | |done]; right.
    - by eapply (data_no_joiner _ _ _ _ HD1 Ht1 Hrun).
    - by eapply (data_no_handler _ _ _ _ HD1 Ht1 Hrun). }
  set (A2 := a_upd c (set_thread_state THREAD_STATE_HALTED) A1) in *.
  assert (Htj2 : a_tcbs A2 !! j = Some tj) by (unfold A2, A1; by rewrite !a_upd_ne).
  eapply data_set_state; [done|done|done|done| | |done]; right.
  - intros b t' [(-> & t2 & [(_ & t3 & ? & ->)|[? ?]]%alter_Some & ->)|[Hb
      [(-> & t3 & ? & ->)|[_ Hb']]%alter_Some]]%alter_Some; simpl; try done.
    intros Hj'. apply Hb. by eapply (d_join_inj _ HD).
  - by eapply (data_no_handler _ _ _ _ HD2 Htj2 Hstj).
Qed.

Lemma exit_joined_inv O A c t j :
  AInv O A -> a_current A = Some c -> a_tcbs A !! c = Some t -> joiner t = Some j ->
  AInv O (a_then_switch (a_do_schedule (a_upd c (set_joiner None)
     (a_activate j (a_reap c (a_upd c (set_thread_state THREAD_STATE_ZOMBIE) A)))))).
Proof.
  intros HI Hc Ht Hj. pose proof (inv_other _ _ HI _ Hc) as HcO.
  pose proof (data_exit_joined _ _ _ _ _ HI Hc Ht Hj) as HD.
  destruct (d_join _ (inv_data _ _ HI) _ _ _ Ht Hj) as [Hsj _].
  destruct (a_state_inv _ _ _ Hsj) as (tj & Htj & Hstj); [done|].
  pose proof (inv_not_running _ _ _ _ HI Htj ltac:(congruence)) as Hjn. rewrite Hc in Hjn. simpl in Hjn.
  assert (Hcj : c <> j) by set_solver.
  set (A1 := a_reap c (a_upd c (set_thread_state THREAD_STATE_ZOMBIE) A)).
  assert (HQ1 : Queued O A1).
  { pose proof (inv_queued_F _ _ HI) as HQ. rewrite Hc in HQ. simpl in HQ.
    eapply queued_set; [|eapply queued_push_front; [apply queued_upd; [left|apply queued_upd; [left|exact HQ]]|
       |by do 2 apply a_upd_eq|done]]; [|set_solver..]. clear -HcO. set_solver. }
  assert (Htj1 : a_tcbs A1 !! j = Some tj) by (unfold A1; simpl; by rewrite !lookup_alter_ne).
  apply inv_schedule.
  - apply queued_upd; [by right|].
    apply (queued_float_none _ _ j tj) in HQ1; [|set_solver|done|unfold home; by rewrite Hstj].
    apply (queued_activate _ _ j) in HQ1; [|set_solver].
    eapply queued_set; [|exact HQ1]. clear -Hjn. set_solver.
  - eapply (data_ext _ _ HD); try done.
    simpl. rewrite alter_alter_eq.
      rewrite (alter_comm (set_joiner None) (set_thread_state THREAD_STATE_RUNNABLE)) by done.
      f_equal. rewrite !alter_alter_eq. apply alter_ext. done.
  - exact (inv_wf _ _ HI).
  - intros x Hx. rewrite a_state_upd_id by done.
    change (a_state (a_upd j (set_thread_state THREAD_STATE_RUNNABLE) (a_upd c (set_thread_state THREAD_STATE_HALTED)
      (a_upd c (set_thread_state THREAD_STATE_ZOMBIE) A))) x = THREAD_STATE_RUNNABLE).
    rewrite !a_state_upd_ne by (intros ->; set_solver). by apply (inv_others _ _ HI).
Qed.

Lemma thread_exit_inv O A c : AInv O A -> a_current A = Some c -> AInv O (a_sys_thread_exit c A).
Proof.
  intros HI Hc. unfold a_sys_thread_exit.
  assert (Hj : a_get A c joiner None = a_get (a_drop_interrupt c A) c joiner None).
  { symmetry. apply (a_drop_interrupt_ind (fun B => a_get B c joiner None = a_get A c joiner None)); try done.
    intros B <-. by apply a_get_neutral. }
  rewrite Hj. destruct (inv_drop_interrupt _ _ _ HI Hc) as [HI1 Hc1].
  clear Hj. generalize dependent (a_drop_interrupt c A). clear A HI Hc. intros A HI Hc.
  destruct (inv_cur _ _ _ HI Hc) as (t & Ht & _). rewrite (a_get_eq _ _ _ _ _ Ht).
  destruct (joiner t) as [j|] eqn:Ej; [by eapply exit_joined_inv|by eapply exit_zombie_inv].
Qed.

End inv_sys.
