(* ===== verification/NanoBoot.v ===== *)
(** * A bootable configuration

    The kernel's tables are laid out by the weaver before boot.  This file
    has one such layout (one execution unit, three TCBs of which the first
    runs and two are free, a futex table of four slots) and shows that it
    satisfies the invariant, so that the theorems on reachable states speak
    of real executions. *)

From Stdlib Require Import Sorting.Sorted.
From S2P Require Import Prelude NanoState NanoSchedule NanoSyscalls NanoSpec Rings NanoLinks NanoRep NanoRefineSched NanoInv.
#[local] Open Scope Z_scope.

Definition demo_cfg : NanoConfig.
Proof.
  refine {| NUM_EXECUTION_UNITS := 1; max_tcbs := 3; futex_hash_slots := 4;
            futex_hash_slots_lg2 := 2; NUM_INTERRUPTS := 32 |}; unfold WORD_MOD; lia.
Defined.

Definition blank_tcb (i : nat) (st : thread_state_t) (prio : Z) (nx pv : ptr) : tcb :=
  Tcb (replicate 16 0) 0 0 prio st nx pv 0 (Z.of_nat i) None None 0 0 Interrupt.NO_INTERRUPT None.

Definition boot_tcbs : gmap nat tcb :=
  list_to_map [(0%nat, blank_tcb 0 THREAD_STATE_RUNNABLE 10 None None);
               (1%nat, blank_tcb 1 THREAD_STATE_HALTED 0 (Some 2%nat) (Some 2%nat));
               (2%nat, blank_tcb 2 THREAD_STATE_HALTED 0 (Some 1%nat) (Some 1%nat))].

Definition boot : kstate :=
  KState boot_tcbs (Some 0%nat) 0 [11; 0; 0] 0 0 (replicate 32 None) (replicate 4 (None, None))
    (replicate 3 0) 0 (Some 1%nat) (replicate 32 None) (replicate 32 0) 0.

Definition boot_queue (q : qid) : list nat := match q with QFree => [1; 2]%nat | _ => [] end.

Definition boot_abs : akernel :=
  AK (erase <$> boot_tcbs) boot_queue (Some 0%nat) 0 [11; 0; 0] 0 [] (replicate 32 None) (replicate 32 0) 0.

#[local] Existing Instance demo_cfg.

(** Case analysis on the three TCBs. *)
Lemma boot_lookup (P : nat -> tcb -> Prop) :
  P 0%nat (blank_tcb 0 THREAD_STATE_RUNNABLE 10 None None) ->
  P 1%nat (blank_tcb 1 THREAD_STATE_HALTED 0 (Some 2%nat) (Some 2%nat)) ->
  P 2%nat (blank_tcb 2 THREAD_STATE_HALTED 0 (Some 1%nat) (Some 1%nat)) ->
  forall i t, boot_tcbs !! i = Some t -> P i t.
Proof.
  intros H0 H1 H2 i t Hi. unfold boot_tcbs in Hi. simpl in Hi.
  rewrite !lookup_insert_Some, lookup_empty in Hi.
  destruct Hi as [[<- <-]|[_ [[<- <-]|[_ [[<- <-]|[_ ?]]]]]]; done.
Qed.

Lemma boot_links : Links (tcbs boot) boot_queue.
Proof.
  constructor.
  - intros [] [] a; simpl; set_solver.
  - intros []; simpl; try apply NoDup_nil_2. repeat constructor; set_solver.
  - intros []; unfold linked_list; simpl; try done.
  - intros a [t Ha] Hq. destruct (decide (a = 1 \/ a = 2)%nat) as [|Hne].
    { exfalso. apply (Hq QFree). simpl. set_solver. }
    unfold nxt, prv. rewrite Ha. simpl. revert a t Ha Hq Hne.
    apply (boot_lookup (fun a t => (forall q, a ∉ boot_queue q) -> ~ (a = 1 \/ a = 2)%nat ->
      Some (next t) = Some None /\ Some (prev t) = Some None)).
    all: simpl; try done; intros _ Hx; by destruct Hx; auto.
Qed.

Lemma boot_rep : Rep boot boot_abs.
Proof.
  constructor; try reflexivity.
  - apply boot_links.
  - intros p Hp. apply lookup_replicate_2. lia.
  - intros p H. by destruct H.
  - by split.
  - intros p Hp. by rewrite Z.bits_0.
  - apply (boot_lookup (fun d t => ipc_send_head t = None)). all: done.
  - intros h Hh. assert (Z.to_nat h < 4)%nat by (simpl in Hh; lia).
    simpl. by destruct (Z.to_nat h) as [|[|[|[|]]]]; [..|lia].
Qed.

Lemma boot_abs_lookup (P : nat -> tcb -> Prop) :
  P 0%nat (erase (blank_tcb 0 THREAD_STATE_RUNNABLE 10 None None)) ->
  P 1%nat (erase (blank_tcb 1 THREAD_STATE_HALTED 0 (Some 2%nat) (Some 2%nat))) ->
  P 2%nat (erase (blank_tcb 2 THREAD_STATE_HALTED 0 (Some 1%nat) (Some 1%nat))) ->
  forall i t, a_tcbs boot_abs !! i = Some t -> P i t.
Proof.
  intros H0 H1 H2 i t. simpl. rewrite lookup_fmap. destruct (boot_tcbs !! i) as [t0|] eqn:E; [|done].
  intros [= <-]. by apply (boot_lookup (fun i t => P i (erase t))).
Qed.

Lemma boot_dom a : is_Some (a_tcbs boot_abs !! a) <-> (a < 3)%nat.
Proof.
  split.
  - intros [t Ht]. revert a t Ht. apply (boot_abs_lookup (fun a _ => (a < 3)%nat)). all: lia.
  - intros Ha. destruct a as [|[|[|]]]; [by eexists..|lia].
Qed.

Lemma boot_no_handler i a : a_handlers boot_abs !! i <> Some (Some a).
Proof. intros H. apply list_elem_of_lookup_2 in H. vm_compute in H. set_solver. Qed.

Lemma boot_data : DataOk boot_abs.
Proof.
  constructor; try done.
  - apply boot_dom.
  - apply (boot_abs_lookup (fun a t => 0 <= priority t < 32)). all: done.
  - apply (boot_abs_lookup (fun a t => tid t = Z.of_nat a)). all: done.
  - apply (boot_abs_lookup (fun a t => length (regs t) = 16%nat)). all: done.
  - apply (boot_abs_lookup (fun a t => blocked_sending (thread_state t) = true -> _)). all: done.
  - intros b t j Hb. revert b t Hb j.
    apply (boot_abs_lookup (fun b t => forall j, joiner t = Some j -> _)). all: done.
  - intros b b' t t' j Hb Hb' Hj. exfalso. revert b t Hb Hj.
    apply (boot_abs_lookup (fun b t => joiner t = Some j -> False)). all: done.
  - apply (boot_abs_lookup (fun a t => registered_interrupt t <> Interrupt.NO_INTERRUPT -> _)). all: intros Hr; by destruct Hr.
  - intros i a H. by destruct (boot_no_handler i a).
  - intros i Hi Hb. by rewrite Z.bits_0 in Hb.
  - simpl. lia.
  - apply (boot_abs_lookup (fun a t => thread_state t = THREAD_STATE_WAIT_FUTEX -> _)). all: done.
  - constructor.
Qed.

Lemma boot_placed : Placed {[0%nat]} boot_abs.
Proof.
  constructor.
  - intros a ->%elem_of_singleton. split; [|by eexists]. intros []; simpl; set_solver.
  - intros a t q Ha. revert a t Ha. apply (boot_abs_lookup (fun a t => a ∉ {[0%nat]} -> (a ∈ boot_queue q <-> home t = Some q))).
    + set_solver.
    + intros _. destruct q; simpl; split; intros Hx; try done; set_solver.
    + intros _. destruct q; simpl; split; intros Hx; try done; set_solver.
  - intros [] a; simpl; set_solver.
Qed.

Lemma boot_inv : AInv ∅ boot_abs.
Proof.
  constructor; simpl.
  - rewrite union_empty_l_L. apply boot_placed.
  - set_solver.
  - intros a. rewrite union_empty_l_L. intros ->%elem_of_singleton. done.
  - split; [by intros ?|]. simpl. by exists (erase (blank_tcb 0 THREAD_STATE_RUNNABLE 10 None None)).
  - apply boot_data.
  - apply boot_links.
  - intros p Hp. by destruct Hp.
Qed.
