(* ===== verification/NanoTheorems.v ===== *)
(** * Properties of the nanokernel

    The theorems a user of the nanokernel relies on, stated on concrete
    kernel states, with executions of a booted kernel as witnesses. *)

From Stdlib Require Import Sorting.Sorted.
From S2P Require Import Prelude NanoState NanoSchedule NanoSyscalls NanoSpec Rings NanoLinks NanoRep NanoRefineSched NanoInv NanoRefineFutex NanoRefineSys NanoInvPres NanoInvSys NanoBoot NanoKernel.
#[local] Open Scope Z_scope.

(** ** Executions of a booted kernel *)

Module Boot.

Lemma boot_kinv : @KInv demo_cfg ∅ boot.
Proof. exists boot_abs. split; [apply boot_rep|apply boot_inv]. Qed.

(** A run of several entries. *)
Fixpoint run (es : list event) : K unit :=
  match es with
  | [] => ret tt
  | e :: es' => do! @exec demo_cfg e in run es'
  end.

Fixpoint run_enabled (es : list event) (s : kstate) : Prop :=
  match es with
  | [] => True
  | e :: es' => enabled e s /\ match @exec demo_cfg e s with Done _ s' => run_enabled es' s' | _ => False end
  end.

Lemma run_reachable es s s' :
  run_enabled es s -> run es s = Done tt s' -> @reachable demo_cfg s s'.
Proof.
  enough (H : forall s0, @reachable demo_cfg s0 s -> run_enabled es s -> run es s = Done tt s' ->
    @reachable demo_cfg s0 s') by (apply H; constructor).
  revert s. induction es as [|e es IH]; intros s s0 Hr; simpl.
  - intros _ [= <-]. done.
  - intros [Hen He]. unfold bind. destruct (exec e s) as [[] s1|] eqn:E; [|done].
    apply IH; [|done]. by econstructor.
Qed.

(** The kernel state after a run from boot. *)
Definition after (es : list event) : kstate :=
  match run es boot with Done _ s => s | Crash _ => boot end.

Lemma after_kinv es s : after es = s -> run_enabled es boot -> @KInv demo_cfg ∅ s.
Proof.
  intros <- Hen. eapply reachable_inv; [apply boot_kinv|]. unfold after.
  destruct (run es boot) as [[] s|] eqn:E; [|constructor]. by eapply run_reachable.
Qed.

Lemma after_reachable es : run_enabled es boot -> @reachable demo_cfg boot (after es).
Proof.
  intros Hen. unfold after. destruct (run es boot) as [[] s|] eqn:E; [|constructor].
  by eapply run_reachable.
Qed.

(** Thread 0 creates thread 1 at a higher priority (which runs at once) and
    thread 2 at a lower one. *)
Definition two_threads : list event :=
  [SysThreadCreate 4096 8192 7 20; SysThreadCreate 4096 8192 7 5].

End Boot.

(** Side conditions of [run_enabled] on concrete events. *)
Ltac run_ok := vm_compute; repeat split; try (eexists; reflexivity); try (intros H; discriminate H); try done.

Section theorems.
Context {cfg : NanoConfig}.
Implicit Types (s : kstate) (A : akernel) (O : gset nat).

(** A register or deregister call with a negative number indexes the table
    of handlers before its start. *)
Lemma negative_interrupt_crashes s i : i < 0 ->
  exec (SysInterruptRegister i) s = Crash IndexOutOfBounds /\
  exec (SysInterruptDeregister i) s = Crash IndexOutOfBounds.
Proof.
  intros Hi. assert (Hn : NUM_INTERRUPTS <=? i = false) by (apply Z.leb_gt; pose proof cfg_interrupts; lia).
  assert (H0 : 0 <=? i = false) by (apply Z.leb_gt; lia).
  simpl. unfold Interrupt.sys_interrupt_register, Interrupt.sys_interrupt_deregister. rewrite Hn.
  unfold bind, gets, index. by rewrite H0.
Qed.

(** C1: no kernel entry of any execution fails an assertion, dereferences an
    invalid pointer, indexes a table out of bounds or loops, save for one:
    from every state reachable from a well-formed one, every enabled interrupt
    returns, and so does every system call that the running thread can make
    with words for arguments and, when it registers or deregisters an
    interrupt, with a number that is not negative.  With a negative number
    those two calls index the table of handlers out of bounds, in every
    state. *)
Theorem nano_no_crash O s0 s :
  KInv O s0 -> reachable s0 s ->
  (forall e, enabled e s -> exists s', exec e s = Done tt s') /\
  (forall i, i < 0 -> exec (SysInterruptRegister i) s = Crash IndexOutOfBounds /\
                      exec (SysInterruptDeregister i) s = Crash IndexOutOfBounds).
Proof.
  intros H0 Hr. split.
  - intros e Hen. destruct (exec_step O s e) as (s' & He & _); [by eapply reachable_inv|done|]. by exists s'.
  - intros i. apply negative_interrupt_crashes.
Qed.

(** C2: every kernel entry implements its specification: run from a state
    that represents an abstract kernel satisfying the invariant, it ends in a
    state that represents the specified abstract kernel, which satisfies the
    invariant again.  The entries are the system calls of the running thread
    with words for arguments and, for the calls that register and deregister
    an interrupt, a number that is not negative, and the interrupts that are
    enabled. *)
Theorem nano_refinement O s A e :
  Rep s A -> AInv O A -> enabled e s ->
  exists s', exec e s = Done tt s' /\ Rep s' (a_exec (caller s) e A) /\ AInv O (a_exec (caller s) e A).
Proof.
  intros HR HI Hen. pose proof (exec_refines _ _ _ _ HR HI Hen) as Hw.
  apply wp_run in Hw as ([] & s' & He & HR'). exists s'. split_and!; [done|done|].
  by apply exec_preserves.
Qed.

(** C13: in every reachable state the running thread is a best one: a
    runnable thread that is not running has at most its priority, and the
    unit idles only when there is none. *)
Theorem nano_priority O s0 s a t :
  KInv O s0 -> reachable s0 s ->
  tcbs s !! a = Some t -> thread_state t = THREAD_STATE_RUNNABLE -> a ∉ O -> current_tcb s <> Some a ->
  exists c tc, current_tcb s = Some c /\ tcbs s !! c = Some tc /\ priority t <= priority tc.
Proof.
  intros H0 Hr Ht Hst HaO Hc. destruct (reachable_inv _ _ _ H0 Hr) as (A & HR & HI).
  rewrite <-(rep_current _ _ HR) in Hc |- *.
  assert (Hq : a ∈ a_queue A (QReady (priority t))).
  { apply (pl_home _ _ (inv_placed _ _ HI) a (erase t)); [by eapply rep_lookup| |unfold home; simpl; by rewrite Hst].
    destruct (a_current A) as [c|]; simpl; set_solver. }
  destruct (inv_top _ _ HI (priority t)) as (c & Hcur & Hle); [by intros Hn; rewrite Hn in Hq; apply elem_of_nil in Hq|].
  destruct (inv_running _ _ _ HI Hcur) as (_ & _ & tc' & Htc' & _).
  destruct (rep_lookup_inv _ _ _ _ HR Htc') as (tc & Htc & He).
  exists c, tc. split_and!; [done|done|]. rewrite (a_prio_eq _ _ _ Htc') in Hle. by rewrite <-He in Hle.
Qed.

(** C14: in every reachable state the ready queue of a priority, read by
    following the links from its head, has each of its threads once and
    consists of exactly the runnable threads of that priority that are not
    running; the priority's bit in the bitmap says whether it is empty. *)
Theorem nano_ready_queues O s0 s p :
  KInv O s0 -> reachable s0 s -> 0 <= p < 32 ->
  NoDup (ready_list s p) /\
  (forall a t, tcbs s !! a = Some t ->
     a ∈ ready_list s p <->
     thread_state t = THREAD_STATE_RUNNABLE /\ priority t = p /\ a ∉ O /\ current_tcb s <> Some a) /\
  (Z.testbit (priority_bitmap s) p = true <-> ready_list s p <> []).
Proof.
  intros H0 Hr Hp. destruct (reachable_inv _ _ _ H0 Hr) as (A & HR & HI).
  rewrite (ready_list_queue O s A p HR HI Hp). split; [apply (inv_nodup _ _ HI)|]. split.
  - intros a t Ht. pose proof (rep_lookup _ _ _ _ HR Ht) as Ha. rewrite <-(rep_current _ _ HR).
    pose proof (inv_placed _ _ HI) as HP.
    assert (Hin : a ∈ O ∪ pset (a_current A) <-> a ∈ O \/ a_current A = Some a)
      by (destruct (a_current A) as [c|]; simpl; set_solver).
    split.
    + intros Hq. pose proof (placed_not_float _ _ _ _ HP Hq) as Hn.
      apply (pl_home _ _ HP a _ _ Ha Hn), home_ready in Hq as [Hst Hpr]. simpl in *. naive_solver.
    + intros (Hst & Hpr & HaO & Hc). apply (pl_home _ _ HP a _ _ Ha); [naive_solver|].
      unfold home. simpl. by rewrite Hst, Hpr.
  - rewrite (rep_bitmap _ _ HR) by done. destruct (a_queue A (QReady p)); by split.
Qed.

(** C15: no wake-up is lost: in every reachable state a thread that sleeps on
    a futex tag has no signal pending for that tag. *)
Theorem nano_futex_no_lost_wakeup O s0 s a t :
  KInv O s0 -> reachable s0 s ->
  tcbs s !! a = Some t -> thread_state t = THREAD_STATE_WAIT_FUTEX ->
  futex_tag t ∉ take (Z.to_nat (num_pending_tags s)) (futex_pending_tags s).
Proof.
  intros H0 Hr Ht Hst. destruct (reachable_inv _ _ _ H0 Hr) as (A & HR & HI).
  rewrite (rep_num_pending _ _ HR), Nat2Z.id, (rep_pending _ _ HR).
  by apply (d_nolost _ (inv_data _ _ HI) a (erase t)); [eapply rep_lookup|].
Qed.

(** A thread that sleeps on [tag]. *)
Definition sleeps_on (s : kstate) (tag : Z) (a : nat) (t : tcb) : Prop :=
  tcbs s !! a = Some t /\ thread_state t = THREAD_STATE_WAIT_FUTEX /\ futex_tag t = tag.

(** Threads that sleep on a tag are found in its hash queue. *)
Lemma sleeps_on_queue O s A tag a t :
  Rep s A -> AInv O A -> sleeps_on s tag a t ->
  a ∈ a_queue A (QFutex (Futex.hash_tag tag)) /\ has_tag A tag a = true.
Proof.
  intros HR HI (Ht & Hst & Htag). pose proof (rep_lookup _ _ _ _ HR Ht) as Ha. split.
  - apply (inv_home _ _ _ _ _ HI Ha); [simpl; by rewrite Hst|]. unfold home. simpl. by rewrite Hst, Htag.
  - unfold has_tag. rewrite (a_get_eq _ _ _ _ _ Ha). simpl. lia.
Qed.

Lemma sorted_find_best A (P : nat -> bool) l w x :
  StronglySorted (fun x y => a_prio A y <= a_prio A x) l ->
  find P l = Some w -> x ∈ l -> P x = true -> a_prio A x <= a_prio A w.
Proof.
  induction 1 as [|y l Hs IH Hf]; simpl; [done|]. destruct (P y) eqn:Ey.
  - intros [= <-] Hx _. apply elem_of_cons in Hx as [->|Hx]; [lia|].
    rewrite List.Forall_forall in Hf. by apply Hf, list_elem_of_In.
  - intros Hw Hx Hp. apply elem_of_cons in Hx as [->|Hx]; [congruence|]. by apply IH.
Qed.

Lemma futex_signal_wakes_best O s tag x tx :
  KInv O s -> is_Some (current_tcb s) -> tag <> 0 -> sleeps_on s tag x tx ->
  exists s' w tw tw', exec (SysFutexSignal tag) s = Done tt s' /\
    sleeps_on s tag w tw /\ (forall y ty, sleeps_on s tag y ty -> priority ty <= priority tw) /\
    tcbs s' !! w = Some tw' /\ thread_state tw' = THREAD_STATE_RUNNABLE /\
    num_pending_tags s' = num_pending_tags s.
Proof.
  intros (A & HR & HI) [c Hc] Htag Hx.
  pose proof (exec_refines _ _ _ (SysFutexSignal tag) HR HI (conj (mk_is_Some _ _ Hc) I)) as Hw.
  apply wp_run in Hw as ([] & s' & He & HR'). unfold caller in HR'. rewrite Hc in HR'. simpl in HR'.
  unfold a_sys_futex_signal in HR'. destruct (Z.eqb_spec tag 0); [done|].
  destruct (sleeps_on_queue _ _ _ _ _ _ HR HI Hx) as [Hq Ht].
  destruct (a_find_waiter tag A) as [w|] eqn:Ew.
  2: { unfold a_find_waiter in Ew. pose proof (List.find_none _ _ Ew x) as Hn.
       rewrite <-list_elem_of_In, Ht in Hn. by specialize (Hn Hq). }
  destruct (a_find_waiter_Some _ _ _ Ew) as [Hwq Hwt].
  destruct (inv_queued _ _ _ _ HI Hwq) as (tw' & Htw' & Hh & _).
  destruct (rep_lookup_inv _ _ _ _ HR Htw') as (tw & Htw & Hew).
  set (B := a_remove (QFutex (Futex.hash_tag tag)) w A) in HR'.
  assert (Hcw : c <> w).
  { intros ->. assert (Hcur : a_current A = Some w) by (by rewrite (rep_current _ _ HR)).
    destruct (inv_running _ _ _ HI Hcur) as (_ & Hu & _). by apply (Hu _ Hwq). }
  assert (Htc : a_tcbs (snd (a_activate_schedule w B)) !! w = Some (set_thread_state THREAD_STATE_RUNNABLE tw')).
  { rewrite a_activate_schedule_tcbs. simpl. by rewrite lookup_alter_eq, Htw'. }
  assert (Hpend : a_pending (snd (a_activate_schedule w B)) = a_pending A).
  { apply (a_activate_schedule_data w B). }
  destruct (a_activate_schedule w B) as [nx B2]. simpl in Htc, Hpend.
  destruct (rep_lookup_inv s' _ w (set_thread_state THREAD_STATE_RUNNABLE tw') HR') as (tf & Htf & Hef).
  { simpl. by rewrite lookup_alter_ne. }
  exists s', w, tw, tf. split_and!; [done| | |done| |].
  - split_and!; [done| |].
    + revert Hh. unfold home. rewrite <-Hew. simpl. destruct (thread_state tw), (ipc_waiting_for tw); done.
    + unfold has_tag in Hwt. rewrite (a_get_eq _ _ _ _ _ Htw'), <-Hew in Hwt. simpl in Hwt. lia.
  - intros y ty Hy. destruct (sleeps_on_queue _ _ _ _ _ _ HR HI Hy) as [Hyq Hyt].
    pose proof (sorted_find_best A _ _ _ y (inv_tags _ _ _ HI) Ew Hyq Hyt) as Hle.
    destruct Hy as (Hty & _). rewrite (a_prio_eq _ _ _ (rep_lookup _ _ _ _ HR Hty)), (a_prio_eq _ _ _ Htw'), <-Hew in Hle.
    done.
  - change (thread_state (erase tf) = THREAD_STATE_RUNNABLE). by rewrite Hef.
  - rewrite (rep_num_pending _ _ HR), (rep_num_pending _ _ HR'). simpl. by rewrite Hpend.
Qed.

(** The abstract side of an entry. *)
Lemma exec_result O s e :
  KInv O s -> enabled e s ->
  exists A s', Rep s A /\ AInv O A /\ exec e s = Done tt s' /\ Rep s' (a_exec (caller s) e A) /\
    AInv O (a_exec (caller s) e A).
Proof.
  intros (A & HR & HI) Hen. pose proof (exec_refines _ _ _ _ HR HI Hen) as Hw.
  apply wp_run in Hw as ([] & s' & He & HR'). exists A, s'. split_and!; try done. by apply exec_preserves.
Qed.

Lemma futex_signal_then_wait O s c tag :
  KInv O s -> current_tcb s = Some c -> tag <> 0 -> (forall a t, ~ sleeps_on s tag a t) ->
  num_pending_tags s < Z.of_nat max_tcbs ->
  exists s1 s2, exec (SysFutexSignal tag) s = Done tt s1 /\ exec (SysFutexWait tag) s1 = Done tt s2 /\
    num_pending_tags s1 = num_pending_tags s + 1 /\ num_pending_tags s2 = num_pending_tags s /\
    current_tcb s2 = Some c /\ exists t, tcbs s2 !! c = Some t /\ get_reg 0 t = 0.
Proof.
  intros HK Hc Htag Hno Hroom.
  destruct (exec_result O s (SysFutexSignal tag) HK) as (A & s1 & HR & HI & He1 & HR1 & HI1); [by eauto using mk_is_Some|].
  unfold caller in *. rewrite Hc in *. simpl in HR1, HI1. unfold a_sys_futex_signal in HR1, HI1.
  destruct (Z.eqb_spec tag 0); [done|]. rewrite (rep_num_pending _ _ HR) in *.
  destruct (a_find_waiter tag A) as [w|] eqn:Ew.
  { exfalso. destruct (a_find_waiter_Some _ _ _ Ew) as [Hwq Hwt].
    destruct (inv_queued _ _ _ _ HI Hwq) as (tw' & Htw' & Hh & _).
    destruct (rep_lookup_inv _ _ _ _ HR Htw') as (tw & Htw & Hew). apply (Hno w tw). split_and!; [done| |].
    - revert Hh. unfold home. rewrite <-Hew. simpl. destruct (thread_state tw), (ipc_waiting_for tw); done.
    - unfold has_tag in Hwt. rewrite (a_get_eq _ _ _ _ _ Htw'), <-Hew in Hwt. simpl in Hwt. lia. }
  destruct (Z.leb_spec (Z.of_nat max_tcbs) (Z.of_nat (length (a_pending A)))); [lia|].
  assert (Hc1 : current_tcb s1 = Some c) by (rewrite <-(rep_current _ _ HR1); simpl; by rewrite (rep_current _ _ HR)).
  pose proof (exec_refines _ _ _ (SysFutexWait tag) HR1 HI1 (conj (mk_is_Some _ _ Hc1) I)) as Hw.
  apply wp_run in Hw as ([] & s2 & He2 & HR2). unfold caller in HR2. rewrite Hc1 in HR2. simpl in HR2.
  unfold a_sys_futex_wait in HR2. destruct (Z.eqb_spec tag 0); [done|]. simpl a_pending in HR2.
  assert (Htp : a_take_pending tag (a_pending A ++ [tag]) = Some (a_pending A)).
  { unfold a_take_pending. rewrite last_snoc, length_app, Nat.add_1_r. simpl.
    rewrite lookup_app_r, Nat.sub_diag by done. simpl. rewrite bool_decide_true by done.
    by rewrite Nat.sub_0_r, take_insert_ge, take_app_length. }
  rewrite Htp in HR2. exists s1, s2. split_and!; [done|done| | | |].
  - rewrite (rep_num_pending _ _ HR1). simpl. rewrite length_app. simpl. lia.
  - by rewrite (rep_num_pending _ _ HR2).
  - rewrite <-(rep_current _ _ HR2). simpl. by rewrite (rep_current _ _ HR).
  - assert (Hcur : a_current A = Some c) by (by rewrite (rep_current _ _ HR)).
    destruct (inv_running _ _ _ HI Hcur) as (_ & _ & t & Ht & _).
    destruct (rep_lookup_inv s2 _ c (set_reg 0 (u32 0) (set_reg 0 (u32 0) t)) HR2) as (t2 & Ht2 & Hte).
    { simpl. by rewrite !lookup_alter_eq, Ht. }
    exists t2. split; [done|]. change (get_reg 0 (erase t2) = 0). rewrite Hte.
    pose proof (d_regs _ (inv_data _ _ HI) _ _ Ht) as Hl. unfold get_reg. simpl.
    rewrite list_lookup_insert_eq; [done|]. rewrite length_insert. lia.
Qed.


(** C17: an interrupt is delivered: the registered thread, which waits for
    it, becomes runnable with the interrupt number as the result of its
    wait, the interrupt is masked until the thread waits again, and the
    other interrupts' enable bits are unchanged. *)
Theorem nano_interrupt_delivery O s status :
  KInv O s -> enabled (Irq status) s ->
  let i := Z.log2 status in
  exists s' h t t', exec (Irq status) s = Done tt s' /\
    interrupt_handlers s !! Z.to_nat i = Some (Some h) /\
    tcbs s !! h = Some t /\ thread_state t = THREAD_STATE_WAIT_INT /\
    tcbs s' !! h = Some t' /\ thread_state t' = THREAD_STATE_RUNNABLE /\ get_reg 0 t' = i /\
    (forall k, 0 <= k < 32 -> Z.testbit (irq_enable s') k = Z.testbit (irq_enable s) k && negb (k =? i)).
Proof.
  intros HK Hen i. destruct (exec_result O s (Irq status) HK Hen) as (A & s' & HR & HI & He & HR' & _).
  simpl in HR'. assert (Hrep : reported status A) by (unfold reported; by rewrite (rep_irq_enable _ _ HR)).
  assert (Hi : Interrupt.plat_decode_interrupt status = i).
  { destruct Hrep as (_ & Hne & _). unfold Interrupt.plat_decode_interrupt, clz, i.
    destruct (Z.eqb_spec status 0); [done|]. lia. }
  destruct (handle_interrupt_handler _ _ _ HI Hrep) as (h & t1 & Hh & Ht1 & Hst & Hr).
  unfold a_handle_interrupt in HR'. rewrite Hi in *. rewrite Hh in HR'.
  destruct (rep_lookup_inv _ _ _ _ HR Ht1) as (t & Ht & Het).
  set (B := a_return h i (a_set_irq_enable (clear_bit32 (a_irq_enable A) i) A)) in HR'.
  destruct (rep_lookup_inv s' _ h (set_thread_state THREAD_STATE_RUNNABLE (set_reg 0 (u32 i) t1)) HR') as (t' & Ht' & Het').
  { unfold a_then_switch. simpl. rewrite a_activate_schedule_tcbs. simpl. by rewrite !lookup_alter_eq, Ht1. }
  pose proof cfg_interrupts as HN.
  exists s', h, t, t'. split_and!; [done|by rewrite <-(rep_handlers _ _ HR)|done| |done| | |].
  - change (thread_state (erase t) = THREAD_STATE_WAIT_INT). by rewrite Het.
  - change (thread_state (erase t') = THREAD_STATE_RUNNABLE). by rewrite Het'.
  - change (get_reg 0 (erase t') = i). rewrite Het'. unfold get_reg. simpl.
    pose proof (d_regs _ (inv_data _ _ HI) _ _ Ht1). rewrite list_lookup_insert_eq by lia. simpl.
    apply u32_word. unfold is_word, WORD_MOD. lia.
  - intros k Hk. rewrite <-(rep_irq_enable _ _ HR'). unfold a_then_switch. simpl.
    destruct (a_activate_schedule_data h B) as (_ & _ & ->). simpl.
    rewrite testbit_clear_bit32 by lia. by rewrite (rep_irq_enable _ _ HR).
Qed.

(** C18: yield is round robin: when other threads of the running thread's
    priority are ready, the one that has waited longest runs next and the
    yielding thread goes to the end of their queue. *)
Theorem nano_yield_round_robin O s c t h l :
  KInv O s -> current_tcb s = Some c -> tcbs s !! c = Some t -> ready_list s (priority t) = h :: l ->
  exists s', exec SysYield s = Done tt s' /\ current_tcb s' = Some h /\
    ready_list s' (priority t) = l ++ [c].
Proof.
  intros HK Hc Ht Hq. set (p := priority t) in *.
  destruct (exec_result O s SysYield HK) as (A & s' & HR & HI & He & HR' & HI'); [by eauto using mk_is_Some|].
  simpl in HR', HI'. assert (Hcur : a_current A = Some c) by (by rewrite (rep_current _ _ HR)).
  pose proof (rep_lookup _ _ _ _ HR Ht) as Hta.
  assert (Hp : 0 <= p < 32) by (apply (d_prio _ (inv_data _ _ HI) _ _ Hta)).
  rewrite (ready_list_queue O s A p HR HI Hp) in Hq.
  assert (Hpc : a_prio A c = p) by (by rewrite (a_prio_eq _ _ _ Hta)).
  assert (Hhigh : forall B, a_current B = Some c -> (forall x, a_prio B x = a_prio A x) -> top_ok B ->
     a_queue B (QReady p) <> [] -> a_highest B = Some p).
  { intros B HcB Hpr Htop Hne. destruct (a_highest B) as [p'|] eqn:E.
    - apply a_highest_Some in E as (Hr & Hn & Hm). destruct (Htop p' Hn) as (c' & Hc' & Hle).
      assert (c' = c) as -> by congruence. rewrite Hpr, Hpc in Hle.
      destruct (Z.eq_dec p p') as [->|]; [done|]. by destruct Hne; apply Hm; lia.
    - by rewrite (a_highest_None _ _ E Hp) in Hne. }
  assert (HhA : a_highest A = Some p) by (apply Hhigh; [done|done|apply HI|by rewrite Hq]).
  assert (HA' : a_sys_yield A = a_switch_to (Some h) (snd (a_do_schedule (a_enqueue c A))) /\
     a_queue (snd (a_do_schedule (a_enqueue c A))) (QReady p) = l ++ [c]).
  { assert (Hqe : a_queue (a_enqueue c A) (QReady p) = h :: l ++ [c]).
    { unfold a_enqueue, a_push. simpl. by rewrite Hpc, qset_eq, Hq. }
    assert (HhE : a_highest (a_enqueue c A) = Some p).
    { apply Hhigh; [done|done| |by rewrite Hqe]. intros p' Hn. exists c. split; [done|].
      change (a_prio (a_enqueue c A) c) with (a_prio A c). revert Hn. unfold a_enqueue, a_push. simpl. unfold qset.
      case_decide as Hd; [injection Hd as ->; lia|]. intros Hn.
      destruct (inv_top _ _ HI p' Hn) as (c' & Hc' & Hle). congruence. }
    unfold a_sys_yield, a_yield. rewrite Hcur, Hpc. unfold a_highest_int. rewrite HhA. simpl.
    rewrite u32_word by (unfold is_word, WORD_MOD; lia). rewrite Z.leb_refl.
    unfold a_then_switch, a_do_schedule. rewrite HhE. cbn [fst snd]. split; [by rewrite Hqe|].
    rewrite a_smt_queue, a_unit_queue. unfold a_pop. rewrite Hqe. apply qset_eq. }
  destruct HA' as [HA' HQ']. exists s'. split; [done|]. rewrite HA' in HR', HI'. split.
  - by rewrite <-(rep_current _ _ HR').
  - rewrite (ready_list_queue O s' _ p HR' HI' Hp). exact HQ'.
Qed.

Lemma get_set_reg_eq i v t : (i < length (regs t))%nat -> get_reg i (set_reg i v t) = v.
Proof. intros Hi. unfold get_reg. simpl. by rewrite list_lookup_insert_eq. Qed.
Lemma get_set_reg_ne i j v t : i <> j -> get_reg j (set_reg i v t) = get_reg j t.
Proof. intros Hi. unfold get_reg. simpl. by rewrite list_lookup_insert_ne. Qed.

(** The seven message registers are copied. *)
Lemma copy_regs_spec src d i :
  length (regs d) = 16%nat -> (1 <= i <= 7)%nat -> get_reg i (Ipc.copy_regs src d) = get_reg i src.
Proof.
  intros Hl Hi. unfold Ipc.copy_regs, get_reg at 1. simpl.
  destruct i as [|[|[|[|[|[|[|[|]]]]]]]]; try lia;
    repeat first [rewrite list_lookup_insert_eq by (rewrite ?length_insert; lia); done
                 |rewrite list_lookup_insert_ne by lia].
Qed.

(** What a delivery leaves in the receiver. *)
Definition delivered (src dest : tcb) : tcb :=
  set_thread_state THREAD_STATE_RUNNABLE (set_reg 0 (u32 (tid src)) (set_ipc_waiting_for None
    (Ipc.copy_regs src (set_full_context_saved 1 dest)))).

(** ... and in the sender, which waits for the answer when it calls. *)
Definition sent (call : bool) (d : nat) (src : tcb) : tcb :=
  if call then set_thread_state THREAD_STATE_WAIT_IPC_RECV (set_ipc_waiting_for (Some d) src) else set_reg 0 (u32 0) src.

Lemma send_abs A c d call nb tc td :
  a_ready_to_receive c d A = true -> a_current A = Some c -> a_tcbs A !! c = Some tc -> a_tcbs A !! d = Some td -> c <> d ->
  let B := snd (a_do_send c d call nb A) in
  a_tcbs B !! d = Some (delivered tc td) /\ a_tcbs B !! c = Some (sent call d tc).
Proof.
  intros Hr Hcur Htc Htd Hne. unfold a_do_send. rewrite Hr. unfold a_copy_message. rewrite a_upd_ne, Htc by done.
  rewrite (a_get_eq _ _ _ _ _ Htc). destruct call.
  - rewrite a_do_schedule_tcbs. unfold a_deactivate_self. simpl. rewrite Hcur. simpl.
    rewrite !lookup_alter_eq, !(lookup_alter_ne _ _ c d), !lookup_alter_eq by done.
    rewrite !(lookup_alter_ne _ _ d c), !(lookup_alter_ne _ _ c d), !lookup_alter_eq, Htd by done.
    by rewrite !(lookup_alter_ne _ _ d c), Htc by done.
  - rewrite a_activate_schedule_tcbs. simpl.
    rewrite !lookup_alter_eq, (lookup_alter_ne _ _ c d), !lookup_alter_eq, Htd by done. simpl.
    by rewrite !(lookup_alter_ne _ _ d c), lookup_alter_eq, !(lookup_alter_ne _ _ d c), Htc by done.
Qed.

(** A send or call to a thread that is ready. *)
Lemma ipc_send_result O s c d op tc td :
  KInv O s -> current_tcb s = Some c -> tcbs s !! c = Some tc -> tcbs s !! d = Some td ->
  thread_state td = THREAD_STATE_WAIT_IPC_RECV ->
  ipc_waiting_for td = None \/ ipc_waiting_for td = Some c ->
  exists s' tc' td', exec (SysIpcSend (Z.of_nat d) op) s = Done tt s' /\
    tcbs s' !! d = Some td' /\ thread_state td' = THREAD_STATE_RUNNABLE /\
    get_reg 0 td' = Z.of_nat c /\ (forall i, (1 <= i <= 7)%nat -> get_reg i td' = get_reg i tc) /\
    tcbs s' !! c = Some tc' /\
    (if Ipc.OPERATION_IS_CALL op then thread_state tc' = THREAD_STATE_WAIT_IPC_RECV /\ ipc_waiting_for tc' = Some d
     else get_reg 0 tc' = 0).
Proof.
  intros HK Hc Htc Htd Hst Hwf.
  destruct (exec_result O s (SysIpcSend (Z.of_nat d) op) HK) as (A & s' & HR & HI & He & HR' & _);
    [split; [by eauto using mk_is_Some|simpl; lia]|].
  unfold caller in HR'. rewrite Hc in HR'. simpl in HR'. pose proof (inv_data _ _ HI) as HD.
  pose proof (rep_lookup _ _ _ _ HR Htc) as Hac. pose proof (rep_lookup _ _ _ _ HR Htd) as Had.
  assert (Hcur : a_current A = Some c) by (by rewrite (rep_current _ _ HR)).
  destruct (inv_running _ _ _ HI Hcur) as (_ & _ & tc0 & Htc0 & Hrun).
  assert (tc0 = erase tc) as -> by congruence. assert (Hne : c <> d) by (intros ->; simpl in Hrun; congruence).
  assert (Hdm : (d < max_tcbs)%nat) by (apply (d_dom _ HD); by eauto).
  assert (Hready : a_ready_to_receive c d A = true).
  { unfold a_ready_to_receive, a_state. rewrite !(a_get_eq _ _ _ _ _ Had). simpl. rewrite Hst.
    destruct Hwf as [-> | ->]; [done|]. by rewrite !bool_decide_true by done. }
  unfold a_sys_ipc_send in HR'. destruct (Z.leb_spec (Z.of_nat max_tcbs) (Z.of_nat d)); [lia|].
  rewrite Nat2Z.id in HR'. unfold a_alive in HR'. rewrite (a_get_eq _ _ _ _ _ Had) in HR'.
  rewrite is_thread_alive_spec in HR'. simpl in HR'. rewrite Hst in HR'. simpl in HR'.
  destruct (send_abs A c d (Ipc.OPERATION_IS_CALL op) (Ipc.OPERATION_IS_NON_BLOCKING op) _ _ Hready Hcur Hac Had Hne) as [Hd' Hc'].
  destruct (rep_lookup_inv s' _ d _ HR' Hd') as (td' & Htd' & Hed).
  destruct (rep_lookup_inv s' _ c _ HR' Hc') as (tc' & Htc' & Hec).
  pose proof (d_regs _ HD _ _ Had) as Hld. pose proof (d_regs _ HD _ _ Hac) as Hlc. simpl in Hld, Hlc.
  exists s', tc', td'. split_and!; [done|done| | | |done|].
  - change (thread_state (erase td') = THREAD_STATE_RUNNABLE). by rewrite Hed.
  - change (get_reg 0 (erase td') = Z.of_nat c). rewrite Hed. unfold delivered.
    trans (u32 (tid (erase tc))); [apply get_set_reg_eq; simpl; rewrite !length_insert; lia|].
    rewrite (d_tid _ HD _ _ Hac). apply u32_word. pose proof cfg_tcbs_word. unfold is_word.
    assert (c < max_tcbs)%nat by (apply (d_dom _ HD); by eauto). lia.
  - intros i Hi. change (get_reg i (erase td') = get_reg i tc). rewrite Hed. unfold delivered.
    change (get_reg i (set_reg 0 (u32 (tid (erase tc))) (set_ipc_waiting_for None
       (Ipc.copy_regs (erase tc) (set_full_context_saved 1 (erase td))))) = get_reg i tc).
    rewrite get_set_reg_ne by lia. by apply (copy_regs_spec (erase tc) (set_full_context_saved 1 (erase td))).
  - destruct (Ipc.OPERATION_IS_CALL op); simpl in Hec.
    + change (thread_state (erase tc') = THREAD_STATE_WAIT_IPC_RECV /\ ipc_waiting_for (erase tc') = Some d). by rewrite Hec.
    + change (get_reg 0 (erase tc') = 0). rewrite Hec. rewrite get_set_reg_eq; [done|simpl; lia].
Qed.

(** C19: a send to a thread that waits for it delivers the message: the
    receiver gets the sender's registers r1 to r7 and, as the result of its
    receive, the sender's identifier, and becomes runnable; the sender's
    call succeeds. *)
Theorem nano_ipc_send_delivers O s c d tc td :
  KInv O s -> current_tcb s = Some c -> tcbs s !! c = Some tc -> tcbs s !! d = Some td ->
  thread_state td = THREAD_STATE_WAIT_IPC_RECV ->
  ipc_waiting_for td = None \/ ipc_waiting_for td = Some c ->
  exists s' tc' td', exec (SysIpcSend (Z.of_nat d) 0) s = Done tt s' /\
    tcbs s' !! d = Some td' /\ thread_state td' = THREAD_STATE_RUNNABLE /\
    get_reg 0 td' = Z.of_nat c /\ (forall i, (1 <= i <= 7)%nat -> get_reg i td' = get_reg i tc) /\
    tcbs s' !! c = Some tc' /\ get_reg 0 tc' = 0.
Proof. by apply ipc_send_result. Qed.

(** Creation of a thread in a free TCB. *)
Lemma thread_create_result O s c n pc sp r0 prio :
  KInv O s -> current_tcb s = Some c -> tcb_free_head s = Some n -> 0 <= prio <= MAX_PRIORITY ->
  exists s' tn tc, exec (SysThreadCreate pc sp r0 prio) s = Done tt s' /\
    tcbs s' !! n = Some tn /\ thread_state tn = THREAD_STATE_RUNNABLE /\
    get_reg 15 tn = pc /\ get_reg 13 tn = sp /\ get_reg 0 tn = r0 /\ priority tn = prio /\
    signals tn = 0 /\ signal_mask tn = 0 /\ n <> c /\
    tcbs s' !! c = Some tc /\ get_reg 0 tc = Z.of_nat n.
Proof.
  intros HK Hc Hfree Hp.
  destruct (exec_result O s (SysThreadCreate pc sp r0 prio) HK) as (A & s' & HR & HI & He & HR' & _);
    [split; [by eauto using mk_is_Some|simpl; lia]|].
  unfold caller in HR'. rewrite Hc in HR'. simpl in HR'. pose proof (inv_data _ _ HI) as HD.
  assert (Hcur : a_current A = Some c) by (by rewrite (rep_current _ _ HR)).
  destruct (inv_running _ _ _ HI Hcur) as (_ & Hu & tc0 & Htc0 & Hrun).
  unfold a_sys_thread_create in HR'. destruct (Z.ltb_spec MAX_PRIORITY prio); [lia|].
  rewrite (rep_free _ _ HR) in Hfree. destruct (a_queue A QFree) as [|x l] eqn:Eq; [done|].
  injection Hfree as ->. destruct (inv_free _ _ _ _ HI Eq) as (tn0 & Htn0 & _).
  assert (Hne : n <> c) by (intros ->; apply (Hu QFree); rewrite Eq; set_solver).
  set (B := a_init_thread n pc sp r0 prio (a_pop QFree A)) in HR'.
  set (tn1 := set_signal_mask 0 (set_signals 0 (set_priority prio (set_reg 0 r0 (set_reg 15 pc (set_reg 13 sp tn0)))))).
  assert (HtB : a_tcbs B !! n = Some tn1) by (by do 6 apply a_upd_eq).
  assert (HtB' : a_tcbs (snd (a_activate_schedule n B)) !! n = Some (set_thread_state THREAD_STATE_RUNNABLE tn1) /\
    a_tcbs (snd (a_activate_schedule n B)) !! c = Some tc0).
  { rewrite a_activate_schedule_tcbs, lookup_alter_eq, HtB, lookup_alter_ne by done.
    split; [done|]. unfold B, a_init_thread. by rewrite !a_upd_ne. }
  destruct (a_activate_schedule n B) as [nx B2]. simpl in HtB'. destruct HtB' as [HB1 HB2].
  rewrite (a_get_eq _ _ _ _ _ HB1) in HR'.
  destruct (rep_lookup_inv s' _ n (set_thread_state THREAD_STATE_RUNNABLE tn1) HR') as (tn & Htn & Hen).
  { simpl. by rewrite lookup_alter_ne. }
  destruct (rep_lookup_inv s' _ c (set_reg 0 (u32 (tid tn0)) tc0) HR') as (tc & Htc & Hec).
  { simpl. by rewrite lookup_alter_eq, HB2. }
  pose proof (d_regs _ HD _ _ Htn0) as Hln. pose proof (d_regs _ HD _ _ Htc0) as Hlc.
  assert (Hf : forall {T} (f : tcb -> T), (forall t, f (erase t) = f t) -> f tn = f (set_thread_state THREAD_STATE_RUNNABLE tn1))
    by (intros T f Hf; by rewrite <-Hen, Hf).
  exists s', tn, tc. rewrite (Hf _ thread_state), (Hf _ (get_reg 15)), (Hf _ (get_reg 13)), (Hf _ (get_reg 0)),
    (Hf _ priority), (Hf _ signals), (Hf _ signal_mask) by done.
  split_and!; try done.
  - change (get_reg 15 (set_reg 0 r0 (set_reg 15 pc (set_reg 13 sp tn0))) = pc).
    rewrite get_set_reg_ne by lia. apply get_set_reg_eq. simpl. rewrite length_insert. lia.
  - change (get_reg 13 (set_reg 0 r0 (set_reg 15 pc (set_reg 13 sp tn0))) = sp).
    rewrite !get_set_reg_ne by lia. apply get_set_reg_eq. lia.
  - change (get_reg 0 (set_reg 0 r0 (set_reg 15 pc (set_reg 13 sp tn0))) = r0).
    apply get_set_reg_eq. simpl. rewrite !length_insert. lia.
  - change (get_reg 0 (erase tc) = Z.of_nat n). rewrite Hec, get_set_reg_eq by lia.
    rewrite (d_tid _ HD _ _ Htn0). apply u32_word. pose proof cfg_tcbs_word. unfold is_word.
    assert (n < max_tcbs)%nat by (apply (d_dom _ HD); by eauto). lia.
Qed.

Lemma drop_interrupt_abs A c t :
  a_tcbs A !! c = Some t ->
  (exists t1, a_tcbs (a_drop_interrupt c A) !! c = Some t1 /\ joiner t1 = joiner t /\
     registered_interrupt t1 = Interrupt.NO_INTERRUPT) /\
  (forall x, x <> c -> a_tcbs (a_drop_interrupt c A) !! x = a_tcbs A !! x).
Proof.
  intros Ht. unfold a_drop_interrupt. rewrite (a_get_eq _ _ _ _ _ Ht).
  destruct (Z.eqb_spec (registered_interrupt t) Interrupt.NO_INTERRUPT) as [E|E].
  - split; [by exists t|done].
  - split; [|intros x Hx; by rewrite a_upd_ne].
    exists (set_registered_interrupt Interrupt.NO_INTERRUPT t). split; [|by split].
    apply (a_upd_eq c _ (a_set_handlers _ A)). exact Ht.
Qed.

(** The kernel just before the scheduler runs, for a joined thread. *)
Lemma exit_joined_abs A c j t tj :
  a_tcbs A !! c = Some t -> a_tcbs A !! j = Some tj -> j <> c ->
  let B := a_upd c (set_joiner None) (a_activate j (a_reap c (a_upd c (set_thread_state THREAD_STATE_ZOMBIE) A))) in
  a_tcbs B !! c = Some (set_joiner None (set_thread_state THREAD_STATE_HALTED (set_thread_state THREAD_STATE_ZOMBIE t))) /\
  a_tcbs B !! j = Some (set_thread_state THREAD_STATE_RUNNABLE tj) /\
  head (a_queue B QFree) = Some c.
Proof.
  intros Ht Htj Hne B. unfold B. split_and!; [| |done].
  - apply a_upd_eq. simpl. by rewrite lookup_alter_ne, !lookup_alter_eq, Ht.
  - rewrite a_upd_ne by done. simpl. by rewrite lookup_alter_eq, !lookup_alter_ne, Htj.
Qed.

(** A represented TCB agrees with its abstraction on every data field. *)
Lemma rep_fields s A a t' :
  Rep s A -> a_tcbs A !! a = Some t' ->
  exists t, tcbs s !! a = Some t /\ thread_state t = thread_state t' /\ joiner t = joiner t' /\
    registered_interrupt t = registered_interrupt t'.
Proof. intros HR Ha. destruct (rep_lookup_inv _ _ _ _ HR Ha) as (t & Ht & <-). by exists t. Qed.

Lemma thread_exit_result O s c t :
  KInv O s -> current_tcb s = Some c -> tcbs s !! c = Some t ->
  exists s' t', exec SysThreadExit s = Done tt s' /\ tcbs s' !! c = Some t' /\ joiner t' = None /\
    registered_interrupt t' = Interrupt.NO_INTERRUPT /\
    match joiner t with
    | Some j => thread_state t' = THREAD_STATE_HALTED /\ tcb_free_head s' = Some c /\
                exists tj, tcbs s' !! j = Some tj /\ thread_state tj = THREAD_STATE_RUNNABLE
    | None => thread_state t' = THREAD_STATE_ZOMBIE
    end.
Proof.
  intros HK Hc Ht.
  destruct (exec_result O s SysThreadExit HK) as (A & s' & HR & HI & He & HR' & _); [by eauto using mk_is_Some|].
  unfold caller in HR'. rewrite Hc in HR'. cbn [default from_option a_exec id] in HR'.
  pose proof (inv_data _ _ HI) as HD. pose proof (rep_lookup _ _ _ _ HR Ht) as Hta.
  unfold a_sys_thread_exit, a_then_switch in HR'. rewrite (a_get_eq _ _ _ _ _ Hta) in HR'.
  change (joiner (erase t)) with (joiner t) in HR'.
  destruct (drop_interrupt_abs _ _ _ Hta) as [(t1 & Ht1 & Hj1 & Hr1) Hother].
  change (joiner (erase t)) with (joiner t) in Hj1.
  set (A1 := a_drop_interrupt c A) in *. clearbody A1.
  destruct (joiner t) as [j|] eqn:Ej.
  - destruct (d_join _ HD _ _ _ Hta Ej) as [Hsj _].
    destruct (a_state_inv _ _ _ Hsj) as (tj & Htj & Hstj); [done|].
    assert (Hcj : j <> c).
    { intros ->. assert (Hcur : a_current A = Some c) by (by rewrite (rep_current _ _ HR)).
      destruct (inv_running _ _ _ HI Hcur) as (_ & _ & tc0 & Htc0 & Hrun). congruence. }
    rewrite <-Hother in Htj by done.
    destruct (exit_joined_abs _ _ _ _ _ Ht1 Htj Hcj) as (HBc & HBj & HBq). set (B := a_upd c _ _) in *.
    clearbody B. rewrite <-(a_do_schedule_tcbs B) in HBc, HBj.
    destruct (rep_fields s' _ c _ HR' HBc) as (t' & Ht' & Hs' & Hj' & Hr').
    destruct (rep_fields s' _ j _ HR' HBj) as (tj' & Htj' & Hsj' & _).
    exists s', t'. rewrite Hs', Hj', Hr'. split_and!; [done|done|done|exact Hr1|done| |by exists tj'].
    rewrite (rep_free _ _ HR'). change (head (a_queue (snd (a_do_schedule B)) QFree) = Some c).
    by rewrite a_do_schedule_queue.
  - set (B := a_upd c (set_thread_state THREAD_STATE_ZOMBIE) A1) in *.
    assert (HBc : a_tcbs B !! c = Some (set_thread_state THREAD_STATE_ZOMBIE t1)) by (by apply a_upd_eq).
    clearbody B. rewrite <-(a_do_schedule_tcbs B) in HBc.
    destruct (rep_fields s' _ c _ HR' HBc) as (t' & Ht' & Hs' & Hj' & Hr').
    exists s', t'. rewrite Hs', Hj', Hr'. by split_and!.
Qed.

(** C20: thread creation and exit.  When a TCB is free and the priority is
    valid, the new thread is runnable with the given program counter, stack,
    argument and priority, no signals pending, and the creator gets its
    identifier.  When a thread that has been joined exits, its joiner becomes
    runnable and its TCB is free again; when nobody has joined it, it stays
    as a zombie until someone does. *)
Theorem nano_thread_create_exit O s c t :
  KInv O s -> current_tcb s = Some c -> tcbs s !! c = Some t ->
  (forall n pc sp r0 prio, tcb_free_head s = Some n -> 0 <= prio <= MAX_PRIORITY ->
   exists s' tn tc, exec (SysThreadCreate pc sp r0 prio) s = Done tt s' /\
     tcbs s' !! n = Some tn /\ thread_state tn = THREAD_STATE_RUNNABLE /\
     get_reg 15 tn = pc /\ get_reg 13 tn = sp /\ get_reg 0 tn = r0 /\ priority tn = prio /\
     signals tn = 0 /\ signal_mask tn = 0 /\ n <> c /\
     tcbs s' !! c = Some tc /\ get_reg 0 tc = Z.of_nat n) /\
  exists s' t', exec SysThreadExit s = Done tt s' /\ tcbs s' !! c = Some t' /\ joiner t' = None /\
    registered_interrupt t' = Interrupt.NO_INTERRUPT /\
    match joiner t with
    | Some j => thread_state t' = THREAD_STATE_HALTED /\ tcb_free_head s' = Some c /\
                exists tj, tcbs s' !! j = Some tj /\ thread_state tj = THREAD_STATE_RUNNABLE
    | None => thread_state t' = THREAD_STATE_ZOMBIE
    end.
Proof.
  intros HK Hc Ht. split; [|by eapply thread_exit_result].
  intros n pc sp r0 prio. by eapply thread_create_result.
Qed.

End theorems.

Lemma nano_no_crash_witness :
  (exists s', @exec demo_cfg SysThreadExit (Boot.after Boot.two_threads) = Done tt s') /\
  @exec demo_cfg (SysInterruptRegister (-1)) (Boot.after Boot.two_threads) = Crash IndexOutOfBounds.
Proof.
  destruct (@nano_no_crash demo_cfg ∅ boot (Boot.after Boot.two_threads)) as [Hok Hbad]; [exact Boot.boot_kinv| |].
  - apply Boot.after_reachable. run_ok.
  - split; [apply Hok; run_ok|apply (Hbad (-1)); lia].
Defined.

Lemma nano_refinement_witness :
  exists s', @exec demo_cfg SysYield boot = Done tt s' /\ @Rep demo_cfg s' (@a_exec demo_cfg 0 SysYield boot_abs)
    /\ @AInv demo_cfg ∅ (@a_exec demo_cfg 0 SysYield boot_abs).
Proof. apply (@nano_refinement demo_cfg ∅ boot boot_abs SysYield boot_rep boot_inv). run_ok. Defined.

Lemma nano_priority_witness :
  exists c tc, current_tcb (Boot.after Boot.two_threads) = Some c /\
    tcbs (Boot.after Boot.two_threads) !! c = Some tc /\ 10 <= priority tc.
Proof.
  refine (@nano_priority demo_cfg ∅ boot (Boot.after Boot.two_threads) 0
    (default (blank_tcb 0 THREAD_STATE_HALTED 0 None None) (tcbs (Boot.after Boot.two_threads) !! 0%nat))
    Boot.boot_kinv _ _ _ _ _).
  - apply Boot.after_reachable. run_ok.
  - vm_compute. reflexivity.
  - vm_compute. reflexivity.
  - set_solver.
  - vm_compute. discriminate.
Defined.

Lemma nano_ready_queues_witness :
  NoDup (@ready_list demo_cfg (Boot.after Boot.two_threads) 10) /\
  (forall a t, tcbs (Boot.after Boot.two_threads) !! a = Some t ->
     a ∈ @ready_list demo_cfg (Boot.after Boot.two_threads) 10 <->
     thread_state t = THREAD_STATE_RUNNABLE /\ priority t = 10 /\ a ∉ (∅ : gset nat) /\
     current_tcb (Boot.after Boot.two_threads) <> Some a) /\
  (Z.testbit (priority_bitmap (Boot.after Boot.two_threads)) 10 = true <->
   @ready_list demo_cfg (Boot.after Boot.two_threads) 10 <> []).
Proof.
  apply (@nano_ready_queues demo_cfg ∅ boot); [exact Boot.boot_kinv| |lia].
  apply Boot.after_reachable. run_ok.
Defined.

(** Thread 1 (priority 20) and then thread 0 sleep on tag 8; thread 2 runs. *)
Definition sleepers : list event := Boot.two_threads ++ [SysFutexWait 8; SysFutexWait 8].
Definition sleepers_tcb (i : nat) : tcb :=
  default (blank_tcb 0 THREAD_STATE_HALTED 0 None None) (tcbs (Boot.after sleepers) !! i).

Lemma nano_futex_no_lost_wakeup_witness :
  8 ∉ take (Z.to_nat (num_pending_tags (Boot.after sleepers))) (futex_pending_tags (Boot.after sleepers)).
Proof.
  refine (@nano_futex_no_lost_wakeup demo_cfg ∅ boot (Boot.after sleepers) 1 (sleepers_tcb 1) Boot.boot_kinv _ _ _).
  - apply Boot.after_reachable. run_ok.
  - vm_compute. reflexivity.
  - vm_compute. reflexivity.
Defined.


(** Thread 0 registers for interrupt 5 and waits for it; the unit idles. *)
Definition handler_waits : list event := [SysInterruptRegister 5; SysInterruptWait].

Lemma nano_interrupt_delivery_witness :
  exists s' h t t', @exec demo_cfg (Irq 32) (Boot.after handler_waits) = Done tt s' /\
    interrupt_handlers (Boot.after handler_waits) !! Z.to_nat (Z.log2 32) = Some (Some h) /\
    tcbs (Boot.after handler_waits) !! h = Some t /\ thread_state t = THREAD_STATE_WAIT_INT /\
    tcbs s' !! h = Some t' /\ thread_state t' = THREAD_STATE_RUNNABLE /\ get_reg 0 t' = Z.log2 32 /\
    (forall k, 0 <= k < 32 -> Z.testbit (irq_enable s') k =
       Z.testbit (irq_enable (Boot.after handler_waits)) k && negb (k =? Z.log2 32)).
Proof.
  apply (@nano_interrupt_delivery demo_cfg ∅).
  - apply (Boot.after_kinv handler_waits); [reflexivity|]. run_ok.
  - run_ok.
Defined.

(** Two threads of the same priority as the running one are ready. *)
Definition peers : list event := [SysThreadCreate 4096 8192 7 10; SysThreadCreate 4096 8192 7 10].

Lemma nano_yield_round_robin_witness :
  exists s', @exec demo_cfg SysYield (Boot.after peers) = Done tt s' /\ current_tcb s' = Some 1%nat /\
    @ready_list demo_cfg s' 10 = [2%nat; 0%nat].
Proof.
  refine (@nano_yield_round_robin demo_cfg ∅ (Boot.after peers) 0
    (default (blank_tcb 0 THREAD_STATE_HALTED 0 None None) (tcbs (Boot.after peers) !! 0%nat)) 1 [2%nat] _ _ _ _).
  - apply (Boot.after_kinv peers); [reflexivity|]. run_ok.
  - reflexivity.
  - vm_compute. reflexivity.
  - vm_compute. reflexivity.
Defined.

Definition dummy_tcb : tcb := blank_tcb 0 THREAD_STATE_HALTED 0 None None.

(** Thread 1 (priority 20) runs first and waits for a message; thread 0 runs. *)
Definition receiver_waits : list event := [SysThreadCreate 4096 8192 7 20; SysIpcRecv 4294967295 0].

Lemma nano_ipc_send_delivers_witness :
  exists s' tc' td', @exec demo_cfg (SysIpcSend (Z.of_nat 1) 0) (Boot.after receiver_waits) = Done tt s' /\
    tcbs s' !! 1%nat = Some td' /\ thread_state td' = THREAD_STATE_RUNNABLE /\
    get_reg 0 td' = Z.of_nat 0 /\
    (forall i, (1 <= i <= 7)%nat -> get_reg i td' =
       get_reg i (default dummy_tcb (tcbs (Boot.after receiver_waits) !! 0%nat))) /\
    tcbs s' !! 0%nat = Some tc' /\ get_reg 0 tc' = 0.
Proof.
  refine (@nano_ipc_send_delivers demo_cfg ∅ (Boot.after receiver_waits) 0 1
    (default dummy_tcb (tcbs (Boot.after receiver_waits) !! 0%nat))
    (default dummy_tcb (tcbs (Boot.after receiver_waits) !! 1%nat)) _ _ _ _ _ _).
  - apply (Boot.after_kinv receiver_waits); [reflexivity|]. run_ok.
  - reflexivity.
  - vm_compute. reflexivity.
  - vm_compute. reflexivity.
  - vm_compute. reflexivity.
  - left. vm_compute. reflexivity.
Defined.

(** Thread 0 creates thread 1 and joins it; thread 1 runs. *)
Definition joined : list event := [SysThreadCreate 4096 8192 7 5; SysThreadJoin 1].

Lemma nano_thread_create_exit_witness :
  exists s' t', @exec demo_cfg SysThreadExit (Boot.after joined) = Done tt s' /\ tcbs s' !! 1%nat = Some t' /\
    joiner t' = None /\ registered_interrupt t' = Interrupt.NO_INTERRUPT /\
    thread_state t' = THREAD_STATE_HALTED /\ tcb_free_head s' = Some 1%nat /\
    exists tj, tcbs s' !! 0%nat = Some tj /\ thread_state tj = THREAD_STATE_RUNNABLE.
Proof.
  refine (proj2 (@nano_thread_create_exit demo_cfg ∅ (Boot.after joined) 1
    (default dummy_tcb (tcbs (Boot.after joined) !! 1%nat)) _ _ _)).
  - apply (Boot.after_kinv joined); [reflexivity|]. run_ok.
  - reflexivity.
  - vm_compute. reflexivity.
Defined.
