(* ===== verification/SyncLang.v ===== *)
(** * Threads that share an object

    The synchronisation library of the nanokernel ([arch/arm/libs/nano],
    [libs/nano], [libs/okl4/src/nano]) works on objects in shared memory with
    plain and atomic accesses, and with the futex system calls.  A call of the
    library is a program [prog]; between any two of its accesses and system
    calls other threads can run.  This file has the programs, the futex
    service of the kernel as a relation, and the interleaving of any number of
    threads that make calls on one object. *)

From S2P Require Import Prelude.
#[local] Open Scope Z_scope.

(** ** Programs *)

Section prog.
Context {O : Type}.

(** [Acc f] is one access of the shared object; [Assert] reads it and checks
    an assertion. *)
Inductive prog : Type :=
| Ret (v : Z)
| Acc (f : O -> Z * O) (k : Z -> prog)
| Wait (tag : Z) (k : Z -> prog)
| Signal (tag : Z) (k : Z -> prog)
| Assert (b : O -> bool) (k : prog).

Fixpoint pbind (p : prog) (q : Z -> prog) : prog :=
  match p with
  | Ret v => q v
  | Acc f k => Acc f (fun v => pbind (k v) q)
  | Wait tag k => Wait tag (fun v => pbind (k v) q)
  | Signal tag k => Signal tag (fun v => pbind (k v) q)
  | Assert b k => Assert b (pbind k q)
  end.

(** A program run by itself, with nobody else; [None] when it sleeps or
    fails an assertion. *)
Fixpoint run_alone (p : prog) (o : O) : option (Z * O) :=
  match p with
  | Ret v => Some (v, o)
  | Acc f k => let (v, o') := f o in run_alone (k v) o'
  | Wait _ _ => None
  | Signal _ k => run_alone (k 0) o
  | Assert b k => if b o then run_alone k o else None
  end.

(** A word of the object. *)
Record field : Type := Field { fget : O -> Z; fset : Z -> O -> O }.

Definition rd_field (f : field) : prog := Acc (fun o => (fget f o, o)) Ret.
Definition wr_field (f : field) (v : Z) : prog := Acc (fun o => (0, fset f v o)) Ret.

(** ** [libs/atomic_ops]: the operations are one access. *)
Definition okl4_atomic_read (f : field) : prog := rd_field f.
Definition okl4_atomic_inc_return (f : field) : prog :=
  Acc (fun o => (u32 (fget f o + 1), fset f (u32 (fget f o + 1)) o)) Ret.
Definition okl4_atomic_dec_return (f : field) : prog :=
  Acc (fun o => (u32 (fget f o - 1), fset f (u32 (fget f o - 1)) o)) Ret.
Definition okl4_atomic_compare_and_set (f : field) (old_val new_val : Z) : prog :=
  Acc (fun o => if fget f o =? old_val then (1, fset f new_val o) else (0, o)) Ret.

Definition okn_syscall_futex_wait (tag : Z) : prog := Wait tag Ret.
Definition okn_syscall_futex_signal (tag : Z) : prog := Signal tag Ret.

End prog.
Arguments prog : clear implicits.
Arguments field : clear implicits.

Declare Scope prog_scope.
Delimit Scope prog_scope with prog.
Notation "'let+' x := p 'in' q" := (pbind p (fun x => q))
  (at level 200, x name, p at level 100, q at level 200, right associativity) : prog_scope.
Notation "'do+' p 'in' q" := (pbind p (fun _ => q))
  (at level 200, p at level 100, q at level 200, right associativity) : prog_scope.

(** ** The futex service

    The sleeping threads with their tags, and the pending signals, in any
    order.  [cap] is the number of signals the kernel can keep. *)
Definition futexes : Type := gmap nat Z * list Z.

(** The wait of thread [t] returns a value, or puts it to sleep. *)
Inductive fwait (t : nat) (tag : Z) : futexes -> option Z -> futexes -> Prop :=
| fwait_zero F : tag = 0 -> fwait t tag F (Some 1) F
| fwait_pending W P P' : tag <> 0 -> P ≡ₚ tag :: P' -> fwait t tag (W, P) (Some 0) (W, P')
| fwait_sleep W P : tag <> 0 -> tag ∉ P -> fwait t tag (W, P) None (<[t := tag]> W, P).

(** A signal returns a value, and may wake a thread. *)
Inductive fsignal (cap : nat) (tag : Z) : futexes -> Z * option nat -> futexes -> Prop :=
| fsignal_zero F : tag = 0 -> fsignal cap tag F (1, None) F
| fsignal_wake W P w : tag <> 0 -> W !! w = Some tag -> fsignal cap tag (W, P) (0, Some w) (delete w W, P)
| fsignal_pend W P P' : tag <> 0 -> (forall w, W !! w <> Some tag) -> (length P < cap)%nat -> P' ≡ₚ tag :: P ->
    fsignal cap tag (W, P) (0, None) (W, P')
| fsignal_full W P : tag <> 0 -> (forall w, W !! w <> Some tag) -> (cap <= length P)%nat ->
    fsignal cap tag (W, P) (1, None) (W, P).

(** ** Interleaving *)

(** What the threads do with the object: [body t c] is the call [c] of thread
    [t], [G] what the thread remembers of its calls, [may] when it can make
    one. *)
Class Client (O G C : Type) := {
  body : nat -> C -> prog O;
  begins : C -> G -> G;
  ends : C -> Z -> G -> G;
  may : O -> G -> C -> bool
}.

(** Initially every thread is at the same point. *)
Lemma start_lookup_gen {A} (x : A) N t :
  (list_to_map ((fun t => (t, x)) <$> seq 0 N) : gmap nat A) !! t = if decide (t < N)%nat then Some x else None.
Proof.
  destruct (decide (t < N)%nat) as [Hlt|Hge].
  - apply elem_of_list_to_map_1.
    + rewrite <-list_fmap_compose. simpl. rewrite list_fmap_id. apply NoDup_seq.
    + apply list_elem_of_fmap. exists t. split; [done|]. apply elem_of_seq. lia.
  - apply not_elem_of_list_to_map_1. rewrite <-list_fmap_compose. simpl. rewrite list_fmap_id, elem_of_seq. lia.
Qed.
Lemma start_size {A} (x : A) N : size (list_to_map ((fun t => (t, x)) <$> seq 0 N) : gmap nat A) = N.
Proof.
  rewrite map_size_list_to_map; [by rewrite length_fmap, length_seq|].
  rewrite <-list_fmap_compose. simpl. rewrite list_fmap_id. apply NoDup_seq.
Qed.

Section interleaving.
Context {O G C : Type} `{CL : !Client O G C} (cap : nat).

Inductive thread : Type :=
| Idle (g : G)
| Busy (g : G) (c : C) (p : prog O)
| Failed.

Record sys : Type := Sys {
  obj : O;
  futex : futexes;
  threads : gmap nat thread
}.

(** The thread a signal wakes returns from its wait. *)
Definition woken (th : thread) : thread :=
  match th with
  | Busy g c (Wait _ k) => Busy g c (k 0)
  | _ => th
  end.
Definition wake (w : option nat) (ths : gmap nat thread) : gmap nat thread :=
  match w with Some w => alter woken w ths | None => ths end.

Inductive step (s : sys) : sys -> Prop :=
| step_call t g c :
    threads s !! t = Some (Idle g) -> may (obj s) g c = true ->
    step s (Sys (obj s) (futex s) (<[t := Busy (begins c g) c (body t c)]> (threads s)))
| step_return t g c v :
    threads s !! t = Some (Busy g c (Ret v)) ->
    step s (Sys (obj s) (futex s) (<[t := Idle (ends c v g)]> (threads s)))
| step_access t g c f k v o' :
    threads s !! t = Some (Busy g c (Acc f k)) -> f (obj s) = (v, o') ->
    step s (Sys o' (futex s) (<[t := Busy g c (k v)]> (threads s)))
| step_assert t g c b k :
    threads s !! t = Some (Busy g c (Assert b k)) ->
    step s (Sys (obj s) (futex s) (<[t := if b (obj s) then Busy g c k else Failed]> (threads s)))
| step_wait t g c tag k r F' :
    threads s !! t = Some (Busy g c (Wait tag k)) -> (futex s).1 !! t = None -> fwait t tag (futex s) r F' ->
    step s (Sys (obj s) F' (<[t := Busy g c (match r with Some v => k v | None => Wait tag k end)]> (threads s)))
| step_signal t g c tag k r w F' :
    threads s !! t = Some (Busy g c (Signal tag k)) -> fsignal cap tag (futex s) (r, w) F' ->
    step s (Sys (obj s) F' (wake w (<[t := Busy g c (k r)]> (threads s)))).

(** The steps as a function, with the choices made: which thread runs, or
    makes a call, and which of the sleeping threads is woken (the one with the
    smallest number). *)
Inductive action : Type := ACall (t : nat) (c : C) | ARun (t : nat).

Definition do_wait (t : nat) (tag : Z) (F : futexes) : option Z * futexes :=
  if decide (tag = 0) then (Some 1, F)
  else match list_find (fun x => x = tag) F.2 with
  | Some (k, _) => (Some 0, (F.1, delete k F.2))
  | None => (None, (<[t := tag]> F.1, F.2))
  end.

Definition do_signal (tag : Z) (F : futexes) : (Z * option nat) * futexes :=
  if decide (tag = 0) then ((1, None), F)
  else match list_find (fun kx : nat * Z => kx.2 = tag) (map_to_list F.1) with
  | Some (_, (w, _)) => ((0, Some w), (delete w F.1, F.2))
  | None => if decide (length F.2 < cap)%nat then ((0, None), (F.1, tag :: F.2)) else ((1, None), F)
  end.

Definition do_step (s : sys) (a : action) : option sys :=
  let set t th := <[t := th]> (threads s) in
  match a with
  | ACall t c =>
      match threads s !! t with
      | Some (Idle g) =>
          if may (obj s) g c then Some (Sys (obj s) (futex s) (set t (Busy (begins c g) c (body t c)))) else None
      | _ => None
      end
  | ARun t =>
      match threads s !! t with
      | Some (Busy g c (Ret v)) => Some (Sys (obj s) (futex s) (set t (Idle (ends c v g))))
      | Some (Busy g c (Acc f k)) => let (v, o') := f (obj s) in Some (Sys o' (futex s) (set t (Busy g c (k v))))
      | Some (Busy g c (Assert b k)) => Some (Sys (obj s) (futex s) (set t (if b (obj s) then Busy g c k else Failed)))
      | Some (Busy g c (Wait tag k)) =>
          match (futex s).1 !! t with
          | None =>
              let (r, F') := do_wait t tag (futex s) in
              Some (Sys (obj s) F' (set t (Busy g c (match r with Some v => k v | None => Wait tag k end))))
          | Some _ => None
          end
      | Some (Busy g c (Signal tag k)) =>
          let (rw, F') := do_signal tag (futex s) in
          Some (Sys (obj s) F' (wake rw.2 (set t (Busy g c (k rw.1)))))
      | _ => None
      end
  end.

Fixpoint do_steps (s : sys) (l : list action) : option sys :=
  match l with
  | [] => Some s
  | a :: l' => match do_step s a with Some s' => do_steps s' l' | None => None end
  end.

Lemma do_wait_sound t tag F : fwait t tag F (do_wait t tag F).1 (do_wait t tag F).2.
Proof.
  destruct F as [W P]. unfold do_wait. case_decide; simpl; [by constructor|].
  destruct (list_find (fun x => x = tag) P) as [[k x]|] eqn:E; simpl.
  - apply list_find_Some in E as (Hk & -> & _). apply fwait_pending; [done|]. by apply delete_Permutation.
  - apply list_find_None in E. apply fwait_sleep; [done|]. rewrite Forall_forall in E. intros Hin. by apply (E tag).
Qed.

Lemma do_signal_sound tag F : fsignal cap tag F (do_signal tag F).1 (do_signal tag F).2.
Proof.
  destruct F as [W P]. unfold do_signal. case_decide; simpl; [by constructor|].
  destruct (list_find (fun kx : nat * Z => kx.2 = tag) (map_to_list W)) as [[k [w x]]|] eqn:E; simpl.
  - apply list_find_Some in E as (Hk & Hx & _). simpl in Hx. subst x. apply fsignal_wake; [done|].
    by eapply elem_of_map_to_list, list_elem_of_lookup_2.
  - assert (Hn : forall w, W !! w <> Some tag).
    { intros w Hw. apply list_find_None in E. rewrite Forall_forall in E. apply (E (w, tag)); [|done].
      by apply elem_of_map_to_list. }
    case_decide; simpl; [by apply fsignal_pend|apply fsignal_full; (done || lia)].
Qed.

Lemma do_step_sound s a s' : do_step s a = Some s' -> step s s'.
Proof.
  unfold do_step. destruct a as [t c|t]; destruct (threads s !! t) as [[g|g c' q|]|] eqn:Ht; try done.
  - destruct (may (obj s) g c) eqn:Em; [|done]. intros [= <-]. by apply step_call.
  - destruct q as [v|f k|tag k|tag k|b k].
    + intros [= <-]. by apply step_return.
    + destruct (f (obj s)) as [v o'] eqn:Ef. intros [= <-]. by eapply step_access.
    + destruct ((futex s).1 !! t) eqn:Ew; [done|]. pose proof (do_wait_sound t tag (futex s)) as Hw.
      destruct (do_wait t tag (futex s)) as [r F']. intros [= <-]. by eapply step_wait.
    + pose proof (do_signal_sound tag (futex s)) as Hw. destruct (do_signal tag (futex s)) as [[r w] F'].
      intros [= <-]. by eapply step_signal.
    + intros [= <-]. by eapply step_assert.
Qed.

Lemma do_steps_sound l : forall s s', do_steps s l = Some s' -> rtc step s s'.
Proof.
  induction l as [|a l IH]; simpl; intros s s'; [intros [= <-]; apply rtc_refl|].
  destruct (do_step s a) as [s1|] eqn:E; [|done]. intros H. eapply rtc_l; [by eapply do_step_sound|by apply IH].
Qed.

(** The state after the actions, as an execution. *)
Lemma do_steps_reach l s : rtc step s (default s (do_steps s l)).
Proof. destruct (do_steps s l) as [s'|] eqn:E; [by apply (do_steps_sound l)|apply rtc_refl]. Qed.

(** [N] threads that have made no call yet. *)
Definition start (o : O) (g : G) (N : nat) : sys :=
  Sys o (∅, []) (list_to_map ((fun t => (t, Idle g)) <$> seq 0 N)).

Lemma start_lookup o g N t : threads (start o g N) !! t = if decide (t < N)%nat then Some (Idle g) else None.
Proof. apply (start_lookup_gen (Idle g) N t). Qed.

End interleaving.
Arguments thread : clear implicits.
Arguments sys : clear implicits.

(** An invariant holds in every state of every execution. *)
Lemma rtc_invariant {S} (R : relation S) (I : S -> Prop) s0 s :
  rtc R s0 s -> I s0 -> (forall a b, I a -> R a b -> I b) -> I s.
Proof. intros Hr H0 Hs. induction Hr as [|a b c Hab _ IH]; [done|]. apply IH. by eapply Hs. Qed.

(** ** Counting threads *)

Section total.
Context {A : Type} (f : A -> nat).

Definition total (m : gmap nat A) : nat := sum_list_with (fun kx => f kx.2) (map_to_list m).

Lemma total_empty : total ∅ = 0%nat.
Proof. unfold total. by rewrite map_to_list_empty. Qed.

Lemma total_insert_new m i x : m !! i = None -> total (<[i := x]> m) = (f x + total m)%nat.
Proof. intros Hi. unfold total. by rewrite (map_to_list_insert m i x Hi). Qed.

Lemma total_delete m i x : m !! i = Some x -> total m = (f x + total (delete i m))%nat.
Proof.
  intros Hi. rewrite <-(total_insert_new (delete i m) i x) by apply lookup_delete_eq.
  by rewrite insert_delete_id.
Qed.

Lemma total_insert m i x y : m !! i = Some x -> (total (<[i := y]> m) + f x = total m + f y)%nat.
Proof.
  intros Hi. rewrite (total_delete m i x Hi), (total_delete (<[i := y]> m) i y) by apply lookup_insert_eq.
  rewrite delete_insert_eq. lia.
Qed.

Lemma total_ge m i x : m !! i = Some x -> (f x <= total m)%nat.
Proof. intros Hi. rewrite (total_delete m i x Hi). lia. Qed.

Lemma total_ge2 m i j x y : m !! i = Some x -> m !! j = Some y -> i <> j -> (f x + f y <= total m)%nat.
Proof.
  intros Hi Hj Hne. rewrite (total_delete m i x Hi).
  pose proof (total_ge (delete i m) j y) as H. rewrite lookup_delete_ne in H by done. specialize (H Hj). lia.
Qed.

Lemma total_zero m : (forall i x, m !! i = Some x -> f x = 0%nat) -> total m = 0%nat.
Proof.
  induction m as [|i x m Hi IH] using map_ind; intros H; [apply total_empty|].
  rewrite total_insert_new by done. rewrite (H i x) by apply lookup_insert_eq. apply IH.
  intros j y Hj. apply (H j). rewrite lookup_insert_ne; [done|congruence].
Qed.

Lemma total_pos m : (0 < total m)%nat -> exists i x, m !! i = Some x /\ (0 < f x)%nat.
Proof.
  induction m as [|i x m Hi IH] using map_ind; [rewrite total_empty; lia|]. rewrite total_insert_new by done. intros H.
  destruct (decide (f x = 0)%nat) as [Hz|].
  - destruct IH as (j & y & Hj & Hy); [lia|]. exists j, y. split; [|done]. rewrite lookup_insert_ne; [done|congruence].
  - exists i, x. split; [apply lookup_insert_eq|lia].
Qed.

Lemma total_le_size m : (forall i x, m !! i = Some x -> (f x <= 1)%nat) -> (total m <= size m)%nat.
Proof.
  induction m as [|i x m Hi IH] using map_ind; intros H; [rewrite total_empty; lia|].
  rewrite total_insert_new, map_size_insert_None by done.
  assert (f x <= 1)%nat by (apply (H i); apply lookup_insert_eq).
  assert (total m <= size m)%nat; [|lia]. apply IH. intros j y Hj. apply (H j). rewrite lookup_insert_ne; [done|congruence].
Qed.

End total.

Lemma total_mono {A} (f g : A -> nat) (m : gmap nat A) :
  (forall i x, m !! i = Some x -> (f x <= g x)%nat) -> (total f m <= total g m)%nat.
Proof.
  induction m as [|i x m Hi IH] using map_ind; intros H; [by rewrite !total_empty|].
  rewrite !total_insert_new by done. pose proof (H i x (lookup_insert_eq _ _ _)).
  assert (total f m <= total g m)%nat; [|lia]. apply IH. intros j y Hj. apply (H j). rewrite lookup_insert_ne; [done|congruence].
Qed.

Lemma total_plus {A} (f g : A -> nat) (m : gmap nat A) : total (fun x => (f x + g x)%nat) m = (total f m + total g m)%nat.
Proof.
  induction m as [|i x m Hi IH] using map_ind; [by rewrite !total_empty|]. rewrite !total_insert_new, IH by done. lia.
Qed.

Lemma total_ext {A} (f g : A -> nat) (m : gmap nat A) :
  (forall i x, m !! i = Some x -> f x = g x) -> total f m = total g m.
Proof. intros H. apply Nat.le_antisymm; apply total_mono; intros i x Hi; by rewrite (H i x Hi). Qed.

Lemma total_one {A} (m : gmap nat A) : total (fun _ => 1%nat) m = size m.
Proof.
  induction m as [|i x m Hi IH] using map_ind; [by rewrite total_empty|].
  by rewrite total_insert_new, map_size_insert_None, IH.
Qed.
