(* ===== verification/NanoFutexService.v ===== *)
(** * The futex service of the nanokernel

    The synchronisation library is verified against the relations [fwait]
    and [fsignal] of [SyncLang].  Here the kernel is shown to provide them:
    the sleeping threads and the pending signals of a kernel state are read
    off its TCBs and its table, the two futex system calls are steps of the
    relations, and no other kernel entry changes them. *)

From S2P Require Import Prelude SyncLang NanoState NanoSchedule NanoSyscalls NanoSpec Rings NanoLinks NanoRep NanoRefineSched NanoInv NanoRefineFutex NanoRefineSys NanoInvPres NanoInvSys NanoBoot NanoKernel NanoTheorems.
#[local] Open Scope Z_scope.

(** ** The view of a kernel state *)

Definition sleeping_tag (t : tcb) : option Z :=
  if decide (thread_state t = THREAD_STATE_WAIT_FUTEX) then Some (futex_tag t) else None.

Definition futexes_of (s : kstate) : futexes :=
  (omap sleeping_tag (tcbs s), take (Z.to_nat (num_pending_tags s)) (futex_pending_tags s)).

(** The register a system call returns its value in. *)
Definition result_of (s : kstate) (c : nat) : option Z := get_reg 0 <$> tcbs s !! c.

(** The same view of an abstract kernel. *)
Definition asleep (A : akernel) : gmap nat Z := omap sleeping_tag (a_tcbs A).

Lemma sleeping_erase t : sleeping_tag (erase t) = sleeping_tag t.
Proof. done. Qed.

(** How an update of one thread changes the view. *)
Lemma asleep_lookup A a t : a_tcbs A !! a = Some t -> asleep A !! a = sleeping_tag t.
Proof. intros Ha. unfold asleep. by rewrite lookup_omap, Ha. Qed.

Lemma asleep_upd A a f :
  (forall t, a_tcbs A !! a = Some t -> sleeping_tag (f t) = sleeping_tag t) -> asleep (a_upd a f A) = asleep A.
Proof.
  intros H. apply map_eq. intros b. unfold asleep. simpl. rewrite !lookup_omap. destruct (decide (a = b)) as [<-|].
  - rewrite lookup_alter_eq. destruct (a_tcbs A !! a) as [t|]; simpl; [by apply H|done].
  - by rewrite lookup_alter_ne.
Qed.

Lemma asleep_upd_to A a f t x :
  a_tcbs A !! a = Some t -> sleeping_tag (f t) = x -> asleep (a_upd a f A) = partial_alter (fun _ => x) a (asleep A).
Proof.
  intros Ha Hx. apply map_eq. intros b. unfold asleep. simpl. rewrite lookup_omap. destruct (decide (a = b)) as [<-|].
  - by rewrite lookup_alter_eq, lookup_partial_alter_eq, Ha.
  - by rewrite lookup_alter_ne, lookup_partial_alter_ne, lookup_omap.
Qed.

Section service.
Context {cfg : NanoConfig}.
Implicit Types (s : kstate) (A : akernel) (O : gset nat).

Lemma futexes_rep s A : Rep s A -> futexes_of s = (asleep A, a_pending A).
Proof.
  intros HR. unfold futexes_of. rewrite (rep_num_pending _ _ HR), Nat2Z.id, (rep_pending _ _ HR). f_equal.
  unfold asleep. rewrite (rep_tcbs _ _ HR). apply map_eq. intros a. rewrite !lookup_omap, lookup_fmap.
  by destruct (tcbs s !! a).
Qed.

Lemma result_rep s A c : Rep s A -> result_of s c = get_reg 0 <$> a_tcbs A !! c.
Proof. intros HR. unfold result_of. rewrite (rep_tcbs _ _ HR), lookup_fmap. by destruct (tcbs s !! c). Qed.

(** ** Operations that leave the view alone *)

Record unseen (A A' : akernel) : Prop := {
  un_asleep : asleep A' = asleep A;
  un_pending : a_pending A' = a_pending A
}.

Lemma unseen_refl A : unseen A A.
Proof. done. Qed.
Lemma unseen_trans A B C : unseen A B -> unseen B C -> unseen A C.
Proof. intros [H1 H2] [H3 H4]. split; congruence. Qed.

Lemma unseen_upd A B a f :
  (forall t, thread_state (f t) = thread_state t /\ futex_tag (f t) = futex_tag t) -> unseen A B -> unseen A (a_upd a f B).
Proof.
  intros Hf HU. eapply unseen_trans; [done|]. split; [|done]. apply asleep_upd. intros t _. unfold sleeping_tag.
  by destruct (Hf t) as [-> ->].
Qed.

(** A thread that does not sleep on a futex, before or after, changes state. *)
Lemma unseen_state A B a st :
  st <> THREAD_STATE_WAIT_FUTEX -> asleep A !! a = None -> unseen A B -> unseen A (a_upd a (set_thread_state st) B).
Proof.
  intros Hst Ha HU. eapply unseen_trans; [done|]. split; [|done]. apply asleep_upd. intros t Ht.
  rewrite <-(un_asleep _ _ HU), (asleep_lookup _ _ _ Ht) in Ha. rewrite Ha. unfold sleeping_tag. by rewrite decide_False.
Qed.

Lemma unseen_eq A B C : a_tcbs C = a_tcbs B -> a_pending C = a_pending B -> unseen A B -> unseen A C.
Proof. intros Ht Hp HU. eapply unseen_trans; [done|]. split; [|done]. unfold asleep. by rewrite Ht. Qed.

Lemma unseen_do_schedule A B : unseen A B -> unseen A (snd (a_do_schedule B)).
Proof. apply unseen_eq; [apply a_do_schedule_tcbs|apply a_do_schedule_data]. Qed.

Lemma unseen_activate_schedule A B a :
  asleep A !! a = None -> unseen A B -> unseen A (snd (a_activate_schedule a B)).
Proof.
  intros Ha HU. apply (unseen_eq A (a_upd a (set_thread_state THREAD_STATE_RUNNABLE) B)).
  - apply a_activate_schedule_tcbs.
  - apply (a_activate_schedule_data a B).
  - by apply unseen_state.
Qed.

Lemma unseen_setq A B q l : unseen A B -> unseen A (a_setq q l B).
Proof. by apply unseen_eq. Qed.
Lemma unseen_switch_to A B n : unseen A B -> unseen A (a_switch_to n B).
Proof. by apply unseen_eq. Qed.
Lemma unseen_handlers A B l : unseen A B -> unseen A (a_set_handlers l B).
Proof. by apply unseen_eq. Qed.
Lemma unseen_int_mask A B l : unseen A B -> unseen A (a_set_int_mask l B).
Proof. by apply unseen_eq. Qed.
Lemma unseen_irq_enable A B v : unseen A B -> unseen A (a_set_irq_enable v B).
Proof. by apply unseen_eq. Qed.

Lemma unseen_then_switch A r : unseen A (snd r) -> unseen A (a_then_switch r).
Proof. by apply unseen_eq. Qed.

Lemma unseen_copy_message A B src dest : unseen A B -> unseen A (a_copy_message src dest B).
Proof.
  intros HU. unfold a_copy_message. destruct (_ !! src) as [t|]; (repeat (apply unseen_upd; [by split|])); done.
Qed.

(** Threads that are known not to sleep on a futex. *)
Lemma awake_state A a st : a_state A a = st -> st <> THREAD_STATE_WAIT_FUTEX -> asleep A !! a = None.
Proof.
  unfold a_state, a_get, asleep. rewrite lookup_omap. destruct (a_tcbs A !! a) as [t|]; simpl; [|done].
  intros <- Hst. unfold sleeping_tag. by rewrite decide_False.
Qed.

Lemma awake_running O A c : AInv O A -> a_current A = Some c -> asleep A !! c = None.
Proof. intros HI Hc. eapply awake_state; [apply (inv_run _ _ HI); rewrite Hc; set_solver|done]. Qed.

Lemma awake_queued O A a q : AInv O A -> a ∈ a_queue A q -> (forall h, q <> QFutex h) -> asleep A !! a = None.
Proof.
  intros HI Ha Hq. destruct (inv_queued _ _ _ _ HI Ha) as (t & Ht & Hh & _). rewrite (asleep_lookup _ _ _ Ht).
  unfold sleeping_tag. destruct (decide _) as [Hst|]; [|done]. unfold home in Hh. rewrite Hst in Hh. injection Hh as <-.
  by destruct (Hq (Futex.hash_tag (futex_tag t))).
Qed.


(** ** The entries that are not futex calls *)

Ltac quiet := repeat first
  [ apply unseen_refl
  | apply unseen_setq | apply unseen_switch_to | apply unseen_handlers | apply unseen_int_mask | apply unseen_irq_enable
  | apply unseen_then_switch
  | apply unseen_do_schedule
  | apply unseen_activate_schedule; [done|]
  | apply unseen_copy_message
  | apply unseen_state; [done|done|]
  | apply unseen_upd; [by split|] ].

Lemma unseen_ipc_send O A c d op : AInv O A -> a_current A = Some c -> unseen A (a_sys_ipc_send c d op A).
Proof.
  intros HI Hc. pose proof (awake_running _ _ _ HI Hc) as Hac. unfold a_sys_ipc_send.
  destruct (_ <=? _); [unfold a_return; quiet|]. destruct (a_alive _ _); [|unfold a_return; quiet].
  unfold a_do_send, a_return, a_deactivate_self_schedule, a_deactivate_self, a_activate, a_enqueue, a_push, a_pop.
  destruct (a_ready_to_receive c (Z.to_nat d) A) eqn:Er.
  - assert (Had : asleep A !! Z.to_nat d = None).
    { apply (awake_state _ _ THREAD_STATE_WAIT_IPC_RECV); [|done]. unfold a_ready_to_receive in Er. apply andb_true_iff in Er as [Er _]. by apply bool_decide_eq_true in Er. }
    destruct (Ipc.OPERATION_IS_CALL op); [|quiet]. apply unseen_then_switch, unseen_do_schedule.
    match goal with |- unseen A (match ?x with Some _ => _ | None => _ end) => destruct x as [c'|] eqn:Ec end; [|quiet].
    assert (c' = c) as -> by (unfold a_copy_message in Ec; simpl in Ec; destruct (alter _ _ _ !! c); simpl in Ec; congruence). quiet.
  - destruct (Ipc.OPERATION_IS_NON_BLOCKING op); [quiet|]. simpl. rewrite Hc. destruct (Ipc.OPERATION_IS_CALL op); quiet.
Qed.

Lemma unseen_ipc_recv O A c src op : AInv O A -> a_current A = Some c -> unseen A (a_sys_ipc_recv c src op A).
Proof.
  intros HI Hc. pose proof (awake_running _ _ _ HI Hc) as Hac. unfold a_sys_ipc_recv, a_return, a_pop.
  destruct (_ && _); [quiet|]. destruct (a_queue A (QSend c)) as [|b l] eqn:Eq.
  - unfold a_deactivate_self_schedule, a_deactivate_self. simpl. rewrite Hc. quiet.
  - assert (Hab : asleep A !! b = None) by (eapply (awake_queued _ _ _ (QSend c)); [done|rewrite Eq; left|done]).
    destruct (bool_decide _); quiet.
Qed.

Lemma unseen_signal O A c e :
  AInv O A -> a_current A = Some c ->
  (exists m, e = SysSignalPoll m) \/ (exists m, e = SysSignalWait m) \/ (exists d sg, e = SysSignalSend d sg) -> unseen A (a_exec c e A).
Proof.
  intros HI Hc He. pose proof (awake_running _ _ _ HI Hc) as Hac.
  destruct He as [[m ->]|[[m ->]|(d & sg & ->)]]; simpl;
    unfold a_sys_signal_wait, a_sys_signal_send, a_sys_signal_poll, a_return.
  - quiet.
  - destruct (negb _); [quiet|]. unfold a_deactivate_self_schedule, a_deactivate_self. simpl. rewrite Hc. quiet.
  - destruct (_ <=? _); [quiet|]. destruct (a_alive _ _); [|quiet]. destruct (bool_decide _ && _) eqn:E; [|quiet].
    apply andb_true_iff in E as [E%bool_decide_eq_true _].
    assert (Had : asleep A !! Z.to_nat d = None) by (by eapply awake_state). quiet.
Qed.

Lemma unseen_interrupt O A c e :
  AInv O A -> a_current A = Some c ->
  e = SysInterruptWait \/ (exists i, e = SysInterruptRegister i) \/ (exists i, e = SysInterruptDeregister i) -> unseen A (a_exec c e A).
Proof.
  intros HI Hc He. pose proof (awake_running _ _ _ HI Hc) as Hac.
  destruct He as [-> |[[i ->]|[i ->]]]; simpl;
    unfold a_sys_interrupt_wait, a_sys_interrupt_register, a_sys_interrupt_deregister, a_return.
  - destruct (_ =? _); [quiet|]. unfold a_deactivate_self_schedule, a_deactivate_self. rewrite Hc.
    destruct (a_do_schedule _) as [n B] eqn:E.
    assert (unseen A B) by (change B with (snd (n, B)); rewrite <-E; quiet). by apply unseen_switch_to, unseen_irq_enable.
  - repeat case_match; quiet.
  - repeat case_match; quiet.
Qed.

Lemma unseen_thread_exit O A c : AInv O A -> a_current A = Some c -> unseen A (a_sys_thread_exit c A).
Proof.
  intros HI Hc. pose proof (awake_running _ _ _ HI Hc) as Hac. destruct (inv_running _ _ _ HI Hc) as (_ & _ & t & Ht & _).
  unfold a_sys_thread_exit, a_drop_interrupt. rewrite (a_get_eq _ _ _ _ _ Ht).
  assert (HJ : forall j, joiner t = Some j -> asleep A !! j = None).
  { intros j Hj. destruct (d_join _ (inv_data _ _ HI) _ _ _ Ht Hj) as [Hst _]. by eapply awake_state. }
  destruct (joiner t) as [j|]; [specialize (HJ j eq_refl)|clear HJ];
    (destruct (_ =? _); unfold a_activate, a_enqueue, a_reap, a_push, a_push_front; quiet).
Qed.

Lemma unseen_thread O A c e :
  AInv O A -> a_current A = Some c ->
  (exists pc sp r0 prio, e = SysThreadCreate pc sp r0 prio) \/ (exists d, e = SysThreadJoin d) \/ e = SysThreadMyself ->
  unseen A (a_exec c e A).
Proof.
  intros HI Hc He. pose proof (awake_running _ _ _ HI Hc) as Hac. destruct He as [(pc & sp & r0 & prio & ->)|[[d ->]| ->]]; simpl.
  - unfold a_sys_thread_create, a_return. destruct (_ <? _); [quiet|]. destruct (a_queue A QFree) as [|n l] eqn:Eq; [quiet|].
    assert (Han : asleep A !! n = None) by (eapply (awake_queued _ _ _ QFree); [done|rewrite Eq; left|done]).
    destruct (a_activate_schedule n _) as [nx B] eqn:E.
    assert (unseen A B) by (change B with (snd (nx, B)); rewrite <-E; unfold a_init_thread, a_pop; quiet). quiet. done.
  - unfold a_sys_thread_join, a_return. destruct (_ <=? _); [quiet|]. case_bool_decide; [quiet|].
    case_bool_decide as Ez.
    { assert (Had : asleep A !! Z.to_nat d = None) by (by eapply awake_state). unfold a_reap, a_push_front. quiet. }
    case_bool_decide; [quiet|]. unfold a_deactivate_self_schedule, a_deactivate_self. simpl. rewrite Hc.
    destruct (a_do_schedule _) as [n B] eqn:E.
    assert (unseen A B) by (change B with (snd (n, B)); rewrite <-E; quiet). quiet. done.
  - unfold a_sys_thread_myself, a_return. quiet.
Qed.


Lemma unseen_yield A : unseen A (a_sys_yield A).
Proof.
  unfold a_sys_yield, a_yield, a_enqueue, a_push. destruct (a_current A) as [c|]; [|quiet]. destruct (_ <=? _); quiet.
Qed.

Lemma unseen_irq O A status : AInv O A -> reported status A -> unseen A (a_handle_interrupt status A).
Proof.
  intros HI Hrep. destruct (handle_interrupt_handler _ _ _ HI Hrep) as (h & t & Hh & Ht & Hst & _).
  unfold a_handle_interrupt, a_return. rewrite Hh.
  assert (Hah : asleep A !! h = None) by (eapply awake_state; [by apply a_state_eq|by rewrite Hst]). quiet.
Qed.

(** ** The futex calls *)

Lemma last_index_found tag l n i : last_index tag l n = Some i -> l !! i = Some tag.
Proof. induction n as [|n IH]; simpl; [done|]. case_bool_decide; [|done]. by intros [= <-]. Qed.

Lemma a_take_pending_perm tag P P' : a_take_pending tag P = Some P' -> P ≡ₚ tag :: P'.
Proof.
  unfold a_take_pending. destruct (last_index tag P (length P)) as [i|] eqn:Ei; [|done].
  destruct (last P) as [x|] eqn:El; [|done]. intros [= <-].
  assert (Hi : P !! i = Some tag) by (by eapply last_index_found).
  apply last_Some in El as [P0 ->]. rewrite length_app. simpl. rewrite Nat.add_sub.
  destruct (decide (i < length P0)%nat) as [Hlt|Hge].
  - rewrite insert_app_l, take_app_length' by (rewrite ?length_insert; done). rewrite lookup_app_l in Hi by done.
    rewrite <-(take_drop_middle P0 i tag Hi), insert_app_r_alt by (rewrite length_take; lia).
    rewrite length_take, Nat.min_l, Nat.sub_diag by lia. simpl. solve_Permutation.
  - assert (i = length P0) as ->.
    { apply lookup_lt_Some in Hi. rewrite length_app in Hi. simpl in Hi. lia. }
    rewrite lookup_app_r, Nat.sub_diag in Hi by done. injection Hi as ->.
    rewrite insert_app_r_alt, take_app_length by done. by rewrite Permutation_app_comm.
Qed.

Lemma asleep_change A B c t x :
  (forall b, b <> c -> a_tcbs B !! b = a_tcbs A !! b) -> a_tcbs B !! c = Some t -> sleeping_tag t = x ->
  asleep B = partial_alter (fun _ => x) c (asleep A).
Proof.
  intros Hb Hc Hx. apply map_eq. intros b. unfold asleep. rewrite lookup_omap. destruct (decide (c = b)) as [<-|].
  - by rewrite lookup_partial_alter_eq, Hc.
  - by rewrite lookup_partial_alter_ne, lookup_omap, Hb.
Qed.

Lemma return_result A c v t : a_tcbs A !! c = Some t -> length (regs t) = 16%nat -> is_word v ->
  get_reg 0 <$> a_tcbs (a_return c v A) !! c = Some v.
Proof.
  intros Ht Hl Hv. simpl. rewrite lookup_alter_eq, Ht. simpl. f_equal. unfold get_reg. simpl.
  rewrite list_lookup_insert_eq by lia. simpl. by apply u32_word.
Qed.

(** The wait, on the abstract kernel. *)
Lemma a_wait_service O A c tag :
  AInv O A -> a_current A = Some c ->
  let A' := a_sys_futex_wait c tag A in
  exists r, fwait c tag (asleep A, a_pending A) r (asleep A', a_pending A') /\
    get_reg 0 <$> a_tcbs A' !! c = Some (default 0 r) /\
    match r with
    | Some _ => a_current A' = Some c
    | None => a_state A' c = THREAD_STATE_WAIT_FUTEX
    end.
Proof.
  intros HI Hc A'. destruct (inv_running _ _ _ HI Hc) as (_ & _ & t & Ht & _).
  pose proof (d_regs _ (inv_data _ _ HI) _ _ Ht) as Hl. subst A'. unfold a_sys_futex_wait.
  destruct (Z.eqb_spec tag 0) as [->|Htag].
  { exists (Some 1). split_and!; [|by eapply return_result|done].
    unfold a_return. rewrite asleep_upd by done. by apply fwait_zero. }
  destruct (a_take_pending tag (a_pending A)) as [P'|] eqn:Ep.
  - exists (Some 0). split_and!; [|by eapply return_result|done].
    unfold a_return. rewrite (asleep_upd (a_set_pending P' A)) by done. apply fwait_pending; [done|by apply a_take_pending_perm].
  - exists None. destruct (a_deactivate_self_schedule _ _) as [n B] eqn:E.
    assert (HB : a_tcbs B = alter (set_thread_state THREAD_STATE_WAIT_FUTEX) c (alter (set_reg 0 (u32 0)) c (a_tcbs A)) /\ a_pending B = a_pending A).
    { change B with (snd (n, B)). rewrite <-E. unfold a_deactivate_self_schedule, a_deactivate_self. simpl. rewrite Hc.
      rewrite a_do_schedule_tcbs. split; [done|]. apply (a_do_schedule_data (a_upd c _ (a_return c 0 A))). }
    destruct HB as [HBt HBp]. set (F := a_switch_to n _).
    assert (HF : a_tcbs F !! c = Some (set_futex_tag tag (set_thread_state THREAD_STATE_WAIT_FUTEX (set_reg 0 (u32 0) t)))).
    { simpl. by rewrite lookup_alter_eq, HBt, !lookup_alter_eq, Ht. }
    split_and!; [| |by rewrite (a_state_eq _ _ _ HF)].
    + assert (asleep F = <[c := tag]> (asleep A)) as ->.
      { eapply asleep_change; [|exact HF|done]. intros b Hb. simpl. by rewrite lookup_alter_ne, HBt, !lookup_alter_ne. }
      simpl a_pending. rewrite HBp. apply fwait_sleep; [done|by apply a_take_pending_none].
    + rewrite HF. simpl. f_equal. unfold get_reg. simpl. by rewrite list_lookup_insert_eq by lia.
Qed.

(** The waiter that is found sleeps on the tag, and is not the caller. *)
Lemma a_waiter_asleep O A tag w :
  AInv O A -> a_find_waiter tag A = Some w -> asleep A !! w = Some tag.
Proof.
  intros HI Ew. destruct (a_find_waiter_Some _ _ _ Ew) as [Hwq Hwt].
  destruct (inv_queued _ _ _ _ HI Hwq) as (t & Ht & Hh & _). rewrite (asleep_lookup _ _ _ Ht). unfold sleeping_tag.
  unfold has_tag in Hwt. rewrite (a_get_eq _ _ _ _ _ Ht) in Hwt.
  rewrite decide_True; [by rewrite (proj1 (Z.eqb_eq _ _) Hwt)|]. revert Hh. unfold home. by destruct (thread_state t), (ipc_waiting_for t).
Qed.

Lemma a_no_waiter O A tag w : AInv O A -> a_find_waiter tag A = None -> asleep A !! w <> Some tag.
Proof.
  intros HI Ew Hw. unfold asleep in Hw. rewrite lookup_omap in Hw. destruct (a_tcbs A !! w) as [t|] eqn:Ht; [|done].
  simpl in Hw. unfold sleeping_tag in Hw. destruct (decide _) as [Hst|]; [|done]. injection Hw as <-.
  pose proof (List.find_none _ _ Ew w) as Hf. unfold has_tag in Hf. rewrite (a_get_eq _ _ _ _ _ Ht), Z.eqb_refl in Hf.
  assert (true = false); [|done]. apply Hf, list_elem_of_In. apply (inv_home _ _ _ _ _ HI Ht); [by rewrite Hst|].
  unfold home. by rewrite Hst.
Qed.

(** The signal, on the abstract kernel. *)
Lemma a_signal_service O A c tag :
  AInv O A -> a_current A = Some c ->
  let A' := a_sys_futex_signal c tag A in
  exists r w, fsignal max_tcbs tag (asleep A, a_pending A) (r, w) (asleep A', a_pending A') /\
    get_reg 0 <$> a_tcbs A' !! c = Some r /\
    forall b, b <> c -> regs <$> a_tcbs A' !! b = regs <$> a_tcbs A !! b.
Proof.
  intros HI Hc A'. destruct (inv_running _ _ _ HI Hc) as (_ & _ & t & Ht & _).
  pose proof (d_regs _ (inv_data _ _ HI) _ _ Ht) as Hl. pose proof (awake_running _ _ _ HI Hc) as Hac. subst A'.
  unfold a_sys_futex_signal.
  assert (Hret : forall B v, a_tcbs B = a_tcbs A -> asleep (a_return c v B) = asleep A /\
    forall b, b <> c -> regs <$> a_tcbs (a_return c v B) !! b = regs <$> a_tcbs A !! b).
  { intros B v HB. split; [|intros b Hb; simpl; by rewrite HB, lookup_alter_ne].
    unfold a_return. rewrite asleep_upd by done. unfold asleep. by rewrite HB. }
  destruct (Z.eqb_spec tag 0) as [->|Htag].
  { exists 1, None. destruct (Hret A 1 eq_refl) as [-> Hr]. split_and!; [by apply fsignal_zero|by eapply return_result|done]. }
  destruct (a_find_waiter tag A) as [w|] eqn:Ew.
  - pose proof (a_waiter_asleep _ _ _ _ HI Ew) as Hw. assert (Hcw : w <> c) by (intros ->; congruence).
    destruct (a_activate_schedule w _) as [n B] eqn:E.
    assert (HB : a_tcbs B = alter (set_thread_state THREAD_STATE_RUNNABLE) w (a_tcbs A) /\ a_pending B = a_pending A).
    { change B with (snd (n, B)). rewrite <-E, a_activate_schedule_tcbs. split; [done|].
      apply (a_activate_schedule_data w (a_remove (QFutex (Futex.hash_tag tag)) w A)). }
    destruct HB as [HBt HBp]. destruct (a_tcbs A !! w) as [tw|] eqn:Htw; [|unfold asleep in Hw; by rewrite lookup_omap, Htw in Hw].
    exists 0, (Some w). split_and!.
    + replace (asleep (a_switch_to n (a_return c 0 B))) with (delete w (asleep A)); [simpl; rewrite HBp; by apply fsignal_wake|].
      symmetry. change (asleep (a_return c 0 B) = delete w (asleep A)). unfold a_return. rewrite asleep_upd by done.
      apply (asleep_change A B w (set_thread_state THREAD_STATE_RUNNABLE tw)); [intros b Hb; by rewrite HBt, lookup_alter_ne| |done].
      by rewrite HBt, lookup_alter_eq, Htw.
    + apply (return_result B c 0 t); [by rewrite HBt, lookup_alter_ne|done|done].
    + intros b Hb. simpl. rewrite lookup_alter_ne, HBt by done. destruct (decide (b = w)) as [->|]; [|by rewrite lookup_alter_ne].
      by rewrite lookup_alter_eq, Htw.
  - pose proof (fun w => a_no_waiter O A tag w HI Ew) as Hn. destruct (Z.leb_spec (Z.of_nat max_tcbs) (Z.of_nat (length (a_pending A)))).
    + exists 1, None. destruct (Hret A 1 eq_refl) as [-> Hr]. split_and!; [|by eapply return_result|done].
      apply fsignal_full; [done|done|simpl; lia].
    + exists 0, None. destruct (Hret (a_set_pending (a_pending A ++ [tag]) A) 0 eq_refl) as [-> Hr].
      split_and!; [|by eapply (return_result (a_set_pending _ A))|done].
      apply fsignal_pend; [done|done|simpl; lia|]. simpl. by rewrite Permutation_app_comm.
Qed.

(** Every other entry, on the abstract kernel. *)
Definition is_futex_call (e : event) : bool := match e with SysFutexWait _ | SysFutexSignal _ => true | _ => false end.

Lemma unseen_exec O s A e :
  Rep s A -> AInv O A -> enabled e s -> is_futex_call e = false -> unseen A (a_exec (caller s) e A).
Proof.
  intros HR HI Hen He. unfold caller.
  assert (Hcur : forall c, current_tcb s = Some c -> a_current A = Some c)
    by (intros c; by rewrite (rep_current _ _ HR)).
  destruct e; try discriminate; simpl in Hen;
    try (destruct Hen as [[c Hc] Harg]; rewrite ?Hc; specialize (Hcur c Hc); simpl default).
  - by eapply unseen_ipc_send.
  - by eapply unseen_ipc_recv.
  - by eapply unseen_interrupt; eauto.
  - by eapply unseen_interrupt; eauto.
  - by eapply unseen_interrupt; eauto.
  - by eapply unseen_signal; eauto.
  - by eapply unseen_signal; eauto.
  - by eapply unseen_signal; eauto 6.
  - by eapply unseen_thread; eauto 8.
  - by eapply unseen_thread_exit.
  - by eapply unseen_thread; eauto.
  - by eapply unseen_thread; eauto.
  - apply unseen_yield.
  - eapply unseen_irq; [done|]. unfold reported. by rewrite (rep_irq_enable _ _ HR).
Qed.

(** C21: the kernel provides the futex service that the synchronisation
    library is verified against.  Every entry that the running thread or an
    enabled interrupt can make from a well-formed state returns, and
    - a futex wait is a step of [fwait] on the sleeping threads and pending
      signals: the caller gets the value of the step and runs on, or sleeps
      with 0 as the value it will see when it is woken;
    - a futex signal is a step of [fsignal], with as much room for signals as
      there are threads; the caller gets its value, and the registers of all
      other threads (the woken one too) are as before;
    - no other entry changes the sleeping threads or the pending signals. *)
Theorem nano_futex_service O s e :
  KInv O s -> enabled e s ->
  exists s', exec e s = Done tt s' /\
  match e with
  | SysFutexWait tag =>
      exists r, fwait (caller s) tag (futexes_of s) r (futexes_of s') /\
        result_of s' (caller s) = Some (default 0 r) /\ (current_tcb s' = Some (caller s) <-> r <> None)
  | SysFutexSignal tag =>
      exists r w, fsignal max_tcbs tag (futexes_of s) (r, w) (futexes_of s') /\
        result_of s' (caller s) = Some r /\
        (forall b, b <> caller s -> regs <$> tcbs s' !! b = regs <$> tcbs s !! b)
  | _ => futexes_of s' = futexes_of s
  end.
Proof.
  intros HK Hen. destruct (exec_result O s e HK Hen) as (A & s' & HR & HI & He & HR' & HI').
  exists s'. split; [done|]. rewrite (futexes_rep _ _ HR), (futexes_rep _ _ HR').
  pose proof (unseen_exec O s A e HR HI Hen) as HU.
  destruct e; try (destruct HU as [-> ->]; reflexivity).
  - destruct Hen as [[c Hc] _]. unfold caller in *. rewrite Hc in *. simpl default in *.
    assert (Hac : a_current A = Some c) by (by rewrite (rep_current _ _ HR)).
    destruct (a_wait_service O A c tag HI Hac) as (r & Hr & Hres & Hcur). exists r.
    rewrite (result_rep _ _ _ HR'), <-(rep_current _ _ HR'). split_and!; [done|done|]. simpl a_exec in *. destruct r as [v|]; [done|].
    split; [|done]. intros Hc'. pose proof (inv_run _ _ HI' c) as Hrun. rewrite Hc', Hcur in Hrun. exfalso.
    assert (THREAD_STATE_WAIT_FUTEX = THREAD_STATE_RUNNABLE); [apply Hrun; set_solver|done].
  - destruct Hen as [[c Hc] _]. unfold caller in *. rewrite Hc in *. simpl default in *.
    assert (Hac : a_current A = Some c) by (by rewrite (rep_current _ _ HR)).
    destruct (a_signal_service O A c tag HI Hac) as (r & w & Hr & Hres & Hregs). exists r, w.
    rewrite (result_rep _ _ _ HR'). split_and!; [done|done|]. intros b Hb. specialize (Hregs b Hb).
    pose proof (rep_tcbs _ _ HR') as HT. simpl in HT. rewrite (rep_tcbs _ _ HR), HT, !lookup_fmap in Hregs.
    by destruct (tcbs s' !! b), (tcbs s !! b).
Qed.

End service.

(** Threads 1 and 0 sleep on tag 8; thread 2 signals it. *)
Lemma nano_futex_service_witness :
  exists s', @exec demo_cfg (SysFutexSignal 8) (Boot.after sleepers) = Done tt s' /\
    exists r w, fsignal (@max_tcbs demo_cfg) 8 (futexes_of (Boot.after sleepers)) (r, w) (futexes_of s') /\
      result_of s' (caller (Boot.after sleepers)) = Some r /\
      (forall b, b <> caller (Boot.after sleepers) -> regs <$> tcbs s' !! b = regs <$> tcbs (Boot.after sleepers) !! b).
Proof.
  apply (@nano_futex_service demo_cfg ∅ (Boot.after sleepers) (SysFutexSignal 8)).
  - apply (Boot.after_kinv sleepers); [reflexivity|]. run_ok.
  - split; [eexists; vm_compute; reflexivity|exact I].
Defined.
