(* ===== verification/NanoSync.v ===== *)
(** * The synchronisation library: futex, mutex, semaphore, barrier

    [arch/arm/libs/nano/src/futex.c] and [semaphore.c],
    [libs/nano/src/barrier.c], and the okl4 interface to them in
    [libs/okl4/src/nano/mutex_*.c], [semaphore_*.c] and [barrier_*.c], as
    programs over the shared object; [self] is the object's address, which is
    the futex tag the code waits on.  A plain access of a field is one step of
    its own, so that unprotected accesses do race. *)

From S2P Require Import Prelude SyncLang.
#[local] Open Scope Z_scope.
#[local] Open Scope prog_scope.

Definition NULL_KCAP : Z := WORD_MOD - 1.
Definition SYNC_OK : Z := 0.
Definition SYNC_WOULD_BLOCK : Z := -17.

(** ** [futex.c]; the lock word is the field [lk]. *)
Module Fut.
Section futex.
Context {O : Type} (lk : field O) (self : Z).

Definition okn_futex_init : prog O := wr_field lk 0.

Definition okn_futex_lock : prog O :=
  let+ new_value := okl4_atomic_inc_return lk in
  if s32 new_value =? 1 then Ret 0
  else do+ okn_syscall_futex_wait self in Ret 0.

Definition okn_futex_trylock : prog O := okl4_atomic_compare_and_set lk 0 1.

Definition okn_futex_unlock : prog O :=
  let+ waiters := okl4_atomic_dec_return lk in
  if 0 <? s32 waiters then do+ okn_syscall_futex_signal self in Ret 0
  else Ret 0.

End futex.
End Fut.

(** ** [mutex_*.c] *)
Module Mut.

Record okl4_mutex : Type := Mutex {
  lock : Z;          (* futex.lock *)
  owner : Z;
  count : Z;
  is_counted : Z
}.
Definition f_lock : field okl4_mutex := Field lock (fun v m => Mutex v (owner m) (count m) (is_counted m)).
Definition f_owner : field okl4_mutex := Field owner (fun v m => Mutex (lock m) v (count m) (is_counted m)).
Definition f_count : field okl4_mutex := Field count (fun v m => Mutex (lock m) (owner m) v (is_counted m)).
Definition f_is_counted : field okl4_mutex := Field is_counted (fun v m => Mutex (lock m) (owner m) (count m) v).

Section mutex.
Context (self : Z).

Definition not_null : okl4_mutex -> bool := fun _ => negb (self =? 0).

Definition okl4_mutex_create (attr_is_counted : Z) : prog okl4_mutex :=
  Assert not_null (
  do+ wr_field f_count 0 in
  do+ wr_field f_owner NULL_KCAP in
  do+ wr_field f_is_counted (if attr_is_counted =? 0 then 0 else 1) in
  do+ Fut.okn_futex_init f_lock in
  Ret SYNC_OK).

Definition okl4_mutex_lock (myself : Z) : prog okl4_mutex :=
  Assert not_null (
  let+ counted := rd_field f_is_counted in
  if counted =? 0 then Fut.okn_futex_lock f_lock self
  else
    let+ o := rd_field f_owner in
    if o =? myself then
      let+ n := rd_field f_count in
      do+ wr_field f_count (u32 (n + 1)) in
      Ret 0
    else
      do+ Fut.okn_futex_lock f_lock self in
      Assert (fun m => owner m =? NULL_KCAP) (
      Assert (fun m => count m =? 0) (
      do+ wr_field f_owner myself in
      do+ wr_field f_count 1 in
      Ret 0))).

Definition okl4_mutex_trylock (myself : Z) : prog okl4_mutex :=
  Assert not_null (
  let+ counted := rd_field f_is_counted in
  if counted =? 0 then
    let+ success := Fut.okn_futex_trylock f_lock in
    Ret (if negb (success =? 0) then SYNC_OK else SYNC_WOULD_BLOCK)
  else
    let+ o := rd_field f_owner in
    if o =? myself then
      let+ n := rd_field f_count in
      do+ wr_field f_count (u32 (n + 1)) in
      Ret SYNC_OK
    else
      let+ success := Fut.okn_futex_trylock f_lock in
      if success =? 0 then Ret SYNC_WOULD_BLOCK
      else
        Assert (fun m => owner m =? NULL_KCAP) (
        Assert (fun m => count m =? 0) (
        do+ wr_field f_owner myself in
        do+ wr_field f_count 1 in
        Ret SYNC_OK))).

Definition okl4_mutex_unlock (myself : Z) : prog okl4_mutex :=
  Assert not_null (
  let+ counted := rd_field f_is_counted in
  if counted =? 0 then Fut.okn_futex_unlock f_lock self
  else
    Assert (fun m => owner m =? myself) (
    let+ n := rd_field f_count in
    do+ wr_field f_count (u32 (n - 1)) in
    let+ n := rd_field f_count in
    if n =? 0 then
      do+ wr_field f_owner NULL_KCAP in
      Fut.okn_futex_unlock f_lock self
    else Ret 0)).

Definition okl4_mutex_delete : prog okl4_mutex :=
  Assert not_null (
  Assert (fun m => owner m =? NULL_KCAP) (
  Assert (fun m => count m =? 0) (
  let+ success := Fut.okn_futex_trylock f_lock in
  Assert (fun _ => negb (success =? 0)) (Ret 0)))).

End mutex.
End Mut.

(** ** [semaphore.c] and [semaphore_*.c] *)
Module Sem.

Record okn_semaphore : Type := Semaphore { sem_count : Z }.
Definition f_count : field okn_semaphore := Field sem_count (fun v _ => Semaphore v).

Section semaphore.
Context (self : Z).

Definition okn_semaphore_init (val : Z) : prog okn_semaphore := wr_field f_count val.

Definition okn_semaphore_down : prog okn_semaphore :=
  let+ result := okl4_atomic_dec_return f_count in
  if 0 <=? s32 result then Ret (s32 result)
  else do+ okn_syscall_futex_wait self in Ret 0.

(** The retry loop, with a bound on the number of attempts; a failed attempt
    means that another thread changed the count. *)
Fixpoint try_down_loop (n : nat) : prog okn_semaphore :=
  match n with
  | O => Ret 0
  | S n' =>
      let+ val := okl4_atomic_read f_count in
      if s32 val <=? 0 then Ret 0
      else
        let+ success := okl4_atomic_compare_and_set f_count val (u32 (s32 val - 1)) in
        if negb (success =? 0) then Ret (s32 val) else try_down_loop n'
  end.

Definition okn_semaphore_up : prog okn_semaphore :=
  let+ result := okl4_atomic_inc_return f_count in
  if 0 <? s32 result then Ret (s32 result)
  else do+ okn_syscall_futex_signal self in Ret 0.

Definition not_null : okn_semaphore -> bool := fun _ => negb (self =? 0).

Definition okl4_semaphore_create (init_value : Z) : prog okn_semaphore :=
  do+ okn_semaphore_init init_value in Ret SYNC_OK.
Definition okl4_semaphore_delete : prog okn_semaphore := Assert not_null (Ret 0).
Definition okl4_semaphore_down : prog okn_semaphore := Assert not_null (do+ okn_semaphore_down in Ret 0).
Definition okl4_semaphore_up : prog okn_semaphore := Assert not_null (do+ okn_semaphore_up in Ret 0).
Definition okl4_semaphore_trydown (n : nat) : prog okn_semaphore :=
  Assert not_null (
  let+ result := try_down_loop n in
  if result =? 0 then Ret SYNC_WOULD_BLOCK else Ret SYNC_OK).

End semaphore.
End Sem.

(** ** [barrier.c] and [barrier_*.c] *)
Module Bar.

Record okn_barrier_t : Type := Barrier {
  bcount : Z;
  expected : Z;
  waiters : Z;
  version : Z
}.
Definition f_count : field okn_barrier_t := Field bcount (fun v b => Barrier v (expected b) (waiters b) (version b)).
Definition f_expected : field okn_barrier_t := Field expected (fun v b => Barrier (bcount b) v (waiters b) (version b)).
Definition f_waiters : field okn_barrier_t := Field waiters (fun v b => Barrier (bcount b) (expected b) v (version b)).
Definition f_version : field okn_barrier_t := Field version (fun v b => Barrier (bcount b) (expected b) (waiters b) v).

Section barrier.
Context (self : Z).

Definition okn_barrier_init (num_threads : Z) : prog okn_barrier_t :=
  do+ wr_field f_expected num_threads in
  do+ wr_field f_version 0 in
  do+ wr_field f_count 0 in
  wr_field f_waiters 0.

Definition okn_barrier : prog okn_barrier_t :=
  let+ ver := rd_field f_version in
  let+ cnt := okl4_atomic_inc_return f_count in
  let+ exp := rd_field f_expected in
  if u32 cnt <? exp then
    do+ okn_syscall_futex_wait (u32 (self + ver)) in
    let+ w := rd_field f_waiters in
    do+ wr_field f_waiters (u32 (w - 1)) in
    let+ w := rd_field f_waiters in
    if 0 <? w then do+ okn_syscall_futex_signal (u32 (self + ver)) in Ret 0
    else Ret 0
  else
    do+ wr_field f_count 0 in
    let+ v := rd_field f_version in
    do+ wr_field f_version (u32 (1 - v)) in
    let+ e := rd_field f_expected in
    do+ wr_field f_waiters (u32 (e - 1)) in
    do+ okn_syscall_futex_signal (u32 (self + ver)) in
    Ret 0.

Definition okl4_barrier_create (num_threads : Z) : prog okn_barrier_t :=
  do+ okn_barrier_init num_threads in Ret SYNC_OK.
Definition okl4_barrier_wait : prog okn_barrier_t := okn_barrier.
Definition okl4_barrier_delete : prog okn_barrier_t := Ret 0.

End barrier.
End Bar.
