(* ===== verification/SyncMutex.v ===== *)
(** * Mutual exclusion of the okl4 mutex

    Threads lock, try to lock and unlock one mutex, counted or not, in any
    interleaving.  The proof describes each thread by the point of the code it
    is at, and relates the lock word, the fields of the counted mutex and the
    futex state to these points. *)

From S2P Require Import Prelude SyncLang NanoSync.
#[local] Open Scope Z_scope.
#[local] Open Scope prog_scope.

Module MutexProof.
Import Mut Fut.

Inductive call : Type := Lock | TryLock | Unlock.

(** What a thread remembers is the depth to which it holds the mutex: the
    locks it was granted less the unlocks it has begun. *)
Definition mutex_client (self : Z) : Client okl4_mutex nat call := {|
  body t c := match c with
    | Lock => okl4_mutex_lock self (Z.of_nat t)
    | TryLock => okl4_mutex_trylock self (Z.of_nat t)
    | Unlock => okl4_mutex_unlock self (Z.of_nat t)
    end;
  begins c d := match c with Unlock => pred d | _ => d end;
  ends c v d := match c with
    | Lock => S d
    | TryLock => if v =? SYNC_OK then S d else d
    | Unlock => d
    end;
  (* an unlock needs a lock; locking an uncounted mutex twice is an error of
     the program *)
  may m d c := match c with
    | Lock => (negb (is_counted m =? 0) || (d =? 0)%nat) && (Z.of_nat (S d) <? WORD_MOD)
    | TryLock => Z.of_nat (S d) <? WORD_MOD
    | Unlock => (1 <=? d)%nat
    end
|}.

(** ** The points of the code *)

(** [d] is the depth before the call. *)
Inductive pt : Type :=
| PIdle (d : nat)
| PIn (c : call) (d : nat) | PCounted (c : call) (d : nat)
| POwner (c : call) (d : nat) | PCount (c : call) (d : nat) | PCountW (c : call) (d : nat)
| PInc | PWait | PCas (d : nat) | PFail (d : nat)
| PAssO (c : call) | PAssC (c : call) | PSetO (c : call) | PSetC (c : call)
| PDone (c : call) (d : nat)
| UOwner (d : nat) | UCount (d : nat) | UCountW (d : nat) | UTest (d : nat) | URelO | UDec | USig
| UDone (d : nat).

Section points.
Context (self : Z) (b : bool).
Implicit Types (i d : nat).

(** The code that is left once the futex is taken. *)
Definition setC (i : nat) : prog okl4_mutex := do+ wr_field f_count 1 in Ret 0.
Definition setO (i : nat) : prog okl4_mutex := do+ wr_field f_owner (Z.of_nat i) in setC i.
Definition assC (i : nat) : prog okl4_mutex := Assert (fun m => count m =? 0) (setO i).
Definition assO (i : nat) : prog okl4_mutex := Assert (fun m => owner m =? NULL_KCAP) (assC i).

(** The code from each point on. *)
Definition rest (i : nat) (p : pt) : prog okl4_mutex :=
  match p with
  | PIn Lock _ => okl4_mutex_lock self (Z.of_nat i)
  | PIn TryLock _ => okl4_mutex_trylock self (Z.of_nat i)
  | PIn Unlock _ => okl4_mutex_unlock self (Z.of_nat i)
  | PCounted Lock _ =>
      let+ counted := rd_field f_is_counted in
      if counted =? 0 then okn_futex_lock f_lock self
      else let+ o := rd_field f_owner in
        if o =? Z.of_nat i then (let+ n := rd_field f_count in do+ wr_field f_count (u32 (n + 1)) in Ret 0)
        else do+ okn_futex_lock f_lock self in assO i
  | PCounted TryLock _ =>
      let+ counted := rd_field f_is_counted in
      if counted =? 0 then
        let+ success := okn_futex_trylock f_lock in
        Ret (if negb (success =? 0) then SYNC_OK else SYNC_WOULD_BLOCK)
      else let+ o := rd_field f_owner in
        if o =? Z.of_nat i then (let+ n := rd_field f_count in do+ wr_field f_count (u32 (n + 1)) in Ret SYNC_OK)
        else let+ success := okn_futex_trylock f_lock in
          if success =? 0 then Ret SYNC_WOULD_BLOCK else assO i
  | PCounted Unlock _ =>
      let+ counted := rd_field f_is_counted in
      if counted =? 0 then okn_futex_unlock f_lock self
      else Assert (fun m => owner m =? Z.of_nat i) (
        let+ n := rd_field f_count in
        do+ wr_field f_count (u32 (n - 1)) in
        let+ n := rd_field f_count in
        if n =? 0 then (do+ wr_field f_owner NULL_KCAP in okn_futex_unlock f_lock self) else Ret 0)
  | POwner Lock _ =>
      let+ o := rd_field f_owner in
      if o =? Z.of_nat i then (let+ n := rd_field f_count in do+ wr_field f_count (u32 (n + 1)) in Ret 0)
      else do+ okn_futex_lock f_lock self in assO i
  | POwner _ _ =>
      let+ o := rd_field f_owner in
      if o =? Z.of_nat i then (let+ n := rd_field f_count in do+ wr_field f_count (u32 (n + 1)) in Ret SYNC_OK)
      else let+ success := okn_futex_trylock f_lock in
        if success =? 0 then Ret SYNC_WOULD_BLOCK else assO i
  | PCount _ _ => let+ n := rd_field f_count in do+ wr_field f_count (u32 (n + 1)) in Ret 0
  | PCountW _ d => do+ wr_field f_count (u32 (Z.of_nat d + 1)) in Ret 0
  | PInc => if b then do+ okn_futex_lock f_lock self in assO i else okn_futex_lock f_lock self
  | PWait => Wait self (fun _ => if b then assO i else Ret 0)
  | PCas _ =>
      if b then let+ success := okn_futex_trylock f_lock in if success =? 0 then Ret SYNC_WOULD_BLOCK else assO i
      else let+ success := okn_futex_trylock f_lock in
        Ret (if negb (success =? 0) then SYNC_OK else SYNC_WOULD_BLOCK)
  | PFail _ => Ret SYNC_WOULD_BLOCK
  | PAssO _ => assO i
  | PAssC _ => assC i
  | PSetO _ => setO i
  | PSetC _ => setC i
  | UOwner _ => Assert (fun m => owner m =? Z.of_nat i) (
        let+ n := rd_field f_count in
        do+ wr_field f_count (u32 (n - 1)) in
        let+ n := rd_field f_count in
        if n =? 0 then (do+ wr_field f_owner NULL_KCAP in okn_futex_unlock f_lock self) else Ret 0)
  | UCount _ =>
        let+ n := rd_field f_count in
        do+ wr_field f_count (u32 (n - 1)) in
        let+ n := rd_field f_count in
        if n =? 0 then (do+ wr_field f_owner NULL_KCAP in okn_futex_unlock f_lock self) else Ret 0
  | UCountW d =>
        do+ wr_field f_count (u32 (Z.of_nat d - 1)) in
        let+ n := rd_field f_count in
        if n =? 0 then (do+ wr_field f_owner NULL_KCAP in okn_futex_unlock f_lock self) else Ret 0
  | UTest _ =>
        let+ n := rd_field f_count in
        if n =? 0 then (do+ wr_field f_owner NULL_KCAP in okn_futex_unlock f_lock self) else Ret 0
  | URelO => do+ wr_field f_owner NULL_KCAP in okn_futex_unlock f_lock self
  | UDec => okn_futex_unlock f_lock self
  | USig => Signal self (fun _ => Ret 0)
  | PIdle _ | PDone _ _ | UDone _ => Ret 0
  end.

Definition pcall (p : pt) : call :=
  match p with
  | PIn c _ | PCounted c _ | POwner c _ | PCount c _ | PCountW c _ | PAssO c | PAssC c | PSetO c | PSetC c | PDone c _ => c
  | PInc | PWait => Lock
  | PCas _ | PFail _ => TryLock
  | _ => Unlock
  end.

(** What the thread remembers at the point. *)
Definition pdepth (p : pt) : nat :=
  match p with
  | PIdle d | PCas d | PFail d | UDone d => d
  | PIn c d | PCounted c d => match c with Unlock => pred d | _ => d end
  | POwner _ d | PCount _ d | PCountW _ d | PDone _ d => d
  | UOwner d | UCount d | UCountW d | UTest d => pred d
  | _ => 0
  end.

Definition den (i : nat) (p : pt) : thread okl4_mutex nat call :=
  match p with
  | PIdle d => Idle d
  | _ => Busy (pdepth p) (pcall p) (rest i p)
  end.

(** Whether the thread has the futex, waits for it, or has to signal. *)
Definition own (p : pt) : nat :=
  match p with
  | PIdle d | PIn _ d | PCounted _ d | POwner _ d | PCas d | PFail d | UDone d => if (0 <? d)%nat then 1 else 0
  | PInc | PWait | USig => 0
  | _ => 1
  end.
Definition want (p : pt) : nat := match p with PWait => 1 | _ => 0 end.
Definition sig (p : pt) : nat := match p with USig => 1 | _ => 0 end.

(** What is true at the point by itself. *)
Definition ok (p : pt) : Prop :=
  match p with
  | PIdle d | PFail d | PCas d => Z.of_nat d < WORD_MOD /\ (b = false -> (d <= 1)%nat) /\ (b = true -> match p with PCas _ => d = 0%nat | _ => True end)
  | PIn c d | PCounted c d =>
      match c with
      | Lock => (b = false -> d = 0%nat) /\ Z.of_nat (S d) < WORD_MOD
      | TryLock => (b = false -> (d <= 1)%nat) /\ Z.of_nat (S d) < WORD_MOD
      | Unlock => (1 <= d)%nat /\ (b = false -> d = 1%nat) /\ Z.of_nat d < WORD_MOD
      end
  | POwner c d => c <> Unlock /\ b = true /\ Z.of_nat (S d) < WORD_MOD
  | PCount c d | PCountW c d => c <> Unlock /\ b = true /\ (1 <= d)%nat /\ Z.of_nat (S d) < WORD_MOD
  | PAssO c | PAssC c | PSetO c | PSetC c => c <> Unlock /\ b = true
  | PDone c d => c <> Unlock /\ (b = false -> d = 0%nat) /\ Z.of_nat (S d) < WORD_MOD
  | UOwner d | UCount d | UCountW d | UTest d => b = true /\ (1 <= d)%nat /\ Z.of_nat d < WORD_MOD
  | UDone d => (b = false -> d = 0%nat) /\ Z.of_nat d < WORD_MOD
  | URelO => b = true
  | PInc | PWait | UDec | USig => True
  end.

(** The fields of the mutex, for the thread that has the futex. *)
Definition holds (i : nat) (p : pt) (o c : Z) : Prop :=
  if b then
    match p with
    | PDone _ d => o = Z.of_nat i /\ c = Z.of_nat (S d)
    | PAssO _ | PAssC _ | PSetO _ | UDec => o = NULL_KCAP /\ c = 0
    | PSetC _ | URelO => o = Z.of_nat i /\ c = 0
    | UTest d => o = Z.of_nat i /\ c = Z.of_nat (pred d)
    | PIdle d | PIn _ d | PCounted _ d | POwner _ d | PCount _ d | PCountW _ d | PCas d | PFail d
    | UOwner d | UCount d | UCountW d | UDone d => o = Z.of_nat i /\ c = Z.of_nat d
    | _ => True
    end
  else o = NULL_KCAP /\ c = 0.

(** The invariant, without the sleeping threads; [n] signals are pending. *)
Record core (N : nat) (pts : gmap nat pt) (m : okl4_mutex) (n : nat) : Prop := {
  c_size : size pts = N;
  c_tid i p : pts !! i = Some p -> (i < N)%nat;
  c_counted : (is_counted m =? 0) = negb b;
  c_lock : lock m = Z.of_nat (total own pts + total want pts);
  c_tokens : (total own pts + total sig pts + n = if (lock m =? 0)%Z then 0 else 1)%nat;
  c_ok i p : pts !! i = Some p -> ok p;
  c_holds i p : pts !! i = Some p -> own p = 1%nat -> holds i p (owner m) (count m);
  c_free : total own pts = 0%nat -> owner m = NULL_KCAP /\ count m = 0
}.

Lemma own_le p : (own p <= 1)%nat.
Proof. destruct p; simpl; try destruct (0 <? d)%nat; lia. Qed.
Lemma want_le p : (own p + want p <= 1)%nat.
Proof. destruct p; simpl; try destruct (0 <? d)%nat; lia. Qed.

Lemma core_lock_bound N pts m n : core N pts m n -> 0 <= lock m <= Z.of_nat N.
Proof.
  intros HC. rewrite (c_lock _ _ _ _ HC), <-(c_size _ _ _ _ HC).
  assert (H : (total own pts + total want pts <= size pts)%nat); [|lia].
  assert (Heq : (total own pts + total want pts = total (fun p => own p + want p)%nat pts)%nat).
  { clear. induction pts as [|i p m Hi IH] using map_ind; [by rewrite !total_empty|].
    rewrite !total_insert_new by done. lia. }
  rewrite Heq. apply total_le_size. intros. apply want_le.
Qed.

(** The owner is unique. *)
Lemma core_unique N pts m n i j p q :
  core N pts m n -> pts !! i = Some p -> pts !! j = Some q -> own p = 1%nat -> own q = 1%nat -> i = j.
Proof.
  intros HC Hi Hj Hp Hq. destruct (decide (i = j)) as [|Hne]; [done|].
  pose proof (total_ge2 own _ _ _ _ _ Hi Hj Hne). pose proof (c_tokens _ _ _ _ HC). destruct (lock m =? 0); lia.
Qed.

(** One thread moves on. *)
Lemma mutex_core_move N pts m n i p p' m' n' :
  core N pts m n -> pts !! i = Some p -> ok p' ->
  is_counted m' = is_counted m ->
  lock m' + Z.of_nat (own p + want p) = lock m + Z.of_nat (own p' + want p') ->
  (own p' + sig p' + n' + (if (lock m =? 0)%Z then 0 else 1) = own p + sig p + n + (if (lock m' =? 0)%Z then 0 else 1))%nat ->
  (own p = 0%nat -> owner m' = owner m /\ count m' = count m) ->
  (own p' = 1%nat -> (own p = 1%nat -> holds i p (owner m) (count m)) ->
     (own p = 0%nat -> owner m = NULL_KCAP /\ count m = 0) -> holds i p' (owner m') (count m')) ->
  (own p = 1%nat -> own p' = 0%nat -> holds i p (owner m) (count m) -> owner m' = NULL_KCAP /\ count m' = 0) ->
  core N (<[i := p']> pts) m' n'.
Proof.
  intros HC Hi Hok Hcnt Hlock Htok Hkeep Hnew Hrel.
  pose proof (total_insert own pts i p p' Hi) as To. pose proof (total_insert want pts i p p' Hi) as Tw.
  pose proof (total_insert sig pts i p p' Hi) as Ts. pose proof (total_ge own pts i p Hi) as Go.
  pose proof (total_ge sig pts i p Hi) as Gs.
  pose proof (own_le p) as Lp. pose proof (own_le p') as Lp'. destruct HC as [H1 H2 H3 H4 H5 H6 H7 H8].
  assert (H5' : (total own (<[i:=p']> pts) + total sig (<[i:=p']> pts) + n' = if (lock m' =? 0)%Z then 0 else 1)%nat) by lia.
  constructor.
  - rewrite map_size_insert_Some; [done|by eexists].
  - intros j q [[<- _]|[_ Hj]]%lookup_insert_Some; [by eapply H2|by eapply H2].
  - by rewrite Hcnt.
  - lia.
  - done.
  - intros j q [[<- <-]|[_ Hj]]%lookup_insert_Some; [done|by eapply H6].
  - intros j q [[<- <-]|[Hne Hj]]%lookup_insert_Some Hq.
    + apply Hnew; [done|by apply H7|]. intros Hz. apply H8. destruct (lock m' =? 0); lia.
    + pose proof (total_ge2 own _ i j p q Hi Hj Hne). destruct Hkeep as [-> ->]; [destruct (lock m =? 0); lia|]. by apply H7.
  - intros Hz. destruct (decide (own p = 0)%nat) as [Hp|Hp].
    + destruct (Hkeep Hp) as [-> ->]. apply H8. lia.
    + apply Hrel; [lia|lia|]. apply H7; [done|lia].
Qed.

End points.

(** ** The invariant of the whole system *)

Record inv (self : Z) (b : bool) (N : nat) (s : sys okl4_mutex nat call) (pts : gmap nat pt) : Prop := {
  i_threads i : threads s !! i = den self b i <$> pts !! i;
  i_core : core b N pts (obj s) (length (futex s).2);
  i_sleep i tag : (futex s).1 !! i = Some tag -> tag = self /\ pts !! i = Some PWait /\ (futex s).2 = [];
  i_pend : Forall (fun tag => tag = self) (futex s).2
}.

Section preservation.
Context (self : Z) (N : nat) (Hself : self <> 0) (HN : Z.of_nat N + 1 < 2 ^ 31).

Lemma mutex_inv_point b s pts i th :
  inv self b N s pts -> threads s !! i = Some th -> exists p, pts !! i = Some p /\ den self b i p = th.
Proof. intros HI Hi. rewrite (i_threads _ _ _ _ _ HI) in Hi. apply fmap_Some in Hi as (p & Hp & ->). by exists p. Qed.

Lemma inv_awake b s pts i p : inv self b N s pts -> pts !! i = Some p -> p <> PWait -> (futex s).1 !! i = None.
Proof.
  intros HI Hi Hp. destruct ((futex s).1 !! i) as [tag|] eqn:E; [|done].
  destruct (i_sleep _ _ _ _ _ HI _ _ E) as (_ & Hw & _). congruence.
Qed.

(** A thread moves on, and no system call is made. *)
Lemma mutex_inv_move b s pts i p p' m' :
  inv self b N s pts -> pts !! i = Some p -> p <> PWait ->
  core b N (<[i := p']> pts) m' (length (futex s).2) ->
  inv self b N (Sys m' (futex s) (<[i := den self b i p']> (threads s))) (<[i := p']> pts).
Proof.
  intros HI Hi Hp HC. constructor; simpl.
  - intros j. destruct (decide (i = j)) as [<-|Hne]; [by rewrite !lookup_insert_eq|].
    rewrite !lookup_insert_ne by done. apply (i_threads _ _ _ _ _ HI).
  - done.
  - intros j tag Hj. destruct (i_sleep _ _ _ _ _ HI _ _ Hj) as (-> & Hw & HP). split_and!; [done| |done].
    rewrite lookup_insert_ne; [done|congruence].
  - apply (i_pend _ _ _ _ _ HI).
Qed.

Lemma u32_small x : 0 <= x < WORD_MOD -> u32 x = x.
Proof. intros. by apply u32_word. Qed.
Lemma s32_small x : 0 <= x < 2 ^ 31 -> s32 x = x.
Proof.
  intros Hx. unfold s32. rewrite u32_small by (unfold WORD_MOD; lia). by rewrite (proj2 (Z.ltb_lt _ _)) by lia.
Qed.

(** A thread that does not have the futex is not the owner. *)
Lemma not_owner b pts m n i p :
  core b N pts m n -> pts !! i = Some p -> own p = 0%nat -> owner m <> Z.of_nat i.
Proof.
  intros HC Hi Hp. pose proof (c_tid _ _ _ _ _ HC _ _ Hi).
  assert (Z.of_nat i <> NULL_KCAP) by (unfold NULL_KCAP, WORD_MOD; lia).
  destruct (decide (total own pts = 0%nat)) as [Hz|Hz].
  - destruct (c_free _ _ _ _ _ HC Hz) as [-> _]. congruence.
  - destruct (total_pos own pts) as (j & q & Hj & Hq); [lia|]. pose proof (own_le q).
    pose proof (c_holds _ _ _ _ _ HC _ _ Hj ltac:(lia)) as Hh. unfold holds in Hh.
    assert (i <> j) by (intros ->; assert (p = q) by congruence; subst; lia).
    destruct b, q; simpl in *; intros E; try lia; destruct Hh; lia.
Qed.

Lemma core_lock_owned b pts m n i p :
  core b N pts m n -> pts !! i = Some p -> own p = 1%nat -> 1 <= lock m.
Proof.
  intros HC Hi Hp. pose proof (total_ge own pts i p Hi). pose proof (c_lock _ _ _ _ _ HC). lia.
Qed.

(** Side conditions of [mutex_core_move]. *)
Ltac depth_cases := repeat match goal with |- context [(0 <? ?d)%nat] => destruct (Nat.ltb_spec 0 d)
  | H : context [(0 <? ?d)%nat] |- _ => destruct (Nat.ltb_spec 0 d) end.
Ltac eqb_cases := repeat match goal with |- context [(?a =? ?b)%Z] => destruct (Z.eqb_spec a b) end.
Ltac side :=
  unfold holds in *; simpl in *; depth_cases; intros; simpl in *;
  intuition (try congruence; try (eqb_cases; unfold WORD_MOD in *; lia)).

(** The next point of thread [i], and that the invariant holds there. *)
Definition next (b : bool) (pts : gmap nat pt) (i : nat) (g : nat) (c : call) (q : prog okl4_mutex) (m : okl4_mutex) (n : nat) : Prop :=
  exists p', den self b i p' = Busy g c q /\ core b N (<[i := p']> pts) m n.

Ltac to q := exists q; split; [try reflexivity|eapply mutex_core_move; [eassumption|eassumption|..]; side].

(** Entering a call: which of the two kinds of mutex it is. *)
Lemma counted_next b pts m n i c d :
  core b N pts m n -> pts !! i = Some (PCounted c d) ->
  forall g c' f k, den self b i (PCounted c d) = Busy g c' (Acc f k) -> next b pts i g c' (k (f m).1) (f m).2 n.
Proof.
  intros HC Hi g c' f k Hden. pose proof (c_ok _ _ _ _ _ HC _ _ Hi) as Hok. pose proof (c_counted _ _ _ _ _ HC) as Hcnt.
  destruct c, b; injection Hden as <- <- <- <-; simpl; rewrite Hcnt; simpl; simpl in Hok.
  - to (POwner Lock d).
  - assert (d = 0%nat) as -> by tauto. to PInc.
  - to (POwner TryLock d).
  - to (PCas d).
  - to (UOwner d).
  - assert (d = 1%nat) as -> by tauto. to UDec.
Qed.

(** The counted mutex: a recursive lock, or the first one. *)
Lemma owner_next b pts m n i c d :
  core b N pts m n -> pts !! i = Some (POwner c d) ->
  forall g c' f k, den self b i (POwner c d) = Busy g c' (Acc f k) -> next b pts i g c' (k (f m).1) (f m).2 n.
Proof.
  intros HC Hi g c' f k Hden. pose proof (c_ok _ _ _ _ _ HC _ _ Hi) as (Hc & -> & Hd).
  pose proof (not_owner _ _ _ _ _ _ HC Hi) as Hno. pose proof (c_holds _ _ _ _ _ HC _ _ Hi) as Hh.
  assert (Hcase : owner m = Z.of_nat i /\ (0 < d)%nat \/ owner m <> Z.of_nat i /\ d = 0%nat).
  { simpl in Hno, Hh. destruct (Nat.ltb_spec 0 d); [left; split; [by apply Hh|done]|right; split; [by apply Hno|lia]]. }
  destruct c; [..|done]; injection Hden as <- <- <- <-; simpl; destruct Hcase as [[-> Hp]|[Hne ->]];
    rewrite ?Z.eqb_refl, ?(proj2 (Z.eqb_neq _ _) Hne).
  - to (PCount Lock d).
  - to PInc.
  - to (PCount TryLock d).
  - to (PCas 0).
Qed.

Lemma count_next b pts m n i c d :
  core b N pts m n -> pts !! i = Some (PCount c d) \/ pts !! i = Some (PCountW c d) ->
  forall p, pts !! i = Some p ->
  forall g c' f k, den self b i p = Busy g c' (Acc f k) -> next b pts i g c' (k (f m).1) (f m).2 n.
Proof.
  intros HC Hcd p Hi g c' f k Hden. pose proof (c_ok _ _ _ _ _ HC _ _ Hi) as Hok.
  pose proof (c_holds _ _ _ _ _ HC _ _ Hi) as Hh.
  assert (p = PCount c d \/ p = PCountW c d) as [-> | ->] by (destruct Hcd; [left|right]; congruence);
    destruct Hok as (Hc & -> & Hd & HM); simpl in Hh; destruct (Hh eq_refl) as [Ho Hn];
    injection Hden as <- <- <- <-; simpl.
  - to (PCountW c d). by rewrite Hn.
  - to (PDone c d). rewrite u32_small; lia.
Qed.

(** Taking the futex. *)
Lemma take_next b pts m n i p :
  core b N pts m n -> pts !! i = Some p -> p = PInc \/ (exists d, p = PCas d) ->
  forall g c' f k, den self b i p = Busy g c' (Acc f k) -> next b pts i g c' (k (f m).1) (f m).2 n.
Proof.
  intros HC Hi Hcase g c' f k Hden. pose proof (core_lock_bound _ _ _ _ _ HC) as HL.
  pose proof (c_ok _ _ _ _ _ HC _ _ Hi) as Hok. pose proof (core_lock_owned _ _ _ _ _ _ HC Hi) as Hlo.
  destruct Hcase as [-> | [d ->]].
  - destruct b; injection Hden as <- <- <- <-; simpl; rewrite u32_small, s32_small by (unfold WORD_MOD; lia);
      destruct (Z.eqb_spec (lock m + 1) 1).
    + to (PAssO Lock).
    + to PWait.
    + to (PDone Lock 0).
    + to PWait.
  - assert (Hd : lock m = 0 -> d = 0%nat) by (simpl in Hlo; destruct (Nat.ltb_spec 0 d); lia).
    destruct b; injection Hden as <- <- <- <-; simpl; destruct (Z.eqb_spec (lock m) 0) as [Hz|Hz].
    + rewrite (Hd Hz) in *. to (PAssO TryLock).
    + to (PFail d).
    + rewrite (Hd Hz) in *. to (PDone TryLock 0).
    + to (PFail d).
Qed.

(** The owner's fields are set up. *)
Lemma setup_next b pts m n i c p :
  core b N pts m n -> pts !! i = Some p -> p = PSetO c \/ p = PSetC c ->
  forall g c' f k, den self b i p = Busy g c' (Acc f k) -> next b pts i g c' (k (f m).1) (f m).2 n.
Proof.
  intros HC Hi Hcase g c' f k Hden. pose proof (c_ok _ _ _ _ _ HC _ _ Hi) as Hok.
  destruct Hcase as [-> | ->]; destruct Hok as [Hc ->]; injection Hden as <- <- <- <-; simpl.
  - to (PSetC c).
  - to (PDone c 0).
Qed.

(** Unlocking, up to the futex. *)
Lemma unlock_next b pts m n i d p :
  core b N pts m n -> pts !! i = Some p -> p = UCount d \/ p = UCountW d \/ p = UTest d \/ p = URelO ->
  forall g c' f k, den self b i p = Busy g c' (Acc f k) -> next b pts i g c' (k (f m).1) (f m).2 n.
Proof.
  intros HC Hi Hcase g c' f k Hden. pose proof (c_ok _ _ _ _ _ HC _ _ Hi) as Hok.
  pose proof (c_holds _ _ _ _ _ HC _ _ Hi) as Hh. destruct Hcase as [-> | [-> | [-> | ->]]]; simpl in Hok.
  - destruct Hok as (-> & Hd & HM). destruct (Hh eq_refl) as [Ho Hn]. injection Hden as <- <- <- <-. simpl.
    to (UCountW d). by rewrite Hn.
  - destruct Hok as (-> & Hd & HM). destruct (Hh eq_refl) as [Ho Hn]. injection Hden as <- <- <- <-. simpl.
    to (UTest d). rewrite u32_small; lia.
  - destruct Hok as (-> & Hd & HM). destruct (Hh eq_refl) as [Ho Hn]. injection Hden as <- <- <- <-. simpl. rewrite Hn.
    destruct (Z.eqb_spec (Z.of_nat (pred d)) 0).
    + assert (d = 1%nat) as -> by lia. to URelO.
    + to (UDone (pred d)).
  - subst b. injection Hden as <- <- <- <-. simpl. to UDec.
Qed.

(** Releasing the futex. *)
Lemma release_next b pts m n i :
  core b N pts m n -> pts !! i = Some UDec ->
  forall g c' f k, den self b i UDec = Busy g c' (Acc f k) -> next b pts i g c' (k (f m).1) (f m).2 n.
Proof.
  intros HC Hi g c' f k Hden. pose proof (core_lock_bound _ _ _ _ _ HC) as HL.
  pose proof (core_lock_owned _ _ _ _ _ _ HC Hi eq_refl) as Hlo.
  injection Hden as <- <- <- <-; simpl. rewrite u32_small, s32_small by (unfold WORD_MOD; lia).
  destruct (Z.ltb_spec 0 (lock m - 1)).
  - to USig; destruct b; intuition lia.
  - to (UDone 0); destruct b; intuition lia.
Qed.

(** Every access leads to the next point. *)
Lemma mutex_access_next b pts m n i p g c f k :
  core b N pts m n -> pts !! i = Some p -> den self b i p = Busy g c (Acc f k) ->
  next b pts i g c (k (f m).1) (f m).2 n.
Proof.
  intros HC Hi Hden.
  destruct p as [d|c0 d|c0 d|c0 d|c0 d|c0 d| | |d|d|c0|c0|c0|c0|c0 d|d|d|d|d| | | |d].
  all: try (destruct c0; discriminate). all: try discriminate.
  - by eapply counted_next.
  - by eapply owner_next.
  - eapply count_next; eauto.
  - eapply count_next; eauto.
  - eapply take_next; eauto.
  - eapply take_next; eauto.
  - by eapply setup_next; eauto.
  - by eapply setup_next; eauto.
  - eapply (unlock_next _ _ _ _ _ d); eauto.
  - eapply (unlock_next _ _ _ _ _ d); eauto.
  - eapply (unlock_next _ _ _ _ _ d); eauto.
  - eapply (unlock_next _ _ _ _ _ 0%nat); eauto.
  - by eapply release_next.
Qed.

(** No assertion fails. *)
Lemma mutex_assert_next b pts m n i p g c bo q :
  core b N pts m n -> pts !! i = Some p -> den self b i p = Busy g c (Assert bo q) ->
  bo m = true /\ next b pts i g c q m n.
Proof.
  intros HC Hi Hden. pose proof (c_ok _ _ _ _ _ HC _ _ Hi) as Hok. pose proof (c_holds _ _ _ _ _ HC _ _ Hi) as Hh.
  destruct p as [d|c0 d|c0 d|c0 d|c0 d|c0 d| | |d|d|c0|c0|c0|c0|c0 d|d|d|d|d| | | |d].
  all: try discriminate. all: try (destruct c0; discriminate). all: try (destruct b; discriminate).
  - assert (Hn : not_null self m = true) by (unfold not_null; by rewrite (proj2 (Z.eqb_neq self 0) Hself)).
    destruct c0; injection Hden as <- <- <- <-; (split; [done|]).
    + to (PCounted Lock d).
    + to (PCounted TryLock d).
    + to (PCounted Unlock d).
  - destruct Hok as [Hc ->]. destruct (Hh eq_refl) as [Ho Hc0]. injection Hden as <- <- <- <-.
    split; [by rewrite Ho|]. to (PAssC c0).
  - destruct Hok as [Hc ->]. destruct (Hh eq_refl) as [Ho Hc0]. injection Hden as <- <- <- <-.
    split; [by rewrite Hc0|]. to (PSetO c0).
  - destruct Hok as (-> & Hd & HM). destruct (Hh eq_refl) as [Ho Hc0]. injection Hden as <- <- <- <-.
    split; [rewrite Ho; apply Z.eqb_refl|]. to (UCount d).
Qed.

(** A thread returns from its call, or makes one. *)
Lemma mutex_return_core b pts m n i p g c v :
  core b N pts m n -> pts !! i = Some p -> den self b i p = Busy g c (Ret v) ->
  core b N (<[i := PIdle (ends (Client := mutex_client self) c v g)]> pts) m n /\ p <> PWait.
Proof.
  intros HC Hi Hden. pose proof (c_ok _ _ _ _ _ HC _ _ Hi) as Hok.
  destruct p as [d|c0 d|c0 d|c0 d|c0 d|c0 d| | |d|d|c0|c0|c0|c0|c0 d|d|d|d|d| | | |d].
  all: try discriminate. all: try (destruct c0; discriminate). all: try (destruct b; discriminate).
  all: injection Hden as <- <- <-; split; [|done].
  - eapply mutex_core_move; [eassumption|eassumption|..]; side.
  - destruct Hok as (Hc & H1 & H2). destruct c0; [..|done]; (eapply mutex_core_move; [eassumption|eassumption|..]; side).
  - eapply mutex_core_move; [eassumption|eassumption|..]; side.
Qed.

Lemma mutex_call_core b pts m n i d c :
  core b N pts m n -> pts !! i = Some (PIdle d) -> may (Client := mutex_client self) m d c = true ->
  core b N (<[i := PIn c d]> pts) m n.
Proof.
  intros HC Hi Hmay. pose proof (c_ok _ _ _ _ _ HC _ _ Hi) as Hok. pose proof (c_counted _ _ _ _ _ HC) as Hcnt.
  assert (is_counted m = 0 <-> b = false) by (destruct (Z.eqb_spec (is_counted m) 0), b; naive_solver).
  assert (ok b (PIn c d)).
  { destruct Hok as (H1 & H2 & _). destruct c; simpl in Hmay |- *.
    - apply andb_true_iff in Hmay as [Hm Hd]. rewrite Z.ltb_lt in Hd. split; [|done]. intros Hb.
      rewrite (proj2 (Z.eqb_eq _ 0)) in Hm by tauto. by apply Nat.eqb_eq.
    - rewrite Z.ltb_lt in Hmay. by split.
    - assert (1 <= d)%nat by (destruct d; [done|lia]). split_and!; [done| |done]. intros Hb. specialize (H2 Hb). lia. }
  destruct c; (eapply mutex_core_move; [eassumption|eassumption|..]; side).
Qed.

(** A thread that waited gets the futex. *)
Definition got (b : bool) : pt := if b then PAssO Lock else PDone Lock 0.
Lemma got_den b i : den self b i (got b) = Busy 0%nat Lock (if b then assO i else Ret 0).
Proof. by destruct b. Qed.
Lemma mutex_got_core b pts m n i :
  core b N pts m (S n) -> pts !! i = Some PWait -> core b N (<[i := got b]> pts) m n.
Proof. intros HC Hi. destruct b; (eapply mutex_core_move; [eassumption|eassumption|..]; side). Qed.

Lemma mutex_signal_core b pts m n i :
  core b N pts m n -> pts !! i = Some USig -> core b N (<[i := UDone 0]> pts) m (S n) /\ n = 0%nat.
Proof.
  intros HC Hi. split; [destruct b; (eapply mutex_core_move; [eassumption|eassumption|..]; side)|].
  pose proof (total_ge sig pts i USig Hi) as Hs. simpl in Hs. pose proof (c_tokens _ _ _ _ _ HC). destruct (lock m =? 0); lia.
Qed.

Lemma all_self P : Forall (fun tag => tag = self) P -> self ∉ P -> P = [].
Proof. intros HP Hn. destruct P as [|x P]; [done|]. apply Forall_cons in HP as [-> _]. exfalso. apply Hn. left. Qed.

Lemma mutex_inv_wait b s pts i g c tag k r F' :
  inv self b N s pts -> threads s !! i = Some (Busy g c (Wait tag k)) -> (futex s).1 !! i = None ->
  fwait i tag (futex s) r F' ->
  exists pts', inv self b N (Sys (obj s) F' (<[i := Busy g c (match r with Some v => k v | None => Wait tag k end)]> (threads s))) pts'.
Proof.
  intros HI Hi Haw Hw. destruct (mutex_inv_point _ _ _ _ _ HI Hi) as (p & Hp & Hden).
  assert (p = PWait) as -> by (destruct p; try discriminate; try (destruct c0; discriminate); try (destruct b; discriminate); done).
  injection Hden as <- <- <- <-. pose proof HI as [Hth HC Hsl Hpe].
  inversion Hw as [F H1|W P P' H1 HP HF|W P H1 HP HF]; subst; [done|..]; rewrite <-HF in *; simpl in *.
  - exists (<[i := got b]> pts). rewrite <-got_den. constructor; simpl.
    + intros j. destruct (decide (i = j)) as [<-|]; [by rewrite !lookup_insert_eq|by rewrite !lookup_insert_ne].
    + apply mutex_got_core; [|done]. by rewrite (Permutation_length HP) in HC.
    + intros j tag Hj. destruct (Hsl _ _ Hj) as (_ & _ & E). rewrite E in HP. by apply Permutation_nil_cons in HP.
    + rewrite HP in Hpe. by apply Forall_cons in Hpe as [_ Hpe].
  - exists pts. constructor; simpl.
    + intros j. destruct (decide (i = j)) as [<-|]; [by rewrite lookup_insert_eq, Hp|by rewrite lookup_insert_ne].
    + done.
    + intros j tag [[<- <-]|[_ Hj]]%lookup_insert_Some; [|by apply Hsl]. split_and!; [done|done|by apply all_self].
    + done.
Qed.

Lemma mutex_inv_signal b cap s pts i g c tag k r w F' :
  (1 <= cap)%nat -> inv self b N s pts -> threads s !! i = Some (Busy g c (Signal tag k)) -> fsignal cap tag (futex s) (r, w) F' ->
  exists pts', inv self b N (Sys (obj s) F' (wake w (<[i := Busy g c (k r)]> (threads s)))) pts'.
Proof.
  intros Hcap HI Hi Hs. destruct (mutex_inv_point _ _ _ _ _ HI Hi) as (p & Hp & Hden).
  assert (p = USig) as -> by (destruct p; try discriminate; try (destruct c0; discriminate); try (destruct b; discriminate); done).
  injection Hden as <- <- <- <-. pose proof HI as [Hth HC Hsl Hpe].
  destruct (mutex_signal_core _ _ _ _ _ HC Hp) as [HC1 Hn]. pose proof (inv_awake _ _ _ _ _ HI Hp ltac:(done)) as Haw.
  inversion Hs as [F H1|W P w' H1 Hw HF|W P P' H1 Hw Hc HP HF|W P H1 Hw Hc HF]; subst; [done|..]; rewrite <-HF in *; simpl in *.
  - destruct (Hsl _ _ Hw) as (_ & Hpw & E). assert (Hne : i <> w') by congruence.
    exists (<[w' := got b]> (<[i := UDone 0]> pts)). constructor; simpl.
    + intros j. destruct (decide (w' = j)) as [<-|].
      * rewrite lookup_alter_eq, !lookup_insert_ne, lookup_insert_eq, Hth, Hpw by done. simpl. by rewrite got_den.
      * rewrite lookup_alter_ne, (lookup_insert_ne _ w') by done. destruct (decide (i = j)) as [<-|].
        -- by rewrite !lookup_insert_eq.
        -- by rewrite !lookup_insert_ne.
    + apply mutex_got_core; [done|]. by rewrite lookup_insert_ne.
    + intros j tag [Hj1 Hj2]%lookup_delete_Some. destruct (Hsl _ _ Hj2) as (-> & Hpj & _). split_and!; [done| |done].
      rewrite !lookup_insert_ne by congruence. done.
    + done.
  - exists (<[i := UDone 0]> pts). change (Busy 0%nat Unlock (Ret 0)) with (den self b i (UDone 0)). constructor; simpl.
    + intros j. destruct (decide (i = j)) as [<-|]; [by rewrite !lookup_insert_eq|by rewrite !lookup_insert_ne].
    + by rewrite (Permutation_length HP).
    + intros j tag Hj. exfalso. destruct (Hsl _ _ Hj) as (-> & _). by apply (Hw j).
    + rewrite HP. by constructor.
  - lia.
Qed.

(** Every step preserves the invariant. *)
Lemma mutex_inv_step b cap s s' pts :
  (1 <= cap)%nat -> inv self b N s pts -> step (CL := mutex_client self) cap s s' -> exists pts', inv self b N s' pts'.
Proof.
  intros Hcap HI Hs. pose proof (i_core _ _ _ _ _ HI) as HC. destruct Hs as [i d c Hi Hm|i g c v Hi|i g c f k v m' Hi Hf|i g c bo k Hi|i g c tag k r F' Hi Ha Hw|i g c tag k r w F' Hi Hf].
  - destruct (mutex_inv_point _ _ _ _ _ HI Hi) as (p & Hp & Hden). assert (p = PIdle d) as -> by (destruct p; try discriminate; by injection Hden as ->).
    exists (<[i := PIn c d]> pts). replace (Busy _ _ _) with (den self b i (PIn c d)) by (by destruct c).
    eapply mutex_inv_move; [done|done|done|]. by apply mutex_call_core.
  - destruct (mutex_inv_point _ _ _ _ _ HI Hi) as (p & Hp & Hden). destruct (mutex_return_core _ _ _ _ _ _ _ _ _ HC Hp Hden) as [HC' Hne].
    eexists (<[i := PIdle _]> pts). by eapply (mutex_inv_move _ _ _ _ _ (PIdle _)).
  - destruct (mutex_inv_point _ _ _ _ _ HI Hi) as (p & Hp & Hden). pose proof (mutex_access_next _ _ _ _ _ _ _ _ _ _ HC Hp Hden) as Hn.
    rewrite Hf in Hn. simpl in Hn. destruct Hn as (p' & <- & HC'). exists (<[i := p']> pts). eapply mutex_inv_move; [done|done| |done]. intros ->. done.
  - destruct (mutex_inv_point _ _ _ _ _ HI Hi) as (p & Hp & Hden).
    destruct (mutex_assert_next _ _ _ _ _ _ _ _ _ _ HC Hp Hden) as (-> & p' & <- & HC').
    exists (<[i := p']> pts). eapply mutex_inv_move; [done|done| |done]. intros ->. done.
  - by eapply mutex_inv_wait.
  - by eapply mutex_inv_signal.
Qed.

(** The invariant holds after creation. *)
Lemma mutex_inv_start b m :
  (is_counted m =? 0) = negb b -> lock m = 0 -> owner m = NULL_KCAP -> count m = 0 ->
  exists pts, inv self b N (start m 0%nat N) pts.
Proof.
  intros Hb Hl Ho Hc. exists (list_to_map ((fun t => (t, PIdle 0)) <$> seq 0 N)).
  set (pts := list_to_map _). assert (Hpts : forall i, pts !! i = if decide (i < N)%nat then Some (PIdle 0) else None).
  { intros i. apply (start_lookup_gen (PIdle 0) N i). }
  assert (Hz : forall f : pt -> nat, f (PIdle 0) = 0%nat -> total f pts = 0%nat).
  { intros f Hf. apply total_zero. intros i p. rewrite Hpts. case_decide; [|done]. by intros [= <-]. }
  constructor; simpl.
  - intros i. rewrite Hpts. etrans; [apply (start_lookup_gen (Idle 0%nat) N i)|]. by case_decide.
  - constructor.
    + apply start_size.
    + intros i p. rewrite Hpts. case_decide; done.
    + done.
    + by rewrite Hl, !Hz.
    + by rewrite Hl, !Hz.
    + intros i p. rewrite Hpts. case_decide; [|done]. intros [= <-]. simpl. unfold WORD_MOD. split_and!; [lia|lia|done].
    + intros i p. rewrite Hpts. case_decide; [|done]. by intros [= <-].
    + done.
  - intros i tag. by rewrite lookup_empty.
  - done.
Qed.

Definition depth (th : thread okl4_mutex nat call) : nat := match th with Idle d | Busy d _ _ => d | Failed => 0 end.

Lemma depth_den b i p : depth (den self b i p) = pdepth p.
Proof. by destruct p. Qed.

Lemma pdepth_own p : (1 <= pdepth p)%nat -> own p = 1%nat.
Proof. destruct p; simpl; try lia; try (destruct c; simpl); destruct (Nat.ltb_spec 0 d); lia. Qed.

End preservation.
End MutexProof.

(** ** The theorem *)

Section mutex_properties.
Import Mut MutexProof.

(** C22: the mutex.  [N] threads lock, try to lock and unlock a mutex that was
    created counted or uncounted, and are interleaved in any way at every
    access of the mutex and at every system call.  Then in every state that
    can be reached:
    - no assertion of the library has failed;
    - at most one thread holds the mutex;
    - a thread that holds a counted mutex and is not in a call is its owner,
      and the mutex counts how often it holds it;
    - when a thread sleeps, another one that does not holds the mutex, or is
      in the middle of a call on it: nobody waits for a free mutex;
    - when nobody holds the mutex or is in a call, it can be deleted. *)
Theorem mutex_correct self N cap counted junk m0 s :
  self <> 0 -> Z.of_nat N + 1 < 2 ^ 31 -> (1 <= cap)%nat ->
  run_alone (okl4_mutex_create self counted) junk = Some (SYNC_OK, m0) ->
  rtc (step (CL := mutex_client self) cap) (start m0 0%nat N) s ->
  (forall i, threads s !! i <> Some Failed) /\
  (forall i j ti tj, threads s !! i = Some ti -> threads s !! j = Some tj ->
     (1 <= depth ti)%nat -> (1 <= depth tj)%nat -> i = j) /\
  (forall i d, threads s !! i = Some (Idle d) -> (1 <= d)%nat -> counted <> 0 ->
     owner (obj s) = Z.of_nat i /\ count (obj s) = Z.of_nat d) /\
  (forall i tag, (futex s).1 !! i = Some tag ->
     exists j tj, threads s !! j = Some tj /\ (futex s).1 !! j = None /\
       match tj with Idle d => (1 <= d)%nat | Busy _ _ _ => True | Failed => False end) /\
  ((forall i ti, threads s !! i = Some ti -> ti = Idle 0%nat) ->
     exists m, run_alone (okl4_mutex_delete self) (obj s) = Some (0, m)).
Proof.
  intros Hself HN Hcap Hcreate Hr. set (b := negb (counted =? 0)).
  assert (Hi : exists pts, inv self b N s pts).
  { apply (rtc_invariant _ (fun s => exists pts, inv self b N s pts) _ _ Hr).
    - unfold okl4_mutex_create in Hcreate. simpl in Hcreate. destruct (not_null self junk); [|done]. injection Hcreate as <-.
      apply mutex_inv_start; try done. simpl. unfold b. by destruct (counted =? 0).
    - intros a c [pts HI] Hs. by eapply mutex_inv_step. }
  destruct Hi as [pts HI]. pose proof (i_core _ _ _ _ _ HI) as HC. split_and!.
  - intros i Hf. destruct (mutex_inv_point _ _ _ _ _ _ _ HI Hf) as (p & _ & Hd). by destruct p.
  - intros i j ti tj Hi Hj Di Dj. destruct (mutex_inv_point _ _ _ _ _ _ _ HI Hi) as (p & Hp & <-).
    destruct (mutex_inv_point _ _ _ _ _ _ _ HI Hj) as (q & Hq & <-). rewrite depth_den in Di, Dj.
    eapply core_unique; [exact HC|exact Hp|exact Hq|..]; by apply pdepth_own.
  - intros i d Hi Hd Hcn. destruct (mutex_inv_point _ _ _ _ _ _ _ HI Hi) as (p & Hp & Hden).
    assert (p = PIdle d) as -> by (destruct p; try discriminate; by injection Hden as ->).
    pose proof (c_holds _ _ _ _ _ HC _ _ Hp) as Hh. unfold holds, b in Hh. simpl in Hh.
    rewrite (proj2 (Z.eqb_neq counted 0) Hcn), (proj2 (Nat.ltb_lt 0 d)) in Hh by lia. by apply Hh.
  - intros i tag Hi. destruct (i_sleep _ _ _ _ _ HI _ _ Hi) as (-> & Hw & HP).
    assert (Hown : exists j p, pts !! j = Some p /\ (0 < own p + sig p)%nat).
    { pose proof (c_tokens _ _ _ _ _ HC) as Ht. pose proof (c_lock _ _ _ _ _ HC) as Hl. rewrite HP in Ht. simpl in Ht.
      pose proof (total_ge want pts i PWait Hw) as Hg. simpl in Hg. rewrite (proj2 (Z.eqb_neq (lock (obj s)) 0)) in Ht by lia.
      destruct (decide (total own pts = 0%nat)).
      - destruct (total_pos sig pts) as (j & p & Hj & Hs); [lia|]. exists j, p. split; [done|lia].
      - destruct (total_pos own pts) as (j & p & Hj & Hs); [lia|]. exists j, p. split; [done|lia]. }
    destruct Hown as (j & p & Hj & Hp). exists j, (den self b j p). split_and!.
    + by rewrite (i_threads _ _ _ _ _ HI), Hj.
    + eapply inv_awake; [done|done|]. intros ->. simpl in Hp. lia.
    + destruct p; simpl in *; try done. destruct (Nat.ltb_spec 0 d); lia.
  - intros Hall. assert (Hz : forall f : pt -> nat, f (PIdle 0) = 0%nat -> total f pts = 0%nat).
    { intros f Hf. apply total_zero. intros i p Hp. pose proof (i_threads _ _ _ _ _ HI i) as Hth. rewrite Hp in Hth.
      specialize (Hall _ _ Hth). destruct p; try discriminate. injection Hall as ->. done. }
    destruct (c_free _ _ _ _ _ HC) as [Ho Hc]; [by apply Hz|]. pose proof (c_lock _ _ _ _ _ HC) as Hl. rewrite !Hz in Hl by done.
    eexists. unfold okl4_mutex_delete. simpl. unfold not_null. rewrite (proj2 (Z.eqb_neq self 0) Hself), Ho, Hc, Hl. done.
Qed.

End mutex_properties.

(** Two threads: the first locks the mutex, and the second sleeps on it. *)
Module MutexDemo.
Import Mut MutexProof.
Definition fresh (counted : Z) : okl4_mutex := Mutex 0 NULL_KCAP 0 counted.
Definition run0 : list action := ACall 0 Lock :: replicate 4 (ARun 0).
Definition run1 : list action := ACall 1 Lock :: replicate 4 (ARun 1).
#[export] Instance demo_client : Client okl4_mutex nat call := mutex_client 4096.
Definition contended : sys okl4_mutex nat call :=
  default (start (fresh 0) 0%nat 2) (do_steps 8 (start (fresh 0) 0%nat 2) (run0 ++ run1)).
Lemma contended_reach : rtc (step 8) (start (fresh 0) 0%nat 2) contended.
Proof. apply (do_steps_reach 8 (run0 ++ run1)). Qed.
End MutexDemo.

Lemma mutex_correct_witness :
  (futex MutexDemo.contended).1 !! 1%nat = Some 4096 /\
  exists j tj, threads MutexDemo.contended !! j = Some tj /\ (futex MutexDemo.contended).1 !! j = None /\
    match tj with Idle d => (1 <= d)%nat | Busy _ _ _ => True | Failed => False end.
Proof.
  split; [by vm_compute|].
  destruct (mutex_correct 4096 2 8 0 (Mut.Mutex 7 7 7 7) (MutexDemo.fresh 0) MutexDemo.contended)
    as (_ & _ & _ & H & _); [done|done|lia|reflexivity|apply MutexDemo.contended_reach|].
  apply (H 1%nat 4096). by vm_compute.
Defined.
