(* ===== verification/SyncSemaphore.v ===== *)
(** * The okl4 semaphore

    Threads take and give permits of one semaphore, in any interleaving.  As
    for the mutex, each thread is described by the point of the code it is
    at. *)

From S2P Require Import Prelude SyncLang NanoSync.
#[local] Open Scope Z_scope.
#[local] Open Scope prog_scope.

Module SemProof.
Import Sem.

(** [TryDown n] gives up after [n] failed attempts to change the count; the
    code itself does not, so that its executions are among those for all
    [n]. *)
Inductive call : Type := Down | TryDown (n : nat) | Up.

(** What a thread remembers: the permits it has got, and the calls of [Up] it
    has made. *)
Record memo : Type := Memo { downs : nat; ups : nat }.

(** Far fewer than [2^31] permits are to exist. *)
Definition MAX_PERMITS : Z := 2 ^ 30.

Definition sem_client (self : Z) : Client okn_semaphore memo call := {|
  body _ c := match c with
    | Down => okl4_semaphore_down self
    | TryDown n => okl4_semaphore_trydown self n
    | Up => okl4_semaphore_up self
    end;
  begins c g := match c with Up => Memo (downs g) (S (ups g)) | _ => g end;
  ends c v g := match c with
    | Down => Memo (S (downs g)) (ups g)
    | TryDown _ => if v =? SYNC_OK then Memo (S (downs g)) (ups g) else g
    | Up => g
    end;
  may o _ c := match c with Up => s32 (sem_count o) <? MAX_PERMITS | _ => true end
|}.

(** ** The points of the code *)

Inductive point : Type :=
| Out | In (c : call)
| DDec | DWait | DDone
| TRead (n : nat) | TCas (n : nat) (v : Z) | TDone (n : nat)
| UInc | USig | UDone.

(** A thread: its memory, its call and its point. *)
Abbreviation pt := (memo * call * point)%type.

Section points.
Context (self : Z).

Definition rest (p : point) : prog okn_semaphore :=
  match p with
  | In Down => okl4_semaphore_down self
  | In (TryDown n) => okl4_semaphore_trydown self n
  | In Up => okl4_semaphore_up self
  | DDec => do+ okn_semaphore_down self in Ret 0
  | DWait => Wait self (fun _ => Ret 0)
  | TRead n => let+ result := try_down_loop n in if result =? 0 then Ret SYNC_WOULD_BLOCK else Ret SYNC_OK
  | TCas n v =>
      let+ success := okl4_atomic_compare_and_set f_count v (u32 (s32 v - 1)) in
      let+ result := if negb (success =? 0) then Ret (s32 v) else try_down_loop n in
      if result =? 0 then Ret SYNC_WOULD_BLOCK else Ret SYNC_OK
  | UInc => do+ okn_semaphore_up self in Ret 0
  | USig => Signal self (fun _ => Ret 0)
  | Out | DDone | TDone _ | UDone => Ret 0
  end.

Definition den (x : pt) : thread okn_semaphore memo call :=
  match x with
  | (g, _, Out) => Idle g
  | (g, c, p) => Busy g c (rest p)
  end.

(** Permits the thread has got, whether it waits for one or has to wake
    another thread, and the permits it has given. *)
Definition acquired (x : pt) : nat := (downs x.1.1 + match x.2 with DDone | TDone _ => 1 | _ => 0 end)%nat.
Definition want (x : pt) : nat := match x.2 with DWait => 1 | _ => 0 end.
Definition sig (x : pt) : nat := match x.2 with USig => 1 | _ => 0 end.
Definition upin (x : pt) : nat := match x.2 with In Up | UInc => 1 | _ => 0 end.
Definition given (x : pt) : nat := (ups x.1.1 - upin x)%nat.

(** What is true at the point by itself. *)
Definition is_try (c : call) : Prop := match c with TryDown _ => True | _ => False end.
Definition ok (x : pt) : Prop :=
  match x.2 with
  | Out => True
  | In c => x.1.2 = c /\ (c = Up -> (1 <= ups x.1.1)%nat)
  | DDec | DWait | DDone => x.1.2 = Down
  | TRead _ | TDone _ => is_try x.1.2
  | TCas _ v => is_try x.1.2 /\ 0 < s32 v /\ is_word v
  | UInc => x.1.2 = Up /\ (1 <= ups x.1.1)%nat
  | USig | UDone => x.1.2 = Up
  end.

(** [c] is the value of the count, and [n] signals are pending. *)
Record core (init : Z) (N : nat) (pts : gmap nat pt) (o : okn_semaphore) (c : Z) (n : nat) : Prop := {
  c_size : size pts = N;
  c_count : sem_count o = u32 c;
  c_value : c = init + Z.of_nat (total given pts) - Z.of_nat (total acquired pts) - Z.of_nat (total want pts);
  c_tokens : Z.of_nat (total want pts) = Z.max 0 (- c) + Z.of_nat (total sig pts) + Z.of_nat n;
  c_max : c + Z.of_nat (total upin pts) <= MAX_PERMITS + Z.of_nat N;
  c_ok i x : pts !! i = Some x -> ok x
}.

Lemma core_bound init N pts o c n : core init N pts o c n -> - Z.of_nat N <= c <= MAX_PERMITS + Z.of_nat N.
Proof.
  intros HC. assert (total want pts <= N)%nat.
  { rewrite <-(c_size _ _ _ _ _ _ HC). apply total_le_size. intros i [[g c'] p] _. unfold want. simpl. destruct p; lia. }
  pose proof (c_tokens _ _ _ _ _ _ HC). pose proof (c_max _ _ _ _ _ _ HC). lia.
Qed.

Lemma core_upin init N pts o c n i x :
  core init N pts o c n -> pts !! i = Some x -> upin x = 0%nat -> (total upin pts + 1 <= N)%nat.
Proof.
  intros HC Hi Hx. rewrite (total_delete upin pts i x Hi), Hx, <-(c_size _ _ _ _ _ _ HC).
  assert (total upin (delete i pts) <= size (delete i pts))%nat.
  { apply total_le_size. intros j [[g c'] p] _. unfold upin. simpl. destruct p as [|[]| | | | | | | | |]; lia. }
  rewrite map_size_delete, Hi in H. simpl in H.
  assert (size pts <> 0%nat) by (intros E; apply map_size_empty_inv in E; subst; by rewrite lookup_empty in Hi). lia.
Qed.

(** One thread moves on. *)
Lemma sem_core_move init N pts o c n i x x' o' c' n' :
  core init N pts o c n -> pts !! i = Some x -> ok x' ->
  sem_count o' = u32 c' ->
  c' - Z.of_nat (given x') + Z.of_nat (acquired x') + Z.of_nat (want x') =
    c - Z.of_nat (given x) + Z.of_nat (acquired x) + Z.of_nat (want x) ->
  Z.of_nat (want x') - Z.max 0 (- c') - Z.of_nat (sig x') - Z.of_nat n' =
    Z.of_nat (want x) - Z.max 0 (- c) - Z.of_nat (sig x) - Z.of_nat n ->
  c' + Z.of_nat (total upin pts) + Z.of_nat (upin x') <= MAX_PERMITS + Z.of_nat N + Z.of_nat (upin x) ->
  core init N (<[i := x']> pts) o' c' n'.
Proof.
  intros [H1 H2 H3 H4 H5 H6] Hi Hok Hc Hv Ht Hm.
  pose proof (total_insert given pts i x x' Hi). pose proof (total_insert acquired pts i x x' Hi).
  pose proof (total_insert want pts i x x' Hi). pose proof (total_insert sig pts i x x' Hi).
  pose proof (total_insert upin pts i x x' Hi). constructor; try done; try lia.
  - rewrite map_size_insert_Some; [done|by eexists].
  - intros j y [[<- <-]|[_ Hj]]%lookup_insert_Some; [done|by eapply H6].
Qed.

End points.

(** ** The invariant of the whole system *)

Record inv (self init : Z) (N : nat) (s : sys okn_semaphore memo call) (pts : gmap nat pt) : Prop := {
  i_threads i : threads s !! i = den self <$> pts !! i;
  i_core : exists c, core init N pts (obj s) c (length (futex s).2);
  i_sleep i tag : (futex s).1 !! i = Some tag ->
    tag = self /\ (futex s).2 = [] /\ exists g, pts !! i = Some (g, Down, DWait);
  i_pend : Forall (fun tag => tag = self) (futex s).2
}.

Lemma s32_u32 c : - 2 ^ 31 <= c < 2 ^ 31 -> s32 (u32 c) = c.
Proof.
  intros Hc. unfold s32, u32, WORD_MOD. rewrite Z.mod_mod by done.
  destruct (Z.ltb_spec (c mod 2 ^ 32) (2 ^ 31)); Z.div_mod_to_equations; lia.
Qed.
Lemma u32_add c k : u32 (u32 c + k) = u32 (c + k).
Proof. unfold u32. by rewrite Zplus_mod_idemp_l. Qed.
Lemma u32_sub c k : u32 (u32 c - k) = u32 (c - k).
Proof. unfold u32. by rewrite Zminus_mod_idemp_l. Qed.

Section preservation.
Context (self init : Z) (N : nat) (Hself : self <> 0) (HN : Z.of_nat N < 2 ^ 29).

Lemma sem_inv_point s pts i th :
  inv self init N s pts -> threads s !! i = Some th -> exists x, pts !! i = Some x /\ den self x = th.
Proof. intros HI Hi. rewrite (i_threads _ _ _ _ _ HI) in Hi. apply fmap_Some in Hi as (x & Hx & ->). by exists x. Qed.

(** A thread moves on, and no system call is made. *)
Lemma sem_inv_move s pts i x x' o' c' :
  inv self init N s pts -> pts !! i = Some x -> x.2 <> DWait ->
  core init N (<[i := x']> pts) o' c' (length (futex s).2) ->
  inv self init N (Sys o' (futex s) (<[i := den self x']> (threads s))) (<[i := x']> pts).
Proof.
  intros HI Hi Hp HC. constructor; simpl.
  - intros j. destruct (decide (i = j)) as [<-|Hne]; [by rewrite !lookup_insert_eq|].
    rewrite !lookup_insert_ne by done. apply (i_threads _ _ _ _ _ HI).
  - by exists c'.
  - intros j tag Hj. destruct (i_sleep _ _ _ _ _ HI _ _ Hj) as (-> & HP & g & Hw). split_and!; [done|done|].
    exists g. rewrite lookup_insert_ne; [done|]. intros ->. rewrite Hi in Hw. by injection Hw as ->.
  - apply (i_pend _ _ _ _ _ HI).
Qed.

(** The next point, and that the invariant holds there. *)
Definition next (pts : gmap nat pt) (i : nat) (g : memo) (c : call) (q : prog okn_semaphore) (o : okn_semaphore) (n : nat) : Prop :=
  exists p v, den self (g, c, p) = Busy g c q /\ core init N (<[i := (g, c, p)]> pts) o v n.

Ltac side := unfold ok, given, acquired, want, sig, upin in *; simpl in *; try done; try lia.
Ltac to q v := exists q, v; split; [try reflexivity|eapply sem_core_move; [eassumption|eassumption|..]; side].

Lemma down_next pts o c n i g cl :
  core init N pts o c n -> pts !! i = Some (g, cl, DDec) ->
  forall g' c' f k, den self (g, cl, DDec) = Busy g' c' (Acc f k) -> next pts i g' c' (k (f o).1) (f o).2 n.
Proof.
  intros HC Hi g' c' f k Hden. pose proof (core_bound _ _ _ _ _ _ HC) as HB. unfold MAX_PERMITS in HB.
  pose proof (c_max _ _ _ _ _ _ HC) as HM. pose proof (c_ok _ _ _ _ _ _ HC _ _ Hi) as Hok. unfold ok in Hok; simpl in Hok. subst cl.
  injection Hden as <- <- <- <-. simpl. rewrite (c_count _ _ _ _ _ _ HC), u32_sub, s32_u32 by lia.
  destruct (Z.leb_spec 0 (c - 1)).
  - to DDone (c - 1).
  - to DWait (c - 1).
Qed.

Lemma up_next pts o c n i g cl :
  core init N pts o c n -> pts !! i = Some (g, cl, UInc) ->
  forall g' c' f k, den self (g, cl, UInc) = Busy g' c' (Acc f k) -> next pts i g' c' (k (f o).1) (f o).2 n.
Proof.
  intros HC Hi g' c' f k Hden. pose proof (core_bound _ _ _ _ _ _ HC) as HB. unfold MAX_PERMITS in HB.
  pose proof (c_max _ _ _ _ _ _ HC) as HM. pose proof (c_ok _ _ _ _ _ _ HC _ _ Hi) as Hok. unfold ok in Hok; simpl in Hok. destruct Hok as [Hcl Hu]. subst cl.
  pose proof (total_ge upin pts i _ Hi) as Hup. unfold upin in Hup at 1. simpl in Hup.
  injection Hden as <- <- <- <-. simpl. rewrite (c_count _ _ _ _ _ _ HC), u32_add, s32_u32 by lia.
  destruct (Z.ltb_spec 0 (c + 1)).
  - to UDone (c + 1).
  - to USig (c + 1).
Qed.

Lemma try_next pts o c n i g cl p :
  core init N pts o c n -> pts !! i = Some (g, cl, p) -> (exists k, p = TRead k) \/ (exists k v, p = TCas k v) ->
  forall g' c' f k, den self (g, cl, p) = Busy g' c' (Acc f k) -> next pts i g' c' (k (f o).1) (f o).2 n.
Proof.
  intros HC Hi Hp g' c' f k Hden. pose proof (core_bound _ _ _ _ _ _ HC) as HB. unfold MAX_PERMITS in HB.
  pose proof (c_count _ _ _ _ _ _ HC) as Hcnt. pose proof (c_max _ _ _ _ _ _ HC) as HM.
  pose proof (c_ok _ _ _ _ _ _ HC _ _ Hi) as Hok. destruct Hp as [[[|t] ->]|(t & v & ->)]; unfold ok in Hok; simpl in Hok; [done|..].
  - injection Hden as <- <- <- <-. simpl. rewrite Hcnt, s32_u32 by lia. destruct (Z.leb_spec c 0).
    + to (TRead 0) c.
    + to (TCas t (u32 c)) c; [by simpl; rewrite s32_u32 by lia|].
      split_and!; [done|rewrite s32_u32; lia|apply is_word_u32].
  - destruct Hok as (Ht & Hv & Hw). injection Hden as <- <- <- <-. simpl. destruct (Z.eqb_spec (sem_count o) v) as [E|E].
    + assert (Hc : s32 v = c) by (rewrite <-E, Hcnt, s32_u32; lia). simpl. rewrite Hc in *.
      rewrite (proj2 (Z.eqb_neq c 0)) by lia. to (TDone t) (c - 1).
    + to (TRead t) c.
Qed.

Lemma sem_access_next pts o c n i x g cl f k :
  core init N pts o c n -> pts !! i = Some x -> den self x = Busy g cl (Acc f k) ->
  next pts i g cl (k (f o).1) (f o).2 n /\ x.2 <> DWait.
Proof.
  intros HC Hi Hden. destruct x as [[g0 c0] p]. destruct p as [|cl'| | | |t|t v|t| | |]; try discriminate.
  - destruct cl'; discriminate.
  - split; [by eapply down_next|done].
  - split; [eapply try_next; eauto|done].
  - split; [eapply try_next; eauto|done].
  - split; [by eapply up_next|done].
Qed.

Lemma sem_assert_next pts o c n i x g cl bo q :
  core init N pts o c n -> pts !! i = Some x -> den self x = Busy g cl (Assert bo q) ->
  bo o = true /\ next pts i g cl q o n /\ x.2 <> DWait.
Proof.
  intros HC Hi Hden. destruct x as [[g0 c0] p]. pose proof (c_ok _ _ _ _ _ _ HC _ _ Hi) as Hok.
  pose proof (c_count _ _ _ _ _ _ HC) as Hcnt. pose proof (c_max _ _ _ _ _ _ HC) as HM.
  destruct p as [|cl'| | | |[|t]|t v|t| | |]; try discriminate. unfold ok in Hok; simpl in Hok. destruct Hok as [-> Hu].
  assert (Hn : not_null self o = true) by (unfold not_null; by rewrite (proj2 (Z.eqb_neq self 0) Hself)).
  destruct cl' as [|t|]; injection Hden as <- <- <- <-; (split; [done|]); (split; [|done]).
  - to DDec c.
  - to (TRead t) c.
  - to UInc c. split; [done|by apply Hu].
Qed.

Lemma sem_return_core pts o c n i x g cl v :
  core init N pts o c n -> pts !! i = Some x -> den self x = Busy g cl (Ret v) ->
  core init N (<[i := (ends (Client := sem_client self) cl v g, cl, Out)]> pts) o c n /\ x.2 <> DWait.
Proof.
  intros HC Hi Hden. destruct x as [[g0 c0] p]. pose proof (c_ok _ _ _ _ _ _ HC _ _ Hi) as Hok.
  pose proof (c_count _ _ _ _ _ _ HC) as Hcnt. pose proof (c_max _ _ _ _ _ _ HC) as HM.
  destruct p as [|[| |]| | | |[|t]|t v0|t| | |]; try discriminate; injection Hden as <- <- <-; unfold ok in Hok; simpl in Hok;
    try (destruct c0; [done| |done]); subst; (split; [|done]); (eapply sem_core_move; [eassumption|eassumption|..]; side).
Qed.

Lemma sem_call_core pts o c n i g c0 cl :
  core init N pts o c n -> pts !! i = Some (g, c0, Out) -> may (Client := sem_client self) o g cl = true ->
  core init N (<[i := (begins (Client := sem_client self) cl g, cl, In cl)]> pts) o c n.
Proof.
  intros HC Hi Hm. pose proof (c_count _ _ _ _ _ _ HC) as Hcnt. pose proof (c_max _ _ _ _ _ _ HC) as HM.
  pose proof (core_bound _ _ _ _ _ _ HC) as HB. pose proof (core_upin _ _ _ _ _ _ _ _ HC Hi eq_refl) as Hup.
  destruct cl; (eapply sem_core_move; [eassumption|eassumption|..]; side); try (split; [done|simpl; (lia || done)]).
  rewrite Hcnt, s32_u32, Z.ltb_lt in Hm by (unfold MAX_PERMITS in *; lia). lia.
Qed.

(** A thread that waited gets its permit. *)
Lemma sem_got_core pts o c n i g :
  core init N pts o c (S n) -> pts !! i = Some (g, Down, DWait) -> core init N (<[i := (g, Down, DDone)]> pts) o c n.
Proof.
  intros HC Hi. pose proof (c_count _ _ _ _ _ _ HC) as Hcnt. pose proof (c_max _ _ _ _ _ _ HC) as HM.
  eapply sem_core_move; [eassumption|eassumption|..]; side.
Qed.

(** The signal is kept; there is room for it, for it belongs to a thread that
    has not called [futex_wait] yet. *)
Lemma sem_signal_core pts o c n i g :
  core init N pts o c n -> pts !! i = Some (g, Up, USig) ->
  core init N (<[i := (g, Up, UDone)]> pts) o c (S n) /\ (n < N)%nat.
Proof.
  intros HC Hi. pose proof (c_count _ _ _ _ _ _ HC) as Hcnt. pose proof (c_max _ _ _ _ _ _ HC) as HM. split.
  - eapply sem_core_move; [eassumption|eassumption|..]; side.
  - pose proof (c_tokens _ _ _ _ _ _ HC) as HT. pose proof (total_ge sig pts i _ Hi) as Hs. unfold sig in Hs at 1. simpl in Hs.
    assert (total want pts <= N)%nat; [|lia]. rewrite <-(c_size _ _ _ _ _ _ HC). apply total_le_size.
    intros j [[g' c'] p] _. unfold want. simpl. destruct p; lia.
Qed.

Lemma all_sem P : Forall (fun tag => tag = self) P -> self ∉ P -> P = [].
Proof. intros HP Hn. destruct P as [|x P]; [done|]. apply Forall_cons in HP as [-> _]. exfalso. apply Hn. left. Qed.

Lemma sem_inv_wait s pts i g c tag k r F' :
  inv self init N s pts -> threads s !! i = Some (Busy g c (Wait tag k)) -> (futex s).1 !! i = None ->
  fwait i tag (futex s) r F' ->
  exists pts', inv self init N (Sys (obj s) F' (<[i := Busy g c (match r with Some v => k v | None => Wait tag k end)]> (threads s))) pts'.
Proof.
  intros HI Hi Haw Hw. destruct (sem_inv_point _ _ _ _ HI Hi) as ([[g0 c0] p] & Hp & Hden). pose proof HI as [Hth [v HC] Hsl Hpe].
  pose proof (c_ok _ _ _ _ _ _ HC _ _ Hp) as Hok.
  assert (p = DWait) as -> by (destruct p as [|[]| | | |[]| | | | |]; try discriminate; done).
  unfold ok in Hok; simpl in Hok. subst c0. injection Hden as <- <- <- <-.
  inversion Hw as [F H1|W P P' H1 HP HF|W P H1 HP HF]; subst; [done|..]; rewrite <-HF in *; simpl in *.
  - exists (<[i := (g0, Down, DDone)]> pts). change (Busy g0 Down (Ret 0)) with (den self (g0, Down, DDone)). constructor; simpl.
    + intros j. destruct (decide (i = j)) as [<-|]; [by rewrite !lookup_insert_eq|by rewrite !lookup_insert_ne].
    + exists v. apply sem_got_core; [|done]. by rewrite (Permutation_length HP) in HC.
    + intros j tag Hj. destruct (Hsl _ _ Hj) as (_ & E & _). rewrite E in HP. by apply Permutation_nil_cons in HP.
    + rewrite HP in Hpe. by apply Forall_cons in Hpe as [_ Hpe].
  - exists pts. constructor; simpl.
    + intros j. destruct (decide (i = j)) as [<-|]; [by rewrite lookup_insert_eq, Hp|by rewrite lookup_insert_ne].
    + by exists v.
    + intros j tag [[<- <-]|[_ Hj]]%lookup_insert_Some; [|by apply Hsl]. split_and!; [done|by apply all_sem|by exists g0].
    + done.
Qed.

Lemma sem_inv_signal cap s pts i g c tag k r w F' :
  (N <= cap)%nat -> inv self init N s pts -> threads s !! i = Some (Busy g c (Signal tag k)) -> fsignal cap tag (futex s) (r, w) F' ->
  exists pts', inv self init N (Sys (obj s) F' (wake w (<[i := Busy g c (k r)]> (threads s)))) pts'.
Proof.
  intros Hcap HI Hi Hs. destruct (sem_inv_point _ _ _ _ HI Hi) as ([[g0 c0] p] & Hp & Hden). pose proof HI as [Hth [v HC] Hsl Hpe].
  pose proof (c_ok _ _ _ _ _ _ HC _ _ Hp) as Hok.
  assert (p = USig) as -> by (destruct p as [|[]| | | |[]| | | | |]; try discriminate; done).
  unfold ok in Hok; simpl in Hok. subst c0. injection Hden as <- <- <- <-.
  destruct (sem_signal_core _ _ _ _ _ _ HC Hp) as [HC1 Hn].
  inversion Hs as [F H1|W P w' H1 Hw HF|W P P' H1 Hw Hc HP HF|W P H1 Hw Hc HF]; subst; [done|..]; rewrite <-HF in *; simpl in *.
  - destruct (Hsl _ _ Hw) as (_ & E & gw & Hpw). assert (Hne : i <> w') by (intros <-; rewrite Hp in Hpw; done).
    exists (<[w' := (gw, Down, DDone)]> (<[i := (g0, Up, UDone)]> pts)). constructor; simpl.
    + intros j. destruct (decide (w' = j)) as [<-|].
      * by rewrite lookup_alter_eq, !lookup_insert_ne, lookup_insert_eq, Hth, Hpw by done.
      * rewrite lookup_alter_ne, (lookup_insert_ne _ w') by done. destruct (decide (i = j)) as [<-|].
        -- by rewrite !lookup_insert_eq.
        -- by rewrite !lookup_insert_ne.
    + exists v. apply sem_got_core; [done|]. by rewrite lookup_insert_ne.
    + intros j tag [Hj1 Hj2]%lookup_delete_Some. destruct (Hsl _ _ Hj2) as (-> & _ & gj & Hpj). split_and!; [done|done|].
      exists gj. rewrite !lookup_insert_ne; [done|intros <-; rewrite Hp in Hpj; done|done].
    + done.
  - exists (<[i := (g0, Up, UDone)]> pts). change (Busy g0 Up (Ret 0)) with (den self (g0, Up, UDone)). constructor; simpl.
    + intros j. destruct (decide (i = j)) as [<-|]; [by rewrite !lookup_insert_eq|by rewrite !lookup_insert_ne].
    + exists v. by rewrite (Permutation_length HP).
    + intros j tag Hj. exfalso. destruct (Hsl _ _ Hj) as (-> & _). by apply (Hw j).
    + rewrite HP. by constructor.
  - lia.
Qed.

(** Every step preserves the invariant. *)
Lemma sem_inv_step cap s s' pts :
  (N <= cap)%nat -> inv self init N s pts -> step (CL := sem_client self) cap s s' -> exists pts', inv self init N s' pts'.
Proof.
  intros Hcap HI Hs. destruct (i_core _ _ _ _ _ HI) as [v HC].
  destruct Hs as [i g c Hi Hm|i g c v0 Hi|i g c f k v0 m' Hi Hf|i g c bo k Hi|i g c tag k r F' Hi Ha Hw|i g c tag k r w F' Hi Hf].
  - destruct (sem_inv_point _ _ _ _ HI Hi) as ([[g0 c0] p] & Hp & Hden). assert (p = Out) as -> by (by destruct p). injection Hden as ->.
    exists (<[i := (begins (Client := sem_client self) c g, c, In c)]> pts).
    replace (Busy _ _ _) with (den self (begins (Client := sem_client self) c g, c, In c)) by (by destruct c).
    eapply sem_inv_move; [done|done|done|]. by eapply sem_call_core.
  - destruct (sem_inv_point _ _ _ _ HI Hi) as (x & Hp & Hden). destruct (sem_return_core _ _ _ _ _ _ _ _ _ HC Hp Hden) as [HC' Hne].
    eexists (<[i := (_, c, Out)]> pts). by eapply (sem_inv_move _ _ _ _ (_, c, Out)).
  - destruct (sem_inv_point _ _ _ _ HI Hi) as (x & Hp & Hden). destruct (sem_access_next _ _ _ _ _ _ _ _ _ _ HC Hp Hden) as [Hn Hne].
    rewrite Hf in Hn. simpl in Hn. destruct Hn as (p' & v' & <- & HC'). exists (<[i := (g, c, p')]> pts). by eapply sem_inv_move.
  - destruct (sem_inv_point _ _ _ _ HI Hi) as (x & Hp & Hden).
    destruct (sem_assert_next _ _ _ _ _ _ _ _ _ _ HC Hp Hden) as (-> & (p' & v' & <- & HC') & Hne).
    exists (<[i := (g, c, p')]> pts). by eapply sem_inv_move.
  - by eapply sem_inv_wait.
  - by eapply sem_inv_signal.
Qed.

Lemma sem_inv_start o : 0 <= init <= MAX_PERMITS -> sem_count o = init -> exists pts, inv self init N (start o (Memo 0 0) N) pts.
Proof.
  intros Hin Ho. set (x0 := (Memo 0 0, Down, Out) : pt). exists (list_to_map ((fun t => (t, x0)) <$> seq 0 N)).
  set (pts := list_to_map _). assert (Hpts : forall i, pts !! i = if decide (i < N)%nat then Some x0 else None).
  { intros i. apply (start_lookup_gen x0 N i). }
  assert (Hz : forall f : pt -> nat, f x0 = 0%nat -> total f pts = 0%nat).
  { intros f Hf. apply total_zero. intros i p. rewrite Hpts. case_decide; [|done]. by intros [= <-]. }
  constructor; simpl.
  - intros i. rewrite Hpts. etrans; [apply (start_lookup_gen (Idle (Memo 0 0)) N i)|]. by case_decide.
  - exists init. constructor; rewrite ?Hz by done; try lia.
    + apply start_size.
    + rewrite Ho. symmetry. apply u32_word. unfold is_word, WORD_MOD, MAX_PERMITS in *. lia.
    + intros i p. rewrite Hpts. case_decide; [|done]. by intros [= <-].
  - intros i tag. by rewrite lookup_empty.
  - done.
Qed.

End preservation.

Definition memo_of (th : thread okn_semaphore memo call) : memo := match th with Idle g | Busy g _ _ => g | Failed => Memo 0 0 end.
Definition got (th : thread okn_semaphore memo call) : nat := downs (memo_of th).
Definition gave (th : thread okn_semaphore memo call) : nat := ups (memo_of th).

(** Totals over the threads, from totals over their points. *)
Lemma total_threads self init N s pts (f : thread okn_semaphore memo call -> nat) :
  inv self init N s pts -> total f (threads s) = total (fun x => f (den self x)) pts.
Proof.
  intros HI. assert (threads s = den self <$> pts) as ->.
  { apply map_eq. intros i. rewrite lookup_fmap. apply (i_threads _ _ _ _ _ HI). }
  clear. induction pts as [|i x m Hi IH] using map_ind; [by rewrite fmap_empty, !total_empty|].
  rewrite fmap_insert, !total_insert_new by (rewrite ?lookup_fmap, ?Hi; done). by rewrite IH.
Qed.
End SemProof.

(** ** The theorem *)

Section semaphore_properties.
Import Sem SemProof.

(** C23: the semaphore.  [N] threads take, try to take and give permits of a
    semaphore created with [init] of them, and are interleaved in any way at
    every access and system call.  Then in every state that can be reached:
    - no assertion has failed;
    - no more permits have been taken than existed: the calls of [down] and
      [trydown] that succeeded are at most [init] plus the calls of [up];
    - no permit is withheld: when some thread sleeps and nobody is in the
      middle of a call, all of these permits have been taken. *)
Theorem semaphore_correct self N cap init junk o0 s :
  self <> 0 -> Z.of_nat N < 2 ^ 29 -> (N <= cap)%nat -> 0 <= init <= MAX_PERMITS ->
  run_alone (okl4_semaphore_create init) junk = Some (SYNC_OK, o0) ->
  rtc (step (CL := sem_client self) cap) (start o0 (Memo 0 0) N) s ->
  (forall i, threads s !! i <> Some Failed) /\
  Z.of_nat (total got (threads s)) <= init + Z.of_nat (total gave (threads s)) /\
  (forall i tag, (futex s).1 !! i = Some tag ->
     (forall j tj, threads s !! j = Some tj -> (exists g, tj = Idle g) \/ is_Some ((futex s).1 !! j)) ->
     Z.of_nat (total got (threads s)) = init + Z.of_nat (total gave (threads s))).
Proof.
  intros Hself HN Hcap Hinit Hcreate Hr. injection Hcreate as <-.
  assert (Hi : exists pts, inv self init N s pts).
  { apply (rtc_invariant _ (fun s => exists pts, inv self init N s pts) _ _ Hr).
    - by apply sem_inv_start.
    - intros a c [pts HI] Hs. by eapply sem_inv_step. }
  destruct Hi as [pts HI]. destruct (i_core _ _ _ _ _ HI) as [c HC]. rewrite !(total_threads _ _ _ _ _ _ HI).
  pose proof (c_value _ _ _ _ _ _ HC) as HV. pose proof (c_tokens _ _ _ _ _ _ HC) as HT. split_and!.
  - intros i Hf. destruct (sem_inv_point _ _ _ _ _ _ _ HI Hf) as ([[g c0] p] & _ & Hd). by destruct p.
  - assert (total (fun x => got (den self x)) pts <= total acquired pts)%nat.
    { apply total_mono. intros i [[g c0] p] _. unfold acquired, got. destruct p; simpl; lia. }
    assert (total given pts <= total (fun x => gave (den self x)) pts)%nat.
    { apply total_mono. intros i [[g c0] p] _. unfold given, gave. destruct p; simpl; lia. }
    lia.
  - intros i tag Hi Hq. destruct (i_sleep _ _ _ _ _ HI _ _ Hi) as (_ & HP & gi & Hw). rewrite HP in HT. simpl in HT.
    assert (Hpt : forall j x, pts !! j = Some x -> x.2 = Out \/ x.2 = DWait).
    { intros j [[g c0] p] Hj. destruct (Hq j (den self (g, c0, p))) as [[g' Hd]|[tg Hs]].
      - by rewrite (i_threads _ _ _ _ _ HI), Hj.
      - left. by destruct p.
      - right. destruct (i_sleep _ _ _ _ _ HI _ _ Hs) as (_ & _ & g' & Hj'). rewrite Hj in Hj'. by injection Hj' as -> -> ->. }
    assert (Hext : forall f1 f2 : memo * call * point -> nat,
      (forall x, x.2 = Out \/ x.2 = DWait -> f1 x = f2 x) -> total f1 pts = total f2 pts).
    { intros f1 f2 Hf. apply Nat.le_antisymm; apply total_mono; intros j x Hj; rewrite Hf by (by eapply Hpt); lia. }
    rewrite (Hext (fun x => got (den self x)) acquired), (Hext (fun x => gave (den self x)) given).
    + assert (total sig pts = 0%nat).
      { apply total_zero. intros j [[g c0] p] Hj. by destruct (Hpt _ _ Hj) as [E|E]; simpl in E; subst p. }
      pose proof (total_ge want pts i _ Hw) as Hg. unfold want in Hg at 1. simpl in Hg. lia.
    + intros [[g c0] p] [E|E]; simpl in E; subst p; unfold given, gave, upin; simpl; lia.
    + intros [[g c0] p] [E|E]; simpl in E; subst p; unfold acquired, got; simpl; lia.
Qed.

End semaphore_properties.

(** Two threads and one permit: the first takes it, the second sleeps. *)
Module SemDemo.
Import Sem SemProof.
#[export] Instance demo_client : Client okn_semaphore memo call := sem_client 4096.
Definition runs : list action := ACall 0 Down :: replicate 3 (ARun 0) ++ ACall 1 Down :: replicate 3 (ARun 1).
Definition start1 : sys okn_semaphore memo call := start (Semaphore 1) (Memo 0 0) 2.
Definition waiting : sys okn_semaphore memo call := default start1 (do_steps 8 start1 runs).
Lemma waiting_reach : rtc (step 8) start1 waiting.
Proof. apply (do_steps_reach 8 runs). Qed.
End SemDemo.

Lemma semaphore_correct_witness :
  (futex SemDemo.waiting).1 !! 1%nat = Some 4096 /\
  Z.of_nat (total SemProof.got (threads SemDemo.waiting)) <= 1 + Z.of_nat (total SemProof.gave (threads SemDemo.waiting)).
Proof.
  split; [by vm_compute|].
  apply (semaphore_correct 4096 2 8 1 (Sem.Semaphore 7) (Sem.Semaphore 1) SemDemo.waiting);
    [done|done|lia|by vm_compute|reflexivity|apply SemDemo.waiting_reach].
Defined.
