(* ===== verification/SyncBarrier.v ===== *)
(** * The okl4 barrier

    [N] threads meet at a barrier again and again.  Each thread is described
    by the point of the code it is at and the number of meetings it has left;
    [R] counts the times the barrier has opened. *)

From S2P Require Import Prelude SyncLang NanoSync.
#[local] Open Scope Z_scope.
#[local] Open Scope prog_scope.

Module BarProof.
Import Bar.

Inductive call : Type := Meet.

(** A thread remembers how often it has come back from the barrier. *)
Definition bar_client (self : Z) : Client okn_barrier_t nat call := {|
  body _ _ := okl4_barrier_wait self;
  begins _ g := g;
  ends _ _ g := S g;
  may _ _ _ := true
|}.

(** ** The points of the code; [k] meetings have been left. *)

Inductive pt : Type :=
| Out (k : nat) | B0 (k : nat) | B1 (k : nat) | B2 (k : nat) (c : Z)
| SW (k : nat) | SRd (k : nat) | SWr (k : nat) (w : Z) | STest (k : nat) | SSig (k : nat)
| LCount (k : nat) | LVerRd (k : nat) | LVerWr (k : nat) | LExp (k : nat) | LWait (k : nat) | LSig (k : nat)
| Done (k : nat).

(** The version, and the tag that belongs to it. *)
Definition ver (k : nat) : Z := if Nat.odd k then 1 else 0.

Section points.
Context (self : Z) (N : nat).

Definition tag (k : nat) : Z := u32 (self + ver k).

(** The code of a woken thread, and of the last one to arrive. *)
Definition test_rest (k : nat) : prog okn_barrier_t :=
  let+ w := rd_field f_waiters in
  if 0 <? w then do+ okn_syscall_futex_signal (tag k) in Ret 0 else Ret 0.
Definition awake_rest (k : nat) : prog okn_barrier_t :=
  let+ w := rd_field f_waiters in
  do+ wr_field f_waiters (u32 (w - 1)) in
  test_rest k.
Definition exp_rest (k : nat) : prog okn_barrier_t :=
  let+ e := rd_field f_expected in
  do+ wr_field f_waiters (u32 (e - 1)) in
  do+ okn_syscall_futex_signal (tag k) in Ret 0.
Definition last_rest (k : nat) : prog okn_barrier_t :=
  do+ wr_field f_count 0 in
  let+ v := rd_field f_version in
  do+ wr_field f_version (u32 (1 - v)) in
  exp_rest k.
Definition sleep_rest (k : nat) : prog okn_barrier_t := Wait (tag k) (fun _ => awake_rest k).

Definition rest (p : pt) : prog okn_barrier_t :=
  match p with
  | B0 _ => okl4_barrier_wait self
  | B1 k =>
      let+ cnt := okl4_atomic_inc_return f_count in
      let+ exp := rd_field f_expected in
      if u32 cnt <? exp then sleep_rest k else last_rest k
  | B2 k c =>
      let+ exp := rd_field f_expected in
      if u32 c <? exp then sleep_rest k else last_rest k
  | SW k => sleep_rest k
  | SRd k => awake_rest k
  | SWr k w => do+ wr_field f_waiters (u32 (w - 1)) in test_rest k
  | STest k => test_rest k
  | SSig k | LSig k => Signal (tag k) (fun _ => Ret 0)
  | LCount k => last_rest k
  | LVerRd k => let+ v := rd_field f_version in do+ wr_field f_version (u32 (1 - v)) in exp_rest k
  | LVerWr k => do+ wr_field f_version (u32 (1 - ver k)) in exp_rest k
  | LExp k => exp_rest k
  | LWait k => do+ wr_field f_waiters (u32 (Z.of_nat N - 1)) in Signal (tag k) (fun _ => Ret 0)
  | Out _ | Done _ => Ret 0
  end.

Definition left (p : pt) : nat :=
  match p with
  | Out k | B0 k | B1 k | B2 k _ | SW k | SRd k | SWr k _ | STest k | SSig k
  | LCount k | LVerRd k | LVerWr k | LExp k | LWait k | LSig k | Done k => k
  end.

Definition den (p : pt) : thread okn_barrier_t nat call :=
  match p with
  | Out k => Idle k
  | _ => Busy (left p) Meet (rest p)
  end.

(** ** Counting threads at their points

    In the meeting that is being collected, [R]: the threads that have
    arrived, the one that arrived last, and whether it has reset the count.
    In the meeting that is being left: the threads that have not been woken,
    and the thread that does the waking. *)
Section counts.
Context (R : nat).
Definition arrived (p : pt) : nat :=
  match p with
  | B2 k _ | SW k | LCount k | LVerRd k | LVerWr k => if (k =? R)%nat then 1 else 0
  | _ => 0
  end.
Definition last (p : pt) : nat :=
  match p with
  | B2 _ c => if c =? Z.of_nat N then 1 else 0
  | LCount _ | LVerRd _ | LVerWr _ => 1
  | _ => 0
  end.
Definition zeroed (p : pt) : nat := match p with LVerRd _ | LVerWr _ => 1 | _ => 0 end.
Definition old (p : pt) : nat := match p with B2 k _ | SW k => if (S k =? R)%nat then 1 else 0 | _ => 0 end.
Definition opening (p : pt) : nat := match p with LExp _ | LWait _ => 1 | _ => 0 end.
Definition waking (p : pt) : nat := match p with LSig _ | SRd _ | SWr _ _ | STest _ | SSig _ => 1 | _ => 0 end.
Definition signalling (p : pt) : nat := match p with LSig _ | SSig _ => 1 | _ => 0 end.
Definition woken (p : pt) : nat := match p with SRd _ | SWr _ _ => 1 | _ => 0 end.

(** Which meeting a point belongs to. *)
Definition ok (b : okn_barrier_t) (p : pt) : Prop :=
  match p with
  | Out k | B0 k | B1 k | LCount k | LVerRd k | LVerWr k => k = R
  | B2 k c => 1 <= c <= Z.of_nat N /\ (k = R \/ S k = R /\ c < Z.of_nat N)
  | SW k => k = R \/ S k = R
  | SWr k w => S k = R /\ w = waiters b
  | SRd k | STest k | SSig k | LExp k | LWait k | LSig k | Done k => S k = R
  end.

(** [n] signals are pending. *)
Record core (pts : gmap nat pt) (b : okn_barrier_t) (n : nat) : Prop := {
  c_size : size pts = N;
  c_ok i p : pts !! i = Some p -> ok b p;
  c_expected : expected b = Z.of_nat N;
  c_version : version b = ver R;
  c_count : (total zeroed pts = 0%nat -> bcount b = Z.of_nat (total arrived pts)) /\
            ((0 < total zeroed pts)%nat -> bcount b = 0);
  c_last : (total arrived pts < N -> total last pts = 0)%nat /\ (total arrived pts = N -> total last pts = 1)%nat;
  c_waking : (total opening pts + total waking pts + n <= 1)%nat /\
             (0 < total old pts -> total opening pts + total waking pts + n = 1)%nat;
  c_signal : (total signalling pts + n <= total old pts)%nat;
  c_opening : (0 < total opening pts -> total old pts = N - 1)%nat;
  c_waiters : total opening pts = 0%nat -> waiters b = Z.of_nat (total old pts + total woken pts)
}.
End counts.

Lemma arrived_le R p : (arrived R p <= 1)%nat.
Proof. destruct p; simpl; try destruct (k =? R)%nat; lia. Qed.

Lemma arrived_max R pts b n : core R pts b n -> (total (arrived R) pts <= N)%nat.
Proof. intros HC. rewrite <-(c_size _ _ _ _ HC). apply total_le_size. intros. apply arrived_le. Qed.

(** There is always a thread that has not arrived, unless all have. *)
Lemma not_arrived R pts b n i p :
  core R pts b n -> pts !! i = Some p -> arrived R p = 0%nat -> (total (arrived R) pts < N)%nat.
Proof.
  intros HC Hi Hp. rewrite (total_delete _ _ _ _ Hi), Hp, <-(c_size _ _ _ _ HC).
  assert (H : (total (arrived R) (delete i pts) <= size (delete i pts))%nat) by (apply total_le_size; intros; apply arrived_le).
  rewrite map_size_delete, Hi in H. simpl in H.
  assert (size pts <> 0%nat) by (intros E; apply map_size_empty_inv in E; subst; by rewrite lookup_empty in Hi). lia.
Qed.

(** When all have arrived, nobody is left from the meeting before. *)
Lemma all_arrived R pts b n (f : pt -> nat) :
  core R pts b n -> total (arrived R) pts = N -> (forall p, arrived R p = 1%nat -> f p = 0%nat) -> total f pts = 0%nat.
Proof.
  intros HC Hall Hf. apply total_zero. intros i p Hi. apply Hf. pose proof (arrived_le R p).
  destruct (decide (arrived R p = 0)%nat) as [H0|]; [|lia]. pose proof (not_arrived _ _ _ _ _ _ HC Hi H0). lia.
Qed.

(** One thread moves on, within a meeting. *)
Lemma core_intro R pts b n i p p' b' n' :
  let pts' := <[i := p']> pts in
  core R pts b n -> pts !! i = Some p -> ok R b' p' ->
  expected b' = expected b -> version b' = version b ->
  (waiters b' = waiters b \/ total woken pts = woken p) ->
  ((total zeroed pts' = 0%nat -> bcount b' = Z.of_nat (total (arrived R) pts')) /\
   ((0 < total zeroed pts')%nat -> bcount b' = 0)) /\
  ((total (arrived R) pts' < N -> total last pts' = 0)%nat /\ (total (arrived R) pts' = N -> total last pts' = 1)%nat) /\
  ((total opening pts' + total waking pts' + n' <= 1)%nat /\
   (0 < total (old R) pts' -> total opening pts' + total waking pts' + n' = 1)%nat) /\
  (total signalling pts' + n' <= total (old R) pts')%nat /\
  (0 < total opening pts' -> total (old R) pts' = N - 1)%nat /\
  (total opening pts' = 0%nat -> waiters b' = Z.of_nat (total (old R) pts' + total woken pts')) ->
  core R pts' b' n'.
Proof.
  intros pts' HC Hi Hok He Hv Hw (H1 & H2 & H3 & H4 & H5 & H6). constructor; try done.
  - unfold pts'. rewrite map_size_insert_Some; [by apply (c_size _ _ _ _ HC)|by eexists].
  - intros j q [[<- <-]|[Hne Hj]]%lookup_insert_Some; [done|]. pose proof (c_ok _ _ _ _ HC _ _ Hj) as Hq.
    destruct q as [k|k|k|k c|k|k|k w|k|k|k|k|k|k|k|k|k]; try done. simpl in *. destruct Hq as [? ->].
    split; [done|]. destruct Hw as [->|Hw]; [done|].
    pose proof (total_ge2 woken _ _ _ _ _ Hi Hj Hne) as Hg. simpl in Hg. lia.
  - by rewrite He, (c_expected _ _ _ _ HC).
  - by rewrite Hv, (c_version _ _ _ _ HC).
Qed.

End points.

Ltac eqb_nat := repeat match goal with
  | H : context [(?a =? ?b)%nat] |- _ => destruct (Nat.eqb_spec a b); try lia
  | |- context [(?a =? ?b)%nat] => destruct (Nat.eqb_spec a b); try lia
  | H : context [(?a =? ?b)%Z] |- _ => destruct (Z.eqb_spec a b); try lia
  | |- context [(?a =? ?b)%Z] => destruct (Z.eqb_spec a b); try lia
  end.

(** The totals after thread [i] has moved from [p] to [p']. *)
Ltac totals HC N R i p p' Hi :=
  let T f := (pose proof (total_insert f _ i p p' Hi); pose proof (total_ge f _ i p Hi)) in
  T (arrived R); T (last N); T zeroed; T (old R); T opening; T waking; T signalling; T woken;
  pose proof (arrived_max N R _ _ _ HC);
  pose proof (c_count _ _ _ _ _ HC); pose proof (c_last _ _ _ _ _ HC); pose proof (c_waking _ _ _ _ _ HC);
  pose proof (c_signal _ _ _ _ _ HC); pose proof (c_opening _ _ _ _ _ HC); pose proof (c_waiters _ _ _ _ _ HC);
  cbn [arrived last zeroed old opening waking signalling woken bcount expected waiters version] in *; eqb_nat.

Section moves.
Context (self : Z) (N : nat) (HN : (2 <= N)%nat) (HN31 : Z.of_nat N < 2 ^ 31) (Hself : 0 < self < WORD_MOD - 1).

Definition next (R : nat) (pts : gmap nat pt) (i g : nat) (q : prog okn_barrier_t) (b : okn_barrier_t) (n : nat) : Prop :=
  exists R' p', den self N p' = Busy g Meet q /\ core N R' (<[i := p']> pts) b n /\ (R' = R \/ n = 0%nat).

(** Thread [i] goes to [p'] in the same meeting. *)
Ltac stay HC Hi R i p p' :=
  cbn [fst snd fget fset pbind]; exists R, p'; split; [try reflexivity|split; [|by left]];
  eapply core_intro; [exact HC|exact Hi|cbn [ok]; try lia|done|done|try by left|];
  totals HC N R i p p' Hi; split_and!; lia.

Lemma enter_next R pts b n i k p :
  core N R pts b n -> p = B0 k \/ p = B1 k -> pts !! i = Some p ->
  forall g c f q, den self N p = Busy g c (Acc f q) -> next R pts i g (q (f b).1) (f b).2 n.
Proof.
  intros HC Hk Hi g c f q Hden. pose proof (c_ok _ _ _ _ _ HC _ _ Hi) as Hok.
  destruct Hk as [-> | ->]; simpl in Hok; subst k; injection Hden as <- <- <- <-.
  - cbn [fst snd fget]. rewrite (c_version _ _ _ _ _ HC). stay HC Hi R i (B0 R) (B1 R).
  - pose proof (not_arrived _ _ _ _ _ _ _ HC Hi eq_refl) as Hna. pose proof (c_last _ _ _ _ _ HC) as [Hl _].
    assert (Hz : total zeroed pts = 0%nat).
    { specialize (Hl Hna). assert (total zeroed pts <= total (last N) pts)%nat; [|lia].
      apply total_mono. intros j x _. destruct x; simpl; lia. }
    destruct (c_count _ _ _ _ _ HC) as [Hc _]. specialize (Hc Hz). simpl.
    assert (Hu : u32 (bcount b + 1) = Z.of_nat (total (arrived R) pts) + 1) by (rewrite Hc; apply u32_word; unfold is_word, WORD_MOD; lia).
    rewrite Hu. clear Hu Hc Hl. remember (Z.of_nat (total (arrived R) pts) + 1) as cn eqn:Ecn.
    stay HC Hi R i (B1 R) (B2 R cn).
Qed.

Lemma arrive_next R pts b n i k c0 :
  core N R pts b n -> pts !! i = Some (B2 k c0) ->
  forall g c f q, den self N (B2 k c0) = Busy g c (Acc f q) -> next R pts i g (q (f b).1) (f b).2 n.
Proof.
  intros HC Hi g c f q Hden. pose proof (c_ok _ _ _ _ _ HC _ _ Hi) as [Hc0 Hok]. injection Hden as <- <- <- <-.
  cbn [fst snd fget pbind]. rewrite (c_expected _ _ _ _ _ HC), u32_word by (unfold is_word, WORD_MOD; lia).
  destruct (Z.ltb_spec c0 (Z.of_nat N)) as [Hlt|Hge].
  - stay HC Hi R i (B2 k c0) (SW k).
  - assert (k = R) as -> by lia. stay HC Hi R i (B2 R c0) (LCount R).
Qed.

Lemma under_waking (pts : gmap nat pt) : (total woken pts <= total waking pts /\ total signalling pts <= total waking pts)%nat.
Proof. split; apply total_mono; intros j x _; destruct x; simpl; lia. Qed.

(** Only one thread at a time is being woken. *)
Lemma waking_alone R pts b n i p :
  core N R pts b n -> pts !! i = Some p -> waking p = 1%nat ->
  total woken pts = woken p /\ total signalling pts = signalling p.
Proof.
  intros HC Hi Hp. pose proof (c_waking _ _ _ _ _ HC) as [Hw _]. rewrite (total_delete waking _ _ _ Hi) in Hw.
  pose proof (under_waking (delete i pts)). split; rewrite (total_delete _ _ _ _ Hi); lia.
Qed.

Lemma awake_next R pts b n i k p :
  core N R pts b n -> p = SRd k \/ (exists w, p = SWr k w) \/ p = STest k -> pts !! i = Some p ->
  forall g c f q, den self N p = Busy g c (Acc f q) -> next R pts i g (q (f b).1) (f b).2 n.
Proof.
  intros HC Hk Hi g c f q Hden. pose proof (c_ok _ _ _ _ _ HC _ _ Hi) as Hok.
  destruct Hk as [-> |[[w ->]| ->]]; cbn [ok] in Hok; injection Hden as <- <- <- <-.
  - stay HC Hi R i (SRd k) (SWr k (waiters b)).
  - destruct Hok as [Hk ->].
    pose proof (waking_alone _ _ _ _ _ _ HC Hi eq_refl) as [Hwo Hsi]. cbn [woken signalling] in Hwo, Hsi.
    assert (Hw : 0 < waiters b < 2 ^ 31).
    { assert (total (old R) pts + total waking pts <= N)%nat; [|totals HC N R i (SWr k (waiters b)) (STest k) Hi; lia].
      rewrite <-(c_size _ _ _ _ _ HC), <-total_plus. apply total_le_size. intros j x _. destruct x; cbn [old waking]; eqb_nat; lia. }
    cbn [fst snd fset pbind]. rewrite u32_word by (unfold is_word, WORD_MOD; lia).
    exists R, (STest k). split; [done|split; [|by left]].
    eapply core_intro; [exact HC|exact Hi|done|done|done|right; simpl; lia|].
    totals HC N R i (SWr k (waiters b)) (STest k) Hi; simpl; split_and!; lia.
  - pose proof (waking_alone _ _ _ _ _ _ HC Hi eq_refl) as [Hwo Hsi]. cbn [woken signalling] in Hwo, Hsi.
    cbn [fst snd fget pbind]. destruct (Z.ltb_spec 0 (waiters b)).
    + stay HC Hi R i (STest k) (SSig k).
    + stay HC Hi R i (STest k) (Done k).
Qed.

Lemma last_next R pts b n i k p :
  core N R pts b n -> p = LCount k \/ p = LVerRd k -> pts !! i = Some p ->
  forall g c f q, den self N p = Busy g c (Acc f q) -> next R pts i g (q (f b).1) (f b).2 n.
Proof.
  intros HC Hk Hi g c f q Hden. pose proof (c_ok _ _ _ _ _ HC _ _ Hi) as Hok.
  destruct Hk as [-> | ->]; cbn [ok] in Hok; subst k; injection Hden as <- <- <- <-.
  - stay HC Hi R i (LCount R) (LVerRd R).
  - cbn [fst snd fget pbind]. rewrite (c_version _ _ _ _ _ HC). stay HC Hi R i (LVerRd R) (LVerWr R).
Qed.

Lemma open_next R pts b n i k p :
  core N R pts b n -> p = LExp k \/ p = LWait k -> pts !! i = Some p ->
  forall g c f q, den self N p = Busy g c (Acc f q) -> next R pts i g (q (f b).1) (f b).2 n.
Proof.
  intros HC Hk Hi g c f q Hden. pose proof (c_ok _ _ _ _ _ HC _ _ Hi) as Hok.
  destruct Hk as [-> | ->]; cbn [ok] in Hok; injection Hden as <- <- <- <-.
  - cbn [fst snd fget pbind]. rewrite (c_expected _ _ _ _ _ HC). stay HC Hi R i (LExp k) (LWait k).
  - pose proof (under_waking pts) as [Hwo Hsi].
    assert (Hwa : total waking pts = 0%nat) by (totals HC N R i (LWait k) (LSig k) Hi; lia).
    cbn [fst snd fset pbind]. rewrite u32_word by (unfold is_word, WORD_MOD; lia).
    exists R, (LSig k). split; [done|split; [|by left]].
    eapply core_intro; [exact HC|exact Hi|done|done|done|right; simpl; lia|].
    totals HC N R i (LWait k) (LSig k) Hi; simpl; split_and!; lia.
Qed.

Lemma ver_flip k : u32 (1 - ver k) = ver (S k).
Proof. unfold ver. rewrite Nat.odd_succ, <-Nat.negb_odd. by destruct (Nat.odd k). Qed.

(** When the version is about to change, everybody else is on the way to
    sleep in this meeting. *)
Lemma flip_points R pts b n i k :
  core N R pts b n -> pts !! i = Some (LVerWr k) ->
  total (arrived R) pts = N /\ n = 0%nat /\
  forall j p, delete i pts !! j = Some p -> (exists c0, p = B2 R c0 /\ 1 <= c0 < Z.of_nat N) \/ p = SW R.
Proof.
  intros HC Hi. pose proof (c_ok _ _ _ _ _ HC _ _ Hi) as Hok. cbn [ok] in Hok. subst k.
  assert (Hall : total (arrived R) pts = N) by (totals HC N R i (LVerWr R) (LVerWr R) Hi; lia).
  assert (Hl1 : total (last N) pts = 1%nat) by (by apply (c_last _ _ _ _ _ HC)). split_and!; [done|..].
  - pose proof (c_signal _ _ _ _ _ HC). pose proof (all_arrived N R pts b n (old R) HC Hall) as Hold.
    rewrite Hold in *; [lia|]. intros p. destruct p; cbn [arrived old]; eqb_nat; lia.
  - intros j p [Hne Hj]%lookup_delete_Some. pose proof (c_ok _ _ _ _ _ HC _ _ Hj) as Hp.
    pose proof (total_ge2 (last N) _ _ _ _ _ Hi Hj Hne) as Hl.
    destruct (decide (arrived R p = 0)%nat) as [H0|H1]; [pose proof (not_arrived _ _ _ _ _ _ _ HC Hj H0); lia|].
    destruct p as [| | |k c0|k| | | | | | | | | | |]; cbn [last arrived ok] in Hl, Hp, H1; try lia; eqb_nat; try done; subst k.
    + left. exists c0. split; [done|lia].
    + by right.
Qed.

(** The barrier opens: the threads that have arrived are those to be woken. *)
Lemma flip_next R pts b n i k :
  core N R pts b n -> pts !! i = Some (LVerWr k) ->
  forall g c f q, den self N (LVerWr k) = Busy g c (Acc f q) -> next R pts i g (q (f b).1) (f b).2 n.
Proof.
  intros HC Hi g c f q Hden. pose proof (c_ok _ _ _ _ _ HC _ _ Hi) as Hok. cbn [ok] in Hok. subst k. injection Hden as <- <- <- <-.
  cbn [fst snd fset pbind]. rewrite ver_flip. destruct (flip_points _ _ _ _ _ _ HC Hi) as (Hall & -> & Hpt).
  assert (Hsum : forall f, total f (<[i := LExp R]> pts) = (f (LExp R) + total f (delete i pts))%nat).
  { intros f. by rewrite <-insert_delete_eq, total_insert_new by apply lookup_delete_eq. }
  assert (Hz : forall f : pt -> nat, f (SW R) = 0%nat -> (forall c0, 1 <= c0 < Z.of_nat N -> f (B2 R c0) = 0%nat) ->
    total f (delete i pts) = 0%nat).
  { intros f H1 H2. apply total_zero. intros j p Hj. destruct (Hpt j p Hj) as [(c0 & -> & ?)| ->]; auto. }
  assert (Hold : total (old (S R)) (delete i pts) = (N - 1)%nat).
  { rewrite (total_ext _ (arrived R)).
    - rewrite (total_delete _ _ _ _ Hi) in Hall. cbn [arrived] in Hall. eqb_nat.
    - intros j p Hj. destruct (Hpt j p Hj) as [(c0 & -> & _)| ->]; cbn [old arrived]; eqb_nat. }
  assert (Harr : total (arrived (S R)) (delete i pts) = 0%nat) by (apply Hz; [|intros]; cbn [arrived]; eqb_nat).
  assert (Hlast : total (last N) (delete i pts) = 0%nat) by (apply Hz; [done|intros; cbn [last]; eqb_nat]).
  pose proof (total_ge zeroed _ _ _ Hi) as Hzero. cbn [zeroed] in Hzero.
  exists (S R), (LExp R). split; [done|split; [|by right]].
  constructor; rewrite ?Hsum, ?Hold, ?Harr, ?Hlast, ?(Hz zeroed), ?(Hz opening), ?(Hz waking), ?(Hz signalling), ?(Hz woken) by done;
    cbn [bcount expected waiters version arrived last zeroed old opening waking signalling woken]; try lia; try done.
  - rewrite map_size_insert_Some; [by apply (c_size _ _ _ _ _ HC)|by eexists].
  - intros j p. rewrite <-insert_delete_eq. intros [[<- <-]|[_ Hj]]%lookup_insert_Some; [done|].
    destruct (Hpt j p Hj) as [(c0 & -> & ?)| ->]; cbn [ok]; lia.
  - apply (c_expected _ _ _ _ _ HC).
  - pose proof (c_count _ _ _ _ _ HC) as [_ Hc]. rewrite Hc by lia. lia.
Qed.

Lemma bar_access_next R pts b n i p g c f q :
  core N R pts b n -> pts !! i = Some p -> den self N p = Busy g c (Acc f q) ->
  next R pts i g (q (f b).1) (f b).2 n /\ (forall k, p <> SW k).
Proof using HN HN31.
  intros HC Hi Hden. split; [|by intros k ->].
  destruct p as [k|k|k|k c0|k|k|k w|k|k|k|k|k|k|k|k|k]; try discriminate;
    first [eapply (enter_next _ _ _ _ _ k); [exact HC| |exact Hi|exact Hden]; by eauto
          |eapply arrive_next; [exact HC|exact Hi|exact Hden]
          |eapply (awake_next _ _ _ _ _ k); [exact HC| |exact Hi|exact Hden]; by eauto
          |eapply (last_next _ _ _ _ _ k); [exact HC| |exact Hi|exact Hden]; by eauto
          |eapply flip_next; [exact HC|exact Hi|exact Hden]
          |eapply (open_next _ _ _ _ _ k); [exact HC| |exact Hi|exact Hden]; by eauto].
Qed.

(** ** Calls, returns, and the futex *)

Ltac same HC Hi R i p p' :=
  eapply core_intro; [exact HC|exact Hi|cbn [ok]; try lia|done|done|by left|]; totals HC N R i p p' Hi; split_and!; lia.

Lemma bar_call_core R pts b n i k : core N R pts b n -> pts !! i = Some (Out k) -> core N R (<[i := B0 k]> pts) b n.
Proof using HN HN31. intros HC Hi. pose proof (c_ok _ _ _ _ _ HC _ _ Hi) as Hok. cbn [ok] in Hok. same HC Hi R i (Out k) (B0 k). Qed.

Lemma bar_return_core R pts b n i k : core N R pts b n -> pts !! i = Some (Done k) -> core N R (<[i := Out (S k)]> pts) b n.
Proof using HN HN31. intros HC Hi. pose proof (c_ok _ _ _ _ _ HC _ _ Hi) as Hok. cbn [ok] in Hok. same HC Hi R i (Done k) (Out (S k)). Qed.

(** A sleeping thread takes the signal. *)
Lemma bar_got_core R pts b n i k :
  core N R pts b (S n) -> pts !! i = Some (SW k) -> S k = R -> core N R (<[i := SRd k]> pts) b n.
Proof using HN HN31. intros HC Hi Hk. same HC Hi R i (SW k) (SRd k). Qed.

(** The signal of this thread is the only one. *)
Lemma bar_signal_core R pts b n i p k :
  core N R pts b n -> pts !! i = Some p -> p = SSig k \/ p = LSig k ->
  n = 0%nat /\ S k = R /\ core N R (<[i := Done k]> pts) b 1.
Proof using HN HN31.
  intros HC Hi Hp. pose proof (c_ok _ _ _ _ _ HC _ _ Hi) as Hok. destruct (c_waking _ _ _ _ _ HC) as [Hw _].
  pose proof (total_ge waking _ _ _ Hi). destruct Hp as [-> | ->]; cbn [ok waking] in *; split_and!; try lia.
  - same HC Hi R i (SSig k) (Done k).
  - same HC Hi R i (LSig k) (Done k).
Qed.

Lemma tag_value k : tag self k = self + ver k.
Proof using Hself. unfold tag. apply u32_word. clear HN HN31. unfold is_word, ver, WORD_MOD in *. destruct (Nat.odd k); lia. Qed.
Lemma tag_nonzero k : tag self k <> 0.
Proof using Hself. clear HN HN31. rewrite tag_value. unfold ver. destruct (Nat.odd k); lia. Qed.
Lemma tag_eq k k' : tag self k = tag self k' -> k = k' \/ k = S k' \/ S k = k' -> k = k'.
Proof using Hself.
  clear HN HN31. rewrite !tag_value. unfold ver. intros Ht [->|[-> | <-]]; [done|..]; rewrite Nat.odd_succ, <-Nat.negb_odd in Ht.
  - destruct (Nat.odd k'); simpl in Ht; lia.
  - destruct (Nat.odd k); simpl in Ht; lia.
Qed.

End moves.

(** ** The invariant of the whole system *)

Record inv (self : Z) (N R : nat) (s : sys okn_barrier_t nat call) (pts : gmap nat pt) : Prop := {
  i_threads i : threads s !! i = den self N <$> pts !! i;
  i_core : core N R pts (obj s) (length (futex s).2);
  i_sleep i t : (futex s).1 !! i = Some t -> t ∉ (futex s).2 /\ exists k, pts !! i = Some (SW k) /\ t = tag self k;
  i_pend : Forall (fun t => exists k, S k = R /\ t = tag self k) (futex s).2
}.

Section preservation.
Context (self : Z) (N : nat) (HN : (2 <= N)%nat) (HN31 : Z.of_nat N < 2 ^ 31) (Hself : 0 < self < WORD_MOD - 1).

Lemma bar_inv_point R s pts i th :
  inv self N R s pts -> threads s !! i = Some th -> exists p, pts !! i = Some p /\ den self N p = th.
Proof. intros HI Hi. rewrite (i_threads _ _ _ _ _ HI) in Hi. apply fmap_Some in Hi as (x & Hx & ->). by exists x. Qed.

(** A thread moves on, and no system call is made. *)
Lemma bar_inv_move R R' s pts i p p' b' :
  inv self N R s pts -> pts !! i = Some p -> (forall k, p <> SW k) -> R' = R \/ length (futex s).2 = 0%nat ->
  core N R' (<[i := p']> pts) b' (length (futex s).2) ->
  inv self N R' (Sys b' (futex s) (<[i := den self N p']> (threads s))) (<[i := p']> pts).
Proof.
  intros HI Hi Hp HR HC. constructor; simpl.
  - intros j. destruct (decide (i = j)) as [<-|Hne]; [by rewrite !lookup_insert_eq|].
    rewrite !lookup_insert_ne by done. apply (i_threads _ _ _ _ _ HI).
  - done.
  - intros j t Hj. destruct (i_sleep _ _ _ _ _ HI _ _ Hj) as (HP & k & Hk & ->). split; [done|].
    exists k. split; [|done]. rewrite lookup_insert_ne; [done|]. intros ->. rewrite Hi in Hk. by injection Hk as []%Hp.
  - destruct HR as [-> | ->%nil_length_inv]; [apply (i_pend _ _ _ _ _ HI)|by constructor].
Qed.

Lemma bar_inv_wait R s pts i g c t k r F' :
  inv self N R s pts -> threads s !! i = Some (Busy g c (Wait t k)) -> (futex s).1 !! i = None ->
  fwait i t (futex s) r F' ->
  exists pts', inv self N R (Sys (obj s) F' (<[i := Busy g c (match r with Some v => k v | None => Wait t k end)]> (threads s))) pts'.
Proof.
  intros HI Hi Haw Hw. destruct (bar_inv_point _ _ _ _ _ HI Hi) as (p & Hp & Hden). pose proof HI as [Hth HC Hsl Hpe].
  pose proof (c_ok _ _ _ _ _ HC _ _ Hp) as Hok.
  assert (exists m, p = SW m) as [m ->] by (destruct p; try discriminate; by eexists). injection Hden as <- <- <- <-.
  cbn [ok] in Hok.
  inversion Hw as [F H1|W P P' H1 HP HF|W P H1 HP HF]; subst; [by destruct (tag_nonzero self Hself _ H1)|..]; rewrite <-HF in *; simpl in *.
  - rewrite HP in Hpe. apply Forall_cons in Hpe as [(k' & Hk' & Ht) Hpe].
    assert (m = k') as <- by (apply (tag_eq self Hself); [done|lia]). rewrite (Permutation_length HP) in HC.
    exists (<[i := SRd m]> pts). change (Busy m Meet (awake_rest self m)) with (den self N (SRd m)). constructor; simpl.
    + intros j. destruct (decide (i = j)) as [<-|]; [by rewrite !lookup_insert_eq|by rewrite !lookup_insert_ne].
    + by apply bar_got_core.
    + intros j t Hj. destruct (Hsl _ _ Hj) as (Hn & k & Hk & ->). rewrite HP in Hn. split; [set_solver|]. exists k. split; [|done].
      rewrite lookup_insert_ne; [done|]. intros <-. rewrite Haw in Hj. done.
    + done.
  - exists pts. constructor; simpl; [|done| |done].
    + intros j. destruct (decide (i = j)) as [<-|]; [by rewrite lookup_insert_eq, Hp|by rewrite lookup_insert_ne].
    + intros j t [[<- <-]|[_ Hj]]%lookup_insert_Some; [|by apply Hsl]. split; [done|by exists m].
Qed.

Lemma bar_inv_signal cap R s pts i g c t k r w F' :
  (N <= cap)%nat -> inv self N R s pts -> threads s !! i = Some (Busy g c (Signal t k)) -> fsignal cap t (futex s) (r, w) F' ->
  exists pts', inv self N R (Sys (obj s) F' (wake w (<[i := Busy g c (k r)]> (threads s)))) pts'.
Proof.
  intros Hcap HI Hi Hs. destruct (bar_inv_point _ _ _ _ _ HI Hi) as (p & Hp & Hden). pose proof HI as [Hth HC Hsl Hpe].
  assert (exists m, p = SSig m \/ p = LSig m) as [m Hm] by (destruct p; try discriminate; by eauto).
  destruct (bar_signal_core N HN HN31 _ _ _ _ _ _ _ HC Hp Hm) as (H0 & HR & HC').
  assert (Busy m Meet (Signal (tag self m) (fun _ => Ret 0)) = Busy g c (Signal t k)) as [= <- <- <- <-] by (rewrite <-Hden; by destruct Hm as [-> | ->]).
  assert (Hnw : forall x, p <> SW x) by (destruct Hm as [-> | ->]; done).
  inversion Hs as [F H1|W P w' H1 Hw HF|W P P' H1 Hw Hc HP HF|W P H1 Hw Hc HF]; subst; [by destruct (tag_nonzero self Hself _ H1)|..]; rewrite <-HF in *; simpl in *.
  - destruct (Hsl _ _ Hw) as (Hn & k & Hk & Ht). pose proof (c_ok _ _ _ _ _ HC _ _ Hk) as Hok. cbn [ok] in Hok.
    assert (m = k) as <- by (apply (tag_eq self Hself); [done|lia]).
    assert (Hne : i <> w') by (intros <-; rewrite Hp in Hk; by injection Hk as []%Hnw).
    exists (<[w' := SRd m]> (<[i := Done m]> pts)). constructor; simpl.
    + intros j. destruct (decide (w' = j)) as [<-|].
      * by rewrite lookup_alter_eq, !lookup_insert_ne, lookup_insert_eq, Hth, Hk by done.
      * rewrite lookup_alter_ne, (lookup_insert_ne _ w') by done.
        destruct (decide (i = j)) as [<-|]; [by rewrite !lookup_insert_eq|by rewrite !lookup_insert_ne].
    + rewrite H0 in *. apply bar_got_core; [done|done|done| |done]. by rewrite lookup_insert_ne.
    + intros j t [Hj1 Hj2]%lookup_delete_Some. destruct (Hsl _ _ Hj2) as (Hnj & kj & Hkj & ->). split; [done|]. exists kj.
      split; [|done]. rewrite !lookup_insert_ne; [done|intros <-; rewrite Hp in Hkj; by injection Hkj as []%Hnw|done].
    + done.
  - exists (<[i := Done m]> pts). change (Busy m Meet (Ret 0)) with (den self N (Done m)). constructor; simpl.
    + intros j. destruct (decide (i = j)) as [<-|]; [by rewrite !lookup_insert_eq|by rewrite !lookup_insert_ne].
    + rewrite (Permutation_length HP). simpl. by rewrite H0.
    + intros j t Hj. destruct (Hsl _ _ Hj) as (Hnj & kj & Hkj & ->). split.
      * rewrite HP. intros [He|]%elem_of_cons; [|done]. by apply (Hw j); rewrite <-He.
      * exists kj. split; [|done]. rewrite lookup_insert_ne; [done|]. intros <-. rewrite Hp in Hkj. by injection Hkj as []%Hnw.
    + rewrite HP. constructor; [by exists m|done].
  - lia.
Qed.

(** Every step preserves the invariant. *)
Lemma bar_inv_step cap R s s' pts :
  (N <= cap)%nat -> inv self N R s pts -> step (CL := bar_client self) cap s s' -> exists R' pts', inv self N R' s' pts'.
Proof.
  intros Hcap HI Hs. pose proof (i_core _ _ _ _ _ HI) as HC.
  destruct Hs as [i g c Hi Hm|i g c v Hi|i g c f k v m' Hi Hf|i g c bo k Hi|i g c t k r F' Hi Ha Hw|i g c t k r w F' Hi Hf].
  - destruct (bar_inv_point _ _ _ _ _ HI Hi) as (p & Hp & Hden). assert (p = Out g) as -> by (by destruct p; try discriminate; injection Hden as ->).
    exists R, (<[i := B0 g]> pts). destruct c. change (Busy _ _ _) with (den self N (B0 g)).
    eapply bar_inv_move; [done|done|done|by left|]. by apply bar_call_core.
  - destruct (bar_inv_point _ _ _ _ _ HI Hi) as (p & Hp & Hden).
    assert (p = Done g) as -> by (by destruct p; try discriminate; injection Hden as ->).
    exists R, (<[i := Out (S g)]> pts). change (Idle _) with (den self N (Out (S g))).
    eapply bar_inv_move; [done|done|done|by left|]. by apply bar_return_core.
  - destruct (bar_inv_point _ _ _ _ _ HI Hi) as (p & Hp & Hden).
    destruct (bar_access_next self N HN HN31 _ _ _ _ _ _ _ _ _ _ HC Hp Hden) as [Hn Hne].
    rewrite Hf in Hn. simpl in Hn. destruct Hn as (R' & p' & Hd & HC' & HR). exists R', (<[i := p']> pts). destruct c. rewrite <-Hd.
    by eapply bar_inv_move.
  - destruct (bar_inv_point _ _ _ _ _ HI Hi) as (p & Hp & Hden). by destruct p.
  - exists R. by eapply bar_inv_wait.
  - exists R. by eapply bar_inv_signal.
Qed.

Lemma bar_inv_start b :
  b = Barrier 0 (Z.of_nat N) 0 0 -> exists pts, inv self N 0 (start b 0%nat N) pts.
Proof.
  intros ->. exists (list_to_map ((fun t => (t, Out 0)) <$> seq 0 N)).
  set (pts := list_to_map _). assert (Hpts : forall i, pts !! i = if decide (i < N)%nat then Some (Out 0) else None).
  { intros i. apply (start_lookup_gen (Out 0) N i). }
  assert (Hz : forall f : pt -> nat, f (Out 0) = 0%nat -> total f pts = 0%nat).
  { intros f Hf. apply total_zero. intros i p. rewrite Hpts. case_decide; [|done]. by intros [= <-]. }
  constructor; simpl.
  - intros i. rewrite Hpts. etrans; [apply (start_lookup_gen (Idle 0%nat) N i)|]. by case_decide.
  - constructor; rewrite ?Hz by done; simpl; try lia; try done.
    + apply start_size.
    + intros i p. rewrite Hpts. case_decide; [|done]. by intros [= <-].
  - intros i t. by rewrite lookup_empty.
  - done.
Qed.

(** When nobody is in the middle of a call, a sleeping thread waits for one
    that has not begun this meeting. *)
Lemma inv_quiet R s pts i t :
  inv self N R s pts -> (futex s).1 !! i = Some t ->
  (forall j p, pts !! j = Some p -> p = Out R \/ is_Some ((futex s).1 !! j)) ->
  pts !! i = Some (SW R) /\ exists j, pts !! j = Some (Out R).
Proof.
  intros HI Hi Hq. pose proof (i_core _ _ _ _ _ HI) as HC.
  assert (Hpt : forall j p, pts !! j = Some p -> p = Out R \/ exists k, p = SW k).
  { intros j p Hj. destruct (Hq j p Hj) as [->|[tj Htj]]; [by left|]. destruct (i_sleep _ _ _ _ _ HI _ _ Htj) as (_ & k & Hk & _).
    right. exists k. congruence. }
  assert (Hz : forall f : pt -> nat, f (Out R) = 0%nat -> (forall k, f (SW k) = 0%nat) -> total f pts = 0%nat).
  { intros f H1 H2. apply total_zero. intros j p Hj. destruct (Hpt j p Hj) as [->|[k ->]]; auto. }
  assert (Hsw : forall j tj, (futex s).1 !! j = Some tj -> pts !! j = Some (SW R)).
  { intros j tj Hj. destruct (i_sleep _ _ _ _ _ HI _ _ Hj) as (Hn & k & Hk & ->). pose proof (c_ok _ _ _ _ _ HC _ _ Hk) as Hok.
    cbn [ok] in Hok. destruct (decide (k = R)) as [->|]; [done|]. exfalso. assert (Hr : S k = R) by lia.
    pose proof (c_waking _ _ _ _ _ HC) as [_ Hw]. rewrite (Hz opening), (Hz waking) in Hw by done.
    pose proof (total_ge (old R) _ _ _ Hk) as Ho. cbn [old] in Ho. eqb_nat. pose proof (i_pend _ _ _ _ _ HI) as HP.
    destruct (futex s).2 as [|x P]; [simpl in Hw; lia|]. apply Forall_cons in HP as [(k' & Hk' & ->) _]. apply Hn. assert (k' = k) as -> by lia. left. }
  split; [by eapply Hsw|].
  assert (Hlt : (total (arrived R) pts < N)%nat).
  { pose proof (c_last _ _ _ _ _ HC) as [_ Hl]. rewrite (Hz (last N)) in Hl by done. pose proof (arrived_max N R _ _ _ HC). lia. }
  assert (0 < total (fun p => 1 - arrived R p) pts)%nat as (j & p & Hj & Hp)%total_pos.
  { pose proof (c_size _ _ _ _ _ HC) as Hs. rewrite <-total_one, (total_ext _ (fun p => arrived R p + (1 - arrived R p)))%nat in Hs.
    - rewrite total_plus in Hs. lia.
    - intros j p _. pose proof (arrived_le R p). lia. }
  exists j. destruct (Hq j p Hj) as [->|[tj Htj]]; [done|]. apply Hsw in Htj. assert (p = SW R) as -> by congruence.
  cbn [arrived] in Hp. eqb_nat.
Qed.

End preservation.
End BarProof.

(** ** The theorem *)

Section barrier_properties.
Import Bar BarProof.

(** The meetings a thread has left, and those it has begun. *)
Definition has_left (th : thread okn_barrier_t nat call) : nat := match th with Idle g | Busy g _ _ => g | Failed => 0 end.
Definition has_begun (th : thread okn_barrier_t nat call) : nat := match th with Idle g => g | Busy g _ _ => S g | Failed => 0 end.

(** C24: the barrier.  [N] threads, the number the barrier was created for,
    meet at it as often as they like, and are interleaved in any way at every
    access and system call.  Then in every state that can be reached:
    - no assertion has failed;
    - nobody leaves a meeting that some thread has not begun;
    - nobody is forgotten: when all threads that are in a call sleep, a
      sleeping thread waits for one that has not begun the same meeting. *)
Theorem barrier_correct self N cap junk b0 s :
  (2 <= N)%nat -> Z.of_nat N < 2 ^ 31 -> 0 < self < WORD_MOD - 1 -> (N <= cap)%nat ->
  run_alone (okl4_barrier_create (Z.of_nat N)) junk = Some (SYNC_OK, b0) ->
  rtc (step (CL := bar_client self) cap) (start b0 0%nat N) s ->
  (forall i, threads s !! i <> Some Failed) /\
  (forall i j ti tj, threads s !! i = Some ti -> threads s !! j = Some tj -> has_left ti <= has_begun tj)%nat /\
  (forall i tag ti, (futex s).1 !! i = Some tag -> threads s !! i = Some ti ->
     (forall j tj, threads s !! j = Some tj -> (exists g, tj = Idle g) \/ is_Some ((futex s).1 !! j)) ->
     exists j tj, threads s !! j = Some tj /\ (has_begun tj < has_begun ti)%nat).
Proof.
  intros HN HN31 Hself Hcap Hcreate Hr. injection Hcreate as <-.
  assert (exists R pts, inv self N R s pts) as (R & pts & HI).
  { apply (rtc_invariant _ (fun s => exists R pts, inv self N R s pts) _ _ Hr).
    - exists 0%nat. by apply bar_inv_start.
    - intros a c (R & pts & HI) Hs. by eapply bar_inv_step. }
  assert (Hth : forall i ti, threads s !! i = Some ti ->
    exists p, pts !! i = Some p /\ den self N p = ti /\ (has_left ti <= R <= has_begun ti)%nat).
  { intros i ti Hi. destruct (bar_inv_point _ _ _ _ _ _ _ HI Hi) as (p & Hp & <-). exists p. split_and!; [done|done|..];
      pose proof (c_ok _ _ _ _ _ (i_core _ _ _ _ _ HI) _ _ Hp) as Hok; destruct p; cbn [ok den has_left has_begun left] in *; lia. }
  split_and!.
  - intros i Hf. destruct (Hth _ _ Hf) as (p & _ & Hd & _). by destruct p.
  - intros i j ti tj Hi Hj. destruct (Hth _ _ Hi) as (_ & _ & _ & ?), (Hth _ _ Hj) as (_ & _ & _ & ?). lia.
  - intros i tag ti Hi Hti Hq. destruct (inv_quiet self N HN R s pts i tag HI Hi) as [Hsw (j & Hj)].
    + intros j p Hj. destruct (Hq j (den self N p)) as [[g Hg]|]; [by rewrite (i_threads _ _ _ _ _ HI), Hj| |by right].
      left. pose proof (c_ok _ _ _ _ _ (i_core _ _ _ _ _ HI) _ _ Hj) as Hok. destruct p; try discriminate. by cbn [ok] in Hok; subst.
    + exists j, (Idle R). split; [by rewrite (i_threads _ _ _ _ _ HI), Hj|].
      rewrite (i_threads _ _ _ _ _ HI), Hsw in Hti. injection Hti as <-. simpl. lia.
Qed.

End barrier_properties.

(** Two threads: the first sleeps; then the second arrives, wakes the first
    and leaves, and enters the next meeting, where it sleeps. *)
Module BarDemo.
Import Bar BarProof.
#[export] Instance demo_client : Client okn_barrier_t nat call := bar_client 4096.
Definition runs : list action :=
  ACall 0 Meet :: replicate 4 (ARun 0) ++ ACall 1 Meet :: replicate 10 (ARun 1) ++ ACall 1 Meet :: replicate 4 (ARun 1).
Definition start2 : sys okn_barrier_t nat call := start (Barrier 0 2 0 0) 0%nat 2.
Definition met : sys okn_barrier_t nat call := default start2 (do_steps 8 start2 runs).
Lemma met_reach : rtc (step 8) start2 met.
Proof. apply (do_steps_reach 8 runs). Qed.
End BarDemo.

Lemma barrier_correct_witness :
  (futex BarDemo.met).1 !! 1%nat = Some 4097 /\
  (forall i j ti tj, threads BarDemo.met !! i = Some ti -> threads BarDemo.met !! j = Some tj -> has_left ti <= has_begun tj)%nat.
Proof.
  split; [by vm_compute|].
  apply (barrier_correct 4096 2 8 (Bar.Barrier 7 7 7 7) (Bar.Barrier 0 2 0 0) BarDemo.met);
    [lia|done|done|lia|reflexivity|apply BarDemo.met_reach].
Defined.

(** A barrier for one thread signals although nobody waits: each meeting
    leaves a signal pending, until the kernel cannot keep more. *)
Module SoloDemo.
Import Bar BarProof.
#[export] Instance solo_client : Client okn_barrier_t nat call := bar_client 4096.
Definition runs : list action := ACall 0 Meet :: replicate 10 (ARun 0).
Definition start1 : sys okn_barrier_t nat call := start (Barrier 0 1 0 0) 0%nat 1.

Lemma barrier_one_leaves_signals :
  (fun s => ((futex s).2, threads s !! 0%nat)) <$> do_steps 2 start1 (runs ++ runs ++ runs)
  = Some ([4097; 4096], Some (Idle 3%nat)).
Proof. by vm_compute. Qed.
End SoloDemo.
