(* ===== verification/Heap.v ===== *)
(** * Dynamically allocated objects

    The data-structure libraries allocate their nodes with [malloc] and
    release them with [free].  A component keeps its nodes of type [V] in a
    store indexed by addresses, which is (a field of) its state.  What a
    component relies on is the class [Malloc]: an allocation yields an address
    that designates no live object, with indeterminate contents, or fails.
    [free] of an address that designates no live object, like a dereference
    of one, is a crash; so a theorem about a run excludes double frees and
    uses after free. *)

From S2P Require Import Prelude.

(** A state that contains a store of objects of type [V]. *)
Class HasHeap (S V : Type) := {
  heap_of : S -> gmap nat V;
  with_heap : gmap nat V -> S -> S;
  heap_of_with h s : heap_of (with_heap h s) = h;
  with_heap_with h h' s : with_heap h (with_heap h' s) = with_heap h s
}.

(** What clients rely on of [malloc]. *)
Class Malloc (V : Type) := {
  malloc_at : gmap nat V -> option nat;
  malloc_junk : nat -> V;
  malloc_fresh h a : malloc_at h = Some a -> h !! a = None
}.

#[export] Instance heap_self V : HasHeap (gmap nat V) V :=
  {| heap_of h := h; with_heap h _ := h; heap_of_with _ _ := eq_refl; with_heap_with _ _ _ := eq_refl |}.

Section heap.
Context {S V : Type} `{HH : !HasHeap S V} `{MM : !Malloc V}.
Implicit Types (s : S) (v : V) (a : nat).

(** [*p] *)
Definition load (p : option nat) : M S V :=
  let! a := demand InvalidPointer p in
  let! h := gets heap_of in
  demand InvalidPointer (h !! a).

(** [p->field = ...] *)
Definition store (p : option nat) (f : V -> V) : M S unit :=
  let! a := demand InvalidPointer p in
  let! h := gets heap_of in
  let! v := demand InvalidPointer (h !! a) in
  modify (with_heap (<[a := f v]> h)).

(** [malloc(sizeof(V))] *)
Definition malloc : M S (option nat) :=
  let! h := gets heap_of in
  match malloc_at h with
  | None => ret None
  | Some a =>
      do! modify (with_heap (<[a := malloc_junk a]> h)) in
      ret (Some a)
  end.

(** [free(p)] *)
Definition free (p : option nat) : M S unit :=
  match p with
  | None => ret tt
  | Some a =>
      let! h := gets heap_of in
      let! _ := demand InvalidPointer (h !! a) in
      modify (with_heap (delete a h))
  end.

Lemma wp_load (Q : V -> S -> Prop) s a v :
  heap_of s !! a = Some v -> Q v s -> wp (load (Some a)) Q s.
Proof. intros Hv HQ. unfold load. wp_steps; [done|exact Hv|done]. Qed.

Lemma wp_store (Q : unit -> S -> Prop) s a v f :
  heap_of s !! a = Some v -> Q tt (with_heap (<[a := f v]> (heap_of s)) s) -> wp (store (Some a) f) Q s.
Proof. intros Hv HQ. unfold store. wp_steps; [done|exact Hv|done]. Qed.

Lemma wp_malloc (Q : option nat -> S -> Prop) s :
  (malloc_at (heap_of s) = None -> Q None s) ->
  (forall a, heap_of s !! a = None -> Q (Some a) (with_heap (<[a := malloc_junk a]> (heap_of s)) s)) ->
  wp malloc Q s.
Proof.
  intros Hn Hs. unfold malloc. wp_steps. destruct (malloc_at (heap_of s)) as [a|] eqn:E; wp_steps; [|by apply Hn].
  apply Hs. by eapply malloc_fresh.
Qed.

(** When an allocation is known to succeed. *)
Lemma wp_malloc_ok (Q : option nat -> S -> Prop) s :
  is_Some (malloc_at (heap_of s)) ->
  (forall a, heap_of s !! a = None -> Q (Some a) (with_heap (<[a := malloc_junk a]> (heap_of s)) s)) ->
  wp malloc Q s.
Proof.
  intros [a Ha] HQ. unfold malloc. wp_steps. rewrite Ha. wp_steps. apply HQ. by eapply malloc_fresh.
Qed.

Lemma wp_free (Q : unit -> S -> Prop) s a v :
  heap_of s !! a = Some v -> Q tt (with_heap (delete a (heap_of s)) s) -> wp (free (Some a)) Q s.
Proof. intros Hv HQ. unfold free. wp_steps; [exact Hv|done]. Qed.

End heap.

Arguments load : simpl never.
Arguments store : simpl never.
Arguments malloc : simpl never.
Arguments free : simpl never.

(** Running a component's code inside a larger state. *)
Section zoom.
Context {S T A : Type} (get : S -> T) (put : T -> S -> S).

Definition zoom (c : M T A) : M S A := fun s =>
  match c (get s) with Done a t => Done a (put t s) | Crash f => Crash f end.

Lemma wp_zoom c (Q : A -> S -> Prop) s : wp c (fun a t => Q a (put t s)) (get s) -> wp (zoom c) Q s.
Proof. unfold wp, zoom. by destruct (c (get s)). Qed.
End zoom.

(** Lookups in a store built by insertions and deletions. *)
Ltac heap_simpl := cbn [heap_of with_heap heap_self] in *; rewrite ?heap_of_with, ?with_heap_with.
Ltac heap_lookup :=
  heap_simpl;
  repeat first
    [ eassumption
    | rewrite heap_of_with
    | rewrite lookup_insert_eq
    | rewrite lookup_insert_ne by (done || congruence)
    | rewrite lookup_delete_ne by (done || congruence)
    | reflexivity ].
Ltac heap_step :=
  lazymatch goal with
  | |- wp (load _) _ _ => eapply wp_load; [solve [heap_lookup]|cbn beta]
  | |- wp (store _ _) _ _ => eapply wp_store; [solve [heap_lookup]|cbn beta; heap_simpl]
  | |- wp (free _) _ _ => eapply wp_free; [solve [heap_lookup]|cbn beta; heap_simpl]
  | _ => wp_step; cbn beta
  end.
Ltac heap_steps := repeat heap_step.

(** An allocator with room for [n] objects, the lowest free address first. *)
Definition first_free {V} (n : nat) (h : gmap nat V) : option nat :=
  snd <$> list_find (fun a => h !! a = None) (seq 0 n).

Lemma first_free_fresh {V} n (h : gmap nat V) a : first_free n h = Some a -> h !! a = None.
Proof.
  unfold first_free. destruct (list_find _ _) as [[i x]|] eqn:E; simpl; [|done]. intros [= <-].
  by apply list_find_Some in E as (_ & ? & _).
Qed.

Definition malloc_pool {V} (n : nat) (junk : V) : Malloc V :=
  {| malloc_at := first_free n; malloc_junk _ := junk; malloc_fresh := first_free_fresh n |}.
