(* ===== verification/BitmapAlloc.v ===== *)
(** * The OKL4 bitmap allocator ([libs/okl4/src/bitmap_*.c])

    An allocator of unit numbers: one bit per unit in an array of 32-bit
    words, with a guess of the word that may have a free unit.  The spare
    bits of the last word are set at initialisation so that the search never
    finds them.  The specification of an allocator is the set of the units
    that are taken. *)

From S2P Require Import Prelude.
#[local] Open Scope Z_scope.

(** [libs/okl4/include/errno.h] *)
Definition OKL4_OK : Z := 0.
Definition OKL4_OUT_OF_RANGE : Z := -3.
Definition OKL4_IN_USE : Z := -4.
Definition OKL4_ALLOC_EXHAUSTED : Z := -5.

(** [libs/okl4/include/allocator_attr.h] *)
Definition OKL4_ALLOC_ANONYMOUS : Z := WORD_MOD - 1.
Definition OKL4_WORD_T_BIT : Z := 32.

Record allocator_attr : Type := AllocatorAttr { attr_base : Z; attr_size : Z }.

Definition okl4_allocator_attr_init (attr : allocator_attr) : allocator_attr := AllocatorAttr 0 0.
Definition okl4_allocator_attr_setrange (attr : allocator_attr) (b sz : Z) : allocator_attr :=
  AllocatorAttr b sz.
Definition okl4_allocator_attr_setsize (attr : allocator_attr) (sz : Z) : allocator_attr :=
  AllocatorAttr OKL4_ALLOC_ANONYMOUS sz.

Module Bitmap.

Record allocator : Type := Allocator {
  base : Z;
  size : Z;
  pos_guess : Z;
  data : list Z
}.

Definition set_base v a := Allocator v (size a) (pos_guess a) (data a).
Definition set_size v a := Allocator (base a) v (pos_guess a) (data a).
Definition set_pos_guess v a := Allocator (base a) (size a) v (data a).
Definition set_data v a := Allocator (base a) (size a) (pos_guess a) v.

(** An [okl4_bitmap_item_t] is its only field, the unit. *)
Definition okl4_bitmap_item_setany : Z := OKL4_ALLOC_ANONYMOUS.
Definition okl4_bitmap_item_setunit (unit : Z) : Z := unit.
Definition okl4_bitmap_item_getunit (item : Z) : Z := item.

(** ** [bitmap_internal.h] *)

Definition OKL4_SET_BIT (word bit_num : Z) : Z := Z.lor word (u32 (Z.shiftl 1 bit_num)).
Definition OKL4_TEST_BIT (word bit_num : Z) : Z := Z.land word (u32 (Z.shiftl 1 bit_num)).
Definition OKL4_CLEAR_BIT (word bit_num : Z) : Z := Z.land word (not32 (u32 (Z.shiftl 1 bit_num))).

(** The loop of [find_first_free] with [n] iterations to go. *)
Fixpoint find_first_free_from (n : nat) (i w : Z) : Z :=
  match n with
  | O => -1
  | S n' => if Z.land w 1 =? 0 then i else find_first_free_from n' (i + 1) (Z.shiftr w 1)
  end.
Definition find_first_free (w : Z) : Z := find_first_free_from 32 0 w.

(** ** [bitmap_init.c] *)

(** [for (i = 0; i < bitmap_words; i++) allocator->data[i] = 0;] *)
Fixpoint clear_words (n : nat) (i : Z) : M allocator unit :=
  match n with
  | O => ret tt
  | S n' =>
      let! d := gets data in
      let! d' := index_set d i 0 in
      do! modify (set_data d') in
      clear_words n' (i + 1)
  end.

Definition okl4_bitmap_allocator_init (attr : allocator_attr) : M allocator unit :=
  do! ASSERT (0 <? attr_size attr) in
  do! modify (set_base (if attr_base attr =? OKL4_ALLOC_ANONYMOUS then 0 else attr_base attr)) in
  do! modify (set_size (attr_size attr)) in
  do! modify (set_pos_guess 0) in
  let! sz := gets size in
  let bitmap_words := (sz - 1) / OKL4_WORD_T_BIT + 1 in
  do! clear_words (Z.to_nat bitmap_words) 0 in
  let overflow := u32 (u32 (bitmap_words * OKL4_WORD_T_BIT) - sz) in
  do! ASSERT (overflow <? OKL4_WORD_T_BIT) in
  if overflow =? 0 then ret tt
  else
    let! d := gets data in
    let! w := index d (bitmap_words - 1) in
    let! d' := index_set d (bitmap_words - 1)
                 (Z.lor w (u32 (Z.shiftl (WORD_MOD - 1) (OKL4_WORD_T_BIT - overflow)))) in
    modify (set_data d').

(** ** [bitmap_alloc.c] *)

(** A search loop: the first of the words [i], [i + 1], ..., [i + n - 1]
    that is not full. *)
Fixpoint find_word (n : nat) (i : Z) : M allocator (option Z) :=
  match n with
  | O => ret None
  | S n' =>
      let! d := gets data in
      let! w := index d i in
      if negb (w =? WORD_MOD - 1) then ret (Some i) else find_word n' (i + 1)
  end.

(** The two loops of [anonymous_allocation], up to the label [found]: from
    the guess to the end, then from the start to the guess. *)
Definition find_free_word (bitmap_words guess : Z) : M allocator (option Z) :=
  let! r1 := find_word (Z.to_nat (bitmap_words - guess)) guess in
  match r1 with
  | Some i => ret (Some i)
  | None => find_word (Z.to_nat guess) 0
  end.

(** The result is the error code and the item. *)
Definition anonymous_allocation (item : Z) : M allocator (Z * Z) :=
  let! sz := gets size in
  let! guess := gets pos_guess in
  let bitmap_words := u32 (sz + OKL4_WORD_T_BIT - 1) / OKL4_WORD_T_BIT in
  let! r := find_free_word bitmap_words guess in
  match r with
  | None => ret (OKL4_ALLOC_EXHAUSTED, item)
  | Some i =>
      do! modify (set_pos_guess i) in
      let! d := gets data in
      let! w := index d i in
      let pos := find_first_free w in
      do! ASSERT (0 <=? pos) in
      let! d' := index_set d i (OKL4_SET_BIT w pos) in
      do! modify (set_data d') in
      let! b := gets base in
      ret (OKL4_OK, u32 (i * OKL4_WORD_T_BIT + pos + b))
  end.

Definition named_allocation (item : Z) : M allocator (Z * Z) :=
  let! b := gets base in
  let! sz := gets size in
  if (item <? b) || (u32 (b + sz) <=? item) then ret (OKL4_OUT_OF_RANGE, item)
  else
    let unit := u32 (item - b) in
    let unit_word := unit / OKL4_WORD_T_BIT in
    let unit_bit := unit mod OKL4_WORD_T_BIT in
    let! d := gets data in
    let! w := index d unit_word in
    if negb (OKL4_TEST_BIT w unit_bit =? 0) then ret (OKL4_IN_USE, item)
    else
      let! d' := index_set d unit_word (OKL4_SET_BIT w unit_bit) in
      do! modify (set_data d') in
      ret (OKL4_OK, item).

Definition okl4_bitmap_allocator_alloc (item : Z) : M allocator (Z * Z) :=
  if negb (item =? OKL4_ALLOC_ANONYMOUS) then named_allocation item else anonymous_allocation item.

(** ** [bitmap_free.c], [bitmap_isallocated.c], [bitmap_destroy.c] *)

Definition okl4_bitmap_allocator_free (item : Z) : M allocator unit :=
  let! b := gets base in
  let! sz := gets size in
  do! ASSERT (b <=? item) in
  do! ASSERT (item <? u32 (b + sz)) in
  let unit := u32 (item - b) in
  let! d := gets data in
  let! w := index d (unit / OKL4_WORD_T_BIT) in
  let! d' := index_set d (unit / OKL4_WORD_T_BIT) (OKL4_CLEAR_BIT w (unit mod OKL4_WORD_T_BIT)) in
  modify (set_data d').

Definition okl4_bitmap_allocator_isallocated (item : Z) : M allocator Z :=
  let! b := gets base in
  let! sz := gets size in
  if (item <? b) || (u32 (b + sz) <=? item) then ret OKL4_OUT_OF_RANGE
  else
    let unit := u32 (item - b) in
    let! d := gets data in
    let! w := index d (unit / OKL4_WORD_T_BIT) in
    if negb (OKL4_TEST_BIT w (unit mod OKL4_WORD_T_BIT) =? 0) then ret 1 else ret 0.

Definition okl4_bitmap_allocator_destroy : M allocator unit := ret tt.

(** ** Specification *)

(** Whether the unit numbered [u] from 0 is taken. *)
Definition taken (d : list Z) (u : Z) : bool :=
  match d !! Z.to_nat (u / 32) with Some w => Z.testbit w (u mod 32) | None => true end.

Record wf (a : allocator) : Prop := {
  wf_base : 0 <= base a;
  wf_size : 0 < size a;
  wf_range : base a + size a < WORD_MOD;
  wf_round : size a + 31 < WORD_MOD;
  wf_len : Z.of_nat (length (data a)) = (size a + 31) / 32;
  wf_guess : 0 <= pos_guess a <= Z.of_nat (length (data a));
  wf_words : Forall is_word (data a);
  (* the spare bits of the last word *)
  wf_spare : forall u, size a <= u -> taken (data a) u = true
}.

(** A unit is taken in [a], in units as the client numbers them. *)
Definition allocated (a : allocator) (unit : Z) : Prop :=
  base a <= unit < base a + size a /\ taken (data a) (unit - base a) = true.
Definition available (a : allocator) (unit : Z) : Prop :=
  base a <= unit < base a + size a /\ taken (data a) (unit - base a) = false.

(** *** Words *)

Lemma test_bit_spec w n : 0 <= n < 32 -> negb (OKL4_TEST_BIT w n =? 0) = Z.testbit w n.
Proof.
  intros Hn. unfold OKL4_TEST_BIT. change (u32 (Z.shiftl 1 n)) with (bit32 n).
  assert (Hb : forall p, Z.testbit (Z.land w (bit32 n)) p = Z.testbit w p && (p =? n))
    by (intros p; by rewrite Z.land_spec, testbit_bit32).
  destruct (Z.eqb_spec (Z.land w (bit32 n)) 0) as [Hz|Hz]; simpl.
  - specialize (Hb n). rewrite Hz, Z.bits_0, Z.eqb_refl, andb_true_r in Hb. done.
  - destruct (Z.testbit w n) eqn:E; [done|]. exfalso. apply Hz. apply Z.bits_inj_0. intros p. rewrite Hb.
    destruct (Z.eqb_spec p n) as [->|]; [by rewrite E|apply andb_false_r].
Qed.

Lemma ones_word : WORD_MOD - 1 = Z.ones 32.
Proof. reflexivity. Qed.

Lemma land_1 w : (Z.land w 1 =? 0) = negb (Z.testbit w 0).
Proof.
  change 1 with (Z.ones 1) at 1. rewrite Z.land_ones, Z.bit0_odd by lia. change (2 ^ 1) with 2.
  rewrite Zmod_odd. by destruct (Z.odd w).
Qed.

(** The loop returns the lowest clear bit, or -1 when there is none. *)
Lemma find_first_free_from_spec n i w :
  0 <= i ->
  let r := find_first_free_from n i w in
  (r = -1 /\ forall k, 0 <= k < Z.of_nat n -> Z.testbit w k = true) \/
  (i <= r < i + Z.of_nat n /\ Z.testbit w (r - i) = false /\
   forall k, 0 <= k < r - i -> Z.testbit w k = true).
Proof.
  revert i w. induction n as [|n IH]; intros i w Hi; [left; split; [done|lia]|].
  simpl find_first_free_from. rewrite land_1. destruct (Z.testbit w 0) eqn:E0; simpl.
  - assert (Hsh : forall k, 1 <= k -> Z.testbit w k = Z.testbit (Z.shiftr w 1) (k - 1))
      by (intros k Hk; rewrite Z.shiftr_spec by lia; f_equal; lia).
    destruct (IH (i + 1) (Z.shiftr w 1) ltac:(lia)) as [[Hr H]|(H1 & H2 & H3)]; [left|right].
    + split; [done|]. intros k Hk. destruct (Z.eq_dec k 0) as [->|]; [done|]. rewrite Hsh by lia. apply H. lia.
    + split; [lia|]. split.
      * rewrite Hsh by lia. rewrite <-H2. f_equal. lia.
      * intros k Hk. destruct (Z.eq_dec k 0) as [->|]; [done|]. rewrite Hsh by lia. apply H3. lia.
  - right. split; [lia|]. split; [by rewrite Z.sub_diag|lia].
Qed.

Lemma word_full w : is_word w -> (forall k, 0 <= k < 32 -> Z.testbit w k = true) -> w = WORD_MOD - 1.
Proof.
  intros Hw H. apply Z.bits_inj'. intros k Hk. destruct (Z.lt_ge_cases k 32).
  - rewrite H by lia. rewrite ones_word, Z.ones_spec_low by lia. done.
  - rewrite !word_bits_high; [done| |done|done|done]. by split.
Qed.

(** On a word that is not full the search finds a clear bit. *)
Lemma find_first_free_spec w :
  is_word w -> w <> WORD_MOD - 1 ->
  0 <= find_first_free w < 32 /\ Z.testbit w (find_first_free w) = false.
Proof.
  intros Hw Hne. unfold find_first_free.
  destruct (find_first_free_from_spec 32 0 w ltac:(lia)) as [[_ H]|(H1 & H2 & _)].
  - by destruct Hne; apply word_full.
  - rewrite Z.sub_0_r in H2. split; [lia|done].
Qed.

(** *** Units *)

(** The effect of writing one word on the units. *)
Lemma taken_insert d i w u :
  0 <= u -> (Z.to_nat i < length d)%nat -> 0 <= i ->
  taken (<[Z.to_nat i := w]> d) u =
    if u / 32 =? i then Z.testbit w (u mod 32) else taken d u.
Proof.
  intros Hu Hi Hi0. unfold taken. pose proof (Z.div_pos u 32 Hu ltac:(lia)).
  destruct (Z.eqb_spec (u / 32) i) as [<-|Hne].
  - by rewrite list_lookup_insert_eq.
  - rewrite list_lookup_insert_ne by lia. done.
Qed.

Lemma taken_word d u w : d !! Z.to_nat (u / 32) = Some w -> taken d u = Z.testbit w (u mod 32).
Proof. intros H. unfold taken. by rewrite H. Qed.

(** Setting and clearing the bit of unit [v]. *)
Lemma taken_set d v w u :
  0 <= v -> 0 <= u -> d !! Z.to_nat (v / 32) = Some w ->
  taken (<[Z.to_nat (v / 32) := OKL4_SET_BIT w (v mod 32)]> d) u = taken d u || (u =? v).
Proof.
  intros Hv Hu Hw. pose proof (lookup_lt_Some _ _ _ Hw) as Hl. pose proof (Z.div_pos v 32 Hv ltac:(lia)).
  pose proof (Z.mod_pos_bound v 32). pose proof (Z.div_mod v 32). pose proof (Z.div_mod u 32).
  rewrite taken_insert by done. destruct (Z.eqb_spec (u / 32) (v / 32)) as [He|He].
  - change (OKL4_SET_BIT w (v mod 32)) with (set_bit32 w (v mod 32)).
    rewrite testbit_set_bit32 by lia. rewrite (taken_word d u w) by (by rewrite He). f_equal.
    destruct (Z.eqb_spec (u mod 32) (v mod 32)), (Z.eqb_spec u v); try done; subst; lia.
  - destruct (Z.eqb_spec u v) as [->|]; [done|]. by rewrite orb_false_r.
Qed.

Lemma taken_clear d v w u :
  0 <= v -> 0 <= u -> d !! Z.to_nat (v / 32) = Some w ->
  taken (<[Z.to_nat (v / 32) := OKL4_CLEAR_BIT w (v mod 32)]> d) u = taken d u && negb (u =? v).
Proof.
  intros Hv Hu Hw. pose proof (lookup_lt_Some _ _ _ Hw) as Hl. pose proof (Z.div_pos v 32 Hv ltac:(lia)).
  pose proof (Z.mod_pos_bound v 32). pose proof (Z.mod_pos_bound u 32).
  pose proof (Z.div_mod v 32). pose proof (Z.div_mod u 32).
  rewrite taken_insert by done. destruct (Z.eqb_spec (u / 32) (v / 32)) as [He|He].
  - change (OKL4_CLEAR_BIT w (v mod 32)) with (clear_bit32 w (v mod 32)).
    rewrite testbit_clear_bit32 by lia. rewrite (taken_word d u w) by (by rewrite He). do 2 f_equal.
    destruct (Z.eqb_spec (u mod 32) (v mod 32)), (Z.eqb_spec u v); try done; subst; lia.
  - destruct (Z.eqb_spec u v) as [->|]; [done|]. by rewrite andb_true_r.
Qed.

Lemma wf_lookup a u : wf a -> 0 <= u < size a ->
  exists w, data a !! Z.to_nat (u / 32) = Some w /\ is_word w.
Proof.
  intros Hwf Hu. destruct (lookup_lt_is_Some_2 (data a) (Z.to_nat (u / 32))) as [w Hw].
  - pose proof (wf_len _ Hwf). pose proof (wf_size _ Hwf).
    Z.div_mod_to_equations. lia.
  - exists w. split; [done|]. pose proof (wf_words _ Hwf) as HF. rewrite Forall_lookup in HF. by eapply HF.
Qed.

(** Replacing the word of a unit by one that only differs in that unit. *)
Lemma wf_set_data a v w' :
  wf a -> 0 <= v < size a -> is_word w' ->
  (forall u, size a <= u -> taken (<[Z.to_nat (v / 32) := w']> (data a)) u = taken (data a) u) ->
  wf (set_data (<[Z.to_nat (v / 32) := w']> (data a)) a).
Proof.
  intros Hwf Hv Hw Hs. pose proof Hwf as []. constructor; simpl; try done; rewrite ?length_insert; try done.
  - by apply Forall_insert.
  - intros u Hu. rewrite Hs by done. auto.
Qed.

(** [a'] is [a] with exactly the unit [u] taken (or given back). *)
Record takes (a : allocator) (u : Z) (a' : allocator) : Prop := {
  takes_wf : wf a';
  takes_base : base a' = base a;
  takes_size : size a' = size a;
  takes_units : forall v, base a <= v ->
    taken (data a') (v - base a) = taken (data a) (v - base a) || (v =? u)
}.
Record gives (a : allocator) (u : Z) (a' : allocator) : Prop := {
  gives_wf : wf a';
  gives_base : base a' = base a;
  gives_size : size a' = size a;
  gives_units : forall v, base a <= v ->
    taken (data a') (v - base a) = taken (data a) (v - base a) && negb (v =? u)
}.

Lemma takes_set a g v w :
  wf a -> 0 <= v < size a -> data a !! Z.to_nat (v / 32) = Some w -> is_word w ->
  0 <= g <= Z.of_nat (length (data a)) ->
  takes a (base a + v)
    (set_data (<[Z.to_nat (v / 32) := OKL4_SET_BIT w (v mod 32)]> (data a)) (set_pos_guess g a)).
Proof.
  intros Hwf Hv Hw Hword Hg.
  assert (Hwf' : wf (set_pos_guess g a)) by (destruct Hwf; by constructor).
  constructor; simpl; try done.
  - apply (wf_set_data (set_pos_guess g a)); [done|done|by apply is_word_set_bit32|].
    intros u Hu. simpl in *. rewrite taken_set by (done || lia).
    destruct (Z.eqb_spec u v); [lia|]. apply orb_false_r.
  - intros u Hu. rewrite taken_set by (done || lia). f_equal.
    destruct (Z.eqb_spec (u - base a) v), (Z.eqb_spec u (base a + v)); try done; lia.
Qed.

(** *** Allocation *)

Lemma find_word_spec n i a :
  0 <= i -> (Z.to_nat i + n <= length (data a))%nat ->
  wp (find_word n i) (fun r a' => a' = a /\
    match r with
    | Some j => i <= j < i + Z.of_nat n /\ exists w, data a !! Z.to_nat j = Some w /\ w <> WORD_MOD - 1
    | None => forall j, i <= j < i + Z.of_nat n -> data a !! Z.to_nat j = Some (WORD_MOD - 1)
    end) a.
Proof.
  revert i. induction n as [|n IH]; intros i Hi Hn; simpl.
  - wp_steps. split; [done|lia].
  - destruct (lookup_lt_is_Some_2 (data a) (Z.to_nat i)) as [w Hw]; [lia|].
    wp_steps. eapply wp_index; [lia|done|]. destruct (Z.eqb_spec w (WORD_MOD - 1)) as [->|Hne]; simpl.
    + eapply wp_mono; [apply IH; lia|]. simpl. intros [j|] a' [-> Hr]; (split; [done|]).
      * destruct Hr as [? ?]. split; [lia|done].
      * intros j Hj. destruct (Z.eq_dec i j) as [<-|]; [done|]. apply Hr. lia.
    + wp_steps. split; [done|]. split; [lia|by exists w].
Qed.

(** The two loops find a word with a clear bit if there is one. *)
Lemma find_free_word_spec a words g :
  wf a -> words = Z.of_nat (length (data a)) -> g = pos_guess a ->
  wp (find_free_word words g) (fun r a' => a' = a /\
    match r with
    | Some j => 0 <= j /\ exists w, data a !! Z.to_nat j = Some w /\ w <> WORD_MOD - 1
    | None => forall j, 0 <= j < words -> data a !! Z.to_nat j = Some (WORD_MOD - 1)
    end) a.
Proof.
  intros Hwf -> ->. pose proof (wf_guess _ Hwf) as Hg. unfold find_free_word. wp_step.
  eapply wp_mono; [apply find_word_spec; lia|]. simpl. intros [j|] a' [-> Hr].
  - wp_steps. split; [done|]. destruct Hr as [? ?]. split; [lia|done].
  - eapply wp_mono; [apply find_word_spec; lia|]. simpl. intros [j|] a' [-> Hr']; (split; [done|]).
    + destruct Hr' as [? ?]. split; [lia|done].
    + intros j Hj. destruct (Z.lt_ge_cases j (pos_guess a)); [apply Hr'|apply Hr]; lia.
Qed.

Lemma wf_bitmap_words a : wf a -> u32 (size a + OKL4_WORD_T_BIT - 1) / OKL4_WORD_T_BIT = Z.of_nat (length (data a)).
Proof.
  intros Hwf. pose proof Hwf as []. unfold OKL4_WORD_T_BIT. rewrite u32_word.
  - rewrite wf_len0. f_equal. lia.
  - unfold is_word. lia.
Qed.

Lemma anonymous_allocation_spec a item :
  wf a ->
  wp (anonymous_allocation item) (fun r a' =>
    (exists u, r = (OKL4_OK, u) /\ available a u /\ takes a u a') \/
    (r = (OKL4_ALLOC_EXHAUSTED, item) /\ a' = a /\ forall u, ~ available a u)) a.
Proof.
  intros Hwf. unfold anonymous_allocation. do 2 (wp_step; apply wp_gets; cbn beta).
  rewrite (wf_bitmap_words _ Hwf). cbv zeta. wp_step.
  eapply wp_mono; [by apply find_free_word_spec|]. simpl. intros [j|] a' [-> Hr].
  - destruct Hr as (Hj & w & Hw & Hne). pose proof (wf_words _ Hwf) as HF. rewrite Forall_lookup in HF.
    pose proof (HF _ _ Hw) as Hword. destruct (find_first_free_spec w Hword Hne) as [Hp Hbit].
    pose proof (lookup_lt_Some _ _ _ Hw) as Hl.
    wp_steps. eapply wp_index; [done|done|]. cbv zeta.
    set (p := find_first_free w) in *. set (v := j * 32 + p).
    assert (Hdiv : v / 32 = j) by (unfold v; Z.div_mod_to_equations; lia).
    assert (Hmod : v mod 32 = p) by (unfold v; Z.div_mod_to_equations; lia).
    assert (Htk : taken (data a) v = false).
    { rewrite (taken_word _ _ w); [by rewrite Hmod|by rewrite Hdiv]. }
    assert (Hin : 0 <= v < size a).
    { split; [lia|]. destruct (Z.lt_ge_cases v (size a)) as [|Hge]; [done|].
      by rewrite (wf_spare _ Hwf _ Hge) in Htk. }
    wp_steps; [apply Z.leb_le; lia|]. apply wp_index_set; [simpl; lia|]. wp_steps. simpl. left.
    pose proof Hwf as []. exists (base a + v). unfold OKL4_WORD_T_BIT. split_and!.
    + f_equal. fold v. rewrite u32_word; [lia|]. unfold is_word. lia.
    + split; [lia|]. by replace (base a + v - base a) with v by lia.
    + pose proof (takes_set a j v w Hwf Hin) as Ht. rewrite Hdiv, Hmod in Ht. apply Ht; [done|done|lia].
  - simpl. right. split_and!; [done|done|]. intros u [Hu Htk].
    destruct (wf_lookup a (u - base a) Hwf ltac:(lia)) as (w & Hw & _).
    rewrite (taken_word _ _ w Hw) in Htk. rewrite Hr in Hw.
    + injection Hw as <-. rewrite ones_word, Z.ones_spec_low in Htk; [done|].
      Z.div_mod_to_equations. lia.
    + pose proof (lookup_lt_Some _ _ _ Hw). Z.div_mod_to_equations. lia.
Qed.

(** *** Operations on a given unit *)

(** The range test of the code. *)
Lemma range_test a item :
  wf a -> (item <? base a) || (u32 (base a + size a) <=? item) = false <-> base a <= item < base a + size a.
Proof.
  intros []. rewrite u32_word by (unfold is_word; lia).
  destruct (Z.ltb_spec item (base a)), (Z.leb_spec (base a + size a) item); simpl; split; (lia || done).
Qed.

Lemma unit_offset a item : wf a -> base a <= item < base a + size a -> u32 (item - base a) = item - base a.
Proof. intros [] Hi. apply u32_word. unfold is_word. lia. Qed.

Lemma named_allocation_spec a item :
  wf a -> 0 <= item ->
  wp (named_allocation item) (fun r a' =>
    (r = (OKL4_OK, item) /\ available a item /\ takes a item a') \/
    (r = (OKL4_IN_USE, item) /\ allocated a item /\ a' = a) \/
    (r = (OKL4_OUT_OF_RANGE, item) /\ ~ base a <= item < base a + size a /\ a' = a)) a.
Proof.
  intros Hwf Hi. unfold named_allocation. do 2 (wp_step; apply wp_gets; cbn beta).
  pose proof (range_test a item Hwf) as Hr.
  destruct ((item <? base a) || (u32 (base a + size a) <=? item)).
  - wp_steps. right. right. split_and!; [done| |done]. rewrite <-Hr. done.
  - assert (Hrange : base a <= item < base a + size a) by (by apply Hr). cbv zeta.
    rewrite (unit_offset a item Hwf Hrange). set (v := item - base a). unfold OKL4_WORD_T_BIT.
    destruct (wf_lookup a v Hwf ltac:(lia)) as (w & Hw & Hword).
    assert (Hv : 0 <= v) by lia. pose proof (Z.div_pos v 32 Hv ltac:(lia)).
    wp_steps. eapply wp_index; [done|done|]. rewrite test_bit_spec by (Z.div_mod_to_equations; lia).
    rewrite <-(taken_word _ _ w Hw). destruct (taken (data a) v) eqn:Et.
    + wp_steps. right. left. by split_and!.
    + wp_steps. apply wp_index_set; [apply lookup_lt_Some in Hw; lia|]. wp_steps. left. split_and!; [done|done|].
      pose proof (takes_set a (pos_guess a) v w Hwf ltac:(lia) Hw Hword (wf_guess _ Hwf)) as Ht.
      replace (base a + v) with item in Ht by lia. by destruct a.
Qed.

Lemma free_spec a item :
  wf a -> base a <= item < base a + size a ->
  wp (okl4_bitmap_allocator_free item) (fun _ a' => gives a item a') a.
Proof.
  intros Hwf Hr. unfold okl4_bitmap_allocator_free. do 2 (wp_step; apply wp_gets; cbn beta).
  pose proof Hwf as [Hb Hs Hrg _ _ _ _ _]. wp_steps.
  { apply Z.leb_le. lia. } { apply Z.ltb_lt. rewrite u32_word by (unfold is_word; lia). lia. }
  rewrite (unit_offset a item Hwf Hr). set (v := item - base a). unfold OKL4_WORD_T_BIT.
  destruct (wf_lookup a v Hwf ltac:(lia)) as (w & Hw & Hword).
  assert (Hv : 0 <= v) by lia. pose proof (Z.div_pos v 32 Hv ltac:(lia)).
  eapply wp_index; [done|done|]. wp_steps. apply wp_index_set; [apply lookup_lt_Some in Hw; lia|]. wp_steps.
  constructor; simpl; try done.
  - apply wf_set_data; [done|lia|by apply is_word_clear_bit32|]. intros u Hu. rewrite taken_clear by (done || lia).
    destruct (Z.eqb_spec u v); [lia|]. apply andb_true_r.
  - intros u Hu. rewrite taken_clear by (done || lia). do 2 f_equal.
    destruct (Z.eqb_spec (u - base a) v), (Z.eqb_spec u item); try done; lia.
Qed.

Lemma isallocated_spec a item :
  wf a ->
  wp (okl4_bitmap_allocator_isallocated item) (fun r a' => a' = a /\
    ((r = 1 /\ allocated a item) \/ (r = 0 /\ available a item) \/
     (r = OKL4_OUT_OF_RANGE /\ ~ base a <= item < base a + size a))) a.
Proof.
  intros Hwf. unfold okl4_bitmap_allocator_isallocated. do 2 (wp_step; apply wp_gets; cbn beta).
  pose proof (range_test a item Hwf) as Hr.
  destruct ((item <? base a) || (u32 (base a + size a) <=? item)).
  - wp_steps. split; [done|]. right. right. split; [done|]. rewrite <-Hr. done.
  - assert (Hrange : base a <= item < base a + size a) by (by apply Hr). cbv zeta.
    rewrite (unit_offset a item Hwf Hrange). set (v := item - base a). unfold OKL4_WORD_T_BIT.
    destruct (wf_lookup a v Hwf ltac:(lia)) as (w & Hw & Hword).
    wp_steps. eapply wp_index; [apply Z.div_pos; lia|done|].
    rewrite test_bit_spec by (Z.div_mod_to_equations; lia).
    rewrite <-(taken_word _ _ w Hw). destruct (taken (data a) v) eqn:Et; wp_steps; (split; [done|]).
    + left. by split_and!.
    + right. left. by split_and!.
Qed.

(** *** Initialisation *)

Lemma clear_words_spec n i a :
  0 <= i -> (Z.to_nat i + n <= length (data a))%nat ->
  wp (clear_words n i) (fun _ a' => exists d, a' = set_data d a /\ length d = length (data a) /\
    (forall j, i <= j < i + Z.of_nat n -> d !! Z.to_nat j = Some 0) /\
    (forall j, 0 <= j < i -> d !! Z.to_nat j = data a !! Z.to_nat j)) a.
Proof.
  revert i a. induction n as [|n IH]; intros i a Hi Hn; simpl.
  - wp_steps. exists (data a). split_and!; [by destruct a|done|lia|done].
  - wp_steps. apply wp_index_set; [lia|]. wp_steps.
    eapply wp_mono; [apply IH; simpl; rewrite ?length_insert; lia|]. simpl.
    intros _ a' (d & -> & Hl & H1 & H2). exists d. rewrite length_insert in Hl. split_and!; [done|done| |].
    + intros j Hj. destruct (Z.eq_dec j i) as [->|]; [|apply H1; lia].
      rewrite H2 by lia. rewrite list_lookup_insert_eq by lia. done.
    + intros j Hj. rewrite H2 by lia. by rewrite list_lookup_insert_ne by lia.
Qed.

(** The last word after the spare bits are set. *)
Lemma spare_word o k :
  0 < o < 32 -> 0 <= k < 32 ->
  Z.testbit (u32 (Z.shiftl (WORD_MOD - 1) (32 - o))) k = (32 - o <=? k).
Proof.
  intros Ho Hk. unfold u32, WORD_MOD. rewrite Z.mod_pow2_bits_low by lia.
  rewrite Z.shiftl_spec by lia. change (2 ^ 32 - 1) with (Z.ones 32).
  destruct (Z.leb_spec (32 - o) k).
  - apply Z.ones_spec_low. lia.
  - apply Z.testbit_neg_r. lia.
Qed.

Lemma init_spec a attr :
  0 < attr_size attr -> attr_size attr + 31 < WORD_MOD ->
  0 <= attr_base attr <= OKL4_ALLOC_ANONYMOUS ->
  (attr_base attr = OKL4_ALLOC_ANONYMOUS \/ attr_base attr + attr_size attr < WORD_MOD) ->
  Z.of_nat (length (data a)) = (attr_size attr + 31) / 32 ->
  wp (okl4_bitmap_allocator_init attr) (fun _ a' => wf a' /\ size a' = attr_size attr /\
    base a' = (if attr_base attr =? OKL4_ALLOC_ANONYMOUS then 0 else attr_base attr) /\
    forall u, base a' <= u < base a' + size a' -> available a' u) a.
Proof.
  intros Hs Hs31 Hb Hr Hlen. unfold okl4_bitmap_allocator_init. set (sz := attr_size attr) in *.
  set (bs := if attr_base attr =? OKL4_ALLOC_ANONYMOUS then 0 else attr_base attr).
  assert (Hbs : 0 <= bs /\ bs + sz < WORD_MOD).
  { unfold bs. destruct (Z.eqb_spec (attr_base attr) OKL4_ALLOC_ANONYMOUS); lia. }
  wp_step. wp_step; [by apply Z.ltb_lt|]. wp_steps. simpl. unfold OKL4_WORD_T_BIT.
  assert (Hw : (sz - 1) / 32 + 1 = (sz + 31) / 32) by (Z.div_mod_to_equations; lia). rewrite Hw.
  eapply wp_mono; [apply clear_words_spec; simpl; lia|]. simpl. intros _ a' (d & -> & Hl & Hz & _).
  simpl in Hl. set (n := (sz + 31) / 32) in *.
  assert (Hn : n * 32 - 32 < sz <= n * 32) by (unfold n; Z.div_mod_to_equations; lia).
  assert (Hov : u32 (u32 (n * 32) - sz) = n * 32 - sz).
  { destruct (Z.eq_dec (n * 32) WORD_MOD) as [He|He].
    - lia.
    - rewrite (u32_word (n * 32)); [|unfold is_word; lia]. apply u32_word. unfold is_word, WORD_MOD. lia. }
  rewrite Hov. wp_steps; [apply Z.ltb_lt; lia|].
  assert (Hfree : forall u, 0 <= u < n * 32 -> taken d u = false).
  { intros u Hu. rewrite (taken_word d u 0); [apply Z.bits_0|]. apply Hz. Z.div_mod_to_equations. lia. }
  assert (Hwords : Forall is_word d).
  { apply Forall_lookup. intros k w Hk. rewrite <-(Nat2Z.id k), Hz in Hk;
      [injection Hk as <-; by split|apply lookup_lt_Some in Hk; lia]. }
  assert (Hbeyond : forall d', length d' = length d -> forall u, n * 32 <= u -> taken d' u = true).
  { intros d' Hd' u Hu. unfold taken. rewrite (lookup_ge_None_2 d'); [done|]. Z.div_mod_to_equations. lia. }
  destruct (Z.eqb_spec (n * 32 - sz) 0) as [Ho|Ho].
  - wp_steps. simpl. split_and!; [|done|done|].
    + constructor; simpl; try done; try lia. intros u Hu. apply Hbeyond; [done|lia].
    + intros u Hu. split; [done|]. apply Hfree. simpl. lia.
  - wp_steps. eapply wp_index; [lia|apply Hz; lia|]. wp_steps. apply wp_index_set; [simpl; lia|]. wp_steps. simpl.
    rewrite Z.lor_0_l. set (w' := u32 (Z.shiftl (WORD_MOD - 1) (32 - (n * 32 - sz)))).
    assert (Htk : forall u, 0 <= u < n * 32 -> taken (<[Z.to_nat (n - 1) := w']> d) u = (sz <=? u)).
    { intros u Hu. rewrite taken_insert by lia. destruct (Z.eqb_spec (u / 32) (n - 1)).
      - unfold w'. rewrite spare_word by (Z.div_mod_to_equations; lia).
        destruct (Z.leb_spec (32 - (n * 32 - sz)) (u mod 32)), (Z.leb_spec sz u); try done; Z.div_mod_to_equations; lia.
      - rewrite Hfree by done. symmetry. apply Z.leb_gt. Z.div_mod_to_equations. lia. }
    split_and!; [|done|done|].
    + constructor; simpl; rewrite ?length_insert; try done; try lia.
      * apply Forall_insert; [done|apply is_word_u32].
      * intros u Hu. destruct (Z.lt_ge_cases u (n * 32)).
        -- rewrite Htk by lia. by apply Z.leb_le.
        -- apply Hbeyond; [by rewrite length_insert|done].
    + intros u Hu. split; [done|]. simpl. rewrite Htk by lia. apply Z.leb_gt. lia.
Qed.

(** A unit that is taken and given back. *)
Lemma takes_gives a u a1 a2 :
  available a u -> takes a u a1 -> gives a1 u a2 ->
  forall w, (allocated a2 w <-> allocated a w) /\ (available a2 w <-> available a w).
Proof.
  intros [Hr Ht] [Hwf1 Hb1 Hs1 Hu1] [Hwf2 Hb2 Hs2 Hu2] w. rewrite Hb1 in *.
  assert (Hsame : base a <= w -> taken (data a2) (w - base a) = taken (data a) (w - base a)).
  { intros Hw. rewrite Hu2, Hu1 by done. destruct (Z.eqb_spec w u) as [->|]; simpl.
    - by rewrite Ht, andb_false_r.
    - by rewrite orb_false_r, andb_true_r. }
  unfold allocated, available. rewrite Hb2, Hs2, Hs1.
  split; (split; intros [Hrg Htk]; (split; [done|]); [rewrite <-Hsame|rewrite Hsame]; (done || lia)).
Qed.

End Bitmap.

(** ** Properties *)

Section bitmap_properties.
Import Bitmap.

(** C27: allocation: an anonymous request gets a unit that was available
    whenever there is one, a named request gets exactly its unit; success
    takes that unit and no other; the three errors are reported exactly when
    no unit is available, the unit is taken, or it is out of range, and
    change nothing. *)
Theorem bitmap_alloc_correct a item :
  wf a -> 0 <= item ->
  wp (okl4_bitmap_allocator_alloc item) (fun r a' =>
    let '(rc, u) := r in
    (rc = OKL4_OK /\ available a u /\ takes a u a' /\ (item <> OKL4_ALLOC_ANONYMOUS -> u = item)) \/
    (a' = a /\ u = item /\
      ((rc = OKL4_ALLOC_EXHAUSTED /\ item = OKL4_ALLOC_ANONYMOUS /\ forall v, ~ available a v) \/
       (rc = OKL4_IN_USE /\ item <> OKL4_ALLOC_ANONYMOUS /\ allocated a item) \/
       (rc = OKL4_OUT_OF_RANGE /\ item <> OKL4_ALLOC_ANONYMOUS /\ ~ base a <= item < base a + size a)))) a.
Proof.
  intros Hwf Hi. unfold okl4_bitmap_allocator_alloc.
  destruct (Z.eqb_spec item OKL4_ALLOC_ANONYMOUS) as [He|Hne]; simpl.
  - eapply wp_mono; [by apply anonymous_allocation_spec|]. simpl.
    intros [rc u] a' [(u' & [= -> ->] & Ha & Ht)|([= -> ->] & -> & Hn)].
    + left. by split_and!.
    + right. split_and!; [done|done|]. left. by split_and!.
  - eapply wp_mono; [by apply named_allocation_spec|]. simpl.
    intros [rc u] a' [([= -> ->] & Ha & Ht)|[([= -> ->] & Ha & ->)|([= -> ->] & Hr & ->)]].
    + left. by split_and!.
    + right. split_and!; [done|done|]. right. left. by split_and!.
    + right. split_and!; [done|done|]. right. right. by split_and!.
Qed.

Lemma alloc_free_spec a v :
  wf a -> available a v ->
  wp (let! r := okl4_bitmap_allocator_alloc okl4_bitmap_item_setany in
      do! okl4_bitmap_allocator_free (snd r) in ret r)
     (fun r a' => fst r = OKL4_OK /\ wf a' /\ forall u, (allocated a' u <-> allocated a u) /\
                                                (available a' u <-> available a u)) a.
Proof.
  intros Hwf Hv. wp_step. unfold okl4_bitmap_allocator_alloc, okl4_bitmap_item_setany. rewrite Z.eqb_refl.
  eapply wp_mono; [by apply anonymous_allocation_spec|]. simpl.
  intros [rc u] a1 [(u' & [= -> ->] & Ha & Ht)|(_ & _ & Hn)]; [|by destruct (Hn v)]. pose proof Ht as [Hwf1 Hb1 Hs1 _].
  wp_step. eapply wp_mono; [apply free_spec; [done|rewrite Hb1, Hs1; apply Ha]|]. simpl.
  intros _ a2 Hg. wp_steps. split_and!; [done|apply Hg|]. by eapply takes_gives.
Qed.

(** C28: initialisation gives an empty allocator of the requested range, well
    formed, with every unit of the range available; and from any well-formed
    state, a unit that is allocated and freed again leaves every unit as it
    was. *)
Theorem bitmap_alloc_free_roundtrip a attr :
  0 < attr_size attr -> attr_size attr + 31 < WORD_MOD ->
  0 <= attr_base attr <= OKL4_ALLOC_ANONYMOUS ->
  (attr_base attr = OKL4_ALLOC_ANONYMOUS \/ attr_base attr + attr_size attr < WORD_MOD) ->
  Z.of_nat (length (data a)) = (attr_size attr + 31) / 32 ->
  wp (okl4_bitmap_allocator_init attr) (fun _ a' => wf a' /\ size a' = attr_size attr /\
    base a' = (if attr_base attr =? OKL4_ALLOC_ANONYMOUS then 0 else attr_base attr) /\
    forall u, base a' <= u < base a' + size a' -> available a' u) a /\
  (forall b v, wf b -> available b v ->
    wp (let! r := okl4_bitmap_allocator_alloc okl4_bitmap_item_setany in
        do! okl4_bitmap_allocator_free (snd r) in ret r)
       (fun r b' => fst r = OKL4_OK /\ wf b' /\ forall u, (allocated b' u <-> allocated b u) /\
                                                  (available b' u <-> available b u)) b).
Proof. intros. split; [by apply init_spec|exact alloc_free_spec]. Qed.

End bitmap_properties.

(** *** Witnesses: an allocator of the 40 units from 100 on *)

Module BitmapDemo.
Import Bitmap.
Definition attr : allocator_attr := AllocatorAttr 100 40.
Definition raw : allocator := Allocator 0 0 0 [77; 78].
Definition fresh : allocator := match okl4_bitmap_allocator_init attr raw with Done _ a => a | Crash _ => raw end.

Lemma fresh_wf : wf fresh.
Proof.
  pose proof (init_spec raw attr) as H. unfold wp in H. unfold fresh.
  destruct (okl4_bitmap_allocator_init attr raw) as [[] a|] eqn:E.
  - apply H; unfold WORD_MOD, OKL4_ALLOC_ANONYMOUS; simpl; unfold WORD_MOD; lia || (right; lia) || done.
  - exfalso. apply H; unfold WORD_MOD, OKL4_ALLOC_ANONYMOUS; simpl; unfold WORD_MOD; lia || (right; lia) || done.
Qed.
End BitmapDemo.

Lemma bitmap_alloc_correct_witness :
  wp (Bitmap.okl4_bitmap_allocator_alloc 105) (fun r a' =>
    let '(rc, u) := r in
    (rc = OKL4_OK /\ Bitmap.available BitmapDemo.fresh u /\ Bitmap.takes BitmapDemo.fresh u a' /\
       (105 <> OKL4_ALLOC_ANONYMOUS -> u = 105)) \/
    (a' = BitmapDemo.fresh /\ u = 105 /\
      ((rc = OKL4_ALLOC_EXHAUSTED /\ 105 = OKL4_ALLOC_ANONYMOUS /\ forall v, ~ Bitmap.available BitmapDemo.fresh v) \/
       (rc = OKL4_IN_USE /\ 105 <> OKL4_ALLOC_ANONYMOUS /\ Bitmap.allocated BitmapDemo.fresh 105) \/
       (rc = OKL4_OUT_OF_RANGE /\ 105 <> OKL4_ALLOC_ANONYMOUS /\
          ~ Bitmap.base BitmapDemo.fresh <= 105 < Bitmap.base BitmapDemo.fresh + Bitmap.size BitmapDemo.fresh))))
    BitmapDemo.fresh.
Proof. apply (bitmap_alloc_correct BitmapDemo.fresh 105); [exact BitmapDemo.fresh_wf|lia]. Defined.

Lemma bitmap_alloc_free_roundtrip_witness :
  wp (Bitmap.okl4_bitmap_allocator_init BitmapDemo.attr) (fun _ a' => Bitmap.wf a' /\ Bitmap.size a' = 40 /\
    Bitmap.base a' = 100 /\
    forall u, Bitmap.base a' <= u < Bitmap.base a' + Bitmap.size a' -> Bitmap.available a' u) BitmapDemo.raw /\
  wp (let! r := Bitmap.okl4_bitmap_allocator_alloc Bitmap.okl4_bitmap_item_setany in
      do! Bitmap.okl4_bitmap_allocator_free (snd r) in ret r)
     (fun r a' => fst r = OKL4_OK /\ Bitmap.wf a' /\
        forall u, (Bitmap.allocated a' u <-> Bitmap.allocated BitmapDemo.fresh u) /\
                  (Bitmap.available a' u <-> Bitmap.available BitmapDemo.fresh u)) BitmapDemo.fresh.
Proof.
  destruct (bitmap_alloc_free_roundtrip BitmapDemo.raw BitmapDemo.attr) as [Hi Hr];
    [unfold OKL4_ALLOC_ANONYMOUS, WORD_MOD; simpl; lia || reflexivity || (right; lia)..|].
  split; [exact Hi|]. apply (Hr BitmapDemo.fresh 139 BitmapDemo.fresh_wf).
  split; [vm_compute; split; [discriminate|reflexivity]|reflexivity].
Defined.
