(* ===== verification/UserLib.v ===== *)
(** * The okl4 library on the nanokernel: messages, threads, interrupts

    Models [libs/okl4/src/nano]: [message_*.c], [notify_*.c], [kthread_*.c],
    [pd_thread_*.c] and [irqset_*.c], with the system call bindings of
    [arch/arm/libs/nano/include/nano.h].

    A call of the library runs to its end, or to a system call: then it has
    loaded registers of its thread and waits for the registers that the
    kernel gives back when the thread runs again.  [S] is the memory of the
    library that the call works on. *)

From S2P Require Import Prelude NanoState NanoSchedule NanoSyscalls NanoKernel BitmapAlloc.
#[local] Open Scope Z_scope.

Definition OKL4_INVALID_ARGUMENT : Z := -2.

(** ** Library calls *)

Section calls.
Context {S A : Type}.

Inductive call : Type :=
| Returns (a : A) (s : S)
| Faults (f : fault)
| Traps (load : list (nat * Z)) (e : event) (resume : list Z -> call).

End calls.
Arguments call : clear implicits.

Definition U (S A : Type) : Type := S -> call S A.

Section bind.
Context {S A B : Type} (f : A -> U S B).

Fixpoint call_bind (c : call S A) : call S B :=
  match c with
  | Returns a s => f a s
  | Faults x => Faults x
  | Traps load e k => Traps load e (fun regs => call_bind (k regs))
  end.

End bind.
Definition ubind {S A B} (m : U S A) (f : A -> U S B) : U S B := fun s => call_bind f (m s).
Definition uret {S A} (a : A) : U S A := fun s => Returns a s.
Definition ufault {S A} (f : fault) : U S A := fun _ => Faults f.
Definition uget {S} : U S S := fun s => Returns s s.
Definition uput {S} (s : S) : U S unit := fun _ => Returns tt s.
Definition uassert {S} (b : bool) : U S unit := if b then uret tt else ufault AssertionFailed.
Definition udemand {S A} (f : fault) (x : option A) : U S A := match x with Some a => uret a | None => ufault f end.

Declare Scope user_scope.
Delimit Scope user_scope with user.
Notation "'let*' x := m 'in' f" := (ubind m (fun x => f))
  (at level 200, x name, m at level 100, f at level 200, right associativity) : user_scope.
Notation "'let*' ' p := m 'in' f" := (ubind m (fun p => f))
  (at level 200, p strict pattern, m at level 100, f at level 200, right associativity) : user_scope.
Notation "'do*' m 'in' f" := (ubind m (fun _ => f))
  (at level 200, m at level 100, f at level 200, right associativity) : user_scope.
#[local] Open Scope user_scope.

(** A system call: the registers it loads, and the registers it comes back
    with. *)
Definition syscall {S} (load : list (nat * Z)) (e : event) : U S (list Z) :=
  fun s => Traps load e (fun regs => Returns regs s).
Definition reg (regs : list Z) (i : nat) : Z := default 0 (regs !! i).
(** One with its arguments in r0, r1, ... and its result in r0: a word, or an
    [int]. *)
Definition syscall_word {S} (args : list Z) (e : event) : U S Z :=
  let* regs := syscall (imap (fun i v => (i, v)) args) e in uret (reg regs 0).
Definition syscall_int {S} (args : list Z) (e : event) : U S Z :=
  let* r := syscall_word args e in uret (s32 r).

(** ** On the kernel

    The thread that runs loads its registers and enters the kernel. *)
Definition load_regs (load : list (nat * Z)) (t : tcb) : tcb := foldl (fun t iv => set_reg iv.1 iv.2 t) t load.
Definition trap `{NanoConfig} (load : list (nat * Z)) (e : event) : K unit :=
  (let! c := gets current_tcb in
   do! wr c (load_regs load) in
   exec e)%cmonad.

(** ** Messages *)

Module Msg.
Section message.
Context {S : Type}.

Definition IPC_NUM_MRS : nat := 7.
Definition OKL4_MESSAGE_MAX_SIZE : nat := 27.

Definition OKN_IPC_BLOCKING : Z := 0.
Definition OKN_IPC_NON_BLOCKING : Z := 1.
Definition OKN_IPC_SEND_ONLY : Z := 0.
Definition OKN_IPC_CALL : Z := 2.
Definition OKN_IPC_OPEN_WAIT : Z := u32 (-1).

(** A buffer of the caller: its address and its bytes. *)
Record buffer : Type := Buffer { b_addr : Z; b_bytes : list Z }.

(** The union of message registers and bytes: a word is four bytes, the
    least significant first. *)
Definition word_of (b : list Z) : Z :=
  match b with
  | [b0; b1; b2; b3] => b0 + 256 * b1 + 65536 * b2 + 16777216 * b3
  | _ => 0
  end.
Definition bytes_of (w : Z) : list Z :=
  [w mod 256; (w / 256) mod 256; (w / 65536) mod 256; (w / 16777216) mod 256].
Definition mr (u : list Z) (i : nat) : Z := word_of (take 4 (drop (4 * i) u)).
Definition union_of (mrs : list Z) : list Z := mrs ≫= bytes_of.

(** [message_helpers.c]; [None] when it leaves one of the two objects. *)
Fixpoint _okl4_copy_memory (bytes : nat) (d s : list Z) : option (list Z) :=
  match bytes, d, s with
  | O, _, _ => Some d
  | Datatypes.S n, _ :: d', b :: s' => match _okl4_copy_memory n d' s' with Some r => Some (b :: r) | None => None end
  | _, _, _ => None
  end.

(** The bindings. *)
Definition okn_syscall_ipc_send (u : list Z) (dest operation : Z) : U S Z :=
  let* regs := syscall [(1%nat, mr u 1); (2%nat, mr u 2); (3%nat, mr u 3); (4%nat, mr u 4); (5%nat, mr u 5);
                        (6%nat, mr u 6); (7%nat, mr u 0); (8%nat, dest); (9%nat, operation)]
                       (SysIpcSend dest operation) in
  uret (reg regs 0).
Definition mrs_of (regs : list Z) : list Z :=
  [reg regs 7; reg regs 1; reg regs 2; reg regs 3; reg regs 4; reg regs 5; reg regs 6].
Definition okn_syscall_ipc_recv (dest operation : Z) : U S (Z * list Z * Z) :=
  let* regs := syscall [(0%nat, dest); (1%nat, operation)] (SysIpcRecv dest operation) in
  uret (if reg regs 0 =? u32 (-1) then -1 else 0, union_of (mrs_of regs), reg regs 0).
Definition okn_syscall_ipc_call (u : list Z) (dest operation : Z) : U S (Z * list Z) :=
  let op := Z.lor operation OKN_IPC_CALL in
  let* regs := syscall [(1%nat, mr u 1); (2%nat, mr u 2); (3%nat, mr u 3); (4%nat, mr u 4); (5%nat, mr u 5);
                        (6%nat, mr u 6); (7%nat, mr u 0); (8%nat, dest); (9%nat, op)]
                       (SysIpcSend dest op) in
  uret (if reg regs 0 =? u32 (-1) then -1 else 0, union_of (mrs_of regs)).

(** The message that is sent: zeroes, the size in the last byte, the bytes. *)
Definition pack (buff : buffer) (buff_size : nat) : U S (list Z) :=
  do* uassert (b_addr buff mod 4 =? 0) in
  let u := replicate (4 * IPC_NUM_MRS) 0 in
  let u := <[OKL4_MESSAGE_MAX_SIZE := Z.of_nat buff_size]> u in
  udemand InvalidPointer (_okl4_copy_memory buff_size u (b_bytes buff)).

Definition send (dest : Z) (buff : buffer) (buff_size : nat) (blocking : bool) : U S Z :=
  do* uassert (buff_size <=? OKL4_MESSAGE_MAX_SIZE)%nat in
  do* uassert (negb (b_addr buff =? 0) || (buff_size =? 0)%nat) in
  let* u := pack buff buff_size in
  let* result := okn_syscall_ipc_send u dest
    (Z.lor OKN_IPC_SEND_ONLY (if blocking then OKN_IPC_BLOCKING else OKN_IPC_NON_BLOCKING)) in
  uret (if negb (result =? 0) then OKL4_INVALID_ARGUMENT else OKL4_OK).

Definition okl4_message_send dest buff buff_size := send dest buff buff_size true.
Definition okl4_message_trysend dest buff buff_size := send dest buff buff_size false.
Definition okl4_message_reply dest buff buff_size := send dest buff buff_size false.

(** What is copied out of a message: the caller's buffer afterwards, and the
    number of bytes the sender sent. *)
Definition unpack (u : list Z) (recv : buffer) (recv_size : nat) : U S (list Z * Z) :=
  let* bytes := udemand IndexOutOfBounds (u !! OKL4_MESSAGE_MAX_SIZE) in
  let* out := udemand InvalidPointer (_okl4_copy_memory (Nat.min recv_size (Z.to_nat bytes)) (b_bytes recv) u) in
  uret (out, bytes).

(** The result, the buffer, and through the pointers (when they are not
    NULL) the number of bytes and the sender. *)
Definition okl4_message_wait (recv : buffer) (recv_size : nat) (recv_bytes reply_cap : bool) : U S (Z * list Z * option Z * option Z) :=
  do* uassert (recv_size <=? OKL4_MESSAGE_MAX_SIZE)%nat in
  do* uassert (negb (b_addr recv =? 0) || (recv_size =? 0)%nat) in
  let* '(_, u, sender) := okn_syscall_ipc_recv OKN_IPC_OPEN_WAIT 0 in
  let* '(out, bytes) := unpack u recv recv_size in
  uret (OKL4_OK, out, if recv_bytes then Some bytes else None, if reply_cap then Some sender else None).

Definition send_wait (dest : Z) (buff : buffer) (buff_size : nat) (recv : buffer) (recv_size : nat)
    (recv_bytes blocking_send : bool) : U S (Z * list Z * option Z) :=
  do* uassert (buff_size <=? OKL4_MESSAGE_MAX_SIZE)%nat in
  do* uassert (negb (b_addr buff =? 0) || (buff_size =? 0)%nat) in
  do* uassert (recv_size <=? OKL4_MESSAGE_MAX_SIZE)%nat in
  do* uassert (negb (b_addr recv =? 0) || (recv_size =? 0)%nat) in
  let* u := pack buff buff_size in
  let* '(result, u) := okn_syscall_ipc_call u dest (if blocking_send then OKN_IPC_BLOCKING else OKN_IPC_NON_BLOCKING) in
  if negb (result =? 0) then uret (OKL4_INVALID_ARGUMENT, b_bytes recv, None)
  else
    let* '(out, bytes) := unpack u recv recv_size in
    uret (OKL4_OK, out, if recv_bytes then Some bytes else None).

Definition okl4_message_call dest buff buff_size recv recv_size recv_bytes :=
  send_wait dest buff buff_size recv recv_size recv_bytes true.

Definition okl4_message_replywait (dest : Z) (buff : buffer) (buff_size : nat) (recv : buffer) (recv_size : nat)
    (recv_bytes reply_cap : bool) : U S (Z * list Z * option Z * option Z) :=
  let* error := okl4_message_reply dest buff buff_size in
  if negb (error =? 0) then uret (error, b_bytes recv, None, None)
  else okl4_message_wait recv recv_size recv_bytes reply_cap.

(** ** Notification *)

Definition okl4_notify_poll (mask : Z) : U S Z :=
  syscall_word [mask] (SysSignalPoll mask).
Definition okl4_notify_wait (mask : Z) : U S Z :=
  syscall_word [mask] (SysSignalWait mask).
Definition okl4_notify_send (dest bits : Z) : U S Z :=
  let* result := syscall_int [dest; bits] (SysSignalSend dest bits) in
  uret (if result <? 0 then OKL4_INVALID_ARGUMENT else OKL4_OK).

End message.
End Msg.

(** ** Threads *)

Module Thr.

(** [okl4_kthread_t]; NULL is 0. *)
Record kthread : Type := Kthread { cap : Z; sp : Z; ip : Z; kpriority : Z; knext : Z }.
Record kthread_attr : Type := KthreadAttr { attr_sp : Z; attr_ip : Z; attr_priority : Z }.

Definition okl4_kthread_attr_init : kthread_attr := KthreadAttr (u32 (-1)) (u32 (-1)) 0.
Definition okl4_kthread_attr_setspip (attr : kthread_attr) (sp ip : Z) : kthread_attr := KthreadAttr sp ip (attr_priority attr).
Definition okl4_kthread_attr_setpriority (attr : kthread_attr) (p : Z) : kthread_attr := KthreadAttr (attr_sp attr) (attr_ip attr) p.

Section threads.
(** The address of [thread_entry_point]. *)
Context (thread_entry_point_addr : Z).

(** The code a new thread starts with; it ends in a jump to the result. *)
Definition thread_entry_point (kthread_struct : Z) : U kthread Z :=
  let* result := syscall_int [kthread_struct] (SysFutexWait kthread_struct) in
  do* uassert (result =? 0) in
  let* kthread := uget in
  uret (ip kthread).

(** The [kthread] structure, at address [self], is the library's memory. *)
Definition okl4_kthread_create (self : Z) (attr : kthread_attr) : U kthread Z :=
  let* k := uget in
  let k := Kthread (cap k) (attr_sp attr) (attr_ip attr) (attr_priority attr) 0 in
  do* uput k in
  let* result := syscall_int [thread_entry_point_addr; sp k; self; kpriority k]
                             (SysThreadCreate thread_entry_point_addr (sp k) self (kpriority k)) in
  if result <? 0 then uret OKL4_INVALID_ARGUMENT
  else
    do* uput (Kthread (u32 result) (sp k) (ip k) (kpriority k) (knext k)) in
    uret OKL4_OK.

Definition okl4_kthread_start {S} (self : Z) : U S unit :=
  let* result := syscall_int [self] (SysFutexSignal self) in
  uassert (result =? 0).

Definition okl4_kthread_join : U kthread Z :=
  let* k := uget in
  let* result := syscall_int [cap k] (SysThreadJoin (cap k)) in
  uret (if result <? 0 then OKL4_INVALID_ARGUMENT else OKL4_OK).

(** It does not return; the fault stands for the endless loop that follows
    the system call. *)
Definition okl4_kthread_exit : U kthread unit :=
  let* _ := syscall [] SysThreadExit in ufault LoopBoundExceeded.

(** *** Threads of a protection domain

    The pool of [okl4_kthread_t] at [pool_addr], handed out by a bitmap
    allocator. *)
Record pd : Type := Pd { thread_alloc : Bitmap.allocator; pool_addr : Z; thread_pool : list kthread }.

Definition KTHREAD_SIZE : Z := 20.
Definition pool_at (p : pd) (i : Z) : Z := u32 (pool_addr p + KTHREAD_SIZE * i).

(** A function on the allocator. *)
Definition with_alloc {A} (m : M Bitmap.allocator A) : U pd A := fun p =>
  match m (thread_alloc p) with
  | Done a al => Returns a (Pd al (pool_addr p) (thread_pool p))
  | Crash f => Faults f
  end.

(** A call on the thread structure [i] of the pool. *)
Fixpoint call_at {A} (i : nat) (p : pd) (c : call kthread A) : call pd A :=
  match c with
  | Returns a k => Returns a (Pd (thread_alloc p) (pool_addr p) (<[i := k]> (thread_pool p)))
  | Faults f => Faults f
  | Traps load e r => Traps load e (fun regs => call_at i p (r regs))
  end.
Definition with_thread {A} (i : Z) (m : U kthread A) : U pd A := fun p =>
  match (if 0 <=? i then thread_pool p !! Z.to_nat i else None) with
  | Some k => call_at (Z.to_nat i) p (m k)
  | None => Faults InvalidPointer
  end.

Record pd_thread_create_attr : Type := PdThreadAttr { c_sp : Z; c_ip : Z; c_priority : Z }.

(** The result, and the pointer that is stored on success. *)
Definition okl4_pd_thread_create (create_attr : pd_thread_create_attr) : U pd (Z * option Z) :=
  let* '(error, thread_index) := with_alloc (Bitmap.okl4_bitmap_allocator_alloc Bitmap.okl4_bitmap_item_setany) in
  if negb (error =? 0) then uret (error, None)
  else
    let* p := uget in
    let pd_thread := pool_at p thread_index in
    let kthread_attr := okl4_kthread_attr_setpriority
      (okl4_kthread_attr_setspip okl4_kthread_attr_init (c_sp create_attr) (c_ip create_attr)) (c_priority create_attr) in
    let* error := with_thread thread_index (okl4_kthread_create pd_thread kthread_attr) in
    if negb (error =? 0) then
      do* with_alloc (Bitmap.okl4_bitmap_allocator_free thread_index) in
      uret (error, None)
    else uret (OKL4_OK, Some pd_thread).

(** [for (i = 0; i < size; i++) if (&pool[i] == kthread) break;] *)
Fixpoint find_thread (n : nat) (i : Z) (p : pd) (kthread : Z) : Z :=
  match n with
  | O => i
  | S n' => if pool_at p i =? kthread then i else find_thread n' (i + 1) p kthread
  end.

Definition okl4_pd_thread_join (kthread : Z) : U pd Z :=
  do* uassert (negb (kthread =? 0)) in
  let* p := uget in
  let i := find_thread (Z.to_nat (Bitmap.size (thread_alloc p))) 0 p kthread in
  do* uassert (i <? Bitmap.size (thread_alloc p)) in
  let* error := with_thread i okl4_kthread_join in
  do* uassert (error =? 0) in
  do* with_alloc (Bitmap.okl4_bitmap_allocator_free i) in
  uret OKL4_OK.

Definition okl4_pd_thread_start (thread : Z) : U pd unit :=
  do* uassert (negb (thread =? 0)) in okl4_kthread_start thread.
Definition okl4_pd_thread_exit : U kthread unit := okl4_kthread_exit.

End threads.
End Thr.

(** ** Sets of interrupts *)

Module Irq.

Record okl4_irqset : Type := Irqset {
  owner : Z;
  num_interrupts : Z;
  max_interrupts : Z;
  irqs : list Z            (* of length 1 *)
}.

Definition okl4_irqset_create (attr_owner attr_max : Z) : U okl4_irqset Z :=
  do* uassert (negb (attr_owner =? 0)) in
  do* uassert (0 <? attr_max) in
  do* uassert (attr_max <=? 1) in
  let* s := uget in
  do* uput (Irqset attr_owner 0 attr_max (irqs s)) in
  uret OKL4_OK.

(** [irqs[i]] *)
Definition irq_at (s : okl4_irqset) (i : Z) : U okl4_irqset Z :=
  udemand IndexOutOfBounds (if 0 <=? i then irqs s !! Z.to_nat i else None).

(** The system calls take the interrupt, a word here, as an [int]. *)
Fixpoint deregister_all (n : nat) : U okl4_irqset unit :=
  match n with
  | O => uret tt
  | S n' =>
      let* s := uget in
      let* irq := irq_at s 0 in
      let* error := syscall_int [irq] (SysInterruptDeregister (s32 irq)) in
      do* uassert (error =? 0) in
      deregister_all n'
  end.

Definition okl4_irqset_delete : U okl4_irqset unit :=
  let* s := uget in
  do* deregister_all (Z.to_nat (num_interrupts s)) in
  let* s := uget in
  uput (Irqset (owner s) 0 0 (irqs s)).

Definition okl4_irqset_register (attr_irq : Z) : U okl4_irqset Z :=
  let* s := uget in
  if 0 <? num_interrupts s then uret OKL4_ALLOC_EXHAUSTED
  else
    let* error := syscall_int [attr_irq] (SysInterruptRegister (s32 attr_irq)) in
    if negb (error =? 0) then uret OKL4_INVALID_ARGUMENT
    else
      let* s := uget in
      do* (if Z.to_nat (num_interrupts s) <? length (irqs s) then uret tt else ufault IndexOutOfBounds)%nat in
      do* uput (Irqset (owner s) (u32 (num_interrupts s + 1)) (max_interrupts s)
                       (<[Z.to_nat (num_interrupts s) := attr_irq]> (irqs s))) in
      uret OKL4_OK.

Definition okl4_irqset_deregister (attr_irq : Z) : U okl4_irqset Z :=
  let* s := uget in
  if negb (num_interrupts s =? 1) then uret OKL4_INVALID_ARGUMENT
  else
    let* irq := irq_at s 0 in
    if negb (irq =? attr_irq) then uret OKL4_INVALID_ARGUMENT
    else
      let* error := syscall_int [irq] (SysInterruptDeregister (s32 irq)) in
      do* uassert (error =? 0) in
      let* s := uget in
      do* uput (Irqset (owner s) 0 (max_interrupts s) (irqs s)) in
      uret OKL4_OK.

(** The result, and the interrupt stored through the pointer. *)
Definition okl4_irqset_wait : U okl4_irqset (Z * Z) :=
  let* s := uget in
  do* uassert (1 <=? num_interrupts s) in
  let* result := syscall_int [] SysInterruptWait in
  do* uassert (negb (result =? -1)) in
  let* s := uget in
  let* irq := irq_at s 0 in
  do* uassert (u32 result =? irq) in
  uret (OKL4_OK, u32 result).

End Irq.
