(* ===== verification/NanoMessage.v ===== *)
(** * Messages between threads

    The message calls of the okl4 library, run on the nanokernel: what a
    thread packs into its registers is what another unpacks. *)

From S2P Require Import Prelude NanoState NanoSchedule NanoSyscalls NanoSpec Rings NanoLinks NanoRep NanoRefineSched NanoInv NanoRefineFutex NanoRefineSys NanoInvPres NanoInvSys NanoBoot NanoKernel NanoTheorems BitmapAlloc UserLib.
#[local] Open Scope Z_scope.

Module MsgProof.
Import Msg.

Definition is_byte (b : Z) : Prop := 0 <= b < 256.

(** ** Bytes and words *)

Lemma bytes_of_word b : length b = 4%nat -> Forall is_byte b -> bytes_of (word_of b) = b.
Proof.
  intros Hl Hb. destruct b as [|b0 [|b1 [|b2 [|b3 [|]]]]]; try done.
  repeat (apply Forall_cons in Hb as [? Hb]). unfold is_byte in *. unfold bytes_of, word_of.
  repeat f_equal; Z.div_mod_to_equations; lia.
Qed.

Lemma word_of_word b : Forall is_byte b -> is_word (word_of b).
Proof.
  intros Hb. unfold word_of. destruct b as [|b0 [|b1 [|b2 [|b3 [|]]]]]; try (unfold is_word, WORD_MOD; lia).
  repeat (apply Forall_cons in Hb as [? Hb]). unfold is_byte, is_word, WORD_MOD in *. lia.
Qed.

(** The union holds the bytes that its words were made of. *)
Lemma union_words u : length u = 28%nat -> Forall is_byte u ->
  union_of [mr u 0; mr u 1; mr u 2; mr u 3; mr u 4; mr u 5; mr u 6] = u.
Proof.
  intros Hl Hu. unfold mr.
  change (bytes_of (word_of (take 4 (drop (4 * 0) u))) ++ bytes_of (word_of (take 4 (drop (4 * 1) u))) ++
    bytes_of (word_of (take 4 (drop (4 * 2) u))) ++ bytes_of (word_of (take 4 (drop (4 * 3) u))) ++
    bytes_of (word_of (take 4 (drop (4 * 4) u))) ++ bytes_of (word_of (take 4 (drop (4 * 5) u))) ++
    bytes_of (word_of (take 4 (drop (4 * 6) u))) ++ [] = u).
  assert (H : forall i, (4 * i + 4 <= 28)%nat -> bytes_of (word_of (take 4 (drop (4 * i) u))) = take 4 (drop (4 * i) u)).
  { intros i Hi. apply bytes_of_word; [rewrite length_take, length_drop; lia|]. by apply Forall_take, Forall_drop. }
  rewrite !H by lia. clear H. do 28 (destruct u as [|? u]; [discriminate|]). by destruct u.
Qed.

Lemma copy_memory_spec n : forall d s, (n <= length d)%nat -> (n <= length s)%nat ->
  _okl4_copy_memory n d s = Some (take n s ++ drop n d).
Proof.
  induction n as [|n IH]; intros d s Hd Hs; [by rewrite take_0, drop_0|].
  destruct d as [|x d]; [simpl in Hd; lia|]. destruct s as [|b s]; [simpl in Hs; lia|]. simpl in *.
  by rewrite IH by lia.
Qed.

(** ** Packing *)

(** A buffer that may be sent from: [n] bytes of it. *)
Record sendable (buff : buffer) (n : nat) : Prop := {
  sb_max : (n <= OKL4_MESSAGE_MAX_SIZE)%nat;
  sb_null : b_addr buff <> 0 \/ n = 0%nat;
  sb_align : b_addr buff mod 4 = 0;
  sb_room : (n <= length (b_bytes buff))%nat;
  sb_bytes : Forall is_byte (b_bytes buff)
}.

(** A buffer that may be received into. *)
Record receivable (buff : buffer) (n : nat) : Prop := {
  rb_max : (n <= OKL4_MESSAGE_MAX_SIZE)%nat;
  rb_null : b_addr buff <> 0 \/ n = 0%nat;
  rb_room : (n <= length (b_bytes buff))%nat
}.

(** The message of [bytes]. *)
Definition message (bytes : list Z) : list Z :=
  bytes ++ replicate (27 - length bytes) 0 ++ [Z.of_nat (length bytes)].

Lemma message_length bytes : (length bytes <= 27)%nat -> length (message bytes) = 28%nat.
Proof. intros. unfold message. rewrite !length_app, length_replicate. simpl. lia. Qed.

Lemma message_bytes bytes : (length bytes <= 27)%nat -> Forall is_byte bytes -> Forall is_byte (message bytes).
Proof.
  intros Hl Hb. unfold message. rewrite !Forall_app. split_and!; [done|apply Forall_replicate; unfold is_byte; lia|].
  apply Forall_singleton. unfold is_byte. lia.
Qed.

Lemma sendable_bytes buff n :
  sendable buff n -> (length (take n (b_bytes buff)) <= 27)%nat /\ Forall is_byte (take n (b_bytes buff)).
Proof.
  intros [H1 _ _ _ H5]. unfold OKL4_MESSAGE_MAX_SIZE in H1. split; [rewrite length_take; lia|by apply Forall_take].
Qed.

Lemma uassert_true {S} (b : bool) (s : S) : b = true -> uassert b s = Returns tt s.
Proof. by intros ->. Qed.

Lemma null_ok a n : a <> 0 \/ n = 0%nat -> negb (a =? 0) || (n =? 0)%nat = true.
Proof. intros [H| ->]; [by rewrite (proj2 (Z.eqb_neq a 0))|by rewrite Nat.eqb_refl, orb_true_r]. Qed.

Lemma pack_spec {S} buff n (s : S) :
  sendable buff n -> pack buff n s = Returns (message (take n (b_bytes buff))) s.
Proof.
  intros [H1 H2 H3 H4 H5]. unfold pack, ubind. rewrite H3. cbn [uassert Z.eqb]. unfold uret. cbn [call_bind].
  assert (Hu : <[OKL4_MESSAGE_MAX_SIZE := Z.of_nat n]> (replicate (4 * IPC_NUM_MRS) 0) = replicate 27 0 ++ [Z.of_nat n]) by done.
  rewrite Hu. unfold OKL4_MESSAGE_MAX_SIZE in *.
  rewrite copy_memory_spec by (rewrite ?length_app, ?length_replicate; simpl; lia). unfold udemand, uret. f_equal.
  unfold message. rewrite length_take, Nat.min_l, drop_app_le by (rewrite ?length_replicate; lia). by rewrite drop_replicate.
Qed.

(** A thread that comes back from a receive with the message in its
    registers. *)
Definition holds (regs bytes : list Z) : Prop :=
  reg regs 7 = mr (message bytes) 0 /\
  forall i, (1 <= i <= 6)%nat -> reg regs i = mr (message bytes) i.

Lemma mrs_hold regs bytes : holds regs bytes -> (length bytes <= 27)%nat -> Forall is_byte bytes ->
  union_of (mrs_of regs) = message bytes.
Proof.
  intros [H7 Hi] Hl Hb. unfold mrs_of. rewrite H7, !Hi by lia. apply union_words; [by apply message_length|by apply message_bytes].
Qed.

Lemma unpack_spec {S} bytes recv n (s : S) :
  (length bytes <= 27)%nat -> receivable recv n ->
  let m := Nat.min n (length bytes) in
  unpack (message bytes) recv n s = Returns (take m bytes ++ drop m (b_bytes recv), Z.of_nat (length bytes)) s.
Proof.
  intros Hl [H1 H2 H3] m. unfold unpack, ubind.
  assert (Hlast : message bytes !! OKL4_MESSAGE_MAX_SIZE = Some (Z.of_nat (length bytes))).
  { unfold message. rewrite app_assoc. apply list_lookup_middle. rewrite length_app, length_replicate. unfold OKL4_MESSAGE_MAX_SIZE. lia. }
  rewrite Hlast. unfold udemand, uret. cbn [call_bind]. rewrite Nat2Z.id. fold m.
  rewrite copy_memory_spec by (rewrite ?message_length by done; lia). cbn [call_bind]. unfold message.
  by rewrite take_app_le by lia.
Qed.

(** The wait of a thread whose registers hold a message. *)
Lemma wait_resumes {S} bytes recv n b1 b2 (s : S) :
  (length bytes <= 27)%nat -> Forall is_byte bytes -> receivable recv n ->
  exists load k, okl4_message_wait recv n b1 b2 s = Traps load (SysIpcRecv OKN_IPC_OPEN_WAIT 0) k /\
  forall regs, holds regs bytes ->
    let m := Nat.min n (length bytes) in
    k regs = Returns (OKL4_OK, take m bytes ++ drop m (b_bytes recv), if b1 then Some (Z.of_nat (length bytes)) else None,
                      if b2 then Some (reg regs 0) else None) s.
Proof.
  intros Hl Hb HR. pose proof HR as [H1 H2 H3]. unfold okl4_message_wait.
  unfold ubind at 1. rewrite uassert_true by (by apply Nat.leb_le). cbn [call_bind].
  unfold ubind at 1. rewrite uassert_true by (by apply null_ok). cbn [call_bind].
  unfold okn_syscall_ipc_recv, syscall, ubind at 1. cbn [call_bind]. eexists _, _. split; [reflexivity|].
  intros regs Hh. unfold uret. cbn beta iota. cbn [call_bind]. rewrite (mrs_hold _ _ Hh Hl Hb). unfold ubind.
  by rewrite (unpack_spec bytes recv n s Hl HR).
Qed.

Lemma load_holds t u dest op bytes :
  length (regs t) = 16%nat -> u = message bytes ->
  holds (regs (load_regs [(1%nat, mr u 1); (2%nat, mr u 2); (3%nat, mr u 3); (4%nat, mr u 4); (5%nat, mr u 5);
    (6%nat, mr u 6); (7%nat, mr u 0); (8%nat, dest); (9%nat, op)] t)) bytes.
Proof.
  intros Hl ->. destruct t as [rs]. simpl in Hl. do 16 (destruct rs as [|? rs]; [discriminate|]).
  split; [done|]. intros i Hi. do 7 (destruct i as [|i]; [first [done|lia]|]). lia.
Qed.

(** The send of a buffer. *)
Lemma send_traps {S} dest buff n (blocking : bool) (s : S) :
  sendable buff n ->
  let bytes := take n (b_bytes buff) in
  let op := if blocking then 0 else 1 in
  exists load k, send dest buff n blocking s = Traps load (SysIpcSend dest op) k /\
    (forall t, length (regs t) = 16%nat -> holds (regs (load_regs load t)) bytes) /\
    (forall rs, k rs = Returns (if reg rs 0 =? 0 then OKL4_OK else OKL4_INVALID_ARGUMENT) s).
Proof.
  intros HS bytes op. pose proof HS as [H1 H2 H3 H4 H5]. unfold send.
  unfold ubind at 1. rewrite uassert_true by (by apply Nat.leb_le). cbn [call_bind].
  unfold ubind at 1. rewrite uassert_true by (by apply null_ok). cbn [call_bind].
  unfold ubind at 1. rewrite (pack_spec _ _ _ HS). cbn [call_bind].
  unfold okn_syscall_ipc_send, syscall, ubind. cbn [call_bind]. fold bytes.
  replace (Z.lor OKN_IPC_SEND_ONLY _) with op by (by destruct blocking). eexists _, _. split; [reflexivity|split].
  - intros t Hl. by apply load_holds.
  - intros rs. unfold uret. cbn beta iota. cbn [call_bind]. by destruct (reg rs 0 =? 0).
Qed.

(** The call: what it sends, and what it returns when the kernel comes back
    with an answer in the registers, or with an error. *)
Lemma call_traps {S} dest buff n0 recv n b (s : S) :
  sendable buff n0 -> receivable recv n ->
  exists load k, okl4_message_call dest buff n0 recv n b s = Traps load (SysIpcSend dest OKN_IPC_CALL) k /\
    (forall t, length (regs t) = 16%nat -> holds (regs (load_regs load t)) (take n0 (b_bytes buff))) /\
    (forall rs bytes, (length bytes <= 27)%nat -> Forall is_byte bytes -> holds rs bytes -> reg rs 0 <> u32 (-1) ->
      let m := Nat.min n (length bytes) in
      k rs = Returns (OKL4_OK, take m bytes ++ drop m (b_bytes recv), if b then Some (Z.of_nat (length bytes)) else None) s) /\
    (forall rs, reg rs 0 = u32 (-1) -> k rs = Returns (OKL4_INVALID_ARGUMENT, b_bytes recv, None) s).
Proof.
  intros HS HR. pose proof HS as [H1 H2 H3 H4 H5]. pose proof HR as [G1 G2 G3]. unfold okl4_message_call, send_wait.
  do 4 (unfold ubind at 1; rewrite uassert_true by first [by apply Nat.leb_le|by apply null_ok]; cbn [call_bind]).
  unfold ubind at 1. rewrite (pack_spec _ _ _ HS). cbn [call_bind].
  unfold okn_syscall_ipc_call, syscall, ubind at 1. cbn [call_bind]. eexists _, _. split; [reflexivity|split_and!].
  - intros t Ht. by apply load_holds.
  - intros rs bytes Hl Hb Hh H0. unfold uret. cbn beta iota. cbn [call_bind]. rewrite (proj2 (Z.eqb_neq _ _) H0).
    cbn beta iota. cbn [call_bind]. change (negb (0 =? 0)) with false. cbv iota. rewrite (mrs_hold _ _ Hh Hl Hb). unfold ubind.
    by rewrite (unpack_spec bytes recv n s Hl HR).
  - intros rs H0. unfold uret. cbn beta iota. cbn [call_bind]. by rewrite (proj2 (Z.eqb_eq _ _) H0).
Qed.

(** ** Entering the kernel *)

#[export] Instance data_load load : DataUpd (load_regs load).
Proof.
  unfold load_regs. constructor; induction load as [|[i v] load IH]; intros t; simpl; try done; by rewrite IH.
Qed.
#[export] Instance irr_load load : Irrelevant (load_regs load).
Proof.
  unfold load_regs. constructor; induction load as [|[i v] load IH]; intros t; simpl; try done; rewrite IH; try done.
  simpl. apply length_insert.
Qed.

Section kernel.
Context {cfg : NanoConfig}.
Implicit Types (s : kstate) (A : akernel) (O : gset nat).

(** The state in which the kernel is entered. *)
Definition entered (s : kstate) (c : nat) (load : list (nat * Z)) : kstate := set_tcbs (alter (load_regs load) c (tcbs s)) s.

Lemma trap_enter s c t load e :
  current_tcb s = Some c -> tcbs s !! c = Some t -> trap load e s = exec e (entered s c load).
Proof.
  intros Hc Ht. unfold trap, bind, gets. rewrite Hc.
  pose proof (proj1 (wp_run (wr (Some c) (load_regs load)) (fun _ s' => s' = entered s c load) s)) as ([] & s' & -> & ->); [|done].
  apply wp_wr_raw; [by eexists|done].
Qed.

Lemma entered_kinv O s c load : KInv O s -> KInv O (entered s c load).
Proof.
  intros (A & HR & HI). exists (a_upd c (load_regs load) A). split; [apply rep_upd; [apply _|done]|apply inv_irr; [apply _|done]].
Qed.

Lemma entered_caller s c load t : tcbs s !! c = Some t -> tcbs (entered s c load) !! c = Some (load_regs load t).
Proof. intros Ht. simpl. by rewrite lookup_alter_eq, Ht. Qed.
Lemma entered_other s c load d : d <> c -> tcbs (entered s c load) !! d = tcbs s !! d.
Proof. intros Hd. simpl. by rewrite lookup_alter_ne. Qed.

Lemma kinv_regs O s c t : KInv O s -> tcbs s !! c = Some t -> length (regs t) = 16%nat.
Proof. intros (A & HR & HI) Ht. apply (d_regs _ (inv_data _ _ HI) c (erase t)). by eapply rep_lookup. Qed.

Lemma kinv_running O s c t : KInv O s -> current_tcb s = Some c -> tcbs s !! c = Some t -> thread_state t = THREAD_STATE_RUNNABLE.
Proof.
  intros (A & HR & HI) Hc Ht. rewrite <-(rep_current _ _ HR) in Hc.
  destruct (inv_running _ _ _ HI Hc) as (_ & _ & t' & Ht' & Hst). rewrite (rep_lookup _ _ _ _ HR Ht) in Ht'. by injection Ht' as <-.
Qed.

Lemma sender_not_self O s c t b :
  KInv O s -> current_tcb s = Some c -> tcbs s !! c = Some t -> ipc_send_head t = Some b -> b <> c.
Proof.
  intros (A & HR & HI) Hc Ht Hb ->. rewrite <-(rep_current _ _ HR) in Hc. destruct (inv_running _ _ _ HI Hc) as (_ & Hu & _).
  apply (Hu (QSend c)). rewrite (rep_send _ _ HR _ _ Ht) in Hb. by apply head_Some_elem_of.
Qed.

Lemma holds_copied regs regs' bytes :
  holds regs bytes -> (forall i, (1 <= i <= 7)%nat -> reg regs' i = reg regs i) -> holds regs' bytes.
Proof. intros [H7 Hi] He. split; [by rewrite He by lia|]. intros i Hi'. rewrite He by lia. by apply Hi. Qed.

(** An entry into the kernel by a thread that exists comes back to a state
    in which it exists. *)
Lemma trap_returns O s c t load e :
  KInv O s -> current_tcb s = Some c -> tcbs s !! c = Some t -> enabled e s ->
  exists s' t', trap load e s = Done tt s' /\ exec e (entered s c load) = Done tt s' /\ KInv O s' /\ tcbs s' !! c = Some t'.
Proof.
  intros HK Hc Ht Hen. rewrite (trap_enter _ _ _ _ _ Hc Ht).
  destruct (exec_step O (entered s c load) e) as (s' & He & HK'); [by apply entered_kinv|done|].
  assert (is_Some (tcbs s' !! c)) as [t' Ht'].
  { destruct HK as (A & HR & HI), HK' as (A' & HR' & HI').
    assert (Hc' : is_Some (a_tcbs A' !! c)).
    { apply (d_dom _ (inv_data _ _ HI')). apply (d_dom _ (inv_data _ _ HI)). exists (erase t). by eapply rep_lookup. }
    rewrite (rep_tcbs _ _ HR'), lookup_fmap in Hc'. by apply fmap_is_Some in Hc'. }
  by exists s', t'.
Qed.

(** A thread that does not wait for a message of [c]. *)
Definition busy (c : nat) (td : tcb) : Prop :=
  thread_state td <> THREAD_STATE_WAIT_IPC_RECV \/ ipc_waiting_for td <> None /\ ipc_waiting_for td <> Some c.

Lemma busy_not_ready A c d td : a_tcbs A !! d = Some td -> busy c td -> a_ready_to_receive c d A = false.
Proof.
  intros Hd Hb. unfold a_ready_to_receive, a_state. rewrite !(a_get_eq _ _ _ _ _ Hd). apply andb_false_iff.
  destruct Hb as [Hr|[H1 H2]]; [left; by apply bool_decide_eq_false|right; by rewrite !bool_decide_false by done].
Qed.

(** A send or call that cannot be made: the caller gets the error and runs
    on. *)
Lemma ipc_send_fails O s c d op tc :
  0 <= d ->
  KInv O s -> current_tcb s = Some c -> tcbs s !! c = Some tc ->
  (Z.of_nat max_tcbs <= d \/
   exists td, tcbs s !! Z.to_nat d = Some td /\
     (is_thread_alive td = false \/
      Ipc.OPERATION_IS_NON_BLOCKING op = true /\ busy c td)) ->
  exists s' tc', exec (SysIpcSend d op) s = Done tt s' /\ current_tcb s' = Some c /\ tcbs s' !! c = Some tc' /\ get_reg 0 tc' = u32 (-1).
Proof.
  intros Hd HK Hc Htc Hbad.
  destruct (exec_result O s (SysIpcSend d op) HK) as (A & s' & HR & HI & He & HR' & _); [by split; [eauto using mk_is_Some|]|].
  unfold caller in HR'. rewrite Hc in HR'. simpl in HR'. pose proof (rep_lookup _ _ _ _ HR Htc) as Hac.
  pose proof (d_regs _ (inv_data _ _ HI) _ _ Hac) as Hl.
  assert (Hres : a_sys_ipc_send c d op A = a_return c Ipc.IPC_ERROR A \/ a_sys_ipc_send c d op A = a_switch_to (Some c) (a_return c Ipc.IPC_ERROR A)).
  { unfold a_sys_ipc_send. destruct (Z.leb_spec (Z.of_nat max_tcbs) d); [by left|]. destruct Hbad as [|(td & Htd & Hbad)]; [lia|].
    pose proof (rep_lookup _ _ _ _ HR Htd) as Had. unfold a_alive. rewrite (a_get_eq _ _ _ _ _ Had).
    change (is_thread_alive (erase td)) with (is_thread_alive td). destruct Hbad as [-> |[Hnb Hr]]; [by left|].
    destruct (is_thread_alive td); [right|by left]. unfold a_do_send. by rewrite (busy_not_ready _ _ _ _ Had), Hnb. }
  destruct (rep_lookup_inv s' _ c (set_reg 0 (u32 Ipc.IPC_ERROR) (erase tc)) HR') as (tc' & Htc' & Het).
  { destruct Hres as [-> | ->]; simpl; by rewrite lookup_alter_eq, Hac. }
  exists s', tc'. split_and!; [done| |done|].
  - rewrite <-(rep_current _ _ HR'). destruct Hres as [-> | ->]; simpl; [by rewrite (rep_current _ _ HR)|done].
  - change (get_reg 0 (erase tc') = u32 (-1)). rewrite Het, get_set_reg_eq by lia. done.
Qed.

(** The state in which a sender or a caller blocks. *)
Definition blocked_state (op : Z) : thread_state_t :=
  if Ipc.OPERATION_IS_CALL op then THREAD_STATE_WAIT_IPC_CALL else THREAD_STATE_WAIT_IPC_SEND.

(** A blocking send or call to a thread that is busy: the caller waits at
    the end of the thread's queue of senders, with the message in its
    registers. *)
Lemma ipc_send_blocks O s c d op tc td :
  KInv O s -> current_tcb s = Some c -> tcbs s !! c = Some tc -> tcbs s !! d = Some td -> d <> c ->
  Ipc.OPERATION_IS_NON_BLOCKING op = false -> is_thread_alive td = true -> busy c td ->
  exists s' tc' td', exec (SysIpcSend (Z.of_nat d) op) s = Done tt s' /\ tcbs s' !! c = Some tc' /\ tcbs s' !! d = Some td' /\
    thread_state tc' = blocked_state op /\ ipc_waiting_for tc' = Some d /\ regs tc' = regs tc /\
    ipc_send_head td' = Some (default c (ipc_send_head td)).
Proof.
  intros HK Hc Htc Htd Hne Hop Hal Hb.
  destruct (exec_result O s (SysIpcSend (Z.of_nat d) op) HK) as (A & s' & HR & HI & He & HR' & _);
    [split; [by eauto using mk_is_Some|simpl; lia]|].
  unfold caller in HR'. rewrite Hc in HR'. simpl in HR'. pose proof (inv_data _ _ HI) as HD.
  pose proof (rep_lookup _ _ _ _ HR Htc) as Hac. pose proof (rep_lookup _ _ _ _ HR Htd) as Had.
  assert (Hdm : (d < max_tcbs)%nat) by (apply (d_dom _ HD); by eauto).
  assert (Hcur : a_current A = Some c) by (by rewrite (rep_current _ _ HR)).
  set (A1 := a_upd c (set_ipc_waiting_for (Some d)) (a_push (QSend d) c A)).
  set (B := a_do_schedule (a_upd c (set_thread_state (blocked_state op)) A1)).
  assert (HA : a_sys_ipc_send c (Z.of_nat d) op A = a_switch_to B.1 B.2).
  { unfold a_sys_ipc_send. rewrite (proj2 (Z.leb_gt _ _)), Nat2Z.id by lia. unfold a_alive. rewrite (a_get_eq _ _ _ _ _ Had).
    change (is_thread_alive (erase td)) with (is_thread_alive td). rewrite Hal. unfold a_do_send.
    rewrite (busy_not_ready _ _ _ _ Had) by done. rewrite Hop. unfold a_deactivate_self_schedule, a_deactivate_self.
    change (a_current (a_upd _ _ _)) with (a_current A). rewrite Hcur. done. }
  rewrite HA in HR'.
  assert (HB : a_tcbs (a_switch_to B.1 B.2) = a_tcbs (a_upd c (set_thread_state (blocked_state op)) A1)) by (apply a_do_schedule_tcbs).
  destruct (rep_lookup_inv s' _ c (set_thread_state (blocked_state op) (set_ipc_waiting_for (Some d) (erase tc))) HR') as (tc' & Htc' & Hec).
  { rewrite HB. simpl. by rewrite !lookup_alter_eq, Hac. }
  destruct (rep_lookup_inv s' _ d (erase td) HR') as (td' & Htd' & Hed).
  { rewrite HB. simpl. by rewrite !lookup_alter_ne. }
  exists s', tc', td'. split_and!; [done|done|done| | | |].
  - change (thread_state (erase tc') = blocked_state op). by rewrite Hec.
  - change (ipc_waiting_for (erase tc') = Some d). by rewrite Hec.
  - change (regs (erase tc') = regs tc). by rewrite Hec.
  - rewrite (rep_send _ _ HR' _ _ Htd'), (rep_send _ _ HR _ _ Htd).
    change (head (a_queue B.2 (QSend d)) = Some (default c (head (a_queue A (QSend d))))).
    unfold B. rewrite a_do_schedule_queue by done. simpl. unfold qset. rewrite decide_True by done.
    by destruct (a_queue A (QSend d)).
Qed.

(** A receive that finds a sender waiting, on the abstract kernel. *)
Lemma recv_abs O A c b l tc tb :
  AInv O A -> a_current A = Some c -> a_queue A (QSend c) = b :: l -> a_tcbs A !! c = Some tc -> a_tcbs A !! b = Some tb ->
  let A' := a_sys_ipc_recv c (u32 (-1)) 0 A in
  a_tcbs A' !! c = Some (set_reg 0 (u32 (tid tb)) (Ipc.copy_regs tb (set_full_context_saved 1 tc))) /\
  exists tb1, a_tcbs A' !! b = Some tb1 /\
    (thread_state tb = THREAD_STATE_WAIT_IPC_SEND -> thread_state tb1 = THREAD_STATE_RUNNABLE /\ get_reg 0 tb1 = 0) /\
    (thread_state tb = THREAD_STATE_WAIT_IPC_CALL -> thread_state tb1 = THREAD_STATE_WAIT_IPC_RECV /\ ipc_waiting_for tb1 = Some c).
Proof.
  intros HI Hcur Eq Hac Hab A'. pose proof (d_regs _ (inv_data _ _ HI) _ _ Hab) as Hlb.
  assert (Hbq : b ∈ a_queue A (QSend c)) by (rewrite Eq; left).
  destruct (inv_queued _ _ _ _ HI Hbq) as (tb0 & Htb0 & Hhome & Hnf). assert (tb0 = tb) as -> by congruence.
  assert (Hne : b <> c) by (intros ->; apply Hnf; rewrite Hcur; set_solver).
  assert (Hw : thread_state tb = THREAD_STATE_WAIT_IPC_CALL -> ipc_waiting_for tb = Some c).
  { intros Hs. unfold home in Hhome. rewrite Hs in Hhome. destruct (ipc_waiting_for tb); [|done]. by injection Hhome as ->. }
  subst A'. unfold a_sys_ipc_recv. rewrite Eq.
  replace (_ && _) with false by (change (u32 (-1)) with Ipc.IPC_WAIT_ANY; by rewrite Z.eqb_refl, andb_false_r).
  set (A1 := a_copy_message b c (a_pop (QSend c) A)).
  assert (H1 : a_tcbs A1 !! c = Some (Ipc.copy_regs tb (set_full_context_saved 1 tc)) /\ a_tcbs A1 !! b = Some tb).
  { unfold A1, a_copy_message. rewrite a_upd_ne by done. change (a_tcbs (a_pop (QSend c) A)) with (a_tcbs A). rewrite Hab.
    simpl. by rewrite !lookup_alter_eq, !lookup_alter_ne, Hac by done. }
  destruct H1 as [H1c H1b].
  assert (Hst : a_state A1 b = thread_state tb) by (unfold a_state; by rewrite (a_get_eq _ _ _ _ _ H1b)).
  rewrite (a_get_eq _ _ _ _ _ H1b), Hst. case_bool_decide as Hcs; split.
  - simpl. rewrite lookup_alter_eq, lookup_alter_ne by done. by rewrite H1c.
  - exists (set_thread_state THREAD_STATE_WAIT_IPC_RECV tb). simpl. rewrite lookup_alter_ne, lookup_alter_eq, H1b by done.
    split_and!; [done|by rewrite Hcs|by auto].
  - unfold a_then_switch. simpl. rewrite a_activate_schedule_tcbs. simpl.
    rewrite lookup_alter_ne, lookup_alter_eq, !lookup_alter_ne by done. by rewrite H1c.
  - exists (set_thread_state THREAD_STATE_RUNNABLE (set_reg 0 (u32 0) (set_ipc_waiting_for None tb))).
    unfold a_then_switch. simpl. rewrite a_activate_schedule_tcbs. simpl.
    rewrite lookup_alter_eq, lookup_alter_ne, !lookup_alter_eq, H1b by done. split_and!; [done| |done].
    intros _. split; [done|]. unfold get_reg. simpl. rewrite list_lookup_insert_eq; [done|lia].
Qed.

(** The same on kernel states. *)
Lemma ipc_recv_result O s c b tc tb :
  KInv O s -> current_tcb s = Some c -> tcbs s !! c = Some tc -> ipc_send_head tc = Some b -> tcbs s !! b = Some tb ->
  exists s' tc' tb', exec (SysIpcRecv (u32 (-1)) 0) s = Done tt s' /\ tcbs s' !! c = Some tc' /\ tcbs s' !! b = Some tb' /\
    get_reg 0 tc' = Z.of_nat b /\ (forall i, (1 <= i <= 7)%nat -> get_reg i tc' = get_reg i tb) /\
    (thread_state tb = THREAD_STATE_WAIT_IPC_SEND -> thread_state tb' = THREAD_STATE_RUNNABLE /\ get_reg 0 tb' = 0) /\
    (thread_state tb = THREAD_STATE_WAIT_IPC_CALL -> thread_state tb' = THREAD_STATE_WAIT_IPC_RECV /\ ipc_waiting_for tb' = Some c).
Proof.
  intros HK Hc Htc Hh Htb.
  destruct (exec_result O s (SysIpcRecv (u32 (-1)) 0) HK) as (A & s' & HR & HI & He & HR' & _); [by split; [eauto using mk_is_Some|]|].
  unfold caller in HR'. rewrite Hc in HR'. simpl in HR'. pose proof (inv_data _ _ HI) as HD.
  pose proof (rep_lookup _ _ _ _ HR Htc) as Hac. pose proof (rep_lookup _ _ _ _ HR Htb) as Hab.
  rewrite (rep_send _ _ HR _ _ Htc) in Hh. destruct (a_queue A (QSend c)) as [|x l] eqn:Eq; [done|]. injection Hh as ->.
  assert (Hcur : a_current A = Some c) by (by rewrite (rep_current _ _ HR)).
  destruct (recv_abs _ _ _ _ _ _ _ HI Hcur Eq Hac Hab) as [HBc (tb1 & HBb & Hs1 & Hs2)].
  destruct (rep_lookup_inv s' _ c _ HR' HBc) as (tc' & Htc' & Hec). destruct (rep_lookup_inv s' _ b _ HR' HBb) as (tb' & Htb' & Heb).
  pose proof (d_regs _ HD _ _ Hac) as Hlc. simpl in Hlc.
  exists s', tc', tb'. split_and!; [done|done|done| | | |].
  - change (get_reg 0 (erase tc') = Z.of_nat b). rewrite Hec.
    rewrite get_set_reg_eq by (simpl; rewrite !length_insert; lia). rewrite (d_tid _ HD _ _ Hab). apply u32_word.
    pose proof cfg_tcbs_word. unfold is_word. assert (b < max_tcbs)%nat by (apply (d_dom _ HD); by eauto). lia.
  - intros i Hi. change (get_reg i (erase tc') = get_reg i tb). rewrite Hec, get_set_reg_ne by lia.
    by apply (copy_regs_spec (erase tb) (set_full_context_saved 1 (erase tc))).
  - intros Hs. destruct (Hs1 Hs) as [H2 H3]. change (thread_state (erase tb') = THREAD_STATE_RUNNABLE /\ get_reg 0 (erase tb') = 0). by rewrite Heb.
  - intros Hs. destruct (Hs2 Hs) as [H2 H3]. change (thread_state (erase tb') = THREAD_STATE_WAIT_IPC_RECV /\ ipc_waiting_for (erase tb') = Some c). by rewrite Heb.
Qed.

End kernel.
End MsgProof.

(** ** The theorems *)

Section message_properties.
Context {cfg : NanoConfig}.
Import Msg MsgProof.

(** What a thread gets out of its wait when it runs again with these
    registers: the bytes, as far as its buffer reaches, their number, and the
    sender. *)
Definition received (regs bytes : list Z) (sender : nat) : Prop :=
  forall recv n, receivable recv n ->
  exists load k, okl4_message_wait recv n true true tt = Traps load (SysIpcRecv OKN_IPC_OPEN_WAIT 0) k /\
    let m := Nat.min n (length bytes) in
    k regs = Returns (OKL4_OK, take m bytes ++ drop m (b_bytes recv), Some (Z.of_nat (length bytes)), Some (Z.of_nat sender)) tt.

(** What a thread gets out of its call when it runs again with these
    registers: the answer. *)
Definition answered (rs bytes : list Z) : Prop :=
  forall dest buff n0 recv n, sendable buff n0 -> receivable recv n ->
  exists load k, okl4_message_call dest buff n0 recv n true tt = Traps load (SysIpcSend dest OKN_IPC_CALL) k /\
    let m := Nat.min n (length bytes) in
    k rs = Returns (OKL4_OK, take m bytes ++ drop m (b_bytes recv), Some (Z.of_nat (length bytes))) tt.

Lemma answered_intro rs bytes sender :
  holds rs bytes -> reg rs 0 = Z.of_nat sender -> (sender < max_tcbs)%nat -> (length bytes <= 27)%nat -> Forall is_byte bytes -> answered rs bytes.
Proof.
  intros Hh H0 Hs Hl Hb dest buff n0 recv n HS HR. pose proof cfg_tcbs_word.
  destruct (call_traps dest buff n0 recv n true tt HS HR) as (load & k & Hw & _ & Hk & _).
  exists load, k. split; [done|]. apply (Hk rs bytes Hl Hb Hh). rewrite H0. change (u32 (-1)) with (WORD_MOD - 1). lia.
Qed.

Lemma received_intro regs bytes sender :
  holds regs bytes -> reg regs 0 = Z.of_nat sender -> (length bytes <= 27)%nat -> Forall is_byte bytes -> received regs bytes sender.
Proof.
  intros Hh H0 Hl Hb recv n HR. destruct (wait_resumes bytes recv n true true tt Hl Hb HR) as (load & k & Hw & Hk).
  exists load, k. split; [done|]. rewrite (Hk regs Hh). by rewrite H0.
Qed.

(** A destination that waits for a message, or has called [c] and waits for
    its answer, gets the bytes. *)
Definition waits_for (c : nat) (td : tcb) : Prop :=
  thread_state td = THREAD_STATE_WAIT_IPC_RECV /\ (ipc_waiting_for td = None \/ ipc_waiting_for td = Some c).

Definition gets_message (s' : kstate) (d c : nat) (bytes : list Z) : Prop :=
  exists td', tcbs s' !! d = Some td' /\ thread_state td' = THREAD_STATE_RUNNABLE /\
    received (regs td') bytes c /\ answered (regs td') bytes.

(** The running thread has blocked with its message, as the first of the
    destination's senders unless there is another. *)
Definition blocks_with (s' : kstate) (td tc' : tcb) (d c : nat) (st : thread_state_t) (bytes : list Z) : Prop :=
  thread_state tc' = st /\ ipc_waiting_for tc' = Some d /\ holds (regs tc') bytes /\
  exists td', tcbs s' !! d = Some td' /\ ipc_send_head td' = Some (default c (ipc_send_head td)).

(** There is no destination to send to. *)
Definition no_destination (s : kstate) (c : nat) (dest : Z) : Prop :=
  Z.of_nat max_tcbs <= dest \/
  exists td, tcbs s !! Z.to_nat dest = Some td /\ Z.to_nat dest <> c /\ is_thread_alive td = false.

(** What one entry of the kernel makes of a message in the registers. *)
Lemma message_entry O s c tc load dest op bytes :
  KInv O s -> current_tcb s = Some c -> tcbs s !! c = Some tc -> 0 <= dest -> holds (regs (load_regs load tc)) bytes ->
  (length bytes <= 27)%nat -> Forall is_byte bytes ->
  exists s' tc', trap load (SysIpcSend dest op) s = Done tt s' /\ tcbs s' !! c = Some tc' /\
    (forall d td, dest = Z.of_nat d -> tcbs s !! d = Some td -> waits_for c td ->
       gets_message s' d c bytes /\
       (if Ipc.OPERATION_IS_CALL op then thread_state tc' = THREAD_STATE_WAIT_IPC_RECV /\ ipc_waiting_for tc' = Some d
        else reg (regs tc') 0 = 0)) /\
    (Ipc.OPERATION_IS_NON_BLOCKING op = false -> forall d td, dest = Z.of_nat d -> tcbs s !! d = Some td -> d <> c ->
       is_thread_alive td = true -> busy c td -> blocks_with s' td tc' d c (blocked_state op) bytes) /\
    (no_destination s c dest \/
     (Ipc.OPERATION_IS_NON_BLOCKING op = true /\ exists td, tcbs s !! Z.to_nat dest = Some td /\ Z.to_nat dest <> c /\ busy c td) ->
     reg (regs tc') 0 = u32 (-1) /\ current_tcb s' = Some c).
Proof.
  intros HK Hc Htc Hd Hh Hl Hb.
  destruct (trap_returns O s c tc load (SysIpcSend dest op) HK Hc Htc) as (s' & tc' & Htrap & He & HK' & Htc');
    [by split; [eauto using mk_is_Some|]|].
  pose proof (entered_kinv O s c load HK) as HK1. pose proof (entered_caller s c load tc Htc) as Htc1.
  exists s', tc'. split_and!; [done|done| | |].
  - intros d td -> Htd [Hst Hw]. assert (Hne : d <> c) by (intros ->; pose proof (kinv_running _ _ _ _ HK Hc Htc); congruence).
    destruct (ipc_send_result O (entered s c load) c d op (load_regs load tc) td HK1) as (s2 & tc2 & td2 & He2 & Htd2 & Hst2 & H0 & Hr & Htc2 & Hok);
      [done|done|by rewrite entered_other|done|done|].
    rewrite He in He2. injection He2 as <-. rewrite Htc' in Htc2. injection Htc2 as <-. split; [|done].
    assert (Hhold : holds (regs td2) bytes) by (eapply holds_copied; [done|]; intros i Hi; by apply Hr).
    exists td2. split_and!; [done|done|by apply received_intro|]. apply (answered_intro _ _ c); try done.
    destruct HK as (A & HR & HI). apply (d_dom _ (inv_data _ _ HI)). exists (erase tc). by eapply rep_lookup.
  - intros Hop d td -> Htd Hne Hal Hbusy.
    destruct (ipc_send_blocks O (entered s c load) c d op (load_regs load tc) td HK1) as (s2 & tc2 & td2 & He2 & Htc2 & Htd2 & Hst & Hwf & Hr & Hq);
      [done|done|by rewrite entered_other|done..|].
    rewrite He in He2. injection He2 as <-. rewrite Htc' in Htc2. injection Htc2 as <-. split_and!; [done|done|by rewrite Hr|by exists td2].
  - intros Hbad. destruct (ipc_send_fails O (entered s c load) c dest op (load_regs load tc) Hd HK1) as (s2 & tc2 & He2 & Hc2 & Htc2 & Herr);
      [done|done| |].
    + destruct Hbad as [[?|(td & Htd & Hne & Hbad)]|(Hop & td & Htd & Hne & Hbad)]; [by left| |];
        right; exists td; rewrite entered_other by done; (split; [done|]); [by left|right; by split].
    + rewrite He in He2. injection He2 as <-. rewrite Htc' in Htc2. injection Htc2 as <-. split; [exact Herr|done].
Qed.

(** Receiving a message.  When the running thread waits for a message
    and another is blocked sending one to it, the call enters the kernel once
    and returns the first sender's bytes, their number and the sender; a
    sender that only sent becomes runnable, with success as its result, and
    one that called waits for the answer of this thread. *)
Lemma message_wait_spec O s c b tc tb bytes recv n :
  KInv O s -> current_tcb s = Some c -> tcbs s !! c = Some tc -> ipc_send_head tc = Some b -> tcbs s !! b = Some tb ->
  holds (regs tb) bytes -> (length bytes <= OKL4_MESSAGE_MAX_SIZE)%nat -> Forall is_byte bytes -> receivable recv n ->
  let e := SysIpcRecv OKN_IPC_OPEN_WAIT 0 in
  let m := Nat.min n (length bytes) in
  exists load k s' tc' tb', okl4_message_wait recv n true true tt = Traps load e k /\
    trap load e s = Done tt s' /\ tcbs s' !! c = Some tc' /\ tcbs s' !! b = Some tb' /\
    k (regs tc') = Returns (OKL4_OK, take m bytes ++ drop m (b_bytes recv), Some (Z.of_nat (length bytes)), Some (Z.of_nat b)) tt /\
    (thread_state tb = THREAD_STATE_WAIT_IPC_SEND -> thread_state tb' = THREAD_STATE_RUNNABLE /\ get_reg 0 tb' = 0) /\
    (thread_state tb = THREAD_STATE_WAIT_IPC_CALL -> thread_state tb' = THREAD_STATE_WAIT_IPC_RECV /\ ipc_waiting_for tb' = Some c).
Proof.
  intros HK Hc Htc Hh Htb Hho Hl Hb HR e m. pose proof (sender_not_self _ _ _ _ _ HK Hc Htc Hh) as Hne. destruct (wait_resumes bytes recv n true true tt Hl Hb HR) as (load & k & Hw & Hk).
  destruct (trap_returns O s c tc load e HK Hc Htc) as (s' & tc' & Htrap & He & HK' & Htc'); [by split; [eauto using mk_is_Some|]|].
  destruct (ipc_recv_result O (entered s c load) c b (load_regs load tc) tb) as (s2 & tc2 & tb2 & He2 & Htc2 & Htb2 & H0 & Hr & Hst);
    [by apply entered_kinv|done|by apply entered_caller|by rewrite data_head|by rewrite entered_other|].
  assert (s2 = s') as -> by (unfold e, OKN_IPC_OPEN_WAIT in He; congruence). rewrite Htc' in Htc2. injection Htc2 as <-.
  exists load, k, s', tc', tb2. split_and!; [done|done|done|done| |apply Hst|apply Hst].
  rewrite (Hk (regs tc')); [|eapply holds_copied; [done|]; intros i Hi; by apply Hr]. unfold get_reg in H0. unfold reg. by rewrite H0.
Qed.


End message_properties.

(** Thread 1 waits for a message, and thread 0 sends it three bytes. *)
Module MsgDemo.
Definition waits : list event := [SysThreadCreate 4096 8192 7 20; SysIpcRecv (u32 (-1)) 0].
Definition tcb_of (s : kstate) (i : nat) : tcb := default (blank_tcb 0 THREAD_STATE_HALTED 0 None None) (tcbs s !! i).
Definition buff : Msg.buffer := Msg.Buffer 65536 [10; 20; 255; 7].
Lemma buff_sendable : MsgProof.sendable buff 3.
Proof. constructor; unfold Msg.OKL4_MESSAGE_MAX_SIZE; simpl; [lia|left; lia|done|lia|]. repeat constructor; unfold MsgProof.is_byte; lia. Qed.
Lemma buff_receivable : MsgProof.receivable buff 4.
Proof. constructor; unfold Msg.OKL4_MESSAGE_MAX_SIZE; simpl; [lia|left; lia|lia]. Qed.
Lemma thread_waits : waits_for 0 (tcb_of (Boot.after waits) 1).
Proof. split; [by vm_compute|left; by vm_compute]. Qed.
(** Thread 1 is created and runs below thread 0, which sends to it and
    blocks. *)
Definition created : list event := [SysThreadCreate 4096 8192 7 5].
Definition load : list (nat * Z) := match Msg.send 1 buff 3 true tt with Traps load _ _ => load | _ => [] end.
Definition blocked : kstate :=
  match @trap demo_cfg load (SysIpcSend 1 0) (Boot.after created) with Done _ s => s | Crash _ => boot end.
Lemma blocked_kinv : @KInv demo_cfg ∅ blocked.
Proof.
  unfold blocked.
  destruct (@MsgProof.trap_returns demo_cfg ∅ (Boot.after created) 0 (tcb_of (Boot.after created) 0) load (SysIpcSend 1 0))
    as (s' & t' & -> & _ & HK & _); [|by vm_compute|by vm_compute|by split; [eexists; vm_compute|]|done].
  apply (Boot.after_kinv created); [reflexivity|]. run_ok.
Qed.
End MsgDemo.


Example message_received :
  exists load k s' tc' tb', Msg.okl4_message_wait (Msg.Buffer 4 [1; 2; 3]) 2 true true tt = Traps load (SysIpcRecv (u32 (-1)) 0) k /\
    @trap demo_cfg load (SysIpcRecv (u32 (-1)) 0) MsgDemo.blocked = Done tt s' /\
    tcbs s' !! 1%nat = Some tc' /\ tcbs s' !! 0%nat = Some tb' /\
    k (regs tc') = Returns (OKL4_OK, [10; 20; 3], Some 3, Some 0) tt.
Proof.
  destruct (@message_wait_spec demo_cfg ∅ MsgDemo.blocked 1 0 (MsgDemo.tcb_of MsgDemo.blocked 1)
    (MsgDemo.tcb_of MsgDemo.blocked 0) [10; 20; 255] (Msg.Buffer 4 [1; 2; 3]) 2) as (load & k & s' & tc' & tb' & H1 & H2 & H3 & H4 & H5 & _).
  - apply MsgDemo.blocked_kinv.
  - vm_compute. reflexivity.
  - vm_compute. reflexivity.
  - vm_compute. reflexivity.
  - vm_compute. reflexivity.
  - split; [vm_compute; reflexivity|]. intros i Hi. do 7 (destruct i as [|i]; [first [vm_compute; reflexivity|lia]|]). lia.
  - simpl. unfold Msg.OKL4_MESSAGE_MAX_SIZE. lia.
  - repeat constructor; unfold MsgProof.is_byte; lia.
  - constructor; unfold Msg.OKL4_MESSAGE_MAX_SIZE; simpl; [lia|left; lia|lia].
  - exists load, k, s', tc', tb'. repeat (split; [assumption|]). exact H5.
Defined.
