(* ===== verification/NanoThreads.v ===== *)
(** * Threads and interrupts of the okl4 library

    The thread calls of [UserLib] compose the bitmap allocator, the library
    and the nanokernel: a protection domain's threads take their structures
    from a pool.  The interrupt sets follow the kernel's table of handlers. *)

From S2P Require Import Prelude NanoState NanoSchedule NanoSyscalls NanoSpec Rings NanoLinks NanoRep NanoRefineSched NanoInv NanoRefineFutex NanoRefineSys NanoInvPres NanoInvSys NanoBoot NanoKernel NanoTheorems BitmapAlloc UserLib NanoMessage.
#[local] Open Scope Z_scope.

(** Runs a library call up to its system call. *)
Ltac user_run :=
  unfold syscall_int, syscall_word, syscall, ubind, uget, uput, uret; cbn [call_bind].

Module ThrProof.
Import Thr MsgProof.

(** ** The calls, for any result of the system call *)

(** Creation, on the structure of the thread. *)
Lemma kthread_create_traps entry self attr k0 :
  let e := SysThreadCreate entry (attr_sp attr) self (attr_priority attr) in
  exists load r, okl4_kthread_create entry self attr k0 = Traps load e r /\
  forall regs, r regs =
    if s32 (reg regs 0) <? 0
    then Returns OKL4_INVALID_ARGUMENT (Kthread (cap k0) (attr_sp attr) (attr_ip attr) (attr_priority attr) 0)
    else Returns OKL4_OK (Kthread (u32 (s32 (reg regs 0))) (attr_sp attr) (attr_ip attr) (attr_priority attr) 0).
Proof.
  intros e. unfold okl4_kthread_create. user_run. eexists _, _. split; [reflexivity|]. intros regs. cbn beta.
  by destruct (s32 (reg regs 0) <? 0).
Qed.

(** The pool and its allocator. *)
Record pd_ok (p : pd) : Prop := {
  pd_alloc : Bitmap.wf (thread_alloc p);
  pd_base : Bitmap.base (thread_alloc p) = 0;
  pd_size : Bitmap.size (thread_alloc p) = Z.of_nat (length (thread_pool p));
  pd_pool : 0 < pool_addr p /\ pool_addr p + KTHREAD_SIZE * Z.of_nat (length (thread_pool p)) <= WORD_MOD
}.

(** Equal units, whatever the words. *)
Definition same_units (a a' : Bitmap.allocator) : Prop :=
  Bitmap.wf a' /\ forall v, (Bitmap.allocated a' v <-> Bitmap.allocated a v) /\ (Bitmap.available a' v <-> Bitmap.available a v).

(** The thread structure that a creation writes. *)
Definition new_thread (cap : Z) (attr : pd_thread_create_attr) : kthread := Kthread cap (c_sp attr) (c_ip attr) (c_priority attr) 0.

Lemma pd_thread_create_traps entry attr p :
  pd_ok p ->
  (exists u load r, Bitmap.available (thread_alloc p) u /\
     okl4_pd_thread_create entry attr p = Traps load (SysThreadCreate entry (c_sp attr) (pool_at p u) (c_priority attr)) r /\
     forall regs,
       if s32 (reg regs 0) <? 0
       then exists p', r regs = Returns (OKL4_INVALID_ARGUMENT, None) p' /\ same_units (thread_alloc p) (thread_alloc p')
       else exists p', r regs = Returns (OKL4_OK, Some (pool_at p u)) p' /\ Bitmap.takes (thread_alloc p) u (thread_alloc p') /\
              thread_pool p' = <[Z.to_nat u := new_thread (u32 (s32 (reg regs 0))) attr]> (thread_pool p)) \/
  (okl4_pd_thread_create entry attr p = Returns (OKL4_ALLOC_EXHAUSTED, None) p /\ forall u, ~ Bitmap.available (thread_alloc p) u).
Proof.
  intros [Hwf Hb Hs Hp].
  pose proof (Bitmap.anonymous_allocation_spec (thread_alloc p) Bitmap.okl4_bitmap_item_setany Hwf) as Ha. unfold wp in Ha.
  destruct (Bitmap.anonymous_allocation Bitmap.okl4_bitmap_item_setany (thread_alloc p)) as [[rc u] a1|] eqn:Ea; [|done].
  assert (Halloc : with_alloc (Bitmap.okl4_bitmap_allocator_alloc Bitmap.okl4_bitmap_item_setany) p =
    Returns (rc, u) (Pd a1 (pool_addr p) (thread_pool p))).
  { unfold with_alloc. change (Bitmap.okl4_bitmap_allocator_alloc Bitmap.okl4_bitmap_item_setany)
      with (Bitmap.anonymous_allocation Bitmap.okl4_bitmap_item_setany). by rewrite Ea. }
  destruct Ha as [(u' & [= -> ->] & Hav & Ht)|([= -> ->] & -> & Hn)]; [left|right].
  2: { split; [|done]. unfold okl4_pd_thread_create, ubind. rewrite Halloc. cbn. unfold uret. f_equal. by destruct p. }
  set (p1 := Pd a1 (pool_addr p) (thread_pool p)) in *.
  set (attr1 := okl4_kthread_attr_setpriority (okl4_kthread_attr_setspip okl4_kthread_attr_init (c_sp attr) (c_ip attr)) (c_priority attr)).
  assert (Hu : 0 <= u' < Z.of_nat (length (thread_pool p))) by (destruct Hav as [Hr _]; rewrite Hb, Hs in Hr; lia).
  destruct (lookup_lt_is_Some_2 (thread_pool p) (Z.to_nat u')) as [k0 Hk0]; [lia|].
  destruct (kthread_create_traps entry (pool_at p u') attr1 k0) as (load & r & Hc & Hr).
  assert (Hth : with_thread u' (okl4_kthread_create entry (pool_at p u') attr1) p1 =
    Traps load (SysThreadCreate entry (c_sp attr) (pool_at p u') (c_priority attr)) (fun regs => call_at (Z.to_nat u') p1 (r regs))).
  { unfold with_thread. rewrite (proj2 (Z.leb_le 0 u')) by lia. cbn [thread_pool p1]. rewrite Hk0. by rewrite Hc. }
  eexists u', load, _. split; [done|]. split.
  - unfold okl4_pd_thread_create, ubind at 1. rewrite Halloc. cbn [call_bind]. change (negb (OKL4_OK =? 0)) with false. cbv iota.
    unfold ubind, uget. cbn [call_bind]. fold attr1. change (pool_at p1 u') with (pool_at p u'). rewrite Hth. cbn [call_bind]. reflexivity.
  - intros regs. cbn beta. rewrite Hr. destruct (s32 (reg regs 0) <? 0); cbn [call_at call_bind].
    + change (negb (OKL4_INVALID_ARGUMENT =? 0)) with true. cbv iota. unfold with_alloc. cbn [thread_alloc]. change (thread_alloc p1) with a1.
      pose proof (Bitmap.free_spec a1 u' (Bitmap.takes_wf _ _ _ Ht)) as Hf. rewrite (Bitmap.takes_base _ _ _ Ht), (Bitmap.takes_size _ _ _ Ht) in Hf.
      specialize (Hf (proj1 Hav)). unfold wp in Hf. destruct (Bitmap.okl4_bitmap_allocator_free u' a1) as [[] a2|]; [|done].
      cbn [call_bind]. eexists. split; [reflexivity|]. cbn [thread_alloc]. split; [apply Hf|by eapply Bitmap.takes_gives].
    + change (negb (OKL4_OK =? 0)) with false. cbv iota. eexists. split; [reflexivity|]. by split.
Qed.

(** ** Joining *)

Lemma pool_at_value p i : pd_ok p -> 0 <= i < Z.of_nat (length (thread_pool p)) -> pool_at p i = pool_addr p + KTHREAD_SIZE * i.
Proof.
  intros [_ _ _ [H1 H2]] Hi. unfold pool_at. apply u32_word. unfold is_word, KTHREAD_SIZE in *. lia.
Qed.

Lemma find_thread_spec p i : forall n j, pd_ok p -> 0 <= j <= i -> i < j + Z.of_nat n -> j + Z.of_nat n <= Z.of_nat (length (thread_pool p)) ->
  find_thread n j p (pool_at p i) = i.
Proof.
  induction n as [|n IH]; intros j Hp Hj Hi Hn; [lia|]. simpl.
  destruct (Z.eqb_spec (pool_at p j) (pool_at p i)) as [He|Hne].
  - rewrite !pool_at_value in He by (done || lia). unfold KTHREAD_SIZE in He. lia.
  - apply IH; [done| |lia|lia]. assert (j <> i) by congruence. lia.
Qed.

(** The call succeeds and gives unit [i] back. *)
Definition gives_back (p : pd) (i : Z) (r : call pd Z) : Prop :=
  exists p', r = Returns OKL4_OK p' /\ Bitmap.gives (thread_alloc p) i (thread_alloc p') /\ thread_pool p' = thread_pool p.

Lemma pd_thread_join_traps p i k :
  pd_ok p -> 0 <= i -> thread_pool p !! Z.to_nat i = Some k ->
  exists load r, okl4_pd_thread_join (pool_at p i) p = Traps load (SysThreadJoin (cap k)) r /\
  forall regs,
    if s32 (reg regs 0) <? 0 then r regs = Faults AssertionFailed else gives_back p i (r regs).
Proof.
  intros Hok Hi Hk. pose proof Hok as [Hwf Hb Hs Hp]. pose proof (lookup_lt_Some _ _ _ Hk) as Hlt.
  pose proof (pool_at_value p i Hok) as Hv. eexists _, _. split.
  - unfold okl4_pd_thread_join, ubind at 1.
    assert (Hnz : negb (pool_at p i =? 0) = true).
    { rewrite Hv by lia. apply negb_true_iff, Z.eqb_neq. unfold KTHREAD_SIZE. lia. }
    rewrite uassert_true by done. cbn [call_bind]. unfold ubind at 1, uget. cbn [call_bind].
    rewrite find_thread_spec by (done || lia). unfold ubind at 1. rewrite uassert_true by (apply Z.ltb_lt; lia). cbn [call_bind].
    unfold ubind, with_thread. rewrite (proj2 (Z.leb_le 0 i)) by done. rewrite Hk. unfold okl4_kthread_join. user_run. cbn [call_at call_bind].
    reflexivity.
  - intros regs. cbn beta. destruct (s32 (reg regs 0) <? 0); cbn [call_at call_bind]; [done|].
    unfold uassert, uret. change (OKL4_OK =? 0) with true. cbv iota. cbn [call_bind]. unfold with_alloc. cbn [thread_alloc].
    pose proof (Bitmap.free_spec (thread_alloc p) i Hwf) as Hf. unfold wp in Hf.
    destruct (Bitmap.okl4_bitmap_allocator_free i (thread_alloc p)) as [[] a2|]; [|by exfalso; apply Hf; lia].
    cbn [call_bind]. eexists. split; [reflexivity|]. cbn [thread_alloc thread_pool]. split; [apply Hf; lia|].
    by apply list_insert_id.
Qed.

(** ** The kernel's side *)

Section kernel.
Context {cfg : NanoConfig}.

(** Without a free TCB no thread is created. *)
Lemma thread_create_fails O s c tc pc sp r0 prio :
  KInv O s -> current_tcb s = Some c -> tcbs s !! c = Some tc -> tcb_free_head s = None -> 0 <= prio ->
  exists s' tc', exec (SysThreadCreate pc sp r0 prio) s = Done tt s' /\ tcbs s' !! c = Some tc' /\ get_reg 0 tc' = u32 (-1).
Proof.
  intros HK Hc Htc Hfree Hp.
  destruct (exec_result O s (SysThreadCreate pc sp r0 prio) HK) as (A & s' & HR & HI & He & HR' & _);
    [by split; [eauto using mk_is_Some|]|].
  unfold caller in HR'. rewrite Hc in HR'. simpl in HR'. pose proof (rep_lookup _ _ _ _ HR Htc) as Hac.
  rewrite (rep_free _ _ HR) in Hfree. unfold a_sys_thread_create in HR'.
  destruct (a_queue A QFree) as [|x l]; [|done].
  assert (HR2 : Rep s' (a_return c (-1) A)) by (by destruct (MAX_PRIORITY <? prio)).
  destruct (rep_lookup_inv s' _ c (set_reg 0 (u32 (-1)) (erase tc)) HR2) as (tc' & Htc' & Het).
  { simpl. by rewrite lookup_alter_eq, Hac. }
  exists s', tc'. split_and!; [done|done|]. change (get_reg 0 (erase tc') = u32 (-1)). rewrite Het.
  pose proof (d_regs _ (inv_data _ _ HI) _ _ Hac). by rewrite get_set_reg_eq by lia.
Qed.

(** A thread that nobody can join: there is none, it is dead, or another
    thread waits for its exit. *)
Definition not_joinable (s : kstate) (d : Z) : Prop :=
  Z.of_nat max_tcbs <= d \/
  exists td, tcbs s !! Z.to_nat d = Some td /\
    (thread_state td = THREAD_STATE_HALTED \/ thread_state td <> THREAD_STATE_ZOMBIE /\ joiner td <> None).

(** What the kernel makes of a join: an error, the thread reaped, or the
    caller waiting for its exit. *)
Definition join_outcome (s s' : kstate) (c : nat) (d : Z) (tc' : tcb) : Prop :=
  (not_joinable s d /\ get_reg 0 tc' = 1 /\ current_tcb s' = Some c) \/
  (exists td, tcbs s !! Z.to_nat d = Some td /\ thread_state td = THREAD_STATE_ZOMBIE /\
     get_reg 0 tc' = 0 /\ tcb_free_head s' = Some (Z.to_nat d) /\ current_tcb s' = Some c) \/
  (exists td td', tcbs s !! Z.to_nat d = Some td /\ is_thread_alive td = true /\ joiner td = None /\
     get_reg 0 tc' = 0 /\ thread_state tc' = THREAD_STATE_WAIT_JOIN /\
     tcbs s' !! Z.to_nat d = Some td' /\ joiner td' = Some c).

(** A caller that waits for the exit of [d], on the abstract kernel. *)
Lemma join_waits_abs A c d tc td :
  a_current A = Some c -> a_tcbs A !! c = Some tc -> a_tcbs A !! d = Some td ->
  let '(n, A1) := a_deactivate_self_schedule THREAD_STATE_WAIT_JOIN (a_return c 0 A) in
  let B := a_switch_to n (a_upd d (set_joiner (Some c)) A1) in
  (exists t, a_tcbs B !! c = Some t /\ regs t = regs (set_reg 0 0 tc) /\ thread_state t = THREAD_STATE_WAIT_JOIN) /\
  exists t, a_tcbs B !! d = Some t /\ joiner t = Some c.
Proof.
  intros Hcur Hc Hd. unfold a_deactivate_self_schedule, a_deactivate_self. change (a_current (a_return c 0 A)) with (a_current A).
  rewrite Hcur. set (A1 := a_upd c _ _). pose proof (a_do_schedule_tcbs A1) as HA1. destruct (a_do_schedule A1) as [n A2].
  simpl in *. rewrite HA1. destruct (decide (c = d)) as [<-|Hne].
  - rewrite !lookup_alter_eq, Hc. split; by eexists.
  - rewrite (lookup_alter_ne _ _ d c), !lookup_alter_eq, !lookup_alter_ne, Hc, Hd by done. split; by eexists.
Qed.

(** A caller that gets the result [v] at once. *)
Lemma join_returns s' A c v tc :
  Rep s' (a_return c v A) -> a_tcbs A !! c = Some (erase tc) -> length (regs tc) = 16%nat -> is_word v ->
  exists tc', tcbs s' !! c = Some tc' /\ get_reg 0 tc' = v /\ current_tcb s' = a_current A.
Proof.
  intros HR Hac Hl Hv. destruct (rep_lookup_inv s' _ c (set_reg 0 (u32 v) (erase tc)) HR) as (tc' & Htc' & Het).
  { simpl. by rewrite lookup_alter_eq, Hac. }
  exists tc'. split_and!; [done| |by rewrite <-(rep_current _ _ HR)].
  change (get_reg 0 (erase tc') = v). rewrite Het, get_set_reg_eq by (simpl; lia). by apply u32_word.
Qed.

(** It is the same when the caller's registers are loaded first. *)
Lemma join_outcome_entered s s' c d load tc' : join_outcome (entered s c load) s' c d tc' -> join_outcome s s' c d tc'.
Proof.
  assert (Hl : forall td1, tcbs (entered s c load) !! Z.to_nat d = Some td1 -> exists td, tcbs s !! Z.to_nat d = Some td /\
    thread_state td1 = thread_state td /\ joiner td1 = joiner td).
  { intros td1. simpl. rewrite lookup_alter_Some. intros [(<- & t & Ht & ->)|[_ Ht]]; [exists t|by exists td1].
    by rewrite irr_state, irr_joiner. }
  intros [([Hm|(td1 & Ht & Hn)] & H)|[(td1 & Ht & Hs & H)|(td1 & td' & Ht & Hs & Hj & H)]];
    [left; by split; [left|]| | |]; destruct (Hl _ Ht) as (td & Htd & Est & Ej).
  - left. split; [|done]. right. exists td. by rewrite <-Est, <-Ej.
  - right; left. exists td. by rewrite <-Est.
  - right; right. exists td, td'. rewrite is_thread_alive_spec in *. by rewrite <-Est, <-Ej.
Qed.

Lemma thread_join_result O s c tc d :
  KInv O s -> current_tcb s = Some c -> tcbs s !! c = Some tc -> 0 <= d ->
  exists s' tc', exec (SysThreadJoin d) s = Done tt s' /\ tcbs s' !! c = Some tc' /\ join_outcome s s' c d tc'.
Proof.
  intros HK Hc Htc Hd.
  destruct (exec_result O s (SysThreadJoin d) HK) as (A & s' & HR & HI & He & HR' & _); [by split; [eauto using mk_is_Some|]|].
  unfold caller in HR'. rewrite Hc in HR'. simpl in HR'. pose proof (rep_lookup _ _ _ _ HR Htc) as Hac.
  pose proof (inv_data _ _ HI) as HD. pose proof (d_regs _ HD _ _ Hac) as Hl. simpl in Hl.
  assert (Hcur : a_current A = Some c) by (by rewrite (rep_current _ _ HR)).
  assert (Herr : Rep s' (a_return c 1 A) -> not_joinable s d -> exists tc', tcbs s' !! c = Some tc' /\ join_outcome s s' c d tc').
  { intros HR1 Hno. destruct (join_returns _ _ _ _ _ HR1 Hac Hl) as (tc' & Htc' & H0 & Hcu); [by unfold is_word, WORD_MOD; lia|].
    exists tc'. split; [done|]. left. by rewrite Hcu. }
  exists s'. cut (exists tc', tcbs s' !! c = Some tc' /\ join_outcome s s' c d tc'); [by intros (tc' & ? & ?); exists tc'|].
  unfold a_sys_thread_join in HR'. destruct (Z.leb_spec (Z.of_nat max_tcbs) d); [by apply Herr; [|left]|].
  destruct (proj2 (d_dom _ HD (Z.to_nat d)) ltac:(lia)) as [td0 Had].
  destruct (rep_lookup_inv s _ _ _ HR Had) as (td & Htd & <-). unfold a_state in HR'. rewrite !(a_get_eq _ _ _ _ _ Had) in HR'.
  change (thread_state (erase td)) with (thread_state td) in *. change (joiner (erase td)) with (joiner td) in *.
  case_bool_decide as Hh; [apply Herr; [done|right; exists td; by split; [|left]]|]. case_bool_decide as Hz.
  - assert (Hne : Z.to_nat d <> c) by (intros <-; pose proof (kinv_running _ _ _ _ HK Hc Htd); congruence).
    destruct (join_returns _ _ _ _ _ HR' ltac:(simpl; by rewrite lookup_alter_ne) Hl) as (tc' & Htc' & H0 & Hcu); [by unfold is_word, WORD_MOD; lia|].
    exists tc'. split; [done|]. right; left. exists td. split_and!; [done|done|done| |by rewrite Hcu].
    by rewrite (rep_free _ _ HR').
  - case_bool_decide as Hj; [apply Herr; [done|right; exists td; by split; [|right]]|].
    pose proof (join_waits_abs A c _ _ _ Hcur Hac Had) as Hw. destruct (a_deactivate_self_schedule _ _) as [n A1].
    destruct Hw as [(t & Ht & Hr & Hst) (t' & Ht' & Hj')].
    destruct (rep_lookup_inv s' _ _ _ HR' Ht) as (tc' & Htc' & Het). destruct (rep_lookup_inv s' _ _ _ HR' Ht') as (td' & Htd' & Hed).
    exists tc'. split; [done|]. right; right. exists td, td'. split_and!; [done| |done| | |done|].
    + rewrite is_thread_alive_spec. unfold alive_state. by rewrite !bool_decide_false.
    + change (get_reg 0 (erase tc') = 0). rewrite Het. unfold get_reg. rewrite Hr. by apply (get_set_reg_eq 0 0 (erase tc)); simpl; lia.
    + change (thread_state (erase tc') = THREAD_STATE_WAIT_JOIN). by rewrite Het.
    + change (joiner (erase td') = Some c). by rewrite Hed.
Qed.

End kernel.

Lemma s32_tid n : 0 <= n < 2 ^ 31 -> s32 n = n.
Proof. intros Hn. unfold s32, u32, WORD_MOD. rewrite Z.mod_small by lia. by rewrite (proj2 (Z.ltb_lt _ _)) by lia. Qed.

Lemma s32_negative n : 2 ^ 31 <= n < 2 ^ 32 -> s32 n < 0.
Proof. intros Hn. unfold s32, u32, WORD_MOD. rewrite Z.mod_small by lia. rewrite (proj2 (Z.ltb_ge _ _)) by lia. lia. Qed.

End ThrProof.

(** ** The theorems *)

Section thread_properties.
Context {cfg : NanoConfig}.
Import Thr MsgProof ThrProof.

(** Threads of a protection domain.  Creation takes a free structure of
    the pool and makes one system call; when the kernel has a free TCB, the
    new thread is runnable at the library's entry point with the structure as
    its argument, and the structure records the kernel's name for it;
    otherwise the structure is given back.  Without a free structure nothing
    happens.  A join of a thread of the pool makes one system call and then
    gives its structure back, also when the kernel reports that the thread
    cannot be joined; only a negative result, which the kernel does not give,
    fails an assertion. *)
Lemma pd_threads_spec O s c tc entry attr p :
  KInv O s -> current_tcb s = Some c -> tcbs s !! c = Some tc -> Z.of_nat max_tcbs < 2 ^ 31 ->
  0 <= c_priority attr <= MAX_PRIORITY -> pd_ok p ->
  ((okl4_pd_thread_create entry attr p = Returns (OKL4_ALLOC_EXHAUSTED, None) p /\ forall u, ~ Bitmap.available (thread_alloc p) u) \/
   exists u load k s' tc', Bitmap.available (thread_alloc p) u /\
     let e := SysThreadCreate entry (c_sp attr) (pool_at p u) (c_priority attr) in
     okl4_pd_thread_create entry attr p = Traps load e k /\ trap load e s = Done tt s' /\ tcbs s' !! c = Some tc' /\
     match tcb_free_head s with
     | Some n => exists p' tn, k (regs tc') = Returns (OKL4_OK, Some (pool_at p u)) p' /\
         Bitmap.takes (thread_alloc p) u (thread_alloc p') /\
         thread_pool p' = <[Z.to_nat u := new_thread (Z.of_nat n) attr]> (thread_pool p) /\
         tcbs s' !! n = Some tn /\ thread_state tn = THREAD_STATE_RUNNABLE /\ priority tn = c_priority attr /\
         get_reg 15 tn = entry /\ get_reg 13 tn = c_sp attr /\ get_reg 0 tn = pool_at p u
     | None => exists p', k (regs tc') = Returns (OKL4_INVALID_ARGUMENT, None) p' /\ same_units (thread_alloc p) (thread_alloc p')
     end) /\
  (forall i k, 0 <= i -> thread_pool p !! Z.to_nat i = Some k ->
   exists load r, okl4_pd_thread_join (pool_at p i) p = Traps load (SysThreadJoin (cap k)) r /\
     (forall regs, if s32 (reg regs 0) <? 0 then r regs = Faults AssertionFailed else gives_back p i (r regs)) /\
     (0 <= cap k -> exists s' tc', trap load (SysThreadJoin (cap k)) s = Done tt s' /\ tcbs s' !! c = Some tc' /\
        join_outcome s s' c (cap k) tc' /\ gives_back p i (r (regs tc')))).
Proof.
  intros HK Hc Htc Hmax Hprio Hok. split.
  - destruct (pd_thread_create_traps entry attr p Hok) as [(u & load & k & Hav & Hcall & Hk)|]; [right|by left].
    set (e := SysThreadCreate entry (c_sp attr) (pool_at p u) (c_priority attr)).
    destruct (trap_returns O s c tc load e HK Hc Htc) as (s' & tc' & Htrap & He & HK' & Htc'); [split; [eauto using mk_is_Some|simpl; lia]|].
    exists u, load, k, s', tc'. split_and!; [done|]. split_and!; [done|done|done|]. specialize (Hk (regs tc')).
    pose proof (entered_kinv O s c load HK) as HK1. pose proof (entered_caller s c load tc Htc) as Htc1.
    destruct (tcb_free_head s) as [n|] eqn:Hf.
    + destruct (thread_create_result O (entered s c load) c n entry (c_sp attr) (pool_at p u) (c_priority attr) HK1 Hc Hf Hprio)
        as (s2 & tn & tc2 & He2 & Htn & Hst & H15 & H13 & H0 & Hp & _ & _ & Hne & Htc2 & Hr).
      unfold e in He. rewrite He in He2. injection He2 as <-. rewrite Htc' in Htc2. injection Htc2 as <-.
      change (get_reg 0 tc') with (reg (regs tc') 0) in Hr. rewrite Hr in Hk.
      assert (Hn : (n < max_tcbs)%nat).
      { destruct HK' as (A & HR & HI). apply (d_dom _ (inv_data _ _ HI)). exists (erase tn). by eapply rep_lookup. }
      rewrite s32_tid, (proj2 (Z.ltb_ge (Z.of_nat n) 0)), u32_word in Hk by (unfold is_word, WORD_MOD; lia).
      destruct Hk as (p' & Hk & Ht & Hpool). exists p', tn. by split_and!.
    + destruct (thread_create_fails O (entered s c load) c (load_regs load tc) entry (c_sp attr) (pool_at p u) (c_priority attr) HK1 Hc Htc1 Hf)
        as (s2 & tc2 & He2 & Htc2 & Hr); [lia|].
      unfold e in He. rewrite He in He2. injection He2 as <-. rewrite Htc' in Htc2. injection Htc2 as <-.
      change (get_reg 0 tc') with (reg (regs tc') 0) in Hr. rewrite Hr in Hk. exact Hk.
  - intros i k Hi Hk. destruct (pd_thread_join_traps p i k Hok Hi Hk) as (load & r & Hj & Hr). exists load, r. split_and!; [done|done|].
    intros Hcap. destruct (thread_join_result O (entered s c load) c (load_regs load tc) (cap k)) as (s' & tc' & He & Htc' & Ho);
      [by apply entered_kinv|done|by apply entered_caller|done|].
    exists s', tc'. split_and!; [by rewrite (trap_enter _ _ _ _ _ Hc Htc)|done|by eapply join_outcome_entered|].
    specialize (Hr (regs tc')). assert (H0 : get_reg 0 tc' = 0 \/ get_reg 0 tc' = 1) by (destruct Ho as [(_ & ? & _)|[(? & _ & _ & ? & _)|(? & ? & _ & _ & _ & ? & _)]]; auto).
    change (reg (regs tc') 0) with (get_reg 0 tc') in Hr. by destruct H0 as [H0|H0]; rewrite H0 in Hr.
Qed.

End thread_properties.

(** ** Sets of interrupts *)

Module IrqProof.
Import Irq MsgProof ThrProof.

Section kernel.
Context {cfg : NanoConfig}.

(** The result of a system call that only changes the caller and the tables. *)
Lemma caller_result O s c tc e v A' (f : tcb -> tcb) :
  KInv O s -> current_tcb s = Some c -> tcbs s !! c = Some tc -> enabled e s -> is_word v ->
  (forall t, length (regs (f t)) = length (regs t)) ->
  (forall A, Rep s A -> AInv O A -> a_exec c e A = a_return c v (A' A) /\ a_tcbs (A' A) !! c = Some (f (erase tc))) ->
  exists s' tc' A, Rep s A /\ AInv O A /\ exec e s = Done tt s' /\ tcbs s' !! c = Some tc' /\ get_reg 0 tc' = v /\ Rep s' (a_return c v (A' A)) /\
    erase tc' = set_reg 0 v (f (erase tc)).
Proof.
  intros HK Hc Htc Hen Hv Hf HA. destruct (exec_result O s e HK Hen) as (A & s' & HR & HI & He & HR' & _).
  unfold caller in HR'. rewrite Hc in HR'. simpl default in HR'. destruct (HA A HR HI) as [Hex Hac]. rewrite Hex in HR'.
  destruct (rep_lookup_inv s' _ c (set_reg 0 v (f (erase tc))) HR') as (tc' & Htc' & Het).
  { simpl. rewrite lookup_alter_eq, Hac. simpl. by rewrite u32_word. }
  exists s', tc', A. split_and!; try done. change (get_reg 0 (erase tc') = v). rewrite Het. apply get_set_reg_eq. rewrite Hf.
  pose proof (d_regs _ (inv_data _ _ HI) c (erase tc)) as Hl. rewrite Hl by (by eapply rep_lookup). lia.
Qed.

(** Registration: the table, and the caller's registration. *)
Lemma interrupt_register_result O s c tc i :
  KInv O s -> current_tcb s = Some c -> tcbs s !! c = Some tc -> 0 <= i ->
  exists s' tc', exec (SysInterruptRegister i) s = Done tt s' /\ tcbs s' !! c = Some tc' /\
    ((get_reg 0 tc' = 0 /\ i < NUM_INTERRUPTS /\ interrupt_handlers s !! Z.to_nat i = Some None /\
      registered_interrupt tc = Interrupt.NO_INTERRUPT /\ interrupt_handlers s' = <[Z.to_nat i := Some c]> (interrupt_handlers s)) \/
     (get_reg 0 tc' = 1 /\ ~ (i < NUM_INTERRUPTS /\ interrupt_handlers s !! Z.to_nat i = Some None /\ registered_interrupt tc = Interrupt.NO_INTERRUPT) /\
      interrupt_handlers s' = interrupt_handlers s /\ registered_interrupt tc' = registered_interrupt tc)).
Proof.
  intros HK Hc Htc Hi. set (good := i < NUM_INTERRUPTS /\ interrupt_handlers s !! Z.to_nat i = Some None /\ registered_interrupt tc = Interrupt.NO_INTERRUPT).
  assert (Hen : enabled (SysInterruptRegister i) s) by (split; [eauto using mk_is_Some|done]).
  destruct (decide (i < NUM_INTERRUPTS /\ interrupt_handlers s !! Z.to_nat i = Some None /\ registered_interrupt tc = Interrupt.NO_INTERRUPT)) as [(H1 & H2 & H3)|Hbad].
  - set (A' := fun A => a_upd c (set_registered_interrupt (u32 i)) (a_set_handlers (<[Z.to_nat i := Some c]> (a_handlers A))
      (if multi_unit then a_set_int_mask (Interrupt.register_int_mask (a_prio A c) i (a_int_mask A)) A else A))).
    destruct (caller_result O s c tc (SysInterruptRegister i) 0 A' (set_registered_interrupt (u32 i)) HK Hc Htc Hen) as (s' & tc' & A & HR & HI & He & Htc' & H0 & HR' & _);
      [done|done| |].
    { intros A HR HI. pose proof (rep_lookup _ _ _ _ HR Htc) as Hac. simpl. unfold a_sys_interrupt_register.
      rewrite (proj2 (Z.leb_gt _ _) H1), (rep_handlers _ _ HR), H2, (a_get_eq _ _ _ _ _ Hac). change (registered_interrupt (erase tc)) with (registered_interrupt tc).
      rewrite H3, Z.eqb_refl. split; [unfold A'; by rewrite (rep_handlers _ _ HR)|].
      unfold A'. by destruct multi_unit; simpl; rewrite lookup_alter_eq, Hac. }
    exists s', tc'. split_and!; [done|done|]. left. split_and!; try done.
    rewrite <-(rep_handlers _ _ HR'), <-(rep_handlers _ _ HR). done.
  - destruct (caller_result O s c tc (SysInterruptRegister i) 1 (fun A => A) (fun t => t) HK Hc Htc Hen) as (s' & tc' & A & HR & HI & He & Htc' & H0 & HR' & Het);
      [done|done| |].
    { intros A HR HI. pose proof (rep_lookup _ _ _ _ HR Htc) as Hac. split; [|done]. simpl. unfold a_sys_interrupt_register.
      destruct (Z.leb_spec NUM_INTERRUPTS i) as [|H1]; [done|]. rewrite (rep_handlers _ _ HR).
      destruct (interrupt_handlers s !! Z.to_nat i) as [[h|]|] eqn:H2; [done| |done]. rewrite (a_get_eq _ _ _ _ _ Hac).
      destruct (Z.eqb_spec (registered_interrupt (erase tc)) Interrupt.NO_INTERRUPT) as [H3|]; [|done]. by destruct Hbad. }
    exists s', tc'. split_and!; [done|done|]. right. split_and!; try done.
    + by rewrite <-(rep_handlers _ _ HR'), <-(rep_handlers _ _ HR).
    + change (registered_interrupt (erase tc') = registered_interrupt tc). by rewrite Het.
Qed.

(** Deregistration of an interrupt the caller is registered for. *)
Lemma interrupt_deregister_result O s c tc i :
  KInv O s -> current_tcb s = Some c -> tcbs s !! c = Some tc -> 0 <= i -> interrupt_handlers s !! Z.to_nat i = Some (Some c) ->
  exists s' tc', exec (SysInterruptDeregister i) s = Done tt s' /\ tcbs s' !! c = Some tc' /\ get_reg 0 tc' = 0 /\
    registered_interrupt tc' = Interrupt.NO_INTERRUPT /\ interrupt_handlers s' = <[Z.to_nat i := None]> (interrupt_handlers s).
Proof.
  intros HK Hc Htc Hi Hh. assert (Hen : enabled (SysInterruptDeregister i) s) by (split; [eauto using mk_is_Some|done]).
  set (A' := fun A => a_set_handlers (<[Z.to_nat i := None]> (a_handlers A)) (a_upd c (set_registered_interrupt Interrupt.NO_INTERRUPT)
      (if multi_unit then a_set_int_mask (Interrupt.deregister_int_mask i (a_int_mask A)) A else A))).
  destruct (caller_result O s c tc (SysInterruptDeregister i) 0 A' (set_registered_interrupt Interrupt.NO_INTERRUPT) HK Hc Htc Hen)
    as (s' & tc' & A & HR & HI & He & Htc' & H0 & HR' & Het); [done|done| |].
  { intros A HR HI. pose proof (rep_lookup _ _ _ _ HR Htc) as Hac. simpl. unfold a_sys_interrupt_deregister.
    assert (H1 : i < NUM_INTERRUPTS).
    { pose proof (d_handlers_len _ (inv_data _ _ HI)) as Hl. rewrite (rep_handlers _ _ HR) in Hl. apply lookup_lt_Some in Hh. lia. }
    rewrite (proj2 (Z.leb_gt _ _) H1), (rep_handlers _ _ HR), Hh, bool_decide_true by done. split; [unfold A'; by rewrite (rep_handlers _ _ HR)|].
    unfold A'. by destruct multi_unit; simpl; rewrite lookup_alter_eq, Hac. }
  exists s', tc'. split_and!; try done.
  - change (registered_interrupt (erase tc') = Interrupt.NO_INTERRUPT). by rewrite Het.
  - by rewrite <-(rep_handlers _ _ HR'), <-(rep_handlers _ _ HR).
Qed.

End kernel.

(** The set agrees with the kernel: it holds the interrupt that the thread is
    registered for. *)
Definition agrees (s : kstate) (c : nat) (t : tcb) (set : okl4_irqset) : Prop :=
  (num_interrupts set = 0 /\ length (irqs set) = 1%nat /\ registered_interrupt t = Interrupt.NO_INTERRUPT) \/
  (num_interrupts set = 1 /\ exists i, irqs set = [i] /\ 0 <= i < 2 ^ 31 /\ interrupt_handlers s !! Z.to_nat i = Some (Some c)).

(** The calls, for any result of the system call. *)
Lemma register_traps i set :
  num_interrupts set = 0 -> length (irqs set) = 1%nat ->
  exists load k, okl4_irqset_register i set = Traps load (SysInterruptRegister (s32 i)) k /\
  forall regs, k regs = if s32 (reg regs 0) =? 0 then Returns OKL4_OK (Irqset (owner set) 1 (max_interrupts set) [i])
                        else Returns OKL4_INVALID_ARGUMENT set.
Proof.
  intros Hn Hl. unfold okl4_irqset_register. user_run. rewrite Hn. cbn [Z.ltb Z.compare call_bind]. eexists _, _. split; [reflexivity|].
  intros regs. cbn beta. cbn [call_bind]. destruct (s32 (reg regs 0) =? 0); [|done]. cbn [negb call_bind]. rewrite Hn, Hl. cbn.
  destruct (irqs set) as [|x [|]]; done.
Qed.

Lemma deregister_traps i set :
  num_interrupts set = 1 -> irqs set = [i] ->
  exists load k, okl4_irqset_deregister i set = Traps load (SysInterruptDeregister (s32 i)) k /\
  forall regs, k regs = if s32 (reg regs 0) =? 0 then Returns OKL4_OK (Irqset (owner set) 0 (max_interrupts set) [i])
                        else Faults AssertionFailed.
Proof.
  intros Hn Hi. unfold okl4_irqset_deregister, irq_at. user_run. rewrite Hn, Hi, Z.eqb_refl. cbn -[Z.eqb s32].
  change (udemand IndexOutOfBounds ([i] !! Z.to_nat 0) set) with (@Returns okl4_irqset Z i set). cbn [call_bind].
  rewrite Z.eqb_refl. cbn -[Z.eqb s32]. eexists _, _. split; [reflexivity|]. intros regs. cbn -[Z.eqb s32]. unfold uassert.
  destruct (s32 (reg regs 0) =? 0); [|done]. cbn. by rewrite Hi.
Qed.

End IrqProof.

Section irqset_properties.
Context {cfg : NanoConfig}.
Import Irq MsgProof ThrProof IrqProof.

(** A set of interrupts follows the kernel.  When a thread's set agrees
    with the kernel's table, it does so after every call:
    - registering makes one system call when the set is empty, and succeeds
      exactly when the interrupt exists and has no handler; then the thread
      is its handler; a set that is not empty is refused at once; a word of
      2^31 and more becomes a negative number, with which the kernel indexes
      its table out of bounds;
    - deregistering succeeds exactly for the interrupt of the set, and then
      the interrupt has no handler. *)
Lemma irqset_spec O s c tc set i :
  KInv O s -> current_tcb s = Some c -> tcbs s !! c = Some tc -> agrees s c tc set ->
  (if 0 <? num_interrupts set then okl4_irqset_register i set = Returns OKL4_ALLOC_EXHAUSTED set
   else exists load k, okl4_irqset_register i set = Traps load (SysInterruptRegister (s32 i)) k /\
     (0 <= i < 2 ^ 31 -> exists s' tc' r set',
        trap load (SysInterruptRegister (s32 i)) s = Done tt s' /\ tcbs s' !! c = Some tc' /\
        k (regs tc') = Returns r set' /\ agrees s' c tc' set' /\
        ((r = OKL4_OK /\ num_interrupts set' = 1 /\ irqs set' = [i] /\ i < NUM_INTERRUPTS /\ interrupt_handlers s !! Z.to_nat i = Some None) \/
         (r = OKL4_INVALID_ARGUMENT /\ set' = set /\ interrupt_handlers s' = interrupt_handlers s /\
          ~ (i < NUM_INTERRUPTS /\ interrupt_handlers s !! Z.to_nat i = Some None)))) /\
     (2 ^ 31 <= i < 2 ^ 32 -> trap load (SysInterruptRegister (s32 i)) s = Crash IndexOutOfBounds)) /\
  (if (num_interrupts set =? 1) && bool_decide (irqs set = [i]) then
     exists load k s' tc' set', okl4_irqset_deregister i set = Traps load (SysInterruptDeregister (s32 i)) k /\
       trap load (SysInterruptDeregister (s32 i)) s = Done tt s' /\ tcbs s' !! c = Some tc' /\
       k (regs tc') = Returns OKL4_OK set' /\ agrees s' c tc' set' /\ num_interrupts set' = 0 /\
       interrupt_handlers s' = <[Z.to_nat i := None]> (interrupt_handlers s)
   else okl4_irqset_deregister i set = Returns OKL4_INVALID_ARGUMENT set).
Proof.
  intros HK Hc Htc Hag. split.
  - destruct Hag as [(Hn & Hl & Hreg)|(Hn & j & Hj & _)]; rewrite Hn; simpl; [|unfold okl4_irqset_register; user_run; by rewrite Hn].
    destruct (register_traps i set Hn Hl) as (load & k & Hcall & Hk).
    exists load, k. split_and!; [done| |].
    + intros Hi. rewrite s32_tid by done.
      destruct (interrupt_register_result O (entered s c load) c (load_regs load tc) i) as (s' & tc' & He & Htc' & Hres);
        [by apply entered_kinv|done|by apply entered_caller|lia|].
      rewrite irr_reg in Hres. specialize (Hk (regs tc')). change (reg (regs tc') 0) with (get_reg 0 tc') in Hk. rewrite <-(trap_enter _ _ _ _ _ Hc Htc) in He.
      destruct Hres as [(H0 & H1 & H2 & H3 & H4)|(H0 & H1 & H2 & H3)]; rewrite H0 in Hk; cbn in Hk.
      * exists s', tc', OKL4_OK, (Irqset (owner set) 1 (max_interrupts set) [i]). split_and!; try done; [|by left].
        right. split; [done|]. exists i. split_and!; [done|lia|lia|]. rewrite H4. apply list_lookup_insert_eq. by apply lookup_lt_Some in H2.
      * exists s', tc', OKL4_INVALID_ARGUMENT, set. split_and!; try done; [left; split_and!; [done|done|congruence]|].
        right. split_and!; try done. intros [? ?]. by apply H1.
    + intros Hi. rewrite (trap_enter _ _ _ _ _ Hc Htc). by apply negative_interrupt_crashes, s32_negative.
  - destruct (Z.eqb_spec (num_interrupts set) 1) as [Hn|Hn]; simpl;
      [|unfold okl4_irqset_deregister; user_run; by rewrite (proj2 (Z.eqb_neq _ _) Hn)].
    destruct Hag as [(Hn0 & _)|(_ & j & Hj & Hj0 & Hh)]; [lia|]. case_bool_decide as Hji.
    + rewrite Hj in Hji. injection Hji as ->. destruct (deregister_traps i set Hn Hj) as (load & k & Hcall & Hk).
      rewrite s32_tid in * by lia.
      destruct (interrupt_deregister_result O (entered s c load) c (load_regs load tc) i) as (s' & tc' & He & Htc' & H0 & H1 & H2);
        [by apply entered_kinv|done|by apply entered_caller|lia|done|].
      specialize (Hk (regs tc')). change (reg (regs tc') 0) with (get_reg 0 tc') in Hk. rewrite H0 in Hk. rewrite <-(trap_enter _ _ _ _ _ Hc Htc) in He.
      exists load, k, s', tc', (Irqset (owner set) 0 (max_interrupts set) [i]). split_and!; try done. by left.
    + unfold okl4_irqset_deregister, irq_at. user_run. rewrite Hn, Hj, Z.eqb_refl. cbn -[Z.eqb s32].
      change (udemand IndexOutOfBounds ([j] !! Z.to_nat 0) set) with (@Returns okl4_irqset Z j set). cbn [call_bind].
      rewrite (proj2 (Z.eqb_neq j i)) by congruence. done.
Qed.

End irqset_properties.

Section user_properties.
Context {cfg : NanoConfig}.
Import Thr Irq MsgProof ThrProof IrqProof.

(** C26: threads and interrupts of a protection domain.  Creating a thread
    takes a free structure of the pool and makes one system call; when the
    kernel has a free TCB, the new thread is runnable at the library's entry
    point with the structure as its argument, and the structure records the
    kernel's name for it; otherwise the structure is given back.  Without a
    free structure nothing happens.  A join of a thread of the pool makes one
    system call, by which the kernel reaps the thread, or makes the caller
    wait for its exit, or reports that it cannot be joined; in all three cases
    the call succeeds and gives the structure back, since the library takes
    only a negative result, which the kernel does not give, for an error (and
    then fails an assertion).  A set of interrupts that agrees with the
    kernel's table does so after every call that returns: registering succeeds
    exactly when the set is empty and the interrupt exists and has no handler,
    deregistering exactly for the interrupt of the set.  The calls take the
    interrupt as an [int]: registering a word of 2^31 and more indexes the
    kernel's table out of bounds. *)
Theorem pd_threads_irqs_correct O s c tc :
  KInv O s -> current_tcb s = Some c -> tcbs s !! c = Some tc ->
  (forall entry attr p, Z.of_nat max_tcbs < 2 ^ 31 -> 0 <= c_priority attr <= MAX_PRIORITY -> pd_ok p ->
    ((okl4_pd_thread_create entry attr p = Returns (OKL4_ALLOC_EXHAUSTED, None) p /\ forall u, ~ Bitmap.available (thread_alloc p) u) \/
     exists u load k s' tc', Bitmap.available (thread_alloc p) u /\
       let e := SysThreadCreate entry (c_sp attr) (pool_at p u) (c_priority attr) in
       okl4_pd_thread_create entry attr p = Traps load e k /\ trap load e s = Done tt s' /\ tcbs s' !! c = Some tc' /\
       match tcb_free_head s with
       | Some n => exists p' tn, k (regs tc') = Returns (OKL4_OK, Some (pool_at p u)) p' /\
           Bitmap.takes (thread_alloc p) u (thread_alloc p') /\
           thread_pool p' = <[Z.to_nat u := new_thread (Z.of_nat n) attr]> (thread_pool p) /\
           tcbs s' !! n = Some tn /\ thread_state tn = THREAD_STATE_RUNNABLE /\ priority tn = c_priority attr /\
           get_reg 15 tn = entry /\ get_reg 13 tn = c_sp attr /\ get_reg 0 tn = pool_at p u
       | None => exists p', k (regs tc') = Returns (OKL4_INVALID_ARGUMENT, None) p' /\ same_units (thread_alloc p) (thread_alloc p')
       end) /\
    (forall i k, 0 <= i -> thread_pool p !! Z.to_nat i = Some k ->
     exists load r, okl4_pd_thread_join (pool_at p i) p = Traps load (SysThreadJoin (cap k)) r /\
       (forall regs, if s32 (reg regs 0) <? 0 then r regs = Faults AssertionFailed else gives_back p i (r regs)) /\
       (0 <= cap k -> exists s' tc', trap load (SysThreadJoin (cap k)) s = Done tt s' /\ tcbs s' !! c = Some tc' /\
          join_outcome s s' c (cap k) tc' /\ gives_back p i (r (regs tc'))))) /\
  (forall set i, agrees s c tc set ->
    (if 0 <? num_interrupts set then okl4_irqset_register i set = Returns OKL4_ALLOC_EXHAUSTED set
     else exists load k, okl4_irqset_register i set = Traps load (SysInterruptRegister (s32 i)) k /\
       (0 <= i < 2 ^ 31 -> exists s' tc' r set',
          trap load (SysInterruptRegister (s32 i)) s = Done tt s' /\ tcbs s' !! c = Some tc' /\
          k (regs tc') = Returns r set' /\ agrees s' c tc' set' /\
          ((r = OKL4_OK /\ num_interrupts set' = 1 /\ irqs set' = [i] /\ i < NUM_INTERRUPTS /\ interrupt_handlers s !! Z.to_nat i = Some None) \/
           (r = OKL4_INVALID_ARGUMENT /\ set' = set /\ interrupt_handlers s' = interrupt_handlers s /\
            ~ (i < NUM_INTERRUPTS /\ interrupt_handlers s !! Z.to_nat i = Some None)))) /\
       (2 ^ 31 <= i < 2 ^ 32 -> trap load (SysInterruptRegister (s32 i)) s = Crash IndexOutOfBounds)) /\
    (if (num_interrupts set =? 1) && bool_decide (irqs set = [i]) then
       exists load k s' tc' set', okl4_irqset_deregister i set = Traps load (SysInterruptDeregister (s32 i)) k /\
         trap load (SysInterruptDeregister (s32 i)) s = Done tt s' /\ tcbs s' !! c = Some tc' /\
         k (regs tc') = Returns OKL4_OK set' /\ agrees s' c tc' set' /\ num_interrupts set' = 0 /\
         interrupt_handlers s' = <[Z.to_nat i := None]> (interrupt_handlers s)
     else okl4_irqset_deregister i set = Returns OKL4_INVALID_ARGUMENT set)).
Proof.
  intros HK Hc Htc. split.
  - intros entry attr p. by apply (pd_threads_spec O s c tc).
  - intros set i. by apply (irqset_spec O s c tc).
Qed.

End user_properties.

(** ** Witnesses: a booted kernel, and a pool of four threads *)

Module ThreadDemo.
Import Thr.
Definition attr : allocator_attr := AllocatorAttr 0 4.
Definition raw : Bitmap.allocator := Bitmap.Allocator 0 0 0 [77].
Definition fresh : Bitmap.allocator := match Bitmap.okl4_bitmap_allocator_init attr raw with Done _ a => a | Crash _ => raw end.
Definition demo_pd : pd := Pd fresh 65536 (replicate 4 (Kthread 0 0 0 0 0)).
Lemma demo_pd_ok : ThrProof.pd_ok demo_pd.
Proof.
  pose proof (Bitmap.init_spec raw attr) as H. unfold wp in H.
  assert (Hf : Bitmap.okl4_bitmap_allocator_init attr raw = Done tt fresh) by reflexivity. rewrite Hf in H.
  constructor; [|reflexivity|reflexivity|unfold WORD_MOD, KTHREAD_SIZE; simpl; lia].
  apply H; unfold WORD_MOD, OKL4_ALLOC_ANONYMOUS; simpl; unfold WORD_MOD; lia || (right; lia) || done.
Qed.
Definition boot_tcb : tcb := MsgDemo.tcb_of boot 0.
Definition thread_attr : pd_thread_create_attr := PdThreadAttr 4096 8192 5.
End ThreadDemo.

Lemma pd_threads_irqs_correct_witness :
  (exists u load k s' tc' p',
    Thr.okl4_pd_thread_create 32768 ThreadDemo.thread_attr ThreadDemo.demo_pd =
      Traps load (SysThreadCreate 32768 4096 (Thr.pool_at ThreadDemo.demo_pd u) 5) k /\
    @trap demo_cfg load (SysThreadCreate 32768 4096 (Thr.pool_at ThreadDemo.demo_pd u) 5) boot = Done tt s' /\
    tcbs s' !! 0%nat = Some tc' /\ k (regs tc') = Returns (OKL4_OK, Some (Thr.pool_at ThreadDemo.demo_pd u)) p') /\
  (exists load k, Irq.okl4_irqset_register (2 ^ 31) (Irq.Irqset 4096 0 1 [0]) = Traps load (SysInterruptRegister (s32 (2 ^ 31))) k /\
    @trap demo_cfg load (SysInterruptRegister (s32 (2 ^ 31))) boot = Crash IndexOutOfBounds).
Proof.
  destruct (@pd_threads_irqs_correct demo_cfg ∅ boot 0 ThreadDemo.boot_tcb) as [Hpd Hirq].
  - exact Boot.boot_kinv.
  - reflexivity.
  - vm_compute. reflexivity.
  - split.
    + destruct (Hpd 32768 ThreadDemo.thread_attr ThreadDemo.demo_pd) as [Hcreate _];
        [vm_compute; reflexivity|vm_compute; split; intros H; discriminate H|exact ThreadDemo.demo_pd_ok|].
      destruct Hcreate as [[_ Hn]|(u & load & k & s' & tc' & _ & H1 & H2 & H3 & H4)].
      * exfalso. apply (Hn 0). vm_compute. repeat split; try (intros H; discriminate H).
      * destruct H4 as (p' & tn & H4 & _). exists u, load, k, s', tc', p'. repeat (split; [assumption|]). assumption.
    + destruct (Hirq (Irq.Irqset 4096 0 1 [0]) (2 ^ 31)) as [(load & k & H1 & _ & H2) _]; [left; vm_compute; repeat split|].
      exists load, k. split; [exact H1|apply H2; lia].
Defined.

Example irq_registered :
  exists load k s' tc' r set', Irq.okl4_irqset_register 5 (Irq.Irqset 4096 0 1 [0]) = Traps load (SysInterruptRegister 5) k /\
    @trap demo_cfg load (SysInterruptRegister 5) boot = Done tt s' /\ tcbs s' !! 0%nat = Some tc' /\
    k (regs tc') = Returns r set' /\ IrqProof.agrees s' 0 tc' set'.
Proof.
  destruct (@irqset_spec demo_cfg ∅ boot 0 ThreadDemo.boot_tcb (Irq.Irqset 4096 0 1 [0]) 5) as [Hreg _].
  - exact Boot.boot_kinv.
  - reflexivity.
  - vm_compute. reflexivity.
  - left. vm_compute. repeat split.
  - destruct Hreg as (load & k & H1 & Hok & _). destruct Hok as (s' & tc' & r & set' & H2 & H3 & H4 & H5 & _); [lia|].
    exists load, k, s', tc', r, set'. repeat (split; [assumption|]). assumption.
Defined.

(** ** Errors that are not seen

    The kernel reports a bad destination, and a thread that cannot be joined,
    with the result 1; the library looks for a negative one. *)

(** What a call returns after its system call, in the booted kernel. *)
Definition outcome {S A} (c : call S A) : option A :=
  match c with
  | Returns a _ => Some a
  | Faults _ => None
  | Traps load e k =>
      match @trap demo_cfg load e boot with
      | Done _ s => match tcbs s !! 0%nat with
                    | Some t => match k (regs t) with Returns a _ => Some a | _ => None end
                    | None => None
                    end
      | Crash _ => None
      end
  end.

Lemma notify_send_error_hidden : outcome (Msg.okl4_notify_send 1000 1 tt) = Some OKL4_OK.
Proof. by vm_compute. Qed.
Lemma kthread_join_error_hidden : outcome (Thr.okl4_kthread_join (Thr.Kthread 1000 0 0 0 0)) = Some OKL4_OK.
Proof. by vm_compute. Qed.
