(* ===== verification/RangeAlloc.v ===== *)
(** * The OKL4 range allocator ([libs/okl4/src/range_*.c])

    A first-fit allocator of contiguous ranges.  The client owns the range
    items; the allocator links them, in address order, into a list whose head
    is embedded in the allocator.  Each item describes an allocated region
    followed by a free one.  The items live in a store indexed by addresses;
    the head is at address [head_addr]. *)

From S2P Require Import Prelude BitmapAlloc.
#[local] Open Scope Z_scope.

Module Range.

Record item : Type := Item {
  base : Z;
  isize : Z;
  total_size : Z;
  next : option nat
}.

Definition set_base v i := Item v (isize i) (total_size i) (next i).
Definition set_size v i := Item (base i) v (total_size i) (next i).
Definition set_total_size v i := Item (base i) (isize i) v (next i).
Definition set_next v i := Item (base i) (isize i) (total_size i) v.

(** The store of range items, and the address of the allocator's own. *)
Abbreviation store := (gmap nat item).
Definition head_addr : nat := 0.

(** The value items are poisoned with. *)
Definition OKL4_POISON : Z := 0xdeadbeef.

Definition deref (p : option nat) : M store item :=
  let! a := demand InvalidPointer p in
  let! m := gets id in
  demand InvalidPointer (m !! a).
Definition wr (p : option nat) (f : item -> item) : M store unit :=
  let! a := demand InvalidPointer p in
  let! m := gets id in
  let! i := demand InvalidPointer (m !! a) in
  modify (fun _ => <[a := f i]> m).

(** ** [include/range.h] *)

Definition okl4_range_item_setrange (range : option nat) (b sz : Z) : M store unit :=
  do! wr range (set_base b) in
  do! wr range (set_size sz) in
  do! wr range (set_total_size 0) in
  wr range (set_next None).
Definition okl4_range_item_setsize (range : option nat) (sz : Z) : M store unit :=
  do! wr range (set_base OKL4_ALLOC_ANONYMOUS) in
  wr range (set_size sz).
Definition okl4_range_item_getbase (range : option nat) : M store Z :=
  let! i := deref range in ret (base i).
Definition okl4_range_item_getsize (range : option nat) : M store Z :=
  let! i := deref range in ret (isize i).

(** ** [range_helpers.h] *)

Definition range_is_anonymous (i : item) : bool := base i =? OKL4_ALLOC_ANONYMOUS.
Definition range_free_hasvalue (i : item) (value : Z) : bool :=
  (u32 (base i + isize i) <=? value) && (value <? u32 (base i + total_size i)).
Definition range_free_getsize (i : item) : Z := u32 (total_size i - isize i).

(** [RANGE_LIST_ITERATE(ptr, head) { if (test(ptr)) break; }]: the first item
    that passes the test, NULL when there is none.  The list has at most as
    many items as the store. *)
Fixpoint iterate (fuel : nat) (test : item -> bool) (ptr : option nat) : M store (option nat) :=
  match ptr with
  | None => ret None
  | Some _ =>
      match fuel with
      | O => crash LoopBoundExceeded
      | S fuel' =>
          let! i := deref ptr in
          if test i then ret ptr else iterate fuel' test (next i)
      end
  end.
Definition RANGE_LIST_ITERATE (test : item -> bool) (head : option nat) : M store (option nat) :=
  let! m := gets id in
  iterate (size m) test head.

(** ** [range_init.c], [range_destroy.c] *)

Definition okl4_range_allocator_init (attr : allocator_attr) : M store unit :=
  do! wr (Some head_addr)
        (set_base (if attr_base attr =? OKL4_ALLOC_ANONYMOUS then 0 else attr_base attr)) in
  do! wr (Some head_addr) (set_size 0) in
  do! wr (Some head_addr) (set_total_size (attr_size attr)) in
  wr (Some head_addr) (set_next None).

Definition okl4_range_allocator_destroy : M store unit :=
  do! wr (Some head_addr) (set_base OKL4_POISON) in
  do! wr (Some head_addr) (set_size OKL4_POISON) in
  do! wr (Some head_addr) (set_total_size OKL4_POISON) in
  wr (Some head_addr) (set_next None).

(** ** [range_alloc.c] *)

Definition named_allocation (range : option nat) : M store Z :=
  let! r := deref range in
  let! victim := RANGE_LIST_ITERATE (fun i => range_free_hasvalue i (base r)) (Some head_addr) in
  if bool_decide (victim = None) then ret OKL4_ALLOC_EXHAUSTED
  else
    let! v := deref victim in
    let victim_free_size := u32 (base v + total_size v - base r) in
    if victim_free_size <? isize r then ret OKL4_IN_USE
    else
      do! wr range (set_total_size (u32 (base v + total_size v - base r))) in
      let! r' := deref range in
      let! v' := deref victim in
      do! wr victim (set_total_size (u32 (total_size v' - total_size r'))) in
      let! v'' := deref victim in
      do! wr range (set_next (next v'')) in
      do! wr victim (set_next range) in
      ret OKL4_OK.

Definition anonymous_allocation (range : option nat) : M store Z :=
  let! r := deref range in
  let range_size := isize r in
  let! victim := RANGE_LIST_ITERATE (fun i => range_size <=? range_free_getsize i) (Some head_addr) in
  if bool_decide (victim = None) then ret OKL4_IN_USE
  else
    let! v := deref victim in
    do! wr victim (set_total_size (u32 (total_size v - range_size))) in
    let! v' := deref victim in
    do! wr range (set_base (u32 (base v' + total_size v'))) in
    do! wr range (set_total_size range_size) in
    let! v'' := deref victim in
    do! wr range (set_next (next v'')) in
    do! wr victim (set_next range) in
    ret OKL4_OK.

Definition okl4_range_allocator_alloc (range : option nat) : M store Z :=
  do! ASSERT (bool_decide (range <> None)) in
  let! r := deref range in
  if range_is_anonymous r then anonymous_allocation range else named_allocation range.

(** ** [range_free.c] *)

Definition okl4_range_allocator_free (victim : option nat) : M store unit :=
  do! ASSERT (bool_decide (victim <> None)) in
  let! before_victim := RANGE_LIST_ITERATE (fun i => bool_decide (next i = victim)) (Some head_addr) in
  do! ASSERT (bool_decide (before_victim <> None)) in
  let! b := deref before_victim in
  let! v := deref victim in
  do! wr before_victim (set_total_size (u32 (total_size b + total_size v))) in
  let! v' := deref victim in
  do! wr before_victim (set_next (next v')) in
  do! wr victim (set_base OKL4_POISON) in
  do! wr victim (set_size OKL4_POISON) in
  do! wr victim (set_total_size OKL4_POISON) in
  wr victim (set_next None).

(** ** Specification *)

(** [tiles m l b e]: the items at addresses [l] are linked in this order and
    cover the range from [b] to [e], each one an allocated region followed by
    a free one. *)
Fixpoint tiles (m : store) (l : list nat) (b e : Z) : Prop :=
  match l with
  | [] => b = e
  | a :: l' =>
      exists i, m !! a = Some i /\ base i = b /\ 0 <= isize i <= total_size i /\
        next i = head l' /\ tiles m l' (b + total_size i) e
  end.

(** A well-formed allocator over the items [l] that manages [b, e). *)
Record wf (m : store) (l : list nat) (b e : Z) : Prop := {
  wf_nodup : NoDup (head_addr :: l);
  wf_range : 0 <= b /\ e < WORD_MOD;
  wf_tiles : tiles m (head_addr :: l) b e;
  wf_head : forall i, m !! head_addr = Some i -> isize i = 0;
  wf_pos : forall a i, a ∈ l -> m !! a = Some i -> 0 < isize i
}.

(** A value is allocated when it is in the allocated region of an item. *)
Definition allocated (m : store) (l : list nat) (v : Z) : Prop :=
  exists a i, a ∈ head_addr :: l /\ m !! a = Some i /\ base i <= v < base i + isize i.

Lemma tiles_le m l b e : tiles m l b e -> b <= e.
Proof. revert b. induction l as [|a l IH]; simpl; intros b; [lia|]. intros (i & _ & _ & ? & _ & H%IH). lia. Qed.

Lemma tiles_frame m m' l b e :
  tiles m l b e -> (forall a, a ∈ l -> m' !! a = m !! a) -> tiles m' l b e.
Proof.
  revert b. induction l as [|a l IH]; simpl; intros b; [done|].
  intros (i & Hi & Hb & Hs & Hn & Ht) Hf. exists i. split_and!; try (done || lia).
  - rewrite Hf; [done|set_solver].
  - apply IH; [done|]. intros; apply Hf; set_solver.
Qed.

(** The items up to the one at [a], that one, and the rest. *)
Lemma tiles_split m l1 a l2 b e :
  tiles m (l1 ++ a :: l2) b e ->
  exists i, m !! a = Some i /\ b <= base i /\ 0 <= isize i <= total_size i /\ next i = head l2 /\
    base i + total_size i <= e /\ tiles m l2 (base i + total_size i) e.
Proof.
  revert b. induction l1 as [|x l1 IH]; simpl; intros b.
  - intros (i & Hi & Hb & Hs & Hn & Ht). exists i. rewrite Hb. pose proof (tiles_le _ _ _ _ Ht).
    split_and!; try (done || lia).
  - intros (i & Hi & Hb & Hs & Hn & Ht). destruct (IH _ Ht) as (j & ? & ? & ? & ? & ? & ?).
    exists j. split_and!; try (done || lia).
Qed.

(** Inserting [r] after [a]: [a] keeps the part up to [c], [r] takes the
    region from [c] to the end of [a]'s. *)
Lemma tiles_insert m m' l1 a l2 b e i r ir c :
  tiles m (l1 ++ a :: l2) b e -> NoDup (l1 ++ a :: l2) -> r ∉ l1 ++ a :: l2 ->
  m !! a = Some i -> base i + isize i <= c <= base i + total_size i ->
  m' !! a = Some (Item (base i) (isize i) (c - base i) (Some r)) ->
  m' !! r = Some ir -> base ir = c -> 0 <= isize ir <= total_size ir ->
  total_size ir = base i + total_size i - c -> next ir = next i ->
  (forall x, x <> a -> x <> r -> m' !! x = m !! x) ->
  tiles m' (l1 ++ a :: r :: l2) b e.
Proof.
  intros Ht Hnd Hr Hi Hc Ha' Hr' Hbr Hsr Htr Hnr Hf. revert b Ht.
  induction l1 as [|x l1 IH]; simpl in *; intros b.
  - intros (i' & Hi' & Hb & Hs & Hn & Ht). simplify_eq. apply NoDup_cons in Hnd as [Hal Hnd].
    eexists. split; [exact Ha'|]. simpl. split_and!; [done|lia|lia|done|].
    exists ir. split_and!; [done|lia|lia|lia|congruence|].
    replace (base i + (base ir - base i) + total_size ir) with (base i + total_size i) by lia.
    eapply tiles_frame; [done|]. intros y Hy. apply Hf; [|]; intros ->; [done|set_solver].
  - intros (i' & Hi' & Hb & Hs & Hn & Ht). apply NoDup_cons in Hnd as [Hx Hnd].
    exists i'. split_and!; try (done || lia).
    + rewrite Hf; [done| |]; intros ->; set_solver.
    + rewrite Hn. by destruct l1.
    + apply IH; [done|set_solver|done].
Qed.

(** Removing [v], the item after [a], which gets its whole region. *)
Lemma tiles_remove m m' l1 a v l2 b e i iv :
  tiles m (l1 ++ a :: v :: l2) b e -> NoDup (l1 ++ a :: v :: l2) ->
  m !! a = Some i -> m !! v = Some iv ->
  m' !! a = Some (Item (base i) (isize i) (total_size i + total_size iv) (next iv)) ->
  (forall x, x <> a -> x <> v -> m' !! x = m !! x) ->
  tiles m' (l1 ++ a :: l2) b e.
Proof.
  intros Ht Hnd Hi Hv Ha' Hf. revert b Ht. induction l1 as [|x l1 IH]; simpl in *; intros b.
  - intros (i' & Hi' & Hb & Hs & Hn & (iv' & Hiv' & Hbv & Hsv & Hnv & Ht)). simplify_eq.
    apply NoDup_cons in Hnd as [Ha Hnd]. apply NoDup_cons in Hnd as [Hvl Hnd].
    eexists. split; [exact Ha'|]. simpl. split_and!; [done|lia|lia|done|].
    replace (base i + (total_size i + total_size iv)) with (base i + total_size i + total_size iv) by lia.
    eapply tiles_frame; [done|]. intros y Hy. apply Hf; intros ->; set_solver.
  - intros (i' & Hi' & Hb & Hs & Hn & Ht). apply NoDup_cons in Hnd as [Hx Hnd].
    exists i'. split_and!; try (done || lia).
    + rewrite Hf; [done| |]; intros ->; set_solver.
    + rewrite Hn. by destruct l1.
    + apply IH; [done|done].
Qed.

Lemma tiles_bound m l b e a i :
  tiles m l b e -> a ∈ l -> m !! a = Some i ->
  b <= base i /\ 0 <= isize i <= total_size i /\ base i + total_size i <= e.
Proof.
  intros Ht Ha Hi. apply list_elem_of_split in Ha as (l1 & l2 & ->).
  destruct (tiles_split _ _ _ _ _ _ Ht) as (j & Hj & ? & ? & ? & ? & ?). simplify_eq. lia.
Qed.

(** The regions of two items are disjoint, and together they cover the
    managed range. *)
Lemma tiles_disjoint m l b e x i y j :
  tiles m l b e -> x ∈ l -> y ∈ l -> x <> y -> m !! x = Some i -> m !! y = Some j ->
  base i + total_size i <= base j \/ base j + total_size j <= base i.
Proof.
  revert b. induction l as [|a l IH]; intros b Ht Hx Hy Hne Hi Hj; [set_solver|].
  destruct Ht as (k & Hk & Hb & Hs & Hn & Ht).
  apply elem_of_cons in Hx as [->|Hx]; apply elem_of_cons in Hy as [->|Hy].
  - done.
  - left. simplify_eq. destruct (tiles_bound _ _ _ _ _ _ Ht Hy Hj). lia.
  - right. simplify_eq. destruct (tiles_bound _ _ _ _ _ _ Ht Hx Hi). lia.
  - by eapply IH.
Qed.

Lemma tiles_cover m l b e v :
  tiles m l b e -> b <= v < e ->
  exists a i, a ∈ l /\ m !! a = Some i /\ base i <= v < base i + total_size i.
Proof.
  revert b. induction l as [|a l IH]; intros b Ht Hv; simpl in Ht; [lia|].
  destruct Ht as (i & Hi & Hb & Hs & Hn & Ht). destruct (Z.lt_ge_cases v (base i + total_size i)).
  - exists a, i. split_and!; (done || lia || set_solver).
  - destruct (IH _ Ht) as (a' & j & ? & ? & ?); [lia|]. exists a', j. split_and!; (done || lia || set_solver).
Qed.

Lemma wp_range_deref m a i (Q : item -> store -> Prop) : m !! a = Some i -> Q i m -> wp (deref (Some a)) Q m.
Proof. intros Hi HQ. unfold deref. wp_steps; [done|exact Hi|done]. Qed.

Lemma wp_range_wr m a i f (Q : unit -> store -> Prop) :
  m !! a = Some i -> Q tt (<[a := f i]> m) -> wp (wr (Some a) f) Q m.
Proof. intros Hi HQ. unfold wr. wp_steps; [done|exact Hi|done]. Qed.

(** Lookups in a store that has been updated. *)
Ltac store_lookup :=
  repeat first
    [ rewrite lookup_insert_eq
    | rewrite lookup_insert_ne by done
    | eassumption | reflexivity ].
Ltac store_step :=
  lazymatch goal with
  | |- wp (deref _) _ _ => eapply wp_range_deref; [solve [store_lookup]|cbn beta]
  | |- wp (wr _ _) _ _ => eapply wp_range_wr; [solve [store_lookup]|cbn beta]
  | _ => wp_step; cbn beta
  end.
Ltac store_steps := repeat store_step.

(** *** The search *)

Lemma iterate_spec m test l b e fuel :
  tiles m l b e -> (length l <= fuel)%nat ->
  wp (iterate fuel test (head l)) (fun r m' => m' = m /\
    match r with
    | Some a => exists l1 l2 i, l = l1 ++ a :: l2 /\ m !! a = Some i /\ test i = true
    | None => forall a i, a ∈ l -> m !! a = Some i -> test i = false
    end) m.
Proof.
  revert b fuel. induction l as [|a l IH]; intros b fuel Ht Hf; simpl.
  - destruct fuel; simpl; wp_steps; (split; [done|]); set_solver.
  - destruct fuel as [|fuel]; simpl in Hf; [lia|]. destruct Ht as (i & Hi & Hb & Hs & Hn & Ht). simpl.
    wp_step. unfold deref. wp_steps; [done|done|]. destruct (test i) eqn:E.
    + wp_steps. split; [done|]. exists [], l, i. done.
    + rewrite Hn. eapply wp_mono; [apply (IH _ _ Ht); lia|]. simpl. intros [x|] m' [-> Hr]; (split; [done|]).
      * destruct Hr as (l1 & l2 & j & -> & ? & ?). by exists (a :: l1), l2, j.
      * intros x j [->|Hx]%elem_of_cons Hj; [congruence|]. by eapply Hr.
Qed.

Lemma RANGE_LIST_ITERATE_spec m test l b e :
  wf m l b e ->
  wp (RANGE_LIST_ITERATE test (Some head_addr)) (fun r m' => m' = m /\
    match r with
    | Some a => exists l1 l2 i, head_addr :: l = l1 ++ a :: l2 /\ m !! a = Some i /\ test i = true
    | None => forall a i, a ∈ head_addr :: l -> m !! a = Some i -> test i = false
    end) m.
Proof.
  intros []. unfold RANGE_LIST_ITERATE. wp_steps.
  apply (iterate_spec m test (head_addr :: l) b e); [done|]. apply nodup_length_size; [done|].
  intros a Ha. apply list_elem_of_split in Ha as (l1 & l2 & Heq). rewrite Heq in wf_tiles0.
  destruct (tiles_split _ _ _ _ _ _ wf_tiles0) as (i & ? & _). by exists i.
Qed.

(** *** Taking a region *)

(** [m'] over [l'] is [m] over [l] with the item [r] added, which holds
    [p, p + sz); that region was free. *)
Record takes (m : store) (l : list nat) (b e : Z) (r : nat) (p sz : Z) (m' : store) (l' : list nat) : Prop := {
  takes_wf : wf m' l' b e;
  takes_items : l' ≡ₚ r :: l;
  takes_item : exists ir, m' !! r = Some ir /\ base ir = p /\ isize ir = sz;
  takes_free : forall v, p <= v < p + sz -> b <= v < e /\ ~ allocated m l v;
  takes_alloc : forall v, allocated m' l' v <-> allocated m l v \/ p <= v < p + sz
}.

(** A region in the free part of an item is free. *)
Lemma free_part m l b e a i v :
  wf m l b e -> a ∈ head_addr :: l -> m !! a = Some i ->
  base i + isize i <= v < base i + total_size i -> b <= v < e /\ ~ allocated m l v.
Proof.
  intros [] Ha Hi Hv. destruct (tiles_bound _ _ _ _ _ _ wf_tiles0 Ha Hi) as (? & ? & ?).
  split; [lia|]. intros (x & j & Hx & Hj & Hvx). destruct (decide (x = a)) as [->|Hne].
  - simplify_eq. lia.
  - destruct (tiles_bound _ _ _ _ _ _ wf_tiles0 Hx Hj) as (? & ? & ?).
    destruct (tiles_disjoint _ _ _ _ _ _ _ _ wf_tiles0 Ha Hx ltac:(done) Hi Hj); lia.
Qed.

Lemma takes_insert m m' l b e l1 a l2 i r ir c :
  wf m l b e -> head_addr :: l = l1 ++ a :: l2 -> r ∉ head_addr :: l -> m !! a = Some i ->
  base i + isize i <= c -> c + isize ir <= base i + total_size i -> 0 < isize ir ->
  base ir = c -> total_size ir = base i + total_size i - c -> next ir = next i ->
  m' !! a = Some (Item (base i) (isize i) (c - base i) (Some r)) -> m' !! r = Some ir ->
  (forall x, x <> a -> x <> r -> m' !! x = m !! x) ->
  exists l', takes m l b e r c (isize ir) m' l'.
Proof.
  intros Hwf Hl Hr Hi Hc Hsz Hsr Hbr Htr Hnr Ha' Hr' Hf. pose proof Hwf as [Hnd Hrg Ht Hh Hp].
  assert (Har : a <> r) by (intros ->; apply Hr; rewrite Hl; set_solver).
  assert (exists l', l1 ++ a :: r :: l2 = head_addr :: l' /\ l' ≡ₚ r :: l) as (l' & Hl' & Hperm).
  { destruct l1 as [|x l1]; simpl in Hl; injection Hl as Hx Hy; rewrite Hy.
    - exists (r :: l2). by rewrite Hx.
    - exists (l1 ++ a :: r :: l2). rewrite Hx. split; [done|]. solve_Permutation. }
  exists l'. assert (Hmem : forall x, x ∈ head_addr :: l' <-> x = r \/ x ∈ head_addr :: l).
  { intros x. rewrite Hperm. set_solver. }
  constructor.
  - constructor; [|done| | |].
    + rewrite Hperm. apply NoDup_cons in Hnd as [? ?]. rewrite !NoDup_cons. set_solver.
    + rewrite <-Hl'. rewrite Hl in Ht, Hnd, Hr. by eapply (tiles_insert m m' l1 a l2 b e i r ir c); try (done || lia).
    + intros j Hj. destruct (decide (head_addr = a)) as [<-|Hne].
      * rewrite Ha' in Hj. injection Hj as <-. simpl. by apply Hh.
      * rewrite Hf in Hj; [by apply Hh|done|]. intros Heq. rewrite <-Heq in Hr. set_solver.
    + intros x j Hx Hj. rewrite Hperm in Hx. apply elem_of_cons in Hx as [->|Hx]; [by simplify_eq|].
      destruct (decide (x = a)) as [->|Hxa].
      * rewrite Ha' in Hj. injection Hj as <-. simpl. by apply (Hp a).
      * apply (Hp x); [done|]. rewrite <-Hf; [done|done|]. intros ->. set_solver.
  - done.
  - by exists ir.
  - intros v Hv. eapply free_part; [done| |done|lia]. rewrite Hl. set_solver.
  - intros v. split.
    + intros (x & j & Hx & Hj & Hvx). destruct (decide (x = r)) as [->|Hxr]; [right; simplify_eq; lia|].
      left. apply Hmem in Hx as [|Hx]; [done|]. destruct (decide (x = a)) as [->|Hxa].
      * rewrite Ha' in Hj. injection Hj as <-. by exists a, i.
      * rewrite Hf in Hj by done. by exists x, j.
    + intros [(x & j & Hx & Hj & Hvx)|Hv].
      * assert (x <> r) by (intros ->; done). destruct (decide (x = a)) as [->|Hxa].
        -- simplify_eq. eexists a, _. split; [apply Hmem; by right|]. split; [exact Ha'|]. simpl; lia.
        -- exists x, j. split; [apply Hmem; by right|]. split; [by rewrite Hf|done].
      * exists r, ir. split_and!; [apply Hmem; by left|done|lia|lia].
Qed.

(** What follows the region of an item is the end of the range or an
    allocated value. *)
Lemma after_tile m l b e a i :
  wf m l b e -> a ∈ head_addr :: l -> m !! a = Some i ->
  base i + total_size i = e \/ allocated m l (base i + total_size i).
Proof.
  intros [Hnd Hrg Ht Hh Hp] Ha Hi. apply list_elem_of_split in Ha as (l1 & l2 & Heq). rewrite Heq in Ht.
  destruct (tiles_split _ _ _ _ _ _ Ht) as (j & Hj & _ & _ & _ & _ & Ht2). simplify_eq.
  destruct l2 as [|y l2]; simpl in Ht2; [by left|]. destruct Ht2 as (k & Hk & Hb & _).
  assert (y ∈ l) by (destruct l1; simpl in Heq; injection Heq as _ ->; set_solver).
  right. exists y, k. split; [set_solver|]. split; [done|]. pose proof (Hp y k ltac:(done) Hk). lia.
Qed.

Lemma range_named_allocation_spec m l b e r ir :
  wf m l b e -> r ∉ head_addr :: l -> m !! r = Some ir -> 0 <= base ir -> 0 < isize ir < WORD_MOD ->
  wp (named_allocation (Some r)) (fun rc m' =>
    (rc = OKL4_OK /\ exists l', takes m l b e r (base ir) (isize ir) m' l') \/
    (rc = OKL4_ALLOC_EXHAUSTED /\ m' = m /\ (allocated m l (base ir) \/ ~ b <= base ir < e)) \/
    (rc = OKL4_IN_USE /\ m' = m /\ ~ allocated m l (base ir) /\ b <= base ir < e /\ exists v, base ir <= v < base ir + isize ir /\ (allocated m l v \/ ~ b <= v < e))) m.
Proof.
  intros Hwf Hr Hir Hb Hsz. pose proof Hwf as [Hnd Hrg Ht Hh Hp]. unfold named_allocation.
  store_steps. eapply wp_mono; [by eapply RANGE_LIST_ITERATE_spec|]. simpl.
  assert (Hw : forall a i, a ∈ head_addr :: l -> m !! a = Some i ->
    range_free_hasvalue i (base ir) = true <-> base i + isize i <= base ir < base i + total_size i).
  { intros a i Ha Hi. destruct (tiles_bound _ _ _ _ _ _ Ht Ha Hi) as (? & ? & ?). unfold range_free_hasvalue.
    rewrite !u32_word by (unfold is_word; lia). rewrite andb_true_iff, Z.leb_le, Z.ltb_lt. done. }
  intros [a|] ? [-> Hv]; simpl.
  - destruct Hv as (l1 & l2 & i & Hl & Hi & Hin). assert (Ha : a ∈ head_addr :: l) by (rewrite Hl; set_solver).
    rewrite (Hw a i Ha Hi) in Hin. destruct (tiles_bound _ _ _ _ _ _ Ht Ha Hi) as (? & ? & ?).
    assert (a <> r) by (intros ->; done).
    store_steps. rewrite !(u32_word (base i + total_size i - base ir)) by (unfold is_word; lia).
    destruct (Z.ltb_spec (base i + total_size i - base ir) (isize ir)).
    + wp_steps. right. right. destruct (free_part _ _ _ _ _ _ (base ir) Hwf Ha Hi ltac:(lia)).
      split_and!; try (done || lia). exists (base i + total_size i).
      destruct (after_tile _ _ _ _ _ _ Hwf Ha Hi); (split; [lia|]); [right; lia|by left].
    + store_steps. left. split; [done|]. simpl. rewrite u32_word by (unfold is_word; lia).
      eapply (takes_insert m _ l b e l1 a l2 i r (Item (base ir) (isize ir) (base i + total_size i - base ir) (next i)));
        simpl; try (done || lia); intros; store_lookup; try done.
      f_equal. unfold set_next, set_total_size; simpl. f_equal.
      lia.
  - wp_steps. right. left. split_and!; [done|done|].
    destruct (decide (b <= base ir < e)) as [Hin|]; [left|by right].
    destruct (tiles_cover _ _ _ _ _ Ht Hin) as (a & i & Ha & Hi & Hbd). exists a, i. split; [done|]. split; [done|].
    destruct (Z.lt_ge_cases (base ir) (base i + isize i)); [lia|].
    specialize (Hv a i Ha Hi). by rewrite (proj2 (Hw a i Ha Hi)) in Hv by lia.
Qed.

Lemma range_anonymous_allocation_spec m l b e r ir :
  wf m l b e -> r ∉ head_addr :: l -> m !! r = Some ir -> 0 < isize ir < WORD_MOD ->
  wp (anonymous_allocation (Some r)) (fun rc m' =>
    (rc = OKL4_OK /\ exists p l', takes m l b e r p (isize ir) m' l') \/
    (rc = OKL4_IN_USE /\ m' = m /\
      forall p, b <= p -> p + isize ir <= e -> exists v, p <= v < p + isize ir /\ allocated m l v)) m.
Proof.
  intros Hwf Hr Hir Hsz. pose proof Hwf as [Hnd Hrg Ht Hh Hp]. unfold anonymous_allocation.
  store_steps. eapply wp_mono; [by eapply RANGE_LIST_ITERATE_spec|]. simpl.
  assert (Hw : forall a i, a ∈ head_addr :: l -> m !! a = Some i ->
    (isize ir <=? range_free_getsize i) = true <-> isize ir <= total_size i - isize i).
  { intros a i Ha Hi. destruct (tiles_bound _ _ _ _ _ _ Ht Ha Hi) as (? & ? & ?). unfold range_free_getsize.
    rewrite !u32_word by (unfold is_word; lia). by rewrite Z.leb_le. }
  intros [a|] ? [-> Hv]; simpl.
  - destruct Hv as (l1 & l2 & i & Hl & Hi & Hin). assert (Ha : a ∈ head_addr :: l) by (rewrite Hl; set_solver).
    rewrite (Hw a i Ha Hi) in Hin. destruct (tiles_bound _ _ _ _ _ _ Ht Ha Hi) as (? & ? & ?).
    assert (a <> r) by (intros ->; done).
    store_steps. left. split; [done|]. simpl. rewrite !u32_word by (rewrite ?u32_word; unfold is_word; lia).
    exists (base i + total_size i - isize ir).
    eapply (takes_insert m _ l b e l1 a l2 i r
              (Item (base i + total_size i - isize ir) (isize ir) (isize ir) (next i)));
      simpl; try (done || lia); intros; store_lookup; try done;
      f_equal; unfold set_next, set_total_size, set_base; simpl; f_equal; lia.
  - wp_steps. right. split_and!; [done|done|]. intros p Hbp Hpe.
    destruct (tiles_cover m _ b e p Ht) as (a & i & Ha & Hi & Hbd); [lia|].
    destruct (tiles_bound _ _ _ _ _ _ Ht Ha Hi) as (? & ? & ?).
    destruct (Z.lt_ge_cases p (base i + isize i)).
    + exists p. split; [lia|]. exists a, i. split_and!; (done || lia).
    + specialize (Hv a i Ha Hi). assert (~ isize ir <= total_size i - isize i) by (rewrite <-Hw by done; congruence).
      exists (base i + total_size i). destruct (after_tile _ _ _ _ _ _ Hwf Ha Hi); [lia|]. split; [lia|done].
Qed.

(** *** Freeing *)

(** Every item but the head has a predecessor. *)
Lemma pred_of m l1 r l2 b e :
  tiles m (head_addr :: l1 ++ r :: l2) b e ->
  exists a i, a ∈ head_addr :: l1 ++ r :: l2 /\ m !! a = Some i /\ next i = Some r.
Proof.
  generalize head_addr. intros h. revert h b. induction l1 as [|x l1 IH]; simpl; intros h b (i & Hi & _ & _ & Hn & Ht).
  - exists h, i. split_and!; [set_solver|done|done].
  - destruct (IH x _ Ht) as (a & j & ? & ? & ?). exists a, j. split_and!; [set_solver|done|done].
Qed.

(** Dropping the item [r], which follows [a]. *)
Lemma wf_remove m m' l b e l1 a r l2 i ir :
  wf m l b e -> head_addr :: l = l1 ++ a :: r :: l2 -> m !! a = Some i -> m !! r = Some ir ->
  m' !! a = Some (Item (base i) (isize i) (total_size i + total_size ir) (next ir)) ->
  (forall x, x <> a -> x <> r -> m' !! x = m !! x) ->
  exists l', wf m' l' b e /\ l ≡ₚ r :: l' /\
    forall v, allocated m' l' v <-> allocated m l v /\ ~ base ir <= v < base ir + isize ir.
Proof.
  intros Hwf Hl Hi Hir Ha' Hf. pose proof Hwf as [Hnd Hrg Ht Hh Hp].
  assert (exists l', l1 ++ a :: l2 = head_addr :: l' /\ l ≡ₚ r :: l') as (l' & Hl' & Hperm).
  { destruct l1 as [|x l1]; simpl in Hl; injection Hl as Hx Hy; rewrite Hy.
    - exists l2. by rewrite Hx.
    - exists (l1 ++ a :: l2). rewrite Hx. split; [done|]. solve_Permutation. }
  assert (Hnd' : NoDup (r :: head_addr :: l')).
  { rewrite Hperm in Hnd. by rewrite Permutation_swap in Hnd. }
  apply NoDup_cons in Hnd' as [Hr Hnd'].
  assert (Hmem : forall x, x ∈ head_addr :: l <-> x = r \/ x ∈ head_addr :: l').
  { intros x. rewrite Hperm. set_solver. }
  assert (Hal : a ∈ head_addr :: l') by (rewrite <-Hl'; set_solver).
  assert (Har : a <> r) by (intros ->; done).
  assert (Hsame : forall x j, x ∈ head_addr :: l' -> m' !! x = Some j ->
    exists j0, m !! x = Some j0 /\ base j0 = base j /\ isize j0 = isize j).
  { intros x j Hx Hj. destruct (decide (x = a)) as [->|Hxa]; [rewrite Ha' in Hj; injection Hj as <-; by exists i|].
    exists j. rewrite <-Hf; [done|done|]. intros ->; done. }
  exists l'. split; [|split; [done|]].
  - constructor; [done|done| | |].
    + rewrite <-Hl'. rewrite Hl in Ht, Hnd. by eapply tiles_remove.
    + intros j Hj. destruct (Hsame head_addr j) as (j0 & Hj0 & _ & <-); [set_solver|done|]. by apply Hh.
    + intros x j Hx Hj. destruct (Hsame x j) as (j0 & Hj0 & _ & <-); [set_solver|done|].
      apply (Hp x); [|done]. rewrite Hperm. set_solver.
  - intros v. split.
    + intros (x & j & Hx & Hj & Hvx). destruct (Hsame x j) as (j0 & Hj0 & Hb & Hs); [done|done|].
      assert (Hxl : x ∈ head_addr :: l) by (apply Hmem; by right).
      assert (Hrl : r ∈ head_addr :: l) by (apply Hmem; by left). split.
      * exists x, j0. rewrite Hb, Hs. done.
      * assert (x <> r) by (intros ->; done).
        destruct (tiles_bound _ _ _ _ _ _ Ht Hxl Hj0) as (? & ? & ?).
        destruct (tiles_bound _ _ _ _ _ _ Ht Hrl Hir) as (? & ? & ?).
        destruct (tiles_disjoint _ _ _ _ _ _ _ _ Ht Hxl Hrl ltac:(done) Hj0 Hir); lia.
    + intros [(x & j & Hx & Hj & Hvx) Hno]. apply Hmem in Hx as [->|Hx]; [simplify_eq; lia|].
      destruct (decide (x = a)) as [->|Hxa].
      * simplify_eq. eexists a, _. split; [done|]. split; [exact Ha'|]. simpl; lia.
      * exists x, j. split; [done|]. rewrite Hf; [done|done|]. intros ->; done.
Qed.

Lemma range_free_spec m l b e r ir :
  wf m l b e -> r ∈ l -> m !! r = Some ir ->
  wp (okl4_range_allocator_free (Some r)) (fun _ m' => exists l',
    wf m' l' b e /\ l ≡ₚ r :: l' /\
    forall v, allocated m' l' v <-> allocated m l v /\ ~ base ir <= v < base ir + isize ir) m.
Proof.
  intros Hwf Hr Hir. pose proof Hwf as [Hnd Hrg Ht Hh Hp]. unfold okl4_range_allocator_free.
  wp_steps; [done|]. eapply wp_mono; [by eapply RANGE_LIST_ITERATE_spec|]. simpl.
  intros [a|] ? [-> Hv]; simpl.
  2:{ exfalso. apply list_elem_of_split in Hr as (l1 & l2 & ->). destruct (pred_of m l1 r l2 b e Ht) as (a & i & ? & ? & ?).
      specialize (Hv a i ltac:(done) ltac:(done)). by apply bool_decide_eq_false in Hv. }
  destruct Hv as (l1 & l2 & i & Hl & Hi & Hn%bool_decide_eq_true).
  rewrite Hl in Ht, Hnd. destruct (tiles_split _ _ _ _ _ _ Ht) as (i' & ? & _ & _ & Hn' & _ & _). simplify_eq.
  rewrite Hn in Hn'. destruct l2 as [|r' l2]; simpl in Hn'; [done|]. injection Hn' as <-.
  assert (a <> r) by (apply NoDup_app in Hnd as (_ & _ & Hnd); apply NoDup_cons in Hnd; set_solver).
  store_steps.
  eapply (wf_remove m _ l b e l1 a r l2 i ir); try done; intros; store_lookup; try done.
  f_equal. unfold set_next, set_total_size; simpl. f_equal.
  destruct (tiles_split _ _ _ _ _ _ Ht) as (i1 & Hi1 & ? & ? & _ & ? & (ir1 & Hir1 & ? & ? & _ & Ht2)).
  simplify_eq. apply tiles_le in Ht2. apply u32_word. unfold is_word. lia.
Qed.

Lemma range_init_spec (m : store) attr :
  is_Some (m !! head_addr) -> 0 <= attr_base attr -> 0 <= attr_size attr < WORD_MOD ->
  (attr_base attr = OKL4_ALLOC_ANONYMOUS \/ attr_base attr + attr_size attr < WORD_MOD) ->
  wp (okl4_range_allocator_init attr) (fun _ m' =>
    let b := if attr_base attr =? OKL4_ALLOC_ANONYMOUS then 0 else attr_base attr in
    wf m' [] b (b + attr_size attr) /\ (forall v, ~ allocated m' [] v) /\
    (forall a, a <> head_addr -> m' !! a = m !! a)) m.
Proof.
  intros [h Hh] Hb Hs Hr. unfold okl4_range_allocator_init. store_steps. cbv zeta.
  set (b := if attr_base attr =? OKL4_ALLOC_ANONYMOUS then 0 else attr_base attr). assert (0 <= b /\ b + attr_size attr < WORD_MOD).
  { unfold b. destruct (Z.eqb_spec (attr_base attr) OKL4_ALLOC_ANONYMOUS); lia. }
  split_and!.
  - constructor.
    + apply NoDup_singleton.
    + done.
    + eexists. rewrite lookup_insert_eq. split_and!; done || (simpl; lia).
    + intros i. rewrite lookup_insert_eq. by intros [= <-].
    + intros a i Ha. by apply not_elem_of_nil in Ha.
  - intros v (a & i & Ha & Hi & Hv). apply list_elem_of_singleton in Ha as ->.
    rewrite lookup_insert_eq in Hi. injection Hi as <-. simpl in Hv. lia.
  - intros a Ha. by store_lookup.
Qed.

End Range.

(** ** Properties *)

Section range_properties.
Import Range.

(** The outcomes of an allocation: granted, refused anonymously, refused by
    name because the first value is taken or outside, refused by name because
    a later one is. *)
Definition alloc_outcome m l b e r ir rc m' : Prop :=
  (rc = OKL4_OK /\ exists p l', takes m l b e r p (isize ir) m' l' /\
     (base ir <> OKL4_ALLOC_ANONYMOUS -> p = base ir)) \/
  (rc = OKL4_IN_USE /\ base ir = OKL4_ALLOC_ANONYMOUS /\ m' = m /\
     forall p, b <= p -> p + isize ir <= e -> exists v, p <= v < p + isize ir /\ allocated m l v) \/
  (rc = OKL4_ALLOC_EXHAUSTED /\ base ir <> OKL4_ALLOC_ANONYMOUS /\ m' = m /\
     (allocated m l (base ir) \/ ~ b <= base ir < e)) \/
  (rc = OKL4_IN_USE /\ base ir <> OKL4_ALLOC_ANONYMOUS /\ m' = m /\
     ~ allocated m l (base ir) /\ b <= base ir < e /\
     exists v, base ir <= v < base ir + isize ir /\ (allocated m l v \/ ~ b <= v < e)).

Lemma range_alloc_spec m l b e r ir :
  wf m l b e -> r ∉ head_addr :: l -> m !! r = Some ir -> 0 <= base ir -> 0 < isize ir < WORD_MOD ->
  wp (okl4_range_allocator_alloc (Some r)) (alloc_outcome m l b e r ir) m.
Proof.
  intros Hwf Hr Hir Hb Hs. unfold okl4_range_allocator_alloc. store_steps; [done|]. store_steps.
  unfold range_is_anonymous. destruct (Z.eqb_spec (base ir) OKL4_ALLOC_ANONYMOUS) as [Ha|Ha].
  - eapply wp_mono; [by eapply range_anonymous_allocation_spec|]. intros rc m' [(-> & p & l' & Ht)|(-> & -> & Hn)].
    + left. split; [done|]. by exists p, l'.
    + right. left. done.
  - eapply wp_mono; [by eapply range_named_allocation_spec|].
    intros rc m' [(-> & l' & Ht)|[(-> & -> & Hn)|(-> & -> & Hn)]].
    + left. split; [done|]. by exists (base ir), l'.
    + right. right. left. done.
    + right. right. right. done.
Qed.

(** C29: the range allocator.  An anonymous request is granted whenever there
    is a run of free values of its length, a named one exactly when its run is
    free and inside the managed range; a granted run was free, becomes
    allocated, and nothing else changes; a refusal changes nothing.  Freeing an
    item gives back exactly its values and removes the item, and the allocator
    stays well formed.  Initialisation gives an allocator of the requested
    range with nothing allocated. *)
Theorem range_allocator_correct m l b e :
  wf m l b e ->
  (forall r ir, r ∉ head_addr :: l -> m !! r = Some ir -> 0 <= base ir -> 0 < isize ir < WORD_MOD ->
     wp (okl4_range_allocator_alloc (Some r)) (alloc_outcome m l b e r ir) m) /\
  (forall r ir, r ∈ l -> m !! r = Some ir -> wp (okl4_range_allocator_free (Some r)) (fun _ m' => exists l',
     wf m' l' b e /\ l ≡ₚ r :: l' /\
     forall v, allocated m' l' v <-> allocated m l v /\ ~ base ir <= v < base ir + isize ir) m) /\
  (forall attr (m0 : store), 0 <= attr_base attr -> 0 <= attr_size attr < WORD_MOD ->
     (attr_base attr = OKL4_ALLOC_ANONYMOUS \/ attr_base attr + attr_size attr < WORD_MOD) -> is_Some (m0 !! head_addr) ->
     wp (okl4_range_allocator_init attr) (fun _ m' =>
       let b := if attr_base attr =? OKL4_ALLOC_ANONYMOUS then 0 else attr_base attr in
       wf m' [] b (b + attr_size attr) /\ (forall v, ~ allocated m' [] v) /\
       (forall a, a <> head_addr -> m' !! a = m0 !! a)) m0).
Proof.
  intros Hwf. split_and!; intros; [by apply range_alloc_spec|by apply range_free_spec|by apply range_init_spec].
Qed.

End range_properties.


(** *** Witnesses: an allocator of [100, 200) and two items *)

Module RangeDemo.
Import Range.
Definition attr : allocator_attr := AllocatorAttr 100 100.
Definition raw : store := {[ 0%nat := Item 1 2 3 None; 1%nat := Item OKL4_ALLOC_ANONYMOUS 30 0 None;
                             2%nat := Item 120 40 0 None ]}.
Definition run {A} (c : M store A) (m : store) : store := match c m with Done _ m' => m' | Crash _ => m end.
Definition fresh : store := run (okl4_range_allocator_init attr) raw.
Definition one : store := run (okl4_range_allocator_alloc (Some 1%nat)) fresh.

Lemma range_fresh_wf : wf fresh [] 100 200.
Proof.
  pose proof (range_init_spec raw attr) as H. unfold wp in H. unfold fresh, run.
  destruct (okl4_range_allocator_init attr raw) as [[] a|] eqn:E.
  - apply H; try (by eexists); try (right; reflexivity); unfold WORD_MOD; simpl; lia.
  - exfalso. apply H; try (by eexists); try (right; reflexivity); unfold WORD_MOD; simpl; lia.
Qed.

Lemma one_wf : wf one [1%nat] 100 200.
Proof.
  constructor.
  - apply (bool_decide_eq_true_1 _). reflexivity.
  - done.
  - simpl. eexists. split; [reflexivity|]. simpl. split_and!; try done.
    eexists. split; [reflexivity|]. simpl. split_and!; done.
  - by intros i [= <-].
  - intros a i ->%list_elem_of_singleton [= <-]. done.
Qed.
End RangeDemo.

Lemma range_allocator_correct_witness :
  wp (Range.okl4_range_allocator_alloc (Some 2%nat))
    (alloc_outcome RangeDemo.one [1%nat] 100 200 2%nat (Range.Item 120 40 0 None)) RangeDemo.one /\
  wp (Range.okl4_range_allocator_free (Some 1%nat)) (fun _ m' => exists l',
    Range.wf m' l' 100 200 /\ [1%nat] ≡ₚ 1%nat :: l' /\
    forall v, Range.allocated m' l' v <-> Range.allocated RangeDemo.one [1%nat] v /\ ~ 170 <= v < 170 + 30) RangeDemo.one /\
  wp (Range.okl4_range_allocator_init RangeDemo.attr) (fun _ m' =>
    Range.wf m' [] 100 200 /\ (forall v, ~ Range.allocated m' [] v) /\
    (forall a, a <> Range.head_addr -> m' !! a = RangeDemo.raw !! a)) RangeDemo.raw.
Proof.
  destruct (range_allocator_correct RangeDemo.one [1%nat] 100 200 RangeDemo.one_wf) as (Ha & Hf & Hi). split; [|split].
  - apply Ha; [apply (bool_decide_eq_true_1 _); reflexivity|reflexivity|simpl; lia|unfold WORD_MOD; simpl; lia].
  - apply (Hf 1%nat (Range.Item 170 30 30 None)); [apply (bool_decide_eq_true_1 _); reflexivity|reflexivity].
  - apply (Hi RangeDemo.attr); [simpl; lia|unfold WORD_MOD; simpl; lia|right; reflexivity|by eexists].
Defined.
