(* ===== verification/LinkedList.v ===== *)
(** * The [ll] library ([libs/ll]): circular doubly linked lists

    The cell given to a client stands for the list as a whole; an empty list
    is that cell linked to itself.  A [struct double_list] is used by the code
    as such a cell too ([head] and [tail] overlay [next] and [prev]), so it is
    one here. *)

From S2P Require Import Prelude Rings Heap.
#[local] Open Scope Z_scope.

Module LL.

(** [struct ll]; a pointer is the address of a cell or NULL, and [data] is an
    opaque word. *)
Record ll : Type := Cell {
  next : option nat;
  prev : option nat;
  data : Z
}.
Definition set_next v c := Cell v (prev c) (data c).
Definition set_prev v c := Cell (next c) v (data c).
Definition set_data v c := Cell (next c) (prev c) v.

#[export] Instance ll_links : Links ll := {| link_next := next; link_prev := prev |}.

Abbreviation heap := (gmap nat ll).

Section operations.
Context `{MM : !Malloc ll}.

Definition ll_init (lp : option nat) : M heap unit :=
  do! store lp (set_prev lp) in
  do! store lp (set_next lp) in
  store lp (set_data 0).

Definition ll_new : M heap (option nat) :=
  let! ll := malloc in
  do! (when bool_decide (ll <> None) do
    (do! store ll (set_next ll) in
     do! store ll (set_prev ll) in
     store ll (set_data 0))) in
  ret ll.

Definition ll_insert_before (ll : option nat) (d : Z) : M heap (option nat) :=
  let! new := malloc in
  do! (when bool_decide (new <> None) do
    (do! store new (set_next ll) in
     let! c := load ll in
     do! store (prev c) (set_next new) in
     let! c := load ll in
     do! store new (set_prev (prev c)) in
     do! store ll (set_prev new) in
     store new (set_data d))) in
  ret new.

Definition ll_insert_after (ll : option nat) (d : Z) : M heap (option nat) :=
  let! new := malloc in
  do! (when bool_decide (new <> None) do
    (do! store new (set_prev ll) in
     let! c := load ll in
     do! store (next c) (set_prev new) in
     let! c := load ll in
     do! store new (set_next (next c)) in
     do! store ll (set_next new) in
     store new (set_data d))) in
  ret new.

Definition ll_add_end (ll : option nat) (d : Z) : M heap (option nat) := ll_insert_before ll d.
Definition ll_add_front (ll : option nat) (d : Z) : M heap (option nat) := ll_insert_after ll d.

Definition ll_delete (ll : option nat) : M heap (option nat) :=
  let! c := load ll in
  let nxt := next c in
  let! c := load ll in
  do! store (next c) (set_prev (prev c)) in
  let! c := load ll in
  do! store (prev c) (set_next (next c)) in
  do! free ll in
  ret nxt.

Definition ll_pop (ll : option nat) : M heap Z :=
  let! c := load ll in
  let first := next c in
  let! f := load first in
  let value := data f in
  do! (when bool_decide (first <> ll) do (let! _ := ll_delete first in ret tt)) in
  ret value.

(** [while (tmp != ll) tmp = ll_delete(tmp);]; a list has fewer cells than
    the heap. *)
Fixpoint ll_free_loop (fuel : nat) (ll tmp : option nat) : M heap unit :=
  if bool_decide (tmp = ll) then ret tt
  else
    match fuel with
    | O => crash LoopBoundExceeded
    | S fuel' =>
        let! tmp' := ll_delete tmp in
        ll_free_loop fuel' ll tmp'
    end.
Definition ll_free (ll : option nat) : M heap unit :=
  let! c := load ll in
  let! h := gets id in
  do! ll_free_loop (size h) ll (next c) in
  free ll.

(** The [double_list] operations; [head] is [next] and [tail] is [prev] of
    the overlaid cell.  They return the address of the payload, which is that
    of the new cell. *)
Definition dl_list_init (dl : option nat) : M heap unit :=
  do! store dl (set_next dl) in
  store dl (set_prev dl).

Definition dl_list_create_back (dl : option nat) : M heap (option nat) :=
  let! new := malloc in
  if bool_decide (new <> None) then
    do! store new (set_next dl) in
    let! c := load dl in
    do! store (prev c) (set_next new) in
    let! c := load dl in
    do! store new (set_prev (prev c)) in
    do! store dl (set_prev new) in
    ret new
  else ret None.

Definition dl_list_create_front (dl : option nat) : M heap (option nat) :=
  let! new := malloc in
  if bool_decide (new <> None) then
    do! store new (set_prev dl) in
    let! c := load dl in
    do! store (next c) (set_prev new) in
    let! c := load dl in
    do! store new (set_next (next c)) in
    do! store dl (set_next new) in
    ret new
  else ret None.

(** ** Specification *)

(** The cells on a list, with their data: [h] is the list's own cell. *)
Definition addrs (L : list (nat * Z)) : list nat := L.*1.

Record is_list (m : heap) (h : nat) (L : list (nat * Z)) : Prop := {
  il_ring : ring m (h :: addrs L);
  il_nodup : NoDup (h :: addrs L);
  il_data : forall a v, (a, v) ∈ L -> data <$> m !! a = Some v
}.

(** [m'] differs from [m] at most in the cells of [A]. *)
Definition same_outside (m m' : heap) (A : list nat) : Prop := forall x, x ∉ A -> m' !! x = m !! x.

(** The cell before the part [L1] ends, and the one after it. *)
Definition before (h : nat) (L1 : list (nat * Z)) : nat := default h (last (addrs L1)).
Definition after (h : nat) (L2 : list (nat * Z)) : nat := default h (head (addrs L2)).

(** [m'] is [m] with the new cell [a] linked in between [p] and [z]. *)
Record spliced (m m' : heap) (p z a : nat) (d : Z) : Prop := {
  sp_fresh : m !! a = None;
  sp_next_a : nxt m' a = Some (Some z);
  sp_prev_a : prv m' a = Some (Some p);
  sp_next_p : nxt m' p = Some (Some a);
  sp_prev_z : prv m' z = Some (Some a);
  sp_next : forall x, x <> a -> x <> p -> nxt m' x = nxt m x;
  sp_prev : forall x, x <> a -> x <> z -> prv m' x = prv m x;
  sp_data_a : data <$> m' !! a = Some d;
  sp_data : forall x, x <> a -> data <$> m' !! x = data <$> m !! x;
  sp_same : same_outside m m' [a; z; p]
}.

(** [m'] is [m] with the cell [z] between [p] and [n] unlinked and freed. *)
Record unlinked (m m' : heap) (p z n : nat) : Prop := {
  un_gone : m' !! z = None;
  un_next_p : nxt m' p = Some (Some n);
  un_prev_n : prv m' n = Some (Some p);
  un_next : forall x, x <> z -> x <> p -> nxt m' x = nxt m x;
  un_prev : forall x, x <> z -> x <> n -> prv m' x = prv m x;
  un_data : forall x, x <> z -> data <$> m' !! x = data <$> m !! x;
  un_same : same_outside m m' [z; n; p]
}.

Ltac solve_cells :=
  unfold nxt, prv, same_outside in *; intros; rewrite ?not_elem_of_cons in *;
  repeat first [rewrite lookup_insert | rewrite lookup_delete];
  repeat case_decide; subst; try tauto;
  repeat match goal with H : ?m !! ?x = _ |- context [?m !! ?x] => rewrite H end;
  simpl; try tauto; congruence.

Lemma linked_cells m p z : nxt m p = Some (Some z) -> prv m z = Some (Some p) ->
  exists cp cz, m !! p = Some cp /\ m !! z = Some cz /\ next cp = Some z /\ prev cz = Some p.
Proof.
  unfold nxt, prv. destruct (m !! p) as [cp|] eqn:Ep; simpl; [|done]. destruct (m !! z) as [cz|] eqn:Ez; simpl; [|done].
  intros [=] [=]. by exists cp, cz.
Qed.

(** Runs an insertion between the linked cells [p] and [z], which may be the
    same cell. *)
Ltac splice_run f :=
  intros Hn Hp;
  match type of Hn with nxt ?m ?p = Some (Some ?z) =>
    destruct (linked_cells m p z Hn Hp) as (cp & cz & Ep & Ez & Enp & Epz);
    unfold f; wp_step; apply wp_malloc; [intros; wp_steps; by left|]; simpl; intros a Ha;
    assert (a <> z) by congruence; assert (a <> p) by congruence; unfold nxt, prv in *;
    destruct (decide (p = z)) as [->|Hpz]; simplify_eq; heap_steps;
    rewrite ?Epz, ?Enp; heap_steps; right; exists a; (split; [done|]); constructor; try done; solve_cells
  end.

Lemma ll_insert_before_splice m p z d :
  nxt m p = Some (Some z) -> prv m z = Some (Some p) ->
  wp (ll_insert_before (Some z) d) (fun r m' =>
    (r = None /\ m' = m /\ malloc_at m = None) \/ exists a, r = Some a /\ spliced m m' p z a d) m.
Proof. splice_run ll_insert_before. Qed.

Lemma ll_insert_after_splice m p z d :
  nxt m p = Some (Some z) -> prv m z = Some (Some p) ->
  wp (ll_insert_after (Some p) d) (fun r m' =>
    (r = None /\ m' = m /\ malloc_at m = None) \/ exists a, r = Some a /\ spliced m m' p z a d) m.
Proof. splice_run ll_insert_after. Qed.

Lemma dl_list_create_back_splice m p z :
  nxt m p = Some (Some z) -> prv m z = Some (Some p) ->
  wp (dl_list_create_back (Some z)) (fun r m' =>
    (r = None /\ m' = m /\ malloc_at m = None) \/ exists a, r = Some a /\ spliced m m' p z a (data (malloc_junk a))) m.
Proof. splice_run dl_list_create_back. Qed.

Lemma dl_list_create_front_splice m p z :
  nxt m p = Some (Some z) -> prv m z = Some (Some p) ->
  wp (dl_list_create_front (Some p)) (fun r m' =>
    (r = None /\ m' = m /\ malloc_at m = None) \/ exists a, r = Some a /\ spliced m m' p z a (data (malloc_junk a))) m.
Proof. splice_run dl_list_create_front. Qed.

Lemma ll_delete_unlink m p z n :
  nxt m p = Some (Some z) -> prv m z = Some (Some p) -> nxt m z = Some (Some n) -> prv m n = Some (Some z) -> p <> z ->
  wp (ll_delete (Some z)) (fun r m' => r = Some n /\ unlinked m m' p z n) m.
Proof.
  intros Hn Hp Hn' Hp' Hne. destruct (linked_cells _ _ _ Hn Hp) as (cp & cz & Ep & Ez & Enp & Epz).
  destruct (linked_cells _ _ _ Hn' Hp') as (cz' & cn & Ez' & En & Enz & Epn). simplify_eq.
  assert (n <> z) by congruence. unfold ll_delete. unfold nxt, prv in *. heap_steps.
  rewrite Enz. heap_steps. rewrite Epz.
  destruct (decide (p = n)) as [->|Hpn]; simplify_eq; heap_steps; (split; [done|]).
  - constructor; try done; solve_cells.
  - constructor; try done; solve_cells.
Qed.

(** *** Splicing and unlinking on lists *)

(** The cells of a list seen from the one after the part [L1]. *)
Lemma around h L1 L2 : exists c, after h L2 :: c = addrs L2 ++ h :: addrs L1 /\
  default (after h L2) (last c) = before h L1.
Proof.
  unfold after, before. destruct L2 as [|[z v] L2]; simpl.
  - by exists (addrs L1).
  - exists (addrs L2 ++ h :: addrs L1). split; [done|]. rewrite last_app, last_cons. by destruct (last (addrs L1)).
Qed.

Lemma ring_around (m : heap) h L1 L2 : ring m (h :: addrs (L1 ++ L2)) <-> ring m (addrs L2 ++ h :: addrs L1).
Proof.
  unfold addrs. rewrite fmap_app. change (h :: L1.*1 ++ L2.*1) with ((h :: L1.*1) ++ L2.*1).
  split; apply ring_rotate.
Qed.

Lemma perm_around h L1 L2 : addrs L2 ++ h :: addrs L1 ≡ₚ h :: addrs (L1 ++ L2).
Proof. unfold addrs. rewrite fmap_app. solve_Permutation. Qed.

Lemma is_list_linked m h L1 L2 :
  is_list m h (L1 ++ L2) -> nxt m (before h L1) = Some (Some (after h L2)) /\ prv m (after h L2) = Some (Some (before h L1)).
Proof.
  intros [Hr _ _]. apply ring_around in Hr. destruct (around h L1 L2) as (c & Hc & Hlast). rewrite <-Hc in Hr.
  apply ring_path in Hr as [_ [Hn Hp]]. rewrite Hlast in *. done.
Qed.

Lemma is_list_dom m h L x : is_list m h L -> x ∈ h :: addrs L -> is_Some (m !! x).
Proof.
  intros [Hr _ _] Hx. destruct (ring_elem _ _ _ Hr Hx) as (n & p & Hn & _). by eapply is_Some_nxt.
Qed.

Lemma elem_of_ends h L1 L2 : before h L1 ∈ h :: addrs (L1 ++ L2) /\ after h L2 ∈ h :: addrs (L1 ++ L2).
Proof.
  unfold before, after, addrs. rewrite fmap_app. split.
  - destruct (last L1.*1) eqn:E; simpl; [apply last_Some_elem_of in E|]; set_solver.
  - destruct L2; simpl; set_solver.
Qed.

Lemma is_list_splice m m' h L1 L2 a d :
  is_list m h (L1 ++ L2) -> spliced m m' (before h L1) (after h L2) a d -> is_list m' h (L1 ++ (a, d) :: L2).
Proof.
  intros Hil []. pose proof Hil as [Hr Hnd Hd].
  assert (Ha : a ∉ h :: addrs (L1 ++ L2)).
  { intros Hin. destruct (is_list_dom _ _ _ _ Hil Hin). congruence. }
  destruct (around h L1 L2) as (c & Hc & Hlast). constructor.
  - apply ring_around. apply (ring_rotate m' (addrs L2 ++ h :: addrs L1) [a]). rewrite <-Hc. apply ring_around in Hr. rewrite <-Hc in Hr.
    eapply ring_insert; [|exact Hr| |done|..]; rewrite ?Hlast, ?Hc, ?perm_around; done.
  - unfold addrs in *. rewrite fmap_app in *. simpl. rewrite <-Permutation_middle, Permutation_swap.
    by apply NoDup_cons.
  - intros x v Hx. rewrite elem_of_app, elem_of_cons in Hx. destruct (decide (x = a)) as [->|Hne].
    + assert (a ∉ addrs (L1 ++ L2)) by set_solver. destruct Hx as [Hx|[[= ->]|Hx]]; [|done|];
        exfalso; eapply H; apply list_elem_of_fmap; exists (a, v); (split; [done|]); set_solver.
    + rewrite sp_data0 by done. apply Hd. set_solver.
Qed.

Lemma is_list_unlink m m' h L1 L2 z v :
  is_list m h (L1 ++ (z, v) :: L2) -> unlinked m m' (before h L1) z (after h L2) -> is_list m' h (L1 ++ L2).
Proof.
  intros Hil []. pose proof Hil as [Hr Hnd Hd].
  assert (Hz : z ∉ h :: addrs (L1 ++ L2) /\ NoDup (h :: addrs (L1 ++ L2))).
  { unfold addrs in *. rewrite fmap_app in *. simpl in Hnd.
    rewrite <-Permutation_middle, Permutation_swap in Hnd. by apply NoDup_cons in Hnd. }
  destruct Hz as [Hz Hnd'].
  destruct (around h L1 L2) as (c & Hc & Hlast). constructor; [|done|].
  - apply ring_around in Hr. apply ring_around. change (ring m (z :: addrs L2 ++ h :: addrs L1)) in Hr. rewrite <-Hc in *.
    eapply (ring_remove m m' z (after h L2) c); try done. rewrite Hc, perm_around. by apply NoDup_cons.
  - intros x w Hx. rewrite un_data0; [apply Hd; set_solver|]. intros ->. apply Hz.
    apply elem_of_cons. right. apply list_elem_of_fmap. by exists (z, w).
Qed.

(** *** The operations as steps on the abstract list *)

Inductive op : Type :=
| InsertBefore (z : nat) (v : Z)
| InsertAfter (z : nat) (v : Z)
| AddEnd (v : Z)
| AddFront (v : Z)
| Delete (z : nat)
| Pop.

Inductive result : Type :=
| Pointer (p : option nat)
| Value (v : Z).

Definition exec (h : nat) (o : op) : M heap result :=
  match o with
  | InsertBefore z v => let! r := ll_insert_before (Some z) v in ret (Pointer r)
  | InsertAfter z v => let! r := ll_insert_after (Some z) v in ret (Pointer r)
  | AddEnd v => let! r := ll_add_end (Some h) v in ret (Pointer r)
  | AddFront v => let! r := ll_add_front (Some h) v in ret (Pointer r)
  | Delete z => let! r := ll_delete (Some z) in ret (Pointer r)
  | Pop => let! v := ll_pop (Some h) in ret (Value v)
  end.

(** The cell an operation is given is on the list. *)
Definition op_ok (h : nat) (L : list (nat * Z)) (o : op) : Prop :=
  match o with
  | InsertBefore z _ | InsertAfter z _ => z ∈ h :: addrs L
  | Delete z => z ∈ addrs L
  | _ => True
  end.

(** Where a new cell goes: between the parts [L1] and [L2]. *)
Definition goes (h : nat) (o : op) (L1 L2 : list (nat * Z)) (v : Z) : Prop :=
  match o with
  | InsertBefore z v' => z = after h L2 /\ v' = v
  | InsertAfter z v' => z = before h L1 /\ v' = v
  | AddEnd v' => L2 = [] /\ v' = v
  | AddFront v' => L1 = [] /\ v' = v
  | _ => False
  end.

Inductive a_step (h : nat) (hd : Z) : list (nat * Z) -> op -> result -> list (nat * Z) -> Prop :=
| step_insert L1 L2 o v a :
    goes h o L1 L2 v -> a ∉ h :: addrs (L1 ++ L2) ->
    a_step h hd (L1 ++ L2) o (Pointer (Some a)) (L1 ++ (a, v) :: L2)
| step_nomem L1 L2 o v :
    goes h o L1 L2 v -> a_step h hd (L1 ++ L2) o (Pointer None) (L1 ++ L2)
| step_delete L1 z v L2 :
    a_step h hd (L1 ++ (z, v) :: L2) (Delete z) (Pointer (Some (after h L2))) (L1 ++ L2)
| step_pop a v L : a_step h hd ((a, v) :: L) Pop (Value v) L
| step_pop_empty : a_step h hd [] Pop (Value hd) [].

(** The state after an operation: the list is the abstract one, the data of
    the list's own cell is kept, and no cell outside the list has changed. *)
Record after_op (h : nat) (m : heap) (L : list (nat * Z)) (m' : heap) (L' : list (nat * Z)) : Prop := {
  ao_list : is_list m' h L';
  ao_data : data <$> m' !! h = data <$> m !! h;
  ao_frame : same_outside m m' (h :: addrs L ++ addrs L')
}.

Lemma split_before h L z : z ∈ h :: addrs L -> exists L1 L2, L = L1 ++ L2 /\ z = after h L2.
Proof.
  intros [->|Hz]%elem_of_cons.
  - exists L, []. by rewrite app_nil_r.
  - apply list_elem_of_fmap in Hz as ([a v] & -> & Hz). apply list_elem_of_split in Hz as (L1 & L2 & ->).
    by exists L1, ((a, v) :: L2).
Qed.

Lemma split_after h L z : z ∈ h :: addrs L -> exists L1 L2, L = L1 ++ L2 /\ z = before h L1.
Proof.
  intros [->|Hz]%elem_of_cons.
  - by exists [], L.
  - apply list_elem_of_fmap in Hz as ([a v] & -> & Hz). apply list_elem_of_split in Hz as (L1 & L2 & ->).
    exists (L1 ++ [(a, v)]), L2. rewrite <-app_assoc. split; [done|].
    unfold before, addrs. rewrite fmap_app; simpl; by rewrite last_snoc.
Qed.

Lemma splice_after_op m m' h L1 L2 a d :
  is_list m h (L1 ++ L2) -> spliced m m' (before h L1) (after h L2) a d ->
  after_op h m (L1 ++ L2) m' (L1 ++ (a, d) :: L2) /\ a ∉ h :: addrs (L1 ++ L2).
Proof.
  intros Hil Hs. assert (Ha : a ∉ h :: addrs (L1 ++ L2)).
  { intros Hin. destruct (is_list_dom _ _ _ _ Hil Hin). destruct Hs. congruence. }
  split; [|done]. constructor.
  - by eapply is_list_splice.
  - apply Hs. set_solver.
  - intros x Hx. apply Hs. destruct (elem_of_ends h L1 L2). unfold addrs in *. rewrite !fmap_app in *. set_solver.
Qed.

Lemma unlink_after_op m m' h L1 L2 z v :
  is_list m h (L1 ++ (z, v) :: L2) -> unlinked m m' (before h L1) z (after h L2) ->
  after_op h m (L1 ++ (z, v) :: L2) m' (L1 ++ L2).
Proof.
  intros Hil Hu. constructor.
  - by eapply is_list_unlink.
  - apply Hu. destruct Hil as [_ Hnd _]. unfold addrs in Hnd. rewrite fmap_app in Hnd. apply NoDup_cons in Hnd. set_solver.
  - intros x Hx. apply Hu. destruct (elem_of_ends h L1 L2). unfold addrs in *. rewrite !fmap_app in *. set_solver.
Qed.

Lemma ll_delete_spec m h L1 z v L2 :
  is_list m h (L1 ++ (z, v) :: L2) ->
  wp (ll_delete (Some z)) (fun r m' => r = Some (after h L2) /\ unlinked m m' (before h L1) z (after h L2)) m.
Proof.
  intros Hil. destruct (is_list_linked m h L1 ((z, v) :: L2) Hil) as [Hn Hp].
  destruct (is_list_linked m h (L1 ++ [(z, v)]) L2) as [Hn' Hp']; [by rewrite <-app_assoc|].
  assert (Hb : before h (L1 ++ [(z, v)]) = z) by (unfold before, addrs; rewrite fmap_app; simpl; by rewrite last_snoc).
  rewrite Hb in *. apply (ll_delete_unlink m); try done.
  destruct (elem_of_ends h L1 L2) as [Hin _]. intros Heq. rewrite Heq in Hin. destruct Hil as [_ Hnd _].
  unfold addrs in *. rewrite fmap_app in *. apply NoDup_cons in Hnd as [Hh Hnd].
  apply NoDup_app in Hnd as (_ & Hd & Hnd). apply NoDup_cons in Hnd as [Hz _]. set_solver.
Qed.

Lemma delete_op m h L1 z v L2 :
  is_list m h (L1 ++ (z, v) :: L2) ->
  wp (ll_delete (Some z)) (fun _ m' => after_op h m (L1 ++ (z, v) :: L2) m' (L1 ++ L2)) m.
Proof.
  intros Hil. eapply wp_mono; [by eapply ll_delete_spec|]. intros r m' [_ Hu]. by apply unlink_after_op.
Qed.

(** A cell of a list: its data and its successor. *)
Lemma is_list_cell m h L1 z v L2 :
  is_list m h (L1 ++ (z, v) :: L2) -> exists c, m !! z = Some c /\ data c = v /\ next c = Some (after h L2).
Proof.
  intros Hil. destruct (is_list_linked m h (L1 ++ [(z, v)]) L2) as [Hn _]; [by rewrite <-app_assoc|].
  assert (Hb : before h (L1 ++ [(z, v)]) = z) by (unfold before, addrs; rewrite fmap_app; simpl; by rewrite last_snoc).
  rewrite Hb in Hn. assert (Hd : data <$> m !! z = Some v) by (apply Hil; set_solver). unfold nxt in Hn.
  destruct (m !! z) as [c|]; [|done]. exists c. simpl in *. split_and!; congruence.
Qed.

Lemma is_list_head m h L : is_list m h L -> exists c, m !! h = Some c /\ next c = Some (after h L).
Proof.
  intros Hil. destruct (is_list_linked m h [] L Hil) as [Hn _]. change (before h []) with h in Hn. unfold nxt in Hn.
  destruct (m !! h) as [c|]; [|done]. exists c. simpl in *. split; congruence.
Qed.

Lemma insert_before_op m h L1 L2 v :
  is_list m h (L1 ++ L2) ->
  wp (ll_insert_before (Some (after h L2)) v) (fun r m' =>
    (r = None /\ m' = m /\ malloc_at m = None) \/
    exists a, r = Some a /\ after_op h m (L1 ++ L2) m' (L1 ++ (a, v) :: L2) /\ a ∉ h :: addrs (L1 ++ L2)) m.
Proof.
  intros Hil. destruct (is_list_linked m h L1 L2 Hil) as [Hn Hp].
  eapply wp_mono; [by apply ll_insert_before_splice|]. simpl. intros r m' [Hr|(a & -> & Hs)]; [by left|].
  right. exists a. split; [done|]. by apply splice_after_op.
Qed.

Lemma insert_after_op m h L1 L2 v :
  is_list m h (L1 ++ L2) ->
  wp (ll_insert_after (Some (before h L1)) v) (fun r m' =>
    (r = None /\ m' = m /\ malloc_at m = None) \/
    exists a, r = Some a /\ after_op h m (L1 ++ L2) m' (L1 ++ (a, v) :: L2) /\ a ∉ h :: addrs (L1 ++ L2)) m.
Proof.
  intros Hil. destruct (is_list_linked m h L1 L2 Hil) as [Hn Hp].
  eapply wp_mono; [by apply ll_insert_after_splice|]. simpl. intros r m' [Hr|(a & -> & Hs)]; [by left|].
  right. exists a. split; [done|]. by apply splice_after_op.
Qed.

Lemma after_op_refl h m L : is_list m h L -> after_op h m L m L.
Proof. intros. by constructor. Qed.

(** The step taken by an insertion, from the outcome of the C function. *)
Lemma insert_step h hd m L1 L2 o v r m' :
  is_list m h (L1 ++ L2) -> goes h o L1 L2 v ->
  ((r = None /\ m' = m /\ malloc_at m = None) \/
   exists a, r = Some a /\ after_op h m (L1 ++ L2) m' (L1 ++ (a, v) :: L2) /\ a ∉ h :: addrs (L1 ++ L2)) ->
  exists L', a_step h hd (L1 ++ L2) o (Pointer r) L' /\ after_op h m (L1 ++ L2) m' L'.
Proof.
  intros Hil Hg [(-> & -> & _)|(a & -> & Hao & Ha)].
  - eexists. split; [by eapply step_nomem|by apply after_op_refl].
  - eexists. split; [by eapply step_insert|done].
Qed.

Lemma ll_pop_spec m h hd L :
  is_list m h L -> data <$> m !! h = Some hd ->
  wp (ll_pop (Some h)) (fun v m' => exists L', a_step h hd L Pop (Value v) L' /\ after_op h m L m' L') m.
Proof.
  intros Hil Hh. destruct (is_list_linked m h [] L Hil) as [Hn Hp].
  change (before h []) with h in Hn.
  destruct (m !! h) as [ch|] eqn:Eh; simpl in Hh; [injection Hh as Hh|done].
  assert (Enh : next ch = Some (after h L)) by (unfold nxt in Hn; rewrite Eh in Hn; by injection Hn as ->).
  unfold ll_pop. heap_steps. rewrite Enh. destruct L as [|[a v] L].
  - change (after h []) with h. heap_steps. rewrite bool_decide_eq_false_2 by (intros Hx; by apply Hx).
    heap_steps. exists []. rewrite Hh. split; [constructor|by apply after_op_refl].
  - assert (Ha : data <$> m !! a = Some v) by (apply Hil; set_solver).
    destruct (m !! a) as [ca|] eqn:Ea; simpl in Ha; [injection Ha as Ha|done]. simpl.
    change (after h ((a, v) :: L)) with a. heap_steps.
    assert (a <> h) by (destruct Hil as [_ Hnd _]; apply NoDup_cons in Hnd; set_solver).
    rewrite bool_decide_eq_true_2 by congruence. wp_steps.
    eapply wp_mono; [by apply (ll_delete_spec m h [] a v L)|]. simpl. intros r m' [_ Hu]. wp_steps. rewrite Ha.
    exists L. split; [constructor|]. by apply (unlink_after_op m m' h [] L a v).
Qed.

(** Every operation implements its abstract step. *)
Lemma exec_spec m h hd L o :
  is_list m h L -> data <$> m !! h = Some hd -> op_ok h L o ->
  wp (exec h o) (fun r m' => exists L', a_step h hd L o r L' /\ after_op h m L m' L') m.
Proof.
  intros Hil Hh Hok. destruct o as [z v|z v|v|v|z|]; simpl in *; wp_step.
  - destruct (split_before _ _ _ Hok) as (L1 & L2 & -> & ->).
    eapply wp_mono; [by apply insert_before_op|]. intros r m' Hr. wp_steps. by eapply insert_step.
  - destruct (split_after _ _ _ Hok) as (L1 & L2 & -> & ->).
    eapply wp_mono; [by apply insert_after_op|]. intros r m' Hr. wp_steps. by eapply insert_step.
  - rewrite <-(app_nil_r L) in Hil |- *. eapply wp_mono; [by apply (insert_before_op m h L [])|].
    intros r m' Hr. wp_steps. by eapply insert_step.
  - eapply wp_mono; [by apply (insert_after_op m h [] L)|].
    intros r m' Hr. wp_steps. by apply (insert_step h hd m [] L (AddFront v) v).
  - apply list_elem_of_fmap in Hok as ([z' v] & -> & Hz). apply list_elem_of_split in Hz as (L1 & L2 & ->).
    eapply wp_mono; [by eapply ll_delete_spec|]. intros r m' [-> Hu]. wp_steps.
    exists (L1 ++ L2). split; [constructor|by apply unlink_after_op].
  - eapply wp_mono; [by eapply ll_pop_spec|]. intros v m' Hr. by wp_steps.
Qed.

(** *** Creation and release *)

Lemma self_linked_list m h c : m !! h = Some c -> next c = Some h -> prev c = Some h -> is_list m h [].
Proof.
  intros Hc Hn Hp. constructor.
  - apply ring_singleton; [unfold nxt|unfold prv]; rewrite Hc; simpl; congruence.
  - apply NoDup_singleton.
  - intros a v Hin. by apply not_elem_of_nil in Hin.
Qed.

Lemma ll_new_spec m :
  wp ll_new (fun r m' => (r = None /\ m' = m) \/
    exists a, r = Some a /\ m !! a = None /\ is_list m' a [] /\ data <$> m' !! a = Some 0 /\ same_outside m m' [a]) m.
Proof.
  unfold ll_new. wp_step. apply wp_malloc; [intros; wp_steps; by left|]. simpl. intros a Ha. heap_steps.
  right. exists a. split_and!; [done|done| | |].
  - eapply self_linked_list; [apply lookup_insert_eq|done|done].
  - by rewrite lookup_insert_eq.
  - solve_cells.
Qed.

Lemma ll_init_spec m h :
  is_Some (m !! h) ->
  wp (ll_init (Some h)) (fun _ m' => is_list m' h [] /\ data <$> m' !! h = Some 0 /\ same_outside m m' [h]) m.
Proof.
  intros [c Hc]. unfold ll_init. heap_steps. split_and!.
  - eapply self_linked_list; [apply lookup_insert_eq|done|done].
  - by rewrite lookup_insert_eq.
  - solve_cells.
Qed.

Lemma dl_list_init_spec m h :
  is_Some (m !! h) -> wp (dl_list_init (Some h)) (fun _ m' => is_list m' h [] /\ same_outside m m' [h]) m.
Proof.
  intros [c Hc]. unfold dl_list_init. heap_steps. split.
  - eapply self_linked_list; [apply lookup_insert_eq|done|done].
  - solve_cells.
Qed.

(** A [double_list] grows at the chosen end by a cell with indeterminate
    payload. *)
Lemma dl_list_create_back_spec m h L :
  is_list m h L ->
  wp (dl_list_create_back (Some h)) (fun r m' =>
    (r = None /\ m' = m /\ malloc_at m = None) \/ exists a v, r = Some a /\ after_op h m L m' (L ++ [(a, v)]) /\ a ∉ h :: addrs L) m.
Proof.
  intros Hil. rewrite <-(app_nil_r L) in Hil |- *. destruct (is_list_linked m h L [] Hil) as [Hn Hp].
  eapply wp_mono; [by apply (dl_list_create_back_splice m (before h L) (after h []))|].
  simpl. intros r m' [Hr|(a & -> & Hs)]; [by left|]. right. exists a, (data (malloc_junk a)). split; [done|].
  rewrite <-app_assoc. by apply splice_after_op.
Qed.

Lemma dl_list_create_front_spec m h L :
  is_list m h L ->
  wp (dl_list_create_front (Some h)) (fun r m' =>
    (r = None /\ m' = m /\ malloc_at m = None) \/ exists a v, r = Some a /\ after_op h m L m' ((a, v) :: L) /\ a ∉ h :: addrs L) m.
Proof.
  intros Hil. destruct (is_list_linked m h [] L Hil) as [Hn Hp].
  eapply wp_mono; [by apply (dl_list_create_front_splice m (before h []) (after h L))|].
  simpl. intros r m' [Hr|(a & -> & Hs)]; [by left|]. right. exists a, (data (malloc_junk a)). split; [done|].
  by apply (splice_after_op m m' h [] L).
Qed.

(** Releasing a list deletes its cells and no other. *)
Lemma ll_free_loop_spec m h L fuel :
  is_list m h L -> (length L <= fuel)%nat ->
  wp (ll_free_loop fuel (Some h) (Some (after h L))) (fun _ m' =>
    is_Some (m' !! h) /\ (forall x, x ∈ addrs L -> m' !! x = None) /\
    (forall x, x ∉ h :: addrs L -> m' !! x = m !! x)) m.
Proof.
  revert m fuel. induction L as [|[a v] L IH]; intros m fuel Hil Hf; simpl in *.
  - change (after h []) with h. destruct fuel; simpl; rewrite bool_decide_eq_true_2 by done; wp_steps;
      (split_and!; [eapply is_list_dom; [done|set_solver]|set_solver|done]).
  - destruct fuel as [|fuel]; [lia|]. simpl. change (after h ((a, v) :: L)) with a.
    pose proof Hil as [_ Hnd _]. apply NoDup_cons in Hnd as [Hh Hnd]. apply NoDup_cons in Hnd as [Ha Hnd].
    assert (Hah : a <> h) by set_solver. rewrite bool_decide_eq_false_2 by congruence. wp_step.
    eapply wp_mono; [by apply (ll_delete_spec m h [] a v L)|]. simpl. intros r m' [-> Hu].
    pose proof (unlink_after_op m m' h [] L a v Hil Hu) as [Hil' _ Hfr].
    eapply wp_mono; [apply (IH m' fuel Hil'); lia|]. simpl. intros _ m'' (Hs & Hgone & Hkeep). split_and!; [done| |].
    + intros x [->|Hx]%elem_of_cons; [|by apply Hgone]. rewrite Hkeep; [apply Hu|set_solver].
    + intros x Hx. rewrite Hkeep by set_solver. apply Hfr. set_solver.
Qed.

Lemma ll_free_spec m h L :
  is_list m h L ->
  wp (ll_free (Some h)) (fun _ m' => (forall x, x ∈ h :: addrs L -> m' !! x = None) /\
    (forall x, x ∉ h :: addrs L -> m' !! x = m !! x)) m.
Proof.
  intros Hil. destruct (is_list_linked m h [] L Hil) as [Hn _]. change (before h []) with h in Hn.
  destruct (m !! h) as [c|] eqn:Ec; [|by unfold nxt in Hn; rewrite Ec in Hn].
  assert (Enc : next c = Some (after h L)) by (unfold nxt in Hn; rewrite Ec in Hn; by injection Hn).
  unfold ll_free. heap_steps. rewrite Enc. eapply wp_mono; [apply ll_free_loop_spec; [done|]|].
  - transitivity (length (h :: addrs L)); [unfold addrs; simpl; rewrite length_fmap; lia|].
    apply nodup_length_size; [apply Hil|]. intros x. by apply is_list_dom.
  - simpl. intros _ m' ([c' Hc'] & Hgone & Hkeep). heap_steps. split.
    + intros x [->|Hx]%elem_of_cons; [apply lookup_delete_eq|].
      rewrite lookup_delete_ne; [by apply Hgone|]. intros <-. destruct Hil as [_ Hnd _]. by apply NoDup_cons in Hnd as [? _].
    + intros x Hx. rewrite lookup_delete_ne by set_solver. by apply Hkeep.
Qed.

End operations.
End LL.

(** ** Properties *)

Section ll_properties.
Import LL.
Context `{MM : !Malloc ll}.

(** C30: every list operation (insertion before or after a cell or at an end,
    deletion of a cell, pop) implements its step on the abstract sequence of
    cells and data, never crashes, and changes no cell outside the list.
    [ll_free] terminates, frees every cell of the list exactly once and
    touches no other cell. *)
Theorem ll_operations_correct m h hd L o :
  is_list m h L -> data <$> m !! h = Some hd -> op_ok h L o ->
  wp (exec h o) (fun r m' => exists L', a_step h hd L o r L' /\ after_op h m L m' L') m /\
  wp (ll_free (Some h)) (fun _ m' => (forall x, x ∈ h :: addrs L -> m' !! x = None) /\
    (forall x, x ∉ h :: addrs L -> m' !! x = m !! x)) m.
Proof. intros Hl Hd Ho. split; [by apply exec_spec|by apply ll_free_spec]. Qed.

End ll_properties.

(** *** Witnesses: a list of two cells among eight *)

Module LLDemo.
Import LL.
#[local] Instance pool : Malloc ll := malloc_pool 8 (Cell None None 99).
Definition built : heap :=
  match (let! h := ll_new in let! _ := ll_add_end h 10 in ll_add_front h 20) ∅ with
  | Done _ m => m
  | Crash _ => ∅
  end.

Lemma built_list : is_list built 0 [(2%nat, 20); (1%nat, 10)].
Proof.
  constructor.
  - repeat (split; [split; reflexivity|]). done.
  - apply (bool_decide_eq_true_1 _). reflexivity.
  - intros a v Hin. rewrite !elem_of_cons in Hin. destruct Hin as [[= -> ->]|[[= -> ->]|Hin]]; [reflexivity|reflexivity|].
    by apply not_elem_of_nil in Hin.
Qed.
End LLDemo.

Lemma ll_operations_correct_witness :
  wp (LL.exec (MM := LLDemo.pool) 0%nat (LL.Delete 2%nat)) (fun r m' => exists L',
    LL.a_step 0%nat 0 [(2%nat, 20); (1%nat, 10)] (LL.Delete 2%nat) r L' /\
    LL.after_op 0%nat LLDemo.built [(2%nat, 20); (1%nat, 10)] m' L') LLDemo.built /\
  wp (LL.ll_free (Some 0%nat)) (fun _ m' => (forall x, x ∈ [0; 2; 1]%nat -> m' !! x = None) /\
    (forall x, x ∉ [0; 2; 1]%nat -> m' !! x = LLDemo.built !! x)) LLDemo.built.
Proof.
  apply (ll_operations_correct (MM := LLDemo.pool) LLDemo.built 0%nat 0 [(2%nat, 20); (1%nat, 10)] (LL.Delete 2%nat));
    [exact LLDemo.built_list|reflexivity|simpl; apply (bool_decide_eq_true_1 _); reflexivity].
Defined.
