(* ===== verification/HashTable.v ===== *)
(** * The [hash] library ([libs/hash]): hash table of words

    An array of [size] buckets, [size] a power of two; a bucket is a
    NULL-terminated chain of entries.  The table header, the bucket array and
    the entries are objects of one heap. *)

From S2P Require Import Prelude Heap.
#[local] Open Scope Z_scope.

Module Hash.

Record hashentry : Type := Entry {
  next : option nat;
  key : Z;
  value : Z
}.
Record hashtable : Type := Table {
  table : option nat;
  tsize : Z;
  spares : option nat
}.

(** An object of the heap; the bucket array is an object of its own. *)
Inductive object : Type :=
| OEntry (e : hashentry)
| OTable (t : hashtable)
| OArray (heads : list (option nat)).

Abbreviation heap := (gmap nat object).

(** Accesses at the type the code uses. *)
Definition entry_of (o : object) : option hashentry := match o with OEntry e => Some e | _ => None end.
Definition table_of (o : object) : option hashtable := match o with OTable t => Some t | _ => None end.
Definition array_of (o : object) : option (list (option nat)) := match o with OArray l => Some l | _ => None end.

Definition ld_entry (p : option nat) : M heap hashentry :=
  let! o := load p in demand InvalidPointer (entry_of o).
Definition ld_table (p : option nat) : M heap hashtable :=
  let! o := load p in demand InvalidPointer (table_of o).
(** [arr[i]] and [arr[i] = v] *)
Definition ld_array (p : option nat) (i : Z) : M heap (option nat) :=
  let! o := load p in
  let! l := demand InvalidPointer (array_of o) in
  index l i.
Definition st_array (p : option nat) (i : Z) (v : option nat) : M heap unit :=
  let! o := load p in
  let! l := demand InvalidPointer (array_of o) in
  let! l' := index_set l i v in
  store p (fun _ => OArray l').

(** [hash_hash], for 32-bit [uintptr_t]. *)
Definition hash_hash (k : Z) : Z :=
  let k := u32 (k + not32 (u32 (Z.shiftl k 15))) in
  let k := Z.lxor k (Z.shiftr k 10) in
  let k := u32 (k + u32 (Z.shiftl k 3)) in
  let k := Z.lxor k (Z.shiftr k 6) in
  let k := u32 (k + not32 (u32 (Z.shiftl k 11))) in
  Z.lxor k (Z.shiftr k 16).

(** An entry on a chain: its address, key and value. *)
Abbreviation node := (nat * Z * Z)%type.
(** The abstract table gives each key its values, the most recent first. *)
Abbreviation amap := (Z -> list Z).

Section operations.
Context `{MM : !Malloc object}.

(** [for (counter = 0; counter < size; counter++) table[counter] = NULL;] *)
Fixpoint clear_from (n : nat) (p : option nat) (counter : Z) : M heap unit :=
  match n with
  | O => ret tt
  | S n' => do! st_array p counter None in clear_from n' p (counter + 1)
  end.

(** The array has room for as many pointers, of 4 bytes each, as the 32-bit
    product of [size] and the size of a pointer asks for; [junk] is its
    indeterminate contents. *)
Definition hash_init (junk : nat -> option nat) (size : Z) : M heap (option nat) :=
  do! ASSERT (Z.land size (u32 (size - 1)) =? 0) in
  let! tablestruct := malloc in
  do! ASSERT (bool_decide (tablestruct <> None)) in
  do! store tablestruct (fun _ => OTable (Table None 0 None)) in
  let! arr := malloc in
  do! store tablestruct (fun _ => OTable (Table arr 0 None)) in
  if bool_decide (arr = None) then ret None
  else
    do! store arr (fun _ => OArray (junk <$> seq 0 (Z.to_nat (u32 (size * 4) / 4)))) in
    do! clear_from (Z.to_nat size) arr 0 in
    do! ASSERT (bool_decide (arr <> None)) in
    do! store tablestruct (fun _ => OTable (Table arr size None)) in
    ret tablestruct.

Definition bucket_of (t : hashtable) (k : Z) : Z := Z.land (hash_hash k) (u32 (tsize t - 1)).

(** Loops along a chain are bounded by the number of objects. *)
Fixpoint lookup_from (fuel : nat) (entry : option nat) (k : Z) : M heap Z :=
  match entry with
  | None => ret 0
  | Some _ =>
      match fuel with
      | O => crash LoopBoundExceeded
      | S fuel' =>
          let! e := ld_entry entry in
          if key e =? k then ret (value e) else lookup_from fuel' (next e) k
      end
  end.
Definition hash_lookup (ts : option nat) (k : Z) : M heap Z :=
  let! t := ld_table ts in
  let! entry := ld_array (table t) (bucket_of t k) in
  let! h := gets id in
  lookup_from (size h) entry k.

Definition hash_insert (ts : option nat) (k v : Z) : M heap Z :=
  let! t := ld_table ts in
  let hash := bucket_of t k in
  let! entry := malloc in
  if bool_decide (entry = None) then ret (-1)
  else
    let! nx := ld_array (table t) hash in
    do! store entry (fun _ => OEntry (Entry nx k v)) in
    do! st_array (table t) hash entry in
    ret 0.

Fixpoint remove_from (fuel : nat) (entry : option nat) (k : Z) : M heap unit :=
  match entry with
  | None => ret tt
  | Some _ =>
      match fuel with
      | O => crash LoopBoundExceeded
      | S fuel' =>
          let! e := ld_entry entry in
          match next e with
          | None => remove_from fuel' (next e) k
          | Some _ =>
              let! e' := ld_entry (next e) in
              if key e' =? k then
                do! store entry (fun _ => OEntry (Entry (next e') (key e) (value e))) in
                free (next e)
              else remove_from fuel' (next e) k
          end
      end
  end.
Definition hash_remove (ts : option nat) (k : Z) : M heap unit :=
  let! t := ld_table ts in
  let hash := bucket_of t k in
  let! entry := ld_array (table t) hash in
  let! h := gets id in
  match entry with
  | None => remove_from (size h) entry k
  | Some _ =>
      let! e := ld_entry entry in
      if key e =? k then
        do! free entry in
        st_array (table t) hash (next e)
      else remove_from (size h) entry k
  end.

Fixpoint free_chain (fuel : nat) (entry : option nat) : M heap unit :=
  match entry with
  | None => ret tt
  | Some _ =>
      match fuel with
      | O => crash LoopBoundExceeded
      | S fuel' =>
          let! e := ld_entry entry in
          do! free entry in
          free_chain fuel' (next e)
      end
  end.
Fixpoint free_buckets (n : nat) (arr : option nat) (counter : Z) : M heap unit :=
  match n with
  | O => ret tt
  | S n' =>
      let! entry := ld_array arr counter in
      let! h := gets id in
      do! free_chain (size h) entry in
      free_buckets n' arr (counter + 1)
  end.
Definition hash_free (ts : option nat) : M heap unit :=
  let! t := ld_table ts in
  do! free_buckets (Z.to_nat (tsize t)) (table t) 0 in
  do! free (table t) in
  free ts.

(** ** Specification *)

Definition addr (n : node) : nat := n.1.1.
Definition nkey (n : node) : Z := n.1.2.
Definition nval (n : node) : Z := n.2.

Fixpoint chain (m : heap) (p : option nat) (l : list node) : Prop :=
  match l with
  | [] => p = None
  | (a, k, v) :: l' => p = Some a /\ exists nx, m !! a = Some (OEntry (Entry nx k v)) /\ chain m nx l'
  end.

Definition all_addrs (B : list (list node)) : list nat := addr <$> concat B.

(** The bucket of a key in a table of [n] buckets. *)
Definition slot (n : nat) (k : Z) : nat := Z.to_nat (Z.land (hash_hash k) (u32 (Z.of_nat n - 1))).

(** The table at [ts] with its array at [arr] holds the chains [B]. *)
Record rep (m : heap) (ts arr : nat) (B : list (list node)) : Prop := {
  rep_table : m !! ts = Some (OTable (Table (Some arr) (Z.of_nat (length B)) None));
  rep_heads : exists hs, m !! arr = Some (OArray hs) /\ Forall2 (chain m) hs B;
  rep_pow : exists j, 0 <= j < 32 /\ Z.of_nat (length B) = 2 ^ j;
  rep_hash : forall i l n, B !! i = Some l -> n ∈ l -> slot (length B) (nkey n) = i;
  rep_nodup : NoDup (ts :: arr :: all_addrs B)
}.

(** The values stored for a key, the most recent first. *)
Definition vals (k : Z) (l : list node) : list Z := nval <$> filter (fun n => nkey n = k) l.
Definition values (B : list (list node)) (k : Z) : list Z := vals k (default [] (B !! slot (length B) k)).

Definition same_outside (m m' : heap) (A : list nat) : Prop := forall x, x ∉ A -> m' !! x = m !! x.

Lemma slot_lt n j k : 0 <= j < 32 -> Z.of_nat n = 2 ^ j ->
  0 <= Z.land (hash_hash k) (u32 (Z.of_nat n - 1)) < Z.of_nat n.
Proof.
  intros Hj Hn. rewrite Hn. assert (2 ^ j < WORD_MOD) by (apply Z.pow_lt_mono_r; lia).
  assert (0 < 2 ^ j) by (apply Z.pow_pos_nonneg; lia).
  rewrite u32_word by (unfold is_word; lia). replace (2 ^ j - 1) with (Z.ones j) by (rewrite Z.ones_equiv; lia).
  rewrite Z.land_ones by lia. by apply Z.mod_pos_bound.
Qed.

Lemma hash_chain_frame m m' p l :
  chain m p l -> (forall x, x ∈ addr <$> l -> m' !! x = m !! x) -> chain m' p l.
Proof.
  revert p. induction l as [|[[a k] v] l IH]; simpl; intros p; [done|].
  intros (-> & nx & Ha & Hc) Hf. split; [done|]. exists nx. split; [rewrite Hf; [done|set_solver]|].
  apply IH; [done|]. intros; apply Hf; set_solver.
Qed.

Lemma chain_dom m p l x : chain m p l -> x ∈ addr <$> l -> is_Some (m !! x).
Proof.
  revert p. induction l as [|[[a k] v] l IH]; simpl; intros p; [set_solver|].
  intros (-> & nx & Ha & Hc) [->|Hx]%elem_of_cons; [by eexists|by eapply IH].
Qed.

Lemma chains_frame m m' hs B :
  Forall2 (chain m) hs B -> (forall x, x ∈ all_addrs B -> m' !! x = m !! x) -> Forall2 (chain m') hs B.
Proof.
  unfold all_addrs. induction 1 as [|p l hs B Hc HF IH]; intros Hf; [constructor|]. simpl in Hf. rewrite fmap_app in Hf.
  constructor; [eapply hash_chain_frame; [done|]|apply IH]; set_solver.
Qed.

Lemma chains_dom m hs B x : Forall2 (chain m) hs B -> x ∈ all_addrs B -> is_Some (m !! x).
Proof.
  unfold all_addrs. induction 1 as [|p l hs B Hc HF IH]; simpl; [set_solver|]. rewrite fmap_app, elem_of_app.
  intros [Hx|Hx]; [by eapply chain_dom|by apply IH].
Qed.

Lemma hash_rep_dom m ts arr B x : rep m ts arr B -> x ∈ ts :: arr :: all_addrs B -> is_Some (m !! x).
Proof.
  intros [Ht (hs & Ha & HF) _ _ _]. rewrite !elem_of_cons. intros [->|[->|Hx]]; [by eexists|by eexists|].
  by eapply chains_dom.
Qed.

(** The bucket of a key, taken out of the table. *)
Record focus (m : heap) (ts arr : nat) (k : Z) (B1 : list (list node)) (l : list node) (B2 : list (list node))
    (h1 : list (option nat)) (p : option nat) (h2 : list (option nat)) : Prop := {
  fo_arr : m !! arr = Some (OArray (h1 ++ p :: h2));
  fo_slot : slot (length (B1 ++ l :: B2)) k = length B1;
  fo_len : length h1 = length B1;
  fo_1 : Forall2 (chain m) h1 B1;
  fo_chain : chain m p l;
  fo_2 : Forall2 (chain m) h2 B2
}.

Lemma rep_focus m ts arr B k :
  rep m ts arr B -> exists B1 l B2 h1 p h2, B = B1 ++ l :: B2 /\ focus m ts arr k B1 l B2 h1 p h2.
Proof.
  intros [Ht (hs & Ha & HF) (j & Hj & Hn) Hh Hnd].
  pose proof (slot_lt (length B) j k Hj Hn) as Hs.
  destruct (lookup_lt_is_Some_2 B (slot (length B) k)) as [l Hl]; [unfold slot; lia|].
  pose proof (take_drop_middle _ _ _ Hl) as HB. rewrite <-HB in HF.
  apply Forall2_app_inv_r in HF as (h1 & h2' & HF1 & HF2 & ->).
  apply Forall2_cons_inv_r in HF2 as (p & h2 & Hc & HF2 & ->).
  exists (take (slot (length B) k) B), l, (drop (S (slot (length B) k)) B), h1, p, h2. split; [by rewrite HB|].
  constructor; try done.
  - rewrite HB, length_take. unfold slot. lia.
  - by apply Forall2_length in HF1.
Qed.

Lemma all_addrs_focus B1 l B2 : all_addrs (B1 ++ l :: B2) ≡ₚ (addr <$> l) ++ all_addrs (B1 ++ B2).
Proof. unfold all_addrs. rewrite !concat_app, !fmap_app. simpl. rewrite fmap_app. solve_Permutation. Qed.

(** Putting a changed bucket back. *)
Lemma rep_refocus m m' ts arr k B1 l B2 h1 p h2 l' p' :
  rep m ts arr (B1 ++ l :: B2) -> focus m ts arr k B1 l B2 h1 p h2 ->
  m' !! ts = m !! ts -> m' !! arr = Some (OArray (h1 ++ p' :: h2)) -> chain m' p' l' ->
  (forall x, x ∈ all_addrs (B1 ++ B2) -> m' !! x = m !! x) ->
  NoDup (ts :: arr :: (addr <$> l') ++ all_addrs (B1 ++ B2)) ->
  (forall n, n ∈ l' -> n ∈ l \/ nkey n = k) ->
  rep m' ts arr (B1 ++ l' :: B2).
Proof.
  intros [Ht Hh (j & Hj & Hn) Hhash Hnd] [Ha Hs Hlen HF1 Hc HF2] Hts Harr Hc' Hf Hnd' Hkeys.
  assert (Hlen' : length (B1 ++ l' :: B2) = length (B1 ++ l :: B2)) by (rewrite !length_app; done).
  assert (Hf' : forall B0, B0 = B1 \/ B0 = B2 -> forall x, x ∈ all_addrs B0 -> m' !! x = m !! x).
  { intros B0 HB x Hx. apply Hf. unfold all_addrs in *. rewrite concat_app, fmap_app. set_solver. }
  constructor.
  - by rewrite Hts, Hlen'.
  - exists (h1 ++ p' :: h2). split; [done|]. apply Forall2_app; [|constructor; [done|]];
      eapply chains_frame; try done; apply Hf'; tauto.
  - exists j. by rewrite Hlen'.
  - intros i l0 n Hl0 Hin. rewrite Hlen'. destruct (decide (i = length B1)) as [->|Hne].
    + rewrite list_lookup_middle in Hl0 by done. injection Hl0 as <-.
      destruct (Hkeys n Hin) as [Hin' | ->]; [|done]. eapply Hhash; [by rewrite list_lookup_middle|done].
    + eapply Hhash; [|done]. rewrite <-Hl0.
      destruct (decide (i < length B1)%nat); [by rewrite !lookup_app_l|].
      rewrite !lookup_app_r by lia. destruct (i - length B1)%nat eqn:E; [lia|done].
  - rewrite all_addrs_focus. done.
Qed.

(** How the values change with the bucket of [k]. *)
Lemma values_focus_eq k B1 l l' B2 :
  slot (length (B1 ++ l :: B2)) k = length B1 -> values (B1 ++ l' :: B2) k = vals k l'.
Proof.
  intros Hs. unfold values. replace (length (B1 ++ l' :: B2)) with (length (B1 ++ l :: B2)) by (by rewrite !length_app).
  rewrite Hs. by rewrite list_lookup_middle.
Qed.

Lemma values_focus_ne B1 l l' B2 k' :
  vals k' l' = vals k' l -> values (B1 ++ l' :: B2) k' = values (B1 ++ l :: B2) k'.
Proof.
  intros Hv. unfold values. rewrite !length_app. simpl. set (i := slot _ k').
  destruct (decide (i < length B1)%nat); [by rewrite !lookup_app_l|].
  rewrite !lookup_app_r by lia. destruct (i - length B1)%nat; simpl; done.
Qed.

(** *** Lookup and insertion *)

Lemma vals_cons k a k' v l : vals k ((a, k', v) :: l) = (if k' =? k then [v] else []) ++ vals k l.
Proof.
  unfold vals. rewrite filter_cons. unfold nkey at 1. simpl.
  destruct (Z.eqb_spec k' k); [by rewrite decide_True|by rewrite decide_False].
Qed.

Lemma lookup_from_spec m p l k fuel :
  chain m p l -> (length l <= fuel)%nat ->
  wp (lookup_from fuel p k) (fun v m' => m' = m /\ v = default 0 (head (vals k l))) m.
Proof.
  revert p fuel. induction l as [|[[a k'] v] l IH]; intros p fuel Hc Hf; simpl in *.
  - rewrite Hc. destruct fuel; simpl; wp_steps; done.
  - destruct Hc as (-> & nx & Ha & Hc). destruct fuel as [|fuel]; [lia|]. simpl. unfold ld_entry. heap_steps; [done|].
    rewrite vals_cons. simpl. destruct (k' =? k); simpl.
    + by wp_steps.
    + apply IH; [done|lia].
Qed.

(** The loops have enough fuel. *)
Lemma chain_fuel m p l : chain m p l -> NoDup (addr <$> l) -> (length l <= size m)%nat.
Proof.
  intros Hc Hnd. rewrite <-(length_fmap addr l). apply nodup_length_size; [done|]. intros a. by eapply chain_dom.
Qed.

Lemma focus_facts m ts arr k B1 l B2 h1 p h2 :
  rep m ts arr (B1 ++ l :: B2) -> focus m ts arr k B1 l B2 h1 p h2 ->
  NoDup (addr <$> l) /\ 0 <= Z.land (hash_hash k) (u32 (Z.of_nat (length (B1 ++ l :: B2)) - 1)) /\
  Z.to_nat (Z.land (hash_hash k) (u32 (Z.of_nat (length (B1 ++ l :: B2)) - 1))) = length h1 /\
  NoDup (ts :: arr :: (addr <$> l) ++ all_addrs (B1 ++ B2)).
Proof.
  intros [_ _ (j & Hj & Hn) _ Hnd] [_ Hs Hlen _ _ _]. rewrite all_addrs_focus in Hnd.
  pose proof (slot_lt _ j k Hj Hn). unfold slot in Hs. split_and!; try (lia || done).
  apply NoDup_cons in Hnd as [_ Hnd]. apply NoDup_cons in Hnd as [_ Hnd]. by apply NoDup_app in Hnd as [? _].
Qed.

Lemma wp_ld_head m ts arr k B1 l B2 h1 p h2 (Q : option nat -> heap -> Prop) :
  rep m ts arr (B1 ++ l :: B2) -> focus m ts arr k B1 l B2 h1 p h2 -> Q p m ->
  wp (ld_array (Some arr) (Z.land (hash_hash k) (u32 (Z.of_nat (length (B1 ++ l :: B2)) - 1)))) Q m.
Proof.
  intros Hr Hfo HQ. destruct (focus_facts _ _ _ _ _ _ _ _ _ _ Hr Hfo) as (_ & Hs & Hi & _).
  unfold ld_array. destruct Hfo. heap_steps; [done|]. eapply wp_index; [done| |done].
  rewrite Hi. by apply list_lookup_middle.
Qed.

Lemma hash_lookup_spec m ts arr B k :
  rep m ts arr B ->
  wp (hash_lookup (Some ts) k) (fun v m' => m' = m /\ v = default 0 (head (values B k))) m.
Proof.
  intros Hr. destruct (rep_focus _ _ _ _ k Hr) as (B1 & l & B2 & h1 & p & h2 & -> & Hfo).
  destruct (focus_facts _ _ _ _ _ _ _ _ _ _ Hr Hfo) as (Hnd & _ & _ & _).
  pose proof Hr as [Ht _ _ _ _]. unfold hash_lookup, ld_table. heap_steps; [done|]. unfold bucket_of. simpl tsize.
  eapply wp_ld_head; [done|done|]. heap_steps. unfold id.
  destruct Hfo. erewrite values_focus_eq by done. apply lookup_from_spec; [done|]. by eapply chain_fuel.
Qed.

Lemma hash_insert_spec m ts arr B k v :
  rep m ts arr B ->
  wp (hash_insert (Some ts) k v) (fun r m' => (r = -1 /\ m' = m) \/
    (r = 0 /\ exists a B', m !! a = None /\ rep m' ts arr B' /\
      all_addrs B' ≡ₚ a :: all_addrs B /\ same_outside m m' [a; arr] /\
      values B' k = v :: values B k /\ forall k', k' <> k -> values B' k' = values B k')) m.
Proof.
  intros Hr. destruct (rep_focus _ _ _ _ k Hr) as (B1 & l & B2 & h1 & p & h2 & -> & Hfo).
  destruct (focus_facts _ _ _ _ _ _ _ _ _ _ Hr Hfo) as (Hnd & Hs & Hi & Hnda).
  pose proof Hr as [Ht _ _ _ Hndr]. pose proof Hfo as [Ha Hsl Hlen HF1 Hc HF2].
  unfold hash_insert, ld_table. heap_steps; [done|]. unfold bucket_of. simpl tsize. simpl table.
  apply wp_malloc; [intros _; rewrite bool_decide_eq_true_2 by done; wp_steps; by left|]. simpl. intros a Hfresh.
  assert (a <> ts) by congruence. assert (a <> arr) by congruence.
  assert (arr <> ts) by (intros ->; apply NoDup_cons in Hndr; set_solver).
  unfold ld_array, st_array. heap_steps; [done|]. eapply wp_index; [done|rewrite Hi; by apply list_lookup_middle|].
  heap_steps; [done|]. apply wp_index_set; [rewrite (length_app h1); simpl; lia|]. heap_steps. right. split; [done|].
  assert (Hal : a ∉ ts :: arr :: (addr <$> l) ++ all_addrs (B1 ++ B2)).
  { rewrite <-all_addrs_focus. intros Hin. destruct (hash_rep_dom _ _ _ _ _ Hr Hin). congruence. }
  rewrite Hi, insert_app_r_alt, Nat.sub_diag by lia. simpl.
  exists a, (B1 ++ ((a, k, v) :: l) :: B2). split_and!.
  - done.
  - assert (Hdom : forall x, x ∈ (addr <$> l) ++ all_addrs (B1 ++ B2) -> x <> a /\ x <> arr).
    { intros x Hx. split; intros ->; [set_solver|]. apply NoDup_cons in Hnda as [_ Hnda]. by apply NoDup_cons in Hnda as [? _]. }
    eapply rep_refocus; try done.
    + heap_lookup.
    + heap_lookup.
    + simpl. split; [done|]. exists p. split; [heap_lookup|]. eapply hash_chain_frame; [done|]. intros x Hx.
      destruct (Hdom x); [set_solver|]. heap_lookup.
    + intros x Hx. destruct (Hdom x); [set_solver|]. heap_lookup.
    + rewrite fmap_cons. simpl. rewrite (Permutation_swap a arr), (Permutation_swap a ts). by apply NoDup_cons.
    + intros n [->|Hn]%elem_of_cons; [by right|by left].
  - rewrite !all_addrs_focus. done.
  - intros x Hx. rewrite !not_elem_of_cons in Hx. destruct Hx as (? & ? & _). heap_lookup.
  - rewrite !(values_focus_eq k B1 l) by done. by rewrite vals_cons, Z.eqb_refl.
  - intros k' Hk'. apply values_focus_ne. rewrite vals_cons. by destruct (Z.eqb_spec k k'); [congruence|].
Qed.

(** *** Removal *)

(** The chain without the first entry of a key. *)
Fixpoint rm (k : Z) (l : list node) : list node :=
  match l with
  | [] => []
  | n :: l' => if nkey n =? k then l' else n :: rm k l'
  end.

Lemma vals_rm k l : vals k (rm k l) = tail (vals k l).
Proof.
  induction l as [|[[a k'] v] l IH]; [done|]. simpl. unfold nkey at 1. simpl. rewrite vals_cons.
  destruct (Z.eqb_spec k' k); [done|]. rewrite vals_cons. by destruct (Z.eqb_spec k' k).
Qed.

Lemma vals_rm_ne k k' l : k' <> k -> vals k' (rm k l) = vals k' l.
Proof.
  intros Hk. induction l as [|[[a k0] v] l IH]; [done|]. simpl. unfold nkey at 1. simpl. rewrite vals_cons.
  destruct (Z.eqb_spec k0 k).
  - by destruct (Z.eqb_spec k0 k'); [congruence|].
  - by rewrite vals_cons, IH.
Qed.

Lemma rm_sub k l : exists l0, l ≡ₚ l0 ++ rm k l.
Proof.
  induction l as [|n l [l0 IH]]; simpl; [by exists []|]. destruct (nkey n =? k); [by exists [n]|].
  exists l0. rewrite IH at 1. solve_Permutation.
Qed.

Lemma remove_from_spec m a k0 v0 l k fuel :
  chain m (Some a) ((a, k0, v0) :: l) -> NoDup (a :: (addr <$> l)) -> (length l < fuel)%nat ->
  wp (remove_from fuel (Some a) k) (fun _ m' =>
    chain m' (Some a) ((a, k0, v0) :: rm k l) /\ same_outside m m' (a :: (addr <$> l)) /\
    forall x, x ∈ addr <$> l -> x ∉ addr <$> rm k l -> m' !! x = None) m.
Proof.
  revert m a k0 v0 fuel. induction l as [|[[b k1] v1] l IH]; intros m a k0 v0 fuel (_ & nx & Ha & Hc) Hnd Hf;
    (destruct fuel as [|fuel]; simpl in Hf; [lia|]); simpl; unfold ld_entry; heap_steps; try done; simpl in *.
  - subst nx. destruct fuel; simpl; wp_steps; (split_and!; [done|by exists None|done|set_solver]).
  - destruct Hc as (-> & nx' & Hb & Hc). heap_steps; [done|]. simpl.
    change (list_fmap node nat addr l) with (addr <$> l) in *. change (addr (b, k1, v1)) with b in *.
    apply NoDup_cons in Hnd as [Hab Hnd]. assert (a <> b) by set_solver. apply NoDup_cons in Hnd as Hnd'.
    destruct Hnd' as [Hbl _]. unfold nkey. simpl. destruct (Z.eqb_spec k1 k) as [->|Hne].
    + heap_steps. split_and!; [done| | |].
      * exists nx'. split; [heap_lookup|]. eapply hash_chain_frame; [done|].
        intros x Hx. assert (x <> a) by set_solver. assert (x <> b) by set_solver. heap_lookup.
      * intros x Hx. rewrite !not_elem_of_cons in Hx. destruct Hx as (? & ? & _). heap_lookup.
      * intros x [->|Hx]%elem_of_cons Hnx; [apply lookup_delete_eq|done].
    + eapply wp_mono; [apply (IH m b k1 v1); [|done|lia]|]; [split; [done|]; by exists nx'|]. simpl.
      intros _ m' (Hc' & Hs & Hg). split_and!; [done| | |].
      * exists (Some b). split; [rewrite Hs; [done|]; done|done].
      * intros x Hx. apply Hs. set_solver.
      * intros x [->|Hx]%elem_of_cons Hnx; [set_solver|]. apply Hg; set_solver.
Qed.

(** The table after the first entry of [k] has left its bucket. *)
Lemma remove_post m m' ts arr k B1 l B2 h1 p h2 p' :
  rep m ts arr (B1 ++ l :: B2) -> focus m ts arr k B1 l B2 h1 p h2 ->
  m' !! ts = m !! ts -> m' !! arr = Some (OArray (h1 ++ p' :: h2)) -> chain m' p' (rm k l) ->
  same_outside m m' (arr :: (addr <$> l)) ->
  (forall x, x ∈ addr <$> l -> x ∉ addr <$> rm k l -> m' !! x = None) ->
  exists B', rep m' ts arr B' /\ same_outside m m' (arr :: all_addrs (B1 ++ l :: B2)) /\
    (exists G, all_addrs (B1 ++ l :: B2) ≡ₚ G ++ all_addrs B' /\ forall x, x ∈ G -> m' !! x = None) /\
    values B' k = tail (values (B1 ++ l :: B2) k) /\
    forall k', k' <> k -> values B' k' = values (B1 ++ l :: B2) k'.
Proof.
  intros Hr Hfo Hts Harr Hc' Hso Hg.
  destruct (focus_facts _ _ _ _ _ _ _ _ _ _ Hr Hfo) as (Hnd & _ & _ & Hnda). destruct (rm_sub k l) as [l0 Hl0].
  assert (Hpl : addr <$> l ≡ₚ (addr <$> l0) ++ (addr <$> rm k l)) by (by rewrite Hl0, fmap_app at 1).
  apply NoDup_cons in Hnda as [Hts' Hnda]. apply NoDup_cons in Hnda as [Harr' Hnda].
  exists (B1 ++ rm k l :: B2). split_and!.
  - eapply rep_refocus; try done.
    + intros x Hx. apply Hso. apply NoDup_app in Hnda as (_ & Hd & _). apply not_elem_of_cons. split.
      * intros ->. apply Harr', elem_of_app. by right.
      * intros Hxl. by apply (Hd x).
    + rewrite Hpl, <-app_assoc in Hnda. apply NoDup_app in Hnda as (_ & _ & Hnda).
      rewrite Hpl in Hts', Harr'. rewrite !elem_of_app, !not_elem_of_cons in *. rewrite !NoDup_cons.
      rewrite elem_of_cons, !elem_of_app in *. tauto.
    + intros n Hn. left. rewrite Hl0. apply elem_of_app. by right.
  - intros x Hx. apply Hso. rewrite all_addrs_focus in Hx. rewrite not_elem_of_cons, elem_of_app in *. tauto.
  - exists (addr <$> l0). split; [by rewrite !all_addrs_focus, Hpl, <-app_assoc|]. intros x Hx.
    rewrite Hpl in Hnd. apply NoDup_app in Hnd as (_ & Hd & _). apply Hg; [|by apply Hd].
    rewrite Hpl. apply elem_of_app. by left.
  - destruct Hfo. rewrite !(values_focus_eq k B1 l) by done. apply vals_rm.
  - intros k' Hk'. apply values_focus_ne. by apply vals_rm_ne.
Qed.

Lemma hash_remove_spec m ts arr B k :
  rep m ts arr B ->
  wp (hash_remove (Some ts) k) (fun _ m' => exists B', rep m' ts arr B' /\
      same_outside m m' (arr :: all_addrs B) /\ (exists G, all_addrs B ≡ₚ G ++ all_addrs B' /\ forall x, x ∈ G -> m' !! x = None) /\
      values B' k = tail (values B k) /\ forall k', k' <> k -> values B' k' = values B k') m.
Proof.
  intros Hr. destruct (rep_focus _ _ _ _ k Hr) as (B1 & l & B2 & h1 & p & h2 & -> & Hfo).
  destruct (focus_facts _ _ _ _ _ _ _ _ _ _ Hr Hfo) as (Hnd & Hs & Hi & Hnda).
  pose proof Hr as [Ht _ _ _ Hndr]. pose proof Hfo as [Ha Hsl Hlen HF1 Hc HF2].
  pose proof (fun m' p' => remove_post m m' ts arr k B1 l B2 h1 p h2 p' Hr Hfo) as Hpost.
  unfold hash_remove, ld_table. heap_steps; [done|]. unfold bucket_of. simpl tsize. simpl table.
  eapply wp_ld_head; [done|done|]. heap_steps. unfold id.
  pose proof (chain_fuel _ _ _ Hc Hnd) as Hfuel.
  destruct l as [|[[a k0] v0] l].
  - simpl in Hc. rewrite Hc. destruct (size m); simpl; wp_steps; apply (Hpost m None); try done; by rewrite ?Ha, ?Hc.
  - pose proof Hc as (-> & nx & Hea & Hc'). unfold ld_entry. heap_steps; [done|]. simpl.
    assert (Hao : a <> arr /\ a <> ts) by (rewrite !NoDup_cons in Hnda; set_solver).
    destruct (Z.eqb_spec k0 k) as [->|Hne].
    + assert (arr <> ts) by (rewrite !NoDup_cons in Hnda; set_solver). destruct Hao as [Hao1 Hao2].
      unfold st_array. heap_steps; [done|]. apply wp_index_set; [rewrite (length_app h1); simpl; lia|]. heap_steps.
      rewrite Hi, insert_app_r_alt, Nat.sub_diag by lia. simpl.
      assert (Hrm : rm k ((a, k, v0) :: l) = l) by (simpl; unfold nkey; simpl; by rewrite Z.eqb_refl).
      apply NoDup_cons in Hnd as Hnd'. destruct Hnd' as [Hal _]. change (addr (a, k, v0)) with a in *.
      apply (Hpost _ nx); [heap_lookup|heap_lookup| | |].
      * rewrite Hrm. eapply hash_chain_frame; [done|]. intros x Hx. assert (x <> a) by (intros ->; done).
        assert (x <> arr) by (intros ->; rewrite !NoDup_cons in Hnda; set_solver). heap_lookup.
      * intros x Hx. rewrite fmap_cons, !not_elem_of_cons in Hx. destruct Hx as (? & ? & _).
        change (addr (a, k, v0)) with a in *. heap_lookup.
      * intros x. rewrite Hrm, fmap_cons. intros [->|Hx]%elem_of_cons Hnx; [|done].
        change (addr (a, k, v0)) with a in *. rewrite lookup_insert_ne by done. apply lookup_delete_eq.
    + eapply wp_mono; [apply remove_from_spec; [done|done|simpl in Hfuel; lia]|]. simpl.
      intros _ m' (Hc2 & Hso & Hg). apply (Hpost m' (Some a)).
      * apply Hso. rewrite NoDup_cons in Hnda. set_solver.
      * rewrite Hso; [done|]. rewrite !NoDup_cons in Hnda. set_solver.
      * simpl. unfold nkey. simpl. destruct (Z.eqb_spec k0 k); [done|]. done.
      * intros x Hx. apply Hso. set_solver.
      * intros x. simpl. unfold nkey. simpl. destruct (Z.eqb_spec k0 k); [done|]. intros [->|Hx]%elem_of_cons Hnx; [set_solver|].
        apply Hg; set_solver.
Qed.

(** *** Creation and release *)

Lemma free_chain_spec m p l fuel :
  chain m p l -> NoDup (addr <$> l) -> (length l <= fuel)%nat ->
  wp (free_chain fuel p) (fun _ m' => (forall x, x ∈ addr <$> l -> m' !! x = None) /\ same_outside m m' (addr <$> l)) m.
Proof.
  revert m p fuel. induction l as [|[[a k] v] l IH]; intros m p fuel Hc Hnd Hf.
  - simpl in Hc. subst p. destruct fuel; simpl; wp_steps; (split; [set_solver|done]).
  - destruct Hc as (-> & nx & Ha & Hc). rewrite fmap_cons in *. change (addr (a, k, v)) with a in *.
    apply NoDup_cons in Hnd as [Hal Hnd]. destruct fuel as [|fuel]; simpl in Hf; [lia|]. simpl.
    unfold ld_entry. heap_steps; [done|]. heap_steps. simpl.
    eapply wp_mono; [apply (IH (delete a m) nx); [|done|lia]|].
    + eapply hash_chain_frame; [done|]. intros x Hx. apply lookup_delete_ne. intros ->; done.
    + simpl. intros _ m' [Hg Hs]. split.
      * intros x [->|Hx]%elem_of_cons; [|by apply Hg]. rewrite Hs by done. apply lookup_delete_eq.
      * intros x [? ?]%not_elem_of_cons. rewrite Hs by done. by apply lookup_delete_ne.
Qed.

Lemma free_buckets_spec m arr i B h0 hs :
  m !! arr = Some (OArray (h0 ++ hs)) -> length h0 = i -> Forall2 (chain m) hs B ->
  NoDup (arr :: all_addrs B) ->
  wp (free_buckets (length B) (Some arr) (Z.of_nat i)) (fun _ m' =>
    (forall x, x ∈ all_addrs B -> m' !! x = None) /\ same_outside m m' (all_addrs B)) m.
Proof.
  intros Ha Hlen HF. revert m i h0 Ha Hlen HF. revert hs. induction B as [|l B IH]; intros hs m i h0 Ha Hlen HF Hnd.
  - simpl. wp_steps. split; [set_solver|done].
  - apply Forall2_cons_inv_r in HF as (p & hs' & Hc & HF & ->).
    assert (Hal : all_addrs (l :: B) = (addr <$> l) ++ all_addrs B) by (unfold all_addrs; simpl; apply fmap_app).
    rewrite Hal in *. apply NoDup_cons in Hnd as [Harr Hnd]. apply NoDup_app in Hnd as (Hndl & Hd & HndB).
    rewrite not_elem_of_app in Harr. destruct Harr as [Harr1 Harr2].
    simpl. unfold ld_array. heap_steps; [done|]. eapply wp_index; [lia|rewrite Nat2Z.id; by apply list_lookup_middle|].
    heap_steps. unfold id. eapply wp_mono; [apply free_chain_spec; [done|done|by eapply chain_fuel]|].
    simpl. intros _ m1 [Hg Hs].
    replace (Z.of_nat i + 1) with (Z.of_nat (S i)) by lia.
    eapply wp_mono; [apply (IH hs' m1 (S i) (h0 ++ [p]))|].
    + rewrite Hs by done. by rewrite <-app_assoc.
    + rewrite length_app. simpl. lia.
    + eapply chains_frame; [done|]. intros x Hx. apply Hs. intros Hxl. by apply (Hd x).
    + by apply NoDup_cons.
    + simpl. intros _ m2 [Hg2 Hs2]. split.
      * intros x Hx. apply elem_of_app in Hx as [Hx|Hx]; [|by apply Hg2].
        rewrite Hs2 by (by apply Hd). by apply Hg.
      * intros x Hx. rewrite not_elem_of_app in Hx. destruct Hx. rewrite Hs2 by done. by apply Hs.
Qed.

Lemma hash_free_spec m ts arr B :
  rep m ts arr B ->
  wp (hash_free (Some ts)) (fun _ m' =>
    (forall x, x ∈ ts :: arr :: all_addrs B -> m' !! x = None) /\ same_outside m m' (ts :: arr :: all_addrs B)) m.
Proof.
  intros [Ht (hs & Ha & HF) _ _ Hnd]. unfold hash_free, ld_table. heap_steps; [done|]. simpl.
  apply NoDup_cons in Hnd as [Hts Hnd]. apply NoDup_cons in Hnd as Hnd'. destruct Hnd' as [Harr _].
  rewrite not_elem_of_cons in Hts. destruct Hts as [Htsa Hts]. rewrite Nat2Z.id.
  eapply wp_mono; [by apply (free_buckets_spec m arr 0 B [] hs)|]. simpl. intros _ m1 [Hg Hs].
  assert (m1 !! arr = Some (OArray hs)) by (by rewrite Hs).
  assert (m1 !! ts = Some (OTable (Table (Some arr) (Z.of_nat (length B)) None))) by (by rewrite Hs).
  heap_steps. split.
  - intros x Hx. rewrite !elem_of_cons in Hx. destruct Hx as [->|[->|Hx]].
    + apply lookup_delete_eq.
    + rewrite lookup_delete_ne by done. apply lookup_delete_eq.
    + rewrite !lookup_delete_ne by (intros ->; done). by apply Hg.
  - intros x Hx. rewrite !not_elem_of_cons in Hx. destruct Hx as (? & ? & ?).
    rewrite !lookup_delete_ne by done. by apply Hs.
Qed.

Lemma clear_from_spec m arr i rest :
  m !! arr = Some (OArray (replicate i None ++ rest)) ->
  wp (clear_from (length rest) (Some arr) (Z.of_nat i)) (fun _ m' =>
    m' !! arr = Some (OArray (replicate (i + length rest) None)) /\ same_outside m m' [arr]) m.
Proof.
  revert m i. induction rest as [|p rest IH]; intros m i Ha.
  - simpl. wp_steps. by rewrite Nat.add_0_r, Ha, app_nil_r.
  - simpl. unfold st_array. heap_steps; [done|]. apply wp_index_set.
    { rewrite length_app, length_replicate. simpl. lia. }
    heap_steps. rewrite Nat2Z.id, insert_app_r_alt, length_replicate, Nat.sub_diag by (rewrite length_replicate; lia).
    replace (Z.of_nat i + 1) with (Z.of_nat (S i)) by lia. simpl.
    eapply wp_mono; [apply IH|].
    + rewrite lookup_insert_eq, replicate_S_end, <-app_assoc. done.
    + simpl. intros _ m' [Hm Hs]. split; [by rewrite Hm, Nat.add_succ_r|].
      intros x Hx. rewrite Hs by done. rewrite lookup_insert_ne; [done|]. intros ->. set_solver.
Qed.

Lemma concat_replicate_nil {A} n : concat (replicate n (@nil A)) = [].
Proof. by induction n. Qed.

Lemma empty_rep m ts arr n j :
  m !! ts = Some (OTable (Table (Some arr) (Z.of_nat n) None)) -> m !! arr = Some (OArray (replicate n None)) ->
  0 <= j < 32 -> Z.of_nat n = 2 ^ j -> rep m ts arr (replicate n []).
Proof.
  intros Ht Ha Hj Hn. constructor; rewrite ?length_replicate.
  - done.
  - exists (replicate n None). split; [done|]. apply Forall2_replicate. done.
  - by exists j.
  - intros i l x Hl Hx. apply lookup_replicate in Hl as [-> _]. by apply not_elem_of_nil in Hx.
  - unfold all_addrs. rewrite concat_replicate_nil. simpl. apply NoDup_cons. split; [|apply NoDup_singleton].
    intros ->%list_elem_of_singleton. congruence.
Qed.

Lemma hash_init_spec junk m j :
  0 <= j < 30 -> is_Some (malloc_at m) ->
  wp (hash_init junk (2 ^ j)) (fun r m' => match r with
    | None => exists t, m !! t = None /\ same_outside m m' [t]
    | Some ts => exists arr, rep m' ts arr (replicate (Z.to_nat (2 ^ j)) []) /\
        m !! ts = None /\ m !! arr = None /\ same_outside m m' [ts; arr]
    end) m.
Proof.
  intros Hj Hok. assert (Hp : 0 < 2 ^ j < 2 ^ 30) by (split; [apply Z.pow_pos_nonneg|apply Z.pow_lt_mono_r]; lia).
  assert (2 ^ 30 * 4 = WORD_MOD) by done.
  unfold hash_init. wp_steps.
  { apply Z.eqb_eq. rewrite u32_word by (unfold is_word; lia).
    replace (2 ^ j - 1) with (Z.ones j) by (rewrite Z.ones_equiv; lia). rewrite Z.land_ones by lia.
    rewrite Z.mod_same; lia. }
  apply wp_malloc_ok; [done|]. simpl. intros ts Hts. heap_steps.
  apply wp_malloc; simpl.
  - intros _. heap_steps. exists ts. split; [done|]. intros x Hx%not_elem_of_cons. destruct Hx. heap_lookup.
  - intros arr Harr. assert (arr <> ts) by (intros ->; by rewrite lookup_insert_eq in Harr).
    rewrite !lookup_insert_ne in Harr by done. heap_steps.
    rewrite (u32_word (2 ^ j * 4)), Z.div_mul by (unfold is_word; lia).
    set (n := Z.to_nat (2 ^ j)). set (js := junk <$> seq 0 n).
    assert (Hn : n = length js) by (unfold js; by rewrite length_fmap, length_seq).
    rewrite Hn at 1. change 0 with (Z.of_nat 0).
    eapply wp_mono; [apply (clear_from_spec _ arr 0 js); apply lookup_insert_eq|]. simpl. intros _ m1 [Hm1 Hs1].
    rewrite <-Hn in Hm1. heap_steps.
    assert (Ht1 : is_Some (m1 !! ts)) by (rewrite Hs1 by (by apply not_elem_of_cons; split; [|apply not_elem_of_nil]);
      eexists; heap_lookup).
    destruct Ht1 as [o Ho]. heap_steps. exists arr. split_and!; [|done|done|].
    + eapply (empty_rep _ _ _ _ j); [heap_lookup; unfold n; by rewrite Z2Nat.id by lia|heap_lookup|lia|unfold n; lia].
    + intros x Hx. rewrite !not_elem_of_cons in Hx. destruct Hx as (? & ? & _).
      rewrite lookup_insert_ne by done. rewrite Hs1 by set_solver. heap_lookup.
Qed.

(** *** The operations as steps on an abstract table *)


Inductive op : Type :=
| Lookup (k : Z)
| Insert (k v : Z)
| Remove (k : Z).

Definition exec (ts : nat) (o : op) : M heap Z :=
  match o with
  | Lookup k => hash_lookup (Some ts) k
  | Insert k v => hash_insert (Some ts) k v
  | Remove k => do! hash_remove (Some ts) k in ret 0
  end.

Inductive a_step (f : amap) : op -> Z -> amap -> Prop :=
| step_lookup k : a_step f (Lookup k) (default 0 (head (f k))) f
| step_insert k v f' :
    f' k = v :: f k -> (forall k', k' <> k -> f' k' = f k') -> a_step f (Insert k v) 0 f'
| step_nomem k v : a_step f (Insert k v) (-1) f
| step_remove k f' :
    f' k = tail (f k) -> (forall k', k' <> k -> f' k' = f k') -> a_step f (Remove k) 0 f'.

End operations.
End Hash.

(** ** Properties *)

Section hash_properties.
Import Hash.
Context `{MM : !Malloc object}.

Lemma hash_exec_spec m ts arr B o :
  rep m ts arr B ->
  wp (exec ts o) (fun r m' => exists B', rep m' ts arr B' /\ a_step (values B) o r (values B') /\
    forall x, is_Some (m !! x) -> x ∉ arr :: all_addrs B -> m' !! x = m !! x) m.
Proof.
  intros Hr. destruct o as [k|k v|k]; simpl.
  - eapply wp_mono; [by eapply hash_lookup_spec|]. intros r m' [-> ->]. exists B. split; [done|]. split; [constructor|done].
  - eapply wp_mono; [by eapply hash_insert_spec|]. intros r m' [[-> ->]|(-> & a & B' & Ha & Hr' & _ & Hs & Hv & Hv')].
    + exists B. split; [done|]. split; [constructor|done].
    + exists B'. split_and!; [done|by constructor|]. intros x [o Ho] Hx. apply Hs.
      rewrite !not_elem_of_cons in *. split; [congruence|]. split; [tauto|apply not_elem_of_nil].
  - wp_step. eapply wp_mono; [by eapply hash_remove_spec|]. simpl. intros _ m' (B' & Hr' & Hs & _ & Hv & Hv'). wp_steps.
    exists B'. split_and!; [done|by constructor|]. intros x _ Hx. by apply Hs.
Qed.

(** C31: lookup, insertion and removal implement their steps on the abstract
    table, which maps a key to its values: a lookup finds the value inserted
    last, an insertion shadows, a removal uncovers; other keys, and the
    objects that are not the table's, are unaffected.  [hash_free] terminates
    and frees the table, its array and every entry exactly once, and nothing
    else.  [hash_init] with a power of two makes an empty table from fresh
    objects; when there is no memory for the array it returns NULL. *)
Theorem hash_operations_correct m ts arr B o :
  rep m ts arr B ->
  wp (exec ts o) (fun r m' => exists B', rep m' ts arr B' /\ a_step (values B) o r (values B') /\
    forall x, is_Some (m !! x) -> x ∉ arr :: all_addrs B -> m' !! x = m !! x) m /\
  wp (hash_free (Some ts)) (fun _ m' =>
    (forall x, x ∈ ts :: arr :: all_addrs B -> m' !! x = None) /\ same_outside m m' (ts :: arr :: all_addrs B)) m /\
  (forall junk j, 0 <= j < 30 -> is_Some (malloc_at m) ->
   wp (hash_init junk (2 ^ j)) (fun r m' => match r with
     | None => exists t, m !! t = None /\ same_outside m m' [t]
     | Some ts => exists arr, rep m' ts arr (replicate (Z.to_nat (2 ^ j)) []) /\
         m !! ts = None /\ m !! arr = None /\ same_outside m m' [ts; arr]
     end) m).
Proof.
  intros Hr. split_and!; [by apply hash_exec_spec|by apply hash_free_spec|]. intros junk j Hj Hm. by apply hash_init_spec.
Qed.

End hash_properties.

(** *** Witnesses: a table of four buckets *)

Module HashDemo.
Import Hash.
#[local] Instance pool : Malloc object := malloc_pool 16 (OArray []).
Definition junk (i : nat) : option nat := Some i.
Definition built : heap := Eval vm_compute in
  match (let! ts := hash_init junk 4 in
         let! _ := hash_insert ts 5 50 in
         let! _ := hash_insert ts 9 90 in hash_insert ts 5 51) ∅ with
  | Done _ m => m
  | Crash _ => ∅
  end.
Definition buckets : list (list node) := [[(4%nat, 5, 51); (2%nat, 5, 50)]; []; []; [(3%nat, 9, 90)]].

Lemma hash_built_rep : rep built 0 1 buckets.
Proof.
  constructor.
  - reflexivity.
  - eexists. split; [reflexivity|].
    repeat constructor; eexists; (split; [reflexivity|]); try reflexivity.
    split; [reflexivity|]. by eexists.
  - by exists 2.
  - intros i l n Hl Hn. unfold buckets in Hl.
    do 4 (destruct i as [|i]; [injection Hl as <-; rewrite ?elem_of_cons in Hn;
      repeat (destruct Hn as [->|Hn]; [reflexivity|]); by apply not_elem_of_nil in Hn|]). done.
  - apply (bool_decide_eq_true_1 _). reflexivity.
Qed.
End HashDemo.

Lemma hash_operations_correct_witness :
  wp (Hash.exec (MM := HashDemo.pool) 0%nat (Hash.Remove 5)) (fun r m' => exists B', Hash.rep m' 0 1 B' /\
    Hash.a_step (Hash.values HashDemo.buckets) (Hash.Remove 5) r (Hash.values B') /\
    forall x, is_Some (HashDemo.built !! x) -> x ∉ 1%nat :: Hash.all_addrs HashDemo.buckets ->
      m' !! x = HashDemo.built !! x) HashDemo.built.
Proof.
  exact (proj1 (hash_operations_correct (MM := HashDemo.pool) HashDemo.built 0%nat 1%nat HashDemo.buckets (Hash.Remove 5)
    HashDemo.hash_built_rep)).
Defined.
