(* ===== verification/BinaryTree.v ===== *)
(** * The [binary_tree] library ([libs/binary_tree])

    An unbalanced binary search tree of string keys.  The keys are compared
    with [strcmp]; the tree relies on it through the class [KeyCmp], an
    instance of which is given in the file that models the string functions. *)

From S2P Require Import Prelude Heap.
#[local] Open Scope Z_scope.

(** What the tree relies on of the comparison of keys. *)
Class KeyCmp (K : Type) := {
  cmp : K -> K -> Z;
  cmp_eq k1 k2 : cmp k1 k2 = 0 <-> k1 = k2;
  cmp_anti k1 k2 : cmp k1 k2 < 0 <-> 0 < cmp k2 k1;
  cmp_trans k1 k2 k3 : cmp k1 k2 < 0 -> cmp k2 k3 < 0 -> cmp k1 k3 < 0
}.

Module BinTree.

Section tree.
Context {K : Type} `{KC : !KeyCmp K}.

Record bin_tree_node : Type := BNode {
  left : option nat;
  right : option nat;
  nkey : K;
  ndata : Z
}.
Definition set_left v n := BNode v (right n) (nkey n) (ndata n).
Definition set_right v n := BNode (left n) v (nkey n) (ndata n).
Definition set_key v n := BNode (left n) (right n) v (ndata n).
Definition set_data v n := BNode (left n) (right n) (nkey n) v.

(** Objects: tree headers (their [root]) and nodes. *)
Inductive object : Type :=
| OTree (root : option nat)
| ONode (n : bin_tree_node).

Context `{MM : !Malloc object}.
Notation heap := (gmap nat object).

Definition tree_of (o : object) : option (option nat) := match o with OTree r => Some r | _ => None end.
Definition node_of (o : object) : option bin_tree_node := match o with ONode n => Some n | _ => None end.
Definition ld_root (t : option nat) : M heap (option nat) := let! o := load t in demand InvalidPointer (tree_of o).
Definition ld_node (p : option nat) : M heap bin_tree_node := let! o := load p in demand InvalidPointer (node_of o).
Definition st_root (t : option nat) (r : option nat) : M heap unit := do! ld_root t in store t (fun _ => OTree r).
Definition st_node (p : option nat) (f : bin_tree_node -> bin_tree_node) : M heap unit :=
  let! n := ld_node p in store p (fun _ => ONode (f n)).

Definition binary_tree_new : M heap (option nat) :=
  let! new_tree := malloc in
  if bool_decide (new_tree = None) then ret new_tree
  else
    do! store new_tree (fun _ => OTree None) in
    ret new_tree.

(** The loop of [find_node]; a path is no longer than the heap.  It yields
    the values of [last_root], [cmp] and [second_last_root]. *)
Fixpoint find_loop (fuel : nat) (root : option nat) (key : K) (c : Z)
    (second_last_root last_root : option nat) : M heap (option nat * Z * option nat) :=
  match root with
  | None => ret (last_root, c, second_last_root)
  | Some _ =>
      match fuel with
      | O => crash LoopBoundExceeded
      | S fuel' =>
          let second_last_root := last_root in
          let last_root := root in
          let! n := ld_node root in
          let c := cmp key (nkey n) in
          if c =? 0 then ret (last_root, c, second_last_root)
          else if c <? 0 then find_loop fuel' (left n) key c second_last_root last_root
          else find_loop fuel' (right n) key c second_last_root last_root
      end
  end.
Definition find_node (root : option nat) (key : K) : M heap (option nat * Z * option nat) :=
  let! h := gets id in
  find_loop (size h) root key 0 root root.

Fixpoint largest_loop (fuel : nat) (root last_root : option nat) : M heap (option nat * option nat) :=
  let! n := ld_node root in
  match right n with
  | None => ret (root, last_root)
  | Some _ =>
      match fuel with
      | O => crash LoopBoundExceeded
      | S fuel' => largest_loop fuel' (right n) root
      end
  end.
Definition largest_node (root : option nat) : M heap (option nat * option nat) :=
  let! h := gets id in
  largest_loop (size h) root None.

Definition binary_tree_insert (tree : option nat) (key : K) (data : Z) : M heap Z :=
  let! new_node := malloc in
  if bool_decide (new_node = None) then ret (-1)
  else
    do! store new_node (fun _ => ONode (BNode None None key data)) in
    let! root := ld_root tree in
    if bool_decide (root = None) then
      do! st_root tree new_node in ret 0
    else
      let! (closest, c, _) := find_node root key in
      if c =? 0 then
        do! free new_node in ret (-2)
      else if c <? 0 then
        do! st_node closest (set_left new_node) in ret 0
      else
        do! st_node closest (set_right new_node) in ret 0.

Definition binary_tree_lookup (tree : option nat) (key : K) : M heap Z :=
  let! root := ld_root tree in
  if bool_decide (root = None) then ret 0
  else
    let! (closest, c, _) := find_node root key in
    if c =? 0 then
      let! n := ld_node closest in ret (ndata n)
    else ret 0.

(** From "Ok, by here we only have at most one child" on. *)
Definition remove_node (tree dead_node parent : option nat) : M heap Z :=
  let! d := ld_node dead_node in
  let replacement_node :=
    if bool_decide (left d <> None) then left d
    else if bool_decide (right d <> None) then right d
    else None in
  let! root := ld_root tree in
  do! (if bool_decide (root = dead_node) then st_root tree replacement_node
       else
         let! p := ld_node parent in
         if bool_decide (left p = dead_node) then st_node parent (set_left replacement_node)
         else st_node parent (set_right replacement_node)) in
  do! free dead_node in
  ret 0.

Definition binary_tree_remove (tree : option nat) (key : K) : M heap Z :=
  let! root := ld_root tree in
  if bool_decide (root = None) then ret 0
  else
    let! (dead_node, c, parent) := find_node root key in
    if c =? 0 then
      let! d := ld_node dead_node in
      if bool_decide (left d <> None) && bool_decide (right d <> None) then
        let! (replacement_node, parent) := largest_node (left d) in
        let parent := if bool_decide (parent = None) then dead_node else parent in
        let! r := ld_node replacement_node in
        do! st_node dead_node (set_key (nkey r)) in
        do! st_node dead_node (set_data (ndata r)) in
        remove_node tree replacement_node parent
      else remove_node tree dead_node parent
    else ret (-1).

(** ** Specification *)

Inductive tree : Type :=
| Leaf
| Node (a : nat) (l : tree) (k : K) (d : Z) (r : tree).

Fixpoint elems (t : tree) : list (K * Z) :=
  match t with
  | Leaf => []
  | Node _ l k d r => elems l ++ (k, d) :: elems r
  end.
Fixpoint addrs (t : tree) : list nat :=
  match t with
  | Leaf => []
  | Node a l _ _ r => a :: addrs l ++ addrs r
  end.
Fixpoint shape (m : heap) (p : option nat) (t : tree) : Prop :=
  match t with
  | Leaf => p = None
  | Node a l k d r => exists lp rp, p = Some a /\ m !! a = Some (ONode (BNode lp rp k d)) /\
      shape m lp l /\ shape m rp r
  end.

(** A tree with a hole, the innermost node first. *)
Inductive frame : Type :=
| FL (a : nat) (k : K) (d : Z) (r : tree)
| FR (a : nat) (l : tree) (k : K) (d : Z).
Definition faddr (f : frame) : nat := match f with FL a _ _ _ | FR a _ _ _ => a end.
Definition fill (f : frame) (t : tree) : tree :=
  match f with FL a k d r => Node a t k d r | FR a l k d => Node a l k d t end.
Definition plug (c : list frame) (t : tree) : tree := foldl (fun t f => fill f t) t c.

Fixpoint cpre (c : list frame) : list (K * Z) :=
  match c with
  | [] => []
  | FL _ _ _ _ :: c' => cpre c'
  | FR _ l k d :: c' => cpre c' ++ elems l ++ [(k, d)]
  end.
Fixpoint cpost (c : list frame) : list (K * Z) :=
  match c with
  | [] => []
  | FL _ k d r :: c' => (k, d) :: elems r ++ cpost c'
  | FR _ _ _ _ :: c' => cpost c'
  end.
Fixpoint caddrs (c : list frame) : list nat :=
  match c with
  | [] => []
  | FL a _ _ r :: c' => a :: addrs r ++ caddrs c'
  | FR a l _ _ :: c' => a :: addrs l ++ caddrs c'
  end.
(** The tree at [root] with the hole's pointer being [q]. *)
Fixpoint cshape (m : heap) (root : option nat) (c : list frame) (q : option nat) : Prop :=
  match c with
  | [] => root = q
  | FL a k d r :: c' => exists rp, m !! a = Some (ONode (BNode q rp k d)) /\ shape m rp r /\ cshape m root c' (Some a)
  | FR a l k d :: c' => exists lp, m !! a = Some (ONode (BNode lp q k d)) /\ shape m lp l /\ cshape m root c' (Some a)
  end.

Lemma plug_elems c t : elems (plug c t) = cpre c ++ elems t ++ cpost c.
Proof.
  revert t. induction c as [|[a k d r|a l k d] c IH]; intros t; simpl; [by rewrite app_nil_r| |];
    rewrite IH; simpl; by rewrite <-!app_assoc.
Qed.

Lemma plug_addrs c t : addrs (plug c t) ≡ₚ caddrs c ++ addrs t.
Proof.
  revert t. induction c as [|[a k d r|a l k d] c IH]; intros t; simpl; [done| |]; rewrite IH; simpl; solve_Permutation.
Qed.

Lemma plug_shape m root c t : shape m root (plug c t) <-> exists q, shape m q t /\ cshape m root c q.
Proof.
  revert t. induction c as [|[a k d r|a l k d] c IH]; intros t; simpl.
  - split; [intros; by exists root|by intros (q & ? & ->)].
  - rewrite IH. simpl. split.
    + intros (q & (lp & rp & -> & ? & ? & ?) & ?). exists lp. split; [done|]. by exists rp.
    + intros (q & ? & rp & ? & ? & ?). exists (Some a). split; [|done]. by exists q, rp.
  - rewrite IH. simpl. split.
    + intros (q & (lp & rp & -> & ? & ? & ?) & ?). exists rp. split; [done|]. by exists lp.
    + intros (q & ? & lp & ? & ? & ?). exists (Some a). split; [|done]. by exists lp, q.
Qed.

Lemma shape_frame m m' p t : shape m p t -> (forall x, x ∈ addrs t -> m' !! x = m !! x) -> shape m' p t.
Proof.
  revert p. induction t as [|a l IHl k d r IHr]; intros p; simpl; [done|].
  intros (lp & rp & -> & Ha & Hl & Hr) Hf. exists lp, rp. split_and!; [done| | |].
  - rewrite Hf; [done|set_solver].
  - apply IHl; [done|]. intros; apply Hf; set_solver.
  - apply IHr; [done|]. intros; apply Hf; set_solver.
Qed.

Lemma cshape_frame m m' root c q :
  cshape m root c q -> (forall x, x ∈ caddrs c -> m' !! x = m !! x) -> cshape m' root c q.
Proof.
  revert q. induction c as [|[a k d r|a l k d] c IH]; intros q; simpl; [done| |];
    intros (p & Ha & Hs & Hc) Hf; exists p; (split; [rewrite Hf; [done|set_solver]|]);
    (split; [eapply shape_frame; [done|]; intros; apply Hf; set_solver|]);
    (apply IH; [done|]; intros; apply Hf; set_solver).
Qed.

Lemma shape_dom m p t x : shape m p t -> x ∈ addrs t -> is_Some (m !! x).
Proof.
  revert p. induction t as [|a l IHl k d r IHr]; intros p; simpl; [set_solver|].
  intros (lp & rp & -> & Ha & Hl & Hr). rewrite elem_of_cons, elem_of_app. intros [->|[Hx|Hx]]; [by eexists|by eapply IHl|by eapply IHr].
Qed.

(** *** Sorted association lists *)

Definition klt (e1 e2 : K * Z) : Prop := cmp e1.1 e2.1 < 0.
Definition sorted (L : list (K * Z)) : Prop := StronglySorted klt L.

Lemma sorted_middle L1 e L2 :
  sorted (L1 ++ e :: L2) <-> sorted (L1 ++ L2) /\ Forall (fun x => klt x e) L1 /\ Forall (klt e) L2.
Proof. apply StronglySorted_middle. Qed.

Lemma cmp_refl k : cmp k k = 0.
Proof. by apply cmp_eq. Qed.

(** The keys on either side of [key]. *)
Definition below (key : K) : K * Z -> Prop := fun e => 0 < cmp key e.1.
Definition above (key : K) : K * Z -> Prop := fun e => cmp key e.1 < 0.

Lemma above_trans key e L : cmp key e.1 < 0 -> Forall (klt e) L -> Forall (above key) L.
Proof. intros He HL. eapply Forall_impl; [exact HL|]. intros x Hx. by apply (cmp_trans key e.1). Qed.

Lemma below_trans key e L : 0 < cmp key e.1 -> Forall (fun x => klt x e) L -> Forall (below key) L.
Proof.
  intros He HL. eapply Forall_impl; [exact HL|]. intros x Hx. unfold below. apply cmp_anti.
  apply (cmp_trans x.1 e.1); [done|]. by apply cmp_anti.
Qed.

Lemma sorted_insert L1 L2 key d :
  sorted (L1 ++ L2) -> Forall (below key) L1 -> Forall (above key) L2 -> sorted (L1 ++ (key, d) :: L2).
Proof.
  intros Hs H1 H2. apply sorted_middle. split_and!; [done| |done].
  eapply Forall_impl; [exact H1|]. intros x Hx. by apply cmp_anti.
Qed.

Lemma below_above_not_in key L1 L2 d : Forall (below key) L1 -> Forall (above key) L2 -> (key, d) ∉ L1 ++ L2.
Proof.
  intros H1 H2 [Hin|Hin]%elem_of_app.
  - rewrite Forall_forall in H1. specialize (H1 _ Hin). unfold below in H1. simpl in H1. rewrite cmp_refl in H1. lia.
  - rewrite Forall_forall in H2. specialize (H2 _ Hin). unfold above in H2. simpl in H2. rewrite cmp_refl in H2. lia.
Qed.

(** *** The search *)

Definition ctop (root : option nat) (c : list frame) : option nat :=
  match c with [] => root | f :: _ => Some (faddr f) end.
Definition fsign (f : frame) (x : Z) : Prop := match f with FL _ _ _ _ => x < 0 | FR _ _ _ _ => 0 < x end.

(** Where the search of [key] in the tree [t0] at [root] ends: at the node
    with the key, or at the leaf where it belongs. *)
Definition found (m : heap) (root : option nat) (t0 : tree) (key : K) (closest : option nat) (x : Z)
    (parent : option nat) : Prop :=
  exists c a l d r, x = 0 /\ t0 = plug c (Node a l key d r) /\ closest = Some a /\ parent = ctop root c /\
    shape m (Some a) (Node a l key d r) /\ cshape m root c (Some a).
Definition missing (m : heap) (root : option nat) (t0 : tree) (key : K) (closest : option nat) (x : Z) : Prop :=
  exists f c, x <> 0 /\ fsign f x /\ t0 = plug (f :: c) Leaf /\ closest = Some (faddr f) /\
    cshape m root (f :: c) None /\ Forall (below key) (cpre (f :: c)) /\ Forall (above key) (cpost (f :: c)).

Lemma find_loop_spec m root key fuel : forall t c q x sl,
  shape m q t -> cshape m root c q -> (length (addrs t) <= fuel)%nat -> sorted (elems (plug c t)) ->
  Forall (below key) (cpre c) -> Forall (above key) (cpost c) ->
  match c with [] => t <> Leaf | f :: _ => fsign f x end ->
  wp (find_loop fuel q key x sl (ctop root c)) (fun '(closest, x', parent) m' => m' = m /\
    (found m root (plug c t) key closest x' parent \/ missing m root (plug c t) key closest x')) m.
Proof.
  induction fuel as [|fuel IH]; intros t c q x sl Ht Hc Hf Hs Hb Ha Hx; destruct t as [|a l k d r]; simpl in Hf; try lia.
  1,2: simpl in Ht; subst q; destruct c as [|f c]; [done|]; simpl; wp_steps; (split; [done|]); right;
       exists f, c; split_and!; try done; destruct f; simpl in *; lia.
  pose proof Ht as (lp & rp & -> & Hn & Hl & Hr). simpl. unfold ld_node. heap_steps; [done|]. simpl.
  rewrite plug_elems in Hs. simpl in Hs. rewrite <-app_assoc in Hs. simpl in Hs. rewrite app_assoc in Hs.
  pose proof Hs as (_ & H1 & H2)%sorted_middle. rewrite !Forall_app in H1, H2. rewrite length_app in Hf.
  destruct H1 as [H1 H1'], H2 as [H2 H2'].
  destruct (Z.eqb_spec (cmp key k) 0) as [E|E]; [|destruct (Z.ltb_spec (cmp key k) 0) as [E'|E']].
  - apply cmp_eq in E as <-. wp_steps. split; [done|]. left. exists c, a, l, d, r. rewrite cmp_refl. by split_and!.
  - apply (IH l (FL a k d r :: c)); simpl.
    + done.
    + by exists rp.
    + lia.
    + change (plug (FL a k d r :: c) l) with (plug c (Node a l k d r)). rewrite plug_elems. simpl.
      by rewrite <-app_assoc, app_assoc.
    + done.
    + constructor; [done|]. apply Forall_app. split; [|done]. by apply (above_trans key (k, d)).
    + done.
  - apply (IH r (FR a l k d :: c)); simpl.
    + done.
    + by exists lp.
    + lia.
    + change (plug (FR a l k d :: c) r) with (plug c (Node a l k d r)). rewrite plug_elems. simpl.
      by rewrite <-app_assoc, app_assoc.
    + apply Forall_app. split; [done|]. apply Forall_app. split; [|constructor; [unfold below; simpl; lia|done]].
      apply (below_trans key (k, d)); [simpl; lia|done].
    + done.
    + lia.
Qed.

(** *** The whole tree *)

(** The header at [ts] holds the search tree [t]. *)
Record rep (m : heap) (ts : nat) (t : tree) : Prop := {
  rep_root : exists root, m !! ts = Some (OTree root) /\ shape m root t;
  rep_nodup : NoDup (ts :: addrs t);
  rep_sorted : sorted (elems t)
}.

Definition same_outside (m m' : heap) (A : list nat) : Prop := forall x, x ∉ A -> m' !! x = m !! x.

Lemma tree_rep_dom m ts t x : rep m ts t -> x ∈ ts :: addrs t -> is_Some (m !! x).
Proof.
  intros [(root & Hts & Hsh) _ _] [->|Hx]%elem_of_cons; [by eexists|by eapply shape_dom].
Qed.

Lemma find_node_spec m ts t root key :
  rep m ts t -> m !! ts = Some (OTree root) -> root <> None ->
  wp (find_node root key) (fun '(closest, x, parent) m' => m' = m /\
    (found m root t key closest x parent \/ missing m root t key closest x)) m.
Proof.
  intros [(root' & Hts & Hsh) Hnd Hs] Hroot Hne. assert (root' = root) as -> by congruence.
  unfold find_node. wp_steps. apply (find_loop_spec m root key _ t []); try done.
  - apply NoDup_cons in Hnd as [_ Hnd]. apply nodup_length_size; [done|]. intros x. by eapply shape_dom.
  - intros ->. simpl in Hsh. done.
Qed.

(** Replacing the pointer in the hole of a context. *)
Definition fset (f : frame) (q : option nat) (n : bin_tree_node) : bin_tree_node :=
  match f with FL _ _ _ _ => set_left q n | FR _ _ _ _ => set_right q n end.

Lemma cshape_node m root f c q : cshape m root (f :: c) q -> exists n, m !! faddr f = Some (ONode n) /\
  match f with FL _ _ _ _ => left n = q | FR _ _ _ _ => right n = q end.
Proof. destruct f; simpl; intros (p & H & _); by eexists. Qed.

Lemma cshape_set m m' root f c q q' n :
  cshape m root (f :: c) q -> NoDup (caddrs (f :: c)) -> m !! faddr f = Some (ONode n) ->
  m' !! faddr f = Some (ONode (fset f q' n)) ->
  (forall x, x ∈ caddrs (f :: c) -> x <> faddr f -> m' !! x = m !! x) -> cshape m' root (f :: c) q'.
Proof.
  intros Hc Hnd Hn Hn' Hf. destruct f as [a k d r|a l k d]; simpl in *; destruct Hc as (p & Ha & Hs & Hc);
    simplify_eq; apply NoDup_cons in Hnd as [Ha' _]; rewrite not_elem_of_app in Ha'; destruct Ha' as [Ha1 Ha2];
    exists p; (split; [done|]); (split; [eapply shape_frame|eapply cshape_frame]); try done;
    intros x Hx; (apply Hf; [rewrite elem_of_cons, elem_of_app; tauto|congruence]).
Qed.

Lemma wp_st_node m a n f (Q : unit -> heap -> Prop) :
  m !! a = Some (ONode n) -> Q tt (<[a := ONode (f n)]> m) -> wp (st_node (Some a) f) Q m.
Proof. intros Hn HQ. unfold st_node, ld_node. heap_steps; [done|]. by heap_steps. Qed.
Lemma wp_st_root m a r0 r (Q : unit -> heap -> Prop) :
  m !! a = Some (OTree r0) -> Q tt (<[a := OTree r]> m) -> wp (st_root (Some a) r) Q m.
Proof. intros Hn HQ. unfold st_root, ld_root. heap_steps; [done|]. by heap_steps. Qed.
Lemma wp_ld_node m a n (Q : bin_tree_node -> heap -> Prop) :
  m !! a = Some (ONode n) -> Q n m -> wp (ld_node (Some a)) Q m.
Proof. intros Hn HQ. unfold ld_node. heap_steps; done. Qed.
Lemma wp_ld_root m a r (Q : option nat -> heap -> Prop) :
  m !! a = Some (OTree r) -> Q r m -> wp (ld_root (Some a)) Q m.
Proof. intros Hn HQ. unfold ld_root. heap_steps; done. Qed.

Lemma binary_tree_lookup_spec m ts t key :
  rep m ts t ->
  wp (binary_tree_lookup (Some ts) key) (fun r m' => m' = m /\
    ((key, r) ∈ elems t \/ r = 0 /\ forall d, (key, d) ∉ elems t)) m.
Proof.
  intros Hr. pose proof Hr as [(root & Hts & Hsh) _ _]. unfold binary_tree_lookup. wp_step.
  eapply wp_ld_root; [done|]. destruct root as [rt|]; simpl.
  - wp_step. eapply wp_mono; [eapply find_node_spec; done|]. simpl. intros [[closest x] parent] ? [-> [Hfo|Hmi]].
    + destruct Hfo as (c & a & l & d & r & -> & -> & -> & -> & (lp & rp & _ & Ha & _) & _). simpl. wp_step.
      eapply wp_ld_node; [done|]. wp_steps. split; [done|]. left. rewrite plug_elems. simpl. set_solver.
    + destruct Hmi as (f & c & Hx & _ & -> & -> & _ & Hb & Hab). destruct (Z.eqb_spec x 0); [done|]. wp_steps.
      split; [done|]. right. split; [done|]. intros d. rewrite plug_elems. simpl. by apply below_above_not_in.
  - wp_steps. split; [done|]. right. split; [done|]. intros d. destruct t; simpl in *; [set_solver|].
    by destruct Hsh as (? & ? & ? & _).
Qed.

(** Hanging a new node in the hole of a context. *)
Lemma rep_grow m ts f c a key data n root :
  rep m ts (plug (f :: c) Leaf) -> m !! ts = Some (OTree root) -> cshape m root (f :: c) None ->
  m !! a = Some (ONode (BNode None None key data)) -> a ∉ ts :: addrs (plug (f :: c) Leaf) ->
  m !! faddr f = Some (ONode n) -> Forall (below key) (cpre (f :: c)) -> Forall (above key) (cpost (f :: c)) ->
  rep (<[faddr f := ONode (fset f (Some a) n)]> m) ts (plug (f :: c) (Node a Leaf key data Leaf)).
Proof.
  intros [_ Hnd Hs] Hts Hc Ha Hfr Hn Hb Hab. rewrite plug_addrs in Hnd, Hfr. simpl addrs in Hnd, Hfr.
  rewrite app_nil_r in Hnd, Hfr. apply NoDup_cons in Hnd as [Hts' Hnd].
  assert (Hfa : faddr f ∈ caddrs (f :: c)) by (destruct f; simpl; set_solver).
  apply not_elem_of_cons in Hfr as [Hats Hac].
  constructor.
  - exists root. split; [rewrite lookup_insert_ne; [done|]; intros <-; done|]. apply plug_shape. exists (Some a). split.
    + exists None, None. split_and!; [done| |done|done]. rewrite lookup_insert_ne; [done|]. intros <-; done.
    + eapply cshape_set; [done|done|done|apply lookup_insert_eq|]. intros x _ Hx. by rewrite lookup_insert_ne.
  - rewrite plug_addrs. apply NoDup_cons. rewrite elem_of_app. split; [simpl; set_solver|].
    apply NoDup_app. split_and!; [done| |apply NoDup_singleton]. intros x Hx ->%list_elem_of_singleton. done.
  - rewrite plug_elems in *. simpl in *. by apply sorted_insert.
Qed.

Lemma binary_tree_insert_spec m ts t key data :
  rep m ts t ->
  wp (binary_tree_insert (Some ts) key data) (fun r m' =>
    (r = -1 /\ m' = m) \/ (r = -2 /\ m' = m /\ exists d, (key, d) ∈ elems t) \/
    (r = 0 /\ exists t' a L1 L2, rep m' ts t' /\ addrs t' ≡ₚ a :: addrs t /\ m !! a = None /\
      elems t = L1 ++ L2 /\ elems t' = L1 ++ (key, data) :: L2 /\ same_outside m m' (a :: ts :: addrs t))) m.
Proof.
  intros Hr. pose proof Hr as [(root & Hts & Hsh) Hnd Hs]. unfold binary_tree_insert. wp_step.
  apply wp_malloc; simpl; [intros _; wp_steps; by left|]. intros a Ha. heap_steps.
  assert (Hfr : a ∉ ts :: addrs t) by (intros Hin; destruct (tree_rep_dom _ _ _ _ Hr Hin); congruence).
  apply not_elem_of_cons in Hfr as Hfr'. destruct Hfr' as [Hats Hat].
  rewrite insert_insert_eq. set (m1 := <[a := _]> m).
  assert (Hm1 : forall x, x <> a -> m1 !! x = m !! x) by (intros x Hx; unfold m1; by rewrite lookup_insert_ne).
  assert (Ha1 : m1 !! a = Some (ONode (BNode None None key data))) by (unfold m1; by rewrite lookup_insert_eq).
  assert (Hts1 : m1 !! ts = Some (OTree root)) by (by rewrite Hm1).
  assert (Hr1 : rep m1 ts t).
  { constructor; [|done|done]. exists root. split; [done|]. eapply shape_frame; [done|]. intros x Hx. apply Hm1.
    intros ->. done. }
  eapply wp_ld_root; [done|]. destruct root as [rt|]; simpl.
  - wp_step. eapply wp_mono; [eapply find_node_spec; done|]. simpl. intros [[closest x] parent] ? [-> [Hfo|Hmi]].
    + destruct Hfo as (c & b & l & d & r & -> & -> & -> & -> & _ & _). simpl. heap_steps. right. left.
      split_and!; [done|unfold m1; by rewrite delete_insert_id|]. exists d. rewrite plug_elems. simpl. set_solver.
    + destruct Hmi as (f & c & Hx & Hsg & -> & -> & Hc & Hb & Hab). destruct (Z.eqb_spec x 0); [done|].
      destruct (cshape_node _ _ _ _ _ Hc) as (nd & Hnd1 & _).
      assert (Hgo : rep (<[faddr f := ONode (fset f (Some a) nd)]> m1) ts (plug (f :: c) (Node a Leaf key data Leaf)))
        by (by eapply rep_grow).
      assert (Hfa : faddr f <> ts /\ faddr f ∈ addrs (plug (f :: c) Leaf)).
      { rewrite plug_addrs in *. apply NoDup_cons in Hnd as [Hnd _]. destruct f; simpl in *; set_solver. }
      assert (Hso : same_outside m (<[faddr f := ONode (fset f (Some a) nd)]> m1) (a :: ts :: addrs (plug (f :: c) Leaf))).
      { intros y Hy. rewrite !not_elem_of_cons in Hy. destruct Hy as (Hy1 & Hy2 & Hy3).
        rewrite lookup_insert_ne by (intros <-; tauto). by apply Hm1. }
      destruct (Z.ltb_spec x 0); destruct f; simpl in Hsg; try lia; wp_step; (eapply wp_st_node; [done|]); wp_steps;
        right; right; (split; [done|]); (eexists _, a, _, _; split; [exact Hgo|]; split; [|split; [done|split; [|split; [|done]]]]);
        [rewrite !plug_addrs; simpl; solve_Permutation|rewrite plug_elems; done|rewrite plug_elems; done
        |rewrite !plug_addrs; simpl; solve_Permutation|rewrite plug_elems; done|rewrite plug_elems; done].
  - destruct t; [|by destruct Hsh as (? & ? & ? & _)]. wp_step. eapply wp_st_root; [done|]. wp_steps.
    right. right. split; [done|]. exists (Node a Leaf key data Leaf), a, [], [].
    split; [|split_and!; [done|done|done|done|]].
    + constructor.
      * exists (Some a). split; [apply lookup_insert_eq|]. simpl. exists None, None.
        split_and!; [done| |done|done]. rewrite lookup_insert_ne by done. done.
      * apply NoDup_cons. split; [set_solver|apply NoDup_singleton].
      * repeat constructor.
    + intros x Hx. rewrite !not_elem_of_cons in Hx. destruct Hx as (Hx1 & Hx2 & _).
      rewrite lookup_insert_ne by done. by apply Hm1.
Qed.

(** *** Removal *)

Definition join (l r : tree) : tree := match l with Leaf => r | _ => l end.

Lemma shape_root_in m a t : shape m (Some a) t -> a ∈ addrs t.
Proof. destruct t; simpl; [done|]. intros (? & ? & [= ->] & _). set_solver. Qed.

Lemma cshape_root_in m root f c q : cshape m root (f :: c) q -> exists x, root = Some x /\ x ∈ caddrs (f :: c).
Proof.
  revert f q. induction c as [|g c IH]; intros f q.
  - destruct f as [a k d r|a l k d]; simpl; intros (p & _ & _ & ->); exists a; set_solver.
  - intros Hc. assert (cshape m root (g :: c) (Some (faddr f))) as Hc'.
    { destruct f; simpl in Hc; by destruct Hc as (? & _ & _ & ?). }
    destruct (IH _ _ Hc') as (x & -> & Hx). exists x. split; [done|]. destruct f; simpl in *; set_solver.
Qed.

(** Splicing out a node with at most one child. *)
Lemma remove_node_spec m ts root c a l k d r parent :
  m !! ts = Some (OTree root) -> shape m (Some a) (Node a l k d r) -> cshape m root c (Some a) ->
  NoDup (ts :: caddrs c ++ addrs (Node a l k d r)) -> l = Leaf \/ r = Leaf ->
  (forall f c', c = f :: c' -> parent = Some (faddr f)) ->
  wp (remove_node (Some ts) (Some a) parent) (fun rc m' => rc = 0 /\ m' !! a = None /\
    (exists root', m' !! ts = Some (OTree root') /\ shape m' root' (plug c (join l r))) /\
    same_outside m m' (ts :: caddrs c ++ addrs (Node a l k d r))) m.
Proof.
  intros Hts (lp & rp & _ & Ha & Hl & Hr) Hc Hnd Hone Hpar.
  apply NoDup_cons in Hnd as [Htsn Hnd]. apply NoDup_app in Hnd as (Hndc & Hdis & Hndt).
  simpl in Htsn, Hdis. rewrite elem_of_app, elem_of_cons in Htsn. apply NoDup_cons in Hndt as [Han _].
  assert (Hats : a <> ts) by (intros ->; tauto).
  assert (Hac : a ∉ caddrs c) by (intros Hx; apply (Hdis a Hx); set_solver).
  unfold remove_node. wp_step. eapply wp_ld_node; [done|]. simpl.
  set (rep' := if bool_decide (lp <> None) then lp else if bool_decide (rp <> None) then rp else None).
  assert (Hj : shape m rep' (join l r) /\ forall x, x ∈ addrs (join l r) -> x ∈ addrs l ++ addrs r).
  { unfold rep'. destruct l as [|b ll lk ld lr]; simpl in *.
    - subst lp. simpl. split; [|set_solver]. by destruct rp; simpl.
    - destruct Hl as (? & ? & -> & ? & ? & ?). rewrite bool_decide_eq_true_2 by done. split; [by do 2 eexists|set_solver]. }
  destruct Hj as [Hj Hja]. wp_step. eapply wp_ld_root; [done|]. wp_step.
  destruct c as [|f c].
  - simpl in Hc. subst root. rewrite bool_decide_eq_true_2 by done. eapply wp_st_root; [done|]. heap_steps.
    split_and!; [done|apply lookup_delete_eq| |].
    + exists rep'. split; [by rewrite lookup_delete_ne, lookup_insert_eq|]. simpl. eapply shape_frame; [done|].
      intros x Hx. specialize (Hja x Hx). rewrite lookup_delete_ne, lookup_insert_ne; [done| |].
      * intros <-. tauto.
      * intros <-. done.
    + intros x Hx. simpl in Hx. rewrite !not_elem_of_cons in Hx. rewrite lookup_delete_ne, lookup_insert_ne; [done|..]; intros <-; tauto.
  - destruct (cshape_root_in _ _ _ _ _ Hc) as (rt & Hrt & Hrtin). rewrite bool_decide_eq_false_2 by (rewrite Hrt; congruence).
    rewrite (Hpar f c eq_refl). destruct (cshape_node _ _ _ _ _ Hc) as (n & Hn & Hch).
    assert (Hfin : faddr f ∈ caddrs (f :: c)) by (destruct f; simpl; set_solver).
    assert (Hfa : faddr f <> a) by (intros Heq; rewrite Heq in Hfin; done).
    assert (Hfts : faddr f <> ts) by (intros Heq; rewrite Heq in Hfin; tauto).
    assert (Hst : forall Q : unit -> heap -> Prop, Q tt (<[faddr f := ONode (fset f rep' n)]> m) ->
      wp (let! p := ld_node (Some (faddr f)) in
          if bool_decide (left p = Some a) then st_node (Some (faddr f)) (set_left rep')
          else st_node (Some (faddr f)) (set_right rep')) Q m).
    { intros Q HQ. wp_step. eapply wp_ld_node; [done|]. destruct f as [b bk bd br|b bl bk bd]; simpl in *.
      - rewrite bool_decide_eq_true_2 by done. by eapply wp_st_node.
      - destruct Hc as (lp' & Hb & Hbl & _). rewrite bool_decide_eq_false_2; [by eapply wp_st_node|].
        intros Hlp. rewrite Hb in Hn. injection Hn as <-. simpl in Hlp. subst lp'. apply shape_root_in in Hbl. set_solver. }
    apply Hst. clear Hst. heap_steps.
    assert (Hkeep : forall x, x ∉ [a; faddr f] -> delete a (<[faddr f := ONode (fset f rep' n)]> m) !! x = m !! x).
    { intros x Hx. rewrite !not_elem_of_cons in Hx. destruct Hx as (? & ? & _).
      by rewrite lookup_delete_ne, lookup_insert_ne. }
    split_and!; [done|apply lookup_delete_eq| |].
    + exists root. split; [rewrite Hkeep; [done|set_solver]|]. apply plug_shape. exists rep'. split.
      * eapply shape_frame; [done|]. intros x Hx. specialize (Hja x Hx). apply Hkeep.
        rewrite !not_elem_of_cons. split_and!; [intros ->; done| |apply not_elem_of_nil].
        intros ->. apply (Hdis (faddr f) Hfin). set_solver.
      * eapply cshape_set; [done|done|done|by rewrite lookup_delete_ne, lookup_insert_eq|].
        intros x Hx Hxf. apply Hkeep. rewrite !not_elem_of_cons. split_and!; [intros ->; done|done|apply not_elem_of_nil].
    + intros x Hx. apply Hkeep. rewrite not_elem_of_cons, elem_of_app in Hx. simpl addrs in Hx.
      rewrite elem_of_cons in Hx. rewrite !not_elem_of_cons. split_and!; [tauto|intros ->; tauto|apply not_elem_of_nil].
Qed.

(** The rightmost node of a tree, with its context. *)
Lemma largest_loop_spec m p0 fuel : forall t c q last,
  shape m q t -> t <> Leaf -> cshape m p0 c q -> cpost c = [] -> (length (addrs t) <= S fuel)%nat ->
  (last = match c with [] => None | f :: _ => Some (faddr f) end) ->
  wp (largest_loop fuel q last) (fun '(b, parent) m' => m' = m /\ exists c' a l k d,
    plug c t = plug c' (Node a l k d Leaf) /\ b = Some a /\ shape m (Some a) (Node a l k d Leaf) /\
    cshape m p0 c' (Some a) /\ cpost c' = [] /\
    parent = match c' with [] => None | f :: _ => Some (faddr f) end) m.
Proof.
  induction fuel as [|fuel IH]; intros t c q last Ht Hne Hc Hp Hf Hl; (destruct t as [|a l k d r]; [done|]);
    pose proof Ht as (lp & rp & -> & Ha & Hsl & Hsr); simpl; wp_step; (eapply wp_ld_node; [done|]); simpl;
    simpl in Hf; rewrite length_app in Hf.
  - destruct r; [|simpl in Hf; lia]. simpl in Hsr. subst rp. wp_steps. split; [done|].
    exists c, a, l, k, d. by split_and!.
  - destruct r as [|b rl rk rd rr].
    + simpl in Hsr. subst rp. wp_steps. split; [done|]. exists c, a, l, k, d. by split_and!.
    + pose proof Hsr as (? & ? & -> & _).
      change (plug c (Node a l k d (Node b rl rk rd rr))) with (plug (FR a l k d :: c) (Node b rl rk rd rr)).
      apply IH; try done; [by exists lp|lia].
Qed.

Lemma largest_node_spec m t q :
  shape m q t -> t <> Leaf -> NoDup (addrs t) ->
  wp (largest_node q) (fun '(b, parent) m' => m' = m /\ exists c' a l k d,
    t = plug c' (Node a l k d Leaf) /\ b = Some a /\ shape m (Some a) (Node a l k d Leaf) /\
    cshape m q c' (Some a) /\ cpost c' = [] /\
    parent = match c' with [] => None | f :: _ => Some (faddr f) end) m.
Proof.
  intros Ht Hne Hnd. unfold largest_node. wp_steps. apply (largest_loop_spec m q _ t []); try done.
  assert (length (addrs t) <= size m)%nat; [|unfold id; lia].
  apply nodup_length_size; [done|]. intros x. by eapply shape_dom.
Qed.

Lemma plug_app c1 c2 t : plug (c1 ++ c2) t = plug c2 (plug c1 t).
Proof. unfold plug. apply foldl_app. Qed.
Lemma cshape_app m root c1 c2 q : cshape m root (c1 ++ c2) q <-> exists p, cshape m p c1 q /\ cshape m root c2 p.
Proof.
  revert q. induction c1 as [|[a k d r|a l k d] c1 IH]; intros q; simpl.
  - split; [intros; by exists q|by intros (p & -> & ?)].
  - split.
    + intros (rp & ? & ? & (p & ? & ?)%IH). exists p. split; [by exists rp|done].
    + intros (p & (rp & ? & ? & ?) & ?). exists rp. split_and!; [done|done|]. apply IH. by exists p.
  - split.
    + intros (lp & ? & ? & (p & ? & ?)%IH). exists p. split; [by exists lp|done].
    + intros (p & (lp & ? & ? & ?) & ?). exists lp. split_and!; [done|done|]. apply IH. by exists p.
Qed.
Lemma cpre_app c1 c2 : cpre (c1 ++ c2) = cpre c2 ++ cpre c1.
Proof. induction c1 as [|[] c1 IH]; simpl; [by rewrite app_nil_r|done|]. by rewrite IH, <-app_assoc. Qed.
Lemma cpost_app c1 c2 : cpost (c1 ++ c2) = cpost c1 ++ cpost c2.
Proof. induction c1 as [|[] c1 IH]; simpl; [done| |done]. by rewrite IH, <-app_assoc. Qed.
Lemma caddrs_app c1 c2 : caddrs (c1 ++ c2) = caddrs c1 ++ caddrs c2.
Proof. induction c1 as [|[] c1 IH]; simpl; [done| |]; by rewrite IH, <-app_assoc. Qed.

(** The tree after a removal. *)
Definition removed (m : heap) (ts : nat) (t : tree) (key : K) (m' : heap) : Prop :=
  exists t' a L1 d L2, rep m' ts t' /\ elems t = L1 ++ (key, d) :: L2 /\ elems t' = L1 ++ L2 /\
    addrs t ≡ₚ a :: addrs t' /\ m' !! a = None /\ same_outside m m' (ts :: addrs t).

(** Removing the node [a], which has at most one child, when the tree holds
    [key] there or just before. *)
Lemma removed_intro m m' ts t c a l k d r key dk L1 L2 root' :
  rep m ts t -> addrs t ≡ₚ caddrs c ++ addrs (Node a l k d r) -> l = Leaf \/ r = Leaf ->
  elems t = L1 ++ (key, dk) :: L2 -> elems (plug c (join l r)) = L1 ++ L2 ->
  m' !! a = None -> m' !! ts = Some (OTree root') -> shape m' root' (plug c (join l r)) ->
  same_outside m m' (ts :: addrs t) -> removed m ts t key m'.
Proof.
  intros [_ Hnd Hs] Had Hone He He' Ha Hts Hsh Hso.
  assert (Hp : addrs t ≡ₚ a :: addrs (plug c (join l r))).
  { rewrite Had, plug_addrs. simpl. destruct Hone as [-> | ->]; simpl; [solve_Permutation|].
    rewrite app_nil_r. destruct l; solve_Permutation. }
  exists (plug c (join l r)), a, L1, dk, L2. split; [|by split_and!]. constructor.
  - by exists root'.
  - rewrite Hp in Hnd. apply NoDup_cons in Hnd as [H1 H2]. apply NoDup_cons in H2 as [_ H2].
    apply NoDup_cons. split; [set_solver|done].
  - rewrite He'. rewrite He in Hs. by apply sorted_middle in Hs as [? _].
Qed.

Lemma join_elems l r : l = Leaf \/ r = Leaf -> elems (join l r) = elems l ++ elems r.
Proof. intros [-> | ->]; [done|]. simpl. rewrite app_nil_r. by destruct l. Qed.

Lemma plug_not_leaf f c t : plug (f :: c) t <> Leaf.
Proof.
  intros Heq. pose proof (plug_addrs (f :: c) t) as Hp. rewrite Heq in Hp. apply Permutation_nil in Hp.
  by destruct f.
Qed.

(** Removal of a node with two children: its place is taken by the rightmost
    node of its left subtree. *)
Lemma remove_two_spec m ts t c a l key d r root lp rp :
  rep m ts t -> t = plug c (Node a l key d r) -> m !! ts = Some (OTree root) ->
  m !! a = Some (ONode (BNode lp rp key d)) -> shape m lp l -> shape m rp r -> cshape m root c (Some a) -> l <> Leaf ->
  wp (let! (replacement_node, parent) := largest_node lp in
      let parent := if bool_decide (parent = None) then Some a else parent in
      let! rn := ld_node replacement_node in
      do! st_node (Some a) (set_key (nkey rn)) in
      do! st_node (Some a) (set_data (ndata rn)) in
      remove_node (Some ts) replacement_node parent)
     (fun rc m' => rc = 0 /\ removed m ts t key m') m.
Proof.
  intros Hr Ht Hts Ha Hl Hrr Hc Hne. pose proof Hr as [_ Hnd _]. rewrite Ht, plug_addrs in Hnd. simpl addrs in Hnd.
  assert (Hndl : NoDup (addrs l)).
  { apply NoDup_cons in Hnd as [_ Hnd]. apply NoDup_app in Hnd as (_ & _ & Hnd). apply NoDup_cons in Hnd as [_ Hnd].
    by apply NoDup_app in Hnd as [? _]. }
  wp_step. eapply wp_mono; [by apply (largest_node_spec m l lp)|]. simpl.
  intros [b parent] ? [-> (cs & b' & bl & bk & bd & Hcs & -> & Hb & Hcb & Hpost & ->)].
  pose proof Hb as (blp & brp & _ & Hbn & Hbl & _). rewrite Hcs, plug_addrs in Hnd. simpl addrs in Hnd.
  rewrite app_nil_r in Hnd.
  assert (Hao : a <> b' /\ a <> ts /\ a ∉ caddrs cs /\ a ∉ addrs bl /\ a ∉ addrs r /\ a ∉ caddrs c).
  { apply NoDup_cons in Hnd as [Htn Hnd]. rewrite !elem_of_app, !elem_of_cons, !elem_of_app, !elem_of_cons in Htn.
    apply NoDup_app in Hnd as (_ & Hd & Hnd). apply NoDup_cons in Hnd as [Han _].
    rewrite !elem_of_app, elem_of_cons in Han.
    split_and!; [intros ->|intros ->|..]; try tauto. intros Hx. apply (Hd a Hx). set_solver. }
  destruct Hao as (Hab & Hats & Hacs & Habl & Har & Hac).
  wp_step. eapply wp_ld_node; [done|]. simpl. wp_step. eapply wp_st_node; [done|]. wp_step.
  eapply wp_st_node; [apply lookup_insert_eq|]. simpl. rewrite insert_insert_eq.
  set (m1 := <[a := _]> m). assert (Hm1 : forall y, y <> a -> m1 !! y = m !! y) by (intros y Hy; unfold m1; by rewrite lookup_insert_ne).
  assert (Had : addrs t ≡ₚ caddrs (cs ++ FL a bk bd r :: c) ++ addrs (Node b' bl bk bd Leaf)).
  { rewrite Ht, plug_addrs, Hcs, caddrs_app. simpl. rewrite plug_addrs. simpl. solve_Permutation. }
  eapply wp_mono; [eapply (remove_node_spec m1 ts root (cs ++ FL a bk bd r :: c) b' bl bk bd Leaf)|].
  - by rewrite Hm1.
  - eapply shape_frame; [done|]. intros y Hy. apply Hm1. intros ->. simpl in Hy. set_solver.
  - apply cshape_app. exists lp. split; [eapply cshape_frame; [done|]; intros y Hy; apply Hm1; intros ->; done|].
    exists rp. split; [unfold m1; by rewrite lookup_insert_eq|].
    split; [eapply shape_frame|eapply cshape_frame]; try done; intros y Hy; apply Hm1; intros ->; done.
  - rewrite <-Had. apply Hr.
  - by right.
  - intros f c' Heq. destruct cs as [|g cs]; simpl in *; injection Heq as <- _; done.
  - simpl. intros rc m' (-> & Hgone & (root' & Hts' & Hsh') & Hso). split; [done|].
    eapply (removed_intro m m' ts t (cs ++ FL a bk bd r :: c) b' bl bk bd Leaf key d
              (cpre c ++ cpre cs ++ elems bl ++ [(bk, bd)]) (elems r ++ cpost c)); try done.
    + by right.
    + rewrite Ht, Hcs, plug_elems. simpl. rewrite plug_elems, Hpost. simpl. rewrite app_nil_r. by rewrite <-!app_assoc.
    + rewrite plug_elems, join_elems, cpre_app, cpost_app, Hpost by (by right). simpl. rewrite app_nil_r. by rewrite <-!app_assoc.
    + intros y Hy. rewrite Hso; [apply Hm1|by rewrite <-Had]. intros ->. rewrite Had, caddrs_app in Hy. set_solver.
Qed.

Lemma binary_tree_remove_spec m ts t key :
  rep m ts t ->
  wp (binary_tree_remove (Some ts) key) (fun rc m' =>
    (rc = 0 /\ t = Leaf /\ m' = m) \/ (rc = -1 /\ t <> Leaf /\ m' = m /\ forall d, (key, d) ∉ elems t) \/
    (rc = 0 /\ removed m ts t key m')) m.
Proof.
  intros Hr. pose proof Hr as [(root & Hts & Hsh) Hnd Hs]. unfold binary_tree_remove. wp_step.
  eapply wp_ld_root; [done|]. destruct root as [rt|]; simpl.
  2:{ wp_steps. left. split_and!; [done| |done]. destruct t; [done|]. by destruct Hsh as (? & ? & ? & _). }
  wp_step. eapply wp_mono; [eapply find_node_spec; done|]. simpl. intros [[closest x] parent] ? [-> [Hfo|Hmi]].
  2:{ destruct Hmi as (f & c & Hx & _ & -> & -> & _ & Hb & Hab). destruct (Z.eqb_spec x 0); [done|]. wp_steps.
      right. left. split_and!; [done|apply plug_not_leaf|done|].
      intros d. rewrite plug_elems. simpl. by apply below_above_not_in. }
  destruct Hfo as (c & a & l & d & r & -> & Ht & -> & -> & Hshn & Hc). simpl.
  assert (Had : addrs t ≡ₚ caddrs c ++ addrs (Node a l key d r)) by (rewrite Ht; apply plug_addrs).
  assert (Hel : elems t = (cpre c ++ elems l) ++ (key, d) :: elems r ++ cpost c)
    by (rewrite Ht, plug_elems; simpl; by rewrite <-!app_assoc).
  assert (Hnd' : NoDup (ts :: caddrs c ++ addrs (Node a l key d r))) by (by rewrite <-Had).
  pose proof Hshn as (lp & rp & _ & Ha & Hl & Hrr). wp_step. eapply wp_ld_node; [done|]. simpl.
  destruct (bool_decide (lp <> None) && bool_decide (rp <> None)) eqn:Eb.
  - eapply wp_mono; [eapply remove_two_spec; try done|].
    + intros ->. simpl in Hl. subst lp. done.
    + simpl. intros rc m' [-> Hrem]. right. right. done.
  - assert (Hone : l = Leaf \/ r = Leaf).
    { destruct l; [by left|]. destruct r; [by right|]. simpl in Hl, Hrr.
      destruct Hl as (? & ? & -> & _), Hrr as (? & ? & -> & _). done. }
    eapply wp_mono; [eapply (remove_node_spec m ts (Some rt) c a l key d r); try done|].
    + intros f c' ->. done.
    + simpl. intros rc m' (-> & Hgone & (root' & Hts' & Hsh') & Hso). right. right. split; [done|].
      eapply removed_intro; try done.
      * by rewrite plug_elems, join_elems, <-!app_assoc.
      * intros y Hy. apply Hso. by rewrite <-Had.
Qed.

(** *** The operations as steps on a sorted association list *)

Inductive op : Type :=
| Lookup (k : K)
| Insert (k : K) (d : Z)
| Remove (k : K).

Definition exec (ts : nat) (o : op) : M heap Z :=
  match o with
  | Lookup k => binary_tree_lookup (Some ts) k
  | Insert k d => binary_tree_insert (Some ts) k d
  | Remove k => binary_tree_remove (Some ts) k
  end.

Definition absent (k : K) (L : list (K * Z)) : Prop := forall d, (k, d) ∉ L.

Inductive a_step : list (K * Z) -> op -> Z -> list (K * Z) -> Prop :=
| step_hit k d L : (k, d) ∈ L -> a_step L (Lookup k) d L
| step_miss k L : absent k L -> a_step L (Lookup k) 0 L
| step_insert k d L1 L2 : absent k (L1 ++ L2) -> a_step (L1 ++ L2) (Insert k d) 0 (L1 ++ (k, d) :: L2)
| step_clash k d d' L : (k, d') ∈ L -> a_step L (Insert k d) (-2) L
| step_nomem k d L : a_step L (Insert k d) (-1) L
| step_remove k d L1 L2 : a_step (L1 ++ (k, d) :: L2) (Remove k) 0 (L1 ++ L2)
| step_remove_miss k L : L <> [] -> absent k L -> a_step L (Remove k) (-1) L
| step_remove_empty k : a_step [] (Remove k) 0 [].

Lemma sorted_absent k d L1 L2 : sorted (L1 ++ (k, d) :: L2) -> absent k (L1 ++ L2).
Proof.
  intros (_ & H1 & H2)%sorted_middle d'. rewrite Forall_forall in H1, H2.
  intros [Hin|Hin]%elem_of_app; [specialize (H1 _ Hin)|specialize (H2 _ Hin)]; unfold klt in *; simpl in *;
    rewrite cmp_refl in *; lia.
Qed.

Lemma binary_tree_new_spec m :
  wp binary_tree_new (fun r m' => (r = None /\ m' = m) \/
    exists ts, r = Some ts /\ m !! ts = None /\ rep m' ts Leaf /\ same_outside m m' [ts]) m.
Proof.
  unfold binary_tree_new. wp_step. apply wp_malloc; simpl; [intros _; wp_steps; by left|]. intros a Ha. heap_steps. right.
  exists a. split_and!; [done|done| |].
  - constructor; [|apply NoDup_singleton|constructor]. exists None. by rewrite lookup_insert_eq.
  - intros x Hx%not_elem_of_cons. destruct Hx. by rewrite !lookup_insert_ne.
Qed.

End tree.

Arguments bin_tree_node K : clear implicits.
Arguments object K : clear implicits.
Arguments tree K : clear implicits.
Arguments op K : clear implicits.
End BinTree.

(** ** Properties *)

Section bintree_properties.
Import BinTree.
Context {K : Type} `{KC : !KeyCmp K} `{MM : !Malloc (object K)}.

(** C32: lookup, insertion and removal implement their steps on a sorted
    association list with distinct keys, the order of the tree is kept, no
    node is leaked or used after it is freed, and objects outside the tree do
    not change. *)
Theorem binary_tree_operations_correct m ts t o :
  rep m ts t ->
  wp (exec ts o) (fun r m' => exists t', rep m' ts t' /\ a_step (elems t) o r (elems t') /\
    forall x, is_Some (m !! x) -> x ∉ ts :: addrs t -> m' !! x = m !! x) m.
Proof.
  intros Hr. destruct o as [k|k d|k]; simpl.
  - eapply wp_mono; [by apply binary_tree_lookup_spec|]. simpl. intros r m' [-> Hd]. exists t. split; [done|].
    split; [|done]. destruct Hd as [Hd|[-> Hd]]; by constructor.
  - eapply wp_mono; [by apply binary_tree_insert_spec|]. simpl.
    intros r m' [[-> ->]|[(-> & -> & d' & Hin)|(-> & t' & a & L1 & L2 & Hr' & _ & Ha & He & He' & Hso)]].
    + exists t. split; [done|]. split; [constructor|done].
    + exists t. split; [done|]. split; [by econstructor|done].
    + exists t'. split; [done|]. rewrite He, He'. split.
      { constructor. eapply sorted_absent. rewrite <-He'. apply Hr'. }
      intros x [o Ho] Hx. apply Hso.
      apply not_elem_of_cons. split; [congruence|done].
  - eapply wp_mono; [by apply binary_tree_remove_spec|]. simpl.
    intros r m' [(-> & -> & ->)|[(-> & Hne & -> & Hab)|(-> & t' & a & L1 & d & L2 & Hr' & He & He' & _ & _ & Hso)]].
    + exists Leaf. split; [done|]. split; [constructor|done].
    + exists t. split; [done|]. split; [|done]. constructor; [|done]. destruct t as [|a l kk d r]; [done|].
      simpl. by destruct (elems l).
    + exists t'. split; [done|]. rewrite He, He'. split; [constructor|]. intros x _ Hx. by apply Hso.
Qed.

End bintree_properties.

(** *** Witness: a tree of three integer keys *)

Module BinTreeDemo.
Import BinTree.
#[local] Program Instance zcmp : KeyCmp Z := {| cmp k1 k2 := k1 - k2 |}.
Next Obligation. simpl. lia. Qed.
Next Obligation. simpl. lia. Qed.
Next Obligation. simpl in *. lia. Qed.
#[local] Instance pool : Malloc (object Z) := malloc_pool 16 (OTree None).
Definition built : gmap nat (object Z) :=
  match (let! ts := binary_tree_new in
         let! _ := binary_tree_insert ts 5 50 in
         let! _ := binary_tree_insert ts 2 20 in binary_tree_insert ts 9 90) ∅ with
  | Done _ m => m
  | Crash _ => ∅
  end.
Definition shape0 : tree Z := Node 1 (Node 2 Leaf 2 20 Leaf) 5 50 (Node 3 Leaf 9 90 Leaf).

Lemma tree_built_rep : rep built 0 shape0.
Proof.
  constructor.
  - eexists. split; [reflexivity|]. simpl. do 2 eexists. split_and!; [done|reflexivity| |];
      do 2 eexists; (split_and!; [done|reflexivity|done|done]).
  - apply (bool_decide_eq_true_1 _). reflexivity.
  - repeat constructor.
Qed.
End BinTreeDemo.

Lemma binary_tree_operations_correct_witness :
  wp (BinTree.exec (KC := BinTreeDemo.zcmp) (MM := BinTreeDemo.pool) 0%nat (BinTree.Remove 5)) (fun r m' =>
    exists t', BinTree.rep (KC := BinTreeDemo.zcmp) m' 0 t' /\
      BinTree.a_step (BinTree.elems BinTreeDemo.shape0) (BinTree.Remove 5) r (BinTree.elems t') /\
      forall x, is_Some (BinTreeDemo.built !! x) -> x ∉ 0%nat :: BinTree.addrs BinTreeDemo.shape0 ->
        m' !! x = BinTreeDemo.built !! x) BinTreeDemo.built.
Proof.
  apply (binary_tree_operations_correct (KC := BinTreeDemo.zcmp) (MM := BinTreeDemo.pool)
           BinTreeDemo.built 0%nat BinTreeDemo.shape0 (BinTree.Remove 5)).
  exact BinTreeDemo.tree_built_rep.
Defined.
