(* ===== verification/CircularBuffer.v ===== *)
(** * The [circular_buffer] library ([libs/circular_buffer])

    A buffer shared by one writer and one reader.  The writer allocates
    regions through a [cb_alloc_handle] and publishes them with
    [cb_sync_alloc]; the reader takes regions through a [cb_get_handle] and
    gives them back with [cb_sync_get].  Both handles keep a private copy of
    the index they own.  Pointers into the data are 32-bit addresses. *)

From S2P Require Import Prelude Heap.
#[local] Open Scope Z_scope.

Module CB.

(** [struct cb]; [start] is the address of the data that follows it. *)
Record cb : Type := Cb {
  head : Z;
  tail : Z;
  cend : Z;
  start : Z
}.
Record cb_alloc_handle : Type := AllocHandle {
  a_cb : option nat;
  a_head : Z
}.
Record cb_get_handle : Type := GetHandle {
  g_cb : option nat;
  g_tail : Z
}.
Inductive object : Type :=
| OCb (c : cb)
| OAlloc (h : cb_alloc_handle)
| OGet (h : cb_get_handle).

Abbreviation heap := (gmap nat object).

Definition cb_of (o : object) : option cb := match o with OCb c => Some c | _ => None end.
Definition alloc_of (o : object) : option cb_alloc_handle := match o with OAlloc h => Some h | _ => None end.
Definition get_of (o : object) : option cb_get_handle := match o with OGet h => Some h | _ => None end.
Definition ld_cb (p : option nat) : M heap cb := let! o := load p in demand InvalidPointer (cb_of o).
Definition ld_alloc (p : option nat) : M heap cb_alloc_handle := let! o := load p in demand InvalidPointer (alloc_of o).
Definition ld_get (p : option nat) : M heap cb_get_handle := let! o := load p in demand InvalidPointer (get_of o).

(** [sizeof(struct cb)] on a 32-bit target. *)
Definition sizeof_cb : Z := 12.

Section operations.
Context `{MM : !Malloc object}.
(** The address of the data of the buffer allocated at an address. *)
Context (data_of : nat -> Z).

Definition cb_new (size : Z) : M heap (option nat) :=
  let! cba := malloc in
  if bool_decide (cba = None) then ret None
  else
    let! c := malloc in
    do! store cba (fun _ => OAlloc (AllocHandle c 0)) in
    match c with
    | None => do! free cba in ret None
    | Some a =>
        let st := data_of a in
        do! store c (fun _ => OCb (Cb st (u32 (st + size)) (u32 (st + size)) st)) in
        do! store cba (fun _ => OAlloc (AllocHandle c st)) in
        ret cba
    end.

Definition cb_new_withmem (mem : nat) (size : Z) : M heap (option nat) :=
  let size := u32 (size - sizeof_cb) in
  let! cba := malloc in
  if bool_decide (cba = None) then ret None
  else
    let st := data_of mem in
    do! store (Some mem) (fun _ => OCb (Cb st (u32 (st + size)) (u32 (st + size)) st)) in
    do! store cba (fun _ => OAlloc (AllocHandle (Some mem) st)) in
    ret cba.

Definition cb_free (cba : option nat) : M heap unit :=
  let! h := ld_alloc cba in
  do! free (a_cb h) in
  free cba.

Definition cb_get_cb (cba : option nat) : M heap (option nat) :=
  let! h := ld_alloc cba in ret (a_cb h).

Definition cb_attach_allocated (c cbg : option nat) : M heap unit :=
  let! b := ld_cb c in
  store cbg (fun _ => OGet (GetHandle c (tail b))).

Definition cb_attach (c : option nat) : M heap (option nat) :=
  let! cbg := malloc in
  if bool_decide (cbg = None) then ret None
  else
    do! cb_attach_allocated c cbg in
    ret cbg.

Definition cb_detach (cbg : option nat) : M heap unit := free cbg.

End operations.

Definition cb_alloc (cba : option nat) (size : Z) : M heap (option Z) :=
  let! h := ld_alloc cba in
  let! c := ld_cb (a_cb h) in
  let value := a_head h in
  let new_head := u32 (a_head h + size) in
  if (value <? tail c) && (tail c <=? new_head) then ret None
  else
    let wrapped := cend c <? new_head in
    let value := if wrapped then start c else value in
    let new_head := if wrapped then u32 (value + size) else new_head in
    if wrapped && (value =? tail c) then ret None
    else if (value <? tail c) && (tail c <=? new_head) then ret None
    else
      let new_head := if new_head =? cend c then start c else new_head in
      do! store cba (fun _ => OAlloc (AllocHandle (a_cb h) new_head)) in
      ret (Some value).

Definition cb_sync_alloc (cba : option nat) : M heap unit :=
  let! h := ld_alloc cba in
  let! c := ld_cb (a_cb h) in
  store (a_cb h) (fun _ => OCb (Cb (a_head h) (tail c) (cend c) (start c))).

Definition cb_undo_alloc (cba : option nat) : M heap unit :=
  let! h := ld_alloc cba in
  let! c := ld_cb (a_cb h) in
  store cba (fun _ => OAlloc (AllocHandle (a_cb h) (head c))).

Definition cb_get (cbg : option nat) (size : Z) : M heap (option Z) :=
  let! h := ld_get cbg in
  let! c := ld_cb (g_cb h) in
  let tl :=
    if (cend c <? u32 (g_tail h + size)) && negb (head c =? g_tail h) then start c else g_tail h in
  do! store cbg (fun _ => OGet (GetHandle (g_cb h) tl)) in
  if (tl <=? head c) && (head c <? u32 (tl + size)) then ret None
  else
    do! store cbg (fun _ => OGet (GetHandle (g_cb h) (u32 (tl + size)))) in
    ret (Some tl).

Definition cb_sync_get (cbg : option nat) : M heap unit :=
  let! h := ld_get cbg in
  let! c := ld_cb (g_cb h) in
  store (g_cb h) (fun _ => OCb (Cb (head c) (g_tail h) (cend c) (start c))).

(** ** Specification *)

(** The addresses in use between a reader at [t] and a writer at [h]. *)
Definition occupied (c : cb) (t h x : Z) : Prop :=
  if t <=? h then t <= x < h else t <= x < cend c \/ start c <= x < h.

(** A writer's view: its handle, the buffer, and the indices in range. *)
Record writer (m : heap) (a b : nat) (h : Z) (c : cb) : Prop := {
  wr_handle : m !! a = Some (OAlloc (AllocHandle (Some b) h));
  wr_cb : m !! b = Some (OCb c);
  wr_head : start c <= h < cend c;
  wr_tail : start c <= tail c <= cend c;
  wr_word : 0 <= start c
}.

(** What an allocation of [size] bytes gives: a region inside the buffer that
    is not in use; the region becomes in use and nothing else does, except
    that the writer may also skip the end of the buffer. *)
Record allocates (c : cb) (h size v h' : Z) : Prop := {
  al_in : start c <= v /\ v + size <= cend c;
  al_free : forall x, v <= x < v + size -> ~ occupied c (tail c) h x;
  al_head : start c <= h' < cend c;
  al_used : tail c <> start c \/ v + size <> cend c ->
    forall x, occupied c (tail c) h' x <-> occupied c (tail c) h x \/ v <= x < v + size \/ (v < h <= x /\ x < cend c)
}.

(** The branches that grant a region. *)
Ltac grant :=
  heap_steps; right; eexists _, _; (split; [done|]); (split; [|done]);
  constructor; unfold occupied; intros; simpl in *;
  repeat match goal with
    | |- context [?x =? ?y] => destruct (Z.eqb_spec x y)
    | |- context [?x <=? ?y] => destruct (Z.leb_spec x y)
    end; lia.

Lemma cb_alloc_spec m a b h c size :
  writer m a b h c -> 0 < size -> cend c + size < WORD_MOD ->
  wp (cb_alloc (Some a) size) (fun r m' =>
    (r = None /\ m' = m /\ (h < tail c <= h + size \/ cend c < h + size /\ tail c <= start c + size)) \/
    exists v h', r = Some v /\ allocates c h size v h' /\ m' = <[a := OAlloc (AllocHandle (Some b) h')]> m) m.
Proof.
  intros [Ha Hb Hh Ht Hw] Hs Hov. unfold cb_alloc, ld_alloc, ld_cb. heap_steps; [done|]. simpl. heap_steps; [done|].
  assert (E1 : u32 (h + size) = h + size) by (apply u32_word; unfold is_word; lia).
  assert (E2 : u32 (start c + size) = start c + size) by (apply u32_word; unfold is_word; lia).
  rewrite E1.
  destruct (Z.ltb_spec h (tail c)), (Z.leb_spec (tail c) (h + size)); simpl; try (wp_steps; left; split_and!; (done || lia));
    (destruct (Z.ltb_spec (cend c) (h + size)); simpl; rewrite ?E2; try lia).
  - rewrite (proj2 (Z.ltb_lt _ _)), (proj2 (Z.leb_gt _ _)) by lia. simpl. grant.
  - destruct (Z.eqb_spec (start c) (tail c)); [wp_steps; left; split_and!; (done || lia)|].
    rewrite (proj2 (Z.ltb_lt (start c) _)) by lia. destruct (Z.leb_spec (tail c) (start c + size)); simpl.
    + wp_steps. left. split_and!; (done || lia).
    + grant.
  - rewrite (proj2 (Z.ltb_ge h _)) by lia. simpl. grant.
Qed.

(** A reader's view. *)
Record reader (m : heap) (g b : nat) (t : Z) (c : cb) : Prop := {
  rd_handle : m !! g = Some (OGet (GetHandle (Some b) t));
  rd_cb : m !! b = Some (OCb c);
  rd_head : start c <= head c < cend c;
  rd_tail : start c <= t <= cend c;
  rd_word : 0 <= start c
}.

Ltac taken :=
  unfold occupied; split_and!; try done; try lia; intros;
  repeat match goal with |- context [?x <=? ?y] => destruct (Z.leb_spec x y) end; lia.

(** What a request of [size] bytes gives: the next unread region, or nothing
    when the unread bytes that follow the reader's position are too few.  The
    reader may first skip the end of the buffer. *)
Lemma cb_get_spec m g b t c size :
  reader m g b t c -> 0 < size -> cend c + size < WORD_MOD -> t + size <= cend c \/ head c <= t ->
  wp (cb_get (Some g) size) (fun r m' => exists v t',
    m' = <[g := OGet (GetHandle (Some b) t')]> m /\ (v = t \/ v = start c /\ cend c < t + size) /\
    match r with
    | None => t' = v /\ v <= head c < v + size /\
        (forall x, occupied c t' (head c) x <-> occupied c t (head c) x /\ ~ (v < t <= x))
    | Some w => w = v /\ t' = v + size /\ t' <= cend c /\
        (forall x, v <= x < v + size -> occupied c t (head c) x) /\
        (forall x, occupied c t' (head c) x <->
           occupied c t (head c) x /\ ~ v <= x < v + size /\ ~ (v < t <= x))
    end) m.
Proof.
  intros [Hg Hb Hh Ht Hw] Hs Hov Hfit. unfold cb_get, ld_get, ld_cb. heap_steps; [done|]. simpl. heap_steps; [done|].
  assert (E1 : u32 (t + size) = t + size) by (apply u32_word; unfold is_word; lia).
  assert (E2 : u32 (start c + size) = start c + size) by (apply u32_word; unfold is_word; lia).
  rewrite E1.
  destruct (Z.ltb_spec (cend c) (t + size)), (Z.eqb_spec (head c) t); simpl; rewrite ?E1, ?E2;
    repeat match goal with |- context [if (?x <=? ?y) && (?z <? ?w) then _ else _] =>
      destruct (Z.leb_spec x y), (Z.ltb_spec z w); simpl; try lia end;
    heap_steps; rewrite ?insert_insert_eq;
    first [ exists t; eexists; (split; [done|]); (split; [lia|]); taken
          | exists (start c); eexists; (split; [done|]); (split; [lia|]); taken ].
Qed.

(** A request past the end of the buffer while the writer is ahead of the
    reader: the reader goes back to the start all the same, where it finds
    bytes it has read before. *)
Lemma cb_get_rereads m g b t c size :
  reader m g b t c -> 0 < size -> cend c + size < WORD_MOD -> t < head c -> cend c < t + size ->
  wp (cb_get (Some g) size) (fun r m' =>
    if head c <? start c + size
    then r = None /\ m' = <[g := OGet (GetHandle (Some b) (start c))]> m
    else r = Some (start c) /\ m' = <[g := OGet (GetHandle (Some b) (start c + size))]> m) m.
Proof.
  intros [Hg Hb Hh Ht Hw] Hs Hov Hth Hend. unfold cb_get, ld_get, ld_cb. heap_steps; [done|]. simpl. heap_steps; [done|].
  assert (E1 : u32 (t + size) = t + size) by (apply u32_word; unfold is_word; lia).
  assert (E2 : u32 (start c + size) = start c + size) by (apply u32_word; unfold is_word; lia).
  rewrite E1, (proj2 (Z.ltb_lt _ _) Hend), (proj2 (Z.eqb_neq (head c) t)) by lia. simpl. rewrite E2.
  rewrite (proj2 (Z.leb_le (start c) _)) by lia. simpl.
  destruct (head c <? start c + size); heap_steps; by rewrite ?insert_insert_eq.
Qed.

End CB.

(** ** Properties *)

Section cb_properties.
Import CB.

(** C33: the writer's and the reader's side of a buffer, where adding the
    size to an address does not wrap.  An allocation is granted unless the
    free space at the writer's position (or at the start, when it has to wrap)
    is too small; a granted region lies inside the buffer and overlaps no byte
    that is in use, and exactly its bytes become in use, unless it fills the
    buffer to its end while the reader is at the start.  The bytes in use are
    read off the two positions, so that none is where they are equal: after a
    region that fills the buffer like this, its unread bytes count as free
    ([cb_full_buffer_lost]).  A read that fits before the end of the buffer,
    or is made when the writer is not ahead, gives the next unread region of
    the requested size, inside the buffer, and exactly its bytes stop being
    unread; it gives nothing when fewer unread bytes follow.  A read past the
    end of the buffer by a reader behind the writer goes to the start all the
    same, and gives bytes that have been read before, or nothing. *)
Theorem circular_buffer_correct m a g b h t c size :
  writer m a b h c -> reader m g b t c -> 0 < size -> cend c + size < WORD_MOD ->
  wp (cb_alloc (Some a) size) (fun r m' =>
    (r = None /\ m' = m /\ (h < tail c <= h + size \/ cend c < h + size /\ tail c <= start c + size)) \/
    exists v h', r = Some v /\ allocates c h size v h' /\ m' = <[a := OAlloc (AllocHandle (Some b) h')]> m) m /\
  (t + size <= cend c \/ head c <= t ->
   wp (cb_get (Some g) size) (fun r m' => exists v t',
    m' = <[g := OGet (GetHandle (Some b) t')]> m /\ (v = t \/ v = start c /\ cend c < t + size) /\
    match r with
    | None => t' = v /\ v <= head c < v + size /\
        (forall x, occupied c t' (head c) x <-> occupied c t (head c) x /\ ~ (v < t <= x))
    | Some w => w = v /\ t' = v + size /\ t' <= cend c /\
        (forall x, v <= x < v + size -> occupied c t (head c) x) /\
        (forall x, occupied c t' (head c) x <->
           occupied c t (head c) x /\ ~ v <= x < v + size /\ ~ (v < t <= x))
    end) m) /\
  (t < head c -> cend c < t + size ->
   wp (cb_get (Some g) size) (fun r m' =>
    if head c <? start c + size
    then r = None /\ m' = <[g := OGet (GetHandle (Some b) (start c))]> m
    else r = Some (start c) /\ m' = <[g := OGet (GetHandle (Some b) (start c + size))]> m) m).
Proof. intros Hw Hr Hs He. split_and!; [by apply cb_alloc_spec|intros; by apply cb_get_spec|intros; by apply (cb_get_rereads m g b t c)]. Qed.

End cb_properties.

(** *** Witnesses, and a run in which a full buffer looks empty *)

Module CBDemo.
Import CB.
#[local] Instance pool : Malloc object := malloc_pool 8 (OGet (GetHandle None 0)).
Definition data_of (a : nat) : Z := 1000 * Z.of_nat a + 12.

(** The objects made by [cb_new] and [cb_attach]. *)
Definition built : heap :=
  match (let! cba := cb_new data_of 64 in let! c := cb_get_cb cba in cb_attach c) ∅ with
  | Done _ m => m
  | Crash _ => ∅
  end.
Definition buffer : cb := Cb 1012 1076 1076 1012.

(** The reader polls the empty buffer and publishes its position; the writer
    then fills the buffer to its end in one region and publishes it. *)
Definition lost_run : M heap (option Z * option Z * option Z) :=
  let! r1 := cb_get (Some 2%nat) 64 in
  do! cb_sync_get (Some 2%nat) in
  let! w := cb_alloc (Some 0%nat) 64 in
  do! cb_sync_alloc (Some 0%nat) in
  let! r2 := cb_get (Some 2%nat) 64 in
  ret (r1, w, r2).
End CBDemo.

(** The region was granted and published, but the reader finds nothing. *)
Lemma cb_full_buffer_lost :
  wp CBDemo.lost_run (fun r _ => r = (None, Some 1012, None)) CBDemo.built.
Proof. vm_compute. reflexivity. Qed.

(** A buffer of 100 bytes of which the first 50 have been read and 10 more
    written: a read of 55 bytes returns the first 55, 50 of them again. *)
Lemma cb_get_returns_read_bytes :
  let c := CB.Cb 60 50 100 0 in
  let m : CB.heap := <[0%nat := CB.OCb c]> {[ 1%nat := CB.OGet (CB.GetHandle (Some 0%nat) 50) ]} in
  wp (CB.cb_get (Some 1%nat) 55) (fun r _ => r = Some 0) m.
Proof. vm_compute. reflexivity. Qed.

Lemma circular_buffer_correct_witness :
  wp (CB.cb_alloc (Some 0%nat) 16) (fun r m' =>
    (r = None /\ m' = CBDemo.built /\ (1012 < 1076 <= 1012 + 16 \/ 1076 < 1012 + 16 /\ 1076 <= 1012 + 16)) \/
    exists v h', r = Some v /\ CB.allocates CBDemo.buffer 1012 16 v h' /\
      m' = <[0%nat := CB.OAlloc (CB.AllocHandle (Some 1%nat) h')]> CBDemo.built) CBDemo.built.
Proof.
  refine (proj1 (circular_buffer_correct CBDemo.built 0%nat 2%nat 1%nat 1012 1076 CBDemo.buffer 16 _ _ _ _)).
  - constructor; [reflexivity|reflexivity|simpl; lia|simpl; lia|simpl; lia].
  - constructor; [reflexivity|reflexivity|simpl; lia|simpl; lia|simpl; lia].
  - lia.
  - unfold WORD_MOD; simpl; lia.
Defined.
