(* ===== verification/RangeFl.v ===== *)
(** * The [range_fl] library ([libs/range_fl]): free list of ranges

    The free values are kept as a sorted list of disjoint, non-adjacent ranges
    on a list of the [ll] library, whose data point to the ranges.  The proofs
    use the [ll] operations only through their specifications. *)

From S2P Require Import Prelude Rings Heap LinkedList.
#[local] Open Scope Z_scope.

Module Rfl.

(** [struct range] *)
Record range : Type := Range {
  from : Z;
  to : Z
}.
Definition set_from v r := Range v (to r).
Definition set_to v r := Range (from r) v.

Definition RFL_SUCCESS : Z := 0.
Definition E_RFL_INV_RANGE : Z := -1.
Definition E_RFL_OVERLAP : Z := -2.
Definition E_RFL_NOMEM : Z := -3.

(** The list cells and the ranges. *)
Record state : Type := St {
  cells : gmap nat LL.ll;
  ranges : gmap nat range
}.
Definition set_cells c s := St c (ranges s).

#[export] Instance state_ranges : HasHeap state range.
Proof.
  refine {| heap_of := ranges; with_heap h s := St (cells s) h |}; reflexivity.
Defined.

(** Operations of [ll] on the cells. *)
Definition on_cells {A} (c : M (gmap nat LL.ll) A) : M state A := zoom cells set_cells c.
Definition ld_cell (p : option nat) : M state LL.ll := on_cells (load p).

(** A pointer to a range as the [data] word of a cell; NULL is 0. *)
Definition word_of (p : option nat) : Z := match p with Some a => Z.of_nat a + 1 | None => 0 end.
Definition ptr_of (w : Z) : option nat := if w <=? 0 then None else Some (Z.to_nat (w - 1)).

Section operations.
Context `{ML : !Malloc LL.ll} `{MR : !Malloc range}.
(** Whether [CONFIG_DEBUG] is defined. *)
Context (debug : bool).

Definition rfl_new : M state (option nat) := on_cells LL.ll_new.
Definition rfl_destroy (rfl : option nat) : M state unit := on_cells (LL.ll_free rfl).

(** "In this case we can add to the end of this range", merging it with the
    next range when they have become adjacent; [temp_next] is the next cell. *)
Definition extend_to (temp_next rp : option nat) (t : Z) : M state unit :=
  let! nc := ld_cell temp_next in
  let next_range := ptr_of (LL.data nc) in
  do! store rp (set_to t) in
  if bool_decide (next_range <> None) then
    let! r := load rp in
    let! nr := load next_range in
    if u32 (to r + 1) =? from nr then
      do! store rp (set_to (to nr)) in
      do! free next_range in
      let! _ := on_cells (LL.ll_delete temp_next) in
      ret tt
    else ret tt
  else ret tt.

(** The loop of [rfl_insert_range]: an error code, or [added] and [temp]. *)
Fixpoint insert_loop (fuel : nat) (rfl temp : option nat) (f t : Z) : M state (Z + bool * option nat) :=
  if bool_decide (temp = rfl) then ret (inr (false, temp))
  else
    match fuel with
    | O => crash LoopBoundExceeded
    | S fuel' =>
        let! c := ld_cell temp in
        let rp := ptr_of (LL.data c) in
        let! range := load rp in
        if debug && ((from range <=? f) && (f <=? to range) || (from range <=? t) && (t <=? to range)) then
          ret (inl E_RFL_OVERLAP)
        else if from range =? u32 (t + 1) then
          do! store rp (set_from f) in
          ret (inr (true, temp))
        else if to range =? u32 (f - 1) then
          do! extend_to (LL.next c) rp t in
          ret (inr (true, temp))
        else if t <? from range then ret (inr (false, temp))
        else insert_loop fuel' rfl (LL.next c) f t
    end.

Definition rfl_insert_range (rfl : option nat) (f t : Z) : M state Z :=
  if debug && (t <? f) then ret E_RFL_INV_RANGE
  else
    let! c := ld_cell rfl in
    let! m := gets cells in
    let! r := insert_loop (size m) rfl (LL.next c) f t in
    match r with
    | inl e => ret e
    | inr (true, _) => ret RFL_SUCCESS
    | inr (false, temp) =>
        let! new_range := malloc (V := range) in
        if bool_decide (new_range = None) then ret E_RFL_NOMEM
        else
          let! _ := on_cells (LL.ll_insert_before temp (word_of new_range)) in
          do! store new_range (set_from f) in
          do! store new_range (set_to t) in
          ret RFL_SUCCESS
    end.

Definition rfl_free (rfl : option nat) (val : Z) : M state Z := rfl_insert_range rfl val val.

(** [-1UL] *)
Definition NONE : Z := WORD_MOD - 1.

Definition rfl_alloc (rfl : option nat) : M state Z :=
  let! c := ld_cell rfl in
  if bool_decide (LL.next c = rfl) then ret NONE
  else
    let! fc := ld_cell (LL.next c) in
    let rp := ptr_of (LL.data fc) in
    let! range := load rp in
    let retval := from range in
    do! (if from range =? to range then
           do! free rp in
           let! _ := on_cells (LL.ll_delete (LL.next c)) in
           ret tt
         else store rp (set_from (u32 (from range + 1)))) in
    ret retval.

(** The size of the range is stored through the second argument. *)
Definition rfl_alloc_first (rfl : option nat) : M state (Z * option Z) :=
  let! c := ld_cell rfl in
  if bool_decide (LL.next c = rfl) then ret (NONE, None)
  else
    let! fc := ld_cell (LL.next c) in
    let rp := ptr_of (LL.data fc) in
    let! range := load rp in
    let retval := from range in
    let size := u32 (to range - from range + 1) in
    do! free rp in
    let! _ := on_cells (LL.ll_delete (LL.next c)) in
    ret (retval, Some size).

(** The [while] loops of [rfl_alloc_range] and [rfl_find_free_range]. *)
Fixpoint alloc_range_loop (fuel : nat) (rfl cur : option nat) (sz : Z) : M state Z :=
  if bool_decide (cur = rfl) then ret 0
  else
    match fuel with
    | O => crash LoopBoundExceeded
    | S fuel' =>
        let! c := ld_cell cur in
        let rp := ptr_of (LL.data c) in
        let! range := load rp in
        let retval := from range in
        if u32 (from range + sz - 1) =? to range then
          do! free rp in
          let! _ := on_cells (LL.ll_delete cur) in
          ret retval
        else if u32 (from range + sz - 1) <? to range then
          do! store rp (set_from (u32 (from range + sz))) in
          ret retval
        else alloc_range_loop fuel' rfl (LL.next c) sz
    end.
Definition rfl_alloc_range (rfl : option nat) (sz : Z) : M state Z :=
  let! c := ld_cell rfl in
  if bool_decide (LL.next c = rfl) then ret 0
  else
    let! m := gets cells in
    alloc_range_loop (size m) rfl (LL.next c) sz.

Fixpoint find_range_loop (fuel : nat) (rfl cur : option nat) (sz : Z) : M state Z :=
  if bool_decide (cur = rfl) then ret 0
  else
    match fuel with
    | O => crash LoopBoundExceeded
    | S fuel' =>
        let! c := ld_cell cur in
        let! range := load (ptr_of (LL.data c)) in
        let retval := from range in
        if u32 (from range + sz - 1) =? to range then ret retval
        else if u32 (from range + sz - 1) <? to range then ret retval
        else find_range_loop fuel' rfl (LL.next c) sz
    end.
Definition rfl_find_free_range (rfl : option nat) (sz : Z) : M state Z :=
  let! c := ld_cell rfl in
  if bool_decide (LL.next c = rfl) then ret 0
  else
    let! m := gets cells in
    find_range_loop (size m) rfl (LL.next c) sz.

(** The body of the [do] loop of [rfl_alloc_specific_range] for the cell
    [cur]: the value returned, if any. *)
Definition specific_step (cur : option nat) (f sz : Z) : M state (option Z) :=
  let! c := ld_cell cur in
  let rp := ptr_of (LL.data c) in
  let! range := load rp in
  let retval := from range in
  if (from range <=? f) && (f <? to range) && (u32 (f + sz - 1) <=? to range) then
    if (from range =? f) && (u32 (from range + sz - 1) =? to range) then
      do! free rp in
      let! _ := on_cells (LL.ll_delete cur) in
      ret (Some retval)
    else if from range =? f then
      do! store rp (set_from (u32 (from range + sz))) in
      ret (Some retval)
    else if u32 (f + sz - 1) =? to range then
      do! store rp (set_to (u32 (to range - sz))) in
      ret (Some (u32 (to range - sz)))
    else
      let! new_range := malloc (V := Rfl.range) in
      if bool_decide (new_range = None) then ret (Some (u32 E_RFL_NOMEM))
      else
        let! _ := on_cells (LL.ll_insert_before cur (word_of new_range)) in
        do! store new_range (set_from (from range)) in
        do! store new_range (set_to (u32 (f - 1))) in
        do! store rp (set_from (u32 (f + sz))) in
        ret (Some f)
  else ret None.

(** [do ... while (cur != rfl)] *)
Fixpoint specific_loop (fuel : nat) (rfl cur : option nat) (f sz : Z) : M state Z :=
  let! r := specific_step cur f sz in
  match r with
  | Some v => ret v
  | None =>
      let! c := ld_cell cur in
      if bool_decide (LL.next c = rfl) then ret 0
      else
        match fuel with
        | O => crash LoopBoundExceeded
        | S fuel' => specific_loop fuel' rfl (LL.next c) f sz
        end
  end.
Definition rfl_alloc_specific_range (rfl : option nat) (f sz : Z) : M state Z :=
  let! c := ld_cell rfl in
  if bool_decide (LL.next c = rfl) then ret 0
  else
    let! m := gets cells in
    specific_loop (size m) rfl (LL.next c) f sz.

(** ** Specification *)

(** A range on the list: its cell, its address and its contents. *)
Definition entry (n : nat * nat * range) : nat * Z := (n.1.1, word_of (Some n.1.2)).
Definition raddr (n : nat * nat * range) : nat := n.1.2.
Definition rval (n : nat * nat * range) : range := n.2.

(** Sorted, disjoint and coalesced. *)
Definition apart (g1 g2 : range) : Prop := to g1 + 1 < from g2.
Definition in_words (g : range) : Prop := 0 <= from g <= to g /\ to g < WORD_MOD - 1.
Definition normal (gs : list range) : Prop := StronglySorted apart gs /\ Forall in_words gs.

(** The free list at [h] holds the ranges of [N]. *)
Record rep (s : state) (h : nat) (N : list (nat * nat * range)) : Prop := {
  rep_list : LL.is_list (cells s) h (entry <$> N);
  rep_head : LL.data <$> cells s !! h = Some 0;
  rep_ranges : forall n, n ∈ N -> ranges s !! raddr n = Some (rval n);
  rep_nodup : NoDup (raddr <$> N);
  rep_normal : normal (rval <$> N)
}.

Definition is_free (N : list (nat * nat * range)) (x : Z) : Prop :=
  exists n, n ∈ N /\ from (rval n) <= x <= to (rval n).

Lemma is_free_middle N1 n N2 x :
  is_free (N1 ++ n :: N2) x <-> is_free (N1 ++ N2) x \/ from (rval n) <= x <= to (rval n).
Proof.
  unfold is_free. split.
  - intros (y & Hy & Hx). rewrite elem_of_app, elem_of_cons in Hy. destruct Hy as [Hy|[->|Hy]]; [left| by right|left];
      exists y; rewrite elem_of_app; tauto.
  - intros [(y & Hy & Hx)|Hx].
    + exists y. rewrite elem_of_app in *. rewrite elem_of_cons. tauto.
    + exists n. rewrite elem_of_app, elem_of_cons. tauto.
Qed.

Lemma is_free_cons n N x : is_free (n :: N) x <-> is_free N x \/ from (rval n) <= x <= to (rval n).
Proof. apply (is_free_middle []). Qed.

Lemma ptr_of_word r : ptr_of (word_of (Some r)) = Some r.
Proof. unfold ptr_of, word_of. destruct (Z.leb_spec (Z.of_nat r + 1) 0); [lia|]. f_equal. lia. Qed.

Lemma normal_middle gs1 g gs2 :
  normal (gs1 ++ g :: gs2) <->
  normal (gs1 ++ gs2) /\ Forall (fun x => apart x g) gs1 /\ Forall (apart g) gs2 /\ in_words g.
Proof.
  unfold normal. rewrite StronglySorted_middle, !Forall_app, Forall_cons. tauto.
Qed.

Lemma apart_trans g1 g2 g3 : apart g1 g2 -> from g2 <= to g2 -> apart g2 g3 -> apart g1 g3.
Proof. unfold apart. lia. Qed.

Lemma wp_ld_cell s a c (Q : LL.ll -> state -> Prop) :
  cells s !! a = Some c -> Q c s -> wp (ld_cell (Some a)) Q s.
Proof.
  intros Ha HQ. unfold ld_cell, on_cells. apply wp_zoom. eapply wp_load; [exact Ha|]. by destruct s.
Qed.
Lemma wp_ld_range s a g (Q : range -> state -> Prop) : ranges s !! a = Some g -> Q g s -> wp (load (Some a)) Q s.
Proof. intros. by eapply (wp_load (HH := state_ranges)). Qed.
Lemma wp_st_range s a g f (Q : unit -> state -> Prop) :
  ranges s !! a = Some g -> Q tt (St (cells s) (<[a := f g]> (ranges s))) -> wp (store (Some a) f) Q s.
Proof. intros. by eapply (wp_store (HH := state_ranges)). Qed.
Lemma wp_free_range s a g (Q : unit -> state -> Prop) :
  ranges s !! a = Some g -> Q tt (St (cells s) (delete a (ranges s))) -> wp (free (V := range) (Some a)) Q s.
Proof. intros. by eapply (wp_free (HH := state_ranges)). Qed.
Lemma wp_malloc_range s (Q : option nat -> state -> Prop) :
  (malloc_at (ranges s) = None -> Q None s) -> (forall a, ranges s !! a = None -> Q (Some a) (St (cells s) (<[a := malloc_junk a]> (ranges s)))) ->
  wp (malloc (V := range)) Q s.
Proof. intros. by apply (wp_malloc (HH := state_ranges)). Qed.

(** *** Changing one range *)

Lemma rep_entry s h N1 c r g N2 :
  rep s h (N1 ++ (c, r, g) :: N2) ->
  (exists cc, cells s !! c = Some cc /\ LL.data cc = word_of (Some r) /\ LL.next cc = Some (LL.after h (entry <$> N2))) /\
  ranges s !! r = Some g.
Proof.
  intros [Hl _ Hr _ _]. rewrite fmap_app in Hl. split.
  - eapply LL.is_list_cell. exact Hl.
  - apply (Hr (c, r, g)). set_solver.
Qed.

Lemma rep_not_head s h N1 c r g N2 : rep s h (N1 ++ (c, r, g) :: N2) -> c <> h.
Proof.
  intros [Hl _ _ _ _] ->. destruct Hl as [_ Hnd _]. apply NoDup_cons in Hnd as [Hnd _]. apply Hnd.
  unfold LL.addrs. rewrite !fmap_app. apply elem_of_app. right. rewrite !fmap_cons. apply elem_of_cons. by left.
Qed.

(** The loops have enough fuel. *)
Lemma rep_fuel s h N : rep s h N -> (length N <= size (cells s))%nat.
Proof.
  intros [Hl _ _ _ _]. transitivity (length (LL.addrs (entry <$> N))); [unfold LL.addrs; by rewrite !length_fmap|].
  pose proof Hl as [_ Hnd _]. apply NoDup_cons in Hnd as [_ Hnd]. apply nodup_length_size; [done|].
  intros x Hx. eapply LL.is_list_dom; [exact Hl|by apply elem_of_cons; right].
Qed.

Lemma rep_update s h N1 c r g N2 g' :
  rep s h (N1 ++ (c, r, g) :: N2) -> normal ((rval <$> N1) ++ g' :: (rval <$> N2)) ->
  rep (St (cells s) (<[r := g']> (ranges s))) h (N1 ++ (c, r, g') :: N2).
Proof.
  intros [Hl Hh Hr Hnd Hn] Hn'. rewrite !fmap_app in *. simpl in *.
  assert (Hfresh : r ∉ (raddr <$> N1) ++ (raddr <$> N2)).
  { rewrite <-Permutation_middle in Hnd. by apply NoDup_cons in Hnd as [? _]. }
  constructor; simpl; rewrite ?fmap_app; simpl; try done.
  intros n Hin. rewrite elem_of_app, elem_of_cons in Hin. destruct (decide (raddr n = r)) as [He|Hne].
  - destruct Hin as [Hin|[->|Hin]]; [|by rewrite lookup_insert_eq|];
      exfalso; apply Hfresh; rewrite <-He, elem_of_app, !list_elem_of_fmap; eauto.
  - rewrite lookup_insert_ne by done. apply Hr. rewrite elem_of_app, elem_of_cons.
    destruct Hin as [?|[->|?]]; [tauto| |tauto]. done.
Qed.

Lemma rep_delete s s' h N1 c r g N2 :
  rep s h (N1 ++ (c, r, g) :: N2) -> ranges s' = delete r (ranges s) ->
  LL.after_op h (cells s) (entry <$> (N1 ++ (c, r, g) :: N2)) (cells s') (entry <$> (N1 ++ N2)) ->
  rep s' h (N1 ++ N2).
Proof.
  intros [Hl Hh Hr Hnd Hn] Hrs [Hl' Hd _]. rewrite !fmap_app in *. simpl in *.
  rewrite <-Permutation_middle in Hnd. apply NoDup_cons in Hnd as [Hfresh Hnd].
  constructor; rewrite ?fmap_app; try done.
  - by rewrite Hd.
  - intros n Hin. rewrite Hrs, lookup_delete_ne.
    + apply Hr. rewrite elem_of_app, elem_of_cons in *. tauto.
    + intros He. apply Hfresh. change (raddr (c, r, g)) with r. rewrite He, elem_of_app, !list_elem_of_fmap.
      rewrite elem_of_app in Hin. destruct Hin; eauto.
  - apply normal_middle in Hn. tauto.
Qed.

(** [free(range); ll_delete(cur);] *)
Lemma wp_drop s h N1 c r g N2 (Q : state -> Prop) :
  rep s h (N1 ++ (c, r, g) :: N2) -> (forall s', rep s' h (N1 ++ N2) -> Q s') ->
  wp (free (V := range) (Some r)) (fun _ s1 => wp (on_cells (LL.ll_delete (Some c))) (fun _ s' => Q s') s1) s.
Proof.
  intros Hr HQ. destruct (rep_entry _ _ _ _ _ _ _ Hr) as [_ Hg]. eapply wp_free_range; [done|].
  unfold on_cells. apply wp_zoom. simpl. pose proof Hr as [Hl _ _ _ _]. rewrite fmap_app in Hl.
  eapply wp_mono; [by apply (LL.delete_op _ h (entry <$> N1) c (word_of (Some r)) (entry <$> N2))|].
  intros p m' Hao. apply HQ. eapply rep_delete; [done|done|]. simpl. by rewrite !fmap_app.
Qed.

(** Ranges are ordered by their positions. *)
Lemma normal_pairs N n1 n2 :
  normal (rval <$> N) -> n1 ∈ N -> n2 ∈ N ->
  rval n1 = rval n2 \/ apart (rval n1) (rval n2) \/ apart (rval n2) (rval n1).
Proof.
  intros Hn H1 H2. apply list_elem_of_split in H1 as (N1 & N2 & ->). rewrite fmap_app in Hn. simpl in Hn.
  apply normal_middle in Hn as (_ & Hb & Ha & _). rewrite elem_of_app, elem_of_cons in H2.
  rewrite !Forall_fmap, !Forall_forall in *. destruct H2 as [H2|[->|H2]]; [right; right; by apply Hb|by left|].
  right. left. by apply Ha.
Qed.

Lemma in_words_of N n : normal (rval <$> N) -> n ∈ N -> in_words (rval n).
Proof. intros [_ Hw] Hin. rewrite Forall_fmap, Forall_forall in Hw. by apply Hw. Qed.

(** A run of free values lies in one range. *)
Lemma run_in_range N p sz :
  normal (rval <$> N) -> 0 < sz -> (forall x, p <= x < p + sz -> is_free N x) ->
  exists n, n ∈ N /\ from (rval n) <= p /\ p + sz - 1 <= to (rval n).
Proof.
  intros Hn Hsz Hrun. destruct (Hrun p) as (n & Hin & Hp); [lia|]. exists n. split_and!; [done|lia|].
  destruct (Z.le_gt_cases (p + sz - 1) (to (rval n))) as [|Hgt]; [done|]. exfalso.
  destruct (Hrun (to (rval n) + 1)) as (n' & Hin' & Hx); [lia|].
  pose proof (in_words_of _ _ Hn Hin) as [? _]. pose proof (in_words_of _ _ Hn Hin') as [? _].
  destruct (normal_pairs _ _ _ Hn Hin Hin') as [He|[Ha|Ha]]; unfold apart in *; [rewrite He in *|..]; lia.
Qed.

Lemma rfl_alloc_spec s h N :
  rep s h N ->
  wp (rfl_alloc (Some h)) (fun v s' => exists N', rep s' h N' /\
    ((N = [] /\ v = NONE /\ s' = s) \/
     (is_free N v /\ (forall x, is_free N x -> v <= x) /\ forall x, is_free N' x <-> is_free N x /\ x <> v))) s.
Proof.
  intros Hr. pose proof Hr as [Hl _ _ _ Hn]. destruct (LL.is_list_head _ _ _ Hl) as (hc & Hhc & Hnx).
  unfold rfl_alloc. wp_step. eapply wp_ld_cell; [done|]. rewrite Hnx. destruct N as [|[[c r] g] N]; simpl.
  - rewrite bool_decide_eq_true_2 by done. wp_steps. exists []. split; [done|]. by left.
  - pose proof (rep_not_head _ _ [] _ _ _ _ Hr) as Hch. rewrite bool_decide_eq_false_2 by (intros [= Heq]; done).
    destruct (rep_entry s h [] c r g N Hr) as ((cc & Hcc & Hd & _) & Hg).
    change (LL.after h (entry (c, r, g) :: list_fmap _ _ entry N)) with c.
    wp_step. eapply wp_ld_cell; [done|]. rewrite Hd, ptr_of_word. wp_step. eapply wp_ld_range; [done|]. wp_step.
    pose proof (in_words_of _ (c, r, g) Hn ltac:(set_solver)) as Hw. unfold rval in Hw. simpl in Hw.
    assert (Hn' : normal ([] ++ g :: (rval <$> N))) by exact Hn.
    apply normal_middle in Hn' as (Hnr & _ & Hap & _). simpl in Hnr.
    rewrite Forall_fmap, Forall_forall in Hap.
    assert (Hmin : forall x, is_free ((c, r, g) :: N) x -> from g <= x).
    { intros x (n & Hin & Hx). apply elem_of_cons in Hin as [->|Hin]; [unfold rval in Hx; simpl in Hx; lia|].
      specialize (Hap n Hin). unfold apart in Hap. destruct Hw. simpl in *. lia. }
    destruct (Z.eqb_spec (from g) (to g)) as [He|He].
    + wp_step. eapply wp_mono; [apply (wp_drop s h [] c r g N (fun s' => rep s' h N)); done|]. simpl.
      intros _ s1 Hs1. wp_step. eapply wp_mono; [exact Hs1|]. simpl. intros _ s' Hs'. wp_steps. exists N.
      split; [done|]. right. split_and!; [exists (c, r, g); split; [set_solver|unfold rval; simpl; lia]|done|].
      intros x. rewrite is_free_cons. unfold rval. simpl. split.
      * intros Hx. split; [by left|]. destruct Hx as (n & Hin & Hx). specialize (Hap n Hin). unfold apart, rval in *; simpl in *; lia.
      * intros [[?|?] ?]; [done|lia].
    + destruct Hw as [Hw1 Hw2]. rewrite u32_word by (unfold is_word; lia). eapply wp_st_range; [done|]. wp_steps.
      exists ((c, r, Range (from g + 1) (to g)) :: N). split.
      * apply (rep_update s h [] c r g N); [done|]. apply (normal_middle []). split_and!; try done.
        -- rewrite Forall_fmap, Forall_forall. intros n Hin. specialize (Hap n Hin). unfold apart, rval in *; simpl in *; lia.
        -- split; simpl; lia.
      * right. split_and!; [exists (c, r, g); split; [set_solver|unfold rval; simpl; lia]|done|].
        intros x. rewrite !is_free_cons. unfold rval. simpl. split.
        -- intros [(n & Hin & Hx)|Hx]; [split; [left; by exists n|]|split; [right|]; lia].
           specialize (Hap n Hin). unfold apart, rval in *; simpl in *; lia.
        -- intros [[?|?] ?]; [by left|right; lia].
Qed.

(** *** Insertion *)

(** The range [f, t] overlaps no free range. *)
Definition outside (g : range) (f t : Z) : Prop := to g < f \/ t < from g.

(** The state after the values from [f] to [t] have been added. *)
Definition added (s' : state) (h : nat) (N : list (nat * nat * range)) (f t : Z) : Prop :=
  exists N', rep s' h N' /\ forall x, is_free N' x <-> is_free N x \/ f <= x <= t.

(** Extending the range at a cell to [f', t'], where the new values are those
    from [f] to [t]. *)
Lemma added_update s h N1 c r g N2 f t g' :
  rep s h (N1 ++ (c, r, g) :: N2) -> normal ((rval <$> N1) ++ g' :: (rval <$> N2)) ->
  (forall x, from g' <= x <= to g' <-> from g <= x <= to g \/ f <= x <= t) ->
  added (St (cells s) (<[r := g']> (ranges s))) h (N1 ++ (c, r, g) :: N2) f t.
Proof.
  intros Hr Hn Hx. exists (N1 ++ (c, r, g') :: N2). split; [by eapply rep_update|].
  intros x. rewrite !is_free_middle. unfold rval. simpl. rewrite Hx. tauto.
Qed.

Lemma normal_extend gs1 g gs2 g' :
  normal (gs1 ++ g :: gs2) -> in_words g' ->
  Forall (fun x => apart x g') gs1 -> Forall (apart g') gs2 -> normal (gs1 ++ g' :: gs2).
Proof. rewrite !normal_middle. tauto. Qed.

Lemma extend_to_spec s h N1 c r g N2 f t :
  rep s h (N1 ++ (c, r, g) :: N2) -> to g = f - 1 -> f <= t -> t < WORD_MOD - 1 -> Forall (fun n => t < from (rval n)) N2 ->
  wp (extend_to (Some (LL.after h (entry <$> N2))) (Some r) t)
    (fun _ s' => added s' h (N1 ++ (c, r, g) :: N2) f t) s.
Proof.
  intros Hr Hg Hft Ht Haft. unfold extend_to. pose proof Hr as [_ Hh _ Hnd Hn]. rewrite fmap_app in Hn. simpl in Hn.
  pose proof Hn as (_ & Hb & _ & [Hw1 Hw2])%normal_middle. change (rval (c, r, g)) with g in *.
  destruct (rep_entry _ _ _ _ _ _ _ Hr) as [_ Hrg].
  destruct N2 as [|[[c2 r2] g2] N2].
  - change (LL.after h (entry <$> [])) with h. destruct (cells s !! h) as [hc|] eqn:Ehc; [|done]. simpl in Hh.
    wp_step. eapply wp_ld_cell; [done|]. injection Hh as ->. cbv zeta. wp_step. eapply wp_st_range; [done|]. simpl. wp_steps.
    apply added_update; [done| |unfold set_to; simpl; intros x; lia].
    eapply normal_extend; [done|split; unfold set_to; simpl; lia| |constructor].
    eapply Forall_impl; [exact Hb|]. unfold apart. simpl. lia.
  - change (LL.after h (entry <$> (c2, r2, g2) :: N2)) with c2.
    destruct (rep_entry s h (N1 ++ [(c, r, g)]) c2 r2 g2 N2) as ((cc & Hcc & Hd & _) & Hrg2); [by rewrite <-app_assoc|].
    wp_step. eapply wp_ld_cell; [done|]. rewrite Hd, ptr_of_word. cbv zeta. wp_step. eapply wp_st_range; [done|]. simpl.
    assert (Hne : r <> r2).
    { rewrite fmap_app in Hnd. simpl in Hnd. apply NoDup_app in Hnd as (_ & _ & Hnd). apply NoDup_cons in Hnd as [Hnd _]. set_solver. }
    wp_step. eapply wp_ld_range; [apply lookup_insert_eq|]. wp_step.
    eapply wp_ld_range; [simpl; by rewrite lookup_insert_ne|]. simpl.
    apply Forall_cons in Haft as [Ht2 Haft]. change (rval (c2, r2, g2)) with g2 in *.
    rewrite u32_word by (unfold is_word; lia).
    assert (Hn2 : normal (((rval <$> N1) ++ [g]) ++ g2 :: (rval <$> N2))) by (by rewrite <-app_assoc).
    apply normal_middle in Hn2 as (Hn2 & Hb2 & Ha2 & [Hw21 Hw22]). rewrite <-app_assoc in Hn2. simpl in Hn2.
    destruct (Z.eqb_spec (t + 1) (from g2)) as [He|He].
    + wp_step. eapply wp_st_range; [apply lookup_insert_eq|]. simpl. rewrite insert_insert_eq. wp_step.
      assert (Hmid : normal ((rval <$> N1) ++ Range (from g) (to g2) :: (rval <$> N2))).
      { eapply normal_extend; [exact Hn2|split; simpl; lia| |].
        - eapply Forall_impl; [exact Hb|]. unfold apart. simpl. lia.
        - eapply Forall_impl; [exact Ha2|]. unfold apart. simpl. lia. }
      eapply wp_free_range; [simpl; by rewrite lookup_insert_ne|]. wp_step. unfold on_cells. apply wp_zoom. simpl.
      assert (Hrr : rep s h ((N1 ++ [(c, r, g)]) ++ (c2, r2, g2) :: N2)) by (by rewrite <-app_assoc).
      pose proof Hrr as [Hl _ _ _ _]. rewrite fmap_app in Hl.
      eapply wp_mono; [by apply (LL.delete_op _ h (entry <$> N1 ++ [(c, r, g)]) c2 (word_of (Some r2)) (entry <$> N2))|]. simpl.
      intros _ m' Hao. wp_steps. unfold set_cells. simpl. rewrite delete_insert_ne by done.
      pose proof (rep_delete s (St m' (delete r2 (ranges s))) h (N1 ++ [(c, r, g)]) c2 r2 g2 N2 Hrr eq_refl) as Hr2.
      simpl in Hr2. rewrite (fmap_app _ _ (_ :: N2)), (fmap_app _ _ N2) in Hr2. specialize (Hr2 Hao). rewrite <-app_assoc in Hr2. simpl in Hr2.
      exists (N1 ++ (c, r, Range (from g) (to g2)) :: N2). split; [by apply (rep_update _ _ _ _ _ _ _ _ Hr2)|].
      intros x. rewrite !is_free_middle. unfold rval. simpl.
      assert (from g <= x <= to g2 <-> from g2 <= x <= to g2 \/ from g <= x <= to g \/ f <= x <= t) by lia. tauto.
    + wp_steps. apply added_update; [done| |unfold set_to; simpl; intros x; lia].
      eapply normal_extend; [done|split; unfold set_to; simpl; lia| |].
      * eapply Forall_impl; [exact Hb|]. unfold apart. simpl. lia.
      * simpl. constructor; [unfold apart; simpl; lia|]. eapply Forall_impl; [exact Ha2|].
        unfold apart. simpl. lia.
Qed.

Lemma insert_loop_spec s h N f t fuel : forall N1 N2,
  N = N1 ++ N2 -> rep s h N -> 0 <= f <= t -> t < WORD_MOD - 1 -> (length N2 <= fuel)%nat ->
  Forall (fun n => outside (rval n) f t) N -> Forall (fun n => to (rval n) + 1 < f) N1 ->
  wp (insert_loop fuel (Some h) (Some (LL.after h (entry <$> N2))) f t) (fun r s' =>
    match r with
    | inl _ => False
    | inr (true, _) => added s' h N f t
    | inr (false, temp) => s' = s /\ exists M1 M2, N = M1 ++ M2 /\ temp = Some (LL.after h (entry <$> M2)) /\
        Forall (fun n => to (rval n) + 1 < f) M1 /\ Forall (fun n => t + 1 < from (rval n)) M2
    end) s.
Proof.
  induction fuel as [|fuel IH]; intros N1 N2 -> Hr Hft Ht Hlen Hout Hbef; (destruct N2 as [|[[c r] g] N2]; simpl in Hlen; [|try lia]).
  1,2: simpl; rewrite bool_decide_eq_true_2 by done; wp_steps; (split; [done|]); by exists N1, [].
  change (LL.after h (entry <$> (c, r, g) :: N2)) with c.
  destruct (rep_entry _ _ _ _ _ _ _ Hr) as ((cc & Hcc & Hd & Hnx) & Hg).
  pose proof Hr as [Hl _ _ _ Hn]. rewrite fmap_app in Hn. simpl in Hn. change (rval (c, r, g)) with g in *.
  pose proof Hn as (_ & Hb & Ha & [Hw1 Hw2])%normal_middle.
  pose proof (rep_not_head _ _ _ _ _ _ _ Hr) as Hch.
  simpl. rewrite bool_decide_eq_false_2 by congruence. wp_step. eapply wp_ld_cell; [done|]. rewrite Hd, ptr_of_word.
  wp_step. eapply wp_ld_range; [done|].
  pose proof Hout as Hout'. apply Forall_app in Hout' as [_ Hout']. apply Forall_cons in Hout' as [Ho Ho2].
  change (rval (c, r, g)) with g in Ho. unfold outside in Ho.
  replace (debug && _) with false.
  2:{ symmetry. destruct debug; [|done]. simpl. apply orb_false_iff. rewrite !andb_false_iff, !Z.leb_gt. lia. }
  rewrite (u32_word (t + 1)) by (unfold is_word; lia).
  assert (Hfm : (to g =? u32 (f - 1)) = (to g =? f - 1)).
  { destruct (Z.eq_dec f 0) as [->|]; [|by rewrite u32_word by (unfold is_word; lia)].
    change (u32 (0 - 1)) with (WORD_MOD - 1). rewrite (proj2 (Z.eqb_neq _ _)) by lia. symmetry. apply Z.eqb_neq. lia. }
  rewrite Hfm. destruct (Z.eqb_spec (from g) (t + 1)) as [E1|E1]; [|destruct (Z.eqb_spec (to g) (f - 1)) as [E2|E2]].
  - wp_step. eapply wp_st_range; [done|]. wp_steps.
    apply added_update; [done| |unfold set_from; simpl; intros x; lia].
    eapply normal_extend; [done|split; unfold set_from; simpl; lia| |].
    + rewrite Forall_fmap. eapply Forall_impl; [exact Hbef|]. intros n. unfold apart. simpl. lia.
    + eapply Forall_impl; [exact Ha|]. unfold apart. simpl. lia.
  - wp_step. rewrite Hnx. eapply wp_mono; [apply (extend_to_spec s h N1 c r g N2 f t); try (done || lia)|].
    + apply Forall_forall. intros n Hin. rewrite Forall_forall in Ho2. specialize (Ho2 n Hin).
      rewrite Forall_fmap, Forall_forall in Ha. specialize (Ha n Hin).
      destruct (in_words_of _ n (rep_normal _ _ _ Hr)) as [? _]; [rewrite elem_of_app, elem_of_cons; tauto|].
      unfold outside, apart in *. simpl in Ha. lia.
    + simpl. intros _ s' Hs'. by wp_steps.
  - destruct (Z.ltb_spec t (from g)) as [E3|E3].
    + wp_steps. split; [done|]. exists N1, ((c, r, g) :: N2). split_and!; [done|done|done|].
      constructor; [unfold rval; simpl; lia|]. rewrite Forall_fmap in Ha. eapply Forall_impl; [exact Ha|].
      intros n. unfold apart. simpl. lia.
    + rewrite Hnx. rewrite (app_assoc N1 [(c, r, g)] N2 : N1 ++ (c, r, g) :: N2 = _) in *.
      apply (IH (N1 ++ [(c, r, g)]) N2); try done; [lia|]. apply Forall_app. split; [done|]. constructor; [unfold rval; simpl; lia|done].
Qed.

(** A new range between the parts [M1] and [M2]. *)
Lemma rep_insert s h M1 M2 m' c a g rs :
  rep s h (M1 ++ M2) -> ranges s !! a = None -> normal ((rval <$> M1) ++ g :: (rval <$> M2)) ->
  LL.after_op h (cells s) ((entry <$> M1) ++ (entry <$> M2)) m' ((entry <$> M1) ++ (c, word_of (Some a)) :: (entry <$> M2)) ->
  rs !! a = Some g -> (forall x, x <> a -> rs !! x = ranges s !! x) ->
  rep (St m' rs) h (M1 ++ (c, a, g) :: M2).
Proof.
  intros [Hl Hh Hr Hnd Hn] Ha Hn' [Hl' Hd _] Hrs Hf.
  assert (Hne : forall n, n ∈ M1 ++ M2 -> raddr n <> a) by (intros n Hin He; rewrite <-He, Hr in Ha; done).
  constructor; simpl; rewrite ?fmap_app; try done.
  - by rewrite Hd.
  - intros n Hin. rewrite elem_of_app, elem_of_cons in Hin. destruct Hin as [Hin|[->|Hin]]; [|done|];
      (rewrite Hf; [apply Hr|apply Hne]; rewrite elem_of_app; tauto).
  - rewrite fmap_app in Hnd. rewrite fmap_cons, <-Permutation_middle. apply NoDup_cons. split; [|done].
    rewrite elem_of_app, !list_elem_of_fmap. change (raddr (c, a, g)) with a.
    intros [(n & He & Hin)|(n & He & Hin)]; apply (Hne n); rewrite ?elem_of_app; (done || tauto).
Qed.

(** Memory for a range that is in no list. *)
Lemma rep_other s h N m' rs :
  rep s h N -> m' = cells s -> (forall x, is_Some (ranges s !! x) -> rs !! x = ranges s !! x) -> rep (St m' rs) h N.
Proof.
  intros [Hl Hh Hr Hnd Hn] -> Hf. constructor; simpl; try done. intros n Hin. rewrite Hf; [by apply Hr|]. by rewrite Hr.
Qed.

Lemma rfl_insert_range_spec s h N f t :
  rep s h N -> 0 <= f <= t -> t < WORD_MOD - 1 -> Forall (fun n => outside (rval n) f t) N ->
  wp (rfl_insert_range (Some h) f t) (fun rc s' =>
    (rc = E_RFL_NOMEM /\ s' = s /\ malloc_at (ranges s) = None) \/
    (rc = RFL_SUCCESS /\ added s' h N f t) \/
    (rc = RFL_SUCCESS /\ malloc_at (cells s) = None /\ rep s' h N)) s.
Proof.
  intros Hr Hft Ht Hout. pose proof Hr as [Hl _ _ _ Hn]. destruct (LL.is_list_head _ _ _ Hl) as (hc & Hhc & Hnx).
  unfold rfl_insert_range. rewrite (proj2 (Z.ltb_ge t f)) by lia. rewrite andb_false_r.
  wp_step. eapply wp_ld_cell; [done|]. rewrite Hnx. wp_step. wp_step. wp_step.
  eapply wp_mono; [apply (insert_loop_spec s h N f t _ [] N); try done|].
  - by eapply rep_fuel.
  - simpl. intros [e|[[] temp]] s'; [done|intros Hs'; wp_steps; by right; left|].
    intros (-> & M1 & M2 & -> & -> & Hb & Ha). wp_step. apply wp_malloc_range; [wp_steps; by left|].
    intros a Hfresh. simpl. wp_step. unfold on_cells. apply wp_zoom. simpl. rewrite fmap_app in Hl.
    eapply wp_mono; [by apply (LL.insert_before_op _ h (entry <$> M1) (entry <$> M2))|].
    intros rr m' [(_ & -> & Hno)|(c & -> & Hao & _)].
    { wp_step. eapply wp_st_range; [apply lookup_insert_eq|]. wp_step. eapply wp_st_range; [apply lookup_insert_eq|].
      wp_steps. right; right. split_and!; [done|done|]. eapply rep_other; [done|done|].
      intros x [v Hx]. simpl. by rewrite !lookup_insert_ne by congruence. }
    wp_step. eapply wp_st_range; [apply lookup_insert_eq|]. wp_step. eapply wp_st_range; [apply lookup_insert_eq|].
    wp_steps. right; left. split; [done|]. exists (M1 ++ (c, a, Range f t) :: M2). split.
    + eapply rep_insert; [done|done| |done|apply lookup_insert_eq|intros; simpl; by rewrite !lookup_insert_ne].
      rewrite fmap_app in Hn. apply normal_middle. rewrite !Forall_fmap. split_and!; [done| | |split; simpl; lia].
      * eapply Forall_impl; [exact Hb|]. intros n. unfold apart. simpl. lia.
      * eapply Forall_impl; [exact Ha|]. intros n. unfold apart. simpl. lia.
    + intros x. by rewrite is_free_middle.
Qed.

(** *** Allocation of a run *)

(** What [rfl_alloc_range] does: the first run of [sz] free values is taken,
    or there is none. *)
Definition run_taken (s : state) (h : nat) (N : list (nat * nat * range)) (sz v : Z) (s' : state) : Prop :=
  (v = 0 /\ s' = s /\ forall p, ~ (forall x, p <= x < p + sz -> is_free N x)) \/
  (exists N', rep s' h N' /\ (forall x, v <= x < v + sz -> is_free N x) /\
     forall x, is_free N' x <-> is_free N x /\ ~ v <= x < v + sz).

(** A value outside the range at a cell is in none of the others' way. *)
Lemma free_apart N1 g N2 x :
  normal ((rval <$> N1) ++ g :: (rval <$> N2)) -> is_free (N1 ++ N2) x -> ~ from g <= x <= to g.
Proof.
  intros (_ & Hb & Ha & _)%normal_middle (n & Hin & Hx). rewrite !Forall_fmap, !Forall_forall in *.
  rewrite elem_of_app in Hin. destruct Hin as [Hin|Hin]; [specialize (Hb n Hin)|specialize (Ha n Hin)];
    unfold apart in *; simpl in *; lia.
Qed.

Lemma alloc_range_loop_spec s h N sz fuel : forall N1 N2,
  N = N1 ++ N2 -> rep s h N -> 0 < sz -> Forall (fun n => to (rval n) + sz < WORD_MOD) N -> (length N2 <= fuel)%nat ->
  Forall (fun n => to (rval n) < from (rval n) + sz - 1) N1 ->
  wp (alloc_range_loop fuel (Some h) (Some (LL.after h (entry <$> N2))) sz) (fun v s' => run_taken s h N sz v s') s.
Proof.
  induction fuel as [|fuel IH]; intros N1 N2 -> Hr Hsz Hov Hlen Hsm; (destruct N2 as [|[[c r] g] N2]; simpl in Hlen; [|try lia]).
  1,2: simpl; rewrite bool_decide_eq_true_2 by done; wp_steps; left; (split_and!; [done|done|]); intros p Hrun;
    rewrite app_nil_r in *; destruct (run_in_range N1 p sz (rep_normal _ _ _ Hr) Hsz Hrun) as (n & Hin & ? & ?);
    rewrite Forall_forall in Hsm; specialize (Hsm n Hin); simpl in Hsm; lia.
  change (LL.after h (entry <$> (c, r, g) :: N2)) with c.
  destruct (rep_entry _ _ _ _ _ _ _ Hr) as ((cc & Hcc & Hd & Hnx) & Hg).
  pose proof Hr as [_ _ _ _ Hn]. rewrite fmap_app in Hn. rewrite fmap_cons in Hn. change (rval (c, r, g)) with g in *.
  pose proof Hn as (_ & Hb & Ha & [Hw1 Hw2])%normal_middle. pose proof (rep_not_head _ _ _ _ _ _ _ Hr) as Hch.
  assert (Hovg : to g + sz < WORD_MOD) by (rewrite Forall_app, Forall_cons in Hov; apply Hov).
  simpl. rewrite bool_decide_eq_false_2 by congruence. wp_step. eapply wp_ld_cell; [done|]. rewrite Hd, ptr_of_word.
  wp_step. eapply wp_ld_range; [done|]. rewrite (u32_word (from g + sz - 1)) by (unfold is_word; lia).
  destruct (Z.eqb_spec (from g + sz - 1) (to g)) as [E1|E1]; [|destruct (Z.ltb_spec (from g + sz - 1) (to g)) as [E2|E2]].
  - wp_step. eapply wp_mono; [apply (wp_drop s h N1 c r g N2 (fun s' => rep s' h (N1 ++ N2))); done|]. simpl.
    intros _ s1 Hs1. wp_step. eapply wp_mono; [exact Hs1|]. simpl. intros _ s' Hs'. wp_steps. right.
    exists (N1 ++ N2). split_and!; [done|intros x Hx; rewrite is_free_middle; right; unfold rval; simpl; lia|].
    intros x. rewrite is_free_middle. unfold rval at 1 2. simpl. pose proof (free_apart N1 g N2 x Hn).
    assert (from g <= x < from g + sz <-> from g <= x <= to g) by lia. tauto.
  - wp_step. rewrite u32_word by (unfold is_word; lia). eapply wp_st_range; [done|]. wp_steps. right.
    exists (N1 ++ (c, r, Range (from g + sz) (to g)) :: N2). split_and!.
    + eapply rep_update; [done|]. eapply normal_extend; [done|split; simpl; lia| |].
      * eapply Forall_impl; [exact Hb|]. unfold apart. simpl. lia.
      * eapply Forall_impl; [exact Ha|]. unfold apart. simpl. lia.
    + intros x Hx. rewrite is_free_middle. right. unfold rval. simpl. lia.
    + intros x. rewrite !is_free_middle. unfold rval at 1 2 3 4. simpl. pose proof (free_apart N1 g N2 x Hn).
      assert (from g + sz <= x <= to g <-> from g <= x <= to g /\ ~ from g <= x < from g + sz) by lia.
      assert (from g <= x < from g + sz -> from g <= x <= to g) by lia. tauto.
  - rewrite Hnx. rewrite (app_assoc N1 [(c, r, g)] N2 : N1 ++ (c, r, g) :: N2 = _) in *.
    apply (IH (N1 ++ [(c, r, g)]) N2); try done; [lia|]. apply Forall_app. split; [done|].
    constructor; [unfold rval; simpl; lia|done].
Qed.

Lemma rfl_alloc_range_spec s h N sz :
  rep s h N -> 0 < sz -> Forall (fun n => to (rval n) + sz < WORD_MOD) N ->
  wp (rfl_alloc_range (Some h) sz) (fun v s' => run_taken s h N sz v s') s.
Proof.
  intros Hr Hsz Hov. pose proof Hr as [Hl _ _ _ _]. destruct (LL.is_list_head _ _ _ Hl) as (hc & Hhc & Hnx).
  unfold rfl_alloc_range. wp_step. eapply wp_ld_cell; [done|]. rewrite Hnx. case_bool_decide as Heq.
  - wp_steps. left. split_and!; [done|done|]. intros p Hrun.
    destruct (run_in_range N p sz (rep_normal _ _ _ Hr) Hsz Hrun) as (n & Hin & _).
    destruct N as [|[[c r] g] N]; [by apply not_elem_of_nil in Hin|]. injection Heq as Heq.
    by apply (rep_not_head s h [] c r g N) in Hr.
  - wp_step. wp_step. apply (alloc_range_loop_spec s h N sz _ [] N); try done.
    by eapply rep_fuel.
Qed.

End operations.
End Rfl.

(** ** Properties *)

Section rfl_properties.
Import Rfl.
Context `{ML : !Malloc LL.ll} `{MR : !Malloc range}.

(** C34: inserting a range that overlaps no free one adds exactly its values
    to the free ones, keeping the list sorted and coalesced, with or without
    the debugging checks; when there is no memory for a range it reports this
    and changes nothing; when there is none for a cell of the list, it may
    report success with the free values as they were.  [rfl_alloc] takes the
    smallest free value and leaves the others, and yields -1 exactly when
    there is none.  [rfl_alloc_range], for a size that does not wrap when
    added to a free value, takes a run of free values of this size and leaves
    the others; when it gives up, returning 0, there is no run of that
    size. *)
Theorem rfl_operations_correct s h N :
  rep s h N ->
  (forall debug f t, 0 <= f <= t -> t < WORD_MOD - 1 -> Forall (fun n => outside (rval n) f t) N ->
   wp (rfl_insert_range debug (Some h) f t) (fun rc s' =>
     (rc = E_RFL_NOMEM /\ s' = s /\ malloc_at (ranges s) = None) \/
     (rc = RFL_SUCCESS /\ exists N', rep s' h N' /\ forall x, is_free N' x <-> is_free N x \/ f <= x <= t) \/
     (rc = RFL_SUCCESS /\ malloc_at (cells s) = None /\ rep s' h N)) s) /\
  wp (rfl_alloc (Some h)) (fun v s' => exists N', rep s' h N' /\
    ((N = [] /\ v = NONE /\ s' = s) \/
     (is_free N v /\ (forall x, is_free N x -> v <= x) /\ forall x, is_free N' x <-> is_free N x /\ x <> v))) s /\
  (forall sz, 0 < sz -> Forall (fun n => to (rval n) + sz < WORD_MOD) N ->
   wp (rfl_alloc_range (Some h) sz) (fun v s' =>
    (v = 0 /\ s' = s /\ forall p, ~ (forall x, p <= x < p + sz -> is_free N x)) \/
    (exists N', rep s' h N' /\ (forall x, v <= x < v + sz -> is_free N x) /\
       forall x, is_free N' x <-> is_free N x /\ ~ v <= x < v + sz)) s).
Proof.
  intros HR. split_and!; [|by apply rfl_alloc_spec|intros; by apply rfl_alloc_range_spec].
  intros debug f t Hft Ht Ho. by apply rfl_insert_range_spec.
Qed.

End rfl_properties.

(** *** Witnesses: the free values 10 to 20 and 30 to 40 *)

Module RflDemo.
Import Rfl.
#[local] Instance pool_cells : Malloc LL.ll := malloc_pool 8 (LL.Cell None None 7).
#[local] Instance pool_ranges : Malloc range := malloc_pool 8 (Range 0 0).
Definition run {A} (c : M state A) (s : state) : state := match c s with Done _ s' => s' | Crash _ => s end.
Definition built : state :=
  run (let! r := rfl_new in
       let! _ := rfl_insert_range true r 30 40 in rfl_insert_range true r 10 20) (St ∅ ∅).
Definition entries : list (nat * nat * range) := [(2%nat, 1%nat, Range 10 20); (1%nat, 0%nat, Range 30 40)].

Lemma rfl_built_rep : rep built 0 entries.
Proof.
  constructor.
  - constructor.
    + repeat (split; [split; reflexivity|]). done.
    + apply (bool_decide_eq_true_1 _). reflexivity.
    + intros a v Hin. simpl in Hin. rewrite !elem_of_cons in Hin.
      destruct Hin as [[= -> ->]|[[= -> ->]|Hin]]; [reflexivity|reflexivity|by apply not_elem_of_nil in Hin].
  - reflexivity.
  - intros n Hin. unfold entries in Hin. rewrite !elem_of_cons in Hin.
    destruct Hin as [->|[->|Hin]]; [reflexivity|reflexivity|by apply not_elem_of_nil in Hin].
  - apply (bool_decide_eq_true_1 _). reflexivity.
  - split; repeat constructor; unfold in_words, WORD_MOD; simpl; lia.
Qed.
End RflDemo.

Lemma rfl_operations_correct_witness :
  wp (Rfl.rfl_insert_range (ML := RflDemo.pool_cells) (MR := RflDemo.pool_ranges) true (Some 0%nat) 21 29) (fun rc s' =>
    (rc = Rfl.E_RFL_NOMEM /\ s' = RflDemo.built /\ malloc_at (Malloc := RflDemo.pool_ranges) (Rfl.ranges RflDemo.built) = None) \/
    (rc = Rfl.RFL_SUCCESS /\ exists N', Rfl.rep s' 0 N' /\
       forall x, Rfl.is_free N' x <-> Rfl.is_free RflDemo.entries x \/ 21 <= x <= 29) \/
    (rc = Rfl.RFL_SUCCESS /\ malloc_at (Malloc := RflDemo.pool_cells) (Rfl.cells RflDemo.built) = None /\
       Rfl.rep s' 0 RflDemo.entries)) RflDemo.built /\
  wp (Rfl.rfl_alloc_range (Some 0%nat) 11) (fun v s' =>
    (v = 0 /\ s' = RflDemo.built /\ forall p, ~ (forall x, p <= x < p + 11 -> Rfl.is_free RflDemo.entries x)) \/
    (exists N', Rfl.rep s' 0 N' /\ (forall x, v <= x < v + 11 -> Rfl.is_free RflDemo.entries x) /\
       forall x, Rfl.is_free N' x <-> Rfl.is_free RflDemo.entries x /\ ~ v <= x < v + 11)) RflDemo.built.
Proof.
  destruct (rfl_operations_correct (ML := RflDemo.pool_cells) (MR := RflDemo.pool_ranges) RflDemo.built 0%nat
    RflDemo.entries) as (Hi & _ & Ha); [exact RflDemo.rfl_built_rep|].
  split; [|apply Ha; [lia|repeat constructor; unfold WORD_MOD; simpl; lia]]. apply Hi; [lia|unfold WORD_MOD; lia|]. repeat constructor; unfold Rfl.outside; simpl; lia.
Defined.

(** The tail of a range is removed when it is asked for, but the value
    returned is not the one asked for. *)
Lemma rfl_specific_tail_value :
  wp (Rfl.rfl_alloc_specific_range (ML := RflDemo.pool_cells) (MR := RflDemo.pool_ranges) (Some 0%nat) 35 6)
     (fun v s' => v = 34 /\ Rfl.ranges s' !! 0%nat = Some (Rfl.Range 30 34)) RflDemo.built.
Proof. vm_compute. split; reflexivity. Qed.

(** Without memory for a cell, the range 50 to 60 is lost and success
    reported. *)
Lemma rfl_insert_range_lost :
  wp (Rfl.rfl_insert_range (ML := malloc_pool 3 (LL.Cell None None 7)) (MR := RflDemo.pool_ranges) true (Some 0%nat) 50 60)
     (fun rc s' => rc = Rfl.RFL_SUCCESS /\ Rfl.cells s' = Rfl.cells RflDemo.built) RflDemo.built.
Proof. vm_compute. split; reflexivity. Qed.

(** A size that wraps: a run of 2^32 - 5 values is granted from the 11 values
    10 to 20, and the values 5 to 9 become free. *)
Lemma rfl_alloc_range_wraps :
  wp (Rfl.rfl_alloc_range (Some 0%nat) (2 ^ 32 - 5))
     (fun v s' => v = 10 /\ Rfl.ranges s' !! 1%nat = Some (Rfl.Range 5 20)) RflDemo.built.
Proof. vm_compute. split; reflexivity. Qed.
