(* ===== verification/BitFl.v ===== *)
(** * The [bit_fl] library ([libs/bit_fl]): free list as an array of bits

    A set bit is a free value. *)

From S2P Require Import Prelude Heap.
#[local] Open Scope Z_scope.

Module Bfl.

(** [struct bfl] *)
Record bfl : Type := Bfl {
  curpos : Z;
  len : Z;
  bitarray : list Z
}.
Definition set_bitarray v b := Bfl (curpos b) (len b) v.

Abbreviation heap := (gmap nat bfl).

Definition BITS_PER_LONG : Z := 32.

(** [find_first_set]: the loop from [ret] on. *)
Fixpoint ffs_loop (n : nat) (x r : Z) : M heap Z :=
  match n with
  | O => do! ASSERT false in Prelude.ret (-1)
  | S n' => if negb (Z.land x 1 =? 0) then Prelude.ret r else ffs_loop n' (Z.shiftr x 1) (r + 1)
  end.
Definition find_first_set (x : Z) : M heap Z := ffs_loop (Z.to_nat BITS_PER_LONG) x 0.

Definition bfl_free (p : option nat) (val : Z) : M heap unit :=
  let idx := val / BITS_PER_LONG in
  let! b := load p in
  do! ASSERT (val / BITS_PER_LONG <? len b) in
  let! w := index (bitarray b) idx in
  let! a := index_set (bitarray b) idx (Z.lor w (bit32 (val mod BITS_PER_LONG))) in
  store p (set_bitarray a).

Section new.
Context `{MM : !Malloc bfl}.

(** [for (i = 0; i < size; i++) bfl_free(bfl, i);] *)
Fixpoint free_from (n : nat) (p : option nat) (i : Z) : M heap unit :=
  match n with
  | O => Prelude.ret tt
  | S n' => do! bfl_free p i in free_from n' p (i + 1)
  end.
Definition bfl_new (size : Z) : M heap (option nat) :=
  let array_size := size / BITS_PER_LONG + 1 in
  let! p := malloc in
  if bool_decide (p = None) then Prelude.ret None
  else
    do! store p (fun _ => Bfl 0 array_size (replicate (Z.to_nat array_size) 0)) in
    do! free_from (Z.to_nat size) p 0 in
    Prelude.ret p.
End new.

(** The index of the first nonzero word from [i] on, of [n] words. *)
Fixpoint scan (n : nat) (l : list Z) (i : Z) : M heap (option Z) :=
  match n with
  | O => Prelude.ret None
  | S n' =>
      let! w := index l i in
      if negb (w =? 0) then Prelude.ret (Some i) else scan n' l (i + 1)
  end.

(** The test before [curpos] is advanced compares the array itself, not the
    word, with 0: it never holds. *)
Definition bfl_alloc (p : option nat) : M heap Z :=
  let! b := load p in
  let! i := scan (Z.to_nat (len b - curpos b)) (bitarray b) (curpos b) in
  let! i := match i with Some _ => Prelude.ret i | None => scan (Z.to_nat (curpos b)) (bitarray b) 0 end in
  match i with
  | None => Prelude.ret (WORD_MOD - 1)
  | Some i =>
      let! w := index (bitarray b) i in
      let! pos := find_first_set w in
      let! a := index_set (bitarray b) i (Z.land w (not32 (bit32 pos))) in
      do! store p (set_bitarray a) in
      Prelude.ret (u32 (i * BITS_PER_LONG + pos))
  end.

Definition bfl_destroy (p : option nat) : M heap unit := free p.

Definition bfl_is_free (p : option nat) (bit : Z) : M heap Z :=
  let idx := bit / BITS_PER_LONG in
  let! b := load p in
  do! ASSERT (bit / BITS_PER_LONG <? len b) in
  let! w := index (bitarray b) idx in
  Prelude.ret (Z.land w (bit32 (bit mod BITS_PER_LONG))).

Definition bfl_alloc_bit (p : option nat) (bit : Z) : M heap Z :=
  let idx := bit / BITS_PER_LONG in
  let! b := load p in
  do! ASSERT (bit / BITS_PER_LONG <? len b) in
  let! w := index (bitarray b) idx in
  let w' := Z.land w (not32 (bit32 (bit mod BITS_PER_LONG))) in
  let! a := index_set (bitarray b) idx w' in
  do! store p (set_bitarray a) in
  Prelude.ret w'.

(** ** Specification *)

(** The value [u] is free. *)
Definition isfree (l : list Z) (u : Z) : bool :=
  match l !! Z.to_nat (u / 32) with Some w => (0 <=? u) && Z.testbit w (u mod 32) | None => false end.

Record wf (b : bfl) : Prop := {
  wf_len : len b = Z.of_nat (length (bitarray b));
  wf_max : len b * 32 < WORD_MOD;
  wf_cur : 0 <= curpos b <= len b;
  wf_words : Forall is_word (bitarray b)
}.

Lemma isfree_insert l i w u :
  0 <= i < Z.of_nat (length l) -> 0 <= u ->
  isfree (<[Z.to_nat i := w]> l) u = if u / 32 =? i then Z.testbit w (u mod 32) else isfree l u.
Proof.
  intros Hi Hu. unfold isfree. rewrite (proj2 (Z.leb_le 0 u)) by done. destruct (Z.eqb_spec (u / 32) i) as [<-|Hne].
  - by rewrite list_lookup_insert_eq by lia.
  - rewrite list_lookup_insert_ne; [done|]. intros Heq. apply Hne. apply Z2Nat.inj; Z.div_mod_to_equations; lia.
Qed.

Lemma isfree_word l i w u : 0 <= u -> u / 32 = i -> l !! Z.to_nat i = Some w -> isfree l u = Z.testbit w (u mod 32).
Proof. intros Hu <- Hw. unfold isfree. rewrite Hw. by rewrite (proj2 (Z.leb_le 0 u)). Qed.

Lemma word_zero w : is_word w -> (forall k, 0 <= k < 32 -> Z.testbit w k = false) -> w = 0.
Proof.
  intros Hw Hb. apply Z.bits_inj_0. intros k. destruct (Z.lt_ge_cases k 0); [by rewrite Z.testbit_neg_r|].
  destruct (Z.lt_ge_cases k 32); [by apply Hb|by apply word_bits_high].
Qed.

Lemma ffs_loop_spec n : forall x w r m,
  x = Z.shiftr w r -> 0 <= r -> r + Z.of_nat n = 32 -> (forall k, 0 <= k < r -> Z.testbit w k = false) ->
  is_word w -> w <> 0 ->
  wp (ffs_loop n x r) (fun p m' => m' = m /\ 0 <= p < 32 /\ Z.testbit w p = true /\
    forall k, 0 <= k < p -> Z.testbit w k = false) m.
Proof.
  induction n as [|n IH]; intros x w r m -> Hr Hn Hlow Hw Hne; simpl.
  - exfalso. apply Hne. apply word_zero; [done|]. intros k Hk. apply Hlow. lia.
  - assert (Hb : Z.land (Z.shiftr w r) 1 = Z.b2z (Z.testbit w r)).
    { change 1 with (Z.ones 1). rewrite Z.land_ones by lia. change (2 ^ 1) with 2. rewrite <-Z.bit0_mod.
      rewrite Z.shiftr_spec by lia. f_equal. }
    rewrite Hb. destruct (Z.testbit w r) eqn:E; simpl.
    + wp_steps. split_and!; [done|lia|lia|done|done].
    + apply IH; try done; [by rewrite Z.shiftr_shiftr by lia|lia|lia|].
      intros k Hk. destruct (Z.eq_dec k r) as [->|]; [done|]. apply Hlow. lia.
Qed.

Lemma find_first_set_spec w m :
  is_word w -> w <> 0 ->
  wp (find_first_set w) (fun p m' => m' = m /\ 0 <= p < 32 /\ Z.testbit w p = true /\
    forall k, 0 <= k < p -> Z.testbit w k = false) m.
Proof. intros Hw Hne. apply ffs_loop_spec; try done; lia. Qed.

Lemma scan_spec n : forall l i m, 0 <= i -> i + Z.of_nat n <= Z.of_nat (length l) ->
  wp (scan n l i) (fun r m' => m' = m /\ match r with
    | Some j => i <= j < i + Z.of_nat n /\ (exists w, l !! Z.to_nat j = Some w /\ w <> 0) /\
        forall k w, i <= k < j -> l !! Z.to_nat k = Some w -> w = 0
    | None => forall k w, i <= k < i + Z.of_nat n -> l !! Z.to_nat k = Some w -> w = 0
    end) m.
Proof.
  induction n as [|n IH]; intros l i m Hi Hn; simpl.
  - wp_steps. split; [done|]. lia.
  - destruct (lookup_lt_is_Some_2 l (Z.to_nat i)) as [w Hw]; [lia|]. wp_step. eapply wp_index; [done|done|].
    destruct (Z.eqb_spec w 0) as [->|Hne]; simpl.
    + eapply wp_mono; [apply (IH l (i + 1) m); lia|]. intros [j|] m' [-> H]; (split; [done|]).
      * destruct H as (Hj & Hex & Hall). split_and!; [lia|lia|done|]. intros k w Hk Hkw.
        destruct (Z.eq_dec k i) as [->|]; [congruence|]. apply (Hall k); [lia|done].
      * intros k w Hk Hkw. destruct (Z.eq_dec k i) as [->|]; [congruence|]. apply (H k); [lia|done].
    + wp_steps. split_and!; [done|lia|lia|by exists w|lia].
Qed.

(** [b'] is [b] with the value [u] made free or not. *)
Record sets (b : bfl) (u : Z) (v : bool) (b' : bfl) : Prop := {
  se_wf : wf b';
  se_len : len b' = len b;
  se_cur : curpos b' = curpos b;
  se_free : forall x, 0 <= x -> isfree (bitarray b') x = if x =? u then v else isfree (bitarray b) x
}.

Lemma sets_intro b u v w w' :
  wf b -> 0 <= u < len b * 32 -> bitarray b !! Z.to_nat (u / 32) = Some w -> is_word w' ->
  (forall k, 0 <= k < 32 -> Z.testbit w' k = if k =? u mod 32 then v else Z.testbit w k) ->
  sets b u v (set_bitarray (<[Z.to_nat (u / 32) := w']> (bitarray b)) b).
Proof.
  intros [Hl Hm Hc Hw] Hu Hi Hw' Hb. constructor; simpl; try done.
  - constructor; simpl; rewrite ?length_insert; try done. by apply Forall_insert.
  - intros x Hx. rewrite isfree_insert by (Z.div_mod_to_equations; lia). destruct (Z.eqb_spec (x / 32) (u / 32)) as [He|He].
    + rewrite Hb by (Z.div_mod_to_equations; lia). rewrite (isfree_word _ _ _ x Hx He Hi).
      destruct (Z.eqb_spec (x mod 32) (u mod 32)), (Z.eqb_spec x u); try done; Z.div_mod_to_equations; lia.
    + destruct (Z.eqb_spec x u) as [->|]; [lia|done].
Qed.

Lemma word_at b u : wf b -> 0 <= u < len b * 32 -> exists w, bitarray b !! Z.to_nat (u / 32) = Some w /\ is_word w.
Proof.
  intros [Hl _ _ Hw] Hu. destruct (lookup_lt_is_Some_2 (bitarray b) (Z.to_nat (u / 32))) as [w Hi]; [Z.div_mod_to_equations; lia|].
  exists w. split; [done|]. by eapply Forall_lookup_1 in Hw.
Qed.

Lemma bfl_free_spec m a b u :
  m !! a = Some b -> wf b -> 0 <= u < len b * 32 ->
  wp (bfl_free (Some a) u) (fun _ m' => exists b', m' = <[a := b']> m /\ sets b u true b') m.
Proof.
  intros Ha Hwf Hu. destruct (word_at _ _ Hwf Hu) as (w & Hw & Hword). pose proof Hwf as [Hl _ _ _].
  unfold bfl_free, BITS_PER_LONG. cbv zeta. heap_steps; [apply Z.ltb_lt; Z.div_mod_to_equations; lia|].
  eapply wp_index; [Z.div_mod_to_equations; lia|done|]. heap_steps. apply wp_index_set; [Z.div_mod_to_equations; lia|].
  heap_steps. eexists. split; [done|]. apply (sets_intro b u true w); try done.
  - by apply is_word_set_bit32.
  - intros k Hk. change (Z.lor w (bit32 (u mod 32))) with (set_bit32 w (u mod 32)).
    rewrite testbit_set_bit32 by (Z.div_mod_to_equations; lia). destruct (k =? u mod 32); [apply orb_true_r|apply orb_false_r].
Qed.

Lemma bfl_alloc_bit_spec m a b u :
  m !! a = Some b -> wf b -> 0 <= u < len b * 32 ->
  wp (bfl_alloc_bit (Some a) u) (fun _ m' => exists b', m' = <[a := b']> m /\ sets b u false b') m.
Proof.
  intros Ha Hwf Hu. destruct (word_at _ _ Hwf Hu) as (w & Hw & Hword). pose proof Hwf as [Hl _ _ _].
  unfold bfl_alloc_bit, BITS_PER_LONG. cbv zeta. heap_steps; [apply Z.ltb_lt; Z.div_mod_to_equations; lia|].
  eapply wp_index; [Z.div_mod_to_equations; lia|done|]. heap_steps. apply wp_index_set; [Z.div_mod_to_equations; lia|].
  heap_steps. eexists. split; [done|]. apply (sets_intro b u false w); try done.
  - by apply is_word_clear_bit32.
  - intros k Hk. change (Z.land w (not32 (bit32 (u mod 32)))) with (clear_bit32 w (u mod 32)).
    rewrite testbit_clear_bit32 by (Z.div_mod_to_equations; lia).
    destruct (k =? u mod 32); [apply andb_false_r|apply andb_true_r].
Qed.

Lemma bfl_is_free_spec m a b u :
  m !! a = Some b -> wf b -> 0 <= u < len b * 32 ->
  wp (bfl_is_free (Some a) u) (fun r m' => m' = m /\ (r <> 0 <-> isfree (bitarray b) u = true)) m.
Proof.
  intros Ha Hwf Hu. destruct (word_at _ _ Hwf Hu) as (w & Hw & Hword). pose proof Hwf as [Hl _ _ _].
  unfold bfl_is_free, BITS_PER_LONG. cbv zeta. heap_steps; [apply Z.ltb_lt; Z.div_mod_to_equations; lia|].
  eapply wp_index; [Z.div_mod_to_equations; lia|done|]. heap_steps. split; [done|].
  rewrite (isfree_word _ (u / 32) w u) by (done || lia). split.
  - intros Hne. destruct (Z.testbit w (u mod 32)) eqn:E; [done|]. exfalso. apply Hne, Z.bits_inj_0. intros k.
    rewrite Z.land_spec. rewrite testbit_bit32 by (Z.div_mod_to_equations; lia).
    destruct (Z.eqb_spec k (u mod 32)) as [->|]; [by rewrite E|apply andb_false_r].
  - intros E H0. assert (Z.testbit (Z.land w (bit32 (u mod 32))) (u mod 32) = false) as Hf by (by rewrite H0, Z.bits_0).
    rewrite Z.land_spec, E, testbit_bit32, Z.eqb_refl in Hf by (Z.div_mod_to_equations; lia). done.
Qed.

(** The value allocated in a nonzero word, and the words that hold none. *)
Lemma zero_word_free b k : wf b -> bitarray b !! Z.to_nat k = Some 0 -> forall u, 0 <= u -> u / 32 = k -> isfree (bitarray b) u = false.
Proof. intros Hwf Hk u Hu Hd. rewrite (isfree_word _ k 0 u) by done. apply Z.bits_0. Qed.

Lemma no_free b : wf b -> (forall k w, 0 <= k < len b -> bitarray b !! Z.to_nat k = Some w -> w = 0) ->
  forall u, 0 <= u -> isfree (bitarray b) u = false.
Proof.
  intros Hwf Hall u Hu. pose proof Hwf as [Hl _ _ _]. destruct (bitarray b !! Z.to_nat (u / 32)) as [w|] eqn:E.
  - rewrite (Hall (u / 32) w) in E; [|apply lookup_lt_Some in E; Z.div_mod_to_equations; lia|done].
    by eapply zero_word_free.
  - unfold isfree. by rewrite E.
Qed.

Lemma bfl_alloc_spec m a b :
  m !! a = Some b -> wf b ->
  wp (bfl_alloc (Some a)) (fun v m' =>
    (v = WORD_MOD - 1 /\ m' = m /\ forall u, 0 <= u -> isfree (bitarray b) u = false) \/
    (0 <= v < len b * 32 /\ isfree (bitarray b) v = true /\
     (curpos b = 0 -> forall u, 0 <= u < v -> isfree (bitarray b) u = false) /\
     exists b', m' = <[a := b']> m /\ sets b v false b')) m.
Proof.
  intros Ha Hwf. pose proof Hwf as [Hl Hm Hc Hw]. unfold bfl_alloc. heap_steps.
  eapply wp_mono; [apply scan_spec; lia|]. intros r1 ? [-> Hr1]. wp_step.
  (* whichever loop finds a word, it is the first nonzero one when [curpos] is 0 *)
  assert (Hmid : wp (match r1 with Some _ => Prelude.ret r1 | None => scan (Z.to_nat (curpos b)) (bitarray b) 0 end)
    (fun r m' => m' = m /\ match r with
      | Some j => 0 <= j < len b /\ (exists w, bitarray b !! Z.to_nat j = Some w /\ w <> 0) /\
          (curpos b = 0 -> forall k w, 0 <= k < j -> bitarray b !! Z.to_nat k = Some w -> w = 0)
      | None => forall k w, 0 <= k < len b -> bitarray b !! Z.to_nat k = Some w -> w = 0
      end) m).
  { destruct r1 as [j|].
    - wp_steps. destruct Hr1 as (Hj & Hex & Hall). split_and!; [done|lia|lia|done|]. intros H0 k w Hk. apply Hall. lia.
    - eapply wp_mono; [apply scan_spec; lia|]. intros [j|] m' [-> H]; (split; [done|]).
      + destruct H as (Hj & Hex & Hall). split_and!; [lia|lia|done|]. intros H0. lia.
      + intros k w Hk Hkw. destruct (Z.lt_ge_cases k (curpos b)); [apply (H k)|apply (Hr1 k)]; (done || lia). }
  eapply wp_mono; [exact Hmid|]. clear Hmid Hr1. intros [j|] m' [-> H].
  - destruct H as (Hj & (w & Hjw & Hne) & Hfirst). wp_step. eapply wp_index; [lia|done|]. wp_step.
    assert (Hword : is_word w) by (by eapply Forall_lookup_1 in Hw).
    eapply wp_mono; [by apply find_first_set_spec|]. simpl. intros p m' (-> & Hp & Hbit & Hlow). wp_step.
    apply wp_index_set; [lia|]. heap_steps. right.
    assert (Hd : (j * 32 + p) / 32 = j /\ (j * 32 + p) mod 32 = p) by (Z.div_mod_to_equations; lia).
    destruct Hd as [Hd1 Hd2]. unfold BITS_PER_LONG. rewrite u32_word by (unfold is_word; lia). split_and!; [lia|lia| | |].
    + rewrite (isfree_word _ j w) by (done || lia). by rewrite Hd2.
    + intros H0 u Hu. destruct (Z.eq_dec (u / 32) j) as [He|He].
      * rewrite (isfree_word _ j w) by (done || lia). apply Hlow. Z.div_mod_to_equations. lia.
      * assert (0 <= u / 32 < j) by (Z.div_mod_to_equations; lia).
        destruct (lookup_lt_is_Some_2 (bitarray b) (Z.to_nat (u / 32))) as [wu Hwu]; [lia|].
        eapply zero_word_free; [done| |lia|reflexivity]. rewrite Hwu. f_equal. by eapply Hfirst.
    + eexists. split; [done|]. assert (Hs : forall w', is_word w' ->
        (forall k, 0 <= k < 32 -> Z.testbit w' k = if k =? p then false else Z.testbit w k) ->
        sets b (j * 32 + p) false (set_bitarray (<[Z.to_nat j := w']> (bitarray b)) b)).
      { intros w' Hw1 Hw2. pose proof (sets_intro b (j * 32 + p) false w w') as Hs. rewrite Hd1, Hd2 in Hs.
        apply Hs; (done || lia). }
      apply Hs.
      * by apply is_word_clear_bit32.
      * intros k Hk. change (Z.land w (not32 (bit32 p))) with (clear_bit32 w p).
        rewrite testbit_clear_bit32 by lia. destruct (k =? p); [apply andb_false_r|apply andb_true_r].
  - wp_steps. left. split_and!; [done|done|]. by apply no_free.
Qed.

Lemma free_from_spec n : forall m a b i,
  m !! a = Some b -> wf b -> 0 <= i -> i + Z.of_nat n <= len b * 32 ->
  wp (free_from n (Some a) i) (fun _ m' => exists b', m' = <[a := b']> m /\ wf b' /\ curpos b' = curpos b /\
    forall u, 0 <= u -> isfree (bitarray b') u = isfree (bitarray b) u || ((i <=? u) && (u <? i + Z.of_nat n))) m.
Proof.
  induction n as [|n IH]; intros m a b i Ha Hwf Hi Hn; simpl.
  - wp_steps. exists b. split_and!; [by rewrite insert_id|done|done|]. intros u Hu.
    replace ((i <=? u) && (u <? i + Z.of_nat 0)) with false by (symmetry; apply andb_false_iff; rewrite Z.leb_gt, Z.ltb_ge; lia).
    by rewrite orb_false_r.
  - wp_step. eapply wp_mono; [apply (bfl_free_spec m a b); (done || lia)|]. simpl. intros _ m1 (b1 & -> & [Hwf1 Hl1 Hc1 Hf1]).
    eapply wp_mono; [apply (IH _ a b1 (i + 1)); [apply lookup_insert_eq|done|lia|lia]|]. simpl.
    intros _ m2 (b2 & -> & Hwf2 & Hc2 & Hf2). exists b2. split_and!; [by rewrite insert_insert_eq|done|congruence|].
    intros u Hu. rewrite Hf2, Hf1 by done. destruct (Z.eqb_spec u i) as [->|].
    + replace ((i <=? i) && (i <? i + Z.of_nat (S n))) with true by (symmetry; apply andb_true_iff; rewrite Z.leb_le, Z.ltb_lt; lia).
      simpl. by rewrite orb_true_r.
    + f_equal. destruct (Z.leb_spec (i + 1) u), (Z.leb_spec i u); try lia; simpl; try done.
      destruct (Z.ltb_spec u (i + 1 + Z.of_nat n)), (Z.ltb_spec u (i + Z.of_nat (S n))); try lia; done.
Qed.

Lemma isfree_zeros n u : isfree (replicate n 0) u = false.
Proof.
  unfold isfree. destruct (replicate n 0 !! Z.to_nat (u / 32)) as [w|] eqn:E; [|done].
  apply lookup_replicate in E as [-> _]. by rewrite Z.bits_0, andb_false_r.
Qed.

Lemma bfl_new_spec `{MM : !Malloc bfl} m size :
  0 <= size -> (size / 32 + 1) * 32 < WORD_MOD ->
  wp (bfl_new size) (fun r m' => (r = None /\ m' = m) \/
    exists a b, r = Some a /\ m !! a = None /\ m' = <[a := b]> m /\ wf b /\ curpos b = 0 /\
      forall u, 0 <= u -> isfree (bitarray b) u = (u <? size)) m.
Proof.
  intros Hs Hmax. unfold bfl_new. cbv zeta. wp_step. apply wp_malloc; simpl; [intros _; wp_steps; by left|]. intros a Ha.
  heap_steps. rewrite insert_insert_eq.
  eapply wp_mono; [eapply (free_from_spec _ _ a); [apply lookup_insert_eq| |lia|]|].
  - constructor; simpl; unfold BITS_PER_LONG; rewrite ?length_replicate; try (Z.div_mod_to_equations; lia).
    apply Forall_replicate. by split.
  - simpl. unfold BITS_PER_LONG. Z.div_mod_to_equations. lia.
  - simpl. intros _ m' (b & -> & Hwf & Hc & Hf). wp_steps. right. exists a, b.
    split_and!; [done|done|by rewrite insert_insert_eq|done|done|]. intros u Hu. rewrite Hf by done.
    rewrite isfree_zeros. simpl. rewrite (proj2 (Z.leb_le 0 u)) by done. simpl.
    by rewrite ?Z.add_0_l, Z2Nat.id by lia.
Qed.

End Bfl.

(** ** Properties *)

Section bfl_properties.
Import Bfl.

(** C35: [bfl_new] makes a free list of exactly the values below its size, or
    reports that there is no memory for one.  [bfl_alloc] takes a free value (the smallest one from the list's
    initial state on) and no other, and yields -1 exactly when no value is
    free. *)
Theorem bfl_operations_correct `{MM : !Malloc bfl} m a b size :
  m !! a = Some b -> wf b -> 0 <= size -> (size / 32 + 1) * 32 < WORD_MOD ->
  wp (bfl_new size) (fun r m' => (r = None /\ m' = m) \/
    exists a b, r = Some a /\ m !! a = None /\ m' = <[a := b]> m /\ wf b /\ curpos b = 0 /\
      forall u, 0 <= u -> isfree (bitarray b) u = (u <? size)) m /\
  wp (bfl_alloc (Some a)) (fun v m' =>
    (v = WORD_MOD - 1 /\ m' = m /\ forall u, 0 <= u -> isfree (bitarray b) u = false) \/
    (0 <= v < len b * 32 /\ isfree (bitarray b) v = true /\
     (curpos b = 0 -> forall u, 0 <= u < v -> isfree (bitarray b) u = false) /\
     exists b', m' = <[a := b']> m /\ sets b v false b')) m.
Proof. intros Ha Hwf Hs Hw. split; [by apply bfl_new_spec|by apply bfl_alloc_spec]. Qed.

End bfl_properties.

(** *** Witnesses *)

Module BflDemo.
Import Bfl.
#[local] Instance pool : Malloc bfl := malloc_pool 4 (Bfl 9 9 []).
Definition list40 : bfl := Bfl 0 2 [0; 5].
Lemma list40_wf : wf list40.
Proof. constructor; unfold WORD_MOD; simpl; try lia. repeat constructor; unfold WORD_MOD; lia. Qed.
End BflDemo.

Lemma bfl_operations_correct_witness :
  wp (Bfl.bfl_new (MM := BflDemo.pool) 40) (fun r m' => (r = None /\ m' = {[ 0%nat := BflDemo.list40 ]}) \/
    exists a b, r = Some a /\ ({[ 0%nat := BflDemo.list40 ]} : gmap nat Bfl.bfl) !! a = None /\
      m' = <[a := b]> {[ 0%nat := BflDemo.list40 ]} /\ Bfl.wf b /\ Bfl.curpos b = 0 /\
      forall u, 0 <= u -> Bfl.isfree (Bfl.bitarray b) u = (u <? 40)) {[ 0%nat := BflDemo.list40 ]} /\
  wp (Bfl.bfl_alloc (Some 0%nat)) (fun v m' =>
    (v = WORD_MOD - 1 /\ m' = {[ 0%nat := BflDemo.list40 ]} /\ forall u, 0 <= u -> Bfl.isfree [0; 5] u = false) \/
    (0 <= v < 2 * 32 /\ Bfl.isfree [0; 5] v = true /\
     (0 = 0 -> forall u, 0 <= u < v -> Bfl.isfree [0; 5] u = false) /\
     exists b', m' = <[0%nat := b']> {[ 0%nat := BflDemo.list40 ]} /\ Bfl.sets BflDemo.list40 v false b'))
    {[ 0%nat := BflDemo.list40 ]}.
Proof.
  apply (bfl_operations_correct (MM := BflDemo.pool) {[ 0%nat := BflDemo.list40 ]} 0%nat BflDemo.list40 40);
    [reflexivity|exact BflDemo.list40_wf|lia|reflexivity].
Defined.
