(* ===== verification/CString.v ===== *)
(** * The string functions of the C library ([libs/c/src/str*.c, mem*.c])

    Memory is a list of bytes; a pointer is an index into it, and an access
    outside of it is a crash.  Loops over a string are bounded by the size of
    the memory. *)

From S2P Require Import Prelude.
#[local] Open Scope Z_scope.

Module CStr.

Abbreviation memory := (list Z).

Definition ld (p : Z) : M memory Z := let! m := gets id in index m p.
Definition st (p v : Z) : M memory unit :=
  let! m := gets id in
  let! m' := index_set m p v in
  modify (fun _ => m').
(** More steps than a loop over a string can take. *)
Definition fuel : M memory nat := let! m := gets id in ret (S (length m)).

(** ** Length, comparison, search *)

Fixpoint strlen_loop (n : nat) (s p : Z) : M memory Z :=
  match n with
  | O => crash LoopBoundExceeded
  | S n' => let! c := ld p in if c =? 0 then ret (p - s) else strlen_loop n' s (p + 1)
  end.
Definition strlen (s : Z) : M memory Z := let! n := fuel in strlen_loop n s s.

Fixpoint strcmp_loop (n : nat) (s1 s2 i : Z) : M memory Z :=
  match n with
  | O => crash LoopBoundExceeded
  | S n' =>
      let! c1 := ld (s1 + i) in
      let! c2 := ld (s2 + i) in
      let diff := c1 - c2 in
      if negb (diff =? 0) || (c1 =? 0) then ret diff else strcmp_loop n' s1 s2 (i + 1)
  end.
Definition strcmp (s1 s2 : Z) : M memory Z := let! n := fuel in strcmp_loop n s1 s2 0.

Fixpoint strncmp_loop (k : nat) (s1 s2 i : Z) : M memory Z :=
  match k with
  | O => ret 0
  | S k' =>
      let! c1 := ld (s1 + i) in
      let! c2 := ld (s2 + i) in
      let diff := c1 - c2 in
      if negb (diff =? 0) || (c1 =? 0) then ret diff else strncmp_loop k' s1 s2 (i + 1)
  end.
Definition strncmp (s1 s2 n : Z) : M memory Z := strncmp_loop (Z.to_nat n) s1 s2 0.

Fixpoint memcmp_loop (k : nat) (s1 s2 i : Z) : M memory Z :=
  match k with
  | O => ret 0
  | S k' =>
      let! c1 := ld (s1 + i) in
      let! c2 := ld (s2 + i) in
      let diff := c1 - c2 in
      if negb (diff =? 0) then ret diff else memcmp_loop k' s1 s2 (i + 1)
  end.
Definition memcmp (s1 s2 n : Z) : M memory Z := memcmp_loop (Z.to_nat n) s1 s2 0.

Fixpoint strchr_loop (n : nat) (s c : Z) : M memory (option Z) :=
  match n with
  | O => crash LoopBoundExceeded
  | S n' =>
      let! x := ld s in
      if x =? 0 then ret (if c =? 0 then Some s else None)
      else if x =? c then ret (Some s)
      else strchr_loop n' (s + 1) c
  end.
Definition strchr (s c : Z) : M memory (option Z) := let! n := fuel in strchr_loop n s c.

Fixpoint strrchr_loop (n : nat) (s c : Z) (r : option Z) : M memory (option Z) :=
  match n with
  | O => crash LoopBoundExceeded
  | S n' =>
      let! x := ld s in
      if x =? 0 then ret r
      else strrchr_loop n' (s + 1) c (if x =? c then Some s else r)
  end.
Definition strrchr (s c : Z) : M memory (option Z) :=
  if negb (c =? 0) then let! n := fuel in strrchr_loop n s c None
  else let! l := strlen s in ret (Some (s + l)).

Fixpoint memchr_loop (k : nat) (p c : Z) : M memory (option Z) :=
  match k with
  | O => ret None
  | S k' => let! x := ld p in if x =? c then ret (Some p) else memchr_loop k' (p + 1) c
  end.
Definition memchr (s c n : Z) : M memory (option Z) := memchr_loop (Z.to_nat n) s c.

Fixpoint strspn_loop (n : nat) (s charset i : Z) : M memory Z :=
  match n with
  | O => crash LoopBoundExceeded
  | S n' =>
      let! x := ld (s + i) in
      let! r := strchr charset x in
      if bool_decide (r <> None) && negb (x =? 0) then strspn_loop n' s charset (i + 1) else ret i
  end.
Definition strspn (s charset : Z) : M memory Z := let! n := fuel in strspn_loop n s charset 0.

Fixpoint strcspn_loop (n : nat) (s charset len i : Z) : M memory Z :=
  match n with
  | O => crash LoopBoundExceeded
  | S n' =>
      let! x := ld (s + i) in
      let! r := strchr charset x in
      if bool_decide (r = None) && (i <? len) then strcspn_loop n' s charset len (i + 1) else ret i
  end.
Definition strcspn (s charset : Z) : M memory Z :=
  let! len := strlen s in
  let! n := fuel in
  strcspn_loop n s charset len 0.

Fixpoint strpbrk_loop (n : nat) (s charset : Z) : M memory (option Z) :=
  match n with
  | O => crash LoopBoundExceeded
  | S n' =>
      let! x := ld s in
      if x =? 0 then ret None
      else
        let! r := strchr charset x in
        if bool_decide (r <> None) then ret (Some s) else strpbrk_loop n' (s + 1) charset
  end.
Definition strpbrk (s charset : Z) : M memory (option Z) := let! n := fuel in strpbrk_loop n s charset.

Fixpoint strstr_loop (n : nat) (s substring len : Z) : M memory (option Z) :=
  match n with
  | O => crash LoopBoundExceeded
  | S n' =>
      let! x := ld s in
      if x =? 0 then ret None
      else
        let! r := strncmp s substring len in
        if r =? 0 then ret (Some s) else strstr_loop n' (s + 1) substring len
  end.
Definition strstr (s substring : Z) : M memory (option Z) :=
  let! len := strlen substring in
  let! n := fuel in
  strstr_loop n s substring len.

(** ** Copying *)

Fixpoint strcpy_loop (n : nat) (d s i : Z) : M memory unit :=
  match n with
  | O => crash LoopBoundExceeded
  | S n' =>
      let! c := ld (s + i) in
      do! st (d + i) c in
      if c =? 0 then ret tt else strcpy_loop n' d s (i + 1)
  end.
Definition strcpy (d s : Z) : M memory Z :=
  let! n := fuel in
  do! strcpy_loop n d s 0 in
  ret d.

(** The padding loop of [strncpy] leaves [i = n], which ends the outer one. *)
Fixpoint pad_loop (k : nat) (d i : Z) : M memory unit :=
  match k with
  | O => ret tt
  | S k' => do! st (d + i) 0 in pad_loop k' d (i + 1)
  end.
Fixpoint strncpy_loop (k : nat) (d s i : Z) : M memory unit :=
  match k with
  | O => ret tt
  | S k' =>
      let! c := ld (s + i) in
      do! st (d + i) c in
      if c =? 0 then pad_loop k' d (i + 1) else strncpy_loop k' d s (i + 1)
  end.
Definition strncpy (d s n : Z) : M memory Z :=
  do! strncpy_loop (Z.to_nat n) d s 0 in
  ret d.

Definition strcat (s t : Z) : M memory Z :=
  let! l := strlen s in
  do! strcpy (s + l) t in
  ret s.

Definition strncat (d s n : Z) : M memory Z :=
  let! ls := strlen s in
  let! n := if ls <? n then strlen s else ret n in
  let! ld1 := strlen d in
  do! strncpy (d + ld1) s n in
  let! ld2 := strlen d in
  do! st (d + ld2 + n + 1) 0 in
  ret d.

(** The loops of [strlcpy]: the copy, up to the end of the string or of the
    buffer, and the search of the end of an over-long string. *)
Fixpoint strlcpy_copy (k : nat) (dst src i : Z) : M memory Z :=
  match k with
  | O => ret i
  | S k' =>
      let! c := ld (src + i) in
      do! st (dst + i) c in
      if c =? 0 then ret i else strlcpy_copy k' dst src (i + 1)
  end.
Fixpoint strlcpy_skip (n : nat) (src i : Z) : M memory Z :=
  match n with
  | O => crash LoopBoundExceeded
  | S n' => let! c := ld (src + i) in if c =? 0 then ret i else strlcpy_skip n' src (i + 1)
  end.
Definition strlcpy (dst src size : Z) : M memory Z :=
  let! i := strlcpy_copy (Z.to_nat size) dst src 0 in
  if i =? size then
    let! n := fuel in
    let! i := strlcpy_skip n src i in
    do! (when negb (size =? 0) do st (dst + size - 1) 0) in
    ret i
  else ret i.

Fixpoint strlcat_scan (k : nat) (dst i : Z) : M memory Z :=
  match k with
  | O => ret i
  | S k' => let! c := ld (dst + i) in if c =? 0 then ret i else strlcat_scan k' dst (i + 1)
  end.
Definition strlcat (dst src size : Z) : M memory Z :=
  if 0 =? size then strlen src
  else
    let! i := strlcat_scan (Z.to_nat size) dst 0 in
    let dcl := if i <? size then i else 0 in
    let! r := strlcpy (dst + dcl) src (size - dcl) in
    ret (dcl + r).

(** [strtok_r]; the value of [*last] is passed and returned. *)
Definition strtok_r (s : option Z) (delim : Z) (last : option Z) : M memory (option Z * option Z) :=
  let! s := demand InvalidPointer (match s with Some _ => s | None => last end) in
  let! k := strspn s delim in
  let s := s + k in
  let! c := ld s in
  if c =? 0 then ret (None, last)
  else
    let! k := strcspn s delim in
    let l := s + k in
    let! c := ld l in
    if negb (c =? 0) then
      do! st l 0 in
      ret (Some s, Some (l + 1))
    else ret (Some s, Some l).

(** ** Memory: the two variants of [memcpy] and [memset] *)

Fixpoint memcpy_loop (k : nat) (dd ss : Z) : M memory unit :=
  match k with
  | O => ret tt
  | S k' =>
      let! c := ld ss in
      do! st dd c in
      memcpy_loop k' (dd + 1) (ss + 1)
  end.
Definition memcpy (d s n : Z) : M memory Z := do! memcpy_loop (Z.to_nat n) d s in ret d.

(** 32-bit accesses, the low byte first. *)
Definition ld_word (p : Z) : M memory Z :=
  let! b0 := ld p in
  let! b1 := ld (p + 1) in
  let! b2 := ld (p + 2) in
  let! b3 := ld (p + 3) in
  ret (b0 + Z.shiftl b1 8 + Z.shiftl b2 16 + Z.shiftl b3 24).
Definition st_word (p w : Z) : M memory unit :=
  do! st p (Z.land w 0xff) in
  do! st (p + 1) (Z.land (Z.shiftr w 8) 0xff) in
  do! st (p + 2) (Z.land (Z.shiftr w 16) 0xff) in
  st (p + 3) (Z.land (Z.shiftr w 24) 0xff).

Fixpoint memcpy_words (k : nat) (wd ws : Z) : M memory unit :=
  match k with
  | O => ret tt
  | S k' =>
      let! w := ld_word ws in
      do! st_word wd w in
      memcpy_words k' (wd + 4) (ws + 4)
  end.
(** The variant for [CONFIG_SPEED]. *)
Definition memcpy_speed (d s n : Z) : M memory Z :=
  let align := 3 in
  if negb (Z.land d align =? 0) || negb (Z.land s align =? 0) || negb (Z.land n align =? 0) then
    do! memcpy_loop (Z.to_nat n) d s in ret d
  else
    do! memcpy_words (Z.to_nat (n / 4)) d s in ret d.

Fixpoint memmove_down (k : nat) (d s : Z) : M memory unit :=
  match k with
  | O => ret tt
  | S k' =>
      let i := Z.of_nat k in
      let! c := ld (s + i - 1) in
      do! st (d + i - 1) c in
      memmove_down k' d s
  end.
Definition memmove (d s n : Z) : M memory Z :=
  if (d <=? s) || (s + n <=? d) then memcpy d s n
  else
    do! memmove_down (Z.to_nat n) d s in ret d.

Fixpoint memset_bytes (k : nat) (mem x : Z) : M memory unit :=
  match k with
  | O => ret tt
  | S k' => do! st mem x in memset_bytes k' (mem + 1) x
  end.
Definition memset (s c n : Z) : M memory Z := do! memset_bytes (Z.to_nat n) s (Z.land c 0xff) in ret s.

(** The hand-unrolled loop; at most [num] iterations. *)
Fixpoint memset_words (f : nat) (p num pattern : Z) : M memory Z :=
  if num =? 0 then ret p
  else
    match f with
    | O => crash LoopBoundExceeded
    | S f' =>
        if Z.land num 3 =? 0 then
          do! st_word p pattern in
          do! st_word (p + 4) pattern in
          do! st_word (p + 8) pattern in
          do! st_word (p + 12) pattern in
          memset_words f' (p + 16) (num - 4) pattern
        else
          do! st_word p pattern in
          memset_words f' (p + 4) (num - 1) pattern
    end.
(** The variant for [CONFIG_SPEED]. *)
Definition memset_speed (s c n : Z) : M memory Z :=
  let x := Z.land c 0xff in
  let align := 3 in
  let lead := if negb (Z.land s align =? 0) then (if align <? n then 4 - Z.land s align else n) else 0 in
  do! memset_bytes (Z.to_nat lead) s x in
  let n := n - lead in
  let mem := s + lead in
  let num := n / 4 in
  let pattern := Z.lor (Z.lor (Z.lor x (Z.shiftl x 8)) (Z.shiftl x 16)) (Z.shiftl x 24) in
  let! mem := memset_words (Z.to_nat num) mem num pattern in
  do! memset_bytes (Z.to_nat (Z.land n align)) mem x in
  ret s.

(** ** Specification *)

Definition byte_at (m : memory) (i : Z) : option Z := m !! Z.to_nat i.

(** The string at [p] consists of the nonzero bytes [l]. *)
Fixpoint cstr (m : memory) (p : Z) (l : list Z) : Prop :=
  0 <= p /\ match l with
  | [] => byte_at m p = Some 0
  | c :: l' => byte_at m p = Some c /\ c <> 0 /\ cstr m (p + 1) l'
  end.

Lemma byte_at_insert m p v i :
  0 <= p < Z.of_nat (length m) -> 0 <= i ->
  byte_at (<[Z.to_nat p := v]> m) i = if i =? p then Some v else byte_at m i.
Proof.
  intros Hp Hi. unfold byte_at. destruct (Z.eqb_spec i p) as [->|Hne].
  - apply list_lookup_insert_eq. lia.
  - apply list_lookup_insert_ne. lia.
Qed.

Lemma byte_at_lt m i c : byte_at m i = Some c -> i < Z.of_nat (length m).
Proof. intros H%lookup_lt_Some. lia. Qed.
Lemma byte_at_ex m i : 0 <= i < Z.of_nat (length m) -> exists c, byte_at m i = Some c.
Proof. intros Hi. apply lookup_lt_is_Some_2. lia. Qed.

Lemma wp_ld m p c (Q : Z -> memory -> Prop) : 0 <= p -> byte_at m p = Some c -> Q c m -> wp (ld p) Q m.
Proof. intros Hp Hc HQ. unfold ld. wp_steps. by eapply wp_index. Qed.
Lemma wp_st m p v (Q : unit -> memory -> Prop) :
  0 <= p < Z.of_nat (length m) -> Q tt (<[Z.to_nat p := v]> m) -> wp (st p v) Q m.
Proof. intros Hp HQ. unfold st. wp_steps. apply wp_index_set; [done|]. by wp_steps. Qed.
Lemma wp_fuel m (Q : nat -> memory -> Prop) : Q (S (length m)) m -> wp fuel Q m.
Proof. intros HQ. unfold fuel. by wp_steps. Qed.

Lemma cstr_nonneg m p l : cstr m p l -> 0 <= p.
Proof. destruct l; simpl; tauto. Qed.
Lemma cstr_bound m p l : cstr m p l -> p + Z.of_nat (length l) < Z.of_nat (length m).
Proof.
  revert p. induction l as [|c l IH]; intros p; simpl.
  - intros [? H%byte_at_lt]. lia.
  - intros (? & _ & _ & H%IH). lia.
Qed.
Lemma cstr_frame m m' p l :
  cstr m p l -> (forall i, p <= i <= p + Z.of_nat (length l) -> byte_at m' i = byte_at m i) -> cstr m' p l.
Proof.
  revert p. induction l as [|c l IH]; intros p; simpl; intros [Hp H] Hf.
  - split; [done|]. rewrite Hf; [done|lia].
  - destruct H as (Hc & Hne & Hl). split; [done|]. split_and!; [rewrite Hf; [done|lia]|done|].
    apply IH; [done|]. intros; apply Hf; lia.
Qed.

Lemma cstr_lookup m p l k c : cstr m p l -> l !! k = Some c -> byte_at m (p + Z.of_nat k) = Some c.
Proof.
  revert p k. induction l as [|x l IH]; intros p k; simpl; [done|]. intros (Hp & Hx & _ & Hl) Hk.
  destruct k as [|k]; simpl in Hk; [injection Hk as <-; by rewrite Z.add_0_r|].
  replace (p + Z.of_nat (S k)) with (p + 1 + Z.of_nat k) by lia. by apply IH.
Qed.

(** *** Length and comparison *)

Lemma strlen_loop_spec m s l : forall n p,
  cstr m p l -> (length l < n)%nat ->
  wp (strlen_loop n s p) (fun r m' => m' = m /\ r = p + Z.of_nat (length l) - s) m.
Proof.
  induction l as [|c l IH]; intros n p Hc Hn; (destruct n as [|n]; simpl in Hn; [lia|]); simpl in *.
  - wp_step. eapply wp_ld; [tauto|apply Hc|]. simpl. wp_steps. split; [done|lia].
  - destruct Hc as (Hp & Hc & Hne & Hl). wp_step. eapply wp_ld; [done|done|].
    destruct (Z.eqb_spec c 0); [done|]. eapply wp_mono; [apply IH; [done|lia]|]. intros r m' [-> ->]. split; [done|lia].
Qed.

Lemma strlen_spec m s l : cstr m s l -> wp (strlen s) (fun r m' => m' = m /\ r = Z.of_nat (length l)) m.
Proof.
  intros Hc. unfold strlen. wp_step. apply wp_fuel. pose proof (cstr_bound _ _ _ Hc). pose proof (cstr_nonneg _ _ _ Hc).
  eapply wp_mono; [apply strlen_loop_spec; [done|lia]|]. intros r m' [-> ->]. split; [done|lia].
Qed.

(** The value of [strcmp]. *)
Fixpoint lexcmp (l1 l2 : list Z) : Z :=
  match l1, l2 with
  | [], [] => 0
  | [], c :: _ => - c
  | c :: _, [] => c
  | c1 :: l1', c2 :: l2' => if c1 =? c2 then lexcmp l1' l2' else c1 - c2
  end.

Lemma strcmp_loop_spec m s1 s2 l1 : forall n i l2,
  cstr m (s1 + i) l1 -> cstr m (s2 + i) l2 -> (length l1 < n)%nat ->
  wp (strcmp_loop n s1 s2 i) (fun r m' => m' = m /\ r = lexcmp l1 l2) m.
Proof.
  induction l1 as [|c1 l1 IH]; intros n i l2 H1 H2 Hn; (destruct n as [|n]; simpl in Hn; [lia|]); simpl in *.
  - destruct H1 as [Hp1 H1]. wp_step. eapply wp_ld; [done|done|]. wp_step.
    destruct l2 as [|c2 l2]; simpl in H2.
    + eapply wp_ld; [apply H2|apply H2|]. simpl. wp_steps. done.
    + destruct H2 as (Hp2 & Hc2 & Hne & _). eapply wp_ld; [done|done|]. cbv zeta.
      rewrite Z.eqb_refl, orb_true_r. wp_steps. split; [done|lia].
  - destruct H1 as (Hp1 & Hc1 & Hne1 & H1). wp_step. eapply wp_ld; [done|done|]. wp_step.
    rewrite (proj2 (Z.eqb_neq c1 0)) by done. destruct l2 as [|c2 l2]; simpl in H2.
    + eapply wp_ld; [apply H2|apply H2|]. cbv zeta. rewrite Z.sub_0_r, (proj2 (Z.eqb_neq c1 0)) by done. simpl. by wp_steps.
    + destruct H2 as (Hp2 & Hc2 & Hne2 & H2). eapply wp_ld; [done|done|]. cbv zeta. rewrite orb_false_r.
      destruct (Z.eqb_spec c1 c2) as [->|Hne].
      * rewrite Z.sub_diag. simpl. apply IH; [by rewrite Z.add_assoc|by rewrite Z.add_assoc|lia].
      * rewrite (proj2 (Z.eqb_neq (c1 - c2) 0)) by lia. simpl. by wp_steps.
Qed.

Lemma strcmp_spec m s1 s2 l1 l2 :
  cstr m s1 l1 -> cstr m s2 l2 -> wp (strcmp s1 s2) (fun r m' => m' = m /\ r = lexcmp l1 l2) m.
Proof.
  intros H1 H2. unfold strcmp. wp_step. apply wp_fuel. pose proof (cstr_bound _ _ _ H1). pose proof (cstr_nonneg _ _ _ H1).
  apply strcmp_loop_spec; [by rewrite Z.add_0_r|by rewrite Z.add_0_r|lia].
Qed.

(** The order [strcmp] decides: the first difference counts, and a proper
    prefix comes first. *)
Inductive lexlt : list Z -> list Z -> Prop :=
| lexlt_nil c l : lexlt [] (c :: l)
| lexlt_char c1 l1 c2 l2 : c1 < c2 -> lexlt (c1 :: l1) (c2 :: l2)
| lexlt_cons c l1 l2 : lexlt l1 l2 -> lexlt (c :: l1) (c :: l2).

Definition is_char (c : Z) : Prop := 0 < c < 256.
#[export] Instance is_char_dec c : Decision (is_char c).
Proof. unfold is_char. apply _. Defined.

Lemma lexcmp_eq l1 l2 : Forall is_char l1 -> Forall is_char l2 -> lexcmp l1 l2 = 0 <-> l1 = l2.
Proof.
  revert l2. induction l1 as [|c1 l1 IH]; intros [|c2 l2] H1 H2; simpl; rewrite ?Forall_cons in *; unfold is_char in *;
    try (split; [lia|done]); [done|]. destruct (Z.eqb_spec c1 c2) as [->|].
  - rewrite IH by tauto. split; congruence.
  - split; [lia|congruence].
Qed.

Lemma lexcmp_lt l1 l2 : Forall is_char l1 -> Forall is_char l2 -> lexcmp l1 l2 < 0 <-> lexlt l1 l2.
Proof.
  revert l2. induction l1 as [|c1 l1 IH]; intros [|c2 l2] H1 H2; simpl; rewrite ?Forall_cons in *; unfold is_char in *.
  - split; [lia|by inversion 1].
  - split; [constructor|lia].
  - split; [lia|by inversion 1].
  - destruct (Z.eqb_spec c1 c2) as [->|].
    + rewrite IH by tauto. split; [by constructor|]. inversion 1; [lia|done].
    + split; [constructor; lia|]. inversion 1; lia.
Qed.

Lemma lexcmp_anti l1 l2 : lexcmp l1 l2 = - lexcmp l2 l1.
Proof.
  revert l2. induction l1 as [|c1 l1 IH]; intros [|c2 l2]; simpl; try lia.
  rewrite (Z.eqb_sym c2). destruct (Z.eqb_spec c1 c2); [apply IH|lia].
Qed.

Lemma lexlt_trans l1 l2 l3 : lexlt l1 l2 -> lexlt l2 l3 -> lexlt l1 l3.
Proof.
  intros H. revert l3. induction H; inversion 1; subst; try apply lexlt_nil; try (apply lexlt_char; lia).
  apply lexlt_cons. by apply IHlexlt.
Qed.

(** *** Copying *)

(** [m'] is [m] with the bytes from [d] on replaced by [l]. *)
Definition written (m : memory) (d : Z) (l : list Z) (m' : memory) : Prop :=
  length m' = length m /\
  forall i, 0 <= i -> byte_at m' i =
    if (d <=? i) && (i <? d + Z.of_nat (length l)) then l !! Z.to_nat (i - d) else byte_at m i.

Lemma written_cons m d c l m' :
  0 <= d < Z.of_nat (length m) -> written (<[Z.to_nat d := c]> m) (d + 1) l m' -> written m d (c :: l) m'.
Proof.
  intros Hd [Hl Hw]. rewrite length_insert in Hl. split; [done|]. intros i Hi. rewrite Hw, byte_at_insert by done.
  simpl length. destruct (Z.leb_spec (d + 1) i), (Z.leb_spec d i); simpl; try lia.
  - destruct (Z.ltb_spec i (d + 1 + Z.of_nat (length l))), (Z.ltb_spec i (d + Z.of_nat (S (length l)))); try lia.
    + replace (Z.to_nat (i - d)) with (S (Z.to_nat (i - (d + 1)))) by lia. done.
    + destruct (Z.eqb_spec i d); [lia|done].
  - assert (i = d) as -> by lia. rewrite Z.eqb_refl, (proj2 (Z.ltb_lt _ _)) by lia. by rewrite Z.sub_diag.
  - destruct (Z.eqb_spec i d); [lia|done].
Qed.

Lemma written_nil m d : written m d [] m.
Proof.
  split; [done|]. intros i Hi.
  simpl length. destruct ((d <=? i) && (i <? d + Z.of_nat 0)) eqn:E; [|done]. exfalso. apply andb_true_iff in E. rewrite Z.leb_le, Z.ltb_lt in E. lia.
Qed.


Lemma written_ext m d l m1 m2 : written m d l m1 -> written m d l m2 -> m1 = m2.
Proof.
  intros [_ H1] [_ H2]. apply list_eq. intros k. specialize (H1 (Z.of_nat k) ltac:(lia)). specialize (H2 (Z.of_nat k) ltac:(lia)).
  unfold byte_at in *. rewrite Nat2Z.id in *. congruence.
Qed.
Lemma written_nil_inv m d m' : written m d [] m' -> m' = m.
Proof. intros H. eapply written_ext; [exact H|apply written_nil]. Qed.

(** A written string. *)
Lemma written_cstr m d l m' :
  0 <= d -> Forall (fun c => c <> 0) l -> written m d (l ++ [0]) m' -> cstr m' d l.
Proof.
  intros Hd Hl [_ Hw].
  assert (Hk : forall k c, (l ++ [0]) !! k = Some c -> byte_at m' (d + Z.of_nat k) = Some c).
  { intros k c Hk. pose proof (lookup_lt_Some _ _ _ Hk). rewrite Hw by lia.
    rewrite (proj2 (Z.leb_le _ _)), (proj2 (Z.ltb_lt _ _)) by lia. simpl.
    by replace (Z.to_nat (d + Z.of_nat k - d)) with k by lia. }
  clear Hw. revert d Hd Hk. induction Hl as [|c l Hc Hl IH]; intros d Hd Hk; simpl.
  - split; [done|]. rewrite <-(Z.add_0_r d). by apply (Hk 0%nat).
  - split; [done|]. split_and!; [|done|].
    + rewrite <-(Z.add_0_r d). by apply (Hk 0%nat).
    + apply IH; [lia|]. intros k x Hx. replace (d + 1 + Z.of_nat k) with (d + Z.of_nat (S k)) by lia. by apply Hk.
Qed.

Lemma cstr_nonzero m p l : cstr m p l -> Forall (fun c => c <> 0) l.
Proof. revert p. induction l as [|c l IH]; intros p; simpl; [done|]. intros (_ & _ & Hne & H%IH). by constructor. Qed.

(** Two regions [p, p + n) and [q, q + k) do not overlap. *)
Definition apart (p n q k : Z) : Prop := p + n <= q \/ q + k <= p.

Lemma strcpy_loop_spec d s l : forall n i m0,
  cstr m0 (s + i) l -> 0 <= d + i -> d + i + Z.of_nat (length l) < Z.of_nat (length m0) ->
  apart (s + i) (Z.of_nat (length l) + 1) (d + i) (Z.of_nat (length l) + 1) -> (length l < n)%nat ->
  wp (strcpy_loop n d s i) (fun _ m' => written m0 (d + i) (l ++ [0]) m') m0.
Proof.
  induction l as [|c l IH]; intros n i m0 Hc Hd Hb Hap Hn; (destruct n as [|n]; simpl in Hn; [lia|]); simpl in *.
  - wp_step. eapply wp_ld; [apply Hc|apply Hc|]. wp_step. apply wp_st; [lia|]. simpl. wp_steps.
    apply written_cons; [lia|]. apply written_nil.
  - destruct Hc as (Hp & Hc & Hne & Hl). wp_step. eapply wp_ld; [done|done|]. wp_step. apply wp_st; [lia|].
    rewrite (proj2 (Z.eqb_neq c 0)) by done. unfold apart in Hap.
    eapply wp_mono; [apply (IH n (i + 1))|].
    + rewrite Z.add_assoc. eapply cstr_frame; [done|]. intros j Hj. rewrite byte_at_insert by lia.
      destruct (Z.eqb_spec j (d + i)); [lia|done].
    + lia.
    + rewrite length_insert. lia.
    + unfold apart. lia.
    + lia.
    + cbn beta. intros _ m' Hw. apply written_cons; [lia|]. by rewrite <-Z.add_assoc.
Qed.

Lemma strcpy_spec m d s l :
  cstr m s l -> 0 <= d -> d + Z.of_nat (length l) < Z.of_nat (length m) ->
  apart s (Z.of_nat (length l) + 1) d (Z.of_nat (length l) + 1) ->
  wp (strcpy d s) (fun r m' => r = d /\ written m d (l ++ [0]) m') m.
Proof.
  intros Hc Hd Hb Hap. pose proof (cstr_bound _ _ _ Hc). pose proof (cstr_nonneg _ _ _ Hc).
  unfold strcpy. wp_step. apply wp_fuel. wp_step.
  eapply wp_mono; [apply (strcpy_loop_spec d s l _ 0); rewrite ?Z.add_0_r; (done || lia)|]. simpl.
  intros _ m' Hw. wp_steps. rewrite Z.add_0_r in Hw. done.
Qed.

Lemma strcat_spec m s t a b :
  cstr m s a -> cstr m t b -> s + Z.of_nat (length a) + Z.of_nat (length b) < Z.of_nat (length m) ->
  apart t (Z.of_nat (length b) + 1) s (Z.of_nat (length a) + Z.of_nat (length b) + 1) ->
  wp (strcat s t) (fun r m' => r = s /\ cstr m' s (a ++ b) /\ written m (s + Z.of_nat (length a)) (b ++ [0]) m') m.
Proof.
  intros Ha Hb Hroom Hap. pose proof (cstr_nonneg _ _ _ Ha). unfold apart in Hap. unfold strcat. wp_step.
  eapply wp_mono; [by apply (strlen_spec m s a)|]. intros k m' [-> ->]. wp_step.
  eapply wp_mono; [apply (strcpy_spec m _ t b); [done|lia|lia|unfold apart; lia]|]. simpl.
  intros _ m' [_ Hw]. wp_steps. split_and!; [done| |done].
  apply (written_cstr m s (a ++ b)); [done|apply Forall_app; split; by eapply cstr_nonzero|].
  destruct Hw as [Hlen Hw]. split; [done|]. intros i Hi. rewrite Hw by done. rewrite <-app_assoc, !length_app. simpl.
  destruct (Z.leb_spec (s + Z.of_nat (length a)) i), (Z.leb_spec s i); simpl; try lia.
  - rewrite (lookup_app_r a) by lia.
    replace (Z.to_nat (i - s) - length a)%nat with (Z.to_nat (i - (s + Z.of_nat (length a)))) by lia.
    destruct (Z.ltb_spec i (s + Z.of_nat (length a) + Z.of_nat (length b + 1))),
      (Z.ltb_spec i (s + Z.of_nat (length a + (length b + 1)))); try lia; done.
  - rewrite (proj2 (Z.ltb_lt _ _)) by lia. rewrite lookup_app_l by lia.
    destruct (lookup_lt_is_Some_2 a (Z.to_nat (i - s))) as [c Hc]; [lia|]. rewrite Hc.
    rewrite <-(cstr_lookup _ _ _ _ _ Ha Hc). f_equal. lia.
  - done.
Qed.

(** *** Bounded copies *)

Lemma strlcpy_copy_spec dst src : forall k i m0 l,
  cstr m0 (src + i) l -> 0 <= dst + i -> dst + i + Z.of_nat k <= Z.of_nat (length m0) ->
  apart (src + i) (Z.of_nat (length l) + 1) (dst + i) (Z.of_nat k) ->
  wp (strlcpy_copy k dst src i) (fun r m' =>
    if decide (length l < k)%nat then r = i + Z.of_nat (length l) /\ written m0 (dst + i) (l ++ [0]) m'
    else r = i + Z.of_nat k /\ written m0 (dst + i) (take k l) m') m0.
Proof.
  induction k as [|k IH]; intros i m0 l Hc Hd Hb Hap.
  - cbn [strlcpy_copy]. wp_steps. rewrite decide_False by lia. split; [lia|]. apply written_nil.
  - cbn [strlcpy_copy]. wp_step. destruct l as [|c l]; simpl in Hc.
    + eapply wp_ld; [apply Hc|apply Hc|]. wp_step. apply wp_st; [lia|]. rewrite Z.eqb_refl. wp_steps. rewrite decide_True by (simpl; lia).
      split; [simpl; lia|]. apply written_cons; [lia|apply written_nil].
    + destruct Hc as (Hp & Hc & Hne & Hl). eapply wp_ld; [done|done|]. wp_step. apply wp_st; [lia|].
      rewrite (proj2 (Z.eqb_neq c 0)) by done. unfold apart in *. simpl in Hap.
      eapply wp_mono; [apply (IH (i + 1) _ l)|].
      * rewrite Z.add_assoc. eapply cstr_frame; [done|]. intros j Hj. rewrite byte_at_insert by lia.
        destruct (Z.eqb_spec j (dst + i)); [lia|done].
      * lia.
      * rewrite length_insert. lia.
      * unfold apart. lia.
      * cbn beta. intros r m' Hr. change (length (c :: l)) with (S (length l)). destruct (decide (length l < k)%nat).
        -- rewrite decide_True by lia. destruct Hr as [-> Hw]. split; [lia|]. apply written_cons; [lia|].
           by rewrite <-Z.add_assoc.
        -- rewrite decide_False by lia. destruct Hr as [-> Hw]. split; [lia|]. simpl. apply written_cons; [lia|].
           by rewrite <-Z.add_assoc.
Qed.

Lemma strlcpy_skip_spec m src l : forall n i,
  cstr m (src + i) l -> (length l < n)%nat ->
  wp (strlcpy_skip n src i) (fun r m' => m' = m /\ r = i + Z.of_nat (length l)) m.
Proof.
  induction l as [|c l IH]; intros n i Hc Hn; (destruct n as [|n]; simpl in Hn; [lia|]); simpl in *.
  - wp_step. eapply wp_ld; [apply Hc|apply Hc|]. simpl. wp_steps. split; [done|lia].
  - destruct Hc as (Hp & Hc & Hne & Hl). wp_step. eapply wp_ld; [done|done|]. rewrite (proj2 (Z.eqb_neq c 0)) by done.
    eapply wp_mono; [apply (IH n (i + 1)); [by rewrite Z.add_assoc|lia]|]. intros r m' [-> ->]. split; [done|lia].
Qed.

Lemma cstr_drop m p l k : cstr m p l -> (k <= length l)%nat -> cstr m (p + Z.of_nat k) (drop k l).
Proof.
  revert p k. induction l as [|c l IH]; intros p [|k] Hc Hk; simpl in *; try lia.
  - by rewrite Z.add_0_r.
  - by rewrite Z.add_0_r.
  - replace (p + Z.of_nat (S k)) with (p + 1 + Z.of_nat k) by lia. apply IH; [tauto|lia].
Qed.

(** Overwriting the last byte that was written. *)
Lemma written_last m d l c x m1 :
  0 <= d -> d + Z.of_nat (length l) < Z.of_nat (length m) -> written m d (l ++ [c]) m1 ->
  written m d (l ++ [x]) (<[Z.to_nat (d + Z.of_nat (length l)) := x]> m1).
Proof.
  intros Hd Hb [Hlen Hw]. split; [by rewrite length_insert|]. intros i Hi. rewrite byte_at_insert by lia. rewrite Hw by done.
  rewrite !length_app. simpl. destruct (Z.eqb_spec i (d + Z.of_nat (length l))) as [->|Hne].
  - rewrite (proj2 (Z.leb_le _ _)), (proj2 (Z.ltb_lt _ _)) by lia. simpl.
    replace (Z.to_nat (d + Z.of_nat (length l) - d)) with (length l) by lia. by rewrite list_lookup_middle.
  - destruct (Z.leb_spec d i), (Z.ltb_spec i (d + Z.of_nat (length l + 1))); simpl; try done.
    rewrite !lookup_app_l by lia. done.
Qed.

Lemma strlcpy_spec m dst src size l :
  cstr m src l -> 0 <= dst -> 0 <= size -> dst + size <= Z.of_nat (length m) ->
  apart src (Z.of_nat (length l) + 1) dst size ->
  wp (strlcpy dst src size) (fun r m' => r = Z.of_nat (length l) /\
    if size =? 0 then m' = m else written m dst (take (Z.to_nat (size - 1)) l ++ [0]) m') m.
Proof.
  intros Hc Hd Hs Hb Hap. pose proof (cstr_bound _ _ _ Hc). pose proof (cstr_nonneg _ _ _ Hc).
  unfold strlcpy. wp_step.
  eapply wp_mono; [apply (strlcpy_copy_spec dst src (Z.to_nat size) 0 m l);
    rewrite ?Z.add_0_r, ?Z2Nat.id by lia; (done || lia)|].
  simpl. rewrite !Z.add_0_r. intros r m1. destruct (decide (length l < Z.to_nat size)%nat) as [Hlt|Hge]; intros [-> Hw].
  - rewrite (proj2 (Z.eqb_neq _ size)) by lia. wp_steps. split; [lia|]. rewrite (proj2 (Z.eqb_neq size 0)) by lia.
    rewrite take_ge by lia. done.
  - rewrite Z2Nat.id, Z.eqb_refl by lia. wp_step. apply wp_fuel. wp_step.
    assert (Hc1 : cstr m1 (src + size) (drop (Z.to_nat size) l)).
    { destruct Hw as [Hlen Hw]. pose proof (cstr_drop m src l (Z.to_nat size) Hc ltac:(lia)) as Hcd.
      rewrite Z2Nat.id in Hcd by lia. eapply cstr_frame; [exact Hcd|]. rewrite length_drop. intros j Hj. rewrite Hw by lia.
      rewrite length_take. unfold apart in Hap.
      destruct (Z.leb_spec dst j), (Z.ltb_spec j (dst + Z.of_nat (Z.to_nat size `min` length l))); simpl; try done; lia. }
    eapply wp_mono; [apply strlcpy_skip_spec; [exact Hc1|]|].
    { destruct Hw as [Hlen _]. rewrite length_drop, Hlen. lia. }
    intros r m' [-> ->]. rewrite length_drop. destruct (Z.eqb_spec size 0) as [->|Hne]; simpl.
    + wp_steps. simpl in Hw. split; [lia|].
      by apply written_nil_inv in Hw.
    + assert (Hsp : take (Z.to_nat size) l = take (Z.to_nat (size - 1)) l ++ [default 0 (l !! Z.to_nat (size - 1))]).
      { destruct (lookup_lt_is_Some_2 l (Z.to_nat (size - 1))) as [c Hlc]; [lia|]. rewrite Hlc. simpl.
        rewrite <-(take_S_r _ _ _ Hlc). f_equal. lia. }
      rewrite Hsp in Hw. pose proof Hw as [Hlen _]. wp_step. apply wp_st; [lia|]. wp_steps. split; [lia|].
      assert (Hlt : length (take (Z.to_nat (size - 1)) l) = Z.to_nat (size - 1)) by (rewrite length_take; lia).
      replace (dst + size - 1) with (dst + Z.of_nat (length (take (Z.to_nat (size - 1)) l))) by lia.
      eapply written_last; [done|lia|done].
Qed.

(** *** Memory moves *)

(** [m'] is [m] with the [n] bytes that were at [s] now at [d]. *)
Definition moved (m : memory) (d s n : Z) (m' : memory) : Prop :=
  length m' = length m /\
  forall i, 0 <= i -> byte_at m' i = if (d <=? i) && (i <? d + n) then byte_at m (s + i - d) else byte_at m i.

Ltac index_cases :=
  repeat match goal with
    | |- context [?x <=? ?y] => destruct (Z.leb_spec x y)
    | |- context [?x <? ?y] => destruct (Z.ltb_spec x y)
    | |- context [?x =? ?y] => destruct (Z.eqb_spec x y)
    end; simpl.

Lemma memcpy_loop_spec k : forall m d s,
  0 <= d -> 0 <= s -> d + Z.of_nat k <= Z.of_nat (length m) -> s + Z.of_nat k <= Z.of_nat (length m) ->
  d <= s \/ s + Z.of_nat k <= d ->
  wp (memcpy_loop k d s) (fun _ m' => moved m d s (Z.of_nat k) m') m.
Proof.
  induction k as [|k IH]; intros m d s Hd Hs Hbd Hbs Hdir.
  - cbn [memcpy_loop]. wp_steps. split; [done|]. intros i Hi. index_cases; try done; lia.
  - cbn [memcpy_loop]. destruct (byte_at_ex m s) as [c Hc]; [lia|]. wp_step. eapply wp_ld; [done|done|]. wp_step.
    apply wp_st; [lia|]. eapply wp_mono; [apply IH; rewrite ?length_insert; lia|]. cbn beta. intros _ m' [Hl Hm].
    rewrite length_insert in Hl. split; [done|]. intros i Hi. rewrite Hm by done.
    destruct (Z.leb_spec d i), (Z.ltb_spec i (d + Z.of_nat (S k))); simpl.
    + destruct (Z.leb_spec (d + 1) i); simpl.
      * rewrite (proj2 (Z.ltb_lt _ _)) by lia. rewrite byte_at_insert by lia.
        replace (s + 1 + i - (d + 1)) with (s + i - d) by lia. destruct (Z.eqb_spec (s + i - d) d); [lia|done].
      * assert (i = d) as -> by lia. rewrite byte_at_insert, Z.eqb_refl by lia. rewrite <-Hc. f_equal. lia.
    + rewrite (proj2 (Z.ltb_ge _ _)), andb_false_r by lia. rewrite byte_at_insert by lia.
      destruct (Z.eqb_spec i d); [lia|done].
    + rewrite (proj2 (Z.leb_gt _ _)) by lia. simpl. rewrite byte_at_insert by lia. destruct (Z.eqb_spec i d); [lia|done].
    + lia.
Qed.

Lemma memmove_down_spec k : forall m d s,
  0 <= d -> 0 <= s -> d + Z.of_nat k <= Z.of_nat (length m) -> s <= d ->
  wp (memmove_down k d s) (fun _ m' => moved m d s (Z.of_nat k) m') m.
Proof.
  induction k as [|k IH]; intros m d s Hd Hs Hbd Hdir.
  - cbn [memmove_down]. wp_steps. split; [done|]. intros i Hi. index_cases; try done; lia.
  - cbn [memmove_down]. cbv zeta. destruct (byte_at_ex m (s + Z.of_nat (S k) - 1)) as [c Hc]; [lia|]. wp_step.
    eapply wp_ld; [lia|done|]. wp_step. apply wp_st; [lia|]. eapply wp_mono; [apply IH; rewrite ?length_insert; lia|].
    cbn beta. intros _ m' [Hl Hm]. rewrite length_insert in Hl. split; [done|]. intros i Hi. rewrite Hm by done.
    destruct (Z.leb_spec d i); simpl; [|rewrite byte_at_insert by lia; destruct (Z.eqb_spec i (d + Z.of_nat (S k) - 1)); [lia|done]].
    destruct (Z.ltb_spec i (d + Z.of_nat k)).
    + rewrite (proj2 (Z.ltb_lt _ _)) by lia. rewrite byte_at_insert by lia.
      destruct (Z.eqb_spec (s + i - d) (d + Z.of_nat (S k) - 1)); [lia|done].
    + rewrite byte_at_insert by lia. destruct (Z.eqb_spec i (d + Z.of_nat (S k) - 1)) as [->|].
      * rewrite (proj2 (Z.ltb_lt _ _)) by lia. rewrite <-Hc. f_equal. lia.
      * rewrite (proj2 (Z.ltb_ge _ _)) by lia. done.
Qed.

Lemma memmove_spec m d s n :
  0 <= d -> 0 <= s -> 0 <= n -> d + n <= Z.of_nat (length m) -> s + n <= Z.of_nat (length m) ->
  wp (memmove d s n) (fun r m' => r = d /\ moved m d s n m') m.
Proof.
  intros Hd Hs Hn Hbd Hbs. unfold memmove.
  destruct (Z.leb_spec d s), (Z.leb_spec (s + n) d); simpl; unfold memcpy; wp_step;
    (eapply wp_mono; [first [apply memmove_down_spec; lia | apply memcpy_loop_spec; lia]|]);
    cbn beta; intros _ m' Hm; wp_steps; rewrite Z2Nat.id in Hm by done; done.
Qed.

(** *** The word-wise variants *)

Definition is_byte (c : Z) : Prop := 0 <= c < 256.

Lemma memset_bytes_spec k : forall m p x,
  0 <= p -> p + Z.of_nat k <= Z.of_nat (length m) ->
  wp (memset_bytes k p x) (fun _ m' => written m p (replicate k x) m') m.
Proof.
  induction k as [|k IH]; intros m p x Hp Hb; cbn [memset_bytes].
  - wp_steps. apply written_nil.
  - wp_step. apply wp_st; [lia|]. eapply wp_mono; [apply IH; rewrite ?length_insert; lia|]. cbn beta. intros _ m' Hw.
    cbn [replicate]. apply written_cons; [lia|done].
Qed.

(** Consecutive writes. *)
Lemma written_app m d l1 l2 m1 m2 :
  0 <= d -> written m d l1 m1 -> written m1 (d + Z.of_nat (length l1)) l2 m2 -> written m d (l1 ++ l2) m2.
Proof.
  intros Hd [Hl1 H1] [Hl2 H2]. split; [congruence|]. intros i Hi. rewrite H2, H1 by done. rewrite length_app.
  destruct (Z.leb_spec (d + Z.of_nat (length l1)) i), (Z.leb_spec d i); simpl; try lia; try done.
  - rewrite (proj2 (Z.ltb_ge i (d + Z.of_nat (length l1)))) by lia.
    destruct (Z.ltb_spec i (d + Z.of_nat (length l1) + Z.of_nat (length l2))),
      (Z.ltb_spec i (d + Z.of_nat (length l1 + length l2))); try lia; try done.
    rewrite lookup_app_r by lia. f_equal. lia.
  - destruct (Z.ltb_spec i (d + Z.of_nat (length l1))), (Z.ltb_spec i (d + Z.of_nat (length l1 + length l2))); try lia.
    by rewrite lookup_app_l by lia.
Qed.

(** The four bytes of the pattern. *)
Definition pattern_of (x : Z) : Z := Z.lor (Z.lor (Z.lor x (Z.shiftl x 8)) (Z.shiftl x 16)) (Z.shiftl x 24).
Definition pattern_ok (x : Z) : bool :=
  (Z.land (pattern_of x) 0xff =? x) && (Z.land (Z.shiftr (pattern_of x) 8) 0xff =? x) &&
  (Z.land (Z.shiftr (pattern_of x) 16) 0xff =? x) && (Z.land (Z.shiftr (pattern_of x) 24) 0xff =? x).
Lemma pattern_bytes x : is_byte x -> pattern_ok x = true.
Proof.
  intros Hx. assert (Hall : forallb pattern_ok (Z.of_nat <$> seq 0 256) = true) by (vm_compute; reflexivity).
  rewrite forallb_forall in Hall. apply Hall. apply list_elem_of_In, list_elem_of_fmap. exists (Z.to_nat x).
  unfold is_byte in Hx. split; [lia|]. apply elem_of_seq. lia.
Qed.

Lemma st_word_pattern m p x :
  is_byte x -> 0 <= p -> p + 4 <= Z.of_nat (length m) ->
  wp (st_word p (pattern_of x)) (fun _ m' => written m p (replicate 4 x) m') m.
Proof.
  intros Hx Hp Hb. pose proof (pattern_bytes x Hx) as Hok. unfold pattern_ok in Hok.
  rewrite !andb_true_iff, !Z.eqb_eq in Hok. destruct Hok as [[[E0 E1] E2] E3].
  unfold st_word. rewrite E0, E1, E2, E3.
  wp_step. apply wp_st; [lia|]. wp_step. apply wp_st; [rewrite ?length_insert; lia|]. wp_step.
  apply wp_st; [rewrite ?length_insert; lia|]. apply wp_st; [rewrite ?length_insert; lia|].
  cbn [replicate]. apply written_cons; [lia|]. apply written_cons; [rewrite ?length_insert; lia|].
  replace (p + 1 + 1) with (p + 2) by lia. apply written_cons; [rewrite ?length_insert; lia|].
  replace (p + 2 + 1) with (p + 3) by lia. apply written_cons; [rewrite ?length_insert; lia|]. apply written_nil.
Qed.

Lemma memset_words_spec f : forall m p num x,
  is_byte x -> 0 <= num <= Z.of_nat f -> 0 <= p -> p + 4 * num <= Z.of_nat (length m) ->
  wp (memset_words f p num (pattern_of x)) (fun r m' => r = p + 4 * num /\ written m p (replicate (Z.to_nat (4 * num)) x) m') m.
Proof.
  induction f as [|f IH]; intros m p num x Hx Hn Hp Hb; cbn [memset_words]; destruct (Z.eqb_spec num 0) as [->|Hne]; try lia.
  1,2: wp_steps; (split; [lia|]); apply written_nil.
  assert (Hw1 : forall m1, length m1 = length m -> forall q, 0 <= q -> q + 4 <= Z.of_nat (length m) ->
    wp (st_word q (pattern_of x)) (fun _ m' => written m1 q (replicate 4 x) m') m1).
  { intros m1 Hl q Hq Hqb. apply st_word_pattern; [done|done|by rewrite Hl]. }
  destruct (Z.eqb_spec (Z.land num 3) 0) as [H4|H4].
  - assert (4 <= num).
    { change 3 with (Z.ones 2) in H4. rewrite Z.land_ones in H4 by lia. change (2 ^ 2) with 4 in H4. Z.div_mod_to_equations. lia. }
    wp_step. eapply wp_mono; [apply Hw1; (done || lia)|]. cbn beta. intros _ m1 W1. pose proof W1 as [L1 _].
    wp_step. eapply wp_mono; [apply Hw1; (done || lia)|]. cbn beta. intros _ m2 W2. pose proof W2 as [L2 _].
    wp_step. eapply wp_mono; [apply Hw1; (congruence || lia)|]. cbn beta. intros _ m3 W3. pose proof W3 as [L3 _].
    wp_step. eapply wp_mono; [apply Hw1; (congruence || lia)|]. cbn beta. intros _ m4 W4. pose proof W4 as [L4 _].
    eapply wp_mono; [apply (IH m4 (p + 16) (num - 4) x); [done|lia|lia|rewrite L4, L3, L2, L1; lia]|]. cbn beta.
    intros r m' [-> W5]. split; [lia|].
    replace (Z.to_nat (4 * num)) with (4 + (4 + (4 + (4 + Z.to_nat (4 * (num - 4))))))%nat by lia.
    rewrite !replicate_add. eapply written_app; [done|exact W1|]. eapply written_app; [rewrite length_replicate; lia|rewrite length_replicate; exact W2|].
    rewrite !length_replicate in *. eapply written_app; [lia|replace (p + Z.of_nat 4 + Z.of_nat 4) with (p + 8) by lia; exact W3|].
    rewrite !length_replicate. eapply written_app; [lia|replace (p + Z.of_nat 4 + Z.of_nat 4 + Z.of_nat 4) with (p + 12) by lia; exact W4|].
    rewrite !length_replicate. replace (p + Z.of_nat 4 + Z.of_nat 4 + Z.of_nat 4 + Z.of_nat 4) with (p + 16) by lia. exact W5.
  - wp_step. eapply wp_mono; [apply Hw1; (done || lia)|]. cbn beta. intros _ m1 W1. pose proof W1 as [L1 _].
    eapply wp_mono; [apply (IH m1 (p + 4) (num - 1) x); [done|lia|lia|rewrite L1; lia]|]. cbn beta.
    intros r m' [-> W2]. split; [lia|]. replace (Z.to_nat (4 * num)) with (4 + Z.to_nat (4 * (num - 1)))%nat by lia.
    rewrite replicate_add. eapply written_app; [done|exact W1|]. by rewrite length_replicate.
Qed.

Lemma memset_spec m s c n :
  0 <= s -> 0 <= n -> s + n <= Z.of_nat (length m) ->
  wp (memset s c n) (fun r m' => r = s /\ written m s (replicate (Z.to_nat n) (Z.land c 0xff)) m') m.
Proof.
  intros Hs Hn Hb. unfold memset. wp_step. eapply wp_mono; [apply memset_bytes_spec; lia|]. cbn beta. intros _ m' Hw. by wp_steps.
Qed.

Lemma land_byte c : is_byte (Z.land c 0xff).
Proof.
  unfold is_byte. change 0xff with (Z.ones 8). rewrite Z.land_ones by lia. change (2 ^ 8) with 256. Z.div_mod_to_equations. lia.
Qed.
Lemma land_align a : Z.land a 3 = a mod 4.
Proof. change 3 with (Z.ones 2). rewrite Z.land_ones by lia. done. Qed.

Lemma memset_speed_spec m s c n :
  0 <= s -> 0 <= n -> s + n <= Z.of_nat (length m) ->
  wp (memset_speed s c n) (fun r m' => r = s /\ written m s (replicate (Z.to_nat n) (Z.land c 0xff)) m') m.
Proof.
  intros Hs Hn Hb. unfold memset_speed. pose proof (land_byte c) as Hx. set (x := Z.land c 0xff) in *. cbv zeta.
  set (lead := if negb (Z.land s 3 =? 0) then _ else _).
  assert (Hlead : 0 <= lead <= n).
  { unfold lead. rewrite land_align. destruct (Z.eqb_spec (s mod 4) 0), (Z.ltb_spec 3 n); simpl; Z.div_mod_to_equations; lia. }
  wp_step. eapply wp_mono; [apply memset_bytes_spec; lia|]. cbn beta. intros _ m1 W1. pose proof W1 as [L1 _].
  set (num := (n - lead) / 4). assert (Hnum : 0 <= num /\ 4 * num <= n - lead) by (unfold num; Z.div_mod_to_equations; lia).
  wp_step. change (Z.lor (Z.lor (Z.lor x (Z.shiftl x 8)) (Z.shiftl x 16)) (Z.shiftl x 24)) with (pattern_of x).
  eapply wp_mono; [apply (memset_words_spec _ m1 (s + lead) num x); [done|lia|lia|rewrite L1; lia]|]. cbn beta.
  intros r m2 [-> W2]. pose proof W2 as [L2 _]. wp_step. rewrite land_align.
  assert (Hrest : (n - lead) mod 4 = n - lead - 4 * num) by (unfold num; Z.div_mod_to_equations; lia).
  rewrite Hrest. eapply wp_mono; [apply memset_bytes_spec; [lia|rewrite L2, L1; lia]|]. cbn beta. intros _ m3 W3. wp_steps.
  split; [done|].
  replace (Z.to_nat n) with (Z.to_nat lead + (Z.to_nat (4 * num) + Z.to_nat (n - lead - 4 * num)))%nat by lia.
  rewrite !replicate_add. eapply written_app; [done|exact W1|].
  eapply written_app; rewrite ?length_replicate; [lia|replace (s + Z.of_nat (Z.to_nat lead)) with (s + lead) by lia; exact W2|].
  replace (s + Z.of_nat (Z.to_nat lead) + Z.of_nat (Z.to_nat (4 * num))) with (s + lead + 4 * num) by lia. exact W3.
Qed.

(** Two runs that end in the same result. *)
Lemma wp_det {A} (c1 c2 : M memory A) a m (P : memory -> Prop) :
  (forall m1 m2, P m1 -> P m2 -> m1 = m2) ->
  wp c1 (fun r m' => r = a /\ P m') m -> wp c2 (fun r m' => r = a /\ P m') m -> c1 m = c2 m.
Proof.
  intros HP H1 H2. unfold wp in *. destruct (c1 m) as [r1 m1|]; [|done]. destruct (c2 m) as [r2 m2|]; [|done].
  destruct H1 as [-> H1], H2 as [-> H2]. f_equal. by apply HP.
Qed.

Lemma word_bytes b0 b1 b2 b3 :
  is_byte b0 -> is_byte b1 -> is_byte b2 -> is_byte b3 ->
  let w := b0 + Z.shiftl b1 8 + Z.shiftl b2 16 + Z.shiftl b3 24 in
  Z.land w 0xff = b0 /\ Z.land (Z.shiftr w 8) 0xff = b1 /\ Z.land (Z.shiftr w 16) 0xff = b2 /\
  Z.land (Z.shiftr w 24) 0xff = b3.
Proof.
  unfold is_byte. intros ? ? ? ?. cbv zeta. change 0xff with (Z.ones 8). rewrite !Z.land_ones, !Z.shiftr_div_pow2, !Z.shiftl_mul_pow2 by lia.
  change (2 ^ 8) with 256. change (2 ^ 16) with 65536. change (2 ^ 24) with 16777216.
  split_and!; Z.div_mod_to_equations; lia.
Qed.

Lemma memcpy_loop_total k : forall m d s,
  0 <= d -> 0 <= s -> d + Z.of_nat k <= Z.of_nat (length m) -> s + Z.of_nat k <= Z.of_nat (length m) ->
  wp (memcpy_loop k d s) (fun _ _ => True) m.
Proof.
  induction k as [|k IH]; intros m d s Hd Hs Hbd Hbs; cbn [memcpy_loop]; [by wp_steps|].
  destruct (byte_at_ex m s) as [c Hc]; [lia|]. wp_step. eapply wp_ld; [done|done|]. wp_step. apply wp_st; [lia|].
  apply IH; rewrite ?length_insert; lia.
Qed.

Lemma ld_run m p c : 0 <= p -> byte_at m p = Some c -> ld p m = Done c m.
Proof.
  intros Hp Hc. unfold ld, bind, gets, index, id. rewrite (proj2 (Z.leb_le 0 p)) by done. unfold byte_at in Hc. by rewrite Hc.
Qed.
Lemma st_run m p v : 0 <= p < Z.of_nat (length m) -> st p v m = Done tt (<[Z.to_nat p := v]> m).
Proof.
  intros Hp. pose proof (wp_st m p v (fun _ m' => m' = <[Z.to_nat p := v]> m) Hp eq_refl) as H. unfold wp in H.
  destruct (st p v m) as [[] m'|]; [by subst|done].
Qed.

(** Bounds, and bytes that have not been overwritten. *)
Ltac other_byte :=
  first
    [ rewrite ?length_insert; lia
    | rewrite !byte_at_insert by (rewrite ?length_insert; lia);
      repeat match goal with |- context [?a =? ?b] => destruct (Z.eqb_spec a b); [lia|] end; done ].

(** A word copied at once, and byte by byte. *)
Lemma copy_word m d s (Q : unit -> memory -> Prop) k :
  Forall is_byte m -> 0 <= d -> 0 <= s -> d + 4 <= Z.of_nat (length m) -> s + 4 <= Z.of_nat (length m) ->
  (d - s) mod 4 = 0 ->
  wp (memcpy_loop (S (S (S (S k)))) d s) Q m ->
  wp (let! w := ld_word s in st_word d w) (fun _ m' => Forall is_byte m' /\ length m' = length m /\
    wp (memcpy_loop k (d + 4) (s + 4)) Q m') m.
Proof.
  intros Hm Hd Hs Hbd Hbs Hal Hwp.
  destruct (byte_at_ex m s) as [b0 B0]; [lia|]. destruct (byte_at_ex m (s + 1)) as [b1 B1]; [lia|].
  destruct (byte_at_ex m (s + 2)) as [b2 B2]; [lia|]. destruct (byte_at_ex m (s + 3)) as [b3 B3]; [lia|].
  assert (Hby : is_byte b0 /\ is_byte b1 /\ is_byte b2 /\ is_byte b3).
  { rewrite Forall_forall in Hm. unfold byte_at in *. split_and!; apply Hm; by eapply list_elem_of_lookup_2. }
  destruct Hby as (Y0 & Y1 & Y2 & Y3). destruct (word_bytes b0 b1 b2 b3 Y0 Y1 Y2 Y3) as (E0 & E1 & E2 & E3).
  wp_step. unfold ld_word. wp_step. eapply wp_ld; [done|done|]. wp_step. eapply wp_ld; [lia|done|]. wp_step.
  eapply wp_ld; [lia|done|]. wp_step. eapply wp_ld; [lia|done|]. wp_steps. unfold st_word. rewrite E0, E1, E2, E3.
  wp_step. apply wp_st; [lia|]. wp_step. apply wp_st; [rewrite ?length_insert; lia|]. wp_step.
  apply wp_st; [rewrite ?length_insert; lia|]. apply wp_st; [rewrite ?length_insert; lia|].
  split_and!; [repeat apply Forall_insert; done|by rewrite !length_insert|].
  (* the byte-wise loop reaches the same state *)
  assert (Hne : s + 1 <> d /\ s + 2 <> d /\ s + 3 <> d /\ s + 2 <> d + 1 /\ s + 3 <> d + 1 /\ s + 3 <> d + 2)
    by (Z.div_mod_to_equations; lia).
  cbn [memcpy_loop] in Hwp. unfold wp, bind in Hwp.
  rewrite (ld_run m s b0), st_run in Hwp by (done || lia). rewrite (ld_run _ (s + 1) b1), st_run in Hwp by other_byte.
  replace (s + 1 + 1) with (s + 2) in Hwp by lia. replace (d + 1 + 1) with (d + 2) in Hwp by lia.
  rewrite (ld_run _ (s + 2) b2), st_run in Hwp by other_byte.
  replace (s + 2 + 1) with (s + 3) in Hwp by lia. replace (d + 2 + 1) with (d + 3) in Hwp by lia.
  rewrite (ld_run _ (s + 3) b3), st_run in Hwp by other_byte.
  replace (s + 3 + 1) with (s + 4) in Hwp by lia. replace (d + 3 + 1) with (d + 4) in Hwp by lia. exact Hwp.
Qed.

Lemma memcpy_words_refines k : forall m d s (Q : unit -> memory -> Prop),
  Forall is_byte m -> 0 <= d -> 0 <= s -> d + 4 * Z.of_nat k <= Z.of_nat (length m) ->
  s + 4 * Z.of_nat k <= Z.of_nat (length m) -> (d - s) mod 4 = 0 ->
  wp (memcpy_loop (4 * k) d s) Q m -> wp (memcpy_words k d s) Q m.
Proof.
  induction k as [|k IH]; intros m d s Q Hm Hd Hs Hbd Hbs Hal Hwp; [done|].
  replace (4 * S k)%nat with (S (S (S (S (4 * k))))) in Hwp by lia.
  apply copy_word in Hwp; [|done|lia|lia|lia|lia|done]. cbn [memcpy_words].
  unfold wp, bind in Hwp |- *. destruct (ld_word s m) as [w m0|]; [|done]. destruct (st_word d w m0) as [[] m1|]; [|done].
  destruct Hwp as (Hm1 & Hl1 & Hwp). apply IH; try done; try lia. Z.div_mod_to_equations. lia.
Qed.

Lemma memcpy_speed_eq m d s n :
  Forall is_byte m -> 0 <= d -> 0 <= s -> 0 <= n -> d + n <= Z.of_nat (length m) -> s + n <= Z.of_nat (length m) ->
  memcpy_speed d s n m = memcpy d s n m.
Proof.
  intros Hm Hd Hs Hn Hbd Hbs. unfold memcpy_speed, memcpy. cbv zeta. rewrite !land_align.
  destruct (Z.eqb_spec (d mod 4) 0), (Z.eqb_spec (s mod 4) 0), (Z.eqb_spec (n mod 4) 0); simpl; try done.
  unfold bind. pose proof (memcpy_loop_total (Z.to_nat n) m d s) as Ht. unfold wp in Ht.
  destruct (memcpy_loop (Z.to_nat n) d s m) as [[] m1|] eqn:E; [|exfalso; apply Ht; lia].
  assert (Hw : wp (memcpy_words (Z.to_nat (n / 4)) d s) (fun _ m' => m' = m1) m).
  { apply memcpy_words_refines; try done; try (Z.div_mod_to_equations; lia).
    unfold wp. replace (4 * Z.to_nat (n / 4))%nat with (Z.to_nat n) by (Z.div_mod_to_equations; lia). by rewrite E. }
  unfold wp in Hw. destruct (memcpy_words (Z.to_nat (n / 4)) d s m) as [[] m2|]; [by subst|done].
Qed.

(** *** Searching *)

(** The address of the first character of a string that satisfies [P]. *)
Definition first_at (P : Z -> Prop) `{!forall x, Decision (P x)} (s : Z) (l : list Z) : option Z :=
  (fun kx => s + Z.of_nat kx.1) <$> list_find P l.

Lemma first_at_cons P `{!forall x, Decision (P x)} s c l :
  first_at P s (c :: l) = if decide (P c) then Some s else first_at P (s + 1) l.
Proof.
  unfold first_at. simpl. destruct (decide (P c)); simpl; [f_equal; lia|].
  destruct (list_find P l) as [[k x]|]; simpl; [f_equal; lia|done].
Qed.

(** What [first_at] says. *)
Lemma first_at_spec P `{!forall x, Decision (P x)} s l :
  match first_at P s l with
  | Some p => exists k c, p = s + Z.of_nat k /\ l !! k = Some c /\ P c /\ forall j x, (j < k)%nat -> l !! j = Some x -> ~ P x
  | None => Forall (fun x => ~ P x) l
  end.
Proof.
  unfold first_at. destruct (list_find P l) as [[k x]|] eqn:E; simpl.
  - apply list_find_Some in E as (Hk & HP & Hlt). exists k, x. split_and!; [done|done|done|]. intros j y Hj Hy. by eapply Hlt.
  - by apply list_find_None in E.
Qed.

Lemma strchr_loop_spec m c l : forall n s,
  cstr m s l -> (length l < n)%nat ->
  wp (strchr_loop n s c) (fun r m' => m' = m /\ r = first_at (fun x => x = c) s (l ++ [0])) m.
Proof.
  induction l as [|x l IH]; intros n s Hc Hn; (destruct n as [|n]; simpl in Hn; [lia|]); cbn [strchr_loop app]; simpl in Hc;
    rewrite first_at_cons; wp_step.
  - eapply wp_ld; [apply Hc|apply Hc|]. simpl. wp_steps. split; [done|].
    destruct (Z.eqb_spec c 0), (decide (0 = c)); (done || lia).
  - destruct Hc as (Hp & Hx & Hne & Hl). eapply wp_ld; [done|done|]. rewrite (proj2 (Z.eqb_neq x 0)) by done.
    destruct (Z.eqb_spec x c), (decide (x = c)); try lia; [by wp_steps|]. apply IH; [done|lia].
Qed.

Lemma strchr_spec m s c l :
  cstr m s l -> wp (strchr s c) (fun r m' => m' = m /\ r = first_at (fun x => x = c) s (l ++ [0])) m.
Proof.
  intros Hc. unfold strchr. wp_step. apply wp_fuel. pose proof (cstr_bound _ _ _ Hc). pose proof (cstr_nonneg _ _ _ Hc).
  apply strchr_loop_spec; [done|lia].
Qed.

(** A character that is looked up in a set of characters, given as a string. *)
Lemma strchr_found m s c l :
  cstr m s l -> wp (strchr s c) (fun r m' => m' = m /\ (r <> None <-> c = 0 \/ c ∈ l)) m.
Proof.
  intros Hc. eapply wp_mono; [by apply strchr_spec|]. cbn beta. intros r m' [-> ->]. split; [done|].
  pose proof (first_at_spec (fun x => x = c) s (l ++ [0])) as Hf.
  destruct (first_at (fun x => x = c) s (l ++ [0])) as [p|] eqn:E.
  - destruct Hf as (k & x & _ & Hk%list_elem_of_lookup_2 & -> & _). rewrite elem_of_app, list_elem_of_singleton in Hk. naive_solver.
  - rewrite Forall_app, Forall_singleton in Hf. destruct Hf as [Hf H0]. rewrite Forall_forall in Hf. split; [done|].
    intros [->|Hin]; [done|]. by destruct (Hf c Hin).
Qed.

Lemma memchr_loop_spec m c : forall k p,
  0 <= p -> p + Z.of_nat k <= Z.of_nat (length m) ->
  wp (memchr_loop k p c) (fun r m' => m' = m /\ r = first_at (fun x => x = c) p (take k (drop (Z.to_nat p) m))) m.
Proof.
  induction k as [|k IH]; intros p Hp Hb; cbn [memchr_loop]; [by wp_steps|].
  destruct (byte_at_ex m p) as [x Hx]; [lia|]. wp_step. eapply wp_ld; [done|done|].
  rewrite (drop_S _ _ _ Hx). cbn [take]. rewrite first_at_cons.
  destruct (Z.eqb_spec x c), (decide (x = c)); try lia; [by wp_steps|].
  replace (S (Z.to_nat p)) with (Z.to_nat (p + 1)) by lia. apply IH; lia.
Qed.

Lemma memchr_spec m s c n :
  0 <= s -> 0 <= n -> s + n <= Z.of_nat (length m) ->
  wp (memchr s c n) (fun r m' => m' = m /\ r = first_at (fun x => x = c) s (take (Z.to_nat n) (drop (Z.to_nat s) m))) m.
Proof. intros. apply memchr_loop_spec; lia. Qed.

Lemma strpbrk_loop_spec m charset cs l : forall n s,
  cstr m charset cs -> cstr m s l -> (length l < n)%nat ->
  wp (strpbrk_loop n s charset) (fun r m' => m' = m /\ r = first_at (fun x => x ∈ cs) s l) m.
Proof.
  induction l as [|x l IH]; intros n s Hcs Hc Hn; (destruct n as [|n]; simpl in Hn; [lia|]); cbn [strpbrk_loop]; simpl in Hc; wp_step.
  - eapply wp_ld; [apply Hc|apply Hc|]. simpl. by wp_steps.
  - destruct Hc as (Hp & Hx & Hne & Hl). eapply wp_ld; [done|done|]. rewrite (proj2 (Z.eqb_neq x 0)) by done.
    wp_step. eapply wp_mono; [by apply (strchr_found m charset x cs)|]. cbn beta. intros r m' [-> Hr]. rewrite first_at_cons.
    destruct (decide (x ∈ cs)).
    + rewrite bool_decide_true by (apply Hr; by right). by wp_steps.
    + rewrite bool_decide_false by (rewrite Hr; tauto). apply IH; [done|done|lia].
Qed.

Lemma strpbrk_spec m s charset l cs :
  cstr m s l -> cstr m charset cs -> wp (strpbrk s charset) (fun r m' => m' = m /\ r = first_at (fun x => x ∈ cs) s l) m.
Proof.
  intros Hc Hcs. unfold strpbrk. wp_step. apply wp_fuel. pose proof (cstr_bound _ _ _ Hc). pose proof (cstr_nonneg _ _ _ Hc).
  apply strpbrk_loop_spec; [done|done|lia].
Qed.

(** The number of leading characters that satisfy [P]. *)
Fixpoint span (P : Z -> Prop) `{!forall x, Decision (P x)} (l : list Z) : nat :=
  match l with
  | [] => 0
  | c :: l' => if decide (P c) then S (span P l') else 0
  end.

(** What [span] says: all these characters satisfy [P], and the next does not. *)
Lemma span_spec P `{!forall x, Decision (P x)} l :
  (span P l <= length l)%nat /\ Forall P (take (span P l) l) /\ forall c, l !! span P l = Some c -> ~ P c.
Proof.
  induction l as [|c l (H1 & H2 & H3)]; simpl; [done|]. destruct (decide (P c)); simpl.
  - split_and!; [lia|by constructor|done].
  - split_and!; [lia|done|]. by intros ? [= <-].
Qed.

Lemma strspn_loop_spec m charset cs s l : forall n i,
  cstr m charset cs -> cstr m (s + i) l -> (length l < n)%nat ->
  wp (strspn_loop n s charset i) (fun r m' => m' = m /\ r = i + Z.of_nat (span (fun x => x ∈ cs) l)) m.
Proof.
  induction l as [|x l IH]; intros n i Hcs Hc Hn; (destruct n as [|n]; simpl in Hn; [lia|]); cbn [strspn_loop]; simpl in Hc; wp_step.
  - eapply wp_ld; [apply Hc|apply Hc|]. wp_step. eapply wp_mono; [by apply (strchr_found m charset 0 cs)|]. cbn beta.
    intros r m' [-> _]. rewrite andb_false_r. wp_steps. split; [done|simpl; lia].
  - destruct Hc as (Hp & Hx & Hne & Hl). eapply wp_ld; [done|done|].
    wp_step. eapply wp_mono; [by apply (strchr_found m charset x cs)|]. cbn beta. intros r m' [-> Hr]. cbn [span].
    rewrite (proj2 (Z.eqb_neq x 0)) by done. rewrite andb_true_r. destruct (decide (x ∈ cs)).
    + rewrite bool_decide_true by (apply Hr; by right).
      eapply wp_mono; [apply (IH n (i + 1)); [done|by rewrite Z.add_assoc|lia]|]. cbn beta. intros r' m' [-> ->]. split; [done|lia].
    + rewrite bool_decide_false by (rewrite Hr; tauto). wp_steps. split; [done|lia].
Qed.

Lemma strspn_spec m s charset l cs :
  cstr m s l -> cstr m charset cs ->
  wp (strspn s charset) (fun r m' => m' = m /\ r = Z.of_nat (span (fun x => x ∈ cs) l)) m.
Proof.
  intros Hc Hcs. unfold strspn. wp_step. apply wp_fuel. pose proof (cstr_bound _ _ _ Hc). pose proof (cstr_nonneg _ _ _ Hc).
  apply (strspn_loop_spec m charset cs s l _ 0); [done|by rewrite Z.add_0_r|lia].
Qed.

Lemma strcspn_loop_spec m charset cs s l : forall n i,
  cstr m charset cs -> cstr m (s + i) l -> (length l < n)%nat ->
  wp (strcspn_loop n s charset (i + Z.of_nat (length l)) i)
    (fun r m' => m' = m /\ r = i + Z.of_nat (span (fun x => x ∉ cs) l)) m.
Proof.
  induction l as [|x l IH]; intros n i Hcs Hc Hn; (destruct n as [|n]; simpl in Hn; [lia|]); cbn [strcspn_loop]; simpl in Hc; wp_step.
  - eapply wp_ld; [apply Hc|apply Hc|]. wp_step. eapply wp_mono; [by apply (strchr_found m charset 0 cs)|]. cbn beta.
    intros r m' [-> _]. simpl. rewrite (proj2 (Z.ltb_ge i _)), andb_false_r by lia. wp_steps. split; [done|lia].
  - destruct Hc as (Hp & Hx & Hne & Hl). eapply wp_ld; [done|done|].
    wp_step. eapply wp_mono; [by apply (strchr_found m charset x cs)|]. cbn beta. intros r m' [-> Hr]. cbn [span length].
    rewrite (proj2 (Z.ltb_lt i _)), andb_true_r by lia. destruct (decide (x ∉ cs)) as [Hn'|Hin].
    + rewrite bool_decide_true by (destruct r; [|done]; exfalso; assert (x = 0 \/ x ∈ cs) by (by apply Hr); tauto).
      replace (i + Z.of_nat (S (length l))) with (i + 1 + Z.of_nat (length l)) by lia.
      eapply wp_mono; [apply (IH n (i + 1)); [done|by rewrite Z.add_assoc|lia]|]. cbn beta. intros r' m' [-> ->]. split; [done|lia].
    + rewrite bool_decide_false by (apply Hr; right; by destruct (decide (x ∈ cs))). wp_steps. split; [done|lia].
Qed.

Lemma strcspn_spec m s charset l cs :
  cstr m s l -> cstr m charset cs ->
  wp (strcspn s charset) (fun r m' => m' = m /\ r = Z.of_nat (span (fun x => x ∉ cs) l)) m.
Proof.
  intros Hc Hcs. unfold strcspn. wp_step. eapply wp_mono; [by apply (strlen_spec m s l)|]. cbn beta. intros len m' [-> ->].
  wp_step. apply wp_fuel. pose proof (cstr_bound _ _ _ Hc). pose proof (cstr_nonneg _ _ _ Hc).
  apply (strcspn_loop_spec m charset cs s l _ 0); [done|by rewrite Z.add_0_r|lia].
Qed.

Lemma strncmp_loop_spec m s1 s2 : forall k l1 l2 i,
  cstr m (s1 + i) l1 -> cstr m (s2 + i) l2 ->
  wp (strncmp_loop k s1 s2 i) (fun r m' => m' = m /\ r = lexcmp (take k l1) (take k l2)) m.
Proof.
  induction k as [|k IH]; intros l1 l2 i H1 H2; cbn [strncmp_loop]; [by wp_steps|].
  destruct l1 as [|c1 l1]; simpl in H1; wp_step; [eapply wp_ld; [apply H1|apply H1|]|destruct H1 as (Hp1 & Hc1 & Hn1 & H1); eapply wp_ld; [done|done|]];
  (destruct l2 as [|c2 l2]; simpl in H2; wp_step; [eapply wp_ld; [apply H2|apply H2|]|destruct H2 as (Hp2 & Hc2 & Hn2 & H2); eapply wp_ld; [done|done|]]);
  cbv zeta; cbn [take lexcmp]; rewrite ?Z.eqb_refl, ?orb_true_r.
  - wp_steps. done.
  - wp_steps. split; [done|lia].
  - rewrite Z.sub_0_r, (proj2 (Z.eqb_neq c1 0)) by done. simpl. by wp_steps.
  - rewrite (proj2 (Z.eqb_neq c1 0)), orb_false_r by done. destruct (Z.eqb_spec c1 c2) as [->|].
    + rewrite Z.sub_diag. simpl. apply IH; by rewrite Z.add_assoc.
    + rewrite (proj2 (Z.eqb_neq (c1 - c2) 0)) by lia. simpl. by wp_steps.
Qed.

Lemma strncmp_spec m s1 s2 n l1 l2 :
  cstr m s1 l1 -> cstr m s2 l2 ->
  wp (strncmp s1 s2 n) (fun r m' => m' = m /\ r = lexcmp (take (Z.to_nat n) l1) (take (Z.to_nat n) l2)) m.
Proof. intros. apply strncmp_loop_spec; by rewrite Z.add_0_r. Qed.

Lemma take_prefix (b l : list Z) : take (length b) l = b <-> b `prefix_of` l.
Proof.
  split.
  - intros <-. apply prefix_take.
  - intros [k ->]. by rewrite take_app_length.
Qed.

(** The first suffix of [l] that starts with [b], and is not empty. *)
Definition occurs_first (b l : list Z) (s : Z) (r : option Z) : Prop :=
  match r with
  | Some p => exists k, p = s + Z.of_nat k /\ (k < length l)%nat /\ b `prefix_of` drop k l /\
      forall j, (j < k)%nat -> ~ b `prefix_of` drop j l
  | None => forall j, (j < length l)%nat -> ~ b `prefix_of` drop j l
  end.

Lemma strstr_loop_spec m sub b l : forall n s,
  cstr m sub b -> Forall is_char b -> cstr m s l -> Forall is_char l -> (length l < n)%nat ->
  wp (strstr_loop n s sub (Z.of_nat (length b))) (fun r m' => m' = m /\ occurs_first b l s r) m.
Proof.
  induction l as [|x l IH]; intros n s Hb Cb Hc Cl Hn; (destruct n as [|n]; simpl in Hn; [lia|]); cbn [strstr_loop];
    pose proof Hc as Hc0; simpl in Hc; wp_step.
  - eapply wp_ld; [apply Hc|apply Hc|]. simpl. wp_steps. split; [done|]. intros j Hj. simpl in Hj. lia.
  - destruct Hc as (Hp & Hx & Hne & Hl). eapply wp_ld; [done|done|]. rewrite (proj2 (Z.eqb_neq x 0)) by done. wp_step.
    eapply wp_mono; [by apply (strncmp_spec m s sub _ (x :: l) b)|]. cbn beta. intros r m' [-> ->]. rewrite Nat2Z.id, (take_ge b) by done.
    assert (Hz : lexcmp (take (length b) (x :: l)) b = 0 <-> b `prefix_of` x :: l).
    { rewrite lexcmp_eq by (done || by apply Forall_take). apply take_prefix. }
    destruct (Z.eqb_spec (lexcmp (take (length b) (x :: l)) b) 0) as [E|E]; rewrite Hz in E.
    + wp_steps. split; [done|]. exists 0%nat. split_and!; [lia|simpl; lia|done|lia].
    + apply Forall_cons in Cl as [_ Cl]. eapply wp_mono; [apply (IH n (s + 1)); (done || lia)|]. cbn beta. intros r m' [-> Hr].
      split; [done|]. destruct r as [p|]; simpl in *.
      * destruct Hr as (k & -> & Hk & Hpre & Hlt). exists (S k). split_and!; [lia|lia|done|]. intros [|j] Hj; [done|]. apply Hlt. lia.
      * intros [|j] Hj; [done|]. apply Hr. lia.
Qed.

Lemma strstr_spec m s sub l b :
  cstr m s l -> cstr m sub b -> Forall is_char l -> Forall is_char b ->
  wp (strstr s sub) (fun r m' => m' = m /\ occurs_first b l s r) m.
Proof.
  intros Hc Hb Cl Cb. unfold strstr. wp_step. eapply wp_mono; [by apply (strlen_spec m sub b)|]. cbn beta. intros len m' [-> ->].
  wp_step. apply wp_fuel. pose proof (cstr_bound _ _ _ Hc). pose proof (cstr_nonneg _ _ _ Hc).
  apply strstr_loop_spec; (done || lia).
Qed.

End CStr.

(** ** Correctness *)

Section correctness.
Import CStr.

Lemma strcmp_order m s1 s2 l1 l2 :
  cstr m s1 l1 -> cstr m s2 l2 -> Forall is_char l1 -> Forall is_char l2 ->
  wp (strcmp s1 s2) (fun r m' => m' = m /\ (r = 0 <-> l1 = l2) /\ (r < 0 <-> lexlt l1 l2) /\ (0 < r <-> lexlt l2 l1)) m.
Proof.
  intros H1 H2 C1 C2. eapply wp_mono; [by eapply strcmp_spec|]. cbn beta. intros r m' [-> ->]. split_and!; [done|..].
  - by apply lexcmp_eq.
  - by apply lexcmp_lt.
  - rewrite <-(lexcmp_lt l2 l1) by done. rewrite (lexcmp_anti l1 l2). lia.
Qed.

Lemma string_copy_spec m d s a b size :
  cstr m d a -> cstr m s b -> 0 <= size -> d + size <= Z.of_nat (length m) ->
  d + Z.of_nat (length a) + Z.of_nat (length b) < Z.of_nat (length m) ->
  apart s (Z.of_nat (length b) + 1) d (Z.max size (Z.of_nat (length a) + Z.of_nat (length b) + 1)) ->
  wp (strcpy d s) (fun r m' => r = d /\ cstr m' d b /\ written m d (b ++ [0]) m') m /\
  wp (strcat d s) (fun r m' => r = d /\ cstr m' d (a ++ b) /\ written m (d + Z.of_nat (length a)) (b ++ [0]) m') m /\
  wp (strlcpy d s size) (fun r m' => r = Z.of_nat (length b) /\
    if size =? 0 then m' = m
    else cstr m' d (take (Z.to_nat (size - 1)) b) /\ written m d (take (Z.to_nat (size - 1)) b ++ [0]) m') m.
Proof.
  intros Ha Hb Hs Hbs Hroom Hap. unfold apart in Hap. pose proof (cstr_nonneg _ _ _ Ha) as Hd.
  pose proof (cstr_nonzero _ _ _ Hb) as Hnz. split_and!.
  - eapply wp_mono; [apply (strcpy_spec m d s b); [done|done|lia|unfold apart; lia]|]. cbn beta. intros r m' [-> Hw].
    split_and!; [done|by eapply written_cstr|done].
  - apply strcat_spec; [done|done|lia|unfold apart; lia].
  - eapply wp_mono; [apply (strlcpy_spec m d s size b); [done|done|done|lia|unfold apart; lia]|]. cbn beta.
    intros r m' [-> Hw]. split; [done|]. destruct (size =? 0); [done|]. split; [|done].
    eapply written_cstr; [done| |done]. by apply Forall_take.
Qed.

(** The comparisons and searches of a string [l] at [s], with [b] at [t] the
    other string. *)
Definition searches m s t l b c n : Prop :=
  wp (strcmp s t) (fun r m' => m' = m /\ (r = 0 <-> l = b) /\ (r < 0 <-> lexlt l b) /\ (0 < r <-> lexlt b l)) m /\
  wp (strchr s c) (fun r m' => m' = m /\ r = first_at (fun x => x = c) s (l ++ [0])) m /\
  wp (memchr s c n) (fun r m' => m' = m /\ r = first_at (fun x => x = c) s (take (Z.to_nat n) (drop (Z.to_nat s) m))) m /\
  wp (strpbrk s t) (fun r m' => m' = m /\ r = first_at (fun x => x ∈ b) s l) m /\
  wp (strspn s t) (fun r m' => m' = m /\ r = Z.of_nat (span (fun x => x ∈ b) l)) m /\
  wp (strcspn s t) (fun r m' => m' = m /\ r = Z.of_nat (span (fun x => x ∉ b) l)) m /\
  wp (strstr s t) (fun r m' => m' = m /\ occurs_first b l s r) m.

Lemma string_search_spec m s t l b c n :
  cstr m s l -> cstr m t b -> Forall is_char l -> Forall is_char b -> 0 <= n -> s + n <= Z.of_nat (length m) -> searches m s t l b c n.
Proof.
  intros Hl Hb Cl Cb Hn Hbn. pose proof (cstr_nonneg _ _ _ Hl). split_and!.
  - by apply strcmp_order.
  - by apply strchr_spec.
  - by apply memchr_spec.
  - by apply strpbrk_spec.
  - by apply strspn_spec.
  - by apply strcspn_spec.
  - by apply strstr_spec.
Qed.

(** C36: the string and memory functions.  Comparing and searching: [strcmp]
    returns 0 exactly when the strings are equal, a negative value exactly when
    the first comes before the second in the lexicographic order of unsigned
    bytes, and a positive value exactly when it comes after; [strchr] and
    [memchr] return the address of the first byte equal to the [int] they are
    given (for [strchr], the terminator counts), and NULL when there is none;
    they do not convert it to a character, so that no byte is equal to one
    outside 0 to 255; [strpbrk] that of the first character of
    the second string; [strspn] and [strcspn] the length of the longest prefix
    of characters in, or not in, it; [strstr] the address of its first
    occurrence that starts before the end of the first string, and NULL when
    there is none, so that it finds no string, not even the empty one, in an
    empty string ([strstr_empty]).  Copying strings that do not overlap their destination:
    [strcpy] writes the bytes of the source and a terminator and nothing else;
    [strcat] leaves the concatenation in the first string and writes nothing
    else; [strlcpy] returns the length of the source and writes at most [n]
    bytes, the longest prefix that fits and a terminator (nothing at all for a
    buffer of size 0).  [memmove] moves the bytes as if through a buffer,
    however source and destination overlap; and the word-at-a-time variants of
    [memset] and [memcpy] that the speed configuration selects behave exactly
    as the byte-at-a-time ones, at any alignment and length (for [memcpy] also
    when the regions overlap). *)
Theorem string_functions_correct m d s c n :
  Forall is_byte m -> 0 <= d -> 0 <= s -> 0 <= n ->
  d + n <= Z.of_nat (length m) -> s + n <= Z.of_nat (length m) ->
  (forall a b, cstr m d a -> cstr m s b ->
   d + Z.of_nat (length a) + Z.of_nat (length b) < Z.of_nat (length m) ->
   apart s (Z.of_nat (length b) + 1) d (Z.max n (Z.of_nat (length a) + Z.of_nat (length b) + 1)) ->
   wp (strcpy d s) (fun r m' => r = d /\ cstr m' d b /\ written m d (b ++ [0]) m') m /\
   wp (strcat d s) (fun r m' => r = d /\ cstr m' d (a ++ b) /\ written m (d + Z.of_nat (length a)) (b ++ [0]) m') m /\
   wp (strlcpy d s n) (fun r m' => r = Z.of_nat (length b) /\
     if n =? 0 then m' = m
     else cstr m' d (take (Z.to_nat (n - 1)) b) /\ written m d (take (Z.to_nat (n - 1)) b ++ [0]) m') m) /\
  wp (memmove d s n) (fun r m' => r = d /\ moved m d s n m') m /\
  wp (memset d c n) (fun r m' => r = d /\ written m d (replicate (Z.to_nat n) (c mod 256)) m') m /\
  memset_speed d c n m = memset d c n m /\
  memcpy_speed d s n m = memcpy d s n m /\
  (forall t l b, cstr m s l -> cstr m t b -> Forall is_char l -> Forall is_char b -> searches m s t l b c n).
Proof.
  intros Hm Hd Hs Hn Hbd Hbs. split_and!.
  - intros a b Ha Hb Hr Hap. by apply string_copy_spec.
  - by apply memmove_spec.
  - replace (c mod 256) with (Z.land c 0xff); [by apply memset_spec|]. change 0xff with (Z.ones 8). by rewrite Z.land_ones.
  - eapply wp_det; [|by apply memset_speed_spec|by apply memset_spec]. intros m1 m2. apply written_ext.
  - by apply memcpy_speed_eq.
  - intros t l b Hl Hb Cl Cb. by apply string_search_spec.
Qed.

Lemma string_functions_correct_witness :
  let m := [97; 0; 1; 1; 1; 98; 99; 100; 0] in
  wp (strlcpy 0 5 3) (fun r m' => r = 3 /\ (cstr m' 0 [98; 99] /\ written m 0 [98; 99; 0] m')) m /\
  memset_speed 0 300 3 m = memset 0 300 3 m /\
  searches m 5 0 [98; 99; 100] [97] 300 3.
Proof.
  destruct (string_functions_correct [97; 0; 1; 1; 1; 98; 99; 100; 0] 0 5 300 3) as (H0 & _ & _ & H2 & _ & H3);
    [by repeat constructor|lia|lia|lia|by vm_compute|by vm_compute|].
  split; [|split; [exact H2|apply H3; [by repeat split|by repeat split|by repeat constructor|by repeat constructor]]].
  apply (H0 [97] [98; 99; 100]); [by repeat split|by repeat split|by vm_compute|by vm_compute; right].
Defined.

(** [strncat] measures the destination again after the copy, so that it writes
    its terminator in the wrong place: appending two of the characters of
    [xxxxx] to [ab] does not give [abxx]. *)
Lemma strncat_misplaced_terminator :
  match strncat 4 0 2 ([120; 120; 120; 0; 97; 98; 0] ++ replicate 3 46 ++ [0] ++ replicate 8 46) with
  | Done _ m' => byte_at m' 6 = Some 120 /\ byte_at m' 7 = Some 120 /\ byte_at m' 8 = Some 46
  | _ => False
  end.
Proof. by vm_compute. Qed.

(** Every string contains the empty string, but [strstr] finds no string in an
    empty one. *)
Lemma strstr_empty : strstr 0 0 [0] = Done None [0].
Proof. by vm_compute. Qed.

(** The character to search for is not converted: 353, which as a character
    is [a], is not found in [ab]. *)
Lemma memchr_unconverted : memchr 0 353 2 [97; 98] = Done None [97; 98] /\ strchr 0 353 [97; 98; 0] = Done None [97; 98; 0].
Proof. by vm_compute. Qed.

End correctness.
