(* ===== verification/MicroLib.v ===== *)
(** * The microkernel's library functions

    [libs/kernel/include/generic/lib.h] and [libs/kernel/include/bitmap.h]:
    the five ways the kernel has of finding the most significant bit of a
    word, and bitmaps, which are arrays of words.  Machine words have 32
    bits; the [L4_64BIT] parts are not compiled. *)

From S2P Require Import Prelude.
#[local] Open Scope Z_scope.

Definition BITS_WORD : Z := 32.

(** ** [generic/lib.h]: the most significant bit

    [w << n] and [w >> n] on words. *)
Definition shl32 (w n : Z) : Z := u32 (Z.shiftl w n).
Definition shr32 (w n : Z) : Z := Z.shiftr w n.

(** The loops of [msb_simple] and of [msb_byte_search]: they shift the word
    until its top bit, or its top byte, is not zero. *)
Fixpoint msb_shift_bits (fuel : nat) (w bit : Z) : option Z :=
  match fuel with
  | O => None
  | S fuel' =>
      if Z.land w (bit32 (BITS_WORD - 1)) =? 0
      then msb_shift_bits fuel' (shl32 w 1) (bit - 1)
      else Some bit
  end.

Fixpoint msb_shift_bytes (fuel : nat) (w bit : Z) : option (Z * Z) :=
  match fuel with
  | O => None
  | S fuel' =>
      if shr32 w (BITS_WORD - 8) =? 0
      then msb_shift_bytes fuel' (shl32 w 8) (bit - 8)
      else Some (w, bit)
  end.

(** A word that is not zero needs at most 32 turns; [None] stands for a loop
    that does not end, which is what happens on zero. *)
Definition msb_simple (w : Z) : option Z := msb_shift_bits 32 w (BITS_WORD - 1).

Definition msb_byte_search (w : Z) : option Z :=
  match msb_shift_bytes 4 w (BITS_WORD - 1) with
  | Some (w', bit) => msb_shift_bits 32 w' bit
  | None => None
  end.

(** [if (!(w >> (BITS_WORD-n))) { bit -= n; w <<= n; }] *)
Definition halve_up (n : Z) (p : Z * Z) : Z * Z :=
  let '(w, bit) := p in
  if shr32 w (BITS_WORD - n) =? 0 then (shl32 w n, bit - n) else (w, bit).

Definition msb_binary (w : Z) : Z :=
  let p := halve_up 2 (halve_up 4 (halve_up 8 (halve_up 16 (w, BITS_WORD - 1)))) in
  let '(w, bit) := p in
  if shr32 w (BITS_WORD - 1) =? 0 then bit - 1 else bit.

(** [if (w & mask) { bit |= n; w >>= n; }] *)
Definition halve_down (mask n : Z) (p : Z * Z) : Z * Z :=
  let '(w, bit) := p in
  if Z.land w mask =? 0 then (w, bit) else (shr32 w n, Z.lor bit n).

Definition msb_binary2 (w : Z) : Z :=
  let p := halve_down 0xc 2 (halve_down 0xf0 4
             (halve_down 0xff00 8 (halve_down 0xffff0000 16 (w, 0)))) in
  let '(w, bit) := p in
  if Z.land w 0x2 =? 0 then bit else Z.lor bit 1.

(** One line of [msb_nobranch]. *)
Definition nobranch_step (n : Z) (p : Z * Z) : Z * Z :=
  let '(w, bit) := p in
  let test := (if Z.land w (shl32 (bit32 n - 1) n) =? 0 then 0 else 1) * n in
  (shr32 w test, Z.lor bit test).

Definition msb_nobranch (w : Z) : Z :=
  snd (nobranch_step 1 (nobranch_step 2 (nobranch_step 4 (nobranch_step 8 (nobranch_step 16 (w, 0)))))).

(** [max] and [min] *)
Definition max_word (a b : Z) : Z := if b <? a then a else b.
Definition min_word (a b : Z) : Z := if b <? a then b else a.

(** The [msb] the kernel calls is the machine's: the specification of the
    five functions. *)
Definition msb (w : Z) : Z := Z.log2 w.

(** ** [bitmap.h]

    A bitmap is an array of words. *)
Section bitmap.
Context {S : Type}.
Abbreviation B A := (M S A).

Definition BITMAP_SIZE (bits : Z) : Z := (bits + (BITS_WORD - 1)) / BITS_WORD.
Definition BITMAP_MASK (bit : Z) : Z := bit32 (bit mod BITS_WORD).

Fixpoint bitmap_fill (n : nat) (i : Z) (bm : list Z) (v : Z) : B (list Z) :=
  match n with
  | O => ret bm
  | Datatypes.S n' => let! bm' := index_set bm i v in bitmap_fill n' (i + 1) bm' v
  end.

Definition bitmap_init (bm : list Z) (length : Z) (set : Z) : B (list Z) :=
  let set := if set =? 0 then 0 else not32 0 in
  let! bm := bitmap_fill (Z.to_nat (BITMAP_SIZE length)) 0 bm set in
  if length mod BITS_WORD =? 0 then ret bm
  else
    let last := BITMAP_SIZE length - 1 in
    let! w := index bm last in
    index_set bm last (Z.land w (bit32 (length mod BITS_WORD) - 1)).

Definition bitmap_set (bm : list Z) (bit : Z) : B (list Z) :=
  let! w := index bm (bit / BITS_WORD) in
  index_set bm (bit / BITS_WORD) (Z.lor w (BITMAP_MASK bit)).

Definition bitmap_clear (bm : list Z) (bit : Z) : B (list Z) :=
  let! w := index bm (bit / BITS_WORD) in
  index_set bm (bit / BITS_WORD) (Z.land w (not32 (BITMAP_MASK bit))).

Definition bitmap_isset (bm : list Z) (bit : Z) : B Z :=
  let! w := index bm (bit / BITS_WORD) in
  ret (s32 (Z.land w (BITMAP_MASK bit))).

(** The loop over the complete words: [true] when all equal [check]. *)
Fixpoint bitmap_words_are (n : nat) (i : Z) (bm : list Z) (check : Z) : B bool :=
  match n with
  | O => ret true
  | Datatypes.S n' =>
      let! w := index bm i in
      if w =? check then bitmap_words_are n' (i + 1) bm check else ret false
  end.

(** For a length of a whole number of words the last word is compared with
    [(1UL << 0) - 1], that is with 0. *)
Definition bitmap_isallset (bm : list Z) (length : Z) : B bool :=
  let n := BITMAP_SIZE length - 1 in
  let! full := bitmap_words_are (Z.to_nat n) 0 bm (not32 0) in
  if full then
    let! w := index bm n in
    ret (w =? bit32 (length mod BITS_WORD) - 1)
  else ret false.

Definition bitmap_isallclear (bm : list Z) (length : Z) : B bool :=
  let n := BITMAP_SIZE length - 1 in
  let! full := bitmap_words_are (Z.to_nat n) 0 bm 0 in
  if full then
    let! w := index bm n in
    ret (w =? 0)
  else ret false.

Fixpoint bitmap_find (f : Z -> Z) (n : nat) (i : Z) (bm : list Z) : B Z :=
  match n with
  | O => ret (-1)
  | Datatypes.S n' =>
      let! w := index bm i in
      let bits := f w in
      if bits =? 0 then bitmap_find f n' (i + 1) bm
      else ret (i * BITS_WORD + msb bits)
  end.

Definition bitmap_findfirstset (bm : list Z) (length : Z) : B Z :=
  bitmap_find id (Z.to_nat (BITMAP_SIZE length)) 0 bm.

(** [!bm[i]], the logical negation. *)
Definition bitmap_findfirstclear (bm : list Z) (length : Z) : B Z :=
  bitmap_find (fun w => if w =? 0 then 1 else 0) (Z.to_nat (BITMAP_SIZE length)) 0 bm.

End bitmap.

(** ** The most significant bit: the five functions agree with [Z.log2] *)

Section msb_proofs.
Implicit Types w bit n k : Z.

Lemma shl32_small w n : 0 <= n -> 0 <= w -> w * 2 ^ n < WORD_MOD -> shl32 w n = w * 2 ^ n.
Proof. intros. unfold shl32. rewrite Z.shiftl_mul_pow2 by done. apply u32_word. unfold is_word. nia. Qed.

Lemma log2_shl w n : 0 < w -> 0 <= n -> Z.log2 (w * 2 ^ n) = Z.log2 w + n.
Proof. intros. rewrite <-Z.shiftl_mul_pow2 by done. by rewrite Z.log2_shiftl. Qed.

Lemma log2_shr w n : 0 < w -> 0 <= n -> shr32 w n <> 0 -> Z.log2 (shr32 w n) = Z.log2 w - n.
Proof.
  unfold shr32. intros Hw Hn Hne. rewrite Z.log2_shiftr by lia. apply Z.max_r.
  destruct (Z.le_gt_cases n (Z.log2 w)); [lia|]. exfalso. apply Hne, Z.shiftr_eq_0; lia.
Qed.

Lemma shr32_zero w n : 0 <= w -> 0 <= n -> shr32 w n = 0 <-> w < 2 ^ n.
Proof.
  intros Hw Hn. unfold shr32. rewrite Z.shiftr_div_pow2 by done.
  assert (0 < 2 ^ n) by lia. rewrite Z.div_small_iff by lia. lia.
Qed.

(** The top bit of a word. *)
Lemma land_top w : is_word w -> Z.land w (bit32 (BITS_WORD - 1)) = 0 <-> w < 2 ^ 31.
Proof.
  intros Hw. unfold BITS_WORD. rewrite bit32_pow by lia. split; intros H.
  - destruct (Z.lt_ge_cases w (2 ^ 31)) as [|Hge]; [done|]. exfalso.
    assert (Z.testbit (Z.land w (2 ^ (32 - 1))) 31 = true) as Ht.
    { rewrite Z.land_spec, Z.pow2_bits_true by lia. rewrite andb_true_r.
      replace 31 with (Z.log2 w); [apply Z.bit_log2; lia|].
      apply Z.log2_unique; [lia|]. unfold is_word, WORD_MOD in Hw. lia. }
    rewrite H, Z.bits_0 in Ht. done.
  - apply Z.bits_inj_0. intros i. rewrite Z.land_spec.
    destruct (decide (i = 31)) as [->|Hi]; [|rewrite Z.pow2_bits_false by lia; by rewrite andb_false_r].
    replace (Z.testbit w 31) with false; [done|]. symmetry.
    destruct (Z.eq_dec w 0) as [->|]; [apply Z.bits_0|].
    apply Z.bits_above_log2; [apply Hw|]. unfold is_word in Hw. apply Z.log2_lt_pow2; lia.
Qed.

Lemma msb_shift_bits_spec fuel w bit :
  0 < w < WORD_MOD -> 31 - Z.log2 w < Z.of_nat fuel ->
  msb_shift_bits fuel w bit = Some (bit - 31 + Z.log2 w).
Proof.
  revert w bit. induction fuel as [|fuel IH]; intros w bit Hw Hf; cbn [msb_shift_bits].
  - pose proof (Z.log2_lt_pow2 w 32 ltac:(lia)). unfold WORD_MOD in Hw. lia.
  - destruct (Z.eqb_spec (Z.land w (bit32 (BITS_WORD - 1))) 0) as [H0|H0].
    + apply land_top in H0; [|unfold is_word; lia].
      rewrite shl32_small by (unfold WORD_MOD in *; lia).
      pose proof (log2_shl w 1 ltac:(lia) ltac:(lia)).
      rewrite IH by (unfold WORD_MOD in *; lia). f_equal. lia.
    + rewrite land_top in H0 by (unfold is_word; lia). f_equal.
      assert (Z.log2 w = 31); [|lia]. apply Z.log2_unique; unfold WORD_MOD in Hw; lia.
Qed.

Lemma msb_shift_bytes_spec fuel w bit :
  0 < w < WORD_MOD -> 31 - Z.log2 w < 8 * Z.of_nat fuel ->
  exists w' bit', msb_shift_bytes fuel w bit = Some (w', bit') /\ 0 < w' < WORD_MOD /\
    bit' + Z.log2 w' = bit + Z.log2 w.
Proof.
  revert w bit. induction fuel as [|fuel IH]; intros w bit Hw Hf; cbn [msb_shift_bytes].
  - pose proof (Z.log2_lt_pow2 w 32 ltac:(lia)). unfold WORD_MOD in Hw. lia.
  - destruct (Z.eqb_spec (shr32 w (BITS_WORD - 8)) 0) as [H0|H0]; [|by eauto].
    apply shr32_zero in H0; unfold BITS_WORD in *; [|lia..].
    rewrite shl32_small by (unfold WORD_MOD in *; lia).
    pose proof (log2_shl w 8 ltac:(lia) ltac:(lia)).
    destruct (IH (w * 2 ^ 8) (bit - 8)) as (w' & bit' & -> & ? & ?); unfold WORD_MOD in *; [lia..|].
    eexists _, _. split; [done|]. lia.
Qed.

(** The binary search upwards keeps [bit + log2 w] and fills the top of [w]. *)
Lemma halve_up_spec n w bit :
  0 < n -> 2 * n <= 32 -> 2 ^ (32 - 2 * n) <= w < WORD_MOD ->
  let '(w', bit') := halve_up n (w, bit) in
  2 ^ (32 - n) <= w' < WORD_MOD /\ bit' + Z.log2 w' = bit + Z.log2 w.
Proof.
  intros Hn Hn2 Hw. unfold halve_up, BITS_WORD.
  assert (0 < 2 ^ (32 - 2 * n)) by (apply Z.pow_pos_nonneg; lia).
  destruct (Z.eqb_spec (shr32 w (32 - n)) 0) as [H0|H0]; rewrite shr32_zero in H0 by lia; [|split; [lia|done]].
  assert (Hp : 2 ^ (32 - n) * 2 ^ n = WORD_MOD).
  { unfold WORD_MOD. rewrite <-Z.pow_add_r by lia. f_equal. lia. }
  assert (Hp2 : 2 ^ (32 - 2 * n) * 2 ^ n = 2 ^ (32 - n)).
  { rewrite <-Z.pow_add_r by lia. f_equal. lia. }
  assert (0 < 2 ^ n) by lia.
  rewrite shl32_small by nia. rewrite log2_shl by lia. split; [nia|lia].
Qed.

(** The binary search downwards keeps [bit + log2 w] and empties the top. *)
Definition below (k : Z) (w0 : Z) (p : Z * Z) : Prop :=
  0 < p.1 < 2 ^ (2 ^ k) /\ 0 <= p.2 /\ p.2 mod 2 ^ k = 0 /\ p.2 + Z.log2 p.1 = Z.log2 w0.

Lemma land_high_zero w n : 0 <= n -> 0 <= w < 2 ^ (2 * n) -> Z.land w (Z.shiftl (2 ^ n - 1) n) = Z.shiftl (Z.shiftr w n) n.
Proof.
  intros Hn Hw. apply Z.bits_inj'. intros i Hi. rewrite Z.land_spec, !Z.shiftl_spec by done.
  replace (2 ^ n - 1) with (Z.ones n) by (rewrite Z.ones_equiv; lia).
  destruct (Z.lt_ge_cases i n) as [Hlt|Hge].
  - rewrite !(Z.testbit_neg_r _ (i - n)) by lia. by rewrite andb_false_r.
  - rewrite Z.shiftr_spec by lia. replace (i - n + n) with i by lia.
    destruct (Z.lt_ge_cases (i - n) n); [rewrite Z.ones_spec_low by lia; by rewrite andb_true_r|].
    rewrite Z.ones_spec_high, andb_false_r by lia. symmetry.
    destruct (Z.eq_dec w 0) as [->|]; [apply Z.bits_0|].
    apply Z.bits_above_log2; [lia|]. assert (Z.log2 w < 2 * n) by (apply Z.log2_lt_pow2; lia). lia.
Qed.

Lemma lor_disjoint bit k : 0 <= k -> bit mod 2 ^ (k + 1) = 0 -> Z.lor bit (2 ^ k) = bit + 2 ^ k.
Proof.
  intros Hk Hb. symmetry. apply Z.add_nocarry_lor. apply Z.bits_inj_0. intros i. rewrite Z.land_spec.
  destruct (decide (i = k)) as [->|]; [|rewrite Z.pow2_bits_false by lia; by rewrite andb_false_r].
  rewrite <-(Z.mod_pow2_bits_low bit (k + 1) k) by lia. by rewrite Hb, Z.bits_0.
Qed.

Lemma mod_weaken b k : 0 <= k -> b mod 2 ^ (k + 1) = 0 -> b mod 2 ^ k = 0.
Proof.
  intros Hk Hb. rewrite Z.pow_add_r in Hb by lia. apply Z.mod_divide; [lia|].
  apply Z.mod_divide in Hb as [q ->]; [|lia]. exists (q * 2 ^ 1). lia.
Qed.

Lemma below_step k w0 w bit :
  0 <= k -> below (k + 1) w0 (w, bit) ->
  let n := 2 ^ k in
  below k w0 (if Z.land w (Z.shiftl (2 ^ n - 1) n) =? 0 then (w, bit) else (shr32 w n, Z.lor bit n)).
Proof.
  intros Hk (Hw & Hb & Hm & Hl) n. simpl in *. assert (0 < n) by (unfold n; lia).
  assert (Hn2 : 2 ^ (k + 1) = 2 * n) by (unfold n; rewrite Z.pow_add_r by lia; lia). rewrite Hn2 in Hw.
  rewrite land_high_zero by lia.
  assert (Hz : Z.shiftl (Z.shiftr w n) n = 0 <-> w < 2 ^ n).
  { rewrite <-(shr32_zero w n) by lia. unfold shr32. rewrite Z.shiftl_eq_0_iff by lia. done. }
  destruct (Z.eqb_spec (Z.shiftl (Z.shiftr w n) n) 0) as [H0|H0]; rewrite Hz in H0; unfold below; simpl; fold n.
  - split_and!; [lia|lia|done|by apply mod_weaken|done].
  - assert (Hs : shr32 w n <> 0) by (rewrite shr32_zero; lia).
    assert (0 <= shr32 w n < 2 ^ n).
    { unfold shr32. rewrite Z.shiftr_div_pow2 by lia. split; [apply Z.div_pos; lia|].
      apply Z.div_lt_upper_bound; [lia|]. rewrite <-Z.pow_add_r by lia. replace (n + n) with (2 * n) by lia. lia. }
    replace (Z.lor bit n) with (bit + n) by (unfold n; by rewrite lor_disjoint).
    split_and!; [lia|lia|lia| |].
    + rewrite Z.add_mod by lia. rewrite Z.mod_same by lia. unfold n. rewrite (mod_weaken bit k) by done. done.
    + rewrite log2_shr by lia. lia.
Qed.

Lemma below_word w : 0 < w < WORD_MOD -> below 5 w (w, 0).
Proof. intros Hw. unfold below. simpl. split_and!; [lia|unfold WORD_MOD in Hw; lia|done|done|done]. Qed.

(** After the last step the word is 1, and [bit] is the answer. *)
Lemma below_done w0 p : below 0 w0 p -> p.2 = Z.log2 w0.
Proof.
  intros (Hw & _ & _ & Hl). assert (p.1 = 1) as H1 by (change (2 ^ 2 ^ 0) with 2 in Hw; lia).
  rewrite H1 in Hl. change (Z.log2 1) with 0 in Hl. lia.
Qed.

Lemma halve_down_spec k mask n w0 p :
  0 <= k -> n = 2 ^ k -> mask = Z.shiftl (2 ^ n - 1) n ->
  below (k + 1) w0 p -> below k w0 (halve_down mask n p).
Proof. intros Hk -> -> Hp. destruct p as [w bit]. unfold halve_down. by apply below_step. Qed.

Lemma nobranch_step_spec k n w0 p :
  0 <= k < 5 -> n = 2 ^ k -> below (k + 1) w0 p -> below k w0 (nobranch_step n p).
Proof.
  intros Hk Hn Hp. pose proof (halve_down_spec k _ n w0 p ltac:(lia) Hn eq_refl Hp) as H.
  destruct p as [w bit]. unfold nobranch_step, halve_down in *.
  assert (shl32 (bit32 n - 1) n = Z.shiftl (2 ^ n - 1) n) as ->.
  { assert (k = 0 \/ k = 1 \/ k = 2 \/ k = 3 \/ k = 4) by lia. naive_solver. }
  destruct (Z.land w _ =? 0); [|by rewrite Z.mul_1_l].
  unfold shr32. simpl. by rewrite Z.shiftr_0_r, Z.lor_0_r.
Qed.

Lemma msb_simple_spec w : 0 < w < WORD_MOD -> msb_simple w = Some (msb w).
Proof.
  intros Hw. unfold msb_simple. rewrite msb_shift_bits_spec; [by rewrite Z.sub_diag|done|].
  pose proof (Z.log2_nonneg w). lia.
Qed.

Lemma msb_byte_search_spec w : 0 < w < WORD_MOD -> msb_byte_search w = Some (msb w).
Proof.
  intros Hw. unfold msb_byte_search, msb.
  destruct (msb_shift_bytes_spec 4 w (BITS_WORD - 1)) as (w' & b' & -> & Hw' & Hl); [done| |].
  { pose proof (Z.log2_nonneg w). lia. }
  rewrite msb_shift_bits_spec; [f_equal; unfold BITS_WORD in *; lia|done|].
  pose proof (Z.log2_nonneg w'). lia.
Qed.

Lemma msb_binary_spec w : 0 < w < WORD_MOD -> msb_binary w = msb w.
Proof.
  intros Hw. unfold msb_binary, msb.
  pose proof (halve_up_spec 16 w (BITS_WORD - 1) ltac:(lia) ltac:(lia) ltac:(simpl; lia)) as H1.
  destruct (halve_up 16 _) as [w1 b1]. destruct H1 as [Hw1 H1].
  pose proof (halve_up_spec 8 w1 b1 ltac:(lia) ltac:(lia) Hw1) as H2.
  destruct (halve_up 8 _) as [w2 b2]. destruct H2 as [Hw2 H2].
  pose proof (halve_up_spec 4 w2 b2 ltac:(lia) ltac:(lia) Hw2) as H3.
  destruct (halve_up 4 _) as [w3 b3]. destruct H3 as [Hw3 H3].
  pose proof (halve_up_spec 2 w3 b3 ltac:(lia) ltac:(lia) Hw3) as H4.
  destruct (halve_up 2 _) as [w4 b4]. destruct H4 as [Hw4 H4].
  pose proof (halve_up_spec 1 w4 b4 ltac:(lia) ltac:(lia) Hw4) as H5.
  unfold halve_up in H5. unfold BITS_WORD in *.
  destruct (shr32 w4 (32 - 1) =? 0); destruct H5 as [Hw5 H5];
    pose proof (Z.log2_unique _ 31 ltac:(lia) ltac:(unfold WORD_MOD in Hw5; simpl in Hw5 |- *; exact Hw5)); lia.
Qed.

Lemma msb_binary2_spec w : 0 < w < WORD_MOD -> msb_binary2 w = msb w.
Proof.
  intros Hw. unfold msb_binary2, msb.
  assert (H : below 1 w (halve_down 0xc 2 (halve_down 0xf0 4 (halve_down 0xff00 8 (halve_down 0xffff0000 16 (w, 0)))))).
  { apply halve_down_spec; [done..|]. apply halve_down_spec; [done..|]. apply halve_down_spec; [done..|].
    apply halve_down_spec; [done..|]. by apply below_word. }
  destruct (halve_down 0xc 2 _) as [w4 b4].
  apply (halve_down_spec 0 0x2 1) in H; [|done..]. apply below_done in H. unfold halve_down in H.
  destruct (Z.land w4 2 =? 0); done.
Qed.

Lemma msb_nobranch_spec w : 0 < w < WORD_MOD -> msb_nobranch w = msb w.
Proof.
  intros Hw. unfold msb_nobranch, msb. apply below_done.
  apply (nobranch_step_spec 0); [lia|done|]. apply (nobranch_step_spec 1); [lia|done|].
  apply (nobranch_step_spec 2); [lia|done|]. apply (nobranch_step_spec 3); [lia|done|].
  apply (nobranch_step_spec 4); [lia|done|]. by apply below_word.
Qed.

(** What [msb] is: the highest set bit. *)
Lemma msb_highest w : 0 < w -> Z.testbit w (msb w) = true /\ forall i, Z.testbit w i = true -> i <= msb w.
Proof.
  intros Hw. split; [by apply Z.bit_log2|]. intros i Hi. destruct (Z.le_gt_cases i (msb w)); [done|].
  rewrite Z.bits_above_log2 in Hi by (unfold msb in *; lia). done.
Qed.

End msb_proofs.

(** ** Bitmaps: the bits an array of words stands for *)

Definition bm_bit (bm : list Z) (i : Z) : bool :=
  Z.testbit (default 0 (bm !! Z.to_nat (i / BITS_WORD))) (i mod BITS_WORD).

(** An array that serves as a bitmap of [len] bits: the bits past the end in
    its last word are clear. *)
Record bm_wf (bm : list Z) (len : Z) : Prop := {
  bmw_len : 0 < len;
  bmw_size : BITMAP_SIZE len <= Z.of_nat (length bm);
  bmw_words : Forall is_word bm;
  bmw_tail : forall i, len <= i < BITMAP_SIZE len * BITS_WORD -> bm_bit bm i = false
}.

Section bitmap_proofs.
Context {S : Type}.
Implicit Types (s : S) (bm : list Z) (i len bit : Z).

Lemma bm_index_range len i : 0 <= i < len -> 0 <= i / BITS_WORD < BITMAP_SIZE len.
Proof. unfold BITMAP_SIZE, BITS_WORD. intros. Z.div_mod_to_equations. lia. Qed.

Lemma bm_offset_range i : 0 <= i mod BITS_WORD < 32.
Proof. apply Z.mod_pos_bound. reflexivity. Qed.

Lemma bm_word bm (j : nat) w : Forall is_word bm -> bm !! j = Some w -> is_word w.
Proof. intros H Hi. by eapply Forall_lookup_1 in H. Qed.

(** The word of bit [i]. *)
Lemma bm_wf_lookup bm len i :
  bm_wf bm len -> 0 <= i < len -> exists w, bm !! Z.to_nat (i / BITS_WORD) = Some w /\ is_word w.
Proof.
  intros [_ Hs Hw _] Hi. pose proof (bm_index_range _ _ Hi) as Hr.
  destruct (lookup_lt_is_Some_2 bm (Z.to_nat (i / BITS_WORD))) as [w Hl]; [lia|].
  exists w. split; [done|]. by eapply bm_word.
Qed.

(** Bits of an array in which one word was replaced. *)
Lemma bm_bit_insert bm i j w :
  0 <= i -> 0 <= j < Z.of_nat (length bm) ->
  bm_bit (<[Z.to_nat j := w]> bm) i =
  if i / BITS_WORD =? j then Z.testbit w (i mod BITS_WORD) else bm_bit bm i.
Proof.
  intros Hi Hj. unfold bm_bit. assert (0 <= i / BITS_WORD) by (apply Z.div_pos; [done|reflexivity]).
  destruct (Z.eqb_spec (i / BITS_WORD) j) as [->|Hne].
  - rewrite list_lookup_insert_eq by lia. done.
  - rewrite list_lookup_insert_ne by lia. done.
Qed.

Lemma div_mod_inj i j : i / BITS_WORD = j / BITS_WORD -> i mod BITS_WORD = j mod BITS_WORD -> i = j.
Proof. unfold BITS_WORD. intros. Z.div_mod_to_equations. lia. Qed.

(** An update of the word of [bit] that changes that one bit. *)
Lemma bm_update_one bm len bit w (b : bool) f :
  bm_wf bm len -> 0 <= bit < len -> bm !! Z.to_nat (bit / BITS_WORD) = Some w ->
  is_word (f w) ->
  (forall p, 0 <= p < 32 -> Z.testbit (f w) p = if p =? bit mod BITS_WORD then b else Z.testbit w p) ->
  let bm' := <[Z.to_nat (bit / BITS_WORD) := f w]> bm in
  bm_wf bm' len /\ length bm' = length bm /\
  forall i, 0 <= i -> bm_bit bm' i = if i =? bit then b else bm_bit bm i.
Proof.
  intros [Hl Hs Hw Ht] Hb Hlk Hfw Hf bm'. pose proof (bm_index_range _ _ Hb) as Hr.
  assert (Hbits : forall i, 0 <= i -> bm_bit bm' i = if i =? bit then b else bm_bit bm i).
  { intros i Hi. unfold bm'. rewrite bm_bit_insert by lia.
    pose proof (bm_offset_range i). destruct (Z.eqb_spec (i / BITS_WORD) (bit / BITS_WORD)) as [He|Hne].
    - rewrite Hf by done. destruct (Z.eqb_spec (i mod BITS_WORD) (bit mod BITS_WORD)) as [He2|He2].
      + rewrite (div_mod_inj _ _ He He2). by rewrite Z.eqb_refl.
      + destruct (Z.eqb_spec i bit) as [->|]; [done|]. unfold bm_bit. rewrite He. by rewrite Hlk.
    - destruct (Z.eqb_spec i bit) as [->|]; [done|]. done. }
  split; [|split; [apply length_insert|done]]. constructor; [done|by unfold bm'; rewrite length_insert| |].
  - by apply Forall_insert.
  - intros i Hi. rewrite Hbits by lia. destruct (Z.eqb_spec i bit); [lia|]. by apply Ht.
Qed.

Lemma bitmap_set_spec bm len bit s :
  bm_wf bm len -> 0 <= bit < len ->
  wp (bitmap_set bm bit) (fun bm' s' => s' = s /\ bm_wf bm' len /\
    forall i, 0 <= i -> bm_bit bm' i = if i =? bit then true else bm_bit bm i) s.
Proof.
  intros Hwf Hb. destruct (bm_wf_lookup _ _ _ Hwf Hb) as (w & Hlk & Hw).
  pose proof (bm_index_range _ _ Hb). pose proof (bm_offset_range bit).
  unfold bitmap_set. apply wp_bind. eapply wp_index; [lia|done|].
  apply wp_index_set; [destruct Hwf; lia|]. split; [done|].
  destruct (bm_update_one bm len bit w true (fun w => Z.lor w (BITMAP_MASK bit))) as (H1 & H2 & H3); [done..| | |done].
  - apply (is_word_set_bit32 w (bit mod BITS_WORD) Hw).
  - intros p Hp. change (Z.testbit (set_bit32 w (bit mod BITS_WORD)) p = if p =? bit mod BITS_WORD then true else Z.testbit w p).
    rewrite testbit_set_bit32 by done.
    destruct (p =? _); [by rewrite orb_true_r|by rewrite orb_false_r].
Qed.

Lemma bitmap_clear_spec bm len bit s :
  bm_wf bm len -> 0 <= bit < len ->
  wp (bitmap_clear bm bit) (fun bm' s' => s' = s /\ bm_wf bm' len /\
    forall i, 0 <= i -> bm_bit bm' i = if i =? bit then false else bm_bit bm i) s.
Proof.
  intros Hwf Hb. destruct (bm_wf_lookup _ _ _ Hwf Hb) as (w & Hlk & Hw).
  pose proof (bm_index_range _ _ Hb). pose proof (bm_offset_range bit).
  unfold bitmap_clear. apply wp_bind. eapply wp_index; [lia|done|].
  apply wp_index_set; [destruct Hwf; lia|]. split; [done|].
  destruct (bm_update_one bm len bit w false (fun w => Z.land w (not32 (BITMAP_MASK bit)))) as (H1 & H2 & H3); [done..| | |done].
  - apply (is_word_clear_bit32 w (bit mod BITS_WORD) Hw).
  - intros p Hp. change (Z.testbit (clear_bit32 w (bit mod BITS_WORD)) p = if p =? bit mod BITS_WORD then false else Z.testbit w p).
    rewrite testbit_clear_bit32 by done.
    destruct (p =? _); [by rewrite andb_false_r|by rewrite andb_true_r].
Qed.

(** The value of a word masked to one bit. *)
Lemma land_bit32_zero w n : 0 <= n < 32 -> (Z.land w (bit32 n) = 0 <-> Z.testbit w n = false).
Proof.
  intros Hn. split; intros H.
  - pose proof (Z.land_spec w (bit32 n) n) as Hs. rewrite H, Z.bits_0, testbit_bit32, Z.eqb_refl, andb_true_r in Hs by done.
    done.
  - apply Z.bits_inj_0. intros i. rewrite Z.land_spec, testbit_bit32 by done.
    destruct (Z.eqb_spec i n) as [->|]; [by rewrite H|by rewrite andb_false_r].
Qed.

Lemma s32_zero x : is_word x -> s32 x = 0 <-> x = 0.
Proof.
  intros Hx. unfold s32. rewrite u32_word by done. unfold is_word, WORD_MOD in *. destruct (Z.ltb_spec x (2 ^ 31)); lia.
Qed.

Lemma bitmap_isset_spec bm len bit s :
  bm_wf bm len -> 0 <= bit < len ->
  wp (bitmap_isset bm bit) (fun r s' => s' = s /\ (r <> 0 <-> bm_bit bm bit = true)) s.
Proof.
  intros Hwf Hb. destruct (bm_wf_lookup _ _ _ Hwf Hb) as (w & Hlk & Hw).
  pose proof (bm_index_range _ _ Hb). pose proof (bm_offset_range bit).
  unfold bitmap_isset. apply wp_bind. eapply wp_index; [lia|done|]. wp_steps. split; [done|].
  unfold bm_bit. rewrite Hlk. simpl. unfold BITMAP_MASK.
  rewrite s32_zero by (apply is_word_land; [done|apply is_word_u32]).
  rewrite land_bit32_zero by done. destruct (Z.testbit w _); naive_solver.
Qed.

(** *** Whole words

    All bits of the words before [n] have the value [b]. *)
Lemma bm_bits_words bm (n : nat) (c : Z) (b : bool) :
  (forall p, 0 <= p < 32 -> Z.testbit c p = b) -> is_word c ->
  Forall is_word bm -> (n <= length bm)%nat ->
  (forall j, (j < n)%nat -> bm !! j = Some c) <->
  (forall i, 0 <= i < Z.of_nat n * BITS_WORD -> bm_bit bm i = b).
Proof.
  intros Hc Hcw Hw Hn. split; intros H.
  - intros i Hi. unfold bm_bit. pose proof (bm_offset_range i).
    assert (0 <= i / BITS_WORD < Z.of_nat n) by (unfold BITS_WORD in *; Z.div_mod_to_equations; lia).
    rewrite (H (Z.to_nat (i / BITS_WORD))) by lia. by apply Hc.
  - intros j Hj. destruct (lookup_lt_is_Some_2 bm j) as [w Hl]; [lia|]. rewrite Hl. f_equal.
    pose proof (bm_word _ _ _ Hw Hl) as Hww. apply Z.bits_inj'. intros p Hp.
    destruct (Z.lt_ge_cases p 32); [|by rewrite !word_bits_high].
    rewrite Hc by lia. rewrite <-(H (Z.of_nat j * BITS_WORD + p)) by (unfold BITS_WORD; lia). unfold bm_bit.
    rewrite Z.div_add_l, Z.div_small, Z.add_0_r, Nat2Z.id, Hl by (unfold BITS_WORD; lia).
    rewrite Z.add_comm, Z.mod_add, Z.mod_small by (unfold BITS_WORD; lia). done.
Qed.

Lemma bitmap_words_are_spec bm check (n : nat) i s :
  0 <= i -> i + Z.of_nat n <= Z.of_nat (length bm) ->
  wp (bitmap_words_are n i bm check) (fun r s' => s' = s /\
    (r = true <-> forall j, i <= Z.of_nat j < i + Z.of_nat n -> bm !! j = Some check)) s.
Proof.
  revert i. induction n as [|n IH]; intros i Hi Hl; cbn [bitmap_words_are].
  - wp_steps. split; [done|]. split; [|done]. intros _ j Hj. lia.
  - destruct (lookup_lt_is_Some_2 bm (Z.to_nat i)) as [w Hw]; [lia|].
    apply wp_bind. eapply wp_index; [done|done|]. destruct (Z.eqb_spec w check) as [->|Hne].
    + wp_call IH; [lia..|]. intros r s' [-> Hr]. split; [done|]. rewrite Hr. split; intros H j Hj.
      * destruct (decide (Z.of_nat j = i)) as [<-|]; [by rewrite Nat2Z.id in Hw|]. apply H. lia.
      * apply H. lia.
    + wp_steps. split; [done|]. split; [done|]. intros H. specialize (H (Z.to_nat i) ltac:(lia)). congruence.
Qed.

Lemma bitmap_fill_spec (n : nat) i bm v s :
  0 <= i -> i + Z.of_nat n <= Z.of_nat (length bm) ->
  wp (bitmap_fill n i bm v) (fun bm' s' => s' = s /\ length bm' = length bm /\
    forall j, bm' !! j = if decide (i <= Z.of_nat j < i + Z.of_nat n) then Some v else bm !! j) s.
Proof.
  revert i bm. induction n as [|n IH]; intros i bm Hi Hl; cbn [bitmap_fill].
  - wp_steps. split_and!; [done..|]. intros j. rewrite decide_False by lia. done.
  - apply wp_bind. apply wp_index_set; [lia|]. wp_call IH; [lia|rewrite length_insert; lia|].
    intros bm' s' (-> & Hlen & Hb). rewrite length_insert in Hlen. split_and!; [done..|].
    intros j. rewrite Hb. repeat case_decide; try done; try lia.
    + assert (j = Z.to_nat i) as -> by lia. by rewrite list_lookup_insert_eq by lia.
    + rewrite list_lookup_insert_ne by lia. done.
Qed.

Lemma bitmap_size_pos len : 0 < len -> 0 < BITMAP_SIZE len.
Proof. unfold BITMAP_SIZE, BITS_WORD. intros. Z.div_mod_to_equations. lia. Qed.

(** The last word holds the bits from [32 * (size - 1)] to [len]. *)
Lemma bitmap_size_last len :
  0 < len -> len = (BITMAP_SIZE len - 1) * BITS_WORD + (if len mod BITS_WORD =? 0 then 32 else len mod BITS_WORD).
Proof.
  unfold BITMAP_SIZE, BITS_WORD. intros. destruct (Z.eqb_spec (len mod 32) 0); Z.div_mod_to_equations; lia.
Qed.

Lemma testbit_bit32_pred m p : 0 <= m < 32 -> 0 <= p -> Z.testbit (bit32 m - 1) p = (p <? m).
Proof.
  intros Hm Hp. rewrite bit32_pow by done. replace (2 ^ m - 1) with (Z.ones m) by (rewrite Z.ones_equiv; lia).
  destruct (Z.ltb_spec p m); [apply Z.ones_spec_low; lia|apply Z.ones_spec_high; lia].
Qed.

Lemma is_word_bit32_pred m : 0 <= m < 32 -> is_word (bit32 m - 1).
Proof.
  intros Hm. rewrite bit32_pow by done. unfold is_word, WORD_MOD.
  assert (2 ^ m < 2 ^ 32) by (apply Z.pow_lt_mono_r; lia). assert (0 < 2 ^ m) by lia. lia.
Qed.

Lemma testbit_all_ones p : 0 <= p < 32 -> Z.testbit (not32 0) p = true.
Proof. intros Hp. rewrite testbit_not32; [by rewrite Z.bits_0|unfold is_word, WORD_MOD; lia|done]. Qed.

Lemma bitmap_init_spec bm len set s :
  0 < len -> BITMAP_SIZE len <= Z.of_nat (length bm) -> Forall is_word bm ->
  wp (bitmap_init bm len set) (fun bm' s' => s' = s /\ bm_wf bm' len /\
    forall i, 0 <= i < len -> bm_bit bm' i = negb (set =? 0)) s.
Proof.
  intros Hlen Hs Hw. unfold bitmap_init. pose proof (bitmap_size_pos _ Hlen) as Hsz.
  set (v := if set =? 0 then 0 else not32 0).
  assert (Hv : is_word v) by (unfold v; destruct (set =? 0); [unfold is_word, WORD_MOD; lia|apply is_word_not32]).
  assert (Hvb : forall p, 0 <= p < 32 -> Z.testbit v p = negb (set =? 0)).
  { intros p Hp. unfold v. destruct (set =? 0); [by rewrite Z.bits_0|by rewrite testbit_all_ones]. }
  apply wp_bind. wp_call bitmap_fill_spec; [lia|lia|]. intros bm1 s' (-> & Hl1 & Hb1).
  assert (Hw1 : Forall is_word bm1).
  { apply Forall_lookup_2. intros j w Hj. rewrite Hb1 in Hj. case_decide; [by simplify_eq|by eapply bm_word]. }
  assert (Hbits : forall i, 0 <= i < BITMAP_SIZE len * BITS_WORD -> bm_bit bm1 i = negb (set =? 0)).
  { pose proof (bm_bits_words bm1 (Z.to_nat (BITMAP_SIZE len)) v (negb (set =? 0)) Hvb Hv Hw1 ltac:(lia)) as [H _].
    rewrite Z2Nat.id in H by lia. apply H. intros j Hj. rewrite Hb1, decide_True by lia. done. }
  pose proof (bitmap_size_last len Hlen) as Hlast.
  destruct (Z.eqb_spec (len mod BITS_WORD) 0) as [H0|H0].
  { wp_steps. split; [done|]. split; [constructor; [done|lia|done|]|]; unfold BITS_WORD in *.
    - intros i Hi. lia.
    - intros i Hi. apply Hbits. lia. }
  pose proof (bm_offset_range len) as Hm.
  assert (Hlw : bm1 !! Z.to_nat (BITMAP_SIZE len - 1) = Some v) by (rewrite Hb1, decide_True by lia; done).
  apply wp_bind. eapply wp_index; [lia|done|]. apply wp_index_set; [lia|]. split; [done|].
  assert (Hbits2 : forall i, 0 <= i < BITMAP_SIZE len * BITS_WORD ->
     bm_bit (<[Z.to_nat (BITMAP_SIZE len - 1) := Z.land v (bit32 (len mod BITS_WORD) - 1)]> bm1) i
     = negb (set =? 0) && (i <? len)).
  { intros i Hi. rewrite bm_bit_insert by lia. pose proof (bm_offset_range i).
    pose proof (Z.div_mod i BITS_WORD ltac:(done)). unfold BITS_WORD in *.
    destruct (Z.eqb_spec (i / 32) (BITMAP_SIZE len - 1)) as [He|Hne].
    - rewrite Z.land_spec, Hvb, testbit_bit32_pred by lia. f_equal.
      destruct (Z.ltb_spec (i mod 32) (len mod 32)), (Z.ltb_spec i len); try done; lia.
    - rewrite Hbits by lia. destruct (Z.ltb_spec i len); [by rewrite andb_true_r|].
      assert (0 <= i / 32) by (apply Z.div_pos; lia).
      assert (i / 32 < BITMAP_SIZE len) by (apply Z.div_lt_upper_bound; lia). lia. }
  split; [constructor; [done|by rewrite length_insert, Hl1| |]|].
  - apply Forall_insert; [done|]. apply is_word_land; [done|]. apply is_word_bit32_pred. done.
  - intros i Hi. rewrite Hbits2 by lia. destruct (Z.ltb_spec i len); [lia|]. by rewrite andb_false_r.
  - intros i Hi. rewrite Hbits2; [|unfold BITS_WORD in *; lia]. destruct (Z.ltb_spec i len); [by rewrite andb_true_r|lia].
Qed.

(** The complete words and the last word: what [isallset] and [isallclear]
    compare. *)
Lemma bitmap_compare_spec bm len check (last : Z) (b : bool) s :
  bm_wf bm len -> is_word check -> (forall p, 0 <= p < 32 -> Z.testbit check p = b) ->
  wp (let! full := bitmap_words_are (Z.to_nat (BITMAP_SIZE len - 1)) 0 bm check in
      if full then let! w := index bm (BITMAP_SIZE len - 1) in ret (w =? last) else ret false)
    (fun r s' => s' = s /\
      (r = true <-> (forall i, 0 <= i < (BITMAP_SIZE len - 1) * BITS_WORD -> bm_bit bm i = b) /\
                    bm !! Z.to_nat (BITMAP_SIZE len - 1) = Some last)) s.
Proof.
  intros [Hl Hs Hw Ht] Hcw Hc. pose proof (bitmap_size_pos _ Hl).
  pose proof (bm_bits_words bm (Z.to_nat (BITMAP_SIZE len - 1)) check b Hc Hcw Hw ltac:(lia)) as Hwd.
  rewrite Z2Nat.id in Hwd by lia.
  assert (Hf : (forall j : nat, 0 <= Z.of_nat j < 0 + Z.of_nat (Z.to_nat (BITMAP_SIZE len - 1)) -> bm !! j = Some check)
               <-> (forall i, 0 <= i < (BITMAP_SIZE len - 1) * BITS_WORD -> bm_bit bm i = b)).
  { rewrite <-Hwd. split; intros H' j Hj; apply H'; lia. }
  apply wp_bind. wp_call bitmap_words_are_spec; [lia|lia|]. intros r s' [-> Hr]. rewrite Hf in Hr. destruct r.
  - destruct (lookup_lt_is_Some_2 bm (Z.to_nat (BITMAP_SIZE len - 1))) as [w Hlw]; [lia|].
    apply wp_bind. eapply wp_index; [lia|done|]. wp_steps. split; [done|]. rewrite Z.eqb_eq, Hlw. naive_solver.
  - wp_steps. split; [done|]. naive_solver.
Qed.

(** The last word of a bitmap has exactly the bits below [len]. *)
Lemma bm_last_word bm len (b : bool) w :
  bm_wf bm len -> len mod BITS_WORD <> 0 -> bm !! Z.to_nat (BITMAP_SIZE len - 1) = Some w ->
  (w = if b then bit32 (len mod BITS_WORD) - 1 else 0) <->
  (forall i, (BITMAP_SIZE len - 1) * BITS_WORD <= i < len -> bm_bit bm i = b).
Proof.
  intros [Hl Hs Hw Ht] Hne Hlk. pose proof (bitmap_size_last len Hl) as Hlast.
  rewrite (proj2 (Z.eqb_neq _ _) Hne) in Hlast. pose proof (bm_offset_range len) as Hm.
  pose proof (bm_word _ _ _ Hw Hlk) as Hww. pose proof (bitmap_size_pos _ Hl).
  assert (Hbit : forall p, 0 <= p < 32 -> bm_bit bm ((BITMAP_SIZE len - 1) * BITS_WORD + p) = Z.testbit w p).
  { intros p Hp. unfold bm_bit. rewrite Z.div_add_l, Z.div_small, Z.add_0_r, Hlk by (unfold BITS_WORD; lia).
    rewrite Z.add_comm, Z.mod_add, Z.mod_small by (unfold BITS_WORD; lia). done. }
  split.
  - intros -> i Hi. replace i with ((BITMAP_SIZE len - 1) * BITS_WORD + (i - (BITMAP_SIZE len - 1) * BITS_WORD)) by lia.
    rewrite Hbit by (unfold BITS_WORD in *; lia). destruct b; [|apply Z.bits_0].
    rewrite testbit_bit32_pred by lia. apply Z.ltb_lt. lia.
  - intros H'. apply Z.bits_inj'. intros p Hp. destruct (Z.lt_ge_cases p 32).
    + rewrite <-Hbit by lia. destruct (Z.lt_ge_cases p (len mod BITS_WORD)).
      * rewrite H' by lia. destruct b; [|by rewrite Z.bits_0]. rewrite testbit_bit32_pred by lia. symmetry. by apply Z.ltb_lt.
      * rewrite Ht by (unfold BITS_WORD in *; lia). destruct b; [|by rewrite Z.bits_0].
        rewrite testbit_bit32_pred by lia. symmetry. by apply Z.ltb_ge.
    + rewrite !word_bits_high; try done. destruct b; [by apply is_word_bit32_pred|unfold is_word, WORD_MOD; lia].
Qed.

(** Whether it is empty, for every length. *)
Lemma bm_last_word_clear bm len :
  bm_wf bm len ->
  bm !! Z.to_nat (BITMAP_SIZE len - 1) = Some 0 <->
  (forall i, (BITMAP_SIZE len - 1) * BITS_WORD <= i < len -> bm_bit bm i = false).
Proof.
  intros [Hl Hs Hw Ht]. pose proof (bitmap_size_pos _ Hl). pose proof (bitmap_size_last len Hl) as Hlast.
  assert (Hle : len <= BITMAP_SIZE len * BITS_WORD).
  { pose proof (bm_offset_range len). destruct (Z.eqb_spec (len mod BITS_WORD) 0); unfold BITS_WORD in *; lia. }
  destruct (lookup_lt_is_Some_2 bm (Z.to_nat (BITMAP_SIZE len - 1))) as [w Hlw]; [lia|].
  pose proof (bm_word _ _ _ Hw Hlw) as Hww. rewrite Hlw. split.
  - intros [= ->] i Hi. unfold bm_bit. assert (i / BITS_WORD = BITMAP_SIZE len - 1) as ->.
    { unfold BITS_WORD in *. Z.div_mod_to_equations. lia. }
    rewrite Hlw. apply Z.bits_0.
  - intros H'. f_equal. apply Z.bits_inj_0. intros p.
    destruct (Z.lt_ge_cases p 0); [by apply Z.testbit_neg_r|]. destruct (Z.lt_ge_cases p 32); [|by apply word_bits_high].
    assert (Hb : bm_bit bm ((BITMAP_SIZE len - 1) * BITS_WORD + p) = Z.testbit w p).
    { unfold bm_bit, BITS_WORD. rewrite Z.div_add_l, Z.div_small, Z.add_0_r, Hlw by lia. by rewrite Z.add_comm, Z.mod_add, Z.mod_small by lia. }
    rewrite <-Hb. destruct (Z.lt_ge_cases ((BITMAP_SIZE len - 1) * BITS_WORD + p) len); [apply H'|apply Ht]; unfold BITS_WORD in *; lia.
Qed.

Lemma bm_split_last bm len (b : bool) :
  0 < len ->
  (forall i, 0 <= i < len -> bm_bit bm i = b) <->
  (forall i, 0 <= i < (BITMAP_SIZE len - 1) * BITS_WORD -> bm_bit bm i = b) /\
  (forall i, (BITMAP_SIZE len - 1) * BITS_WORD <= i < len -> bm_bit bm i = b).
Proof.
  intros Hl. pose proof (bitmap_size_last len Hl) as Hlast. pose proof (bitmap_size_pos _ Hl).
  assert (0 < if len mod BITS_WORD =? 0 then 32 else len mod BITS_WORD).
  { pose proof (bm_offset_range len). destruct (Z.eqb_spec (len mod BITS_WORD) 0); lia. }
  assert (0 <= (BITMAP_SIZE len - 1) * BITS_WORD) by (unfold BITS_WORD; lia). split.
  - intros H'. split; intros i Hi; apply H'; lia.
  - intros [Hlo Hhi] i Hi. destruct (Z.lt_ge_cases i ((BITMAP_SIZE len - 1) * BITS_WORD)); [apply Hlo|apply Hhi]; lia.
Qed.

Lemma bitmap_isallset_spec bm len s :
  bm_wf bm len -> len mod BITS_WORD <> 0 ->
  wp (bitmap_isallset bm len) (fun r s' => s' = s /\
    (r = true <-> forall i, 0 <= i < len -> bm_bit bm i = true)) s.
Proof.
  intros Hwf Hne. unfold bitmap_isallset.
  wp_call (bitmap_compare_spec bm len (not32 0) _ true); [done|apply is_word_not32|apply testbit_all_ones|].
  intros r s' [-> Hr]. split; [done|]. rewrite Hr, (bm_split_last bm len true) by apply Hwf.
  destruct (lookup_lt_is_Some_2 bm (Z.to_nat (BITMAP_SIZE len - 1))) as [w Hlw].
  { destruct Hwf as [Hl Hs _ _]. pose proof (bitmap_size_pos _ Hl). lia. }
  rewrite <-(bm_last_word bm len true w Hwf Hne Hlw), Hlw. naive_solver.
Qed.

(** When the length is a whole number of words, [bitmap_isallset] answers
    that the last word is empty. *)
Lemma bitmap_isallset_whole bm len s :
  bm_wf bm len -> len mod BITS_WORD = 0 ->
  wp (bitmap_isallset bm len) (fun r s' => s' = s /\
    (r = true <-> (forall i, 0 <= i < len - BITS_WORD -> bm_bit bm i = true) /\
                  (forall i, len - BITS_WORD <= i < len -> bm_bit bm i = false))) s.
Proof.
  intros Hwf H0. unfold bitmap_isallset. rewrite H0. change (bit32 0 - 1) with 0.
  wp_call (bitmap_compare_spec bm len (not32 0) 0 true); [done|apply is_word_not32|apply testbit_all_ones|].
  intros r s' [-> Hr]. split; [done|]. rewrite Hr, bm_last_word_clear by done.
  pose proof (bitmap_size_last len (bmw_len _ _ Hwf)) as Hlast. rewrite H0 in Hlast. cbn in Hlast.
  by replace (len - BITS_WORD) with ((BITMAP_SIZE len - 1) * BITS_WORD) by (unfold BITS_WORD in *; lia).
Qed.

Lemma bitmap_isallclear_spec bm len s :
  bm_wf bm len ->
  wp (bitmap_isallclear bm len) (fun r s' => s' = s /\
    (r = true <-> forall i, 0 <= i < len -> bm_bit bm i = false)) s.
Proof.
  intros Hwf. unfold bitmap_isallclear.
  wp_call (bitmap_compare_spec bm len 0 0 false); [done|unfold is_word, WORD_MOD; lia|intros; apply Z.bits_0|].
  intros r s' [-> Hr]. split; [done|]. by rewrite Hr, (bm_split_last bm len false), bm_last_word_clear by apply Hwf.
Qed.

(** What a search for a set bit finds: the highest bit of the first word that
    is not empty. *)
Definition bm_found bm len (r : Z) : Prop :=
  (r = -1 /\ forall i, 0 <= i < len -> bm_bit bm i = false) \/
  (0 <= r < len /\ bm_bit bm r = true /\
   (forall i, 0 <= i < r / BITS_WORD * BITS_WORD -> bm_bit bm i = false) /\
   (forall i, i / BITS_WORD = r / BITS_WORD -> bm_bit bm i = true -> i <= r)).

Lemma bitmap_find_set_spec bm len (n : nat) j s :
  bm_wf bm len -> 0 <= j -> j + Z.of_nat n = BITMAP_SIZE len ->
  (forall i, 0 <= i < j * BITS_WORD -> bm_bit bm i = false) ->
  wp (bitmap_find id n j bm) (fun r s' => s' = s /\ bm_found bm len r) s.
Proof.
  intros Hwf. pose proof Hwf as [Hl Hs Hw Ht]. pose proof (bitmap_size_last len Hl) as Hlast.
  pose proof (bm_offset_range len) as Hm.
  revert j. induction n as [|n IH]; intros j Hj Hn Hc; cbn [bitmap_find].
  - wp_steps. split; [done|]. left. split; [done|]. intros i Hi. apply Hc.
    replace j with (BITMAP_SIZE len) by lia. unfold BITS_WORD in *.
    destruct (Z.eqb_spec (len mod 32) 0); lia.
  - destruct (lookup_lt_is_Some_2 bm (Z.to_nat j)) as [w Hlw]; [lia|]. pose proof (bm_word _ _ _ Hw Hlw) as Hww.
    assert (Hbit : forall i, i / BITS_WORD = j -> bm_bit bm i = Z.testbit w (i mod BITS_WORD)).
    { intros i <-. unfold bm_bit. by rewrite Hlw. }
    apply wp_bind. eapply wp_index; [done|done|]. cbn [id]. destruct (Z.eqb_spec w 0) as [->|Hne].
    + apply IH; [lia|lia|]. intros i Hi. destruct (Z.lt_ge_cases i (j * BITS_WORD)); [apply Hc; lia|].
      rewrite Hbit; [apply Z.bits_0|]. unfold BITS_WORD in *. Z.div_mod_to_equations. lia.
    + wp_steps. split; [done|]. right. destruct (msb_highest w) as [Hm1 Hm2]; [unfold is_word in Hww; lia|].
      assert (0 <= msb w < 32).
      { split; [apply Z.log2_nonneg|]. destruct (Z.lt_ge_cases (msb w) 32); [done|].
        rewrite word_bits_high in Hm1 by done. done. }
      assert (Hr : (j * BITS_WORD + msb w) / BITS_WORD = j /\ (j * BITS_WORD + msb w) mod BITS_WORD = msb w).
      { unfold BITS_WORD. split; [rewrite Z.div_add_l, Z.div_small by lia; lia|].
        rewrite Z.add_comm, Z.mod_add, Z.mod_small by lia. done. }
      destruct Hr as [Hr1 Hr2].
      assert (Hset : bm_bit bm (j * BITS_WORD + msb w) = true) by (rewrite Hbit by done; by rewrite Hr2).
      split_and!; [unfold BITS_WORD; lia| |done| |].
      * destruct (Z.lt_ge_cases (j * BITS_WORD + msb w) len); [done|]. rewrite Ht in Hset; [done|].
        unfold BITS_WORD in *. lia.
      * rewrite Hr1. done.
      * intros i Hi Hb. rewrite Hr1 in Hi. rewrite Hbit in Hb by done. apply Hm2 in Hb.
        rewrite (Z.div_mod i BITS_WORD) by done. rewrite Hi. unfold BITS_WORD in *. lia.
Qed.

Lemma bitmap_findfirstset_spec bm len s :
  bm_wf bm len -> wp (bitmap_findfirstset bm len) (fun r s' => s' = s /\ bm_found bm len r) s.
Proof.
  intros Hwf. pose proof (bitmap_size_pos len (bmw_len _ _ Hwf)). unfold bitmap_findfirstset.
  apply bitmap_find_set_spec; [done|lia|lia|]. intros i Hi. unfold BITS_WORD in *. lia.
Qed.

End bitmap_proofs.

(** ** Correctness *)

(** The five implementations of the most significant bit agree on every
    word that is not zero: each loop ends, and the result is the position of
    the highest set bit. *)
Lemma msb_variants (w : Z) :
  0 < w < WORD_MOD ->
  msb_simple w = Some (msb w) /\ msb_byte_search w = Some (msb w) /\
  msb_binary w = msb w /\ msb_binary2 w = msb w /\ msb_nobranch w = msb w /\
  Z.testbit w (msb w) = true /\ (forall i, Z.testbit w i = true -> i <= msb w).
Proof.
  intros Hw. destruct (msb_highest w ltac:(lia)).
  auto 10 using msb_simple_spec, msb_byte_search_spec, msb_binary_spec, msb_binary2_spec, msb_nobranch_spec.
Qed.

(** C37: The kernel library.  Bitmaps: initialisation sets or clears every bit,
    setting and clearing change one bit, the tests answer what the bits are,
    and the search finds a set bit, the highest of the first word that has
    one, or reports that there is none.  [bitmap_isallclear] is right for
    every length, [bitmap_isallset] for
    lengths that do not fill the last word; for the others it asks instead
    whether the last word is empty.  The five implementations of the most
    significant bit agree on every word that is not zero: each loop ends, and
    the result is the position of the highest set bit. *)
Theorem kernel_library_correct {S} (s : S) (bm : list Z) (len bit set : Z) :
  bm_wf bm len -> 0 <= bit < len ->
  wp (bitmap_init bm len set) (fun bm' s' => s' = s /\ bm_wf bm' len /\
     forall i, 0 <= i < len -> bm_bit bm' i = negb (set =? 0)) s /\
  wp (bitmap_set bm bit) (fun bm' s' => s' = s /\ bm_wf bm' len /\
     forall i, 0 <= i -> bm_bit bm' i = if i =? bit then true else bm_bit bm i) s /\
  wp (bitmap_clear bm bit) (fun bm' s' => s' = s /\ bm_wf bm' len /\
     forall i, 0 <= i -> bm_bit bm' i = if i =? bit then false else bm_bit bm i) s /\
  wp (bitmap_isset bm bit) (fun r s' => s' = s /\ (r <> 0 <-> bm_bit bm bit = true)) s /\
  wp (bitmap_findfirstset bm len) (fun r s' => s' = s /\ bm_found bm len r) s /\
  wp (bitmap_isallclear bm len) (fun r s' => s' = s /\
     (r = true <-> forall i, 0 <= i < len -> bm_bit bm i = false)) s /\
  (len mod BITS_WORD <> 0 ->
     wp (bitmap_isallset bm len) (fun r s' => s' = s /\
       (r = true <-> forall i, 0 <= i < len -> bm_bit bm i = true)) s) /\
  (len mod BITS_WORD = 0 ->
     wp (bitmap_isallset bm len) (fun r s' => s' = s /\
       (r = true <-> (forall i, 0 <= i < len - BITS_WORD -> bm_bit bm i = true) /\
                     (forall i, len - BITS_WORD <= i < len -> bm_bit bm i = false))) s) /\
  (forall w, 0 < w < WORD_MOD ->
     msb_simple w = Some (msb w) /\ msb_byte_search w = Some (msb w) /\
     msb_binary w = msb w /\ msb_binary2 w = msb w /\ msb_nobranch w = msb w /\
     Z.testbit w (msb w) = true /\ (forall i, Z.testbit w i = true -> i <= msb w)).
Proof.
  intros Hwf Hb. pose proof Hwf as [Hl Hs Hw _].
  split_and!; [by apply bitmap_init_spec|by apply bitmap_set_spec|by apply bitmap_clear_spec
    |by eapply bitmap_isset_spec|by apply bitmap_findfirstset_spec|by apply bitmap_isallclear_spec
    |by apply bitmap_isallset_spec|by apply bitmap_isallset_whole|by apply msb_variants].
Qed.

Lemma bm_wf_demo : bm_wf [0x80000001; 0x5] 40.
Proof.
  constructor; [lia|by vm_compute|by repeat constructor|]. intros i Hi. unfold bm_bit.
  change (BITMAP_SIZE 40 * BITS_WORD) with 64 in Hi. unfold BITS_WORD.
  assert (i / 32 = 1) as -> by (Z.div_mod_to_equations; lia). simpl.
  assert (8 <= i mod 32) by (Z.div_mod_to_equations; lia). apply Z.bits_above_log2; [lia|]. simpl. lia.
Qed.

Lemma kernel_library_correct_witness :
  wp (bitmap_findfirstset [0x80000001; 0x5] 40) (fun r (s' : unit) => s' = tt /\ bm_found [0x80000001; 0x5] 40 r) tt /\
  bitmap_findfirstset [0x80000001; 0x5] 40 tt = Done 31 tt.
Proof.
  split; [|reflexivity].
  exact (proj1 (proj2 (proj2 (proj2 (proj2 (kernel_library_correct tt _ 40 3 1 bm_wf_demo ltac:(lia))))))).
Defined.
