(* ===== verification/Queueing.v ===== *)
(** * Ring lists of the microkernel ([pistachio/include/queueing.h])

    The queues of the microkernel are rings: a class embeds one
    [ringlist_t] per queue its objects can be on, and the macros of
    [queueing.h] take the name of that member as an argument.  Here the
    member is a value of type [ringlist V], the four accessors, and the
    macros act on the store of objects. *)

From S2P Require Import Prelude Rings.

Abbreviation ptr := (option nat).

(** ** The macros *)

Record ringlist (V : Type) := Ringlist {
  rl_next : V -> ptr;
  rl_prev : V -> ptr;
  rl_set_next : ptr -> V -> V;
  rl_set_prev : ptr -> V -> V
}.
Arguments rl_next {V}.
Arguments rl_prev {V}.
Arguments rl_set_next {V}.
Arguments rl_set_prev {V}.

Section macros.
Context {V : Type} (f : ringlist V).
Abbreviation Q A := (M (gmap nat V) A).

Definition obj_get {A} (p : ptr) (field : V -> A) : Q A :=
  let! a := demand InvalidPointer p in
  let! m := gets id in
  let! v := demand InvalidPointer (m !! a) in
  ret (field v).

Definition obj_set (p : ptr) (g : V -> V) : Q unit :=
  let! a := demand InvalidPointer p in
  let! m := gets id in
  let! v := demand InvalidPointer (m !! a) in
  modify (fun _ => <[a := g v]> m).

(** The macros assign to [head]; here they return its new value. *)
Definition ENQUEUE_LIST_TAIL (head object : ptr) : Q ptr :=
  if bool_decide (head = None) then
    do! obj_set object (rl_set_prev f object) in
    do! obj_set object (rl_set_next f object) in
    ret object
  else
    do! obj_set object (rl_set_next f head) in
    let! p := obj_get head (rl_prev f) in
    do! obj_set object (rl_set_prev f p) in
    let! p := obj_get head (rl_prev f) in
    do! obj_set p (rl_set_next f object) in
    do! obj_set head (rl_set_prev f object) in
    ret head.

Definition ENQUEUE_LIST_HEAD (head object : ptr) : Q ptr :=
  do! (if bool_decide (head = None) then
         do! obj_set object (rl_set_prev f object) in
         obj_set object (rl_set_next f object)
       else
         do! obj_set object (rl_set_next f head) in
         let! p := obj_get head (rl_prev f) in
         do! obj_set object (rl_set_prev f p) in
         let! p := obj_get head (rl_prev f) in
         do! obj_set p (rl_set_next f object) in
         obj_set head (rl_set_prev f object)) in
  ret object.

Definition DEQUEUE_LIST (head object : ptr) : Q ptr :=
  let! n := obj_get object (rl_next f) in
  let! head' :=
    (if bool_decide (n = object) then ret None
     else
       let! next_list := obj_get object (rl_next f) in
       let! prev_list := obj_get object (rl_prev f) in
       let! head' := (if bool_decide (head = object) then obj_get object (rl_next f) else ret head) in
       let! p := obj_get object (rl_prev f) in
       do! obj_set next_list (rl_set_prev f p) in
       let! n := obj_get object (rl_next f) in
       do! obj_set prev_list (rl_set_next f n) in
       ret head') in
  do! obj_set object (rl_set_prev f None) in
  do! obj_set object (rl_set_next f None) in
  ret head'.

(** [is_queued] *)
Definition is_queued (v : V) : bool := bool_decide (rl_next f v <> None).

End macros.

(** ** Objects with a ring list: the laws of the accessors *)

Class RinglistLaws {V} (f : ringlist V) := {
  rl_next_set_next p v : rl_next f (rl_set_next f p v) = p;
  rl_next_set_prev p v : rl_next f (rl_set_prev f p v) = rl_next f v;
  rl_prev_set_prev p v : rl_prev f (rl_set_prev f p v) = p;
  rl_prev_set_next p v : rl_prev f (rl_set_next f p v) = rl_prev f v
}.

(** What an object is apart from its place on the queue. *)
Definition rl_same {V} (f : ringlist V) (v v' : V) : Prop :=
  forall (A : Type) (g : V -> A),
    (forall p w, g (rl_set_next f p w) = g w) -> (forall p w, g (rl_set_prev f p w) = g w) -> g v' = g v.

(** Stores that differ in the links of the objects of [l] only. *)
Definition rl_frame {V} (f : ringlist V) (l : list nat) (m m' : gmap nat V) : Prop :=
  (forall x, x ∉ l -> m' !! x = m !! x) /\
  forall x v, m !! x = Some v -> exists v', m' !! x = Some v' /\ rl_same f v v'.

Section proofs.
Context {V : Type} (f : ringlist V).
Implicit Types (m : gmap nat V) (l : list nat) (x y o h : nat).

#[local] Instance rl_links : Links V := {| link_next := rl_next f; link_prev := rl_prev f |}.

(** The list [l] is the queue whose head pointer is [head]. *)
Definition rl_queue m (head : ptr) l : Prop :=
  head = hd_error l /\ NoDup l /\ ring m l.

Lemma rl_same_refl v : rl_same f v v.
Proof. by intros A g _ _. Qed.
Lemma rl_same_trans v w u : rl_same f v w -> rl_same f w u -> rl_same f v u.
Proof. intros H1 H2 A g Hn Hp. by rewrite (H2 A g), (H1 A g). Qed.

Lemma rl_frame_refl l m : rl_frame f l m m.
Proof. split; [done|]. intros x v Hv. exists v. split; [done|apply rl_same_refl]. Qed.

Lemma rl_frame_trans l m1 m2 m3 : rl_frame f l m1 m2 -> rl_frame f l m2 m3 -> rl_frame f l m1 m3.
Proof.
  intros [H1 H2] [H3 H4]. split.
  - intros x Hx. by rewrite H3, H1.
  - intros x v Hv. destruct (H2 _ _ Hv) as (v' & Hv' & Hs). destruct (H4 _ _ Hv') as (v'' & Hv'' & Hs').
    exists v''. split; [done|]. by eapply rl_same_trans.
Qed.

Lemma rl_frame_weaken l l' m m' : rl_frame f l m m' -> l ⊆ l' -> rl_frame f l' m m'.
Proof. intros [H1 H2] Hl. split; [|done]. intros x Hx. apply H1. set_solver. Qed.

Lemma rl_same_set_next p v : rl_same f v (rl_set_next f p v).
Proof. intros A g Hn _. apply Hn. Qed.
Lemma rl_same_set_prev p v : rl_same f v (rl_set_prev f p v).
Proof. intros A g _ Hp. apply Hp. Qed.

Lemma rl_frame_alter l m m' x g :
  rl_frame f l m m' -> x ∈ l -> (forall v, rl_same f v (g v)) -> rl_frame f l m (alter g x m').
Proof.
  intros Hf Hx Hs. eapply rl_frame_trans; [exact Hf|]. split.
  - intros y Hy. rewrite lookup_alter_ne; [done|set_solver].
  - intros y w Hw. destruct (decide (x = y)) as [->|].
    + rewrite lookup_alter_eq, Hw. simpl. eauto.
    + rewrite lookup_alter_ne by done. eauto using rl_same_refl.
Qed.

Lemma rl_frame_is_Some l m m' x : rl_frame f l m m' -> is_Some (m !! x) -> is_Some (m' !! x).
Proof. intros [_ H] [v Hv]. destruct (H _ _ Hv) as (v' & -> & _). by eexists. Qed.

(** *** Accesses *)

Lemma wp_obj_set x g (R : unit -> gmap nat V -> Prop) m :
  is_Some (m !! x) -> R tt (alter g x m) -> wp (obj_set (Some x) g) R m.
Proof.
  intros [v Hv] HR. unfold obj_set. apply wp_bind, (wp_demand _ _ x); [done|]. apply wp_bind, wp_gets.
  apply wp_bind, (wp_demand _ _ v); [done|]. apply wp_modify.
  replace (<[x := g v]> m) with (alter g x m); [done|].
  apply map_eq. intros y. destruct (decide (x = y)) as [->|].
  - by rewrite lookup_alter_eq, lookup_insert_eq, Hv.
  - by rewrite lookup_alter_ne, lookup_insert_ne.
Qed.

Lemma wp_obj_get {A} x (g : V -> A) (R : A -> gmap nat V -> Prop) m v :
  m !! x = Some v -> R (g v) m -> wp (obj_get (Some x) g) R m.
Proof.
  intros Hv HR. unfold obj_get. apply wp_bind, (wp_demand _ _ x); [done|]. apply wp_bind, wp_gets.
  apply wp_bind, (wp_demand _ _ v); [done|]. by apply wp_ret.
Qed.

Lemma wp_obj_next x p (R : ptr -> gmap nat V -> Prop) m :
  nxt m x = Some p -> R p m -> wp (obj_get (Some x) (rl_next f)) R m.
Proof.
  unfold nxt. destruct (m !! x) as [v|] eqn:Hv; [|done]. intros [= <-] HR. by eapply wp_obj_get.
Qed.
Lemma wp_obj_prev x p (R : ptr -> gmap nat V -> Prop) m :
  prv m x = Some p -> R p m -> wp (obj_get (Some x) (rl_prev f)) R m.
Proof.
  unfold prv. destruct (m !! x) as [v|] eqn:Hv; [|done]. intros [= <-] HR. by eapply wp_obj_get.
Qed.

(** *** Links of updated stores *)

Context {laws : RinglistLaws f}.

Lemma nxt_set_next m x y p :
  is_Some (m !! x) -> nxt (alter (rl_set_next f p) x m) y = if decide (x = y) then Some p else nxt m y.
Proof.
  intros [v Hv]. unfold nxt. case_decide as E; [subst y; rewrite lookup_alter_eq, Hv; simpl; by rewrite rl_next_set_next|].
  by rewrite lookup_alter_ne.
Qed.
Lemma nxt_set_prev m x y p : nxt (alter (rl_set_prev f p) x m) y = nxt m y.
Proof.
  unfold nxt. destruct (decide (x = y)) as [->|]; [|by rewrite lookup_alter_ne].
  rewrite lookup_alter_eq. destruct (m !! y); simpl; [by rewrite rl_next_set_prev|done].
Qed.
Lemma prv_set_prev m x y p :
  is_Some (m !! x) -> prv (alter (rl_set_prev f p) x m) y = if decide (x = y) then Some p else prv m y.
Proof.
  intros [v Hv]. unfold prv. case_decide as E; [subst y; rewrite lookup_alter_eq, Hv; simpl; by rewrite rl_prev_set_prev|].
  by rewrite lookup_alter_ne.
Qed.
Lemma prv_set_next m x y p : prv (alter (rl_set_next f p) x m) y = prv m y.
Proof.
  unfold prv. destruct (decide (x = y)) as [->|]; [|by rewrite lookup_alter_ne].
  rewrite lookup_alter_eq. destruct (m !! y); simpl; [by rewrite rl_prev_set_next|done].
Qed.

Lemma is_Some_alter_store g m x y : is_Some (m !! y) -> is_Some (alter g x m !! y).
Proof.
  intros [v Hv]. destruct (decide (x = y)) as [->|]; [rewrite lookup_alter_eq, Hv|rewrite lookup_alter_ne by done]; by eexists.
Qed.
#[local] Hint Resolve is_Some_alter_store : links.

(** Computes link fields of stores made by [alter]. *)
Ltac links :=
  rewrite ?nxt_set_prev, ?prv_set_next;
  repeat first
    [ rewrite nxt_set_next by eauto 6 with links
    | rewrite prv_set_prev by eauto 6 with links
    | rewrite nxt_set_prev | rewrite prv_set_next ];
  repeat (first [rewrite decide_True by done | rewrite decide_False by congruence]).

Lemma rl_queue_cons m head x l : rl_queue m head (x :: l) -> head = Some x /\ NoDup (x :: l) /\ ring m (x :: l).
Proof. done. Qed.

Lemma ring_is_Some m l x : ring m l -> x ∈ l -> is_Some (m !! x).
Proof. intros Hr Hx. destruct (ring_elem _ _ _ Hr Hx) as (n & p & Hn & _). eauto with links. Qed.

(** *** Enqueueing *)

(** The stores that both macros build on a queue that is not empty. *)
Lemma rl_insert_ring m h l o z :
  NoDup (h :: l) -> ring m (h :: l) -> o ∉ h :: l -> is_Some (m !! o) -> z = default h (last l) ->
  let m' := alter (rl_set_prev f (Some o)) h (alter (rl_set_next f (Some o)) z
              (alter (rl_set_prev f (Some z)) o (alter (rl_set_next f (Some h)) o m))) in
  ring m' ((h :: l) ++ [o]) /\ rl_frame f ((h :: l) ++ [o]) m m'.
Proof.
  intros Hnd Hr Ho Hs Hz m'.
  assert (Hzl : z ∈ h :: l).
  { subst z. destruct (last l) eqn:E; simpl; [apply last_Some_elem_of in E; set_solver|set_solver]. }
  assert (o <> h /\ o <> z) as [Hoh Hoz] by set_solver.
  pose proof (ring_is_Some _ _ h Hr ltac:(set_solver)) as Hsh. pose proof (ring_is_Some _ _ z Hr Hzl) as Hsz.
  split.
  - eapply ring_insert; [done|exact Hr|done|exact Hz|..]; unfold m'.
    + links. done.
    + links. done.
    + links. done.
    + links. done.
    + intros x Hx1 Hx2. links. done.
    + intros x Hx1 Hx2. links. done.
  - unfold m'. apply rl_frame_alter; [|set_solver|apply rl_same_set_prev]. apply rl_frame_alter; [|set_solver|apply rl_same_set_next].
    apply rl_frame_alter; [|set_solver|apply rl_same_set_prev]. apply rl_frame_alter; [|set_solver|apply rl_same_set_next].
    apply rl_frame_refl.
Qed.

Lemma rl_insert_single m o :
  is_Some (m !! o) ->
  let m' := alter (rl_set_next f (Some o)) o (alter (rl_set_prev f (Some o)) o m) in
  ring m' [o] /\ rl_frame f [o] m m'.
Proof.
  intros Hs m'. split.
  - apply ring_singleton; unfold m'; links; done.
  - unfold m'. apply rl_frame_alter; [|set_solver|apply rl_same_set_next].
    apply rl_frame_alter; [|set_solver|apply rl_same_set_prev]. apply rl_frame_refl.
Qed.

Lemma enqueue_tail_spec m head l o :
  rl_queue m head l -> o ∉ l -> is_Some (m !! o) ->
  wp (ENQUEUE_LIST_TAIL f head (Some o))
     (fun head' m' => rl_queue m' head' (l ++ [o]) /\ rl_frame f (l ++ [o]) m m') m.
Proof.
  intros (-> & Hnd & Hr) Ho Hs. unfold ENQUEUE_LIST_TAIL.
  assert (Hnd' : NoDup (l ++ [o])) by (apply NoDup_app; split_and!; [done|set_solver|apply NoDup_singleton]).
  destruct l as [|h l]; simpl hd_error.
  - apply wp_bind, wp_obj_set; [done|]. apply wp_bind, wp_obj_set; [eauto with links|]. apply wp_ret.
    destruct (rl_insert_single m o Hs) as [H1 H2]. split; [|done]. split_and!; [done|done|done].
  - destruct (rl_insert_ring m h l o _ Hnd Hr Ho Hs eq_refl) as [H1 H2].
    pose proof (ring_head_prev _ _ _ Hr) as Hp. set (z := default h (last l)) in *.
    assert (Hoh : o <> h) by set_solver.
    pose proof (ring_is_Some _ _ h Hr ltac:(set_solver)).
    assert (is_Some (m !! z)).
    { eapply ring_is_Some; [done|]. unfold z. destruct (last l) eqn:E; simpl; [apply last_Some_elem_of in E; set_solver|set_solver]. }
    apply wp_bind, wp_obj_set; [done|].
    apply wp_bind. apply (wp_obj_prev h (Some z)); [by links|].
    apply wp_bind, wp_obj_set; [eauto with links|].
    apply wp_bind. apply (wp_obj_prev h (Some z)); [by links|].
    apply wp_bind, wp_obj_set; [eauto 6 with links|].
    apply wp_bind, wp_obj_set; [eauto 6 with links|]. apply wp_ret. split; [|done]. split_and!; [done|done|done].
Qed.

Lemma enqueue_head_spec m head l o :
  rl_queue m head l -> o ∉ l -> is_Some (m !! o) ->
  wp (ENQUEUE_LIST_HEAD f head (Some o))
     (fun head' m' => rl_queue m' head' (o :: l) /\ rl_frame f (o :: l) m m') m.
Proof.
  intros (-> & Hnd & Hr) Ho Hs. unfold ENQUEUE_LIST_HEAD.
  assert (Hnd' : NoDup (o :: l)) by (by constructor).
  destruct l as [|h l]; simpl hd_error.
  - apply wp_bind. apply wp_bind, wp_obj_set; [done|]. apply wp_obj_set; [eauto with links|]. apply wp_ret.
    destruct (rl_insert_single m o Hs) as [H1 H2]. split; [|done]. split_and!; [done|done|done].
  - destruct (rl_insert_ring m h l o _ Hnd Hr Ho Hs eq_refl) as [H1 H2].
    apply ring_rotate in H1. eapply rl_frame_weaken in H2; [|instantiate (1 := o :: h :: l); set_solver].
    pose proof (ring_head_prev _ _ _ Hr) as Hp. set (z := default h (last l)) in *.
    assert (Hoh : o <> h) by set_solver.
    pose proof (ring_is_Some _ _ h Hr ltac:(set_solver)).
    assert (is_Some (m !! z)).
    { eapply ring_is_Some; [done|]. unfold z. destruct (last l) eqn:E; simpl; [apply last_Some_elem_of in E; set_solver|set_solver]. }
    apply wp_bind. apply wp_bind, wp_obj_set; [done|].
    apply wp_bind. apply (wp_obj_prev h (Some z)); [by links|].
    apply wp_bind, wp_obj_set; [eauto with links|].
    apply wp_bind. apply (wp_obj_prev h (Some z)); [by links|].
    apply wp_bind, wp_obj_set; [eauto 6 with links|].
    apply wp_obj_set; [eauto 6 with links|]. apply wp_ret. split; [|done]. split_and!; [done|done|done].
Qed.

(** *** Dequeueing *)

Lemma rl_remove_ring m o x r :
  NoDup (o :: x :: r) -> ring m (o :: x :: r) ->
  let z := default x (last r) in
  let m' := alter (rl_set_next f None) o (alter (rl_set_prev f None) o
              (alter (rl_set_next f (Some x)) z (alter (rl_set_prev f (Some z)) x m))) in
  ring m' (x :: r) /\ rl_frame f (o :: x :: r) m m' /\ nxt m' o = Some None /\ prv m' o = Some None.
Proof.
  intros Hnd Hr z m'.
  assert (Hzl : z ∈ x :: r).
  { unfold z. destruct (last r) eqn:E; simpl; [apply last_Some_elem_of in E; set_solver|set_solver]. }
  apply NoDup_cons in Hnd as Hno. destruct Hno as [Hno _].
  assert (o <> x /\ o <> z) as [Hox Hoz] by set_solver.
  pose proof (ring_is_Some _ _ o Hr ltac:(set_solver)). pose proof (ring_is_Some _ _ x Hr ltac:(set_solver)).
  pose proof (ring_is_Some _ _ z Hr ltac:(set_solver)).
  split_and!.
  - eapply ring_remove; [exact Hnd|exact Hr|reflexivity|..]; fold z; unfold m'.
    + links. done.
    + links. done.
    + intros y Hy1 Hy2. links. done.
    + intros y Hy1 Hy2. links. done.
  - unfold m'. apply rl_frame_alter; [|set_solver|apply rl_same_set_next]. apply rl_frame_alter; [|set_solver|apply rl_same_set_prev].
    apply rl_frame_alter; [|set_solver|apply rl_same_set_next]. apply rl_frame_alter; [|set_solver|apply rl_same_set_prev].
    apply rl_frame_refl.
  - unfold m'. links. done.
  - unfold m'. links. done.
Qed.

Lemma dequeue_spec m head l1 o l2 :
  rl_queue m head (l1 ++ o :: l2) ->
  wp (DEQUEUE_LIST f head (Some o))
     (fun head' m' => rl_queue m' head' (l1 ++ l2) /\ rl_frame f (l1 ++ o :: l2) m m' /\
                      nxt m' o = Some None /\ prv m' o = Some None) m.
Proof.
  intros (-> & Hnd & Hr). apply ring_rotate in Hr as Hr'. simpl in Hr'.
  assert (Hnd' : NoDup (o :: l2 ++ l1)) by (by rewrite Permutation_app_comm in Hnd).
  assert (Hnd2 : NoDup (l1 ++ l2)) by (rewrite Permutation_app_comm; by apply NoDup_cons in Hnd' as [_ ?]).
  pose proof (ring_head_next _ _ _ Hr') as Hn. pose proof (ring_head_prev _ _ _ Hr') as Hp.
  unfold DEQUEUE_LIST. apply wp_bind. eapply wp_obj_next; [exact Hn|].
  destruct (l2 ++ l1) as [|x r] eqn:El; simpl in Hn.
  - apply app_nil in El as [-> ->]. rewrite bool_decide_eq_true_2 by done. apply wp_bind, wp_ret.
    assert (is_Some (m !! o)) by eauto with links.
    apply wp_bind, wp_obj_set; [done|]. apply wp_bind, wp_obj_set; [eauto with links|]. apply wp_ret.
    split_and!; [split_and!; [done|constructor|done]| |by links|by links].
    apply rl_frame_alter; [|set_solver|apply rl_same_set_next]. apply rl_frame_alter; [|set_solver|apply rl_same_set_prev].
    apply rl_frame_refl.
  - destruct (rl_remove_ring m o x r Hnd' Hr') as (H1 & H2 & H3 & H4).
    assert (Hox : o <> x) by (apply NoDup_cons in Hnd'; set_solver).
    rewrite bool_decide_eq_false_2 by (simpl; congruence).
    set (z := default x (last r)) in *.
    assert (Hzl : z ∈ x :: r).
    { unfold z. destruct (last r) eqn:E; simpl; [apply last_Some_elem_of in E; set_solver|set_solver]. }
    assert (Hoz : o <> z) by (apply NoDup_cons in Hnd'; set_solver).
    assert (Hp' : prv m o = Some (Some z)).
    { rewrite Hp, last_cons. unfold z. by destruct (last r). }
    assert (is_Some (m !! o)) by eauto with links.
    assert (is_Some (m !! x)) by (apply (ring_is_Some _ (o :: x :: r)); [exact Hr'|set_solver]).
    assert (is_Some (m !! z)) by (apply (ring_is_Some _ (o :: x :: r)); [exact Hr'|set_solver]).
    apply wp_bind. apply wp_bind. eapply wp_obj_next; [exact Hn|].
    apply wp_bind. eapply wp_obj_prev; [exact Hp'|].
    apply wp_bind.
    assert (Hh : forall R : ptr -> gmap nat V -> Prop, R (hd_error (l1 ++ l2)) m ->
      wp (if bool_decide (hd_error (l1 ++ o :: l2) = Some o) then obj_get (Some o) (rl_next f) else ret (hd_error (l1 ++ o :: l2))) R m).
    { intros R HR. destruct l1 as [|y l1]; simpl in *.
      - rewrite bool_decide_eq_true_2 by done. eapply wp_obj_next; [exact Hn|]. rewrite app_nil_r in El. by rewrite El in HR.
      - rewrite bool_decide_eq_false_2; [by apply wp_ret|]. intros [= ->]. apply NoDup_cons in Hnd as [? _]. set_solver. }
    apply Hh. apply wp_bind. eapply wp_obj_prev; [exact Hp'|].
    apply wp_bind, wp_obj_set; [done|]. apply wp_bind. apply (wp_obj_next o (Some x)); [links; exact Hn|].
    apply wp_bind, wp_obj_set; [eauto with links|]. apply wp_ret.
    apply wp_bind, wp_obj_set; [eauto 6 with links|]. apply wp_bind, wp_obj_set; [eauto 6 with links|]. apply wp_ret.
    split_and!; [split_and!; [done|done|]|eapply rl_frame_weaken; [exact H2|]|done|done].
    + apply ring_rotate. by rewrite El.
    + rewrite <-El. set_solver.
Qed.

(** Being on a ring. *)
Lemma rl_queued_iff v : is_queued f v = true <-> rl_next f v <> None.
Proof. unfold is_queued. apply bool_decide_eq_true. Qed.

Lemma rl_queue_queued m head l x v :
  rl_queue m head l -> x ∈ l -> m !! x = Some v -> is_queued f v = true.
Proof.
  intros (_ & _ & Hr) Hx Hv. destruct (ring_elem _ _ _ Hr Hx) as (n & p & Hn & _).
  unfold nxt in Hn. rewrite Hv in Hn. simpl in Hn. apply rl_queued_iff. congruence.
Qed.

(** A queue survives changes that keep the links of its elements. *)
Lemma rl_queue_frame m m' head l :
  rl_queue m head l -> (forall x, x ∈ l -> nxt m' x = nxt m x /\ prv m' x = prv m x) -> rl_queue m' head l.
Proof. intros (-> & Hnd & Hr) Hf. split_and!; [done|done|]. by eapply ring_frame. Qed.

Lemma rl_queue_disjoint m m' head l l' :
  rl_queue m head l -> rl_frame f l' m m' -> (forall x, x ∈ l -> x ∉ l') -> rl_queue m' head l.
Proof.
  intros Hq [Hf _] Hd. eapply rl_queue_frame; [done|]. intros x Hx. unfold nxt, prv.
  by rewrite Hf by auto.
Qed.

End proofs.
