(* ===== verification/MicroState.v ===== *)
(** * State of the OKL4 microkernel's scheduler, synchronisation points and mutexes

    The part of [tcb_t] ([pistachio/include/tcb.h]) that the scheduler and the
    synchronisation code use, [mutex_t], [syncpoint_t], the scheduler's
    priority queue and its globals.  The kernel is the uniprocessor one
    ([CONFIG_MUNITS] and [CONFIG_MDOMAINS] off): [tcb_t::grab] always
    succeeds, threads are never reserved, spin locks are empty, and a kernel
    entry runs to its end.  [CONFIG_SCHEDULE_INHERITANCE] is a parameter.

    A function that does not return ([NORETURN]) ends by activating a
    continuation or by switching to a thread, which runs from the
    continuation it stopped at: the state records which one runs next. *)

From S2P Require Import Prelude Queueing.
#[local] Open Scope Z_scope.

(** [pistachio/include/config.h]; priorities are [int]s. *)
Definition MAX_PRIO : Z := 255.

(** The build's choice between the two scheduling algorithms
    ([SCHEDULING_ALGORITHM] in [tools/kenge.py]). *)
Class MicroConfig := { schedule_inheritance : bool }.

(** ** Thread states ([pistachio/include/threadstate.h]) *)

Inductive thread_state_e : Type :=
| running
| waiting_forever
| waiting_notify
| polling
| halted
| aborted
| xcpu_waiting_deltcb
| xcpu_waiting_exregs
| waiting_mutex.

#[export] Instance thread_state_e_eq_dec : EqDecision thread_state_e.
Proof. solve_decision. Defined.

Definition RUNNABLE_STATE (id : Z) : Z := Z.lor (u32 (Z.shiftl id 1)) 0.
Definition BLOCKED_STATE (id : Z) : Z := Z.lor (u32 (Z.shiftl id 1)) 1.

(** The word that encodes a state. *)
Definition thread_state_word (st : thread_state_e) : Z :=
  match st with
  | running => RUNNABLE_STATE 1
  | waiting_forever => BLOCKED_STATE (Z.shiftr (WORD_MOD - 1) 1)
  | waiting_notify => BLOCKED_STATE 2
  | polling => BLOCKED_STATE 5
  | halted => BLOCKED_STATE 6
  | aborted => BLOCKED_STATE 7
  | xcpu_waiting_deltcb => BLOCKED_STATE 8
  | xcpu_waiting_exregs => BLOCKED_STATE 12
  | waiting_mutex => BLOCKED_STATE 13
  end.

Definition is_runnable (st : thread_state_e) : bool := Z.land (thread_state_word st) 1 =? 0.

(** ** Objects

    A pointer to a [syncpoint_t] designates the object it is a member of: a
    mutex, or one of the two queues of a thread's end-point. *)
Inductive sync_ptr : Type :=
| MutexSync (m : nat)
| SendQueue (t : nat)
| RecvQueue (t : nat).

#[export] Instance sync_ptr_eq_dec : EqDecision sync_ptr.
Proof. solve_decision. Defined.

#[export] Instance sync_ptr_countable : Countable sync_ptr.
Proof.
  refine (inj_countable'
    (fun p => match p with MutexSync m => inl m | SendQueue t => inr (inl t) | RecvQueue t => inr (inr t) end)
    (fun x => match x with inl m => MutexSync m | inr (inl t) => SendQueue t | inr (inr t) => RecvQueue t end) _).
  by intros [].
Defined.

Record tcb_t : Type := Tcb {
  thread_state : thread_state_e;
  base_prio : Z;
  effective_prio : Z;
  current_timeslice : Z;
  timeslice_length : Z;
  ready_next : ptr;
  ready_prev : ptr;
  blocked_next : ptr;
  blocked_prev : ptr;
  waiting_for : option sync_ptr;
  mutexes_head : ptr;
  cont : Z;
  user_ip : Z;
  preempted_ip : Z;
  preempt_callback_ip : Z;
  preempt_signaled : bool;
  mutex_continuation : Z;
  sysdata_mutex : ptr;
  uncontended_hybrid : bool;
  error_code : Z;
  syscall_result : Z
}.

Definition set_thread_state v t := Tcb v (base_prio t) (effective_prio t) (current_timeslice t) (timeslice_length t) (ready_next t) (ready_prev t) (blocked_next t) (blocked_prev t) (waiting_for t) (mutexes_head t) (cont t) (user_ip t) (preempted_ip t) (preempt_callback_ip t) (preempt_signaled t) (mutex_continuation t) (sysdata_mutex t) (uncontended_hybrid t) (error_code t) (syscall_result t).
Definition set_base_prio v t := Tcb (thread_state t) v (effective_prio t) (current_timeslice t) (timeslice_length t) (ready_next t) (ready_prev t) (blocked_next t) (blocked_prev t) (waiting_for t) (mutexes_head t) (cont t) (user_ip t) (preempted_ip t) (preempt_callback_ip t) (preempt_signaled t) (mutex_continuation t) (sysdata_mutex t) (uncontended_hybrid t) (error_code t) (syscall_result t).
Definition set_effective_prio v t := Tcb (thread_state t) (base_prio t) v (current_timeslice t) (timeslice_length t) (ready_next t) (ready_prev t) (blocked_next t) (blocked_prev t) (waiting_for t) (mutexes_head t) (cont t) (user_ip t) (preempted_ip t) (preempt_callback_ip t) (preempt_signaled t) (mutex_continuation t) (sysdata_mutex t) (uncontended_hybrid t) (error_code t) (syscall_result t).
Definition set_current_timeslice v t := Tcb (thread_state t) (base_prio t) (effective_prio t) v (timeslice_length t) (ready_next t) (ready_prev t) (blocked_next t) (blocked_prev t) (waiting_for t) (mutexes_head t) (cont t) (user_ip t) (preempted_ip t) (preempt_callback_ip t) (preempt_signaled t) (mutex_continuation t) (sysdata_mutex t) (uncontended_hybrid t) (error_code t) (syscall_result t).
Definition set_timeslice_length v t := Tcb (thread_state t) (base_prio t) (effective_prio t) (current_timeslice t) v (ready_next t) (ready_prev t) (blocked_next t) (blocked_prev t) (waiting_for t) (mutexes_head t) (cont t) (user_ip t) (preempted_ip t) (preempt_callback_ip t) (preempt_signaled t) (mutex_continuation t) (sysdata_mutex t) (uncontended_hybrid t) (error_code t) (syscall_result t).
Definition set_ready_next v t := Tcb (thread_state t) (base_prio t) (effective_prio t) (current_timeslice t) (timeslice_length t) v (ready_prev t) (blocked_next t) (blocked_prev t) (waiting_for t) (mutexes_head t) (cont t) (user_ip t) (preempted_ip t) (preempt_callback_ip t) (preempt_signaled t) (mutex_continuation t) (sysdata_mutex t) (uncontended_hybrid t) (error_code t) (syscall_result t).
Definition set_ready_prev v t := Tcb (thread_state t) (base_prio t) (effective_prio t) (current_timeslice t) (timeslice_length t) (ready_next t) v (blocked_next t) (blocked_prev t) (waiting_for t) (mutexes_head t) (cont t) (user_ip t) (preempted_ip t) (preempt_callback_ip t) (preempt_signaled t) (mutex_continuation t) (sysdata_mutex t) (uncontended_hybrid t) (error_code t) (syscall_result t).
Definition set_blocked_next v t := Tcb (thread_state t) (base_prio t) (effective_prio t) (current_timeslice t) (timeslice_length t) (ready_next t) (ready_prev t) v (blocked_prev t) (waiting_for t) (mutexes_head t) (cont t) (user_ip t) (preempted_ip t) (preempt_callback_ip t) (preempt_signaled t) (mutex_continuation t) (sysdata_mutex t) (uncontended_hybrid t) (error_code t) (syscall_result t).
Definition set_blocked_prev v t := Tcb (thread_state t) (base_prio t) (effective_prio t) (current_timeslice t) (timeslice_length t) (ready_next t) (ready_prev t) (blocked_next t) v (waiting_for t) (mutexes_head t) (cont t) (user_ip t) (preempted_ip t) (preempt_callback_ip t) (preempt_signaled t) (mutex_continuation t) (sysdata_mutex t) (uncontended_hybrid t) (error_code t) (syscall_result t).
Definition set_waiting_for v t := Tcb (thread_state t) (base_prio t) (effective_prio t) (current_timeslice t) (timeslice_length t) (ready_next t) (ready_prev t) (blocked_next t) (blocked_prev t) v (mutexes_head t) (cont t) (user_ip t) (preempted_ip t) (preempt_callback_ip t) (preempt_signaled t) (mutex_continuation t) (sysdata_mutex t) (uncontended_hybrid t) (error_code t) (syscall_result t).
Definition set_mutexes_head v t := Tcb (thread_state t) (base_prio t) (effective_prio t) (current_timeslice t) (timeslice_length t) (ready_next t) (ready_prev t) (blocked_next t) (blocked_prev t) (waiting_for t) v (cont t) (user_ip t) (preempted_ip t) (preempt_callback_ip t) (preempt_signaled t) (mutex_continuation t) (sysdata_mutex t) (uncontended_hybrid t) (error_code t) (syscall_result t).
Definition set_cont v t := Tcb (thread_state t) (base_prio t) (effective_prio t) (current_timeslice t) (timeslice_length t) (ready_next t) (ready_prev t) (blocked_next t) (blocked_prev t) (waiting_for t) (mutexes_head t) v (user_ip t) (preempted_ip t) (preempt_callback_ip t) (preempt_signaled t) (mutex_continuation t) (sysdata_mutex t) (uncontended_hybrid t) (error_code t) (syscall_result t).
Definition set_user_ip v t := Tcb (thread_state t) (base_prio t) (effective_prio t) (current_timeslice t) (timeslice_length t) (ready_next t) (ready_prev t) (blocked_next t) (blocked_prev t) (waiting_for t) (mutexes_head t) (cont t) v (preempted_ip t) (preempt_callback_ip t) (preempt_signaled t) (mutex_continuation t) (sysdata_mutex t) (uncontended_hybrid t) (error_code t) (syscall_result t).
Definition set_preempted_ip v t := Tcb (thread_state t) (base_prio t) (effective_prio t) (current_timeslice t) (timeslice_length t) (ready_next t) (ready_prev t) (blocked_next t) (blocked_prev t) (waiting_for t) (mutexes_head t) (cont t) (user_ip t) v (preempt_callback_ip t) (preempt_signaled t) (mutex_continuation t) (sysdata_mutex t) (uncontended_hybrid t) (error_code t) (syscall_result t).
Definition set_preempt_callback_ip v t := Tcb (thread_state t) (base_prio t) (effective_prio t) (current_timeslice t) (timeslice_length t) (ready_next t) (ready_prev t) (blocked_next t) (blocked_prev t) (waiting_for t) (mutexes_head t) (cont t) (user_ip t) (preempted_ip t) v (preempt_signaled t) (mutex_continuation t) (sysdata_mutex t) (uncontended_hybrid t) (error_code t) (syscall_result t).
Definition set_preempt_signaled v t := Tcb (thread_state t) (base_prio t) (effective_prio t) (current_timeslice t) (timeslice_length t) (ready_next t) (ready_prev t) (blocked_next t) (blocked_prev t) (waiting_for t) (mutexes_head t) (cont t) (user_ip t) (preempted_ip t) (preempt_callback_ip t) v (mutex_continuation t) (sysdata_mutex t) (uncontended_hybrid t) (error_code t) (syscall_result t).
Definition set_mutex_continuation v t := Tcb (thread_state t) (base_prio t) (effective_prio t) (current_timeslice t) (timeslice_length t) (ready_next t) (ready_prev t) (blocked_next t) (blocked_prev t) (waiting_for t) (mutexes_head t) (cont t) (user_ip t) (preempted_ip t) (preempt_callback_ip t) (preempt_signaled t) v (sysdata_mutex t) (uncontended_hybrid t) (error_code t) (syscall_result t).
Definition set_sysdata_mutex v t := Tcb (thread_state t) (base_prio t) (effective_prio t) (current_timeslice t) (timeslice_length t) (ready_next t) (ready_prev t) (blocked_next t) (blocked_prev t) (waiting_for t) (mutexes_head t) (cont t) (user_ip t) (preempted_ip t) (preempt_callback_ip t) (preempt_signaled t) (mutex_continuation t) v (uncontended_hybrid t) (error_code t) (syscall_result t).
Definition set_uncontended_hybrid v t := Tcb (thread_state t) (base_prio t) (effective_prio t) (current_timeslice t) (timeslice_length t) (ready_next t) (ready_prev t) (blocked_next t) (blocked_prev t) (waiting_for t) (mutexes_head t) (cont t) (user_ip t) (preempted_ip t) (preempt_callback_ip t) (preempt_signaled t) (mutex_continuation t) (sysdata_mutex t) v (error_code t) (syscall_result t).
Definition set_error_code v t := Tcb (thread_state t) (base_prio t) (effective_prio t) (current_timeslice t) (timeslice_length t) (ready_next t) (ready_prev t) (blocked_next t) (blocked_prev t) (waiting_for t) (mutexes_head t) (cont t) (user_ip t) (preempted_ip t) (preempt_callback_ip t) (preempt_signaled t) (mutex_continuation t) (sysdata_mutex t) (uncontended_hybrid t) v (syscall_result t).
Definition set_syscall_result v t := Tcb (thread_state t) (base_prio t) (effective_prio t) (current_timeslice t) (timeslice_length t) (ready_next t) (ready_prev t) (blocked_next t) (blocked_prev t) (waiting_for t) (mutexes_head t) (cont t) (user_ip t) (preempted_ip t) (preempt_callback_ip t) (preempt_signaled t) (mutex_continuation t) (sysdata_mutex t) (uncontended_hybrid t) (error_code t) v.

Record mutex_t : Type := Mutex {
  held_next : ptr;
  held_prev : ptr
}.

Definition set_held_next v (m : mutex_t) := Mutex v (held_prev m).
Definition set_held_prev v (m : mutex_t) := Mutex (held_next m) v.

Record syncpoint_t : Type := Syncpoint {
  donatee : ptr;
  blocked_head : ptr
}.

Definition set_donatee v (sp : syncpoint_t) := Syncpoint v (blocked_head sp).
Definition set_blocked_head v (sp : syncpoint_t) := Syncpoint (donatee sp) v.

(** The ring lists of threads and of mutexes. *)
Definition ready_list : ringlist tcb_t := Ringlist _ ready_next ready_prev set_ready_next set_ready_prev.
Definition blocked_list : ringlist tcb_t := Ringlist _ blocked_next blocked_prev set_blocked_next set_blocked_prev.
Definition held_list : ringlist mutex_t := Ringlist _ held_next held_prev set_held_next set_held_prev.

#[export] Instance ready_list_laws : RinglistLaws ready_list.
Proof. by split; intros p []. Qed.
#[export] Instance blocked_list_laws : RinglistLaws blocked_list.
Proof. by split; intros p []. Qed.
#[export] Instance held_list_laws : RinglistLaws held_list.
Proof. by split; intros p []. Qed.

(** ** The kernel's state *)

Record mstate : Type := MState {
  tcbs : gmap nat tcb_t;
  mutexes : gmap nat mutex_t;
  syncpoints : gmap sync_ptr syncpoint_t;
  prio_queue : list ptr;
  index_bitmap : Z;
  prio_bitmap : list Z;
  scheduling_invariants_violated : bool;
  current_tcb : nat;
  current_schedule : nat;
  idle_tcb : nat;
  activated : Z
}.

Definition set_tcbs v s := MState v (mutexes s) (syncpoints s) (prio_queue s) (index_bitmap s) (prio_bitmap s) (scheduling_invariants_violated s) (current_tcb s) (current_schedule s) (idle_tcb s) (activated s).
Definition set_mutexes v s := MState (tcbs s) v (syncpoints s) (prio_queue s) (index_bitmap s) (prio_bitmap s) (scheduling_invariants_violated s) (current_tcb s) (current_schedule s) (idle_tcb s) (activated s).
Definition set_syncpoints v s := MState (tcbs s) (mutexes s) v (prio_queue s) (index_bitmap s) (prio_bitmap s) (scheduling_invariants_violated s) (current_tcb s) (current_schedule s) (idle_tcb s) (activated s).
Definition set_prio_queue v s := MState (tcbs s) (mutexes s) (syncpoints s) v (index_bitmap s) (prio_bitmap s) (scheduling_invariants_violated s) (current_tcb s) (current_schedule s) (idle_tcb s) (activated s).
Definition set_index_bitmap v s := MState (tcbs s) (mutexes s) (syncpoints s) (prio_queue s) v (prio_bitmap s) (scheduling_invariants_violated s) (current_tcb s) (current_schedule s) (idle_tcb s) (activated s).
Definition set_prio_bitmap v s := MState (tcbs s) (mutexes s) (syncpoints s) (prio_queue s) (index_bitmap s) v (scheduling_invariants_violated s) (current_tcb s) (current_schedule s) (idle_tcb s) (activated s).
Definition set_scheduling_invariants_violated v s := MState (tcbs s) (mutexes s) (syncpoints s) (prio_queue s) (index_bitmap s) (prio_bitmap s) v (current_tcb s) (current_schedule s) (idle_tcb s) (activated s).
Definition set_current_tcb v s := MState (tcbs s) (mutexes s) (syncpoints s) (prio_queue s) (index_bitmap s) (prio_bitmap s) (scheduling_invariants_violated s) v (current_schedule s) (idle_tcb s) (activated s).
Definition set_current_schedule v s := MState (tcbs s) (mutexes s) (syncpoints s) (prio_queue s) (index_bitmap s) (prio_bitmap s) (scheduling_invariants_violated s) (current_tcb s) v (idle_tcb s) (activated s).
Definition set_idle_tcb v s := MState (tcbs s) (mutexes s) (syncpoints s) (prio_queue s) (index_bitmap s) (prio_bitmap s) (scheduling_invariants_violated s) (current_tcb s) (current_schedule s) v (activated s).
Definition set_activated v s := MState (tcbs s) (mutexes s) (syncpoints s) (prio_queue s) (index_bitmap s) (prio_bitmap s) (scheduling_invariants_violated s) (current_tcb s) (current_schedule s) (idle_tcb s) v.

Abbreviation K A := (M mstate A).

(** A computation on the store of threads, or on that of mutexes. *)
Definition on_tcbs {A} (c : M (gmap nat tcb_t) A) : K A :=
  fun s => match c (tcbs s) with Done a m => Done a (set_tcbs m s) | Crash f => Crash f end.
Definition on_mutexes {A} (c : M (gmap nat mutex_t) A) : K A :=
  fun s => match c (mutexes s) with Done a m => Done a (set_mutexes m s) | Crash f => Crash f end.

(** [p->field] and [p->field = v] for threads. *)
Definition rd {A} (p : ptr) (field : tcb_t -> A) : K A := on_tcbs (obj_get p field).
Definition wr (p : ptr) (g : tcb_t -> tcb_t) : K unit := on_tcbs (obj_set p g).

(** The same for synchronisation points. *)
Definition rd_sync {A} (sp : sync_ptr) (field : syncpoint_t -> A) : K A :=
  let! m := gets syncpoints in
  let! v := demand InvalidPointer (m !! sp) in
  ret (field v).
Definition wr_sync (sp : sync_ptr) (g : syncpoint_t -> syncpoint_t) : K unit :=
  let! m := gets syncpoints in
  let! v := demand InvalidPointer (m !! sp) in
  modify (set_syncpoints (<[sp := g v]> m)).

(** ** Leaving the kernel

    [ACTIVATE_CONTINUATION], and [switch_from] and [switch_to]
    ([arch/arm/pistachio/v5/src/thread.cc], [arch/sh/pistachio/src/thread.cc])
    without the address space and coprocessor registers. *)
Definition ACTIVATE_CONTINUATION (continuation : Z) : K unit := modify (set_activated continuation).

Definition switch_from (current : nat) (continuation : Z) : K unit :=
  let! n := rd (Some current) ready_next in
  do! ASSERT (bool_decide (n = None)) in
  wr (Some current) (set_cont continuation).

Definition switch_to (dest schedule : nat) : K unit :=
  let! n := rd (Some dest) ready_next in
  do! ASSERT (bool_decide (n = None)) in
  do! modify (set_current_schedule schedule) in
  let! c := rd (Some dest) cont in
  do! modify (set_current_tcb dest) in
  ACTIVATE_CONTINUATION c.

(** ** Rules for the accesses *)

Section access_rules.
Implicit Types (s : mstate) (x : nat).

Lemma wp_on_tcbs {A} (c : M (gmap nat tcb_t) A) Q s :
  wp c (fun a m => Q a (set_tcbs m s)) (tcbs s) -> wp (on_tcbs c) Q s.
Proof. unfold wp, on_tcbs. by destruct (c (tcbs s)). Qed.
Lemma wp_on_mutexes {A} (c : M (gmap nat mutex_t) A) Q s :
  wp c (fun a m => Q a (set_mutexes m s)) (mutexes s) -> wp (on_mutexes c) Q s.
Proof. unfold wp, on_mutexes. by destruct (c (mutexes s)). Qed.

Lemma set_tcbs_same s : set_tcbs (tcbs s) s = s.
Proof. by destruct s. Qed.

Lemma wp_get_field {A} x (g : tcb_t -> A) Q s t :
  tcbs s !! x = Some t -> Q (g t) s -> wp (rd (Some x) g) Q s.
Proof.
  intros Ht HQ. apply wp_on_tcbs. eapply wp_obj_get; [done|]. by rewrite set_tcbs_same.
Qed.

Lemma wp_put_field x g Q s t :
  tcbs s !! x = Some t -> Q tt (set_tcbs (<[x := g t]> (tcbs s)) s) -> wp (wr (Some x) g) Q s.
Proof.
  intros Ht HQ. apply wp_on_tcbs. apply wp_obj_set; [by eexists|].
  replace (alter g x (tcbs s)) with (<[x := g t]> (tcbs s)); [done|].
  apply map_eq. intros y. destruct (decide (x = y)) as [->|].
  - by rewrite lookup_alter_eq, lookup_insert_eq, Ht.
  - by rewrite lookup_alter_ne, lookup_insert_ne.
Qed.

Lemma wp_rd_sync {A} sp (g : syncpoint_t -> A) Q s v :
  syncpoints s !! sp = Some v -> Q (g v) s -> wp (rd_sync sp g) Q s.
Proof. intros Hv HQ. unfold rd_sync. apply wp_bind, wp_gets, wp_bind, (wp_demand _ _ v); [done|]. by apply wp_ret. Qed.

Lemma wp_wr_sync sp g Q s v :
  syncpoints s !! sp = Some v -> Q tt (set_syncpoints (<[sp := g v]> (syncpoints s)) s) -> wp (wr_sync sp g) Q s.
Proof. intros Hv HQ. unfold wr_sync. apply wp_bind, wp_gets, wp_bind, (wp_demand _ _ v); [done|]. by apply wp_modify. Qed.

End access_rules.
