(* ===== verification/MicroSched.v ===== *)
(** * The microkernel's scheduler, synchronisation points and mutexes

    [pistachio/src/prioqueue.cc], [syncpoint.cc], [endpoint.cc],
    [schedule.cc], [mutex.cc] with their headers, and
    [tcb_t::calc_effective_priority], a Module each, in the order in which
    they call each other. *)

From S2P Require Import Prelude Queueing MicroLib MicroState.
#[local] Open Scope Z_scope.

Module PrioQueue.

Definition BITMAP_WORDS : Z := (MAX_PRIO + BITS_WORD) / BITS_WORD.

Definition queue_set (prio : Z) (p : ptr) : K unit :=
  let! q := gets prio_queue in
  let! q' := index_set q prio p in
  modify (set_prio_queue q').

(** [prio_queue_t::get] *)
Definition get (prio : Z) : K ptr :=
  do! ASSERT ((0 <=? prio) && (prio <=? MAX_PRIO)) in
  let! q := gets prio_queue in
  index q prio.

Definition enqueue (tcb : nat) : K unit :=
  let! idle := gets idle_tcb in
  do! ASSERT (bool_decide (tcb <> idle)) in
  let! queued := rd (Some tcb) (is_queued ready_list) in
  do! ASSERT (negb queued) in
  let! prio := rd (Some tcb) effective_prio in
  do! ASSERT ((0 <=? prio) && (prio <=? MAX_PRIO)) in
  let! q := gets prio_queue in
  let! head := index q prio in
  let! head' := on_tcbs (ENQUEUE_LIST_TAIL ready_list head (Some tcb)) in
  do! queue_set prio head' in
  do! modify (fun s => set_index_bitmap (Z.lor (index_bitmap s) (bit32 (prio / BITS_WORD))) s) in
  let! bm := gets prio_bitmap in
  let! w := index bm (prio / BITS_WORD) in
  let! bm' := index_set bm (prio / BITS_WORD) (Z.lor w (bit32 (prio mod BITS_WORD))) in
  modify (set_prio_bitmap bm').

Definition remove_sched_bitmap_bit (prio : Z) : K unit :=
  let level1_index := prio / BITS_WORD in
  let level2_index := prio mod BITS_WORD in
  let! bm := gets prio_bitmap in
  let! level2_bitmap := index bm level1_index in
  let level2_bitmap := Z.land level2_bitmap (not32 (bit32 level2_index)) in
  let! bm' := index_set bm level1_index level2_bitmap in
  do! modify (set_prio_bitmap bm') in
  when level2_bitmap =? 0 do
    modify (fun s => set_index_bitmap (Z.land (index_bitmap s) (not32 (bit32 level1_index))) s).

Definition dequeue (tcb : nat) : K unit :=
  let! idle := gets idle_tcb in
  do! ASSERT (bool_decide (tcb <> idle)) in
  let! queued := rd (Some tcb) (is_queued ready_list) in
  do! ASSERT queued in
  let! priority := rd (Some tcb) effective_prio in
  do! ASSERT ((0 <=? priority) && (priority <=? MAX_PRIO)) in
  let! q := gets prio_queue in
  let! head := index q priority in
  let! head' := on_tcbs (DEQUEUE_LIST ready_list head (Some tcb)) in
  do! queue_set priority head' in
  when bool_decide (head' = None) do remove_sched_bitmap_bit priority.

Definition set_effective_priority (tcb : nat) (new_priority : Z) : K unit :=
  do! ASSERT ((0 <=? new_priority) && (new_priority <=? MAX_PRIO)) in
  let! queued := rd (Some tcb) (is_queued ready_list) in
  if negb queued then wr (Some tcb) (set_effective_prio new_priority)
  else
    do! dequeue tcb in
    do! wr (Some tcb) (set_effective_prio new_priority) in
    enqueue tcb.

(** [scheduler_t::get_highest_priority] *)
Definition get_highest_priority : K Z :=
  let! first_level_bitmap := gets index_bitmap in
  if first_level_bitmap =? 0 then ret (-1)
  else
    let first_level_index := msb first_level_bitmap in
    let! bm := gets prio_bitmap in
    let! second_level_bitmap := index bm first_level_index in
    do! ASSERT (negb (second_level_bitmap =? 0)) in
    let second_level_index := msb second_level_bitmap in
    ret (first_level_index * BITS_WORD + second_level_index).

End PrioQueue.

Module Thread.
Section thread.
Context {cfg : MicroConfig}.

(** The priority a list of waiters passes on: that of its head. *)
Definition max_head (head : ptr) (max : Z) : K Z :=
  match head with
  | None => ret max
  | Some h =>
      let! p := rd (Some h) effective_prio in
      ret (if max <? p then p else max)
  end.

(** The loop over the held mutexes, from [mutex_list] around to [first]. *)
Fixpoint held_priority (fuel : nat) (this : nat) (first mutex_list : ptr) (max : Z) : K Z :=
  match fuel with
  | O => crash LoopBoundExceeded
  | S fuel' =>
      let! m := demand InvalidPointer mutex_list in
      let! d := rd_sync (MutexSync m) donatee in
      do! ASSERT (bool_decide (d = Some this)) in
      let! blocked_head := rd_sync (MutexSync m) blocked_head in
      let! max := max_head blocked_head max in
      let! next := on_mutexes (obj_get mutex_list held_next) in
      if bool_decide (next = first) then ret max else held_priority fuel' this first next max
  end.

Definition calc_effective_priority (this : nat) : K Z :=
  let! max := rd (Some this) base_prio in
  let! send_head := rd_sync (SendQueue this) blocked_head in
  let! max := max_head send_head max in
  let! recv_head := (if schedule_inheritance then rd_sync (RecvQueue this) blocked_head else ret None) in
  let! max := max_head recv_head max in
  let! mutex_list := rd (Some this) mutexes_head in
  if bool_decide (mutex_list = None) then ret max
  else
    let! n := gets (fun s => size (mutexes s)) in
    held_priority n this mutex_list mutex_list max.

(** [prio_queue_t::set_base_priority] *)
Definition set_base_priority (tcb : nat) (new_priority : Z) : K unit :=
  let! old_effective_prio := rd (Some tcb) effective_prio in
  do! wr (Some tcb) (set_base_prio new_priority) in
  let! effective := (if schedule_inheritance then calc_effective_priority tcb else ret new_priority) in
  when negb (effective =? old_effective_prio) do PrioQueue.set_effective_priority tcb effective.

End thread.
End Thread.
Import Thread.

Module Sync.
Section syncpoint.
Context {cfg : MicroConfig}.

Definition init (this : sync_ptr) (d : ptr) : K unit :=
  do! wr_sync this (set_donatee d) in
  wr_sync this (set_blocked_head None).

(** The search of [enqueue_tcb_sorted] for the place of a thread of priority
    [p], from [head] on. *)
Fixpoint find_place (fuel : nat) (p : Z) (first head : ptr) : K ptr :=
  match fuel with
  | O => crash LoopBoundExceeded
  | S fuel' =>
      let! e := rd head effective_prio in
      if p <=? e then
        let! head := rd head blocked_next in
        if bool_decide (head = first) then ret head else find_place fuel' p first head
      else ret head
  end.

Definition enqueue_tcb_sorted (this : sync_ptr) (tcb : nat) : K unit :=
  let! p := rd (Some tcb) effective_prio in
  let! first := rd_sync this blocked_head in
  if bool_decide (first = None) then
    do! wr_sync this (set_blocked_head (Some tcb)) in
    do! wr (Some tcb) (set_blocked_next (Some tcb)) in
    wr (Some tcb) (set_blocked_prev (Some tcb))
  else
    let! n := gets (fun s => size (tcbs s)) in
    let! head := find_place n p first first in
    do! wr (Some tcb) (set_blocked_next head) in
    let! prev := rd head blocked_prev in
    do! wr (Some tcb) (set_blocked_prev prev) in
    let! prev := rd head blocked_prev in
    do! wr prev (set_blocked_next (Some tcb)) in
    do! wr head (set_blocked_prev (Some tcb)) in
    let! bh := rd_sync this blocked_head in
    let! e := rd bh effective_prio in
    when e <? p do wr_sync this (set_blocked_head (Some tcb)).

Definition enqueue_blocked (this : sync_ptr) (tcb : nat) : K unit :=
  let! w := rd (Some tcb) waiting_for in
  do! ASSERT (bool_decide (w = None)) in
  let! n := rd (Some tcb) blocked_next in
  do! ASSERT (bool_decide (n = None)) in
  do! enqueue_tcb_sorted this tcb in
  wr (Some tcb) (set_waiting_for (Some this)).

Definition dequeue_blocked (this : sync_ptr) (tcb : nat) : K unit :=
  let! w := rd (Some tcb) waiting_for in
  do! ASSERT (bool_decide (w = Some this)) in
  let! n := rd (Some tcb) blocked_next in
  do! ASSERT (bool_decide (n <> None)) in
  let! head := rd_sync this blocked_head in
  let! head' := on_tcbs (DEQUEUE_LIST blocked_list head (Some tcb)) in
  do! wr_sync this (set_blocked_head head') in
  wr (Some tcb) (set_waiting_for None).

(** [scheduler_t::set_effective_priority] *)
Definition set_effective_priority (tcb : nat) (prio : Z) : K unit :=
  do! ASSERT ((0 <=? prio) && (prio <=? MAX_PRIO)) in
  PrioQueue.set_effective_priority tcb prio.

(** The loops of the two propagation functions. *)
Fixpoint propagate_increase (fuel : nat) (new_prio : Z) (chain : ptr) : K unit :=
  match chain with
  | None => ret tt
  | Some c =>
      match fuel with
      | O => crash LoopBoundExceeded
      | S fuel' =>
          let! e := rd chain effective_prio in
          if new_prio <=? e then ret tt
          else
            do! set_effective_priority c new_prio in
            let! next := rd chain waiting_for in
            match next with
            | None => ret tt
            | Some next =>
                do! dequeue_blocked next c in
                do! enqueue_blocked next c in
                let! chain := rd_sync next donatee in
                propagate_increase fuel' new_prio chain
            end
      end
  end.

Definition propagate_priority_increase (this : sync_ptr) (new_prio : Z) : K unit :=
  let! chain := rd_sync this donatee in
  let! n := gets (fun s => size (tcbs s)) in
  propagate_increase (n + 1) new_prio chain.

Fixpoint propagate_change (fuel : nat) (chain : ptr) : K unit :=
  match chain with
  | None => ret tt
  | Some c =>
      match fuel with
      | O => crash LoopBoundExceeded
      | S fuel' =>
          let! old_prio := rd chain effective_prio in
          let! new_prio := calc_effective_priority c in
          if new_prio =? old_prio then ret tt
          else
            do! set_effective_priority c new_prio in
            let! next := rd chain waiting_for in
            match next with
            | None => ret tt
            | Some next =>
                do! dequeue_blocked next c in
                do! enqueue_blocked next c in
                let! chain := rd_sync next donatee in
                propagate_change fuel' chain
            end
      end
  end.

(** Each turn changes a priority, always in the same direction: 256 turns per
    thread are enough. *)
Definition propagate_priority_change (this : sync_ptr) : K unit :=
  let! chain := rd_sync this donatee in
  let! n := gets (fun s => size (tcbs s)) in
  propagate_change (n * 256 + 1) chain.

Definition block (this : sync_ptr) (tcb : nat) : K unit :=
  let! queued := rd (Some tcb) (is_queued blocked_list) in
  do! ASSERT (negb queued) in
  do! enqueue_blocked this tcb in
  when schedule_inheritance do
    (let! d := rd_sync this donatee in
     when bool_decide (d <> None) do
       (let! p := rd (Some tcb) effective_prio in propagate_priority_increase this p)).

Definition unblock (this : sync_ptr) (tcb : nat) : K unit :=
  let! queued := rd (Some tcb) (is_queued blocked_list) in
  do! ASSERT queued in
  do! dequeue_blocked this tcb in
  when schedule_inheritance do
    (let! d := rd_sync this donatee in
     when bool_decide (d <> None) do propagate_priority_change this).

Definition refresh (this : sync_ptr) (tcb : nat) : K unit :=
  do! dequeue_blocked this tcb in
  do! enqueue_blocked this tcb in
  when schedule_inheritance do
    (let! d := rd_sync this donatee in
     when bool_decide (d <> None) do propagate_priority_change this).

(** [!blocked_head || blocked_head->effective_prio <= p] *)
Definition head_below (this : sync_ptr) (p : Z) : K bool :=
  let! bh := rd_sync this blocked_head in
  match bh with
  | None => ret true
  | Some h => let! e := rd (Some h) effective_prio in ret (e <=? p)
  end.

Definition become_donatee (this : sync_ptr) (tcb : nat) : K unit :=
  let! d := rd_sync this donatee in
  do! ASSERT (bool_decide (d = None)) in
  let! p := rd (Some tcb) effective_prio in
  let! ok := head_below this p in
  do! ASSERT ok in
  wr_sync this (set_donatee (Some tcb)).

Definition release_donatee (this : sync_ptr) : K unit :=
  let! d := rd_sync this donatee in
  do! ASSERT (bool_decide (d <> None)) in
  let! w := rd d waiting_for in
  do! ASSERT (bool_decide (w = None)) in
  do! (when schedule_inheritance do
    (let! p := rd d effective_prio in
     let! ok := head_below this p in
     do! ASSERT ok in
     let! queued := rd d (is_queued ready_list) in
     do! ASSERT (negb queued) in
     let! bh := rd_sync this blocked_head in
     match bh with
     | None => ret tt
     | Some h =>
         let! e := rd (Some h) effective_prio in
         when p <=? e do
           (let! dt := demand InvalidPointer d in
            let! c := calc_effective_priority dt in
            wr d (set_effective_prio c))
     end)) in
  wr_sync this (set_donatee None).

(** ** Deadlock detection *)

(** [next_link] *)
Definition next_link (current : ptr) : K ptr :=
  let! next := rd current waiting_for in
  match next with
  | None => ret None
  | Some sp => rd_sync sp donatee
  end.

(** Brent's cycle search: the length of the loop, or nothing at the end of the
    chain. *)
Fixpoint find_loop (fuel : nat) (fast_chain slow_chain : ptr) (lamda power : Z) : K (option Z) :=
  if bool_decide (fast_chain = slow_chain) then ret (Some lamda)
  else if bool_decide (fast_chain = None) then ret None
  else
    match fuel with
    | O => crash LoopBoundExceeded
    | S fuel' =>
        let '(slow_chain, power, lamda) :=
          if lamda =? power then (fast_chain, power * 2, 0) else (slow_chain, power, lamda) in
        let! fast_chain := next_link fast_chain in
        find_loop fuel' fast_chain slow_chain (lamda + 1) power
    end.

Fixpoint advance (n : nat) (fast_chain : ptr) : K ptr :=
  match n with
  | O => ret fast_chain
  | S n' =>
      let! fast_chain := next_link fast_chain in
      do! ASSERT (bool_decide (fast_chain <> None)) in
      advance n' fast_chain
  end.

Fixpoint find_head (fuel : nat) (fast_chain slow_chain : ptr) (mu : Z) : K Z :=
  if bool_decide (fast_chain = slow_chain) then ret mu
  else
    match fuel with
    | O => crash LoopBoundExceeded
    | S fuel' =>
        let! fast_chain := next_link fast_chain in
        let! slow_chain := next_link slow_chain in
        do! ASSERT (bool_decide (fast_chain <> None)) in
        do! ASSERT (bool_decide (slow_chain <> None)) in
        find_head fuel' fast_chain slow_chain (mu + 1)
    end.

(** The result is the pair [(head_length, loop_length)] of a deadlock. *)
Definition is_deadlocked (tcb : nat) : K (option (Z * Z)) :=
  let! n := gets (fun s => size (tcbs s)) in
  let! fast_chain := next_link (Some tcb) in
  let! loop := find_loop (4 * n + 4) fast_chain (Some tcb) 1 1 in
  match loop with
  | None => ret None
  | Some lamda =>
      let! fast_chain := advance (Z.to_nat lamda) (Some tcb) in
      let! mu := find_head (n + 1) fast_chain (Some tcb) 0 in
      ret (Some (mu, lamda))
  end.

End syncpoint.
End Sync.

Module Scheduler.
Section scheduler.
Context {cfg : MicroConfig}.

(** [flags_t] *)
Definition sched_default : Z := 0.
Definition preempting_thread : Z := 1.
Definition sched_round_robin : Z := 2.
Definition has_flag (flags bit : Z) : bool := negb (Z.land flags bit =? 0).

Definition enqueue (tcb : nat) : K unit :=
  let! idle := gets idle_tcb in
  do! ASSERT (bool_decide (tcb <> idle)) in
  PrioQueue.enqueue tcb.

Definition dequeue (tcb : nat) : K unit :=
  let! idle := gets idle_tcb in
  do! ASSERT (bool_decide (tcb <> idle)) in
  PrioQueue.dequeue tcb.

Definition mark_thread_as_preempted (tcb : nat) : K unit :=
  let! signaled := rd (Some tcb) preempt_signaled in
  when signaled do
    (let! ip := rd (Some tcb) user_ip in
     do! wr (Some tcb) (set_preempted_ip ip) in
     let! cb := rd (Some tcb) preempt_callback_ip in
     wr (Some tcb) (set_user_ip cb)).

(** [set_active_thread]: the single unit has only its schedule to record. *)
Definition set_active_thread (tcb schedule : nat) : K unit := modify (set_current_schedule schedule).

Definition schedule (current : nat) (continuation flags : Z) : K unit :=
  let! queued := rd (Some current) (is_queued ready_list) in
  do! ASSERT (negb queued) in
  do! modify (set_scheduling_invariants_violated false) in
  let! max_prio := PrioQueue.get_highest_priority in
  let! st := rd (Some current) thread_state in
  let current_runnable := is_runnable st in
  let! p := rd (Some current) effective_prio in
  if current_runnable && ((max_prio <? p) || (negb (has_flag flags sched_round_robin) && (p =? max_prio)))
  then ACTIVATE_CONTINUATION continuation
  else
    do! (when current_runnable && has_flag flags preempting_thread do mark_thread_as_preempted current) in
    let! idle := gets idle_tcb in
    let! next :=
      (if 0 <=? max_prio then
         let! head := PrioQueue.get max_prio in
         let! next := demand InvalidPointer head in
         do! dequeue next in
         ret next
       else ret idle) in
    do! switch_from current continuation in
    do! (when current_runnable && bool_decide (current <> idle) do enqueue current) in
    do! set_active_thread next next in
    switch_to next next.

Definition end_of_timeslice (sched : nat) : K unit :=
  let! idle := gets idle_tcb in
  do! ASSERT (bool_decide (sched <> idle)) in
  let! current := gets current_tcb in
  do! (when bool_decide (sched <> current) do
    (let! queued := rd (Some sched) (is_queued ready_list) in
     when queued do (do! dequeue sched in enqueue sched))) in
  let! len := rd (Some sched) timeslice_length in
  wr (Some sched) (set_current_timeslice len).

Definition yield (current : nat) (continuation : Z) : K unit :=
  let! active := gets current_schedule in
  do! end_of_timeslice active in
  schedule current continuation sched_round_robin.

Definition handle_timer_interrupt (wakeup : bool) (timer_length continuation : Z) : K unit :=
  let! current := gets current_tcb in
  let! sched := gets current_schedule in
  let! idle := gets idle_tcb in
  let reschedule :=
    if wakeup then schedule current continuation preempting_thread
    else ACTIVATE_CONTINUATION continuation in
  if bool_decide (current = idle) then reschedule
  else
    let! slice := rd (Some sched) current_timeslice in
    if negb (slice =? 0) then
      if slice <=? timer_length then
        let! p := rd (Some sched) effective_prio in
        let! others := (if bool_decide (current = sched) && negb wakeup
                        then PrioQueue.get p else ret (Some sched)) in
        if bool_decide (others = None) then
          let! len := rd (Some sched) timeslice_length in
          do! wr (Some sched) (set_current_timeslice len) in
          ACTIVATE_CONTINUATION continuation
        else
          do! end_of_timeslice sched in
          schedule current continuation (Z.lor sched_round_robin preempting_thread)
      else
        do! wr (Some sched) (set_current_timeslice (slice - timer_length)) in
        reschedule
    else reschedule.

Definition set_timeslice_length (tcb : nat) (timeslice : Z) : K unit :=
  do! wr (Some tcb) (set_timeslice_length timeslice) in
  wr (Some tcb) (set_current_timeslice timeslice).

Definition set_priority (tcb : nat) (prio : Z) : K unit :=
  do! ASSERT ((0 <=? prio) && (prio <=? MAX_PRIO)) in
  do! set_base_priority tcb prio in
  let! w := rd (Some tcb) waiting_for in
  match w with
  | None => ret tt
  | Some sp => Sync.refresh sp tcb
  end.

(** [scheduler_t::do_schedule]: is a full schedule needed? *)
Definition do_schedule (tcb : nat) (ts_len prio : Z) : K bool :=
  let! b := rd (Some tcb) base_prio in
  let! required :=
    (if negb (prio =? not32 0) && negb (s32 prio =? b) then
       do! set_priority tcb (Z.land prio 0xff) in ret true
     else ret false) in
  do! (when negb (ts_len =? not32 0) do set_timeslice_length tcb ts_len) in
  ret required.

Definition release_and_reschedule_tcb (tcb : nat) : K unit :=
  let! st := rd (Some tcb) thread_state in
  let! idle := gets idle_tcb in
  when is_runnable st && bool_decide (tcb <> idle) do enqueue tcb.

Definition activate (tcb : nat) (new_state : thread_state_e) : K unit :=
  do! ASSERT (is_runnable new_state) in
  let! st := rd (Some tcb) thread_state in
  do! ASSERT (negb (is_runnable st)) in
  let! idle := gets idle_tcb in
  do! ASSERT (bool_decide (tcb <> idle)) in
  do! wr (Some tcb) (set_thread_state new_state) in
  release_and_reschedule_tcb tcb.

Definition deactivate (tcb : nat) (new_state : thread_state_e) : K unit :=
  do! ASSERT (negb (is_runnable new_state)) in
  let! st := rd (Some tcb) thread_state in
  do! ASSERT (is_runnable st) in
  let! idle := gets idle_tcb in
  do! ASSERT (bool_decide (tcb <> idle)) in
  do! wr (Some tcb) (set_thread_state new_state) in
  let! queued := rd (Some tcb) (is_queued ready_list) in
  when queued do dequeue tcb.

Inductive run_e : Type := run_current | run_new | full_schedule.

Definition should_schedule_thread (current tcb : nat) (can_schedule_current : bool) (flags : Z) : K run_e :=
  let! violated := gets scheduling_invariants_violated in
  if violated then ret full_schedule
  else
    let! pc := rd (Some current) effective_prio in
    let! pt := rd (Some tcb) effective_prio in
    if can_schedule_current && (pt <=? pc) then ret run_current
    else if pc <=? pt then ret run_new
    else
      let! next_prio := PrioQueue.get_highest_priority in
      if next_prio <=? pt then ret run_new else ret full_schedule.

(** [fast_schedule] without a second thread. *)
Definition fast_schedule_current (current : nat) (can_schedule_current : bool) (continuation flags : Z) : K unit :=
  let! violated := gets scheduling_invariants_violated in
  if can_schedule_current && negb violated then ACTIVATE_CONTINUATION continuation
  else schedule current continuation flags.

(** [fast_schedule] with a thread [tcb] that has become runnable. *)
Definition fast_schedule (current : nat) (can_schedule_current : bool) (tcb : nat) (continuation flags : Z) : K unit :=
  let! stc := rd (Some current) thread_state in
  do! ASSERT (negb can_schedule_current || is_runnable stc) in
  let! st := rd (Some tcb) thread_state in
  do! ASSERT (is_runnable st) in
  do! ASSERT (bool_decide (current <> tcb)) in
  let! action := should_schedule_thread current tcb can_schedule_current flags in
  match action with
  | run_new =>
      do! (when has_flag flags preempting_thread do mark_thread_as_preempted current) in
      do! switch_from current continuation in
      do! set_active_thread tcb tcb in
      do! release_and_reschedule_tcb current in
      switch_to tcb tcb
  | run_current =>
      do! ASSERT can_schedule_current in
      do! release_and_reschedule_tcb tcb in
      ACTIVATE_CONTINUATION continuation
  | full_schedule =>
      do! release_and_reschedule_tcb tcb in
      schedule current continuation flags
  end.

Definition activate_sched (tcb : nat) (new_state : thread_state_e) (current : nat) (continuation flags : Z) : K unit :=
  do! ASSERT (is_runnable new_state) in
  let! st := rd (Some tcb) thread_state in
  do! ASSERT (negb (is_runnable st)) in
  let! idle := gets idle_tcb in
  do! ASSERT (bool_decide (tcb <> idle)) in
  do! ASSERT (bool_decide (tcb <> current)) in
  do! wr (Some tcb) (set_thread_state new_state) in
  fast_schedule current true tcb continuation flags.

Definition deactivate_sched (tcb : nat) (new_state : thread_state_e) (current : nat) (continuation flags : Z) : K unit :=
  do! ASSERT (negb (is_runnable new_state)) in
  let! st := rd (Some tcb) thread_state in
  do! ASSERT (is_runnable st) in
  let! idle := gets idle_tcb in
  do! ASSERT (bool_decide (tcb <> idle)) in
  do! wr (Some tcb) (set_thread_state new_state) in
  do! (when bool_decide (tcb <> current) do
    (let! n := rd (Some tcb) ready_next in
     when bool_decide (n <> None) do dequeue tcb)) in
  fast_schedule_current current (bool_decide (current <> tcb)) continuation flags.

Definition deactivate_activate_sched (deactivated_tcb activated_tcb : nat)
    (new_inactive_state new_active_state : thread_state_e) (current : nat) (continuation flags : Z) : K unit :=
  let! sd := rd (Some deactivated_tcb) thread_state in
  do! ASSERT (is_runnable sd) in
  let! sa := rd (Some activated_tcb) thread_state in
  do! ASSERT (negb (is_runnable sa)) in
  do! ASSERT (negb (is_runnable new_inactive_state)) in
  do! ASSERT (is_runnable new_active_state) in
  let! idle := gets idle_tcb in
  do! ASSERT (bool_decide (activated_tcb <> idle)) in
  do! ASSERT (bool_decide (deactivated_tcb <> idle)) in
  do! ASSERT (bool_decide (activated_tcb <> current)) in
  do! (when bool_decide (deactivated_tcb <> current) do dequeue deactivated_tcb) in
  do! wr (Some deactivated_tcb) (set_thread_state new_inactive_state) in
  do! wr (Some activated_tcb) (set_thread_state new_active_state) in
  fast_schedule current (bool_decide (current <> deactivated_tcb)) activated_tcb continuation flags.

Definition update_active_state (tcb : nat) (new_state : thread_state_e) : K unit :=
  let! st := rd (Some tcb) thread_state in
  do! ASSERT (is_runnable st) in
  do! ASSERT (is_runnable new_state) in
  wr (Some tcb) (set_thread_state new_state).

Definition update_inactive_state (tcb : nat) (new_state : thread_state_e) : K unit :=
  let! st := rd (Some tcb) thread_state in
  do! ASSERT (negb (is_runnable st)) in
  do! ASSERT (negb (is_runnable new_state)) in
  wr (Some tcb) (set_thread_state new_state).

Definition context_switch (current dest : nat) (new_current_state new_dest_state : thread_state_e) (continuation : Z) : K unit :=
  let! idle := gets idle_tcb in
  do! ASSERT (bool_decide (current <> idle)) in
  do! wr (Some current) (set_thread_state new_current_state) in
  do! wr (Some dest) (set_thread_state new_dest_state) in
  do! modify (set_scheduling_invariants_violated true) in
  do! switch_from current continuation in
  let! st := rd (Some current) thread_state in
  do! (when is_runnable st do enqueue current) in
  let! active := gets current_schedule in
  switch_to dest active.

Definition donate (dest_tcb current : nat) (continuation : Z) : K unit :=
  let! st := rd (Some current) thread_state in
  do! ASSERT (is_runnable st) in
  let! dst := rd (Some dest_tcb) thread_state in
  let! queued := rd (Some dest_tcb) (is_queued ready_list) in
  if negb (is_runnable dst) || negb queued then yield current continuation
  else
    do! dequeue dest_tcb in
    do! switch_from current continuation in
    do! enqueue current in
    let! active := gets current_schedule in
    switch_to dest_tcb active.

Definition delete_tcb (tcb : nat) : K unit :=
  let! queued := rd (Some tcb) (is_queued ready_list) in
  do! ASSERT (negb queued) in
  do! wr (Some tcb) (set_thread_state aborted) in
  do! wr (Some tcb) (set_base_prio 0) in
  wr (Some tcb) (set_effective_prio 0).

Definition init_tcb (tcb : nat) (prio timeslice : Z) : K unit :=
  do! set_timeslice_length tcb timeslice in
  set_priority tcb prio.

End scheduler.
End Scheduler.

Module Endpoint.
Section endpoint.
Context {cfg : MicroConfig}.

Definition init (tcb : nat) : K unit :=
  do! Sync.init (SendQueue tcb) (Some tcb) in
  when schedule_inheritance do Sync.init (RecvQueue tcb) (Some tcb).

Definition enqueue_send (this tcb : nat) : K unit := Sync.block (SendQueue this) tcb.
Definition dequeue_send (this tcb : nat) : K unit := Sync.unblock (SendQueue this) tcb.
Definition enqueue_recv (this tcb : nat) : K unit :=
  when schedule_inheritance do Sync.block (RecvQueue this) tcb.
Definition dequeue_recv (this tcb : nat) : K unit :=
  when schedule_inheritance do Sync.unblock (RecvQueue this) tcb.

(** [tcb_t::remove_dependency] *)
Definition remove_dependency (this : nat) : K unit :=
  let! w := rd (Some this) waiting_for in
  match w with
  | None => ret tt
  | Some sp => Sync.unblock sp this
  end.

End endpoint.
End Endpoint.

Module Mutex.
Section mutex.
Context {cfg : MicroConfig}.

(** [libs/kernel/include/errors.h] *)
Definition EMUTEX_BUSY : Z := 11.

Definition get_holder (this : nat) : K ptr := rd_sync (MutexSync this) donatee.

(** [is_contended] *)
Definition is_contended (this : nat) : K bool :=
  let! h := rd_sync (MutexSync this) blocked_head in ret (bool_decide (h <> None)).

Definition enqueue_held (this holder : nat) : K unit :=
  let! head := rd (Some holder) mutexes_head in
  let! head' := on_mutexes (ENQUEUE_LIST_TAIL held_list head (Some this)) in
  wr (Some holder) (set_mutexes_head head').

Definition dequeue_held (this : nat) (holder : ptr) : K unit :=
  let! head := rd holder mutexes_head in
  let! head' := on_mutexes (DEQUEUE_LIST held_list head (Some this)) in
  wr holder (set_mutexes_head head').

(** [mutex_t::set_holder] *)
Definition set_holder (this holder : nat) : K unit :=
  let! h := get_holder this in
  do! ASSERT (bool_decide (h = None)) in
  let! bh := rd_sync (MutexSync this) blocked_head in
  do! ASSERT (bool_decide (bh = None)) in
  do! enqueue_held this holder in
  Sync.become_donatee (MutexSync this) holder.

Definition acquire (this candidate : nat) : K ptr :=
  let! w := rd (Some candidate) waiting_for in
  do! ASSERT (bool_decide (w = None)) in
  let! holder := get_holder this in
  if bool_decide (holder <> None) then ret holder
  else
    do! enqueue_held this candidate in
    do! Sync.become_donatee (MutexSync this) candidate in
    ret None.

(** The blocked thread at the head is always grabbed at once. *)
Definition release (this : nat) : K ptr :=
  let! holder := get_holder this in
  do! ASSERT (bool_decide (holder <> None)) in
  let! queued := rd holder (is_queued ready_list) in
  do! ASSERT (negb queued) in
  let! new_holder := rd_sync (MutexSync this) blocked_head in
  match new_holder with
  | None =>
      do! dequeue_held this holder in
      do! Sync.release_donatee (MutexSync this) in
      ret None
  | Some n =>
      let! st := rd new_holder thread_state in
      do! ASSERT (bool_decide (st = waiting_mutex)) in
      do! dequeue_held this holder in
      do! Sync.release_donatee (MutexSync this) in
      do! enqueue_held this n in
      do! Sync.unblock (MutexSync this) n in
      do! Sync.become_donatee (MutexSync this) n in
      ret new_holder
  end.

(** [return_mutex] stores the result of the system call. *)
Definition sys_mutex_success (continuation : Z) : K unit :=
  let! current := gets current_tcb in
  do! wr (Some current) (set_syscall_result 1) in
  ACTIVATE_CONTINUATION continuation.

Definition sys_mutex_failure (error continuation : Z) : K unit :=
  let! current := gets current_tcb in
  do! wr (Some current) (set_error_code error) in
  do! wr (Some current) (set_syscall_result 0) in
  ACTIVATE_CONTINUATION continuation.

(** The addresses of the continuations [mutex_wakeup] and [return_success]. *)
Definition mutex_wakeup_cont : Z := 1.
Definition return_success_cont : Z := 2.

Definition lock (this current : nat) (blocking : bool) (continuation : Z) : K unit :=
  let! holder := acquire this current in
  if bool_decide (holder = None) then sys_mutex_success continuation
  else if negb blocking then sys_mutex_failure EMUTEX_BUSY continuation
  else if bool_decide (holder = Some current) then sys_mutex_failure EMUTEX_BUSY continuation
  else
    do! Sync.block (MutexSync this) current in
    do! wr (Some current) (set_mutex_continuation continuation) in
    do! wr (Some current) (set_sysdata_mutex (Some this)) in
    do! wr (Some current) (set_uncontended_hybrid false) in
    Scheduler.deactivate_sched current waiting_mutex current mutex_wakeup_cont Scheduler.sched_default.

Definition unlock (this current : nat) (continuation : Z) : K unit :=
  let! holder := get_holder this in
  if bool_decide (holder <> Some current) then sys_mutex_failure EMUTEX_BUSY continuation
  else
    let! new_holder := release this in
    match new_holder with
    | None => sys_mutex_success continuation
    | Some n =>
        do! wr (Some current) (set_mutex_continuation continuation) in
        Scheduler.activate_sched n running current return_success_cont Scheduler.sched_default
    end.

(** The continuations [mutex_wakeup] and [return_success]. *)
Definition mutex_wakeup : K unit :=
  let! current := gets current_tcb in
  let! mutex := rd (Some current) sysdata_mutex in
  let! continuation := rd (Some current) mutex_continuation in
  match mutex with
  | None => sys_mutex_failure EMUTEX_BUSY continuation
  | Some m =>
      let! h := get_holder m in
      let! u := rd (Some current) uncontended_hybrid in
      do! ASSERT (bool_decide (h = Some current) || u) in
      sys_mutex_success continuation
  end.

Definition return_success : K unit :=
  let! current := gets current_tcb in
  let! continuation := rd (Some current) mutex_continuation in
  sys_mutex_success continuation.

End mutex.
End Mutex.
