(* ===== verification/MicroReady.v ===== *)
(** * The microkernel's ready queues

    The priority queue of [prioqueue.cc] represents a list of threads per
    priority; its two-level bitmap tells which lists are not empty, so that
    the highest priority is found with two searches for a bit. *)

From S2P Require Import Prelude Rings Queueing MicroLib MicroState MicroSched.
#[local] Open Scope Z_scope.

(** The ready queues: a list of threads per priority. *)
Definition queues : Type := Z -> list nat.

Definition upd {A} (q : Z -> A) (p : Z) (l : A) : Z -> A := fun p' => if p' =? p then l else q p'.

Lemma upd_eq {A} (q : Z -> A) p l : upd q p l p = l.
Proof. unfold upd. by rewrite Z.eqb_refl. Qed.
Lemma upd_ne {A} (q : Z -> A) p l p' : p' <> p -> upd q p l p' = q p'.
Proof. unfold upd. intros H. by apply Z.eqb_neq in H as ->. Qed.

Definition prio_ok (p : Z) : Prop := 0 <= p <= MAX_PRIO.

Record RQ (s : mstate) (q : queues) : Prop := {
  rq_len : length (prio_queue s) = 256%nat;
  rq_ring p : prio_ok p -> exists head,
    prio_queue s !! Z.to_nat p = Some head /\ rl_queue ready_list (tcbs s) head (q p);
  rq_out p : ~ prio_ok p -> q p = [];
  rq_prio p x : x ∈ q p -> x <> idle_tcb s /\ exists t, tcbs s !! x = Some t /\ effective_prio t = p;
  rq_queued x t : tcbs s !! x = Some t -> is_queued ready_list t = true -> x ∈ q (effective_prio t);
  rq_bm_len : length (prio_bitmap s) = 8%nat;
  rq_words : Forall is_word (prio_bitmap s);
  rq_bits p : prio_ok p -> bm_bit (prio_bitmap s) p = bool_decide (q p <> []);
  rq_index_word : 0 <= index_bitmap s < 2 ^ 8;
  rq_index i : 0 <= i < 8 ->
    Z.testbit (index_bitmap s) i = negb (default 0 (prio_bitmap s !! Z.to_nat i) =? 0)
}.

(** States that differ in the ready queues only. *)
Record ready_frame (s s' : mstate) : Prop := {
  rf_mutexes : mutexes s' = mutexes s;
  rf_syncpoints : syncpoints s' = syncpoints s;
  rf_violated : scheduling_invariants_violated s' = scheduling_invariants_violated s;
  rf_current : current_tcb s' = current_tcb s;
  rf_schedule : current_schedule s' = current_schedule s;
  rf_idle : idle_tcb s' = idle_tcb s;
  rf_activated : activated s' = activated s;
  rf_none x : tcbs s !! x = None -> tcbs s' !! x = None;
  rf_tcb x t : tcbs s !! x = Some t -> exists t', tcbs s' !! x = Some t' /\ rl_same ready_list t t'
}.

(** Fields of a thread that its place on the ready queue does not touch. *)
Lemma same_ready_eff t t' : rl_same ready_list t t' -> effective_prio t' = effective_prio t.
Proof. intros H. apply (H Z effective_prio); by intros ? []. Qed.
Lemma same_ready_base t t' : rl_same ready_list t t' -> base_prio t' = base_prio t.
Proof. intros H. apply (H Z base_prio); by intros ? []. Qed.
Lemma same_ready_state t t' : rl_same ready_list t t' -> thread_state t' = thread_state t.
Proof. intros H. apply (H thread_state_e thread_state); by intros ? []. Qed.

Lemma ready_frame_refl s : ready_frame s s.
Proof. constructor; eauto using rl_same_refl. Qed.

Lemma ready_frame_trans s1 s2 s3 : ready_frame s1 s2 -> ready_frame s2 s3 -> ready_frame s1 s3.
Proof.
  intros [] []. constructor; try congruence; [by eauto|].
  intros x t Ht. destruct (rf_tcb0 _ _ Ht) as (t' & Ht' & Hs). destruct (rf_tcb1 _ _ Ht') as (t'' & Ht'' & Hs').
  eauto using rl_same_trans.
Qed.

Section bits.

Lemma prio_word p : prio_ok p -> 0 <= p / BITS_WORD < 8 /\ 0 <= p mod BITS_WORD < 32.
Proof. unfold prio_ok, MAX_PRIO, BITS_WORD. intros. Z.div_mod_to_equations. lia. Qed.

Lemma word_zero_iff w : is_word w -> w = 0 <-> forall i, 0 <= i < 32 -> Z.testbit w i = false.
Proof.
  intros Hw. split; [intros ->; intros; apply Z.bits_0|]. intros H. apply Z.bits_inj_0. intros i.
  destruct (Z.lt_ge_cases i 0); [by apply Z.testbit_neg_r|]. destruct (Z.lt_ge_cases i 32); [apply H; lia|].
  by apply word_bits_high.
Qed.

(** The index bitmap is small: it has no bits from 8 on. *)
Lemma index_bits_high w i : 0 <= w < 2 ^ 8 -> 8 <= i -> Z.testbit w i = false.
Proof.
  intros Hw Hi. destruct (Z.eq_dec w 0) as [->|]; [apply Z.bits_0|]. apply Z.bits_above_log2; [lia|].
  assert (Z.log2 w < 8) by (apply Z.log2_lt_pow2; lia). lia.
Qed.

Lemma small_of_bits w : 0 <= w -> (forall i, 8 <= i -> Z.testbit w i = false) -> 0 <= w < 2 ^ 8.
Proof.
  intros Hw Hb. split; [done|]. destruct (Z.eq_dec w 0) as [->|]; [done|]. apply Z.log2_lt_pow2; [lia|].
  destruct (Z.lt_ge_cases (Z.log2 w) 8) as [|H]; [done|]. apply Hb in H. rewrite Z.bit_log2 in H by lia. done.
Qed.

End bits.

(** ** The bitmaps follow the queues *)

Section bitmap_update.
Implicit Types (bm : list Z) (ix : Z) (q : queues).

(** The part of [RQ] about bitmaps. *)
Definition bits_ok ix bm q : Prop :=
  length bm = 8%nat /\ Forall is_word bm /\ (forall p, prio_ok p -> bm_bit bm p = bool_decide (q p <> [])) /\
  0 <= ix < 2 ^ 8 /\ (forall i, 0 <= i < 8 -> Z.testbit ix i = negb (default 0 (bm !! Z.to_nat i) =? 0)).

Lemma bm_bit_replace bm p p' w :
  length bm = 8%nat -> prio_ok p -> prio_ok p' ->
  bm_bit (<[Z.to_nat (p / BITS_WORD) := w]> bm) p' =
  if p' / BITS_WORD =? p / BITS_WORD then Z.testbit w (p' mod BITS_WORD) else bm_bit bm p'.
Proof. intros Hl Hp Hp'. apply prio_word in Hp. apply bm_bit_insert; unfold prio_ok in *; lia. Qed.

Lemma bits_ok_set ix bm q p l w :
  bits_ok ix bm q -> prio_ok p -> l <> [] -> bm !! Z.to_nat (p / BITS_WORD) = Some w ->
  bits_ok (Z.lor ix (bit32 (p / BITS_WORD)))
          (<[Z.to_nat (p / BITS_WORD) := Z.lor w (bit32 (p mod BITS_WORD))]> bm) (upd q p l).
Proof.
  intros (Hl & Hw & Hb & Hix & Hi) Hp Hne Hlk. pose proof (prio_word p Hp) as [H1 H2].
  pose proof (bm_word _ _ _ Hw Hlk) as Hww.
  assert (Hw' : is_word (Z.lor w (bit32 (p mod BITS_WORD)))) by (apply is_word_lor; [done|apply is_word_u32]).
  split_and!.
  - by rewrite length_insert.
  - by apply Forall_insert.
  - intros p' Hp'. rewrite bm_bit_replace by done. pose proof (prio_word p' Hp') as [H3 H4].
    destruct (Z.eqb_spec (p' / BITS_WORD) (p / BITS_WORD)) as [He|Hne'].
    + rewrite Z.lor_spec, testbit_bit32 by done. destruct (Z.eqb_spec (p' mod BITS_WORD) (p mod BITS_WORD)) as [He2|Hne2].
      * rewrite (div_mod_inj _ _ He He2), upd_eq, orb_true_r. symmetry. by apply bool_decide_eq_true.
      * rewrite upd_ne by congruence. rewrite orb_false_r, <-Hb by done. unfold bm_bit. by rewrite He, Hlk.
    + rewrite upd_ne by congruence. by apply Hb.
  - apply Z.lor_nonneg. split; [lia|apply is_word_u32].
  - apply small_of_bits; [apply Z.lor_nonneg; split; [lia|apply is_word_u32]|]. intros i Hi8.
    rewrite Z.lor_spec, index_bits_high, testbit_bit32 by lia. simpl. apply Z.eqb_neq. lia.
  - intros i Hi8. rewrite Z.lor_spec, testbit_bit32, Hi by lia. destruct (Z.eqb_spec i (p / BITS_WORD)) as [->|Hne'].
    + rewrite orb_true_r, list_lookup_insert_eq by lia. simpl. symmetry. apply negb_true_iff, Z.eqb_neq. intros H0.
      assert (Z.testbit (Z.lor w (bit32 (p mod BITS_WORD))) (p mod BITS_WORD) = true) as Ht.
      { rewrite Z.lor_spec, testbit_bit32, Z.eqb_refl by done. apply orb_true_r. }
      rewrite H0, Z.bits_0 in Ht. done.
    + rewrite orb_false_r, list_lookup_insert_ne by lia. done.
Qed.

Lemma bits_ok_clear ix bm q p w :
  bits_ok ix bm q -> prio_ok p -> bm !! Z.to_nat (p / BITS_WORD) = Some w ->
  let w' := Z.land w (not32 (bit32 (p mod BITS_WORD))) in
  bits_ok (if w' =? 0 then Z.land ix (not32 (bit32 (p / BITS_WORD))) else ix)
          (<[Z.to_nat (p / BITS_WORD) := w']> bm) (upd q p []).
Proof.
  intros (Hl & Hw & Hb & Hix & Hi) Hp Hlk w'. pose proof (prio_word p Hp) as [H1 H2].
  pose proof (bm_word _ _ _ Hw Hlk) as Hww.
  assert (Hw' : is_word w') by (apply is_word_land; [done|apply is_word_not32]).
  assert (Hbit : forall i, 0 <= i < 32 -> Z.testbit w' i = Z.testbit w i && negb (i =? p mod BITS_WORD)).
  { intros i Hi32. apply (testbit_clear_bit32 w (p mod BITS_WORD) i); done. }
  assert (Hixw : is_word ix) by (unfold is_word, WORD_MOD; lia).
  assert (Hland : 0 <= Z.land ix (not32 (bit32 (p / BITS_WORD))) < 2 ^ 8).
  { apply small_of_bits; [apply Z.land_nonneg; left; lia|]. intros i Hi8. rewrite Z.land_spec, index_bits_high by lia. done. }
  split_and!.
  - by rewrite length_insert.
  - by apply Forall_insert.
  - intros p' Hp'. rewrite bm_bit_replace by done. pose proof (prio_word p' Hp') as [H3 H4].
    destruct (Z.eqb_spec (p' / BITS_WORD) (p / BITS_WORD)) as [He|Hne'].
    + rewrite Hbit by done. destruct (Z.eqb_spec (p' mod BITS_WORD) (p mod BITS_WORD)) as [He2|Hne2].
      * rewrite (div_mod_inj _ _ He He2), upd_eq, andb_false_r. done.
      * rewrite upd_ne by congruence. rewrite andb_true_r, <-Hb by done. unfold bm_bit. by rewrite He, Hlk.
    + rewrite upd_ne by congruence. by apply Hb.
  - destruct (w' =? 0); lia.
  - destruct (w' =? 0); lia.
  - intros i Hi8. destruct (Z.eq_dec i (p / BITS_WORD)) as [->|Hne'].
    + rewrite list_lookup_insert_eq by lia. simpl. destruct (Z.eqb_spec w' 0) as [H0|H0]; simpl.
      * rewrite Z.land_spec, testbit_not32, testbit_bit32, Z.eqb_refl by (try apply is_word_u32; lia). apply andb_false_r.
      * rewrite Hi, Hlk by lia. simpl. apply negb_true_iff, Z.eqb_neq. intros ->. apply H0. unfold w'. apply Z.land_0_l.
    + rewrite list_lookup_insert_ne by lia. rewrite <-Hi by lia. destruct (w' =? 0); [|done].
      rewrite Z.land_spec, testbit_not32, testbit_bit32 by (try apply is_word_u32; lia).
      apply Z.eqb_neq in Hne' as ->. apply andb_true_r.
Qed.

End bitmap_update.

(** ** Enqueueing and dequeueing *)

Section rq.
Implicit Types (s : mstate) (q : queues) (x y : nat).

Lemma rq_bits_ok s q : RQ s q -> bits_ok (index_bitmap s) (prio_bitmap s) q.
Proof. intros []. unfold bits_ok. split_and!; first [done|lia]. Qed.

Lemma rq_nodup s q p : RQ s q -> NoDup (q p).
Proof.
  intros H. destruct (decide (prio_ok p)) as [Hp|Hp]; [|rewrite (rq_out _ _ H) by done; constructor].
  destruct (rq_ring _ _ H p Hp) as (h & _ & _ & Hnd & _). done.
Qed.

(** A thread is on the queue of its priority and on no other. *)
Lemma rq_unique s q x p p' : RQ s q -> x ∈ q p -> x ∈ q p' -> p = p'.
Proof.
  intros H H1 H2. destruct (rq_prio _ _ H _ _ H1) as (_ & t & Ht & <-).
  destruct (rq_prio _ _ H _ _ H2) as (_ & t' & Ht' & <-). congruence.
Qed.

Lemma rq_queued_iff s q x t :
  RQ s q -> tcbs s !! x = Some t -> is_queued ready_list t = true <-> x ∈ q (effective_prio t).
Proof.
  intros H Ht. split; [by apply (rq_queued _ _ H)|]. intros Hx.
  destruct (decide (prio_ok (effective_prio t))) as [Hp|Hp]; [|rewrite (rq_out _ _ H) in Hx by done; set_solver].
  destruct (rq_ring _ _ H _ Hp) as (h & _ & Hq). by eapply rl_queue_queued.
Qed.

(** The parts of [RQ] that a change of the ring of priority [p] must redo. *)
Lemma rq_change s q s' p h' l :
  RQ s q -> prio_ok p -> idle_tcb s' = idle_tcb s ->
  prio_queue s' = <[Z.to_nat p := h']> (prio_queue s) ->
  rl_queue ready_list (tcbs s') h' l ->
  (forall x t, tcbs s !! x = Some t -> exists t', tcbs s' !! x = Some t' /\ rl_same ready_list t t') ->
  (forall x, tcbs s !! x = None -> tcbs s' !! x = None) ->
  (forall p' y, p' <> p -> y ∈ q p' -> tcbs s' !! y = tcbs s !! y) ->
  (forall y, y ∈ l -> y <> idle_tcb s /\ exists t, tcbs s !! y = Some t /\ effective_prio t = p) ->
  (forall y t, tcbs s' !! y = Some t -> is_queued ready_list t = true -> y ∈ upd q p l (effective_prio t)) ->
  bits_ok (index_bitmap s') (prio_bitmap s') (upd q p l) ->
  RQ s' (upd q p l).
Proof.
  intros H Hp Hid Hpq Hring Hsame Hnone Hoth Hl Hqd (B1 & B2 & B3 & B4 & B5).
  assert (Hmem : forall p' y, y ∈ upd q p l p' -> y <> idle_tcb s /\ exists t, tcbs s !! y = Some t /\ effective_prio t = p').
  { intros p' y. unfold upd. destruct (Z.eqb_spec p' p) as [->|]; [apply Hl|apply (rq_prio _ _ H)]. }
  constructor; try done.
  - rewrite Hpq, length_insert. apply (rq_len _ _ H).
  - intros p' Hp'. destruct (decide (p' = p)) as [->|Hne].
    + exists h'. rewrite Hpq, list_lookup_insert_eq, upd_eq; [done|]. rewrite (rq_len _ _ H).
      unfold prio_ok, MAX_PRIO in *. lia.
    + destruct (rq_ring _ _ H p' Hp') as (h & Hh & Hq). exists h. rewrite Hpq, list_lookup_insert_ne, upd_ne; [|done|].
      * split; [done|]. eapply rl_queue_frame; [done|]. intros x Hx. unfold nxt, prv. by rewrite (Hoth _ _ Hne Hx).
      * unfold prio_ok in *. lia.
  - intros p' Hp'. rewrite upd_ne by congruence. by apply (rq_out _ _ H).
  - intros p' x Hx. destruct (Hmem _ _ Hx) as (Hi & t & Ht & He). rewrite Hid. split; [done|].
    destruct (Hsame _ _ Ht) as (t' & Ht' & Hs). exists t'. split; [done|]. rewrite (same_ready_eff _ _ Hs). done.
Qed.

Lemma enqueue_ready_spec s q x t :
  RQ s q -> tcbs s !! x = Some t -> is_queued ready_list t = false -> x <> idle_tcb s -> prio_ok (effective_prio t) ->
  wp (PrioQueue.enqueue x) (fun _ s' => RQ s' (upd q (effective_prio t) (q (effective_prio t) ++ [x])) /\ ready_frame s s') s.
Proof.
  intros H Ht Hnq Hid Hp. pose proof (prio_word _ Hp) as [Hw1 Hw2].
  set (p := effective_prio t) in *.
  destruct (rq_ring _ _ H p Hp) as (h & Hh & Hq).
  assert (Hx : x ∉ q p). { intros Hx. apply (rq_queued_iff _ _ _ _ H Ht) in Hx. congruence. }
  destruct (lookup_lt_is_Some_2 (prio_bitmap s) (Z.to_nat (p / BITS_WORD))) as [w Hlw].
  { rewrite (rq_bm_len _ _ H). lia. }
  unfold PrioQueue.enqueue. apply wp_bind, wp_gets. apply wp_bind, wp_ASSERT; [by apply bool_decide_eq_true|].
  apply wp_bind. eapply wp_get_field; [exact Ht|]. apply wp_bind, wp_ASSERT; [by rewrite Hnq|].
  apply wp_bind. eapply wp_get_field; [exact Ht|]. fold p.
  apply wp_bind, wp_ASSERT. { unfold prio_ok in Hp. apply andb_true_iff. split; apply Z.leb_le; lia. }
  apply wp_bind, wp_gets. apply wp_bind. eapply wp_index; [unfold prio_ok in Hp; lia|exact Hh|].
  apply wp_bind, wp_on_tcbs.
  eapply wp_mono; [apply enqueue_tail_spec; [apply _|exact Hq|exact Hx|by eexists]|].
  intros h' m' [Hq' [Hf1 Hf2]].
  apply wp_bind. unfold PrioQueue.queue_set. apply wp_bind, wp_gets. simpl. apply wp_bind.
  apply wp_index_set. { rewrite (rq_len _ _ H). unfold prio_ok, MAX_PRIO in Hp. lia. }
  apply wp_modify. apply wp_bind, wp_modify. simpl. apply wp_bind, wp_gets. simpl.
  apply wp_bind. eapply wp_index; [lia|exact Hlw|]. apply wp_bind. apply wp_index_set.
  { rewrite (rq_bm_len _ _ H). lia. }
  apply wp_modify.
  assert (Hnone : forall y, tcbs s !! y = None -> m' !! y = None).
  { intros y Hy. rewrite Hf1; [done|]. intros Hin. apply elem_of_app in Hin as [Hin|Hin].
    - destruct (rq_prio _ _ H _ _ Hin) as (_ & t' & Ht' & _). congruence.
    - apply list_elem_of_singleton in Hin. congruence. }
  split; [|constructor; done].
  eapply (rq_change s q _ p h'); simpl; try done.
  - intros p' y Hne Hy. apply Hf1. intros Hin. apply elem_of_app in Hin as [Hin|Hin].
    + apply Hne. by eapply rq_unique.
    + apply list_elem_of_singleton in Hin as ->. apply (rq_prio _ _ H) in Hy as (_ & t' & Ht' & He).
      rewrite Ht in Ht'. by simplify_eq.
  - intros y Hy. apply elem_of_app in Hy as [Hy|Hy]; [by apply (rq_prio _ _ H)|].
    apply list_elem_of_singleton in Hy as ->. eauto.
  - intros y t' Ht' Hqd. destruct (decide (y ∈ q p ++ [x])) as [Hin|Hin].
    + assert (effective_prio t' = p) as ->; [|by rewrite upd_eq].
      assert (exists t0, tcbs s !! y = Some t0 /\ effective_prio t0 = p) as (t0 & Ht0 & He).
      { apply elem_of_app in Hin as [Hin|Hin]; [by apply (rq_prio _ _ H) in Hin as (_ & ?)|].
        apply list_elem_of_singleton in Hin as ->. eauto. }
      destruct (Hf2 _ _ Ht0) as (t1 & Ht1 & Hs). rewrite Ht' in Ht1. simplify_eq. by rewrite (same_ready_eff _ _ Hs).
    + rewrite Hf1 in Ht' by done. pose proof (rq_queued _ _ H _ _ Ht' Hqd) as Hy. unfold upd.
      destruct (Z.eqb_spec (effective_prio t') p) as [He|]; [|done]. rewrite He in Hy. set_solver.
  - apply bits_ok_set; [by apply rq_bits_ok|done|by destruct (q p)|done].
Qed.

Lemma remove_bit_spec s (q : queues) p R :
  bits_ok (index_bitmap s) (prio_bitmap s) q -> prio_ok p ->
  (forall ix bm, bits_ok ix bm (upd q p []) -> R tt (set_index_bitmap ix (set_prio_bitmap bm s))) ->
  wp (PrioQueue.remove_sched_bitmap_bit p) R s.
Proof.
  intros Hb Hp HR. pose proof (prio_word _ Hp) as [Hw1 Hw2]. pose proof Hb as (Hl & _).
  destruct (lookup_lt_is_Some_2 (prio_bitmap s) (Z.to_nat (p / BITS_WORD))) as [w Hlw]; [lia|].
  unfold PrioQueue.remove_sched_bitmap_bit. apply wp_bind, wp_gets. apply wp_bind. eapply wp_index; [lia|done|].
  apply wp_bind. apply wp_index_set; [lia|]. apply wp_bind, wp_modify.
  pose proof (bits_ok_clear _ _ _ _ _ Hb Hp Hlw) as Hc. simpl in Hc. specialize (HR _ _ Hc).
  destruct (Z.land w _ =? 0); [apply wp_modify|apply wp_ret]; by destruct s.
Qed.

Lemma dequeue_ready_spec s q x t l1 l2 :
  RQ s q -> tcbs s !! x = Some t -> q (effective_prio t) = l1 ++ x :: l2 ->
  wp (PrioQueue.dequeue x) (fun _ s' => RQ s' (upd q (effective_prio t) (l1 ++ l2)) /\ ready_frame s s' /\
    exists t', tcbs s' !! x = Some t' /\ is_queued ready_list t' = false) s.
Proof.
  intros H Ht Hl. set (p := effective_prio t) in *.
  assert (Hxq : x ∈ q p) by (rewrite Hl; set_solver).
  assert (Hqd : is_queued ready_list t = true) by (by apply (rq_queued_iff _ _ _ _ H Ht)).
  assert (Hid : x <> idle_tcb s) by (by apply (rq_prio _ _ H) in Hxq as (? & _)).
  assert (Hp : prio_ok p).
  { destruct (decide (prio_ok p)) as [|Hn]; [done|]. rewrite (rq_out _ _ H) in Hxq by done. set_solver. }
  destruct (rq_ring _ _ H p Hp) as (h & Hh & Hq). rewrite Hl in Hq.
  unfold PrioQueue.dequeue. apply wp_bind, wp_gets. apply wp_bind, wp_ASSERT; [by apply bool_decide_eq_true|].
  apply wp_bind. eapply wp_get_field; [exact Ht|]. apply wp_bind, wp_ASSERT; [done|].
  apply wp_bind. eapply wp_get_field; [exact Ht|]. fold p.
  apply wp_bind, wp_ASSERT. { unfold prio_ok in Hp. apply andb_true_iff. split; apply Z.leb_le; lia. }
  apply wp_bind, wp_gets. apply wp_bind. eapply wp_index; [unfold prio_ok in Hp; lia|exact Hh|].
  apply wp_bind, wp_on_tcbs. eapply wp_mono; [apply dequeue_spec; [apply _|exact Hq]|].
  intros h' m' (Hq' & [Hf1 Hf2] & Hnx & _).
  apply wp_bind. unfold PrioQueue.queue_set. apply wp_bind, wp_gets. simpl. apply wp_bind.
  apply wp_index_set. { rewrite (rq_len _ _ H). unfold prio_ok, MAX_PRIO in Hp. lia. }
  apply wp_modify.
  assert (Hnone : forall y, tcbs s !! y = None -> m' !! y = None).
  { intros y Hy. rewrite Hf1; [done|]. intros Hin. rewrite <-Hl in Hin.
    destruct (rq_prio _ _ H _ _ Hin) as (_ & t' & Ht' & _). congruence. }
  destruct (Hf2 _ _ Ht) as (tx & Htx & Hsx).
  assert (Hxn : is_queued ready_list tx = false).
  { unfold nxt in Hnx. rewrite Htx in Hnx. simpl in Hnx. unfold is_queued. apply bool_decide_eq_false_2. intros Hn.
    apply Hn. by simplify_eq. }
  assert (Hgoal : forall ix bm, bits_ok ix bm (upd q p (l1 ++ l2)) ->
    RQ (set_index_bitmap ix (set_prio_bitmap bm (set_prio_queue (<[Z.to_nat p := h']> (prio_queue s)) (set_tcbs m' s)))) (upd q p (l1 ++ l2))).
  { intros ix bm Hb. eapply (rq_change s q _ p h'); simpl; try done.
    - intros p' y Hne Hy. apply Hf1. rewrite <-Hl. intros Hin. apply Hne. by eapply rq_unique.
    - intros y Hy. apply (rq_prio _ _ H). rewrite Hl. set_solver.
    - intros y t' Ht' Hqd'. destruct (decide (y ∈ q p)) as [Hin|Hin].
      + assert (effective_prio t' = p) as ->.
        { destruct (rq_prio _ _ H _ _ Hin) as (_ & t0 & Ht0 & He). destruct (Hf2 _ _ Ht0) as (t1 & Ht1 & Hs).
          rewrite Ht' in Ht1. simplify_eq. by rewrite (same_ready_eff _ _ Hs). }
        rewrite upd_eq. destruct (decide (y = x)) as [->|]; [congruence|]. rewrite Hl in Hin. set_solver.
      + rewrite Hf1 in Ht' by (by rewrite <-Hl). pose proof (rq_queued _ _ H _ _ Ht' Hqd') as Hy. unfold upd.
        destruct (Z.eqb_spec (effective_prio t') p) as [He|]; [|done]. by rewrite He in Hy. }
  destruct Hq' as (Hh' & Hnd' & _). destruct (bool_decide (h' = None)) eqn:Eh.
  - apply bool_decide_eq_true in Eh. assert (l1 ++ l2 = []) as Hnil by (destruct (l1 ++ l2); [done|simpl in Hh'; congruence]).
    rewrite Hnil in Hgoal |- *. apply (remove_bit_spec _ q p); simpl; [by apply rq_bits_ok|done|].
    intros ix bm Hb. split_and!; [by apply Hgoal|by constructor|by exists tx].
  - apply wp_ret. split_and!; [|by constructor|by exists tx].
    assert (Hb : bits_ok (index_bitmap s) (prio_bitmap s) (upd q p (l1 ++ l2))).
    { destruct (rq_bits_ok _ _ H) as (B1 & B2 & B3 & B4 & B5). split_and!; try done; try lia. intros p' Hp'.
      rewrite B3 by done. unfold upd. destruct (Z.eqb_spec p' p) as [->|]; [|done]. rewrite Hl.
      assert (l1 ++ l2 <> []) by (intros Hn; rewrite Hn in Hh'; simpl in Hh'; rewrite Hh' in Eh; done).
      rewrite !bool_decide_eq_true_2; [done|done|]. by destruct l1. }
    apply Hgoal in Hb. by destruct s.
Qed.

(** ** The highest priority *)

Definition highest (q : queues) (p : Z) : Prop :=
  (p = -1 /\ forall p', q p' = []) \/ (prio_ok p /\ q p <> [] /\ forall p', q p' <> [] -> p' <= p).

Lemma get_highest_priority_spec s q :
  RQ s q -> wp PrioQueue.get_highest_priority (fun p s' => s' = s /\ highest q p) s.
Proof.
  intros H. pose proof (rq_bits_ok _ _ H) as (B1 & B2 & B3 & B4 & B5).
  assert (Hnz : forall p, q p <> [] -> prio_ok p /\ Z.testbit (index_bitmap s) (p / BITS_WORD) = true).
  { intros p Hne. assert (Hp : prio_ok p) by (destruct (decide (prio_ok p)); [done|by rewrite (rq_out _ _ H) in Hne]).
    split; [done|]. pose proof (prio_word _ Hp) as [H1 H2]. rewrite B5 by done.
    assert (Hb : bm_bit (prio_bitmap s) p = true) by (rewrite B3 by done; by apply bool_decide_eq_true).
    unfold bm_bit in Hb. apply negb_true_iff, Z.eqb_neq. intros H0. rewrite H0, Z.bits_0 in Hb. done. }
  unfold PrioQueue.get_highest_priority. apply wp_bind, wp_gets. destruct (Z.eqb_spec (index_bitmap s) 0) as [H0|H0].
  - apply wp_ret. split; [done|]. left. split; [done|]. intros p. destruct (q p) eqn:E; [done|].
    destruct (Hnz p) as [_ Hb]; [congruence|]. rewrite H0, Z.bits_0 in Hb. done.
  - destruct (msb_highest (index_bitmap s)) as [Hm1 Hm2]; [lia|]. set (i := msb (index_bitmap s)) in *.
    assert (Hi : 0 <= i < 8).
    { split; [apply Z.log2_nonneg|]. destruct (Z.lt_ge_cases i 8); [done|]. rewrite index_bits_high in Hm1 by lia. done. }
    destruct (lookup_lt_is_Some_2 (prio_bitmap s) (Z.to_nat i)) as [w Hlw]; [lia|].
    pose proof (bm_word _ _ _ B2 Hlw) as Hww. rewrite B5, Hlw in Hm1 by done. simpl in Hm1.
    apply wp_bind, wp_gets. apply wp_bind. eapply wp_index; [lia|done|]. apply wp_bind, wp_ASSERT; [done|].
    apply wp_ret. split; [done|]. right. apply negb_true_iff, Z.eqb_neq in Hm1.
    destruct (msb_highest w) as [Hk1 Hk2]; [unfold is_word in Hww; lia|]. set (k := msb w) in *.
    assert (Hk : 0 <= k < 32).
    { split; [apply Z.log2_nonneg|]. destruct (Z.lt_ge_cases k 32); [done|]. rewrite word_bits_high in Hk1 by done. done. }
    assert (Hd : (i * BITS_WORD + k) / BITS_WORD = i /\ (i * BITS_WORD + k) mod BITS_WORD = k).
    { unfold BITS_WORD. split; [rewrite Z.div_add_l, Z.div_small by lia; lia|].
      rewrite Z.add_comm, Z.mod_add, Z.mod_small by lia. done. }
    destruct Hd as [Hd1 Hd2].
    assert (Hp : prio_ok (i * BITS_WORD + k)) by (unfold prio_ok, MAX_PRIO, BITS_WORD; lia).
    split_and!; [done| |].
    + eapply bool_decide_eq_true. rewrite <-B3 by done. unfold bm_bit. by rewrite Hd1, Hd2, Hlw.
    + intros p' Hne. destruct (Hnz p' Hne) as [Hp' Hb]. apply Hm2 in Hb.
      pose proof (prio_word _ Hp') as [H1 H2]. pose proof (Z.div_mod p' BITS_WORD ltac:(done)) as Hdm.
      destruct (Z.eq_dec (p' / BITS_WORD) i) as [He|]; [|unfold BITS_WORD in *; lia].
      assert (Hb' : bm_bit (prio_bitmap s) p' = true) by (rewrite B3 by done; by apply bool_decide_eq_true).
      unfold bm_bit in Hb'. rewrite He, Hlw in Hb'. simpl in Hb'. apply Hk2 in Hb'. unfold BITS_WORD in *. lia.
Qed.

(** ** Changes of threads that leave the queues alone *)

(** The part of a thread that the ready queues depend on. *)
Definition ready_view (t : tcb_t) : ptr * ptr * Z := (ready_next t, ready_prev t, effective_prio t).

Lemma rq_frame s s' q :
  RQ s q -> prio_queue s' = prio_queue s -> index_bitmap s' = index_bitmap s -> prio_bitmap s' = prio_bitmap s ->
  idle_tcb s' = idle_tcb s -> (forall x, ready_view <$> tcbs s' !! x = ready_view <$> tcbs s !! x) -> RQ s' q.
Proof.
  intros H H1 H2 H3 H4 Hv.
  assert (Hn : forall x, nxt (L := rl_links ready_list) (tcbs s') x = nxt (L := rl_links ready_list) (tcbs s) x).
  { intros x. specialize (Hv x). unfold nxt. destruct (tcbs s' !! x), (tcbs s !! x); simpl in *; try done.
    unfold ready_view in Hv. congruence. }
  assert (Hp : forall x, prv (L := rl_links ready_list) (tcbs s') x = prv (L := rl_links ready_list) (tcbs s) x).
  { intros x. specialize (Hv x). unfold prv. destruct (tcbs s' !! x), (tcbs s !! x); simpl in *; try done.
    unfold ready_view in Hv. congruence. }
  destruct H. constructor; rewrite ?H1, ?H2, ?H3, ?H4; try done.
  - intros p Hpk. destruct (rq_ring0 p Hpk) as (h & Hh & Hq). exists h. split; [done|].
    eapply rl_queue_frame; [done|]. auto.
  - intros p x Hx. destruct (rq_prio0 p x Hx) as (Hi & t & Ht & He). split; [done|]. specialize (Hv x).
    rewrite Ht in Hv. destruct (tcbs s' !! x) as [t'|]; [|done]. exists t'. split; [done|].
    simpl in Hv. unfold ready_view in Hv. congruence.
  - intros x t' Ht' Hq. specialize (Hv x). rewrite Ht' in Hv. destruct (tcbs s !! x) as [t|] eqn:Ht; [|done].
    simpl in Hv. unfold ready_view in Hv.
    assert (effective_prio t' = effective_prio t /\ ready_next t' = ready_next t) as [-> Hnx] by (split; congruence).
    apply (rq_queued0 x t Ht). unfold is_queued in *. simpl in *. by rewrite <-Hnx.
Qed.

(** A thread that is not queued may change its priority. *)
Lemma rq_wr_unqueued s q x t t' :
  RQ s q -> tcbs s !! x = Some t -> is_queued ready_list t = false -> is_queued ready_list t' = false ->
  RQ (set_tcbs (<[x := t']> (tcbs s)) s) q.
Proof.
  intros H Ht Hq Hq'.
  assert (Hx : forall p, x ∉ q p).
  { intros p Hx. destruct (rq_prio _ _ H _ _ Hx) as (_ & t0 & Ht0 & <-). rewrite Ht in Ht0. simplify_eq.
    apply (rq_queued_iff _ _ _ _ H Ht) in Hx. congruence. }
  destruct H. constructor; simpl; try done.
  - intros p Hp. destruct (rq_ring0 p Hp) as (h & Hh & Hqu). exists h. split; [done|].
    eapply rl_queue_frame; [done|]. intros y Hy. unfold nxt, prv. rewrite lookup_insert_ne; [done|]. intros ->. by eapply Hx.
  - intros p y Hy. destruct (rq_prio0 p y Hy) as (Hi & ty & Hty & He). split; [done|]. exists ty. split; [|done].
    rewrite lookup_insert_ne; [done|]. intros ->. by eapply Hx.
  - intros y ty Hty Hqy. destruct (decide (x = y)) as [->|].
    + rewrite lookup_insert_eq in Hty. congruence.
    + rewrite lookup_insert_ne in Hty by done. by apply rq_queued0.
Qed.

Lemma rq_ext s q q' : RQ s q -> (forall p, q' p = q p) -> RQ s q'.
Proof. intros [] He. constructor; try done; intros; rewrite ?He in *; eauto. Qed.

(** ** Queues as functions *)

Definition enq (q : queues) (p : Z) (x : nat) : queues := upd q p (q p ++ [x]).
Definition deq (q : queues) (x : nat) : queues := fun p => filter (fun y => y <> x) (q p).

Lemma filter_ne_notin (l : list nat) x : x ∉ l -> filter (fun y => y <> x) l = l.
Proof.
  induction l as [|y l IH]; [done|]. intros Hx. rewrite filter_cons, decide_True by set_solver. f_equal. apply IH. set_solver.
Qed.
Lemma filter_ne_middle (l1 l2 : list nat) x :
  NoDup (l1 ++ x :: l2) -> filter (fun y => y <> x) (l1 ++ x :: l2) = l1 ++ l2.
Proof.
  intros Hnd. apply NoDup_app in Hnd as (_ & H1 & H2). apply NoDup_cons in H2 as [H2 _].
  rewrite filter_app, filter_cons, decide_False by (intros Hn; by apply Hn).
  rewrite !filter_ne_notin; [done|done|]. intros Hx. by apply (H1 x Hx), list_elem_of_here.
Qed.

Lemma elem_of_deq q x y p : y ∈ deq q x p <-> y ∈ q p /\ y <> x.
Proof. unfold deq. rewrite list_elem_of_filter. tauto. Qed.
Lemma elem_of_enq q p x y p' : y ∈ enq q p x p' <-> y ∈ q p' \/ (y = x /\ p' = p).
Proof. unfold enq, upd. destruct (Z.eqb_spec p' p) as [->|]; [rewrite elem_of_app, list_elem_of_singleton|]; naive_solver. Qed.

Lemma deq_upd s q x t l1 l2 :
  RQ s q -> tcbs s !! x = Some t -> q (effective_prio t) = l1 ++ x :: l2 ->
  forall p, deq q x p = upd q (effective_prio t) (l1 ++ l2) p.
Proof.
  intros H Ht Hl p. unfold deq, upd. destruct (Z.eqb_spec p (effective_prio t)) as [->|Hne].
  - rewrite Hl. apply filter_ne_middle. rewrite <-Hl. by eapply rq_nodup.
  - apply filter_ne_notin. intros Hx. apply (rq_prio _ _ H) in Hx as (_ & t' & Ht' & He). congruence.
Qed.

Lemma dequeue_ready_queues s q x t :
  RQ s q -> tcbs s !! x = Some t -> is_queued ready_list t = true ->
  wp (PrioQueue.dequeue x) (fun _ s' => RQ s' (deq q x) /\ ready_frame s s' /\
    exists t', tcbs s' !! x = Some t' /\ rl_same ready_list t t' /\ is_queued ready_list t' = false) s.
Proof.
  intros H Ht Hq. apply (rq_queued_iff _ _ _ _ H Ht) in Hq. apply list_elem_of_split in Hq as (l1 & l2 & Hl).
  wp_call dequeue_ready_spec; [done..|]. intros _ s' (H1 & H2 & t' & Ht' & Hn). split_and!; [|done|].
  - eapply rq_ext; [done|]. by eapply deq_upd.
  - destruct (rf_tcb _ _ H2 _ _ Ht) as (t'' & Ht'' & Hs). simplify_eq. eauto.
Qed.

(** A change of effective priority: a queued thread goes to the end of its new
    queue. *)
Definition requeue (q : queues) (x : nat) (t : tcb_t) (p : Z) : queues :=
  if is_queued ready_list t then enq (deq q x) p x else q.

(** States that differ in the ready queues and in the priority of [x]. *)
Definition prio_frame (s s' : mstate) (x : nat) (p : Z) : Prop :=
  exists s1 s2 t1, ready_frame s s1 /\ tcbs s1 !! x = Some t1 /\
    s2 = set_tcbs (<[x := set_effective_prio p t1]> (tcbs s1)) s1 /\ ready_frame s2 s'.

Lemma set_effective_priority_spec s q x t p :
  RQ s q -> tcbs s !! x = Some t -> prio_ok p -> x <> idle_tcb s ->
  wp (PrioQueue.set_effective_priority x p)
     (fun _ s' => RQ s' (requeue q x t p) /\ prio_frame s s' x p) s.
Proof.
  intros H Ht Hp Hid. unfold PrioQueue.set_effective_priority, requeue.
  apply wp_bind, wp_ASSERT. { unfold prio_ok in Hp. apply andb_true_iff. split; apply Z.leb_le; lia. }
  apply wp_bind. eapply wp_get_field; [done|]. destruct (is_queued ready_list t) eqn:Eq; simpl.
  - apply wp_bind. wp_call dequeue_ready_queues; [done..|]. intros _ s1 (H1 & Hf & t1 & Ht1 & Hs1 & Hn1).
    apply wp_bind. eapply wp_put_field; [done|].
    assert (Hn2 : is_queued ready_list (set_effective_prio p t1) = false) by (by destruct t1).
    wp_call enqueue_ready_spec; [by apply (rq_wr_unqueued _ _ _ t1)|simpl; by rewrite lookup_insert_eq|done|simpl; rewrite (rf_idle _ _ Hf); done|by destruct t1|].
    intros _ s2 [H2 Hf2]. split; [by destruct t1|].
    eexists _, _, _. split_and!; [exact Hf|exact Ht1|reflexivity|exact Hf2].
  - eapply wp_put_field; [done|]. split.
    + apply (rq_wr_unqueued _ _ _ t); [done..|by destruct t].
    + eexists _, _, _. split_and!; [apply ready_frame_refl|exact Ht|reflexivity|apply ready_frame_refl].
Qed.

End rq.
