(* ===== verification/MicroBlocked.v ===== *)
(** * The queues of synchronisation points

    A synchronisation point represents the list of the threads that are
    blocked on it, highest effective priority first and in order of arrival
    among equals ([enqueue_tcb_sorted]). *)

From S2P Require Import Prelude Rings Queueing MicroLib MicroState MicroSched MicroReady.
#[local] Open Scope Z_scope.

(** The effective priority of a thread. *)
Definition prio (s : mstate) (x : nat) : Z := default 0 (effective_prio <$> tcbs s !! x).

(** The place of a new thread of priority [p]: behind those of at least its
    priority. *)
Fixpoint insert_by (pr : nat -> Z) (p : Z) (x : nat) (l : list nat) : list nat :=
  match l with
  | [] => [x]
  | y :: l' => if p <=? pr y then y :: insert_by pr p x l' else x :: l
  end.

Definition sorted_by (pr : nat -> Z) (l : list nat) : Prop := StronglySorted (fun x y => pr y <= pr x) l.

Section insert_by.
Implicit Types (pr : nat -> Z) (l : list nat).

Lemma insert_by_split pr p x l :
  exists l1 l2, l = l1 ++ l2 /\ insert_by pr p x l = l1 ++ x :: l2 /\
    Forall (fun y => p <= pr y) l1 /\ (forall y l', l2 = y :: l' -> pr y < p).
Proof.
  induction l as [|y l (l1 & l2 & -> & IH & H1 & H2)]; simpl.
  - by exists [], [].
  - destruct (Z.leb_spec p (pr y)) as [Hle|Hlt].
    + exists (y :: l1), l2. rewrite IH. split_and!; [done|done|by constructor|done].
    + exists [], (y :: l1 ++ l2). split_and!; [done|done|constructor|]. intros y' l' [= <- <-]. done.
Qed.

Lemma insert_by_unique pr p x k1 k2 :
  Forall (fun y => p <= pr y) k1 -> (forall y k, k2 = y :: k -> pr y < p) ->
  insert_by pr p x (k1 ++ k2) = k1 ++ x :: k2.
Proof.
  intros H1 H2. induction H1 as [|y k1 Hy H1 IH]; simpl.
  - destruct k2 as [|y k2]; [done|]. simpl. destruct (Z.leb_spec p (pr y)); [|done]. specialize (H2 y k2 eq_refl). lia.
  - destruct (Z.leb_spec p (pr y)); [by rewrite IH|lia].
Qed.

Lemma elem_of_insert_by pr p x l y : y ∈ insert_by pr p x l <-> y = x \/ y ∈ l.
Proof. destruct (insert_by_split pr p x l) as (l1 & l2 & -> & -> & _). set_solver. Qed.

Lemma NoDup_insert_by pr p x l : NoDup l -> x ∉ l -> NoDup (insert_by pr p x l).
Proof.
  destruct (insert_by_split pr p x l) as (l1 & l2 & -> & -> & _). intros Hnd Hx.
  rewrite <-Permutation_middle. by constructor.
Qed.

Lemma sorted_insert_by pr p x l : sorted_by pr l -> pr x = p -> sorted_by pr (insert_by pr p x l).
Proof.
  intros Hs Hx. destruct (insert_by_split pr p x l) as (l1 & l2 & -> & -> & H1 & H2).
  apply StronglySorted_middle. split_and!; [done| |].
  - eapply Forall_impl; [done|]. simpl. lia.
  - destruct l2 as [|y l2]; [constructor|]. specialize (H2 y l2 eq_refl).
    apply StronglySorted_app_1_r in Hs. apply StronglySorted_inv in Hs as [_ Hs]. constructor; [lia|].
    eapply Forall_impl; [exact Hs|]. simpl. lia.
Qed.

Lemma sorted_by_filter pr l (x : nat) : sorted_by pr l -> sorted_by pr (filter (fun y => y <> x) l).
Proof.
  unfold sorted_by. induction 1 as [|y l Hs IH Hf]; [constructor|]. rewrite filter_cons. case_decide; [|done].
  constructor; [done|]. apply Forall_forall. intros z Hz. apply list_elem_of_filter in Hz as [_ Hz].
  by eapply Forall_forall in Hf.
Qed.

Lemma sorted_by_ext pr pr' l : sorted_by pr l -> (forall x, x ∈ l -> pr' x = pr x) -> sorted_by pr' l.
Proof.
  unfold sorted_by. induction 1 as [|y l Hs IH Hf]; [constructor|]. intros He. constructor; [apply IH; set_solver|].
  apply Forall_forall. intros z Hz. eapply Forall_forall in Hf; [|done]. rewrite !He by set_solver. done.
Qed.

(** The head of a sorted queue has the highest priority on it. *)
Lemma sorted_by_head pr x l y : sorted_by pr (x :: l) -> y ∈ x :: l -> pr y <= pr x.
Proof.
  intros Hs Hy. apply StronglySorted_inv in Hs as [_ Hf]. apply elem_of_cons in Hy as [->|Hy]; [done|].
  by eapply Forall_forall in Hf.
Qed.

Lemma insert_by_ext pr pr' p x l : (forall y, y ∈ l -> pr' y = pr y) -> insert_by pr' p x l = insert_by pr p x l.
Proof. induction l as [|y l IH]; [done|]. intros He. simpl. rewrite He by set_solver. rewrite IH by set_solver. done. Qed.

End insert_by.

(** ** The invariant *)

Record BQ (s : mstate) (b : sync_ptr -> list nat) : Prop := {
  bq_ring sp v : syncpoints s !! sp = Some v -> rl_queue blocked_list (tcbs s) (blocked_head v) (b sp);
  bq_out sp : syncpoints s !! sp = None -> b sp = [];
  bq_wait x t sp : tcbs s !! x = Some t -> x ∈ b sp <-> waiting_for t = Some sp;
  bq_link x t : tcbs s !! x = Some t -> waiting_for t = None -> blocked_next t = None
}.

Definition upd_sp {A} (b : sync_ptr -> A) (sp : sync_ptr) (l : A) : sync_ptr -> A :=
  fun sp' => if decide (sp' = sp) then l else b sp'.

Lemma upd_sp_eq {A} (b : sync_ptr -> A) sp l : upd_sp b sp l sp = l.
Proof. unfold upd_sp. by rewrite decide_True. Qed.
Lemma upd_sp_ne {A} (b : sync_ptr -> A) sp l sp' : sp' <> sp -> upd_sp b sp l sp' = b sp'.
Proof. unfold upd_sp. intros. by rewrite decide_False. Qed.

(** What a thread is apart from what it waits for. *)
Definition wait_same (t t' : tcb_t) : Prop :=
  forall (A : Type) (g : tcb_t -> A),
    (forall p w, g (set_blocked_next p w) = g w) -> (forall p w, g (set_blocked_prev p w) = g w) ->
    (forall p w, g (set_waiting_for p w) = g w) -> g t' = g t.

(** States that differ in the queue of [sp] only. *)
Record wait_frame (sp : sync_ptr) (s s' : mstate) : Prop := {
  wf_mutexes : mutexes s' = mutexes s;
  wf_queue : prio_queue s' = prio_queue s;
  wf_index : index_bitmap s' = index_bitmap s;
  wf_bitmap : prio_bitmap s' = prio_bitmap s;
  wf_violated : scheduling_invariants_violated s' = scheduling_invariants_violated s;
  wf_current : current_tcb s' = current_tcb s;
  wf_schedule : current_schedule s' = current_schedule s;
  wf_idle : idle_tcb s' = idle_tcb s;
  wf_activated : activated s' = activated s;
  wf_none x : tcbs s !! x = None -> tcbs s' !! x = None;
  wf_tcb x t : tcbs s !! x = Some t -> exists t', tcbs s' !! x = Some t' /\ wait_same t t';
  wf_sync_ne sp' : sp' <> sp -> syncpoints s' !! sp' = syncpoints s !! sp';
  wf_donatee : donatee <$> syncpoints s' !! sp = donatee <$> syncpoints s !! sp
}.

Lemma wait_same_refl t : wait_same t t.
Proof. by intros A g _ _ _. Qed.
Lemma wait_same_trans t1 t2 t3 : wait_same t1 t2 -> wait_same t2 t3 -> wait_same t1 t3.
Proof. intros H1 H2 A g Ha Hb Hc. by rewrite (H2 A g), (H1 A g). Qed.
Lemma wait_same_blocked t t' : rl_same blocked_list t t' -> wait_same t t'.
Proof. intros H A g Ha Hb _. by apply (H A g). Qed.
Lemma wait_same_waiting t w : wait_same t (set_waiting_for w t).
Proof. intros A g _ _ Hc. apply Hc. Qed.

Lemma wait_same_eff t t' : wait_same t t' -> effective_prio t' = effective_prio t.
Proof. intros H. apply (H Z effective_prio); by intros ? []. Qed.
Lemma wait_same_view t t' : wait_same t t' -> ready_view t' = ready_view t.
Proof. intros H. apply (H _ ready_view); by intros ? []. Qed.

Lemma wait_frame_refl sp s : wait_frame sp s s.
Proof. constructor; eauto using wait_same_refl. Qed.
Lemma wait_frame_trans sp s1 s2 s3 : wait_frame sp s1 s2 -> wait_frame sp s2 s3 -> wait_frame sp s1 s3.
Proof.
  intros [] []. constructor; try congruence; [by eauto| |].
  - intros x t Ht. destruct (wf_tcb0 _ _ Ht) as (t' & Ht' & Hs). destruct (wf_tcb1 _ _ Ht') as (t'' & Ht'' & Hs').
    eauto using wait_same_trans.
  - intros sp' Hne. by rewrite wf_sync_ne1, wf_sync_ne0.
Qed.

Lemma wait_frame_prio sp s s' x : wait_frame sp s s' -> prio s' x = prio s x.
Proof.
  intros H. unfold prio. destruct (tcbs s !! x) as [t|] eqn:Ht.
  - destruct (wf_tcb _ _ _ H _ _ Ht) as (t' & -> & Hs). simpl. by rewrite (wait_same_eff _ _ Hs).
  - by rewrite (wf_none _ _ _ H).
Qed.

(** The ready queues do not notice. *)
Lemma wait_frame_rq sp s s' q : wait_frame sp s s' -> RQ s q -> RQ s' q.
Proof.
  intros H Hq. destruct H. eapply rq_frame; [done..|]. intros x. destruct (tcbs s !! x) as [t|] eqn:Ht.
  - destruct (wf_tcb0 _ _ Ht) as (t' & -> & Hs). simpl. by rewrite (wait_same_view _ _ Hs).
  - by rewrite wf_none0.
Qed.

(** ** Enqueueing by priority *)

Section enqueue.
Implicit Types (s : mstate) (x y : nat) (sp : sync_ptr) (l : list nat).

#[local] Abbreviation bnxt := (nxt (L := rl_links blocked_list)).
#[local] Abbreviation bprv := (prv (L := rl_links blocked_list)).
#[local] Abbreviation bring := (ring (L := rl_links blocked_list)).

Lemma wp_wr_alter x g Q s :
  is_Some (tcbs s !! x) -> Q tt (set_tcbs (alter g x (tcbs s)) s) -> wp (wr (Some x) g) Q s.
Proof. intros Hs HQ. apply wp_on_tcbs. by apply wp_obj_set. Qed.

Lemma wp_rd_bnext x n Q s : bnxt (tcbs s) x = Some n -> Q n s -> wp (rd (Some x) blocked_next) Q s.
Proof.
  intros Hn HQ. apply wp_on_tcbs. apply (wp_obj_next blocked_list x n); [done|]. by rewrite set_tcbs_same.
Qed.
Lemma wp_rd_bprev x n Q s : bprv (tcbs s) x = Some n -> Q n s -> wp (rd (Some x) blocked_prev) Q s.
Proof.
  intros Hn HQ. apply wp_on_tcbs. apply (wp_obj_prev blocked_list x n); [done|]. by rewrite set_tcbs_same.
Qed.

Lemma wp_rd_prio x Q s : is_Some (tcbs s !! x) -> Q (prio s x) s -> wp (rd (Some x) effective_prio) Q s.
Proof. intros [t Ht] HQ. eapply wp_get_field; [done|]. unfold prio in HQ. by rewrite Ht in HQ. Qed.

(** Where a thread stands on its ring. *)
Lemma ring_next_at m l1 y l2 :
  bring m (l1 ++ y :: l2) -> bnxt m y = Some (Some (default (default y (head l1)) (head l2))).
Proof.
  intros Hr. apply ring_rotate in Hr. simpl in Hr.
  rewrite (ring_head_next (L := rl_links blocked_list) m y (l2 ++ l1) Hr). by destruct l2, l1.
Qed.

(** The search stops at the first thread below [p], or back at the head. *)
Lemma find_place_spec s fuel p first l1 y l2 :
  bring (tcbs s) (l1 ++ y :: l2) -> first = default y (head l1) -> NoDup (l1 ++ y :: l2) ->
  (length (y :: l2) <= fuel)%nat ->
  wp (Sync.find_place fuel p (Some first) (Some y)) (fun r s' => s' = s /\
    exists k1 k2, y :: l2 = k1 ++ k2 /\ Forall (fun z => p <= prio s z) k1 /\
      (forall z k, k2 = z :: k -> prio s z < p) /\ r = Some (default first (head k2))) s.
Proof.
  revert l1 y l2. induction fuel as [|fuel IH]; intros l1 y l2 Hr Hf Hnd Hlen; [simpl in Hlen; lia|].
  assert (Hys : is_Some (tcbs s !! y)) by (eapply (ring_is_Some blocked_list); [exact Hr|set_solver]).
  cbn [Sync.find_place]. apply wp_bind. apply wp_rd_prio; [done|].
  destruct (Z.leb_spec p (prio s y)) as [Hle|Hlt].
  - apply wp_bind. eapply wp_rd_bnext; [by apply ring_next_at|].
    destruct l2 as [|z l2]; simpl.
    + rewrite <-Hf. rewrite bool_decide_eq_true_2 by done. apply wp_ret. split; [done|].
      exists [y], []. split_and!; [done|by constructor|done|done].
    + rewrite bool_decide_eq_false_2; last first.
      { intros [= ->]. rewrite Hf in Hnd. destruct l1 as [|a l1]; simpl in Hnd.
        - apply NoDup_cons in Hnd. set_solver.
        - apply NoDup_cons in Hnd. set_solver. }
      wp_call (IH (l1 ++ [y]) z l2).
      * by rewrite <-app_assoc.
      * destruct l1; done.
      * by rewrite <-app_assoc.
      * simpl in *. lia.
      * intros r s' (-> & k1 & k2 & Hk & Hi & Hlow & Hr'). split; [done|]. exists (y :: k1), k2. simpl. rewrite <-Hk.
        split_and!; [done|by constructor|done|done].
  - apply wp_ret. split; [done|]. exists [], (y :: l2). split_and!; [done|constructor|naive_solver|done].
Qed.

Lemma enqueue_tcb_sorted_spec s sp v x t l :
  syncpoints s !! sp = Some v -> rl_queue blocked_list (tcbs s) (blocked_head v) l ->
  tcbs s !! x = Some t -> x ∉ l ->
  wp (Sync.enqueue_tcb_sorted sp x) (fun _ s' => exists m' h',
    s' = set_tcbs m' (set_syncpoints (<[sp := set_blocked_head h' v]> (syncpoints s)) s) /\
    rl_queue blocked_list m' h' (insert_by (prio s) (effective_prio t) x l) /\
    rl_frame blocked_list (x :: l) (tcbs s) m') s.
Proof.
  intros Hv (Hh & Hnd & Hr) Ht Hx. unfold Sync.enqueue_tcb_sorted.
  apply wp_bind. eapply wp_get_field; [done|]. apply wp_bind. eapply wp_rd_sync; [done|]. rewrite Hh.
  destruct l as [|first l]; simpl hd_error.
  { rewrite bool_decide_eq_true_2 by done.
    apply wp_bind. eapply wp_wr_sync; [done|]. apply wp_bind. apply wp_wr_alter; [by eexists|]. simpl.
    apply wp_wr_alter; simpl; [apply is_Some_alter_store; by eexists|].
    set (m' := alter _ x _). exists m', (Some x). split; [by destruct s|].
    assert (Hm : bring m' [x] /\ rl_frame blocked_list [x] (tcbs s) m').
    { unfold m'. split.
      - apply ring_singleton.
        + change (set_blocked_prev (Some x)) with (rl_set_prev blocked_list (Some x)). rewrite (nxt_set_prev blocked_list).
          change (set_blocked_next (Some x)) with (rl_set_next blocked_list (Some x)).
          rewrite (nxt_set_next blocked_list) by (by eexists). by rewrite decide_True.
        + change (set_blocked_prev (Some x)) with (rl_set_prev blocked_list (Some x)).
          rewrite (prv_set_prev blocked_list) by (apply is_Some_alter_store; by eexists). by rewrite decide_True.
      - apply (rl_frame_alter blocked_list); [|apply list_elem_of_here|apply (rl_same_set_prev blocked_list)].
        apply (rl_frame_alter blocked_list); [|apply list_elem_of_here|apply (rl_same_set_next blocked_list)]. apply rl_frame_refl. }
    destruct Hm as [Hm1 Hm2]. split; [|done]. split_and!; [done|apply NoDup_singleton|done]. }
  rewrite bool_decide_eq_false_2 by done. apply wp_bind, wp_gets. apply wp_bind.
  wp_call (find_place_spec s _ (effective_prio t) first [] first l); [done|done|done| |].
  { apply nodup_length_size; [done|]. intros a Ha. by eapply (ring_is_Some blocked_list). }
  intros r s' (-> & k1 & k2 & Hk & H1 & H2 & ->).
  set (h := default first (head k2)).
  assert (exists r', k2 ++ k1 = h :: r') as [r' Hr'].
  { unfold h. destruct k2 as [|z k2]; simpl; [|by eexists]. rewrite app_nil_r in Hk. subst k1. simpl. by eexists. }
  assert (Hrot : bring (tcbs s) (h :: r')). { rewrite <-Hr'. apply ring_rotate. by rewrite <-Hk. }
  assert (Hndr : NoDup (h :: r')). { rewrite <-Hr', Permutation_app_comm. by rewrite <-Hk. }
  assert (Hin : forall y, y ∈ h :: r' <-> y ∈ first :: l). { intros y. rewrite <-Hr', Hk. set_solver. }
  assert (Hxr : x ∉ h :: r') by (by rewrite Hin).
  pose proof (ring_head_prev (L := rl_links blocked_list) _ _ _ Hrot) as Hprev.
  set (z := default h (last r')) in *.
  destruct (rl_insert_ring blocked_list (tcbs s) h r' x z Hndr Hrot Hxr ltac:(by eexists) eq_refl) as [Hm1 Hm2].
  assert (Hzs : z ∈ h :: r').
  { unfold z. destruct (last r') eqn:E; simpl; [apply last_Some_elem_of in E; set_solver|set_solver]. }
  assert (Hhs : is_Some (tcbs s !! h)) by (eapply (ring_is_Some blocked_list); [exact Hrot|set_solver]).
  assert (Hzss : is_Some (tcbs s !! z)) by (eapply (ring_is_Some blocked_list); [exact Hrot|done]).
  assert (Hxs : is_Some (tcbs s !! x)) by (by eexists).
  assert (Hxh : x <> h) by set_solver.
  apply wp_bind, wp_wr_alter; [done|]. simpl.
  apply wp_bind. apply (wp_rd_bprev h (Some z)); simpl.
  { change (set_blocked_next (Some h)) with (rl_set_next blocked_list (Some h)). by rewrite (prv_set_next blocked_list). }
  apply wp_bind, wp_wr_alter; simpl; [by apply is_Some_alter_store|].
  apply wp_bind. apply (wp_rd_bprev h (Some z)); simpl.
  { change (set_blocked_prev (Some z)) with (rl_set_prev blocked_list (Some z)).
    rewrite (prv_set_prev blocked_list) by (by apply is_Some_alter_store). rewrite decide_False by done.
    change (set_blocked_next (Some h)) with (rl_set_next blocked_list (Some h)). by rewrite (prv_set_next blocked_list). }
  apply wp_bind, wp_wr_alter; simpl; [by do 2 apply is_Some_alter_store|].
  apply wp_bind, wp_wr_alter; simpl; [by do 3 apply is_Some_alter_store|].
  apply wp_bind. eapply wp_rd_sync; [simpl; done|]. rewrite Hh. simpl hd_error.
  set (m' := alter (set_blocked_prev (Some x)) h _).
  assert (Hfr : rl_frame blocked_list (x :: first :: l) (tcbs s) m').
  { eapply rl_frame_weaken; [exact Hm2|]. intros y Hy. apply elem_of_app in Hy as [Hy|Hy]; [apply Hin in Hy|]; set_solver. }
  assert (Hpf : prio (set_tcbs m' s) first = prio s first).
  { unfold prio. simpl. assert (is_Some (tcbs s !! first)) as [tf Htf] by (eapply (ring_is_Some blocked_list); [exact Hr|set_solver]).
    destruct Hfr as [_ Hfr]. destruct (Hfr _ _ Htf) as (tf' & -> & Hs). rewrite Htf. simpl.
    apply (Hs Z effective_prio); by intros ? []. }
  apply wp_bind. apply wp_rd_prio; simpl.
  { assert (is_Some (tcbs s !! first)) as [tf Htf] by (eapply (ring_is_Some blocked_list); [exact Hr|set_solver]).
    destruct Hfr as [_ Hfr]. destruct (Hfr _ _ Htf) as (tf' & Htf' & _). by eexists. }
  replace (prio (set_tcbs m' (set_tcbs _ _)) first) with (prio s first) by (symmetry; exact Hpf).
  assert (Hins : insert_by (prio s) (effective_prio t) x (first :: l) = k1 ++ x :: k2).
  { rewrite Hk. by apply insert_by_unique. }
  assert (Hring : bring m' (k1 ++ x :: k2)).
  { rewrite <-Hr' in Hm1. rewrite <-app_assoc in Hm1. apply ring_rotate in Hm1.
    rewrite <-app_assoc in Hm1. exact Hm1. }
  assert (Hndi : NoDup (insert_by (prio s) (effective_prio t) x (first :: l))) by (by apply NoDup_insert_by).
  assert (Hns : forall st, set_tcbs m' (set_tcbs (alter (set_blocked_next (Some x)) z
     (alter (set_blocked_prev (Some z)) x (alter (set_blocked_next (Some h)) x (tcbs s)))) st) = set_tcbs m' st) by done.
  destruct (Z.ltb_spec (prio s first) (effective_prio t)) as [Hlt|Hge].
  - assert (k1 = []) as ->.
    { destruct k1 as [|a k1]; [done|]. simpl in Hk. simplify_eq. apply Forall_cons in H1 as [H1 _]. lia. }
    eapply wp_wr_sync; [simpl; done|]. exists m', (Some x). split; [by destruct s|].
    split; [|done]. rewrite <-Hins in Hring. split_and!; [by change (Some x = hd_error (insert_by (prio s) (effective_prio t) x (first :: l))); rewrite Hins|done|done].
  - assert (exists k1', k1 = first :: k1') as [k1' ->].
    { destruct k1 as [|a k1]; [|simpl in Hk; simplify_eq; by eexists]. simpl in Hk. subst k2. specialize (H2 _ _ eq_refl). lia. }
    apply wp_ret. exists m', (Some first). split.
    + assert (set_blocked_head (Some first) v = v) as -> by (destruct v; simpl in *; by rewrite Hh).
      rewrite insert_id by done. by destruct s.
    + split; [|done]. rewrite <-Hins in Hring. split_and!; [by change (Some first = hd_error (insert_by (prio s) (effective_prio t) x (first :: l))); rewrite Hins|done|done].
Qed.

End enqueue.

(** ** Blocking and unblocking on the queues *)

Section blocked.
Implicit Types (s : mstate) (x y : nat) (sp : sync_ptr) (b : sync_ptr -> list nat).

Lemma bq_in_tcbs s b sp x : BQ s b -> x ∈ b sp -> is_Some (tcbs s !! x).
Proof.
  intros H Hx. destruct (syncpoints s !! sp) as [v|] eqn:Hv; [|rewrite (bq_out _ _ H _ Hv) in Hx; set_solver].
  destruct (bq_ring _ _ H _ _ Hv) as (_ & _ & Hr). by eapply (ring_is_Some blocked_list).
Qed.

Lemma bq_nodup s b sp : BQ s b -> NoDup (b sp).
Proof.
  intros H. destruct (syncpoints s !! sp) as [v|] eqn:Hv; [|rewrite (bq_out _ _ H _ Hv); constructor].
  by destruct (bq_ring _ _ H _ _ Hv) as (_ & ? & _).
Qed.

Lemma bq_waiting s b sp x : BQ s b -> x ∈ b sp -> exists t, tcbs s !! x = Some t /\ waiting_for t = Some sp.
Proof.
  intros H Hx. destruct (bq_in_tcbs _ _ _ _ H Hx) as [t Ht]. exists t. split; [done|]. by apply (bq_wait _ _ H _ _ _ Ht).
Qed.

(** A thread waits on one queue. *)
Lemma bq_unique s b sp sp' x : BQ s b -> x ∈ b sp -> x ∈ b sp' -> sp = sp'.
Proof.
  intros H H1 H2. destruct (bq_waiting _ _ _ _ H H1) as (t & Ht & Hw). apply (bq_wait _ _ H _ _ _ Ht) in H2. congruence.
Qed.

(** The new store of threads, with [x] waiting for [w] and the ring of [sp]
    being [l'], makes a [BQ] again. *)
Lemma bq_change s b sp v x t m' h' w l' :
  BQ s b -> syncpoints s !! sp = Some v -> tcbs s !! x = Some t ->
  rl_queue blocked_list m' h' l' -> rl_frame blocked_list (x :: b sp) (tcbs s) m' ->
  (forall y, y <> x -> y ∈ l' <-> y ∈ b sp) -> (x ∈ l' <-> w = Some sp) ->
  (forall sp', sp' <> sp -> x ∉ b sp') -> (w = None -> nxt (L := rl_links blocked_list) m' x = Some None) ->
  (w = None \/ w = Some sp) ->
  let s' := set_tcbs (alter (set_waiting_for w) x m') (set_syncpoints (<[sp := set_blocked_head h' v]> (syncpoints s)) s) in
  BQ s' (upd_sp b sp l') /\ wait_frame sp s s'.
Proof.
  intros H Hv Ht Hq [Hf1 Hf2] Hl Hx Hoth Hnx Hw s'.
  assert (Hlinks : forall y, nxt (L := rl_links blocked_list) (tcbs s') y = nxt (L := rl_links blocked_list) m' y /\
                             prv (L := rl_links blocked_list) (tcbs s') y = prv (L := rl_links blocked_list) m' y).
  { intros y. unfold s', nxt, prv. simpl. destruct (decide (x = y)) as [->|]; [|by rewrite lookup_alter_ne].
    rewrite lookup_alter_eq. by destruct (m' !! y) as [[]|]. }
  assert (Hsame : forall y ty, tcbs s !! y = Some ty -> exists ty', tcbs s' !! y = Some ty' /\ wait_same ty ty' /\
             waiting_for ty' = (if decide (y = x) then w else waiting_for ty)).
  { intros y ty Hty. destruct (Hf2 _ _ Hty) as (ty' & Hty' & Hs). unfold s'. simpl. case_decide as E.
    - subst y. rewrite lookup_alter_eq, Hty'. eexists. split; [done|]. split; [|by destruct ty'].
      eapply wait_same_trans; [by apply wait_same_blocked|apply wait_same_waiting].
    - rewrite lookup_alter_ne by done. exists ty'. split; [done|]. split; [by apply wait_same_blocked|].
      apply (Hs _ waiting_for); by intros ? []. }
  assert (Hnone : forall y, tcbs s !! y = None -> tcbs s' !! y = None).
  { intros y Hy. unfold s'. simpl. assert (y <> x) by congruence. rewrite lookup_alter_ne, Hf1; [done| |done].
    apply not_elem_of_cons. split; [done|]. intros Hin. destruct (bq_in_tcbs _ _ _ _ H Hin). congruence. }
  split.
  - constructor.
    + intros sp' v' Hv'. unfold s' in Hv'. simpl in Hv'. destruct (decide (sp' = sp)) as [->|Hne].
      * rewrite lookup_insert_eq in Hv'. simplify_eq. rewrite upd_sp_eq. eapply rl_queue_frame; [exact Hq|]. intros y _. apply Hlinks.
      * rewrite lookup_insert_ne in Hv' by done. rewrite upd_sp_ne by done. eapply rl_queue_frame; [by apply (bq_ring _ _ H)|].
        intros y Hy. destruct (Hlinks y) as [-> ->]. unfold nxt, prv. rewrite Hf1; [done|].
        apply not_elem_of_cons. split; [intros ->; by apply (Hoth sp')|]. intros Hin. apply Hne. by eapply bq_unique.
    + intros sp' Hn. unfold s' in Hn. simpl in Hn. assert (sp' <> sp) by (intros ->; by rewrite lookup_insert_eq in Hn).
      rewrite lookup_insert_ne in Hn by done. rewrite upd_sp_ne by done. by apply (bq_out _ _ H).
    + intros y ty' sp' Hty'. destruct (tcbs s !! y) as [ty|] eqn:Hty; [|by rewrite Hnone in Hty'].
      destruct (Hsame _ _ Hty) as (t0 & Ht0 & _ & Hw0). simplify_eq. rewrite Hw0. pose proof (bq_wait _ _ H _ _ sp' Hty) as Hbw.
      destruct (decide (sp' = sp)) as [->|Hne].
      * rewrite upd_sp_eq. case_decide as E; [by subst y|]. by rewrite Hl.
      * rewrite upd_sp_ne by done. case_decide as E; [subst y|done]. split; [|intros ->; naive_solver]. intros Hin.
        by apply Hoth in Hin.
    + intros y ty' Hty' Hwn. destruct (tcbs s !! y) as [ty|] eqn:Hty; [|by rewrite Hnone in Hty'].
      destruct (Hsame _ _ Hty) as (t0 & Ht0 & _ & Hw0). simplify_eq. rewrite Hwn in Hw0. case_decide as E.
      * subst y. symmetry in Hw0. specialize (Hnx Hw0). destruct (Hlinks x) as [Hnl _]. rewrite Hnx in Hnl. unfold nxt in Hnl.
        rewrite Hty' in Hnl. simpl in Hnl. congruence.
      * symmetry in Hw0. pose proof (bq_link _ _ H _ _ Hty Hw0) as Hb. destruct (Hlinks y) as [Hnl _].
        assert (Hnb : forall sp', y ∉ b sp') by (intros sp' Hin; apply (bq_wait _ _ H _ _ _ Hty) in Hin; congruence).
        unfold nxt in Hnl. rewrite Hty', Hf1, Hty in Hnl; [simpl in Hnl; congruence|]. apply not_elem_of_cons. by split.
  - constructor; try done.
    + intros y ty Hty. destruct (Hsame _ _ Hty) as (ty' & Hty' & Hs & _). eauto.
    + intros sp' Hne. unfold s'. simpl. by rewrite lookup_insert_ne.
    + unfold s'. simpl. by rewrite lookup_insert_eq, Hv.
Qed.

Lemma enqueue_blocked_spec s b sp v x t :
  BQ s b -> syncpoints s !! sp = Some v -> tcbs s !! x = Some t -> waiting_for t = None ->
  wp (Sync.enqueue_blocked sp x) (fun _ s' =>
    BQ s' (upd_sp b sp (insert_by (prio s) (effective_prio t) x (b sp))) /\ wait_frame sp s s') s.
Proof.
  intros H Hv Ht Hw. assert (Hnx : forall sp', x ∉ b sp').
  { intros sp' Hin. apply (bq_wait _ _ H _ _ _ Ht) in Hin. congruence. }
  unfold Sync.enqueue_blocked. apply wp_bind. eapply wp_get_field; [done|]. apply wp_bind, wp_ASSERT; [by apply bool_decide_eq_true|].
  apply wp_bind. eapply wp_get_field; [done|]. apply wp_bind, wp_ASSERT; [apply bool_decide_eq_true; by eapply bq_link|].
  apply wp_bind. wp_call enqueue_tcb_sorted_spec; [done|by apply (bq_ring _ _ H)|done|done|].
  intros _ s1 (m' & h' & -> & Hq & Hf). apply wp_wr_alter; simpl.
  { eapply (rl_frame_is_Some blocked_list); [exact Hf|by eexists]. }
  eapply (bq_change s b sp v x t m' h' (Some sp)); try done; [intros y Hy|split|by right].
  - rewrite elem_of_insert_by. naive_solver.
  - done.
  - intros _. apply elem_of_insert_by. by left.
Qed.

Lemma dequeue_blocked_spec s b sp x t :
  BQ s b -> tcbs s !! x = Some t -> waiting_for t = Some sp ->
  wp (Sync.dequeue_blocked sp x) (fun _ s' =>
    BQ s' (upd_sp b sp (filter (fun y => y <> x) (b sp))) /\ wait_frame sp s s' /\
    exists t', tcbs s' !! x = Some t' /\ waiting_for t' = None) s.
Proof.
  intros H Ht Hw. assert (Hin : x ∈ b sp) by (by apply (bq_wait _ _ H _ _ _ Ht)).
  destruct (syncpoints s !! sp) as [v|] eqn:Hv; [|rewrite (bq_out _ _ H _ Hv) in Hin; set_solver].
  pose proof (bq_ring _ _ H _ _ Hv) as Hq. pose proof (bq_nodup _ _ sp H) as Hnd.
  apply list_elem_of_split in Hin as Hsp. destruct Hsp as (l1 & l2 & Hl).
  unfold Sync.dequeue_blocked. apply wp_bind. eapply wp_get_field; [done|]. apply wp_bind, wp_ASSERT; [by apply bool_decide_eq_true|].
  apply wp_bind. eapply wp_get_field; [done|]. apply wp_bind, wp_ASSERT.
  { pose proof (rl_queue_queued blocked_list _ _ _ _ _ Hq Hin Ht) as Hqd. exact Hqd. }
  apply wp_bind. eapply wp_rd_sync; [done|]. apply wp_bind, wp_on_tcbs. rewrite Hl in Hq, Hnd.
  eapply wp_mono; [apply dequeue_spec; [apply _|exact Hq]|]. intros h' m' (Hq' & Hf & Hnx & _).
  apply wp_bind. eapply wp_wr_sync; [simpl; done|]. simpl.
  assert (Hsm : is_Some (m' !! x)) by (eapply (rl_frame_is_Some blocked_list); [exact Hf|by eexists]).
  apply wp_wr_alter; simpl; [done|].
  destruct (bq_change s b sp v x t m' h' None (l1 ++ l2)) as [HB HF]; try done.
  - eapply rl_frame_weaken; [exact Hf|]. rewrite Hl. set_solver.
  - intros y Hy. rewrite Hl. set_solver.
  - split; [|done]. intros Hx. rewrite <-Permutation_middle in Hnd. apply NoDup_cons in Hnd as [Hnd _]. done.
  - intros sp' Hne Hin'. apply Hne. by eapply bq_unique.
  - by left.
  - rewrite Hl, filter_ne_middle by done.
    split_and!; [by destruct s|by destruct s|]. destruct Hsm as [t' Ht']. rewrite lookup_alter_eq, Ht'. simpl.
    eexists. split; [done|]. by destruct t'.
Qed.

End blocked.
