(* ===== verification/MicroInherit.v ===== *)
(** * Priority inheritance

    With [CONFIG_SCHEDULE_INHERITANCE] a thread runs at the highest of its
    own priority and of the effective priorities of the threads that wait for
    it, directly or through others.  This file states that equation, and
    proves that [calc_effective_priority] computes its right-hand side and
    that the two propagation loops of [syncpoint.cc] end and restore it,
    also when threads wait for each other in a cycle. *)

From S2P Require Import Prelude Rings Queueing MicroLib MicroState MicroSched MicroReady MicroBlocked.
#[local] Open Scope Z_scope.

(** ** Who holds what *)

(** The thread that inherits from the threads blocked on [sp]. *)
Definition don (s : mstate) (sp : sync_ptr) : ptr := syncpoints s !! sp ≫= donatee.

Section invariant.
Context {cfg : MicroConfig}.
Implicit Types (s : mstate) (b : sync_ptr -> list nat) (h : nat -> list nat) (x y : nat).

(** The rings of held mutexes agree with the mutexes' holders. *)
Record HQ s h : Prop := {
  hq_ring x t : tcbs s !! x = Some t -> rl_queue held_list (mutexes s) (mutexes_head t) (h x);
  hq_holder x m : m ∈ h x <-> don s (MutexSync m) = Some x;
  hq_send x : is_Some (tcbs s !! x) -> don s (SendQueue x) = Some x;
  hq_recv x : schedule_inheritance = true -> is_Some (tcbs s !! x) -> don s (RecvQueue x) = Some x;
  hq_endpoint x y : don s (SendQueue x) = Some y \/ don s (RecvQueue x) = Some y -> x = y;
  hq_tcb sp x : don s sp = Some x -> is_Some (tcbs s !! x)
}.

(** [y] is blocked on something that [x] holds. *)
Definition waits s b y x : Prop := exists sp, y ∈ b sp /\ don s sp = Some x.

Definition base s x : Z := default 0 (base_prio <$> tcbs s !! x).

(** The right-hand side of the equation: [p] is the maximum of the base
    priority of [x] and of the priorities of the threads that wait for it. *)
Definition inherited s b x p : Prop :=
  base s x <= p /\ (forall y, waits s b y x -> prio s y <= p) /\
  (p = base s x \/ exists y, waits s b y x /\ prio s y = p).

Record PI0 s b h : Prop := {
  pi_bq : BQ s b;
  pi_hq : HQ s h;
  pi_rq : exists q, RQ s q;
  pi_sorted sp : sorted_by (prio s) (b sp);
  pi_range x t : tcbs s !! x = Some t -> x <> idle_tcb s -> prio_ok (base_prio t) /\ prio_ok (effective_prio t);
  pi_idle y sp : y ∈ b sp -> y <> idle_tcb s /\ don s sp <> Some (idle_tcb s)
}.

(** The inheritance equation at [x]. *)
Definition PI_at s b x : Prop := is_Some (tcbs s !! x) -> x <> idle_tcb s -> inherited s b x (prio s x).

Definition PI s b : Prop := forall x, PI_at s b x.

Lemma inherited_unique s b x p p' : inherited s b x p -> inherited s b x p' -> p = p'.
Proof.
  intros (A1 & A2 & A3) (B1 & B2 & B3).
  assert (p <= p') by (destruct A3 as [->|(y & Hy & <-)]; [done|by apply B2]).
  assert (p' <= p) by (destruct B3 as [->|(y & Hy & <-)]; [done|by apply A2]). lia.
Qed.

(** The equation depends on the base priority, the waiting threads and their
    priorities. *)
Lemma inherited_ext s s' b b' x p :
  base s' x = base s x -> (forall y, waits s' b' y x <-> waits s b y x) ->
  (forall y, waits s b y x -> prio s' y = prio s y) -> inherited s b x p -> inherited s' b' x p.
Proof.
  intros Hb Hw Hp (A1 & A2 & A3). unfold inherited. rewrite Hb. split_and!; [done| |].
  - intros y Hy. apply Hw in Hy. rewrite Hp by done. by apply A2.
  - destruct A3 as [->|(y & Hy & He)]; [by left|]. right. exists y. rewrite Hw, Hp by done. done.
Qed.

(** ** What [calc_effective_priority] computes *)

(** [p] is the maximum of [p0] and of the priorities on the queues [sps]. *)
Definition max_over s b (p0 : Z) (sps : list sync_ptr) (p : Z) : Prop :=
  p0 <= p /\ (forall sp y, sp ∈ sps -> y ∈ b sp -> prio s y <= p) /\
  (p = p0 \/ exists sp y, sp ∈ sps /\ y ∈ b sp /\ prio s y = p).

Lemma max_over_nil s b p : max_over s b p [] p.
Proof. split_and!; [done|set_solver|by left]. Qed.

Lemma max_over_app s b p0 l1 l2 p1 p2 :
  max_over s b p0 l1 p1 -> max_over s b p1 l2 p2 -> max_over s b p0 (l1 ++ l2) p2.
Proof.
  intros (A1 & A2 & A3) (B1 & B2 & B3). split_and!; [lia| |].
  - intros sp y Hsp Hy. apply elem_of_app in Hsp as [Hsp|Hsp]; [specialize (A2 _ _ Hsp Hy); lia|by eapply B2].
  - destruct B3 as [->|(sp & y & Hsp & Hy & He)]; [|right; exists sp, y; set_solver].
    destruct A3 as [->|(sp & y & Hsp & Hy & He)]; [by left|right; exists sp, y; set_solver].
Qed.

Lemma max_head_spec s b sp v p :
  BQ s b -> (forall sp', sorted_by (prio s) (b sp')) -> syncpoints s !! sp = Some v ->
  wp (Thread.max_head (blocked_head v) p) (fun p' s' => s' = s /\ max_over s b p [sp] p') s.
Proof.
  intros H Hsrt Hv. destruct (bq_ring _ _ H _ _ Hv) as (Hh & _ & _). rewrite Hh.
  pose proof (Hsrt sp) as Hs. destruct (b sp) as [|y l] eqn:Hb; simpl.
  - apply wp_ret. split; [done|]. split_and!; [done| |by left]. intros sp' y Hsp Hy. apply list_elem_of_singleton in Hsp as ->.
    rewrite Hb in Hy. set_solver.
  - apply wp_bind. apply wp_rd_prio; [eapply bq_in_tcbs; [exact H|rewrite Hb; set_solver]|]. apply wp_ret. split; [done|].
    assert (Hall : forall sp' z, sp' ∈ [sp] -> z ∈ b sp' -> prio s z <= prio s y).
    { intros sp' z Hsp Hz. apply list_elem_of_singleton in Hsp as ->. rewrite Hb in Hz. by eapply sorted_by_head. }
    destruct (Z.ltb_spec p (prio s y)) as [Hlt|Hge]; split_and!; try lia.
    + done.
    + right. exists sp, y. rewrite Hb. split_and!; [set_solver|set_solver|done].
    + intros sp' z Hsp Hz. specialize (Hall _ _ Hsp Hz). lia.
Qed.

Lemma max_over_upper s b p0 sps p : max_over s b p0 sps p -> p0 <= p.
Proof. by intros (? & _). Qed.

Lemma don_sync s sp x : don s sp = Some x -> exists v, syncpoints s !! sp = Some v /\ donatee v = Some x.
Proof. unfold don. destruct (syncpoints s !! sp) as [v|]; simpl; [by eauto|done]. Qed.

Lemma on_mutexes_get_spec {A} s m (g : mutex_t -> A) v Q :
  mutexes s !! m = Some v -> Q (g v) s -> wp (on_mutexes (obj_get (Some m) g)) Q s.
Proof. intros Hm HQ. apply wp_on_mutexes. eapply wp_obj_get; [done|]. by destruct s. Qed.

(** The loop over the held mutexes visits each once. *)
Lemma held_priority_spec s b l x hd first l1 m l2 fuel p :
  BQ s b -> (forall sp, sorted_by (prio s) (b sp)) -> rl_queue held_list (mutexes s) hd l ->
  (forall m, m ∈ l -> don s (MutexSync m) = Some x) -> l = l1 ++ m :: l2 -> first = default m (head l1) ->
  (length (m :: l2) <= fuel)%nat ->
  wp (Thread.held_priority fuel x (Some first) (Some m) p)
     (fun p' s' => s' = s /\ max_over s b p (MutexSync <$> (m :: l2)) p') s.
Proof.
  intros H Hsrt (_ & Hnd & Hr) Hheld. revert l1 m l2 p. induction fuel as [|fuel IH]; intros l1 m l2 p Hl Hf Hlen; [simpl in Hlen; lia|].
  rewrite Hl in Hr, Hnd. destruct (don_sync s (MutexSync m) x) as (v & Hv & Hd); [apply Hheld; rewrite Hl; set_solver|].
  cbn [Thread.held_priority]. apply wp_bind, (wp_demand _ _ m); [done|]. apply wp_bind. eapply wp_rd_sync; [done|].
  apply wp_bind, wp_ASSERT; [by apply bool_decide_eq_true|]. apply wp_bind. eapply wp_rd_sync; [done|].
  apply wp_bind. wp_call max_head_spec; [done..|]. intros p1 s' [-> Hp1].
  apply ring_rotate in Hr as Hr'. simpl in Hr'.
  pose proof (ring_head_next (L := rl_links held_list) _ _ _ Hr') as Hn. unfold nxt in Hn.
  destruct (mutexes s !! m) as [mv|] eqn:Hm; [|done]. simpl in Hn.
  apply wp_bind. eapply on_mutexes_get_spec; [done|]. assert (held_next mv = Some (default m (head (l2 ++ l1)))) as -> by congruence.
  destruct l2 as [|m' l2].
  - assert (default m (head ([] ++ l1)) = first) as -> by (subst; by destruct l1).
    rewrite bool_decide_eq_true_2 by done. apply wp_ret. done.
  - simpl default. rewrite bool_decide_eq_false_2; last first.
    { intros [= ->]. rewrite Hf in Hnd. destruct l1 as [|a l1]; simpl in Hnd; apply NoDup_cons in Hnd; set_solver. }
    wp_call (IH (l1 ++ [m]) m' l2 p1).
    + by rewrite <-app_assoc.
    + by destruct l1.
    + simpl in *. lia.
    + intros p2 s' [-> Hp2]. split; [done|]. change (MutexSync <$> m :: m' :: l2) with ([MutexSync m] ++ (MutexSync <$> m' :: l2)).
      by eapply max_over_app.
Qed.

(** The queues whose waiters pass their priority to [x]. *)
Definition held_queues h x : list sync_ptr := [SendQueue x] ++ [RecvQueue x] ++ (MutexSync <$> h x).

Lemma held_queues_don s h x sp :
  HQ s h -> schedule_inheritance = true -> is_Some (tcbs s !! x) -> sp ∈ held_queues h x <-> don s sp = Some x.
Proof.
  intros H Hi Hx. unfold held_queues. rewrite !elem_of_app, !list_elem_of_singleton, list_elem_of_fmap. split.
  - intros [->|[->|(m & -> & Hm)]]; [by apply (hq_send _ _ H)|by apply (hq_recv _ _ H)|by apply (hq_holder _ _ H)].
  - intros Hd. destruct sp as [m|y|y].
    + right. right. exists m. split; [done|]. by apply (hq_holder _ _ H).
    + left. f_equal. eapply (hq_endpoint _ _ H). by left.
    + right. left. f_equal. eapply (hq_endpoint _ _ H). by right.
Qed.

(** Whatever mutexes [l] are on the ring of [x]. *)
Lemma calc_held_spec s b l x t vs vr :
  BQ s b -> (forall sp, sorted_by (prio s) (b sp)) -> schedule_inheritance = true -> tcbs s !! x = Some t ->
  rl_queue held_list (mutexes s) (mutexes_head t) l -> (forall m, m ∈ l -> don s (MutexSync m) = Some x) ->
  syncpoints s !! SendQueue x = Some vs -> syncpoints s !! RecvQueue x = Some vr ->
  wp (Thread.calc_effective_priority x)
     (fun p s' => s' = s /\ max_over s b (base_prio t) ([SendQueue x] ++ [RecvQueue x] ++ (MutexSync <$> l)) p) s.
Proof.
  intros H Hsrt Hi Ht Hq Hheld Hvs Hvr.
  unfold Thread.calc_effective_priority. apply wp_bind. eapply wp_get_field; [done|].
  apply wp_bind. eapply wp_rd_sync; [done|]. apply wp_bind. wp_call max_head_spec; [done..|]. intros p1 s1 [-> H1].
  rewrite Hi. apply wp_bind. eapply wp_rd_sync; [done|]. apply wp_bind. wp_call max_head_spec; [done..|]. intros p2 s2 [-> H2].
  apply wp_bind. eapply wp_get_field; [done|]. pose proof Hq as (Hh & Hnd & Hr). rewrite Hh.
  destruct l as [|m l]; simpl hd_error.
  - rewrite bool_decide_eq_true_2 by done. apply wp_ret. split; [done|]. eapply max_over_app; [done|]. by rewrite app_nil_r.
  - rewrite bool_decide_eq_false_2 by done. apply wp_bind, wp_gets.
    wp_call (held_priority_spec s b (m :: l) x (mutexes_head t) m [] m l); [done..| |].
    { apply nodup_length_size; [done|]. intros a Ha. by eapply (ring_is_Some held_list). }
    intros p3 s3 [-> H3]. split; [done|]. by do 2 (eapply max_over_app; [done|]).
Qed.

Lemma calc_effective_priority_spec s b h x :
  PI0 s b h -> schedule_inheritance = true -> is_Some (tcbs s !! x) ->
  wp (Thread.calc_effective_priority x) (fun p s' => s' = s /\ inherited s b x p) s.
Proof.
  intros H Hi Hx. pose proof Hx as [t Ht].
  destruct (don_sync s _ _ (hq_send _ _ (pi_hq _ _ _ H) _ Hx)) as (vs & Hvs & _).
  destruct (don_sync s _ _ (hq_recv _ _ (pi_hq _ _ _ H) _ Hi Hx)) as (vr & Hvr & _).
  wp_call (calc_held_spec s b (h x) x t vs vr); [apply H|apply H|done|done|by apply (pi_hq _ _ _ H)| |done|done|].
  { intros m Hm. by apply (hq_holder _ _ (pi_hq _ _ _ H)). }
  intros p s' [-> (A1 & A2 & A3)]. split; [done|].
  pose proof (fun sp => held_queues_don s h x sp (pi_hq _ _ _ H) Hi Hx) as Hd. unfold held_queues in Hd.
  unfold inherited, base. rewrite Ht. simpl. split_and!; [done| |].
  - intros y (sp & Hy & Hdn). eapply A2; [|done]. by apply Hd.
  - destruct A3 as [->|(sp & y & Hsp & Hy & He)]; [by left|]. right. exists y. split; [|done].
    exists sp. split; [done|]. by apply Hd.
Qed.

(** ** What propagation leaves alone *)

(** What a thread is apart from its priority and its places on queues. *)
Definition prop_same (t t' : tcb_t) : Prop :=
  forall (A : Type) (g : tcb_t -> A),
    (forall p w, g (set_ready_next p w) = g w) -> (forall p w, g (set_ready_prev p w) = g w) ->
    (forall p w, g (set_blocked_next p w) = g w) -> (forall p w, g (set_blocked_prev p w) = g w) ->
    (forall p w, g (set_waiting_for p w) = g w) -> (forall p w, g (set_effective_prio p w) = g w) -> g t' = g t.

Record prop_frame s s' : Prop := {
  pf_mutexes : mutexes s' = mutexes s;
  pf_don sp : don s' sp = don s sp;
  pf_sync sp : is_Some (syncpoints s' !! sp) <-> is_Some (syncpoints s !! sp);
  pf_violated : scheduling_invariants_violated s' = scheduling_invariants_violated s;
  pf_current : current_tcb s' = current_tcb s;
  pf_schedule : current_schedule s' = current_schedule s;
  pf_idle : idle_tcb s' = idle_tcb s;
  pf_idle_prio : prio s' (idle_tcb s) = prio s (idle_tcb s);
  pf_activated : activated s' = activated s;
  pf_none x : tcbs s !! x = None -> tcbs s' !! x = None;
  pf_tcb x t : tcbs s !! x = Some t -> exists t', tcbs s' !! x = Some t' /\ prop_same t t' /\
    is_queued ready_list t' = is_queued ready_list t
}.

Lemma prop_same_refl t : prop_same t t.
Proof. by intros A g. Qed.
Lemma prop_same_trans t1 t2 t3 : prop_same t1 t2 -> prop_same t2 t3 -> prop_same t1 t3.
Proof. intros H1 H2 A g ? ? ? ? ? ?. by rewrite (H2 A g), (H1 A g). Qed.
Lemma prop_same_ready t t' : rl_same ready_list t t' -> prop_same t t'.
Proof. intros H A g ? ? ? ? ? ?. by apply (H A g). Qed.
Lemma prop_same_wait t t' : wait_same t t' -> prop_same t t'.
Proof. intros H A g ? ? ? ? ? ?. by apply (H A g). Qed.
Lemma prop_same_eff t p : prop_same t (set_effective_prio p t).
Proof. intros A g _ _ _ _ _ He. apply He. Qed.

Lemma prop_same_base t t' : prop_same t t' -> base_prio t' = base_prio t.
Proof. intros H. apply (H Z base_prio); by intros ? []. Qed.
Lemma prop_same_held t t' : prop_same t t' -> mutexes_head t' = mutexes_head t.
Proof. intros H. apply (H ptr mutexes_head); by intros ? []. Qed.
Lemma prop_same_state t t' : prop_same t t' -> thread_state t' = thread_state t.
Proof. intros H. apply (H thread_state_e thread_state); by intros ? []. Qed.

Lemma prop_frame_refl s : prop_frame s s.
Proof. constructor; eauto using prop_same_refl. Qed.
Lemma prop_frame_trans s1 s2 s3 : prop_frame s1 s2 -> prop_frame s2 s3 -> prop_frame s1 s3.
Proof.
  intros [] []. constructor; try congruence; [|by eauto|].
  - intros sp. by rewrite pf_sync1.
  - intros x t Ht. destruct (pf_tcb0 _ _ Ht) as (t' & Ht' & Hs & Hq). destruct (pf_tcb1 _ _ Ht') as (t'' & Ht'' & Hs' & Hq').
    exists t''. split_and!; [done|by eapply prop_same_trans|congruence].
Qed.

Lemma prop_frame_is_Some s s' x : prop_frame s s' -> is_Some (tcbs s' !! x) <-> is_Some (tcbs s !! x).
Proof.
  intros H. split.
  - intros [t' Ht']. destruct (tcbs s !! x) eqn:E; [by eexists|]. rewrite (pf_none _ _ H) in Ht' by done. done.
  - intros [t Ht]. destruct (pf_tcb _ _ H _ _ Ht) as (t' & -> & _). by eexists.
Qed.

Lemma prop_frame_base s s' x : prop_frame s s' -> base s' x = base s x.
Proof.
  intros H. unfold base. destruct (tcbs s !! x) as [t|] eqn:Ht.
  - destruct (pf_tcb _ _ H _ _ Ht) as (t' & -> & Hs & _). simpl. by rewrite (prop_same_base _ _ Hs).
  - by rewrite (pf_none _ _ H).
Qed.

Lemma wait_frame_prop sp s s' : wait_frame sp s s' -> prop_frame s s'.
Proof.
  intros H. assert (Hd : forall sp', donatee <$> syncpoints s' !! sp' = donatee <$> syncpoints s !! sp').
  { intros sp'. destruct (decide (sp' = sp)) as [->|]; [apply (wf_donatee _ _ _ H)|by rewrite (wf_sync_ne _ _ _ H)]. }
  constructor; try apply H.
  - intros sp'. specialize (Hd sp'). unfold don. destruct (syncpoints s' !! sp'), (syncpoints s !! sp'); simpl in *; congruence.
  - intros sp'. specialize (Hd sp'). destruct (syncpoints s' !! sp'), (syncpoints s !! sp'); simpl in *; try done; split; by eauto.
  - apply (wait_frame_prio _ _ _ _ H).
  - intros x t Ht. destruct (wf_tcb _ _ _ H _ _ Ht) as (t' & Ht' & Hs). exists t'. split_and!; [done|by apply prop_same_wait|].
    pose proof (wait_same_view _ _ Hs) as Hv. unfold ready_view in Hv. unfold is_queued. simpl. apply bool_decide_ext.
    assert (ready_next t' = ready_next t) as -> by congruence. done.
Qed.

Lemma prop_frame_hq s s' h : prop_frame s s' -> HQ s h -> HQ s' h.
Proof.
  intros F H. constructor.
  - intros x t' Ht'. destruct (tcbs s !! x) as [t|] eqn:Ht; [|by rewrite (pf_none _ _ F) in Ht'].
    destruct (pf_tcb _ _ F _ _ Ht) as (t0 & Ht0 & Hs & _). simplify_eq. rewrite (prop_same_held _ _ Hs), (pf_mutexes _ _ F).
    by apply (hq_ring _ _ H).
  - intros x m. rewrite (pf_don _ _ F). apply (hq_holder _ _ H).
  - intros x Hx. rewrite (pf_don _ _ F). apply (hq_send _ _ H). by apply (prop_frame_is_Some _ _ x F).
  - intros x Hi Hx. rewrite (pf_don _ _ F). apply (hq_recv _ _ H); [done|]. by apply (prop_frame_is_Some _ _ x F).
  - intros x y. rewrite !(pf_don _ _ F). apply (hq_endpoint _ _ H).
  - intros sp x Hd. rewrite (pf_don _ _ F) in Hd. apply (prop_frame_is_Some _ _ x F). by eapply (hq_tcb _ _ H).
Qed.

(** The part of a thread that the blocked queues depend on. *)
Definition blocked_view (t : tcb_t) : ptr * ptr * option sync_ptr := (blocked_next t, blocked_prev t, waiting_for t).

Lemma bq_frame s s' b :
  BQ s b -> syncpoints s' = syncpoints s ->
  (forall x, blocked_view <$> tcbs s' !! x = blocked_view <$> tcbs s !! x) -> BQ s' b.
Proof.
  intros H Hsy Hv.
  assert (Hn : forall x, nxt (L := rl_links blocked_list) (tcbs s') x = nxt (L := rl_links blocked_list) (tcbs s) x /\
                         prv (L := rl_links blocked_list) (tcbs s') x = prv (L := rl_links blocked_list) (tcbs s) x).
  { intros x. specialize (Hv x). unfold nxt, prv. destruct (tcbs s' !! x), (tcbs s !! x); simpl in *; try done.
    unfold blocked_view in Hv. split; congruence. }
  assert (Hback : forall x t', tcbs s' !! x = Some t' -> exists t, tcbs s !! x = Some t /\ blocked_view t' = blocked_view t).
  { intros x t' Ht'. specialize (Hv x). rewrite Ht' in Hv. destruct (tcbs s !! x) as [t|]; [|done]. exists t. split; [done|].
    simpl in Hv. congruence. }
  constructor.
  - intros sp v Hsp. rewrite Hsy in Hsp. eapply rl_queue_frame; [by apply (bq_ring _ _ H)|]. auto.
  - rewrite Hsy. apply (bq_out _ _ H).
  - intros x t' sp Ht'. destruct (Hback _ _ Ht') as (t & Ht & Hb). unfold blocked_view in Hb.
    assert (waiting_for t' = waiting_for t) as -> by congruence. by apply (bq_wait _ _ H).
  - intros x t' Ht' Hw. destruct (Hback _ _ Ht') as (t & Ht & Hb). unfold blocked_view in Hb.
    assert (blocked_next t' = blocked_next t) as -> by congruence. apply (bq_link _ _ H _ _ Ht). congruence.
Qed.

Lemma same_ready_bview t t' : rl_same ready_list t t' -> blocked_view t' = blocked_view t.
Proof. intros H. apply (H _ blocked_view); by intros ? []. Qed.

(** *** Setting an effective priority *)

Lemma prio_frame_tcb s s' x p :
  prio_frame s s' x p -> forall y t, tcbs s !! y = Some t -> exists t', tcbs s' !! y = Some t' /\ prop_same t t' /\
    blocked_view t' = blocked_view t /\ effective_prio t' = if decide (y = x) then p else effective_prio t.
Proof.
  intros (s1 & s2 & t1 & F1 & Hx & -> & F2) y t Ht. destruct (rf_tcb _ _ F1 _ _ Ht) as (ty & Hty & Hs1).
  case_decide as E.
  - subst y. rewrite Hx in Hty. simplify_eq.
    destruct (rf_tcb _ _ F2 x (set_effective_prio p ty)) as (t' & Ht' & Hs2); [simpl; by rewrite lookup_insert_eq|].
    exists t'. split_and!; [done| | |].
    + eapply prop_same_trans; [by apply prop_same_ready|]. eapply prop_same_trans; [apply (prop_same_eff _ p)|by apply prop_same_ready].
    + rewrite (same_ready_bview _ _ Hs2). rewrite <-(same_ready_bview _ _ Hs1). by destruct ty.
    + rewrite (same_ready_eff _ _ Hs2). by destruct ty.
  - destruct (rf_tcb _ _ F2 y ty) as (t' & Ht' & Hs2); [simpl; by rewrite lookup_insert_ne|].
    exists t'. split_and!; [done| | |].
    + eapply prop_same_trans; by apply prop_same_ready.
    + by rewrite (same_ready_bview _ _ Hs2), (same_ready_bview _ _ Hs1).
    + by rewrite (same_ready_eff _ _ Hs2), (same_ready_eff _ _ Hs1).
Qed.

Lemma prio_frame_none s s' x p y : prio_frame s s' x p -> tcbs s !! y = None -> tcbs s' !! y = None.
Proof.
  intros (s1 & s2 & t1 & F1 & Hx & -> & F2) Hy. apply (rf_none _ _ F2). simpl.
  pose proof (rf_none _ _ F1 _ Hy). rewrite lookup_insert_ne; [done|]. intros ->. congruence.
Qed.

Definition reprioritised s b h (q : queues) x t p s' : Prop :=
  BQ s' b /\ HQ s' h /\ RQ s' (requeue q x t p) /\ prop_frame s s' /\ syncpoints s' = syncpoints s /\
  (forall y, is_Some (tcbs s !! y) -> prio s' y = if decide (y = x) then p else prio s y).

Lemma set_effective_spec s b h q x t p :
  BQ s b -> HQ s h -> RQ s q -> tcbs s !! x = Some t -> x <> idle_tcb s -> prio_ok p ->
  wp (PrioQueue.set_effective_priority x p) (fun _ s' => reprioritised s b h q x t p s') s.
Proof.
  intros HB HH HR Ht Hid Hp.
  wp_call set_effective_priority_spec; [done..|]. intros _ s' [HR' HF].
  pose proof (prio_frame_tcb _ _ _ _ HF) as Htcb. pose proof (fun y => prio_frame_none _ _ _ _ y HF) as Hnone.
  assert (Hpf : prop_frame s s' /\ syncpoints s' = syncpoints s).
  { destruct HF as (s1 & s2 & t1 & F1 & Hx & -> & F2).
    assert (Hsy : syncpoints s' = syncpoints s) by (rewrite (rf_syncpoints _ _ F2); simpl; apply (rf_syncpoints _ _ F1)).
    split; [|done]. constructor; try done.
    - rewrite (rf_mutexes _ _ F2). simpl. apply (rf_mutexes _ _ F1).
    - intros sp. unfold don. by rewrite Hsy.
    - intros sp. by rewrite Hsy.
    - rewrite (rf_violated _ _ F2). simpl. apply (rf_violated _ _ F1).
    - rewrite (rf_current _ _ F2). simpl. apply (rf_current _ _ F1).
    - rewrite (rf_schedule _ _ F2). simpl. apply (rf_schedule _ _ F1).
    - rewrite (rf_idle _ _ F2). simpl. apply (rf_idle _ _ F1).
    - unfold prio. destruct (tcbs s !! idle_tcb s) as [ti|] eqn:Hti; [|by rewrite (Hnone _ Hti)].
      destruct (Htcb _ _ Hti) as (t' & -> & _ & _ & He). simpl. by rewrite He, decide_False.
    - rewrite (rf_activated _ _ F2). simpl. apply (rf_activated _ _ F1).
    - intros y ty Hty. destruct (Htcb _ _ Hty) as (t' & Ht' & Hs & Hb & He). exists t'. split_and!; [done..|].
      apply eq_true_iff_eq. rewrite (rq_queued_iff _ _ _ _ HR' Ht'), (rq_queued_iff _ _ _ _ HR Hty), He. unfold requeue.
      assert (Hqx : is_queued ready_list t = true <-> x ∈ q (effective_prio t)) by (by apply (rq_queued_iff _ _ _ _ HR Ht)).
      case_decide as E.
      + subst y. rewrite Ht in Hty. simplify_eq. destruct (is_queued ready_list ty) eqn:Eq.
        * rewrite elem_of_enq. split; [intros _; by apply Hqx|intros _; by right].
        * split; [|intros Hin; by apply Hqx in Hin]. intros Hin. destruct (rq_prio _ _ HR _ _ Hin) as (_ & t0 & Ht0 & Hp0). rewrite Ht in Ht0. simplify_eq. by rewrite Hp0.
      + destruct (is_queued ready_list t); [|done]. rewrite elem_of_enq, elem_of_deq. split; [intros [[? _]|[? _]]; done|intros; by left]. }
  destruct Hpf as [Hpf Hsy]. split_and!; [|by eapply prop_frame_hq|done|done|done|].
  - eapply bq_frame; [done|done|]. intros y. destruct (tcbs s !! y) as [ty|] eqn:Hty.
    + destruct (Htcb _ _ Hty) as (t' & -> & _ & Hb & _). simpl. by rewrite Hb.
    + by rewrite Hnone.
  - intros y [ty Hty]. unfold prio. destruct (Htcb _ _ Hty) as (t' & -> & _ & _ & He). rewrite Hty. simpl. by rewrite He.
Qed.

Lemma set_eff_spec s b h q x t p :
  BQ s b -> HQ s h -> RQ s q -> tcbs s !! x = Some t -> x <> idle_tcb s -> prio_ok p ->
  wp (Sync.set_effective_priority x p) (fun _ s' => reprioritised s b h q x t p s') s.
Proof.
  intros HB HH HR Ht Hid Hp. unfold Sync.set_effective_priority. apply wp_bind, wp_ASSERT.
  { unfold prio_ok in Hp. apply andb_true_iff. split; apply Z.leb_le; lia. }
  by apply set_effective_spec.
Qed.

End invariant.
