(* ===== verification/MicroPropagate.v ===== *)
(** * Propagation of priorities

    The two loops of [syncpoint.cc] that follow the chain of threads waiting
    for each other: they end, and afterwards every thread's effective
    priority satisfies the inheritance equation. *)

From S2P Require Import Prelude Rings Queueing MicroLib MicroState MicroSched MicroReady MicroBlocked MicroInherit.
#[local] Open Scope Z_scope.

Section propagation.
Context {cfg : MicroConfig}.
Implicit Types (s : mstate) (b : sync_ptr -> list nat) (h : nat -> list nat) (x y c : nat) (sp : sync_ptr).

(** ** Moving a thread to the place of its new priority *)

(** The queues hold the same threads, perhaps in another order. *)
Definition same_members b b' : Prop := forall sp y, y ∈ b' sp <-> y ∈ b sp.

Lemma same_members_refl b : same_members b b.
Proof. done. Qed.
Lemma same_members_trans b1 b2 b3 : same_members b1 b2 -> same_members b2 b3 -> same_members b1 b3.
Proof. intros H1 H2 sp y. by rewrite (H2 sp y). Qed.

Lemma waits_same s s' b b' y x : prop_frame s s' -> same_members b b' -> waits s' b' y x <-> waits s b y x.
Proof. intros F Hm. unfold waits. by setoid_rewrite (pf_don _ _ F); setoid_rewrite (Hm _ y). Qed.

Lemma requeue_blocked_spec {A} s b x t sp (k : K A) Q :
  BQ s b -> tcbs s !! x = Some t -> waiting_for t = Some sp ->
  (forall sp', sorted_by (prio s) (filter (fun y => y <> x) (b sp'))) ->
  (forall s' b', BQ s' b' -> wait_frame sp s s' -> same_members b b' -> (forall sp', sorted_by (prio s') (b' sp')) -> wp k Q s') ->
  wp (do! Sync.dequeue_blocked sp x in do! Sync.enqueue_blocked sp x in k) Q s.
Proof.
  intros H Ht Hw Hs Hk. assert (Hin : x ∈ b sp) by (by apply (bq_wait _ _ H _ _ _ Ht)).
  apply wp_bind. wp_call dequeue_blocked_spec; [done..|]. intros _ s1 (H1 & F1 & t1 & Ht1 & Hw1).
  assert (exists v, syncpoints s1 !! sp = Some v) as [v Hv].
  { destruct (syncpoints s1 !! sp) as [v|] eqn:Hv1; [by eexists|]. pose proof (wf_donatee _ _ _ F1) as Hd. rewrite Hv1 in Hd.
    destruct (syncpoints s !! sp) eqn:Hv; [done|]. rewrite (bq_out _ _ H _ Hv) in Hin. set_solver. }
  apply wp_bind. wp_call enqueue_blocked_spec; [done..|]. intros _ s2 [H2 F2].
  assert (Hp1 : effective_prio t1 = prio s1 x) by (unfold prio; by rewrite Ht1).
  eapply Hk; [done|by eapply wait_frame_trans| |].
  - intros sp' y. unfold upd_sp. case_decide as E; [subst sp'|done]. rewrite decide_True by done.
    rewrite elem_of_insert_by, list_elem_of_filter. destruct (decide (y = x)) as [->|]; naive_solver.
  - intros sp'. eapply sorted_by_ext; [|intros; by apply (wait_frame_prio _ _ _ _ F2)].
    unfold upd_sp. case_decide as E.
    + rewrite decide_True by done. apply sorted_insert_by; [|done].
      eapply sorted_by_ext; [apply Hs|]. intros. by apply (wait_frame_prio _ _ _ _ F1).
    + assert (Hx : x ∉ b sp') by (intros Hx; apply E; exact (bq_unique _ _ _ _ _ H Hx Hin)).
      specialize (Hs sp'). rewrite filter_ne_notin in Hs by done.
      eapply sorted_by_ext; [exact Hs|]. intros. by apply (wait_frame_prio _ _ _ _ F1).
Qed.

(** ** One turn of a propagation loop *)

(** The state after the priority of [c] has become [p]. *)
Record turned s b h c p s' b' : Prop := {
  tu_pi0 : PI0 s' b' h;
  tu_frame : prop_frame s s';
  tu_members : same_members b b';
  tu_prio y : is_Some (tcbs s !! y) -> prio s' y = if decide (y = c) then p else prio s y
}.

Lemma pi0_change s b h c p s' b' :
  PI0 s b h -> prop_frame s s' -> same_members b b' -> BQ s' b' -> (exists q, RQ s' q) ->
  (forall sp, sorted_by (prio s') (b' sp)) -> prio_ok p ->
  (forall y, is_Some (tcbs s !! y) -> prio s' y = if decide (y = c) then p else prio s y) ->
  turned s b h c p s' b'.
Proof.
  intros H F Hm HB HR Hs Hp Hpr. split; [|done..]. constructor; try done.
  - eapply prop_frame_hq; [done|apply H].
  - intros x t' Ht' Hid. rewrite (pf_idle _ _ F) in Hid.
    destruct (tcbs s !! x) as [t|] eqn:Ht; [|by rewrite (pf_none _ _ F) in Ht'].
    destruct (pf_tcb _ _ F _ _ Ht) as (t0 & Ht0 & Hsm & _). simplify_eq. rewrite (prop_same_base _ _ Hsm).
    destruct (pi_range _ _ _ H _ _ Ht Hid) as [Hb He]. split; [done|].
    specialize (Hpr x ltac:(by eexists)). unfold prio in Hpr. rewrite Ht', Ht in Hpr. simpl in Hpr. rewrite Hpr.
    by destruct (decide (x = c)).
  - intros y sp Hy. rewrite (pf_idle _ _ F), (pf_don _ _ F). apply (pi_idle _ _ _ H). by apply (Hm sp y).
Qed.

Lemma turn_spec s b h c t p (k : ptr -> K unit) Q :
  PI0 s b h -> tcbs s !! c = Some t -> c <> idle_tcb s -> prio_ok p ->
  (forall s' b', turned s b h c p s' b' -> (forall sp, c ∉ b sp) -> Q tt s') ->
  (forall s' b' sp, turned s b h c p s' b' -> c ∈ b sp -> wp (k (don s sp)) Q s') ->
  wp (do! Sync.set_effective_priority c p in
      let! next := rd (Some c) waiting_for in
      match next with
      | None => ret tt
      | Some next =>
          do! Sync.dequeue_blocked next c in
          do! Sync.enqueue_blocked next c in
          let! chain := rd_sync next donatee in
          k chain
      end) Q s.
Proof.
  intros H Ht Hid Hp Hend Hnext. destruct (pi_rq _ _ _ H) as [q HR].
  apply wp_bind. wp_call set_eff_spec; [apply H|apply H|done..|]. intros _ s1 (HB1 & HH1 & HR1 & F1 & Hsy1 & Hp1).
  destruct (pf_tcb _ _ F1 _ _ Ht) as (t1 & Ht1 & Hsm1 & _).
  assert (Hs1 : forall sp l, (forall y, y ∈ l -> y ∈ b sp /\ y <> c) -> sorted_by (prio s) l -> sorted_by (prio s1) l).
  { intros sp l Hl Hs. eapply sorted_by_ext; [done|]. intros y Hy. destruct (Hl _ Hy) as [Hyb Hyc].
    rewrite Hp1 by (eapply bq_in_tcbs; [apply H|done]). by rewrite decide_False. }
  apply wp_bind. eapply wp_get_field; [done|]. destruct (waiting_for t1) as [sp|] eqn:Hw.
  - eapply requeue_blocked_spec; [done..| |].
    { intros sp'. eapply Hs1; [|apply sorted_by_filter, (pi_sorted _ _ _ H)]. intros y. rewrite list_elem_of_filter. naive_solver. }
    intros s2 b2 HB2 F2 Hm2 Hs2.
    assert (Hin : c ∈ b sp) by (by apply (bq_wait _ _ HB1 _ _ _ Ht1)).
    assert (exists v, syncpoints s2 !! sp = Some v) as [v Hv].
    { apply (pf_sync _ _ (wait_frame_prop _ _ _ F2)), (pf_sync _ _ F1).
      destruct (syncpoints s !! sp) eqn:E; [by eexists|]. rewrite (bq_out _ _ (pi_bq _ _ _ H) _ E) in Hin. set_solver. }
    assert (Hd : donatee v = don s sp).
    { rewrite <-(pf_don _ _ F1), <-(pf_don _ _ (wait_frame_prop _ _ _ F2)). unfold don. by rewrite Hv. }
    apply wp_bind. eapply wp_rd_sync; [done|]. rewrite Hd. apply (Hnext s2 b2); [|done].
    apply pi0_change; try done.
    + eapply prop_frame_trans; [done|by eapply wait_frame_prop].
    + eexists. by eapply wait_frame_rq.
    + intros y Hy. rewrite (wait_frame_prio _ _ _ _ F2). by apply Hp1.
  - assert (Hc : forall sp, c ∉ b sp) by (intros sp Hin; apply (bq_wait _ _ HB1 _ _ _ Ht1) in Hin; congruence).
    apply wp_ret. apply (Hend s1 b); [|done]. apply pi0_change; try done; [by eexists|].
    intros sp. eapply Hs1; [|apply (pi_sorted _ _ _ H)]. intros y Hy. split; [done|]. intros ->. by apply (Hc sp).
Qed.

(** ** The inheritance equation across a turn *)

(** A thread for which nobody's priority changed keeps its equation. *)
Lemma inherited_turned s b h c p s' b' x e :
  turned s b h c p s' b' -> BQ s b -> ~ waits s b c x -> inherited s b x e -> inherited s' b' x e.
Proof.
  intros T HB Hc. apply inherited_ext.
  - apply (prop_frame_base _ _ _ (tu_frame _ _ _ _ _ _ _ T)).
  - intros y. apply (waits_same _ _ _ _ y x (tu_frame _ _ _ _ _ _ _ T) (tu_members _ _ _ _ _ _ _ T)).
  - intros y Hy. rewrite (tu_prio _ _ _ _ _ _ _ T) by (destruct Hy as (sp & Hy & _); by eapply bq_in_tcbs).
    by rewrite decide_False by (intros ->; done).
Qed.

(** The thread whose priority changed has the priority it should have, even
    if it waits for itself. *)
Lemma inherited_turned_self s b h c p s' b' :
  turned s b h c p s' b' -> BQ s b -> inherited s b c p -> p <> prio s c -> inherited s' b' c p.
Proof.
  intros T HB (A1 & A2 & A3) Hne.
  assert (Hpr : forall y, waits s b y c -> prio s' y = if decide (y = c) then p else prio s y).
  { intros y (sp & Hy & _). apply (tu_prio _ _ _ _ _ _ _ T). by eapply bq_in_tcbs. }
  pose proof (fun y => waits_same _ _ _ _ y c (tu_frame _ _ _ _ _ _ _ T) (tu_members _ _ _ _ _ _ _ T)) as Hw.
  unfold inherited. rewrite (prop_frame_base _ _ _ (tu_frame _ _ _ _ _ _ _ T)). split_and!; [done| |].
  - intros y Hy. apply Hw in Hy. rewrite Hpr by done. case_decide; [done|]. by apply A2.
  - destruct A3 as [->|(y & Hy & He)]; [by left|]. right. exists y. rewrite Hw, Hpr by done. split; [done|].
    by rewrite decide_False by congruence.
Qed.

Lemma waits_don s b c x sp : BQ s b -> c ∈ b sp -> waits s b c x <-> don s sp = Some x.
Proof.
  intros HB Hc. split; [|intros; by exists sp]. intros (sp' & Hc' & Hd). by rewrite (bq_unique _ _ _ _ _ HB Hc Hc').
Qed.

(** After a turn only the thread that [c] waits for may be off. *)
Lemma pi_turned s b h c p s' b' :
  PI0 s b h -> turned s b h c p s' b' -> is_Some (tcbs s !! c) -> inherited s b c p -> p <> prio s c ->
  (forall x, x <> c -> PI_at s b x) ->
  (forall x, x = c \/ ~ waits s b c x -> PI_at s' b' x) /\ prio s' c = p.
Proof.
  intros H T Hc Hi Hne Hoth. assert (Hpc : prio s' c = p) by (rewrite (tu_prio _ _ _ _ _ _ _ T) by done; by rewrite decide_True).
  split; [|done]. intros x Hx Hs Hid. rewrite (pf_idle _ _ (tu_frame _ _ _ _ _ _ _ T)) in Hid.
  apply (prop_frame_is_Some _ _ x (tu_frame _ _ _ _ _ _ _ T)) in Hs. destruct (decide (x = c)) as [->|Hxc].
  - rewrite Hpc. eapply inherited_turned_self; [done|apply H|done..].
  - destruct Hx as [?|Hx]; [done|]. eapply inherited_turned; [done|apply H|done|].
    rewrite (tu_prio _ _ _ _ _ _ _ T), decide_False by done. by apply Hoth.
Qed.

(** ** Propagating an increase *)

(** The threads below a priority: each turn takes one out. *)
Definition below s (p : Z) : gset nat := dom (filter (fun xt => effective_prio xt.2 < p) (tcbs s)).

Lemma elem_of_below s p x : x ∈ below s p <-> is_Some (tcbs s !! x) /\ prio s x < p.
Proof.
  unfold below, prio. rewrite elem_of_dom. unfold is_Some. setoid_rewrite map_lookup_filter_Some. split.
  - intros (t & Ht & He). rewrite Ht. simpl in *. eauto.
  - intros [[t Ht] He]. rewrite Ht in He. simpl in *. eauto.
Qed.

Lemma below_size s p : (size (below s p) <= size (tcbs s))%nat.
Proof. unfold below. rewrite size_dom. by apply map_subseteq_size, map_filter_subseteq. Qed.

Lemma below_turned s b h c p s' b' :
  turned s b h c p s' b' -> is_Some (tcbs s !! c) -> prio s c < p -> (size (below s' p) < size (below s p))%nat.
Proof.
  intros T Hc Hlt. pose proof (tu_frame _ _ _ _ _ _ _ T) as F. pose proof (tu_prio _ _ _ _ _ _ _ T) as Hp. apply subset_size. split.
  - intros y. rewrite !elem_of_below. intros [Hs Hy]. apply (prop_frame_is_Some _ _ y F) in Hs. split; [done|].
    rewrite Hp in Hy by done. case_decide; [lia|done].
  - intros Hsub. assert (Hin : c ∈ below s' p) by (apply Hsub, elem_of_below; by split).
    apply elem_of_below in Hin as [_ Hin]. rewrite Hp, decide_True in Hin by done. lia.
Qed.

(** What a propagation establishes. *)
Definition settled s b h s' : Prop :=
  exists b', PI0 s' b' h /\ PI s' b' /\ prop_frame s s' /\ same_members b b'.

Lemma settled_turned s b h c p s1 b1 s2 : turned s b h c p s1 b1 -> settled s1 b1 h s2 -> settled s b h s2.
Proof.
  intros T (b2 & H2 & HP & F & Hm). exists b2. split_and!; [done..| |].
  - eapply prop_frame_trans; [apply T|done].
  - eapply same_members_trans; [apply T|done].
Qed.

Lemma turned_settled s b h c p s' b' : turned s b h c p s' b' -> PI s' b' -> settled s b h s'.
Proof. intros T HP. exists b'. split_and!; [apply T|done|apply T|apply T]. Qed.

(** Across a turn that raises [c] to [p], the thread [d] it waits for should
    have at least [p]. *)
Lemma inherited_raise s b h c p s' b' d :
  PI0 s b h -> turned s b h c p s' b' -> is_Some (tcbs s !! c) -> prio s c < p -> waits s b c d -> c <> d ->
  PI_at s b d -> d <> idle_tcb s -> inherited s' b' d (Z.max (prio s' d) p).
Proof.
  intros H T Hc Hlt Hcd Hne Hd Hid.
  assert (Hds : is_Some (tcbs s !! d)) by (destruct Hcd as (sp & _ & Hd'); by apply (hq_tcb _ _ (pi_hq _ _ _ H) sp)).
  pose proof (tu_frame _ _ _ _ _ _ _ T) as F. destruct (Hd Hds Hid) as (A1 & A2 & A3).
  assert (Hpr : forall y, waits s b y d -> prio s' y = if decide (y = c) then p else prio s y).
  { intros y (sp & Hy & _). apply (tu_prio _ _ _ _ _ _ _ T). eapply bq_in_tcbs; [apply H|done]. }
  pose proof (fun y => waits_same _ _ _ _ y d F (tu_members _ _ _ _ _ _ _ T)) as Hw.
  assert (Hpd : prio s' d = prio s d) by (rewrite (tu_prio _ _ _ _ _ _ _ T) by done; by rewrite decide_False).
  unfold inherited. rewrite (prop_frame_base _ _ _ F), Hpd. split_and!; [lia| |].
  - intros y Hy. apply Hw in Hy. rewrite Hpr by done. case_decide; [lia|]. specialize (A2 y Hy). lia.
  - destruct (Z.le_gt_cases p (prio s d)) as [Hle|Hgt].
    + rewrite Z.max_l by lia. destruct A3 as [?|(y & Hy & He)]; [by left|]. right. exists y. rewrite Hw, Hpr by done.
      split; [done|]. rewrite decide_False; [done|]. intros ->. lia.
    + rewrite Z.max_r by lia. right. exists c. rewrite Hw, Hpr, decide_True by done. done.
Qed.

(** [c] should have the higher of its priority and [np]; every other thread
    has the priority it should have. *)
Lemma propagate_increase_spec fuel s b h np c :
  PI0 s b h -> is_Some (tcbs s !! c) -> c <> idle_tcb s -> prio_ok np ->
  (forall x, x <> c -> PI_at s b x) -> inherited s b c (Z.max (prio s c) np) ->
  (size (below s np) < fuel)%nat ->
  wp (Sync.propagate_increase fuel np (Some c)) (fun _ s' => settled s b h s') s.
Proof.
  revert s b c. induction fuel as [|fuel IH]; intros s b c H Hc Hid Hnp Hoth Hi Hf; [lia|].
  pose proof Hc as [t Ht]. cbn [Sync.propagate_increase]. apply wp_bind. apply wp_rd_prio; [done|].
  destruct (Z.leb_spec np (prio s c)) as [Hle|Hlt].
  - apply wp_ret. exists b. split_and!; [done| |apply prop_frame_refl|apply same_members_refl].
    intros x. destruct (decide (x = c)) as [->|]; [|by apply Hoth]. intros _ _. by rewrite Z.max_l in Hi by lia.
  - rewrite Z.max_r in Hi by lia. eapply turn_spec; [done|exact Ht|done|done| |].
    + intros s' b' T Hn. eapply turned_settled; [done|]. intros x.
      apply (pi_turned s b h c np); [done|done|done|done|lia|done|]. right. intros (sp & Hin & _). by apply (Hn sp).
    + intros s' b' sp T Hin. pose proof (tu_frame _ _ _ _ _ _ _ T) as F.
      destruct (pi_turned s b h c np s' b') as [Hok Hpc]; [done..|lia|done|].
      destruct (don s sp) as [d|] eqn:Hd.
      * assert (Hds : is_Some (tcbs s !! d)) by (by apply (hq_tcb _ _ (pi_hq _ _ _ H) sp)).
        assert (Hdi : d <> idle_tcb s) by (destruct (pi_idle _ _ _ H _ _ Hin); congruence).
        assert (Hw : waits s b c d) by (by exists sp).
        eapply wp_mono; [apply (IH s' b' d)|intros ? s2 HS; by apply (settled_turned _ _ _ _ _ _ _ _ T HS)].
        -- apply T.
        -- by apply (prop_frame_is_Some _ _ d F).
        -- by rewrite (pf_idle _ _ F).
        -- done.
        -- intros x Hx. apply Hok. destruct (decide (x = c)) as [->|]; [by left|right].
           rewrite (waits_don _ _ _ _ _ (pi_bq _ _ _ H) Hin). congruence.
        -- destruct (decide (d = c)) as [->|Hne].
           ++ rewrite Hpc, Z.max_id. rewrite <-Hpc. apply Hok; [by left|by apply (prop_frame_is_Some _ _ c F)|by rewrite (pf_idle _ _ F)].
           ++ apply (inherited_raise s b h c np); auto.
        -- pose proof (below_turned _ _ _ _ _ _ _ T Hc Hlt). lia.
      * assert (HPI : PI s' b').
        { intros x. apply Hok. right. rewrite (waits_don _ _ _ _ _ (pi_bq _ _ _ H) Hin). congruence. }
        destruct fuel; apply wp_ret; by apply (turned_settled s b h c np s' b').
Qed.

(** ** Propagating a change *)

(** The priorities' sum, which each turn changes in the same direction. *)
Definition total (f : nat -> nat) (l : list nat) : nat := sum_list_with f l.

Lemma total_le f g l : (forall x, x ∈ l -> (f x <= g x)%nat) -> (total f l <= total g l)%nat.
Proof.
  unfold total. induction l as [|y l IH]; simpl; [done|]. intros H. pose proof (H y ltac:(set_solver)).
  assert (sum_list_with f l <= sum_list_with g l)%nat by (apply IH; set_solver). lia.
Qed.

Lemma total_lt f g l c :
  c ∈ l -> (f c < g c)%nat -> (forall x, x ∈ l -> (f x <= g x)%nat) -> (total f l < total g l)%nat.
Proof.
  intros Hc Hlt Hle. apply list_elem_of_split in Hc as (l1 & l2 & ->). unfold total. rewrite !sum_list_with_app. simpl.
  pose proof (total_le f g l1 ltac:(set_solver)) as H1. pose proof (total_le f g l2 ltac:(set_solver)) as H2.
  unfold total in *. lia.
Qed.

Lemma total_bound f l k : (forall x, x ∈ l -> (f x <= k)%nat) -> (total f l <= length l * k)%nat.
Proof.
  unfold total. induction l as [|y l IH]; simpl; [done|]. intros H. pose proof (H y ltac:(set_solver)).
  assert (sum_list_with f l <= length l * k)%nat by (apply IH; set_solver). lia.
Qed.

Definition user_threads s : list nat := elements (dom (tcbs s) ∖ {[ idle_tcb s ]}).

Lemma elem_of_user_threads s x : x ∈ user_threads s <-> is_Some (tcbs s !! x) /\ x <> idle_tcb s.
Proof. unfold user_threads. rewrite elem_of_elements, elem_of_difference, elem_of_dom, elem_of_singleton. done. Qed.

Lemma user_threads_frame s s' : prop_frame s s' -> user_threads s' = user_threads s.
Proof.
  intros F. unfold user_threads. rewrite (pf_idle _ _ F). f_equal. f_equal. apply leibniz_equiv. intros x.
  rewrite !elem_of_dom. apply (prop_frame_is_Some _ _ x F).
Qed.

Lemma user_threads_size s : (length (user_threads s) <= size (tcbs s))%nat.
Proof. unfold user_threads. rewrite <-(size_dom (D := gset nat) (tcbs s)). change (size (dom (tcbs s) ∖ {[idle_tcb s]}) <= size (dom (tcbs s)))%nat. apply subseteq_size. set_solver. Qed.

(** Direction of a propagation: [true] when priorities fall. *)
Definition dir_le (down : bool) (p p' : Z) : Prop := if down then p' <= p else p <= p'.

Definition distance (down : bool) s x : nat := Z.to_nat (if down then prio s x else MAX_PRIO - prio s x).

Lemma pi0_prio s b h x : PI0 s b h -> is_Some (tcbs s !! x) -> x <> idle_tcb s -> prio_ok (prio s x).
Proof. intros H [t Ht] Hid. unfold prio. rewrite Ht. simpl. by apply (pi_range _ _ _ H x). Qed.

Lemma inherited_ok s b h x p : PI0 s b h -> is_Some (tcbs s !! x) -> x <> idle_tcb s -> inherited s b x p -> prio_ok p.
Proof.
  intros H [t Ht] Hid (A1 & A2 & A3). destruct A3 as [->|(y & (sp & Hy & Hd) & <-)].
  - unfold base. rewrite Ht. simpl. by apply (pi_range _ _ _ H x).
  - eapply pi0_prio; [done|eapply bq_in_tcbs; [apply H|done]|]. by apply (pi_idle _ _ _ H y sp).
Qed.

Lemma distance_turned down s b h c p s' b' :
  PI0 s b h -> turned s b h c p s' b' -> is_Some (tcbs s !! c) -> c <> idle_tcb s -> prio_ok p ->
  dir_le down (prio s c) p -> p <> prio s c ->
  (total (distance down s') (user_threads s') < total (distance down s) (user_threads s))%nat.
Proof.
  intros H T Hc Hid Hp Hdir Hne. rewrite (user_threads_frame s s' (tu_frame _ _ _ _ _ _ _ T)).
  pose proof (pi0_prio _ _ _ _ H Hc Hid) as Hpc. unfold dir_le, prio_ok, MAX_PRIO in *.
  apply (total_lt _ _ _ c).
  - by apply elem_of_user_threads.
  - unfold distance. rewrite (tu_prio _ _ _ _ _ _ _ T), decide_True by done. destruct down; unfold MAX_PRIO; lia.
  - intros y Hy. apply elem_of_user_threads in Hy as [Hy Hyi]. unfold distance. rewrite (tu_prio _ _ _ _ _ _ _ T) by done.
    case_decide as E; [subst y|done]. destruct down; unfold MAX_PRIO; lia.
Qed.

Lemma distance_bound down s b h :
  PI0 s b h -> (total (distance down s) (user_threads s) < size (tcbs s) * 256 + 1)%nat.
Proof.
  intros H. pose proof (user_threads_size s).
  assert (total (distance down s) (user_threads s) <= length (user_threads s) * 256)%nat; [|lia].
  apply total_bound. intros x Hx. apply elem_of_user_threads in Hx as [Hx Hxi].
  pose proof (pi0_prio _ _ _ _ H Hx Hxi) as Hp. unfold distance, prio_ok, MAX_PRIO in *. destruct down; lia.
Qed.

(** The priority [d] should have moves the way [c]'s priority moved. *)
Lemma inherited_direction down s b h c p s' b' d e e' :
  PI0 s b h -> turned s b h c p s' b' -> dir_le down (prio s c) p ->
  inherited s b d e -> inherited s' b' d e' -> dir_le down e e'.
Proof.
  intros H T Hdir (A1 & A2 & A3) (B1 & B2 & B3). pose proof (tu_frame _ _ _ _ _ _ _ T) as F.
  pose proof (fun y => waits_same _ _ _ _ y d F (tu_members _ _ _ _ _ _ _ T)) as Hw.
  rewrite (prop_frame_base _ _ _ F) in B1, B3.
  assert (Hpr : forall y, waits s b y d -> dir_le down (prio s y) (prio s' y)).
  { intros y (sp & Hy & _). rewrite (tu_prio _ _ _ _ _ _ _ T) by (eapply bq_in_tcbs; [apply H|done]).
    case_decide as E; [by subst|]. unfold dir_le. by destruct down. }
  unfold dir_le in *. destruct down.
  - destruct B3 as [->|(y & Hy & <-)]; [lia|]. apply Hw in Hy. specialize (A2 y Hy). specialize (Hpr y Hy). lia.
  - destruct A3 as [->|(y & Hy & <-)]; [lia|]. specialize (Hpr y Hy). apply Hw in Hy. specialize (B2 y Hy). lia.
Qed.

(** Only [c] may be off, and its priority may only have to move in the
    direction of the propagation. *)
Lemma propagate_change_spec down fuel s b h c :
  PI0 s b h -> schedule_inheritance = true -> is_Some (tcbs s !! c) -> c <> idle_tcb s ->
  (forall x, x <> c -> PI_at s b x) -> (forall e, inherited s b c e -> dir_le down (prio s c) e) ->
  (total (distance down s) (user_threads s) < fuel)%nat ->
  wp (Sync.propagate_change fuel (Some c)) (fun _ s' => settled s b h s') s.
Proof.
  intros H Hinh. revert s b c H. induction fuel as [|fuel IH]; intros s b c H Hc Hid Hoth Hdir Hf; [lia|].
  pose proof Hc as [t Ht]. cbn [Sync.propagate_change]. apply wp_bind. apply wp_rd_prio; [done|].
  apply wp_bind. wp_call calc_effective_priority_spec; [done..|]. intros p s1 [-> Hi].
  specialize (Hdir p Hi). pose proof (inherited_ok _ _ _ _ _ H Hc Hid Hi) as Hp.
  destruct (Z.eqb_spec p (prio s c)) as [He|Hne].
  - apply wp_ret. exists b. split_and!; [done| |apply prop_frame_refl|apply same_members_refl].
    intros x. destruct (decide (x = c)) as [->|]; [|by apply Hoth]. intros _ _. by rewrite <-He.
  - eapply turn_spec; [done|exact Ht|done|done| |].
    + intros s' b' T Hn. eapply turned_settled; [done|]. intros x.
      apply (pi_turned s b h c p); [done..|]. right. intros (sp & Hin & _). by apply (Hn sp).
    + intros s' b' sp T Hin. pose proof (tu_frame _ _ _ _ _ _ _ T) as F.
      destruct (pi_turned s b h c p s' b') as [Hok Hpc]; [done..|].
      destruct (don s sp) as [d|] eqn:Hd.
      * assert (Hds : is_Some (tcbs s !! d)) by (by apply (hq_tcb _ _ (pi_hq _ _ _ H) sp)).
        assert (Hdi : d <> idle_tcb s) by (destruct (pi_idle _ _ _ H _ _ Hin); congruence).
        eapply wp_mono; [apply (IH s' b' d)|intros ? s2 HS; by apply (settled_turned _ _ _ _ _ _ _ _ T HS)].
        -- apply T.
        -- by apply (prop_frame_is_Some _ _ d F).
        -- by rewrite (pf_idle _ _ F).
        -- intros x Hx. apply Hok. destruct (decide (x = c)) as [->|]; [by left|right].
           rewrite (waits_don _ _ _ _ _ (pi_bq _ _ _ H) Hin). congruence.
        -- intros e He. destruct (decide (d = c)) as [->|Hdc].
           ++ assert (Hic : inherited s' b' c (prio s' c)).
              { apply Hok; [by left|by apply (prop_frame_is_Some _ _ c F)|by rewrite (pf_idle _ _ F)]. }
              rewrite (inherited_unique _ _ _ _ _ Hic He). unfold dir_le. by destruct down.
           ++ rewrite (tu_prio _ _ _ _ _ _ _ T), decide_False by done.
              apply (inherited_direction down s b h c p s' b' d); [done..| |done]. by apply Hoth.
        -- pose proof (distance_turned down s b h c p s' b' H T Hc Hid Hp Hdir Hne). lia.
      * assert (HPI : PI s' b').
        { intros x. apply Hok. right. rewrite (waits_don _ _ _ _ _ (pi_bq _ _ _ H) Hin). congruence. }
        destruct fuel; apply wp_ret; by apply (turned_settled s b h c p s' b').
Qed.

End propagation.
