(* ===== verification/MicroSync.v ===== *)
(** * Blocking, unblocking and changes of priority

    [syncpoint_t::block], [unblock], [refresh] and [scheduler_t::set_priority]
    with [CONFIG_SCHEDULE_INHERITANCE]: each leaves the queues sorted and
    every thread at the priority that the inheritance equation gives it. *)

From S2P Require Import Prelude Rings Queueing MicroLib MicroState MicroSched MicroReady MicroBlocked MicroInherit MicroPropagate.
#[local] Open Scope Z_scope.

Section operations.
Context {cfg : MicroConfig}.
Hypothesis inheritance : schedule_inheritance = true.
Implicit Types (s : mstate) (b : sync_ptr -> list nat) (h : nat -> list nat) (x y : nat) (sp : sync_ptr).

(** What an operation on the blocked queues establishes: [mem] says which
    threads are blocked where. *)
Definition after s h s' (mem : sync_ptr -> nat -> Prop) : Prop :=
  exists b', PI0 s' b' h /\ PI s' b' /\ prop_frame s s' /\ forall sp y, y ∈ b' sp <-> mem sp y.

Lemma settled_after s b h s1 b1 s2 mem :
  prop_frame s s1 -> (forall sp y, y ∈ b1 sp <-> mem sp y) -> settled s1 b1 h s2 -> after s h s2 mem.
Proof.
  intros F Hm (b2 & H2 & HP & F2 & Hm2). exists b2. split_and!; [done..|by eapply prop_frame_trans|].
  intros sp y. by rewrite (Hm2 sp y).
Qed.

(** The invariant after a change of the queue of one synchronisation point. *)
Lemma pi0_wait s b h sp s' b' :
  PI0 s b h -> wait_frame sp s s' -> BQ s' b' -> (forall sp', sorted_by (prio s) (b' sp')) ->
  (forall sp' y, y ∈ b' sp' -> y <> idle_tcb s /\ don s sp' <> Some (idle_tcb s)) -> PI0 s' b' h.
Proof.
  intros H F HB Hs Hid. pose proof (wait_frame_prop _ _ _ F) as Fp. constructor; try done.
  - eapply prop_frame_hq; [done|apply H].
  - destruct (pi_rq _ _ _ H) as [q HR]. exists q. by eapply wait_frame_rq.
  - intros sp'. eapply sorted_by_ext; [apply Hs|]. intros. apply (wait_frame_prio _ _ _ _ F).
  - intros x t' Ht' Hx. rewrite (pf_idle _ _ Fp) in Hx. destruct (tcbs s !! x) as [t|] eqn:Ht; [|by rewrite (pf_none _ _ Fp) in Ht'].
    destruct (wf_tcb _ _ _ F _ _ Ht) as (t0 & Ht0 & Hsm). simplify_eq. rewrite (wait_same_eff _ _ Hsm).
    rewrite (prop_same_base _ _ (prop_same_wait _ _ Hsm)). by apply (pi_range _ _ _ H x).
  - intros y sp' Hy. rewrite (pf_idle _ _ Fp), (pf_don _ _ Fp). by apply Hid.
Qed.

(** Threads that nobody started or stopped waiting for keep their equation. *)
Lemma pi_at_wait s b sp s' b' x :
  wait_frame sp s s' -> (forall y, waits s' b' y x <-> waits s b y x) -> PI_at s b x -> PI_at s' b' x.
Proof.
  intros F Hw HP Hx Hid. pose proof (wait_frame_prop _ _ _ F) as Fp. rewrite (pf_idle _ _ Fp) in Hid.
  apply (prop_frame_is_Some _ _ x Fp) in Hx. rewrite (wait_frame_prio _ _ _ _ F).
  eapply inherited_ext; [apply (prop_frame_base _ _ _ Fp)|done|intros; apply (wait_frame_prio _ _ _ _ F)|by apply HP].
Qed.

Lemma waits_other s b sp s' b' x :
  wait_frame sp s s' -> (forall sp', sp' <> sp -> b' sp' = b sp') -> don s sp <> Some x ->
  forall y, waits s' b' y x <-> waits s b y x.
Proof.
  intros F Hb Hd y. pose proof (wait_frame_prop _ _ _ F) as Fp. unfold waits. setoid_rewrite (pf_don _ _ Fp).
  split; intros (sp' & Hy & Hd'); exists sp'; (split; [|done]); (rewrite Hb in * || rewrite <-Hb in *); congruence || done.
Qed.

Lemma wait_sync sp s s' v : wait_frame sp s s' -> syncpoints s !! sp = Some v -> exists v', syncpoints s' !! sp = Some v' /\ donatee v' = don s sp.
Proof.
  intros F Hv. pose proof (wf_donatee _ _ _ F) as Hd. rewrite Hv in Hd. destruct (syncpoints s' !! sp) as [v'|]; [|done].
  exists v'. split; [done|]. unfold don. rewrite Hv. simpl in *. congruence.
Qed.

(** ** Blocking *)

Lemma block_spec s b h x t sp :
  PI0 s b h -> PI s b -> tcbs s !! x = Some t -> waiting_for t = None -> x <> idle_tcb s ->
  is_Some (syncpoints s !! sp) -> don s sp <> Some (idle_tcb s) ->
  wp (Sync.block sp x) (fun _ s' => after s h s' (fun sp' y => y ∈ b sp' \/ (y = x /\ sp' = sp))) s.
Proof.
  intros H HP Ht Hw Hid [v Hv] Hdi.
  assert (Hnx : forall sp', x ∉ b sp') by (intros sp' Hin; apply (bq_wait _ _ (pi_bq _ _ _ H) _ _ _ Ht) in Hin; congruence).
  unfold Sync.block. apply wp_bind. eapply wp_get_field; [done|]. apply wp_bind, wp_ASSERT.
  { unfold is_queued. simpl. rewrite (bq_link _ _ (pi_bq _ _ _ H) _ _ Ht Hw). done. }
  apply wp_bind. wp_call enqueue_blocked_spec; [apply H|done..|]. intros _ s1 [HB1 F1]. set (b1 := upd_sp b sp _) in HB1.
  pose proof (wait_frame_prop _ _ _ F1) as Fp.
  assert (Hmem : forall sp' y, y ∈ b1 sp' <-> y ∈ b sp' \/ (y = x /\ sp' = sp)).
  { intros sp' y. unfold b1, upd_sp. case_decide as E; [subst sp'; rewrite elem_of_insert_by|]; naive_solver. }
  assert (Hpx : effective_prio t = prio s x) by (unfold prio; by rewrite Ht).
  assert (H1 : PI0 s1 b1 h).
  { eapply pi0_wait; [done..| |].
    - intros sp'. unfold b1, upd_sp. case_decide; [apply sorted_insert_by; [|done]|]; apply (pi_sorted _ _ _ H).
    - intros sp' y Hy. apply Hmem in Hy as [Hy|[-> ->]]; [by apply (pi_idle _ _ _ H)|done]. }
  assert (Hoth : forall z, don s sp <> Some z -> PI_at s1 b1 z).
  { intros z Hz. eapply pi_at_wait; [done| |apply HP]. eapply waits_other; [done| |done]. intros sp' Hne. unfold b1. by rewrite upd_sp_ne. }
  rewrite inheritance. destruct (wait_sync _ _ _ _ F1 Hv) as (v1 & Hv1 & Hd1).
  apply wp_bind. eapply wp_rd_sync; [done|]. rewrite Hd1. destruct (don s sp) as [d|] eqn:Hd.
  - rewrite bool_decide_eq_true_2 by done. assert (Hx1 : is_Some (tcbs s1 !! x)) by (apply (prop_frame_is_Some _ _ x Fp); by eexists).
    apply wp_bind. apply wp_rd_prio; [done|]. unfold Sync.propagate_priority_increase. apply wp_bind. eapply wp_rd_sync; [done|].
    rewrite Hd1. apply wp_bind, wp_gets. assert (Hds : is_Some (tcbs s !! d)) by (by apply (hq_tcb _ _ (pi_hq _ _ _ H) sp)).
    assert (Hdn : d <> idle_tcb s) by congruence. rewrite (wait_frame_prio _ _ _ _ F1).
    eapply wp_mono; [apply (propagate_increase_spec _ s1 b1 h); try done|].
    + by apply (prop_frame_is_Some _ _ d Fp).
    + by rewrite (pf_idle _ _ Fp).
    + rewrite <-Hpx. by apply (pi_range _ _ _ H x).
    + intros z Hz. apply Hoth. congruence.
    + rewrite (wait_frame_prio _ _ _ _ F1). destruct (HP d Hds Hdn) as (A1 & A2 & A3).
      assert (Hws : forall y, waits s1 b1 y d <-> waits s b y d \/ y = x).
      { intros y. unfold waits. setoid_rewrite (pf_don _ _ Fp). setoid_rewrite Hmem. naive_solver. }
      unfold inherited. rewrite (prop_frame_base _ _ _ Fp). split_and!; [lia| |].
      * intros y Hy. rewrite (wait_frame_prio _ _ _ _ F1). apply Hws in Hy as [Hy| ->]; [specialize (A2 _ Hy)|]; lia.
      * destruct (Z.le_gt_cases (prio s x) (prio s d)).
        -- rewrite Z.max_l by lia. destruct A3 as [?|(y & Hy & He)]; [by left|]. right. exists y.
           rewrite Hws, (wait_frame_prio _ _ _ _ F1). auto.
        -- rewrite Z.max_r by lia. right. exists x. rewrite Hws, (wait_frame_prio _ _ _ _ F1). auto.
    + pose proof (below_size s1 (prio s x)). lia.
    + intros ? s2 HS. by eapply settled_after.
  - rewrite bool_decide_eq_false_2 by (intros Hn; by apply Hn). apply wp_ret. exists b1. split_and!; [done| |done|done].
    intros z. by apply Hoth.
Qed.

(** ** Unblocking *)

Lemma propagate_priority_change_spec down s b h sp v d :
  PI0 s b h -> syncpoints s !! sp = Some v -> donatee v = Some d -> d <> idle_tcb s ->
  (forall x, x <> d -> PI_at s b x) -> (forall e, inherited s b d e -> dir_le down (prio s d) e) ->
  wp (Sync.propagate_priority_change sp) (fun _ s' => settled s b h s') s.
Proof.
  intros H Hv Hd Hid Hoth Hdir. assert (Hds : is_Some (tcbs s !! d)).
  { apply (hq_tcb _ _ (pi_hq _ _ _ H) sp). unfold don. by rewrite Hv. }
  unfold Sync.propagate_priority_change. apply wp_bind. eapply wp_rd_sync; [done|]. rewrite Hd. apply wp_bind, wp_gets.
  apply (propagate_change_spec down); [done..|]. by apply (distance_bound down s b h).
Qed.

(** Of fewer waiting threads the highest priority is not higher. *)
Lemma inherited_fewer s s' b b' x e e' :
  base s' x = base s x -> (forall y, waits s' b' y x -> waits s b y x /\ prio s' y = prio s y) ->
  inherited s b x e -> inherited s' b' x e' -> e' <= e.
Proof.
  intros Hb Hw (A1 & A2 & A3) (B1 & B2 & B3). rewrite Hb in *. destruct B3 as [->|(y & Hy & <-)]; [done|].
  destruct (Hw y Hy) as [Hy' ->]. by apply A2.
Qed.

Lemma unblock_spec s b h x t sp :
  PI0 s b h -> PI s b -> tcbs s !! x = Some t -> waiting_for t = Some sp ->
  wp (Sync.unblock sp x) (fun _ s' => after s h s' (fun sp' y => y ∈ b sp' /\ y <> x)) s.
Proof.
  intros H HP Ht Hw. assert (Hin : x ∈ b sp) by (by apply (bq_wait _ _ (pi_bq _ _ _ H) _ _ _ Ht)).
  destruct (syncpoints s !! sp) as [v|] eqn:Hv; [|rewrite (bq_out _ _ (pi_bq _ _ _ H) _ Hv) in Hin; set_solver].
  unfold Sync.unblock. apply wp_bind. eapply wp_get_field; [done|]. apply wp_bind, wp_ASSERT.
  { apply (rl_queue_queued blocked_list _ _ _ _ _ (bq_ring _ _ (pi_bq _ _ _ H) _ _ Hv) Hin Ht). }
  apply wp_bind. wp_call dequeue_blocked_spec; [apply H|done..|]. intros _ s1 (HB1 & F1 & _). set (b1 := upd_sp b sp _) in HB1.
  pose proof (wait_frame_prop _ _ _ F1) as Fp.
  assert (Hmem : forall sp' y, y ∈ b1 sp' <-> y ∈ b sp' /\ y <> x).
  { intros sp' y. unfold b1, upd_sp. case_decide as E; [subst sp'; rewrite list_elem_of_filter; naive_solver|].
    split; [|naive_solver]. intros Hy. split; [done|]. intros ->. apply E. by apply (bq_unique _ _ _ _ _ (pi_bq _ _ _ H) Hy Hin). }
  assert (H1 : PI0 s1 b1 h).
  { eapply pi0_wait; [done..| |].
    - intros sp'. unfold b1, upd_sp. case_decide; [apply sorted_by_filter|]; apply (pi_sorted _ _ _ H).
    - intros sp' y Hy. apply Hmem in Hy as [Hy _]. by apply (pi_idle _ _ _ H). }
  assert (Hoth : forall z, don s sp <> Some z -> PI_at s1 b1 z).
  { intros z Hz. eapply pi_at_wait; [done| |apply HP]. eapply waits_other; [done| |done]. intros sp' Hne. unfold b1. by rewrite upd_sp_ne. }
  rewrite inheritance. destruct (wait_sync _ _ _ _ F1 Hv) as (v1 & Hv1 & Hd1).
  apply wp_bind. eapply wp_rd_sync; [done|]. rewrite Hd1. destruct (don s sp) as [d|] eqn:Hd.
  - rewrite bool_decide_eq_true_2 by done. assert (Hds : is_Some (tcbs s !! d)) by (by apply (hq_tcb _ _ (pi_hq _ _ _ H) sp)).
    assert (Hdn : d <> idle_tcb s) by (destruct (pi_idle _ _ _ H _ _ Hin); congruence).
    eapply wp_mono; [apply (propagate_priority_change_spec true s1 b1 h sp v1 d); try done|].
    + by rewrite (pf_idle _ _ Fp).
    + intros z Hz. apply Hoth. congruence.
    + intros e He. simpl. rewrite (wait_frame_prio _ _ _ _ F1).
      eapply (inherited_fewer s s1 b b1 d); [apply (prop_frame_base _ _ _ Fp)| |by apply HP|done].
      intros y (sp' & Hy & Hd'). rewrite (wait_frame_prio _ _ _ _ F1). split; [|done]. rewrite (pf_don _ _ Fp) in Hd'.
      exists sp'. split; [|done]. by apply Hmem in Hy as [Hy _].
    + intros ? s2 HS. by eapply settled_after.
  - rewrite bool_decide_eq_false_2 by (intros Hn; by apply Hn). apply wp_ret. exists b1. split_and!; [done| |done|done].
    intros z. by apply Hoth.
Qed.

(** ** Changing a base priority *)

(** The state with another base priority for [x]. *)
Definition with_base s x (p : Z) : mstate := set_tcbs (alter (set_base_prio p) x (tcbs s)) s.

Lemma with_base_tcb s x p y t' :
  tcbs (with_base s x p) !! y = Some t' ->
  exists t, tcbs s !! y = Some t /\ t' = (if decide (y = x) then set_base_prio p t else t).
Proof.
  unfold with_base. simpl. destruct (decide (y = x)) as [->|].
  - rewrite lookup_alter_eq. destruct (tcbs s !! x) as [t|]; simpl; [|done]. intros [= <-]. eauto.
  - rewrite lookup_alter_ne by done. eauto.
Qed.

Lemma with_base_view {A} (g : tcb_t -> A) s x p y :
  (forall w, g (set_base_prio p w) = g w) -> g <$> tcbs (with_base s x p) !! y = g <$> tcbs s !! y.
Proof.
  intros Hg. unfold with_base. simpl. destruct (decide (y = x)) as [->|]; [|by rewrite lookup_alter_ne].
  rewrite lookup_alter_eq. destruct (tcbs s !! x); simpl; [by rewrite Hg|done].
Qed.

Lemma with_base_prio s x p y : prio (with_base s x p) y = prio s y.
Proof. unfold prio. by rewrite (with_base_view effective_prio) by (by intros []). Qed.

Lemma with_base_is_Some s x p y : is_Some (tcbs (with_base s x p) !! y) <-> is_Some (tcbs s !! y).
Proof. rewrite <-!not_eq_None_Some. pose proof (with_base_view (fun _ => ()) s x p y) as H. destruct (tcbs s !! y), (tcbs (with_base s x p) !! y); naive_solver. Qed.

Lemma with_base_pi0 s b h x p : PI0 s b h -> prio_ok p -> PI0 (with_base s x p) b h.
Proof.
  intros H Hp. destruct (pi_rq _ _ _ H) as [q HR]. constructor.
  - eapply bq_frame; [apply H|done|]. intros y. apply with_base_view. by intros [].
  - destruct (pi_hq _ _ _ H). constructor; try done.
    + intros y t' Ht'. apply with_base_tcb in Ht' as (t & Ht & ->). specialize (hq_ring _ _ Ht). case_decide; [|done]. by destruct t.
    + intros y Hy. by apply hq_send, (with_base_is_Some s x p).
    + intros y Hi Hy. by apply hq_recv, (with_base_is_Some s x p).
    + intros sp y Hy. apply (with_base_is_Some s x p). by eapply hq_tcb.
  - exists q. eapply rq_frame; [done..|]. intros y. apply with_base_view. by intros [].
  - intros sp. eapply sorted_by_ext; [apply (pi_sorted _ _ _ H)|]. intros. apply with_base_prio.
  - intros y t' Ht' Hid. apply with_base_tcb in Ht' as (t & Ht & ->). destruct (pi_range _ _ _ H _ _ Ht Hid).
    case_decide; [|done]. by destruct t.
  - apply (pi_idle _ _ _ H).
Qed.

Lemma with_base_pi s b x p : PI s b -> forall y, y <> x -> PI_at (with_base s x p) b y.
Proof.
  intros HP y Hy Hs Hid. apply with_base_is_Some in Hs. rewrite with_base_prio. eapply inherited_ext; [| |intros; apply with_base_prio|by apply HP].
  - unfold base, with_base. simpl. by rewrite lookup_alter_ne.
  - done.
Qed.

(** The same priority: a requeued thread only changes its place. *)
Lemma pi_requeued s b h c s' b' : PI0 s b h -> turned s b h c (prio s c) s' b' -> PI s b -> PI s' b'.
Proof.
  intros H T HP x Hx Hid. pose proof (tu_frame _ _ _ _ _ _ _ T) as F. rewrite (pf_idle _ _ F) in Hid.
  apply (prop_frame_is_Some _ _ x F) in Hx.
  assert (Hpr : forall y, is_Some (tcbs s !! y) -> prio s' y = prio s y).
  { intros y Hy. rewrite (tu_prio _ _ _ _ _ _ _ T) by done. by case_decide; subst. }
  rewrite Hpr by done. eapply inherited_ext; [by apply prop_frame_base|intros y; by apply waits_same, T| |by apply HP].
  intros y (sp & Hy & _). apply Hpr. eapply bq_in_tcbs; [apply H|done].
Qed.

(** [set_base_priority]: the thread gets the priority of its equation, but
    not yet its new place on the queue it waits on. *)
Lemma set_base_priority_spec s b h x t p :
  PI0 s b h -> tcbs s !! x = Some t -> x <> idle_tcb s -> prio_ok p ->
  let s0 := with_base s x p in
  wp (Thread.set_base_priority x p) (fun _ s' => exists e, inherited s0 b x e /\ prio_ok e /\
    BQ s' b /\ (exists q, RQ s' q) /\ prop_frame s0 s' /\ syncpoints s' = syncpoints s0 /\
    forall y, is_Some (tcbs s0 !! y) -> prio s' y = if decide (y = x) then e else prio s0 y) s.
Proof.
  intros H Ht Hid Hp s0. pose proof (with_base_pi0 s b h x p H Hp) as H0. fold s0 in H0.
  assert (Hx0 : is_Some (tcbs s0 !! x)) by (apply with_base_is_Some; by eexists). pose proof Hx0 as [t0 Ht0].
  unfold Thread.set_base_priority. apply wp_bind. apply wp_rd_prio; [by eexists|].
  apply wp_bind. apply wp_wr_alter; [by eexists|]. fold s0. rewrite inheritance.
  apply wp_bind. wp_call calc_effective_priority_spec; [done..|]. intros e s1 [-> Hi].
  assert (He : prio_ok e) by (by eapply inherited_ok). destruct (pi_rq _ _ _ H0) as [q HR].
  assert (Hpx : prio s0 x = prio s x) by apply with_base_prio.
  destruct (Z.eqb_spec e (prio s x)) as [Heq|Hne]; simpl.
  - apply wp_ret. exists e. split_and!; try done; [apply H0|by eexists|apply prop_frame_refl|].
    intros y _. case_decide as E; [by rewrite E, Heq, <-Hpx|done].
  - wp_call set_effective_spec; [apply H0|apply H0|done..|]. intros _ s1 (A1 & A2 & A3 & A4 & A5 & A6).
    exists e. split_and!; try done. by eexists.
Qed.

(** The rest of [refresh] once [x], with its new priority, is in its place. *)
Lemma change_turned s0 b h x e s2 b2 sp v2 :
  PI0 s0 b h -> turned s0 b h x e s2 b2 -> x ∈ b sp -> syncpoints s2 !! sp = Some v2 -> donatee v2 = don s0 sp ->
  is_Some (tcbs s0 !! x) -> x <> idle_tcb s0 -> (forall y, y <> x -> PI_at s0 b y) ->
  (forall z, z = x \/ ~ waits s0 b x z -> PI_at s2 b2 z) ->
  wp (let! d := rd_sync sp donatee in when bool_decide (d <> None) do Sync.propagate_priority_change sp)
     (fun _ s' => settled s0 b h s') s2.
Proof.
  intros H0 T Hin Hv2 Hd2 Hx0 Hid HP0 Hturn. pose proof (tu_frame _ _ _ _ _ _ _ T) as F.
  apply wp_bind. eapply wp_rd_sync; [done|]. rewrite Hd2. destruct (don s0 sp) as [d|] eqn:Hd.
  + rewrite bool_decide_eq_true_2 by done.
    assert (Hds : is_Some (tcbs s0 !! d)) by (by apply (hq_tcb _ _ (pi_hq _ _ _ H0) sp)).
    assert (Hdn : d <> idle_tcb s0) by (destruct (pi_idle _ _ _ H0 _ _ Hin); congruence).
    set (down := bool_decide (e <= prio s0 x)).
    assert (Hdir : dir_le down (prio s0 x) e) by (unfold down, dir_le; case_bool_decide; lia).
    eapply wp_mono; [apply (propagate_priority_change_spec down s2 b2 h sp v2 d); try done|].
    * apply T.
    * by rewrite (pf_idle _ _ F).
    * intros z Hz. apply Hturn. right. rewrite (waits_don _ _ _ _ _ (pi_bq _ _ _ H0) Hin). congruence.
    * intros e' He'. destruct (decide (d = x)) as [->|Hdx].
      -- assert (Hix : inherited s2 b2 x (prio s2 x)).
         { apply Hturn; [by left|by apply (prop_frame_is_Some _ _ x F)|by rewrite (pf_idle _ _ F)]. }
         rewrite (inherited_unique _ _ _ _ _ Hix He'). unfold dir_le. by destruct down.
      -- rewrite (tu_prio _ _ _ _ _ _ _ T), decide_False by done.
         apply (inherited_direction down s0 b h x e s2 b2 d); [done..| |done]. by apply HP0.
    * intros ? s3 HS. by apply (settled_turned _ _ _ _ _ _ _ _ T HS).
  + rewrite bool_decide_eq_false_2 by (intros Hn; by apply Hn). apply wp_ret. eapply turned_settled; [done|].
    intros z. apply Hturn. right. rewrite (waits_don _ _ _ _ _ (pi_bq _ _ _ H0) Hin). congruence.
Qed.

Lemma set_priority_spec s b h x t p :
  PI0 s b h -> PI s b -> tcbs s !! x = Some t -> x <> idle_tcb s -> prio_ok p ->
  wp (Scheduler.set_priority x p) (fun _ s' => settled (with_base s x p) b h s') s.
Proof.
  intros H HP Ht Hid Hp. pose proof (with_base_pi0 s b h x p H Hp) as H0. pose proof (with_base_pi s b x p HP) as HP0.
  unfold Scheduler.set_priority. apply wp_bind, wp_ASSERT. { unfold prio_ok in Hp. apply andb_true_iff. split; apply Z.leb_le; lia. }
  apply wp_bind. wp_call set_base_priority_spec; [done..|]. set (s0 := with_base s x p) in *.
  intros _ s1 (e & Hi & He & HB1 & HR1 & F1 & Hsy1 & Hp1).
  assert (Hx0 : is_Some (tcbs s0 !! x)) by (apply with_base_is_Some; by eexists).
  assert (Hx1 : is_Some (tcbs s1 !! x)) by (by apply (prop_frame_is_Some _ _ x F1)). destruct Hx1 as [t1 Ht1].
  assert (Hs1 : forall sp l, (forall y, y ∈ l -> y ∈ b sp /\ y <> x) -> sorted_by (prio s0) l -> sorted_by (prio s1) l).
  { intros sp l Hl Hs. eapply sorted_by_ext; [done|]. intros y Hy. destruct (Hl _ Hy) as [Hyb Hyc].
    rewrite Hp1 by (eapply bq_in_tcbs; [apply H0|done]). by rewrite decide_False. }
  (* what a turn leaves to do *)
  assert (Hturn : forall s2 b2, turned s0 b h x e s2 b2 -> forall z, z = x \/ ~ waits s0 b x z -> PI_at s2 b2 z).
  { intros s2 b2 T z Hz. destruct (decide (e = prio s0 x)) as [->|Hne]; [|by eapply pi_turned].
    eapply pi_requeued; [done..|]. intros y. destruct (decide (y = x)) as [->|]; [by intros _ _|by apply HP0]. }
  apply wp_bind. eapply wp_get_field; [done|]. destruct (waiting_for t1) as [sp|] eqn:Hw.
  - assert (Hin : x ∈ b sp) by (by apply (bq_wait _ _ HB1 _ _ _ Ht1)).
    unfold Sync.refresh. eapply requeue_blocked_spec; [done..| |].
    { intros sp'. eapply Hs1; [|apply sorted_by_filter, (pi_sorted _ _ _ H0)]. intros y. rewrite list_elem_of_filter. naive_solver. }
    intros s2 b2 HB2 F2 Hm2 Hs2. pose proof (wait_frame_prop _ _ _ F2) as Fp2.
    assert (T : turned s0 b h x e s2 b2).
    { apply pi0_change; try done.
      - by eapply prop_frame_trans.
      - destruct HR1 as [q HR1]. exists q. by eapply wait_frame_rq.
      - intros y Hy. rewrite (wait_frame_prio _ _ _ _ F2). by apply Hp1. }
    assert (exists v, syncpoints s1 !! sp = Some v) as [v Hv].
    { rewrite Hsy1. destruct (syncpoints s0 !! sp) eqn:E; [by eexists|]. rewrite (bq_out _ _ (pi_bq _ _ _ H0) _ E) in Hin. set_solver. }
    destruct (wait_sync _ _ _ _ F2 Hv) as (v2 & Hv2 & Hd2). rewrite (pf_don _ _ F1) in Hd2.
    rewrite inheritance. apply (change_turned s0 b h x e s2 b2 sp v2); auto.
  - assert (Hc : forall sp, x ∉ b sp) by (intros sp Hin; apply (bq_wait _ _ HB1 _ _ _ Ht1) in Hin; congruence).
    assert (T : turned s0 b h x e s1 b).
    { apply pi0_change; try done. intros sp. eapply Hs1; [|apply (pi_sorted _ _ _ H0)]. intros y Hy. split; [done|]. intros ->. by apply (Hc sp). }
    apply wp_ret. eapply turned_settled; [done|]. intros z. apply (Hturn _ _ T). right. intros (sp & Hy & _). by apply (Hc sp).
Qed.

End operations.
