(* ===== verification/MicroKernel.v ===== *)
(** * The microkernel's scheduler

    The invariant that the kernel keeps between two kernel entries, and the
    proof that [schedule] and the fast paths of [schedule.h] re-establish it:
    the running thread is runnable and no ready thread has a higher effective
    priority. *)

From S2P Require Import Prelude Rings Queueing MicroLib MicroState MicroSched MicroReady MicroBlocked MicroInherit.
#[local] Open Scope Z_scope.

Section kernel.
Context {cfg : MicroConfig}.
Implicit Types (s : mstate) (b : sync_ptr -> list nat) (h : nat -> list nat) (q : queues) (x y c : nat) (E : list nat).

(** ** Views of a thread *)

(** The thread is on a ready queue; it is in a runnable state. *)
Definition ready s x : Prop := exists t, tcbs s !! x = Some t /\ is_queued ready_list t = true.
Definition runnable s x : Prop := exists t, tcbs s !! x = Some t /\ is_runnable (thread_state t) = true.

Lemma rq_ready s q x : RQ s q -> ready s x <-> exists p, x ∈ q p.
Proof.
  intros H. split.
  - intros (t & Ht & Hq). exists (effective_prio t). by apply (rq_queued_iff _ _ _ _ H Ht).
  - intros [p Hp]. destruct (rq_prio _ _ H _ _ Hp) as (_ & t & Ht & <-). exists t. split; [done|]. by apply (rq_queued_iff _ _ _ _ H Ht).
Qed.

Lemma rq_ready_prio s q x p : RQ s q -> x ∈ q p -> prio s x = p.
Proof. intros H Hp. destruct (rq_prio _ _ H _ _ Hp) as (_ & t & Ht & <-). unfold prio. by rewrite Ht. Qed.

(** What of a thread priority inheritance depends on, and the same with the
    thread's state and what it keeps for its wake-up from a mutex. *)
Definition pi_view (t : tcb_t) := (base_prio t, effective_prio t, blocked_view t, mutexes_head t).
Definition sched_view (t : tcb_t) := (pi_view t, thread_state t, (sysdata_mutex t, uncontended_hybrid t, mutex_continuation t)).

Definition same_view {A} (g : tcb_t -> A) s s' : Prop := forall x, g <$> tcbs s' !! x = g <$> tcbs s !! x.

Lemma same_view_refl {A} (g : tcb_t -> A) s : same_view g s s.
Proof. done. Qed.
Lemma same_view_trans {A} (g : tcb_t -> A) s1 s2 s3 : same_view g s1 s2 -> same_view g s2 s3 -> same_view g s1 s3.
Proof. intros H1 H2 x. by rewrite H2. Qed.
Lemma same_view_weaken {A B} (f : A -> B) (g : tcb_t -> A) s s' : same_view g s s' -> same_view (fun t => f (g t)) s s'.
Proof. intros H x. specialize (H x). destruct (tcbs s' !! x), (tcbs s !! x); simpl in *; congruence. Qed.

Lemma same_view_lookup {A} (g : tcb_t -> A) s s' x t' :
  same_view g s s' -> tcbs s' !! x = Some t' -> exists t, tcbs s !! x = Some t /\ g t' = g t.
Proof. intros H Ht. specialize (H x). rewrite Ht in H. destruct (tcbs s !! x) as [t|]; simpl in H; [|done]. exists t. split; congruence. Qed.

Lemma same_view_is_Some {A} (g : tcb_t -> A) s s' x : same_view g s s' -> is_Some (tcbs s' !! x) <-> is_Some (tcbs s !! x).
Proof. intros H. specialize (H x). rewrite <-!not_eq_None_Some. destruct (tcbs s' !! x), (tcbs s !! x); naive_solver. Qed.

Lemma same_view_alter {A} (g : tcb_t -> A) s f x s1 :
  tcbs s1 = tcbs s -> (forall t, g (f t) = g t) -> same_view g s (set_tcbs (alter f x (tcbs s)) s1).
Proof.
  intros Hs Hg y. simpl. destruct (decide (y = x)) as [->|]; [|by rewrite lookup_alter_ne].
  rewrite lookup_alter_eq. destruct (tcbs s !! x); simpl; [by rewrite Hg|done].
Qed.

Lemma pi_view_prio s s' x : same_view pi_view s s' -> prio s' x = prio s x.
Proof.
  intros H. unfold prio. specialize (H x). destruct (tcbs s' !! x), (tcbs s !! x); simpl in *; try done.
  unfold pi_view in H. congruence.
Qed.

(** States that agree on everything but the ready queues, the running thread
    and the parts of threads that no invariant mentions. *)
Record sched_frame s s' : Prop := {
  sf_mutexes : mutexes s' = mutexes s;
  sf_sync : syncpoints s' = syncpoints s;
  sf_idle : idle_tcb s' = idle_tcb s;
  sf_view : same_view sched_view s s'
}.

Lemma sched_frame_refl s : sched_frame s s.
Proof. by constructor. Qed.
Lemma sched_frame_trans s1 s2 s3 : sched_frame s1 s2 -> sched_frame s2 s3 -> sched_frame s1 s3.
Proof. intros [] []. constructor; [congruence..|by eapply same_view_trans]. Qed.

Lemma sf_pi s s' : sched_frame s s' -> same_view pi_view s s'.
Proof. intros F. apply (same_view_weaken (fun w => w.1.1) sched_view), F. Qed.
Lemma sf_prio s s' x : sched_frame s s' -> prio s' x = prio s x.
Proof. intros F. by apply pi_view_prio, sf_pi. Qed.

Lemma sf_runnable s s' x : sched_frame s s' -> runnable s' x <-> runnable s x.
Proof.
  intros F. pose proof (sf_view _ _ F x) as H. unfold runnable.
  destruct (tcbs s' !! x) as [t'|], (tcbs s !! x) as [t|]; simpl in *; try done.
  - assert (thread_state t' = thread_state t) as Hs by (unfold sched_view in H; congruence). naive_solver congruence.
Qed.

Lemma ready_frame_view {A} (g : tcb_t -> A) s s' :
  ready_frame s s' -> (forall p w, g (set_ready_next p w) = g w) -> (forall p w, g (set_ready_prev p w) = g w) -> same_view g s s'.
Proof.
  intros F Hn Hp x. destruct (tcbs s !! x) as [t|] eqn:Ht; [|by rewrite (rf_none _ _ F)].
  destruct (rf_tcb _ _ F _ _ Ht) as (t' & -> & Hs). simpl. f_equal. by apply (Hs _ g).
Qed.

Lemma ready_frame_sched s s' : ready_frame s s' -> sched_frame s s'.
Proof. intros F. constructor; [apply F..|]. apply ready_frame_view; [done|by intros ? []..]. Qed.

(** ** Priority inheritance does not notice scheduling *)

Lemma pi0_view s s' b h :
  PI0 s b h -> same_view pi_view s s' -> mutexes s' = mutexes s -> syncpoints s' = syncpoints s -> idle_tcb s' = idle_tcb s ->
  (exists q, RQ s' q) -> PI0 s' b h.
Proof.
  intros H Hv Hm Hs Hi HR. assert (Hd : forall sp, don s' sp = don s sp) by (intros; unfold don; by rewrite Hs).
  constructor; try done.
  - eapply bq_frame; [apply H|done|]. exact (same_view_weaken (fun v => v.1.2) pi_view _ _ Hv).
  - destruct (pi_hq _ _ _ H). constructor.
    + intros x t' Ht'. destruct (same_view_lookup _ _ _ _ _ Hv Ht') as (t & Ht & He). rewrite Hm. unfold pi_view in He.
      assert (mutexes_head t' = mutexes_head t) as -> by congruence. by apply hq_ring.
    + intros. rewrite Hd. apply hq_holder.
    + intros. rewrite Hd. apply hq_send. by apply (same_view_is_Some _ _ _ _ Hv).
    + intros. rewrite Hd. apply hq_recv; [done|]. by apply (same_view_is_Some _ _ _ _ Hv).
    + intros x y. rewrite !Hd. apply hq_endpoint.
    + intros sp x Hx. rewrite Hd in Hx. apply (same_view_is_Some _ _ _ _ Hv). by eapply hq_tcb.
  - intros sp. eapply sorted_by_ext; [apply (pi_sorted _ _ _ H)|]. intros. by apply pi_view_prio.
  - intros x t' Ht' Hid. rewrite Hi in Hid. destruct (same_view_lookup _ _ _ _ _ Hv Ht') as (t & Ht & He). unfold pi_view in He.
    assert (base_prio t' = base_prio t /\ effective_prio t' = effective_prio t) as [-> ->] by (split; congruence).
    by apply (pi_range _ _ _ H x).
  - intros y sp Hy. rewrite Hi, Hd. by apply (pi_idle _ _ _ H).
Qed.

Lemma pi_view_pi s s' b :
  PI s b -> same_view pi_view s s' -> syncpoints s' = syncpoints s -> idle_tcb s' = idle_tcb s -> PI s' b.
Proof.
  intros HP Hv Hs Hi x Hx Hid. rewrite Hi in Hid. apply (same_view_is_Some _ _ _ _ Hv) in Hx. rewrite (pi_view_prio s) by done.
  eapply inherited_ext; [| |intros; by apply pi_view_prio|by apply HP].
  - unfold base. specialize (Hv x). destruct (tcbs s' !! x), (tcbs s !! x); simpl in *; try done. unfold pi_view in Hv. congruence.
  - intros y. unfold waits, don. by rewrite Hs.
Qed.

(** ** The invariant *)

(** [E] are the threads that the kernel has in hand: they are on no ready
    queue, whatever their state.  Between kernel entries that is the running
    thread only. *)
Record Kern E s b h : Prop := {
  k_pi0 : PI0 s b h;
  k_pi : PI s b;
  k_hand x : x ∈ E -> is_Some (tcbs s !! x) /\ ~ ready s x;
  k_ready x : x ∉ E -> x <> idle_tcb s -> ready s x <-> runnable s x;
  k_idle : runnable s (idle_tcb s) /\ prio s (idle_tcb s) = -1;
  k_blocked x sp : x ∈ b sp -> ~ runnable s x;
  k_mutex x m : x ∈ b (MutexSync m) -> exists t, tcbs s !! x = Some t /\ thread_state t = waiting_mutex;
  k_free m : don s (MutexSync m) = None -> b (MutexSync m) = [];
  k_object m : is_Some (mutexes s !! m) <-> is_Some (syncpoints s !! MutexSync m)
}.

(** No ready thread has a higher priority than [p]. *)
Definition top s (p : Z) : Prop := forall x, ready s x -> prio s x <= p.

(** The state in which the kernel returns to a thread. *)
Record Running s b h : Prop := {
  r_kern : Kern [current_tcb s] s b h;
  r_runnable : runnable s (current_tcb s);
  r_top : scheduling_invariants_violated s = false -> top s (prio s (current_tcb s))
}.

Lemma kern_rq E s b h : Kern E s b h -> exists q, RQ s q.
Proof. intros K. apply (pi_rq _ _ _ (k_pi0 _ _ _ _ K)). Qed.

(** The idle thread is never ready. *)
Lemma idle_not_ready s q : RQ s q -> ~ ready s (idle_tcb s).
Proof. intros H Hr. apply (rq_ready _ _ _ H) in Hr as [p Hp]. by apply (rq_prio _ _ H) in Hp as [? _]. Qed.

(** A change of the ready queues, of the kernel's hand and of states. *)
Lemma kern_change E E' s s' b h :
  Kern E s b h -> same_view pi_view s s' -> mutexes s' = mutexes s -> syncpoints s' = syncpoints s -> idle_tcb s' = idle_tcb s ->
  (exists q, RQ s' q) ->
  (forall x, x ∈ E' -> is_Some (tcbs s !! x) /\ ~ ready s' x) ->
  (forall x, x ∉ E' -> x <> idle_tcb s -> ready s' x <-> runnable s' x) -> runnable s' (idle_tcb s) ->
  (forall x sp, x ∈ b sp -> ~ runnable s' x) ->
  (forall x m, x ∈ b (MutexSync m) -> exists t, tcbs s' !! x = Some t /\ thread_state t = waiting_mutex) ->
  Kern E' s' b h.
Proof.
  intros K Hv Hm Hs Hi HR Hh Hr Hri Hb Hw. constructor; try done.
  - by eapply pi0_view; [apply K|..].
  - by eapply pi_view_pi; [apply K|..].
  - intros x Hx. destruct (Hh x Hx) as [Hsx Hn]. split; [|done]. by apply (same_view_is_Some _ _ _ _ Hv).
  - intros x Hx Hid. rewrite Hi in Hid. by apply Hr.
  - rewrite Hi, (pi_view_prio _ _ _ Hv). split; [done|apply K].
  - intros m. unfold don. rewrite Hs. apply K.
  - intros m. rewrite Hm, Hs. apply K.
Qed.

(** Moving threads between the ready queues and the kernel's hand. *)
Lemma kern_frame E E' s s' b h :
  Kern E s b h -> sched_frame s s' -> (exists q, RQ s' q) ->
  (forall x, x ∈ E' -> is_Some (tcbs s !! x) /\ ~ ready s' x) ->
  (forall x, x ∉ E' -> x <> idle_tcb s -> ready s' x <-> runnable s x) ->
  Kern E' s' b h.
Proof.
  intros K F HR Hh Hr. eapply kern_change; [done|by apply sf_pi|apply F..|done|done| | | |].
  - intros x. rewrite (sf_runnable _ _ _ F). apply Hr.
  - apply (sf_runnable _ _ _ F), (k_idle _ _ _ _ K).
  - intros x sp Hx. rewrite (sf_runnable _ _ _ F). by apply (k_blocked _ _ _ _ K x sp).
  - intros x m Hx. destruct (k_mutex _ _ _ _ K x m Hx) as (t & Ht & Hst).
    pose proof (sf_view _ _ F x) as Hv. rewrite Ht in Hv. destruct (tcbs s' !! x) as [t'|]; [|done]. exists t'. split; [done|].
    simpl in Hv. unfold sched_view in Hv. congruence.
Qed.

(** ** Steps of the scheduler *)

(** [x] is to continue at [k]. *)
Definition saved s x (k : Z) : Prop := exists t, tcbs s !! x = Some t /\ cont t = k.

(** A step that leads to the ready queues [q']. *)
Record sched_step s q' s' : Prop := {
  st_frame : sched_frame s s';
  st_rq : RQ s' q';
  st_current : current_tcb s' = current_tcb s;
  st_violated : scheduling_invariants_violated s' = scheduling_invariants_violated s
}.

Lemma step_trans s1 q2 s2 q3 s3 : sched_step s1 q2 s2 -> sched_step s2 q3 s3 -> sched_step s1 q3 s3.
Proof. intros [] []. constructor; [by eapply sched_frame_trans|done|congruence..]. Qed.
Lemma step_refl s q : RQ s q -> sched_step s q s.
Proof. intros. constructor; [apply sched_frame_refl|done..]. Qed.

(** Assignments to fields that the invariants do not mention. *)
Lemma step_write s q x f :
  RQ s q -> (forall t, sched_view (f t) = sched_view t) -> (forall t, ready_view (f t) = ready_view t) ->
  sched_step s q (set_tcbs (alter f x (tcbs s)) s).
Proof.
  intros H Hs Hr. constructor; [|eapply rq_frame; [done..|]|done|done].
  - constructor; [done..|by apply same_view_alter].
  - apply (same_view_alter ready_view s f x s); done.
Qed.

Lemma ready_step s q s' x : sched_step s q s' -> ready s' x <-> exists p, x ∈ q p.
Proof. intros H. by apply rq_ready, H. Qed.

Lemma step_is_Some s q s' x : sched_step s q s' -> is_Some (tcbs s' !! x) <-> is_Some (tcbs s !! x).
Proof. intros H. apply (same_view_is_Some _ _ _ _ (sf_view _ _ (st_frame _ _ _ H))). Qed.

Lemma not_ready_link s x t : ~ ready s x -> tcbs s !! x = Some t -> is_queued ready_list t = false /\ ready_next t = None.
Proof.
  intros Hn Ht. assert (Hq : is_queued ready_list t = false) by (destruct (is_queued ready_list t) eqn:E; [|done]; exfalso; apply Hn; by exists t).
  split; [done|]. unfold is_queued in Hq. simpl in Hq. apply bool_decide_eq_false in Hq. destruct (ready_next t); [|done]. exfalso. by apply Hq.
Qed.

Lemma enqueue_step s q x :
  RQ s q -> is_Some (tcbs s !! x) -> ~ ready s x -> x <> idle_tcb s -> prio_ok (prio s x) ->
  wp (Scheduler.enqueue x) (fun _ s' => sched_step s (enq q (prio s x) x) s' /\ same_view cont s s') s.
Proof.
  intros H [t Ht] Hn Hid Hp. assert (He : prio s x = effective_prio t) by (unfold prio; by rewrite Ht). rewrite He in *.
  unfold Scheduler.enqueue. apply wp_bind, wp_gets. apply wp_bind, wp_ASSERT; [by apply bool_decide_eq_true|].
  wp_call enqueue_ready_spec; [done..|by eapply not_ready_link|done|done|]. intros _ s' [HR F]. split.
  - constructor; [by apply ready_frame_sched|done|apply F|apply F].
  - apply ready_frame_view; [done|by intros ? []..].
Qed.

Lemma dequeue_step s q x :
  RQ s q -> ready s x -> wp (Scheduler.dequeue x) (fun _ s' => sched_step s (deq q x) s' /\ same_view cont s s') s.
Proof.
  intros H (t & Ht & Hq). assert (Hid : x <> idle_tcb s) by (intros ->; eapply (idle_not_ready s q H); by exists t).
  unfold Scheduler.dequeue. apply wp_bind, wp_gets. apply wp_bind, wp_ASSERT; [by apply bool_decide_eq_true|].
  wp_call dequeue_ready_queues; [done..|]. intros _ s' (HR & F & _). split.
  - constructor; [by apply ready_frame_sched|done|apply F|apply F].
  - apply ready_frame_view; [done|by intros ? []..].
Qed.

Lemma mark_step s q x :
  RQ s q -> is_Some (tcbs s !! x) ->
  wp (Scheduler.mark_thread_as_preempted x) (fun _ s' => sched_step s q s' /\ same_view cont s s') s.
Proof.
  intros H [t Ht]. unfold Scheduler.mark_thread_as_preempted. apply wp_bind. eapply wp_get_field; [done|].
  destruct (preempt_signaled t); [|apply wp_ret; split; [by apply step_refl|done]].
  apply wp_bind. eapply wp_get_field; [done|]. apply wp_bind, wp_wr_alter; [by eexists|].
  set (s1 := set_tcbs _ s). assert (H1 : sched_step s q s1) by (apply step_write; [done|by intros []..]).
  assert (Hs1 : is_Some (tcbs s1 !! x)) by (apply (step_is_Some s q s1 x H1); by eexists). destruct Hs1 as [t1 Ht1].
  apply wp_bind. eapply wp_get_field; [done|]. apply wp_wr_alter; [by eexists|]. split.
  - eapply step_trans; [done|]. apply step_write; [apply H1|by intros []..].
  - eapply (same_view_trans cont _ s1); [by apply same_view_alter; [|intros []]|by apply same_view_alter; [|intros []]].
Qed.

Lemma switch_from_step s q c k :
  RQ s q -> is_Some (tcbs s !! c) -> ~ ready s c ->
  wp (switch_from c k) (fun _ s' => sched_step s q s' /\ saved s' c k /\ forall x, x <> c -> tcbs s' !! x = tcbs s !! x) s.
Proof.
  intros H [t Ht] Hn. unfold switch_from. apply wp_bind. eapply wp_get_field; [done|].
  apply wp_bind, wp_ASSERT; [apply bool_decide_eq_true; by eapply not_ready_link|]. apply wp_wr_alter; [by eexists|]. split_and!.
  - apply step_write; [done|by intros []..].
  - exists (set_cont k t). simpl. rewrite lookup_alter_eq, Ht. split; [done|by destruct t].
  - intros x Hx. simpl. by rewrite lookup_alter_ne.
Qed.

Lemma switch_to_step s q n sch k :
  RQ s q -> saved s n k -> ~ ready s n ->
  wp (switch_to n sch) (fun _ s' => s' = set_activated k (set_current_tcb n (set_current_schedule sch s))) s.
Proof.
  intros H (t & Ht & Hk) Hn. unfold switch_to. apply wp_bind. eapply wp_get_field; [done|].
  apply wp_bind, wp_ASSERT; [apply bool_decide_eq_true; by eapply not_ready_link|]. apply wp_bind, wp_modify.
  apply wp_bind. eapply wp_get_field; [done|]. apply wp_bind, wp_modify. apply wp_modify. by rewrite Hk.
Qed.

(** The registers of the processor are not part of any invariant. *)
Lemma rq_registers s q v1 v2 v3 : RQ s q -> RQ (set_activated v1 (set_current_tcb v2 (set_current_schedule v3 s))) q.
Proof. intros H. by eapply rq_frame. Qed.

Lemma elem_of_enq_deq q n p c x p' : x ∈ enq (deq q n) p c p' <-> (x ∈ q p' /\ x <> n) \/ (x = c /\ p' = p).
Proof. by rewrite elem_of_enq, elem_of_deq. Qed.

Lemma same_view_saved s s' x k : same_view cont s s' -> saved s x k -> saved s' x k.
Proof.
  intros Hv (t & Ht & Hk). specialize (Hv x). rewrite Ht in Hv. destruct (tcbs s' !! x) as [t'|] eqn:Ht'; [|done].
  exists t'. split; [done|]. simpl in Hv. congruence.
Qed.

Lemma saved_exists s x : is_Some (tcbs s !! x) -> exists k, saved s x k.
Proof. intros [t Ht]. exists (cont t), t. done. Qed.

(** Of the thread [c] that entered the kernel and the thread that leaves it: a
    thread continues at the continuation it stopped with. *)
Definition resumed s c (k : Z) s' : Prop :=
  if decide (current_tcb s' = c) then activated s' = k else saved s' c k /\ saved s (current_tcb s') (activated s').

(** What [schedule] does with the ready queues [q]. *)
Inductive scheduled s q c (flags : Z) s' : Prop :=
| sched_stay :
    runnable s c -> (forall p, q p <> [] -> p <= prio s c) ->
    (Scheduler.has_flag flags Scheduler.sched_round_robin = true -> q (prio s c) = []) ->
    current_tcb s' = c -> RQ s' q -> scheduled s q c flags s'
| sched_switch p n l :
    q p = n :: l -> (forall p', q p' <> [] -> p' <= p) ->
    (runnable s c -> prio s c <= p) ->
    (runnable s c -> prio s c = p -> Scheduler.has_flag flags Scheduler.sched_round_robin = true) ->
    current_tcb s' = n ->
    (runnable s c /\ c <> idle_tcb s -> RQ s' (enq (deq q n) (prio s c) c)) ->
    (~ (runnable s c /\ c <> idle_tcb s) -> RQ s' (deq q n)) -> scheduled s q c flags s'
| sched_idle :
    (forall p, q p = []) -> (runnable s c -> c = idle_tcb s) ->
    current_tcb s' = idle_tcb s -> RQ s' q -> scheduled s q c flags s'.

Lemma runnable_tcb s c t : tcbs s !! c = Some t -> runnable s c <-> is_runnable (thread_state t) = true.
Proof. intros Ht. split; [intros (t' & Ht' & Hr); congruence|intros; by exists t]. Qed.

(** The running thread hands over to [n], which is off the queues. *)
Lemma kern_switch E c n s b h s' q' :
  Kern E s b h -> sched_frame s s' -> RQ s' q' -> current_tcb s' = n -> is_Some (tcbs s !! n) ->
  (forall p, n ∉ q' p) -> (forall x, x <> n -> x <> idle_tcb s -> (exists p, x ∈ q' p) <-> runnable s x) ->
  runnable s n -> (forall p x, x ∈ q' p -> p <= prio s n) -> Running s' b h.
Proof.
  intros K F HR Hc Hn Hnq Hr Hrn Htop. constructor; rewrite ?Hc.
  - apply (kern_frame E [n] s s'); [done|done|by eexists| |].
    + intros x Hx. apply list_elem_of_singleton in Hx as ->. split; [done|]. rewrite (rq_ready _ _ _ HR). intros [p Hp]. by apply (Hnq p).
    + intros x Hx Hid. rewrite (rq_ready _ _ _ HR). apply Hr; [set_solver|done].
  - by apply (sf_runnable _ _ _ F).
  - intros _ x Hx. apply (rq_ready _ _ _ HR) in Hx as [p Hp]. rewrite (rq_ready_prio _ _ _ _ HR Hp), (sf_prio _ _ _ F). by eapply Htop.
Qed.

Lemma kern_prio E s b h x : Kern E s b h -> is_Some (tcbs s !! x) -> x <> idle_tcb s -> prio_ok (prio s x).
Proof. intros K [t Ht] Hid. unfold prio. rewrite Ht. simpl. by apply (pi_range _ _ _ (k_pi0 _ _ _ _ K) x). Qed.

(** The tail of [schedule]: the thread [n], already off the queues [q0], takes
    over from [c]. *)
Lemma hand_over_spec s0 s q0 c n kn k (cr : bool) E b h :
  Kern E s0 b h -> sched_step s0 q0 s -> c ∈ E -> (forall p, c ∉ q0 p) -> (forall p, n ∉ q0 p) -> saved s n kn -> (c = n -> cr = false \/ c = idle_tcb s0) ->
  wp (do! switch_from c k in
      do! (when cr && bool_decide (c <> idle_tcb s0) do Scheduler.enqueue c) in
      do! Scheduler.set_active_thread n n in
      switch_to n n)
     (fun _ s' => sched_frame s0 s' /\ current_tcb s' = n /\ saved s' c k /\ activated s' = (if decide (c = n) then k else kn) /\
        scheduling_invariants_violated s' = scheduling_invariants_violated s /\
        RQ s' (if cr && bool_decide (c <> idle_tcb s0) then enq q0 (prio s0 c) c else q0)) s.
Proof.
  intros K T Hc Hcq Hnq Hn Hcn. destruct (k_hand _ _ _ _ K c Hc) as [Hcs _].
  pose proof (st_frame _ _ _ T) as F. pose proof (st_rq _ _ _ T) as HR.
  assert (Hcs' : is_Some (tcbs s !! c)) by (by apply (step_is_Some _ _ _ _ T)).
  assert (Hnr : forall x, (forall p, x ∉ q0 p) -> forall s1, RQ s1 q0 -> ~ ready s1 x).
  { intros x Hx s1 HR1. rewrite (rq_ready _ _ _ HR1). intros [p Hp]. by apply (Hx p). }
  apply wp_bind. wp_call switch_from_step; [done|done|by eapply Hnr|]. intros _ s1 (T1 & Hk1 & Ho1).
  assert (Hn1 : saved s1 n (if decide (c = n) then k else kn)).
  { case_decide as Hne; [by subst|]. destruct Hn as (t & Ht & He). exists t. by rewrite Ho1. }
  pose proof (step_trans _ _ _ _ _ T T1) as T01. pose proof (st_frame _ _ _ T01) as F01.
  apply wp_bind. eapply (wp_mono _ (fun _ s2 => sched_step s1 (if cr && bool_decide (c <> idle_tcb s0) then enq q0 (prio s0 c) c else q0) s2 /\ same_view cont s1 s2)).
  { destruct (cr && bool_decide (c <> idle_tcb s0)) eqn:Ecr; [|apply wp_ret; split; [apply step_refl, T1|done]].
    apply andb_true_iff in Ecr as [_ Hid]. apply bool_decide_eq_true in Hid. rewrite <-(sf_prio _ _ _ F01).
    apply enqueue_step; [apply T1|by apply (step_is_Some _ _ _ _ T01)|eapply Hnr; [done|apply T1]|by rewrite (sf_idle _ _ F01)|].
    rewrite (sf_prio _ _ _ F01). by eapply kern_prio. }
  intros _ s2 [T2 Hc2]. pose proof (step_trans _ _ _ _ _ T01 T2) as T02.
  apply wp_bind. unfold Scheduler.set_active_thread. apply wp_modify.
  wp_call switch_to_step; [eapply rq_frame; [apply T2|done..]|by eapply same_view_saved| |].
  { change (~ ready s2 n). rewrite (ready_step _ _ _ _ T2). intros [p Hp]. revert Hp.
    destruct (cr && bool_decide (c <> idle_tcb s0)) eqn:Ecr; [|apply Hnq]. rewrite elem_of_enq. intros [Hp|[-> ->]]; [by apply (Hnq p)|].
    apply andb_true_iff in Ecr as [-> Hid]. apply bool_decide_eq_true in Hid. destruct Hcn; done. }
  intros _ s3 ->. pose proof (st_frame _ _ _ T02) as F02. split_and!; try done.
  - constructor; [apply F02..|]. exact (sf_view _ _ F02).
  - by apply (same_view_saved s1).
  - simpl. rewrite (st_violated _ _ _ T2), (st_violated _ _ _ T1). done.
  - apply rq_registers. eapply rq_frame; [apply T2|done..].
Qed.

(** ** [schedule] *)

Lemma highest_top q p x p' : highest q p -> x ∈ q p' -> p' <= p.
Proof. intros [[-> Hq]|(_ & _ & Hq)] Hx; [rewrite Hq in Hx; set_solver|]. apply Hq. intros Hn. rewrite Hn in Hx. set_solver. Qed.

(** The flag and the continuation of the current thread are not part of the
    invariant. *)
Lemma kern_registers E s b h v k : Kern E s b h -> Kern E (set_activated k (set_scheduling_invariants_violated v s)) b h.
Proof. intros K. eapply kern_frame; [done|by constructor| | |]; [|apply K..]. destruct (kern_rq _ _ _ _ K) as [q H]. exists q. by eapply rq_frame. Qed.

Lemma stay_spec s b h q c k flags max :
  Kern [c] s b h -> RQ s q -> c = current_tcb s -> highest q max -> runnable s c ->
  max < prio s c \/ (Scheduler.has_flag flags Scheduler.sched_round_robin = false /\ prio s c = max) ->
  let s' := set_activated k (set_scheduling_invariants_violated false s) in
  Running s' b h /\ scheduled s q c flags s'.
Proof.
  intros K HR Hc Hmax Hr Hp s'. assert (HR' : RQ s' q) by (by eapply rq_frame). split.
  - constructor.
    + simpl. rewrite <-Hc. by apply kern_registers.
    + simpl. by rewrite <-Hc.
    + intros _ x Hx. apply (rq_ready _ _ _ HR') in Hx as [p Hx]. rewrite (rq_ready_prio _ _ _ _ HR' Hx).
      pose proof (highest_top _ _ _ _ Hmax Hx). change (p <= prio s (current_tcb s)). rewrite <-Hc. lia.
  - apply sched_stay; try done.
    + intros p Hne. destruct (q p) as [|x l] eqn:El; [done|]. assert (p <= max) by (eapply (highest_top q max x); [done|rewrite El; set_solver]). lia.
    + intros Hrr. destruct Hp as [Hlt|[Hrr' _]]; [|congruence]. destruct (q (prio s c)) as [|x l] eqn:El; [done|].
      assert (prio s c <= max) by (eapply (highest_top q max x); [done|rewrite El; set_solver]). lia.
Qed.

(** The first thread of the highest queue is taken off it, or the idle thread
    is taken. *)
Lemma next_spec s q max :
  RQ s q -> highest q max ->
  wp (if 0 <=? max then
        let! head := PrioQueue.get max in
        let! next := demand InvalidPointer head in
        do! Scheduler.dequeue next in
        ret next
      else ret (idle_tcb s))
     (fun n s' => sched_step s (deq q n) s' /\ same_view cont s s' /\
        ((max = -1 /\ n = idle_tcb s /\ forall p, q p = []) \/ (prio_ok max /\ exists l, q max = n :: l))) s.
Proof.
  intros H [[-> Hq]|(Hok & Hne & _)].
  - apply wp_ret. split_and!; [|done|by left]. apply step_refl. eapply rq_ext; [done|]. intros p. unfold deq. by rewrite Hq.
  - pose proof Hok as [H0 H1]. apply Z.leb_le in H0 as ->. destruct (rq_ring _ _ H _ Hok) as (hd & Hhd & Hh & _).
    destruct (q max) as [|n l] eqn:El; [done|]. simpl in Hh. subst hd.
    apply wp_bind. unfold PrioQueue.get. apply wp_bind, wp_ASSERT. { apply andb_true_iff. unfold prio_ok in Hok. split; apply Z.leb_le; lia. }
    apply wp_bind, wp_gets. eapply wp_index; [unfold prio_ok in Hok; lia|done|]. apply wp_bind, (wp_demand _ _ n); [done|].
    apply wp_bind. wp_call dequeue_step; [done| |].
    { apply (rq_ready _ _ _ H). exists max. rewrite El. set_solver. }
    intros _ s' [T Hv]. apply wp_ret. split_and!; [done|done|]. right. split; [done|]. by exists l.
Qed.

Lemma deq_not_in q n p : n ∉ deq q n p.
Proof. rewrite elem_of_deq. by intros [_ ?]. Qed.

(** The thread that takes over, and the queues it leaves. *)
Definition chosen s q (max : Z) (n : nat) : Prop :=
  (max = -1 /\ n = idle_tcb s /\ forall p, q p = []) \/ (prio_ok max /\ exists l, q max = n :: l).

Lemma chosen_runnable s b h q c max n :
  Kern [c] s b h -> RQ s q -> chosen s q max n -> runnable s n /\ prio s n = max /\ (forall p, n ∈ q p -> p = max).
Proof.
  intros K HR [(-> & -> & Hall)|(Hok & l & Hl)].
  - destruct (k_idle _ _ _ _ K). split_and!; [done..|]. intros p. rewrite Hall. set_solver.
  - assert (Hn : n ∈ q max) by (rewrite Hl; set_solver). split_and!; [|by eapply rq_ready_prio|intros p Hp; by eapply rq_unique].
    assert (Hnr : ready s n) by (apply (rq_ready _ _ _ HR); by exists max).
    apply (k_ready _ _ _ _ K); [|by apply (rq_prio _ _ HR) in Hn as [? _]|done].
    intros Hc. apply (k_hand _ _ _ _ K) in Hc as [_ Hc]. done.
Qed.

Lemma handed_over s b h q c flags max n s' (cr : bool) :
  Kern [c] s b h -> RQ s q -> highest q max -> chosen s q max n -> (runnable s c <-> cr = true) ->
  (cr = true -> prio s c <= max /\ (prio s c = max -> Scheduler.has_flag flags Scheduler.sched_round_robin = true)) ->
  sched_frame s s' -> current_tcb s' = n ->
  RQ s' (if cr && bool_decide (c <> idle_tcb s) then enq (deq q n) (prio s c) c else deq q n) ->
  Running s' b h /\ scheduled s q c flags s'.
Proof.
  intros K HR Hmax Hn Hcr Hle F Hcur HR'. destruct (k_hand _ _ _ _ K c ltac:(set_solver)) as [Hcs Hcn].
  assert (Hcq : forall p, c ∉ q p) by (intros p Hp; apply Hcn, (rq_ready _ _ _ HR); by exists p).
  destruct (chosen_runnable _ _ _ _ _ _ _ K HR Hn) as (Hnr & Hnp & Hnq).
  assert (Hbusy : cr = true -> c <> idle_tcb s -> exists l, q max = n :: l).
  { intros Hr Hid. destruct Hn as [(-> & _)|(_ & ?)]; [|done]. pose proof (kern_prio _ _ _ _ _ K Hcs Hid) as Hok.
    unfold prio_ok in Hok. destruct (Hle Hr). lia. }
  split.
  - set (q' := if cr && _ then _ else _) in HR'.
    assert (Hq' : forall x p, x ∈ q' p <-> (x ∈ q p /\ x <> n) \/ (x = c /\ p = prio s c /\ cr = true /\ c <> idle_tcb s)).
    { intros x p. unfold q'. destruct cr; simpl; [case_bool_decide|]; rewrite ?elem_of_enq_deq, ?elem_of_deq; naive_solver. }
    apply (kern_switch [c] c n s b h s' q'); try done.
    + destruct Hnr as (tn & Htn & _). by eexists.
    + intros p. rewrite Hq'. intros [[_ ?]|(-> & _ & Hr & Hid)]; [done|]. destruct (Hbusy Hr Hid) as [l Hl].
      apply (Hcq max). rewrite Hl. set_solver.
    + intros x Hxn Hid. setoid_rewrite Hq'. destruct (decide (x = c)) as [->|Hxc].
      * rewrite Hcr. split; [intros [p [[Hx _]|Hx]]; [by apply Hcq in Hx|by apply Hx]|]. intros. exists (prio s c). by right.
      * rewrite <-(k_ready _ _ _ _ K x) by set_solver. rewrite (rq_ready _ _ _ HR). split; [intros [p Hx]; exists p; naive_solver|].
        intros [p Hx]. exists p. by left.
    + intros p x Hx. rewrite Hnp. apply Hq' in Hx as [[Hx _]|(-> & -> & Hr & _)]; [by eapply highest_top|by apply Hle].
  - destruct Hn as [(-> & -> & Hall)|(Hok & l & Hl)].
    + apply sched_idle; try done.
      * intros Hr. apply Hcr in Hr. destruct (decide (c = idle_tcb s)) as [|Hid]; [done|]. destruct (Hbusy Hr Hid) as [l Hl]. by rewrite Hall in Hl.
      * eapply rq_ext; [done|]. intros p. destruct (cr && _) eqn:Eb; [|unfold deq; by rewrite Hall].
        apply andb_true_iff in Eb as [Hr Hid]. apply bool_decide_eq_true in Hid. destruct (Hbusy Hr Hid) as [l Hl]. by rewrite Hall in Hl.
    + assert (c <> n) by (intros ->; apply (Hcq max); rewrite Hl; set_solver).
      apply (sched_switch _ _ _ _ _ max n l); try done.
      * intros p Hp. destruct (q p) as [|x l'] eqn:El; [done|]. eapply (highest_top q max x); [done|]. rewrite El. set_solver.
      * intros Hr. by apply Hle, Hcr.
      * intros Hr. by apply Hle, Hcr.
      * intros [Hr Hid]. apply Hcr in Hr. by rewrite Hr, bool_decide_eq_true_2 in HR' by done.
      * intros Hno. destruct cr; simpl in HR'; [|done]. rewrite bool_decide_eq_false_2 in HR'; [done|]. intros Hid. apply Hno. by rewrite Hcr.
Qed.

Lemma schedule_spec s b h q c k flags :
  Kern [c] s b h -> RQ s q -> c = current_tcb s ->
  wp (Scheduler.schedule c k flags) (fun _ s' => Running s' b h /\ sched_frame s s' /\ resumed s c k s' /\ scheduled s q c flags s') s.
Proof.
  intros K HR Hc. destruct (k_hand _ _ _ _ K c ltac:(set_solver)) as [[t Ht] Hcn].
  destruct (not_ready_link _ _ _ Hcn Ht) as [Hcq _]. unfold Scheduler.schedule.
  assert (Hcq' : forall p, c ∉ q p) by (intros p Hp; apply Hcn, (rq_ready _ _ _ HR); by exists p).
  apply wp_bind. eapply wp_get_field; [done|]. rewrite Hcq. apply wp_bind, wp_ASSERT; [done|]. apply wp_bind, wp_modify.
  set (s0 := set_scheduling_invariants_violated false s). assert (HR0 : RQ s0 q) by (by eapply rq_frame).
  assert (K0 : Kern [c] s0 b h). { apply (kern_registers _ _ _ _ false (activated s)) in K. by destruct s. }
  apply wp_bind. wp_call get_highest_priority_spec; [done|]. intros max s1 [-> Hmax].
  apply wp_bind. eapply wp_get_field; [done|]. set (cr := is_runnable (thread_state t)).
  assert (Hcr : runnable s c <-> cr = true) by (by apply runnable_tcb).
  apply wp_bind. eapply wp_get_field; [done|]. assert (Hp : effective_prio t = prio s c) by (unfold prio; by rewrite Ht). rewrite Hp.
  destruct (cr && (_ || _)) eqn:Ebr.
  - apply andb_true_iff in Ebr as [Hr Hp']. apply wp_modify. apply orb_true_iff in Hp'.
    destruct (stay_spec s b h q c k flags max) as [A1 A2]; [done..|by apply Hcr| |].
    { destruct Hp' as [Hlt|He]; [left; by apply Z.ltb_lt|]. apply andb_true_iff in He as [Hrr He]. right. split; [by apply negb_true_iff|by apply Z.eqb_eq]. }
    split_and!; [done|by constructor| |done]. unfold resumed. by rewrite decide_True.
  - assert (Hle : cr = true -> prio s c <= max /\ (prio s c = max -> Scheduler.has_flag flags Scheduler.sched_round_robin = true)).
    { intros Hr. rewrite Hr in Ebr. simpl in Ebr. apply orb_false_iff in Ebr as [E1 E2]. apply Z.ltb_ge in E1. split; [done|]. intros He.
      apply Z.eqb_eq in He. rewrite He, andb_true_r in E2. by apply negb_false_iff. }
    apply wp_bind. eapply (wp_mono _ (fun _ s1 => sched_step s0 q s1 /\ same_view cont s0 s1)).
    { destruct (cr && Scheduler.has_flag flags Scheduler.preempting_thread); [apply mark_step; [done|by eexists]|]. apply wp_ret. split; [by apply step_refl|done]. }
    intros _ s1 [T1 Hv1]. apply wp_bind, wp_gets. apply wp_bind. wp_call (next_spec s1 q max); [apply T1|done|].
    intros n s2 (T2 & Hv2 & Hn). pose proof (step_trans _ _ _ _ _ T1 T2) as T. rewrite (sf_idle _ _ (st_frame _ _ _ T1)) in *.
    change (chosen s q max n) in Hn. destruct (chosen_runnable _ _ _ _ _ _ _ K HR Hn) as ((tn & Htn & _) & _ & Hnq).
    destruct (saved_exists s n ltac:(by eexists)) as [kn Hkn].
    wp_call (hand_over_spec s0 s2 (deq q n) c n kn k cr [c] b h); [done|done|set_solver| | | | |].
    + intros p. rewrite elem_of_deq. intros [Hx _]. by apply (Hcq' p).
    + intros p. apply deq_not_in.
    + eapply same_view_saved; [exact Hv2|]. by eapply same_view_saved; [exact Hv1|].
    + intros ->. destruct Hn as [(_ & -> & _)|(_ & l & Hl)]; [by right|]. exfalso. apply (Hcq' max). rewrite Hl. set_solver.
    + intros _ s' (F & Hcur & Hks & Hact & _ & HR'). assert (F' : sched_frame s s') by (destruct F; by constructor).
      destruct (handed_over s b h q c flags max n s' cr); try done. split_and!; try done.
      unfold resumed. rewrite Hact, Hcur. destruct (decide (n = c)) as [->|Hne]; [by rewrite decide_True|]. by rewrite decide_False.
Qed.

(** ** The fast paths *)

(** The kernel takes a thread in hand that is on no queue. *)
Lemma kern_take E s b h x : Kern E s b h -> is_Some (tcbs s !! x) -> ~ ready s x -> Kern (x :: E) s b h.
Proof.
  intros K Hx Hn. eapply kern_frame; [done|apply sched_frame_refl|by eapply kern_rq| |].
  - intros y Hy. apply elem_of_cons in Hy as [->|Hy]; [done|]. by apply (k_hand _ _ _ _ K).
  - intros y Hy Hid. apply (k_ready _ _ _ _ K); [set_solver|done].
Qed.

(** A thread in hand gets a new state. *)
Definition with_state s x (st : thread_state_e) : mstate := set_tcbs (alter (set_thread_state st) x (tcbs s)) s.

Lemma with_state_view {A} (g : tcb_t -> A) s x st : (forall t, g (set_thread_state st t) = g t) -> same_view g s (with_state s x st).
Proof. intros Hg. by apply same_view_alter. Qed.

Lemma with_state_ready s x st y : ready (with_state s x st) y <-> ready s y.
Proof.
  pose proof (with_state_view (is_queued ready_list) s x st ltac:(by intros []) y) as Hv. unfold ready.
  destruct (tcbs (with_state s x st) !! y), (tcbs s !! y); simpl in Hv; naive_solver congruence.
Qed.

Lemma with_state_runnable s x st y :
  is_Some (tcbs s !! x) -> runnable (with_state s x st) y <-> if decide (y = x) then is_runnable st = true else runnable s y.
Proof.
  intros [t Ht]. unfold runnable, with_state. simpl. case_decide as E.
  - subst y. rewrite lookup_alter_eq, Ht. simpl. split; [by intros (t' & [= <-] & Hr)|]. intros Hr. eexists. split; [done|]. by destruct t.
  - by rewrite lookup_alter_ne.
Qed.

Lemma with_state_prio s x st y : prio (with_state s x st) y = prio s y.
Proof. apply pi_view_prio. apply with_state_view. by intros []. Qed.

Lemma with_state_rq s x st q : RQ s q -> RQ (with_state s x st) q.
Proof. intros H. eapply rq_frame; [done..|]. apply with_state_view. by intros []. Qed.

Lemma with_state_mutex s b x st y m E h :
  Kern E s b h -> (x ∈ b (MutexSync m) -> st = waiting_mutex) -> y ∈ b (MutexSync m) ->
  exists t, tcbs (with_state s x st) !! y = Some t /\ thread_state t = waiting_mutex.
Proof.
  intros K Hm Hy. destruct (k_mutex _ _ _ _ K y m Hy) as (t & Ht & Hst). unfold with_state. simpl. destruct (decide (y = x)) as [->|Hyx].
  - rewrite lookup_alter_eq, Ht. simpl. eexists. split; [done|]. rewrite <-(Hm Hy). by destruct t.
  - rewrite lookup_alter_ne by done. eauto.
Qed.

Lemma kern_state E s b h x st :
  Kern E s b h -> x ∈ E -> x <> idle_tcb s -> (forall sp, x ∈ b sp -> is_runnable st = false) ->
  (forall m, x ∈ b (MutexSync m) -> st = waiting_mutex) -> Kern E (with_state s x st) b h.
Proof.
  intros K Hx Hid Hb Hm. destruct (k_hand _ _ _ _ K x Hx) as [Hxs Hn].
  pose proof (fun y => with_state_runnable s x st y Hxs) as Hr.
  eapply kern_change; [done|apply with_state_view; by intros []|done..| | | | | |].
  - destruct (kern_rq _ _ _ _ K) as [q HR]. exists q. by apply with_state_rq.
  - intros y Hy. rewrite with_state_ready. by apply (k_hand _ _ _ _ K).
  - intros y Hy Hyi. rewrite with_state_ready, Hr, decide_False by set_solver. by apply (k_ready _ _ _ _ K).
  - rewrite Hr, decide_False by (by intros Hi; apply Hid). apply (k_idle _ _ _ _ K).
  - intros y sp Hy. rewrite Hr. case_decide as E'; [subst y; rewrite (Hb sp Hy); done|]. by apply (k_blocked _ _ _ _ K y sp).
  - intros y m Hy. eapply with_state_mutex; [done|apply Hm|done].
Qed.

(** [release_and_reschedule_tcb]: a runnable thread leaves the hand for the end
    of its queue. *)
Lemma release_step s0 E s q x b h :
  Kern E s0 b h -> sched_step s0 q s -> x ∈ E -> (forall p, x ∉ q p) ->
  wp (Scheduler.release_and_reschedule_tcb x) (fun _ s' => same_view cont s s' /\ exists q', sched_step s0 q' s' /\
    forall p y, y ∈ q' p <-> y ∈ q p \/ (y = x /\ p = prio s0 x /\ runnable s0 x /\ x <> idle_tcb s0)) s.
Proof.
  intros K T Hx Hq. destruct (k_hand _ _ _ _ K x Hx) as [Hs _]. pose proof (st_frame _ _ _ T) as F.
  assert (is_Some (tcbs s !! x)) as [t Ht] by (by apply (step_is_Some _ _ _ _ T)).
  assert (Hr : runnable s0 x <-> is_runnable (thread_state t) = true) by (rewrite <-(sf_runnable _ _ _ F); by apply runnable_tcb).
  unfold Scheduler.release_and_reschedule_tcb. apply wp_bind. eapply wp_get_field; [done|]. apply wp_bind, wp_gets.
  rewrite (sf_idle _ _ F). destruct (is_runnable (thread_state t) && _) eqn:Eb.
  - apply andb_true_iff in Eb as [Er Eid]. apply bool_decide_eq_true in Eid.
    wp_call enqueue_step; [apply T|by eexists| |by rewrite (sf_idle _ _ F)| |].
    + rewrite (ready_step _ _ _ _ T). intros [p Hp]. by apply (Hq p).
    + rewrite (sf_prio _ _ _ F). by eapply kern_prio.
    + intros _ s' [T' Hc]. split; [done|]. eexists. split; [by eapply step_trans|].
      intros p y. rewrite elem_of_enq, (sf_prio _ _ _ F). naive_solver.
  - apply wp_ret. split; [done|]. exists q. split_and!; try done. intros p y. split; [by left|].
    intros [?|(-> & _ & Hrx & Hid)]; [done|]. apply Hr in Hrx. rewrite Hrx in Eb. simpl in Eb. by apply bool_decide_eq_false in Eb.
Qed.

Lemma resumed_view s s1 c k s' : same_view cont s s1 -> resumed s1 c k s' -> resumed s c k s'.
Proof.
  intros Hv. unfold resumed. case_decide; [done|]. intros [H1 H2]. split; [done|]. eapply same_view_saved; [|done].
  intros x. by rewrite (Hv x).
Qed.

Lemma step_schedule s q s' v : sched_step s q s' -> sched_step s q (set_current_schedule v s').
Proof. intros []. constructor; [destruct st_frame0; by constructor|by eapply rq_frame|done..]. Qed.

(** Who is to run of the current thread [c] and the new thread [x]. *)
Record candidates s b h q c x (can : bool) : Prop := {
  cd_kern : Kern [x; c] s b h;
  cd_rq : RQ s q;
  cd_current : c = current_tcb s;
  cd_ne : x <> c;
  cd_idle : x <> idle_tcb s;
  cd_new : runnable s x;
  cd_can : runnable s c <-> can = true;
  cd_top : scheduling_invariants_violated s = false -> top s (Z.max (prio s c) (prio s x))
}.

Lemma cd_notin s b h q c x can : candidates s b h q c x can -> forall y p, y = x \/ y = c -> y ∉ q p.
Proof.
  intros C y p Hy Hin. destruct (k_hand _ _ _ _ (cd_kern _ _ _ _ _ _ _ C) y) as [_ Hn]; [set_solver|].
  apply Hn, (rq_ready _ _ _ (cd_rq _ _ _ _ _ _ _ C)). by exists p.
Qed.

Lemma cd_below s b h q c x can p y :
  candidates s b h q c x can -> scheduling_invariants_violated s = false -> y ∈ q p -> p <= Z.max (prio s c) (prio s x).
Proof.
  intros C Hv Hy. pose proof (cd_rq _ _ _ _ _ _ _ C) as HR. rewrite <-(rq_ready_prio _ _ _ _ HR Hy).
  apply (cd_top _ _ _ _ _ _ _ C Hv), (rq_ready _ _ _ HR). by exists p.
Qed.

(** The decision is right. *)
Lemma should_schedule_spec s b h q c x can flags :
  candidates s b h q c x can ->
  wp (Scheduler.should_schedule_thread c x can flags) (fun r s' => s' = s /\
    match r with
    | Scheduler.run_current => can = true /\ prio s x <= prio s c /\ (forall p y, y ∈ q p -> p <= prio s c)
    | Scheduler.run_new => (can = true -> prio s c <= prio s x) /\ (forall p y, y ∈ q p -> p <= prio s x)
    | Scheduler.full_schedule => True
    end) s.
Proof.
  intros C. pose proof (fun p y => cd_below _ _ _ _ _ _ _ p y C) as Hb.
  destruct (k_hand _ _ _ _ (cd_kern _ _ _ _ _ _ _ C) x) as [Hx _]; [set_solver|].
  destruct (k_hand _ _ _ _ (cd_kern _ _ _ _ _ _ _ C) c) as [Hc _]; [set_solver|].
  unfold Scheduler.should_schedule_thread. apply wp_bind, wp_gets. destruct (scheduling_invariants_violated s); [by apply wp_ret|].
  apply wp_bind. apply wp_rd_prio; [done|]. apply wp_bind. apply wp_rd_prio; [done|].
  destruct (can && (prio s x <=? prio s c)) eqn:E1.
  - apply andb_true_iff in E1 as [-> E1]. apply Z.leb_le in E1. apply wp_ret. split_and!; [done..|]. intros p y Hy. specialize (Hb p y eq_refl Hy). lia.
  - destruct (Z.leb_spec (prio s c) (prio s x)).
    + apply wp_ret. split_and!; [done..|]. intros p y Hy. specialize (Hb p y eq_refl Hy). lia.
    + apply wp_bind. wp_call get_highest_priority_spec; [apply C|]. intros m s' [-> Hm].
      destruct (Z.leb_spec m (prio s x)); [|by apply wp_ret]. apply wp_ret. split_and!; [done| |].
      * intros ->. simpl in E1. apply Z.leb_gt in E1. lia.
      * intros p y Hy. pose proof (highest_top _ _ _ _ Hm Hy). lia.
Qed.

Lemma run_new_spec s b h q c x can k flags :
  candidates s b h q c x can -> (can = true -> prio s c <= prio s x) -> (forall p y, y ∈ q p -> p <= prio s x) ->
  wp (do! (when Scheduler.has_flag flags Scheduler.preempting_thread do Scheduler.mark_thread_as_preempted c) in
      do! switch_from c k in
      do! Scheduler.set_active_thread x x in
      do! Scheduler.release_and_reschedule_tcb c in
      switch_to x x)
     (fun _ s' => Running s' b h /\ sched_frame s s' /\ resumed s c k s') s.
Proof.
  intros C Hcx Htop. pose proof (cd_kern _ _ _ _ _ _ _ C) as K. pose proof (cd_ne _ _ _ _ _ _ _ C) as Hne. pose proof (cd_rq _ _ _ _ _ _ _ C) as HR.
  destruct (k_hand _ _ _ _ K x ltac:(set_solver)) as [Hx _]. destruct (k_hand _ _ _ _ K c ltac:(set_solver)) as [Hc Hcn].
  apply wp_bind. eapply (wp_mono _ (fun _ s1 => sched_step s q s1 /\ same_view cont s s1)).
  { destruct (Scheduler.has_flag _ _); [by apply mark_step|]. apply wp_ret. split; [by apply step_refl|done]. }
  intros _ s1 [T1 Hv1]. apply wp_bind. wp_call switch_from_step; [apply T1|by apply (step_is_Some _ _ _ _ T1)| |].
  { rewrite (ready_step _ _ _ _ T1). intros [p Hp]. eapply (cd_notin _ _ _ _ _ _ _ C); [|exact Hp]. by right. }
  intros _ s2 (T2 & Hk2 & Ho2). pose proof (step_schedule _ _ _ x (step_trans _ _ _ _ _ T1 T2)) as T.
  destruct (saved_exists s x Hx) as [kx Hkx].
  assert (Hkx2 : saved (set_current_schedule x s2) x kx).
  { destruct (same_view_saved _ _ _ _ Hv1 Hkx) as (t & Ht & He). exists t. simpl. by rewrite Ho2. }
  apply wp_bind. unfold Scheduler.set_active_thread. apply wp_modify. apply wp_bind. wp_call (release_step s [x; c]); [done|exact T|set_solver| |].
  { intros p. eapply cd_notin; [done|by right]. }
  intros _ s3 (Hv3 & q' & T3 & Hq').
  assert (Hxq : forall p, x ∉ q' p).
  { intros p. rewrite Hq'. intros [Hp|(-> & _)]; [|done]. eapply (cd_notin _ _ _ _ _ _ _ C); [|exact Hp]. by left. }
  wp_call switch_to_step; [apply T3|by eapply same_view_saved| |].
  { rewrite (ready_step _ _ _ _ T3). intros [p Hp]. by apply (Hxq p). }
  intros _ s4 ->. pose proof (st_frame _ _ _ T3) as F3. assert (F : sched_frame s (set_activated kx (set_current_tcb x (set_current_schedule x s3)))) by (destruct F3; by constructor).
  split_and!; [|done|].
  - eapply (kern_switch [x; c] c x s b h _ q'); [done|done|apply rq_registers, T3|done..| | |].
    + intros y Hyx Hid. setoid_rewrite Hq'. destruct (decide (y = c)) as [->|Hyc].
      * split; [intros [p [Hp|Hp]]; [|naive_solver]|intros Hr; exists (prio s c); by right].
        exfalso. eapply (cd_notin _ _ _ _ _ _ _ C); [|exact Hp]. by right.
      * rewrite <-(k_ready _ _ _ _ K y) by set_solver. rewrite (rq_ready _ _ _ HR). naive_solver.
    + exact (cd_new _ _ _ _ _ _ _ C).
    + intros p y Hy. apply Hq' in Hy as [Hy|(-> & -> & Hr & _)]; [by eapply Htop|]. apply Hcx. by apply (cd_can _ _ _ _ _ _ _ C).
  - unfold resumed. simpl. rewrite decide_False by done. split; [|done]. eapply (same_view_saved (set_current_schedule x s2)); [|done]. exact Hv3.
Qed.

Lemma run_current_spec s b h q c x can k :
  candidates s b h q c x can -> can = true -> prio s x <= prio s c -> (forall p y, y ∈ q p -> p <= prio s c) ->
  wp (do! ASSERT can in
      do! Scheduler.release_and_reschedule_tcb x in
      ACTIVATE_CONTINUATION k)
     (fun _ s' => Running s' b h /\ sched_frame s s' /\ resumed s c k s') s.
Proof.
  intros C Hcan Hle Htop. pose proof (cd_kern _ _ _ _ _ _ _ C) as K. pose proof (cd_rq _ _ _ _ _ _ _ C) as HR.
  pose proof (cd_ne _ _ _ _ _ _ _ C) as Hne.
  destruct (k_hand _ _ _ _ K c ltac:(set_solver)) as [Hc Hcn]. apply wp_bind, wp_ASSERT; [done|].
  apply wp_bind. wp_call (release_step s [x; c]); [done|by apply step_refl|set_solver|intros p; eapply cd_notin; [done|by left]|].
  intros _ s1 (Hv1 & q' & T1 & Hq'). apply wp_modify. pose proof (st_frame _ _ _ T1) as F1. pose proof (st_current _ _ _ T1) as Hcur.
  assert (F : sched_frame s (set_activated k s1)) by (destruct F1; by constructor).
  rewrite <-(cd_current _ _ _ _ _ _ _ C) in Hcur. split_and!; [|done|unfold resumed; by rewrite decide_True].
  eapply (kern_switch [x; c] c c s b h _ q'); [done|done|eapply rq_frame; [apply T1|done..]|done..| | | |].
  - intros p. rewrite Hq'. intros [Hp|(-> & _)]; [|done]. eapply (cd_notin _ _ _ _ _ _ _ C); [|exact Hp]. by right.
  - intros y Hyc Hid. setoid_rewrite Hq'. destruct (decide (y = x)) as [->|Hyx].
    + split; [intros _; exact (cd_new _ _ _ _ _ _ _ C)|]. intros Hr. exists (prio s x). by right.
    + rewrite <-(k_ready _ _ _ _ K y) by set_solver. rewrite (rq_ready _ _ _ HR). naive_solver.
  - by apply (cd_can _ _ _ _ _ _ _ C).
  - intros p y Hy. apply Hq' in Hy as [Hy|(-> & -> & _)]; [by eapply Htop|done].
Qed.

Lemma full_schedule_spec s b h q c x can k flags :
  candidates s b h q c x can ->
  wp (do! Scheduler.release_and_reschedule_tcb x in Scheduler.schedule c k flags)
     (fun _ s' => Running s' b h /\ sched_frame s s' /\ resumed s c k s') s.
Proof.
  intros C. pose proof (cd_kern _ _ _ _ _ _ _ C) as K. pose proof (cd_rq _ _ _ _ _ _ _ C) as HR.
  pose proof (cd_ne _ _ _ _ _ _ _ C) as Hne. destruct (k_hand _ _ _ _ K c ltac:(set_solver)) as [Hc Hcn].
  apply wp_bind. wp_call (release_step s [x; c]); [done|by apply step_refl|set_solver|intros p; eapply cd_notin; [done|by left]|].
  intros _ s1 (Hv1 & q' & T1 & Hq'). pose proof (st_frame _ _ _ T1) as F1.
  assert (K1 : Kern [c] s1 b h).
  { apply (kern_frame [x; c] [c] s s1); [done|done|eexists; apply T1| |].
    - intros y Hy. apply list_elem_of_singleton in Hy as ->. split; [done|]. rewrite (ready_step _ _ _ _ T1). intros [p Hp].
      apply Hq' in Hp as [Hp|(-> & _)]; [|done]. eapply (cd_notin _ _ _ _ _ _ _ C); [|exact Hp]. by right.
    - intros y Hy Hid. rewrite (ready_step _ _ _ _ T1). setoid_rewrite Hq'. destruct (decide (y = x)) as [->|Hyx].
      + split; [intros _; exact (cd_new _ _ _ _ _ _ _ C)|]. intros Hr. exists (prio s x). by right.
      + rewrite <-(k_ready _ _ _ _ K y) by set_solver. rewrite (rq_ready _ _ _ HR). naive_solver. }
  wp_call schedule_spec; [done|apply T1| |].
  { rewrite (st_current _ _ _ T1). exact (cd_current _ _ _ _ _ _ _ C). }
  intros _ s2 (HRun & F2 & Hres & _). split_and!; [done|by eapply sched_frame_trans|by eapply resumed_view].
Qed.

Lemma fast_schedule_spec s b h q c x can k flags :
  candidates s b h q c x can ->
  wp (Scheduler.fast_schedule c can x k flags) (fun _ s' => Running s' b h /\ sched_frame s s' /\ resumed s c k s') s.
Proof.
  intros C. pose proof (cd_kern _ _ _ _ _ _ _ C) as K.
  destruct (k_hand _ _ _ _ K x ltac:(set_solver)) as [[tx Htx] _]. destruct (k_hand _ _ _ _ K c ltac:(set_solver)) as [[t Ht] _].
  unfold Scheduler.fast_schedule. apply wp_bind. eapply wp_get_field; [done|]. apply wp_bind, wp_ASSERT.
  { destruct can eqn:Ec; [|done]. simpl. by apply (runnable_tcb s c t Ht), (cd_can _ _ _ _ _ _ _ C). }
  apply wp_bind. eapply wp_get_field; [done|]. apply wp_bind, wp_ASSERT; [apply (runnable_tcb s x tx Htx), (cd_new _ _ _ _ _ _ _ C)|].
  apply wp_bind, wp_ASSERT; [apply bool_decide_eq_true; pose proof (cd_ne _ _ _ _ _ _ _ C); congruence|].
  apply wp_bind. wp_call should_schedule_spec; [done|]. intros [] s' [-> Hr].
  - by eapply run_current_spec; naive_solver.
  - by eapply run_new_spec; naive_solver.
  - by eapply full_schedule_spec.
Qed.

End kernel.
