(* ===== verification/MicroPaths.v ===== *)
(** * The scheduler's entry points

    [activate_sched], [deactivate_sched], [deactivate_activate_sched],
    [yield], [handle_timer_interrupt] and the timeslice donation of
    [donate], against the invariant of [MicroKernel]. *)

From S2P Require Import Prelude Rings Queueing MicroLib MicroState MicroSched MicroReady MicroBlocked MicroInherit MicroKernel.
#[local] Open Scope Z_scope.

Section paths.
Context {cfg : MicroConfig}.
Implicit Types (s : mstate) (b : sync_ptr -> list nat) (h : nat -> list nat) (q : queues) (x y c : nat).

(** ** Steps that keep the running thread *)

Lemma kern_same s s' b h q q' E :
  Kern E s b h -> sched_frame s s' -> RQ s q -> RQ s' q' -> (forall p x, x ∈ q' p <-> x ∈ q p) -> Kern E s' b h.
Proof.
  intros K F HR HR' Hq. assert (Hr : forall x, ready s' x <-> ready s x).
  { intros x. rewrite (rq_ready _ _ _ HR), (rq_ready _ _ _ HR'). by setoid_rewrite Hq. }
  eapply kern_frame; [done|done|by eexists|intros x Hx; rewrite Hr; by apply (k_hand _ _ _ _ K)|].
  intros x Hx Hid. rewrite Hr. by apply (k_ready _ _ _ _ K).
Qed.

Lemma running_same s s' b h q q' :
  Running s b h -> sched_frame s s' -> RQ s q -> RQ s' q' -> (forall p x, x ∈ q' p <-> x ∈ q p) ->
  current_tcb s' = current_tcb s -> scheduling_invariants_violated s' = scheduling_invariants_violated s -> Running s' b h.
Proof.
  intros R F HR HR' Hq Hc Hv. constructor; rewrite ?Hc.
  - eapply kern_same; [apply R|done..].
  - apply (sf_runnable _ _ _ F), (r_runnable _ _ _ R).
  - rewrite Hv. intros Hv' x Hx. rewrite !(sf_prio _ _ _ F). apply (r_top _ _ _ R Hv').
    apply (rq_ready _ _ _ HR') in Hx as [p Hx]. apply (rq_ready _ _ _ HR). exists p. by apply Hq.
Qed.

Lemma running_rq s b h : Running s b h -> exists q, RQ s q.
Proof. intros R. eapply kern_rq, R. Qed.

Lemma running_write s b h x f :
  Running s b h -> (forall t, sched_view (f t) = sched_view t) -> (forall t, ready_view (f t) = ready_view t) ->
  Running (set_tcbs (alter f x (tcbs s)) s) b h.
Proof.
  intros R Hs Hr. destruct (running_rq _ _ _ R) as [q HR]. pose proof (step_write s q x f HR Hs Hr) as T.
  eapply running_same; [done|apply T|done|apply T|done..].
Qed.

Lemma running_activate s b h k : Running s b h -> Running (set_activated k s) b h.
Proof. intros R. destruct (running_rq _ _ _ R) as [q HR]. eapply running_same; [done|by constructor|done|by eapply rq_frame|done..]. Qed.

Lemma running_current s b h : Running s b h -> exists t, tcbs s !! current_tcb s = Some t.
Proof. intros R. destruct (r_runnable _ _ _ R) as (t & Ht & _). by exists t. Qed.

(** A runnable thread waits for nothing. *)
Lemma runnable_unblocked E s b h x : Kern E s b h -> runnable s x -> forall sp, x ∉ b sp.
Proof. intros K Hr sp Hx. by apply (k_blocked _ _ _ _ K x sp). Qed.

(** ** A thread becomes runnable *)

(** The state must be one in which every ready thread is at most as urgent as
    the current one or as [x]: after [release] the current thread may have
    lost its inherited priority. *)
Lemma activate_sched_spec s b h x st k flags :
  Kern [current_tcb s] s b h -> runnable s (current_tcb s) -> is_Some (tcbs s !! x) -> ~ runnable s x -> (forall sp, x ∉ b sp) ->
  is_runnable st = true ->
  (scheduling_invariants_violated s = false -> top s (Z.max (prio s (current_tcb s)) (prio s x))) ->
  wp (Scheduler.activate_sched x st (current_tcb s) k flags) (fun _ s' =>
    Running s' b h /\ sched_frame (with_state s x st) s' /\ resumed s (current_tcb s) k s') s.
Proof.
  intros K Hrc Hx Hn Hb Hst Htop. set (c := current_tcb s) in *. pose proof Hx as [t Ht]. destruct (kern_rq _ _ _ _ K) as [q HR].
  assert (Hid : x <> idle_tcb s) by (intros ->; apply Hn, (k_idle _ _ _ _ K)). assert (Hc : x <> c) by (intros ->; done).
  assert (Hnr : ~ ready s x) by (intros Hr; apply Hn; apply (k_ready _ _ _ _ K x); [set_solver|done|done]).
  unfold Scheduler.activate_sched. apply wp_bind, wp_ASSERT; [done|]. apply wp_bind. eapply wp_get_field; [done|]. apply wp_bind, wp_ASSERT.
  { apply negb_true_iff. destruct (is_runnable (thread_state t)) eqn:E; [|done]. exfalso. apply Hn. by exists t. }
  apply wp_bind, wp_gets. apply wp_bind, wp_ASSERT; [by apply bool_decide_eq_true|].
  apply wp_bind, wp_ASSERT; [by apply bool_decide_eq_true|]. apply wp_bind. apply wp_wr_alter; [done|].
  change (set_tcbs _ s) with (with_state s x st).
  assert (Hcv : same_view cont s (with_state s x st)) by (apply with_state_view; by intros []).
  wp_call (fast_schedule_spec (with_state s x st) b h q c x true); [|intros _ s' (R & F & Hres); split_and!; [done|done|by eapply resumed_view]].
  constructor; try done.
  - apply kern_state; [by apply kern_take|set_solver|done| |]; intros ? Hin; by apply Hb in Hin.
  - by apply with_state_rq.
  - apply with_state_runnable; [done|]. by rewrite decide_True.
  - rewrite with_state_runnable by done. by rewrite decide_False.
  - intros Hv y Hy. rewrite !with_state_prio. apply (Htop Hv). by apply with_state_ready in Hy.
Qed.

(** ** A thread stops being runnable *)

Lemma deactivate_current_spec s b h st k flags q :
  Kern [current_tcb s] (with_state s (current_tcb s) st) b h -> RQ s q -> runnable s (current_tcb s) -> current_tcb s <> idle_tcb s ->
  is_runnable st = false ->
  wp (Scheduler.deactivate_sched (current_tcb s) st (current_tcb s) k flags) (fun _ s' =>
    Running s' b h /\ sched_frame (with_state s (current_tcb s) st) s' /\ resumed s (current_tcb s) k s' /\
    scheduled (with_state s (current_tcb s) st) q (current_tcb s) flags s') s.
Proof.
  intros K HR (t & Ht & Hr) Hid Hst. set (c := current_tcb s) in *.
  unfold Scheduler.deactivate_sched. apply wp_bind, wp_ASSERT; [by rewrite Hst|]. apply wp_bind. eapply wp_get_field; [done|].
  apply wp_bind, wp_ASSERT; [done|]. apply wp_bind, wp_gets. apply wp_bind, wp_ASSERT; [by apply bool_decide_eq_true|].
  apply wp_bind. apply wp_wr_alter; [by eexists|]. rewrite bool_decide_eq_false_2 by (intros Hn; by apply Hn). apply wp_bind, wp_ret.
  unfold Scheduler.fast_schedule_current. apply wp_bind, wp_gets. simpl andb. cbv iota.
  wp_call schedule_spec; [exact K|by apply with_state_rq|done|].
  intros _ s' (R & F & Hres & Hs). split_and!; try done. eapply resumed_view; [|done]. apply with_state_view. by intros [].
Qed.

Lemma deactivate_other_spec s b h x st k flags :
  Running s b h -> runnable s x -> x <> idle_tcb s -> x <> current_tcb s -> is_runnable st = false ->
  wp (Scheduler.deactivate_sched x st (current_tcb s) k flags) (fun _ s' =>
    Running s' b h /\ sched_frame (with_state s x st) s' /\ resumed s (current_tcb s) k s') s.
Proof.
  intros R (t & Ht & Hr) Hid Hxc Hst. pose proof (r_kern _ _ _ R) as K. destruct (running_rq _ _ _ R) as [q HR].
  set (c := current_tcb s) in *. set (s1 := with_state s x st).
  assert (Hready : ready s x) by (apply (k_ready _ _ _ _ K); [set_solver|done|by exists t]).
  assert (HR1 : RQ s1 q) by (by apply with_state_rq). assert (Hready1 : ready s1 x) by (by apply with_state_ready).
  unfold Scheduler.deactivate_sched. apply wp_bind, wp_ASSERT; [by rewrite Hst|]. apply wp_bind. eapply wp_get_field; [done|].
  apply wp_bind, wp_ASSERT; [done|]. apply wp_bind, wp_gets. apply wp_bind, wp_ASSERT; [by apply bool_decide_eq_true|].
  apply wp_bind. apply wp_wr_alter; [by eexists|]. rewrite bool_decide_eq_true_2 by done. change (set_tcbs _ s) with s1.
  pose proof Hready1 as (t1 & Ht1 & Hq1). apply wp_bind. apply wp_bind. eapply wp_get_field; [done|]. unfold is_queued in Hq1. simpl in Hq1. rewrite Hq1.
  wp_call dequeue_step; [done..|]. intros _ s2 [T2 Hv2]. pose proof (st_frame _ _ _ T2) as F2.
  assert (Hcv : same_view cont s s2) by (eapply same_view_trans; [apply with_state_view; by intros []|done]).
  pose proof (fun y => with_state_runnable s x st y ltac:(by eexists)) as Hrs. fold s1 in Hrs.
  assert (Hxb : forall sp, x ∉ b sp) by (eapply runnable_unblocked; [done|by exists t]).
  assert (Hr2 : forall y, ready s2 y <-> ready s y /\ y <> x).
  { intros y. rewrite (ready_step _ _ _ _ T2), (rq_ready _ _ _ HR). setoid_rewrite elem_of_deq. naive_solver. }
  assert (K2 : Kern [c] s2 b h).
  { eapply (kern_change [c]); [done|..].
    - eapply same_view_trans; [apply (with_state_view pi_view s x st); by intros []|by apply sf_pi].
    - apply F2.
    - apply F2.
    - apply F2.
    - eexists. apply T2.
    - intros y Hy. rewrite Hr2. destruct (k_hand _ _ _ _ K y Hy). naive_solver.
    - intros y Hy Hyi. rewrite Hr2, (sf_runnable _ _ _ F2), Hrs. case_decide as E; [rewrite Hst; naive_solver|].
      rewrite <-(k_ready _ _ _ _ K y) by done. naive_solver.
    - rewrite (sf_runnable _ _ _ F2), Hrs, decide_False by done. apply (k_idle _ _ _ _ K).
    - intros y sp Hy. rewrite (sf_runnable _ _ _ F2), Hrs, decide_False by (intros ->; by apply (Hxb sp)). by apply (k_blocked _ _ _ _ K y sp).
    - intros y m Hy. destruct (with_state_mutex s b x st y m [c] h K) as (ty & Hty & Hsy); [by intros Hin; apply Hxb in Hin|done|].
      fold s1 in Hty. pose proof (sf_view _ _ F2 y) as Hv. rewrite Hty in Hv. destruct (tcbs s2 !! y) as [t'|]; [|done]. exists t'. split; [done|].
      simpl in Hv. unfold sched_view in Hv. congruence. }
  unfold Scheduler.fast_schedule_current. rewrite bool_decide_eq_true_2 by done. apply wp_bind, wp_gets. simpl andb.
  assert (Hc2 : current_tcb s2 = c) by apply (st_current _ _ _ T2).
  destruct (scheduling_invariants_violated s2) eqn:Hv; simpl negb; cbv iota.
  - wp_call schedule_spec; [exact K2|apply T2|by symmetry|]. intros _ s' (R' & F' & Hres & _).
    split_and!; [done|by eapply sched_frame_trans|by eapply resumed_view].
  - apply wp_modify. split_and!; [|destruct F2; by constructor|unfold resumed; by rewrite decide_True].
    apply running_activate. constructor; rewrite ?Hc2; [done| |].
    + rewrite (sf_runnable _ _ _ F2), Hrs, decide_False by done. apply (r_runnable _ _ _ R).
    + intros _ y Hy. apply Hr2 in Hy as [Hy _]. rewrite !(sf_prio _ _ _ F2). unfold s1. rewrite !with_state_prio.
      apply (r_top _ _ _ R); [|done]. rewrite <-Hv, (st_violated _ _ _ T2). done.
Qed.

(** ** The end of a timeslice *)

(** The ready queues hold the same threads, perhaps in another order. *)
Definition same_ready (q q' : queues) : Prop := forall p x, x ∈ q' p <-> x ∈ q p.

Lemma end_of_timeslice_spec s b h q x :
  Kern [current_tcb s] s b h -> RQ s q -> is_Some (tcbs s !! x) -> x <> idle_tcb s ->
  wp (Scheduler.end_of_timeslice x) (fun _ s' => exists q', sched_step s q' s' /\ same_view cont s s' /\ same_ready q q') s.
Proof.
  intros K HR Hx Hid. unfold Scheduler.end_of_timeslice. apply wp_bind, wp_gets. apply wp_bind, wp_ASSERT; [by apply bool_decide_eq_true|].
  apply wp_bind, wp_gets. apply wp_bind.
  eapply (wp_mono _ (fun _ s1 => exists q', sched_step s q' s1 /\ same_view cont s s1 /\ same_ready q q')).
  { assert (Hstay : exists q', sched_step s q' s /\ same_view cont s s /\ same_ready q q') by (exists q; split_and!; [by apply step_refl|done|done]).
    case_bool_decide; [|by apply wp_ret]. destruct Hx as [t Ht]. apply wp_bind. eapply wp_get_field; [done|].
    destruct (is_queued ready_list t) eqn:Hq; [|by apply wp_ret]. assert (Hr : ready s x) by (by exists t).
    apply wp_bind. wp_call dequeue_step; [done..|]. intros _ s1 [T1 Hv1]. pose proof (st_frame _ _ _ T1) as F1.
    wp_call enqueue_step; [apply T1|apply (step_is_Some _ _ _ _ T1); by eexists| |by rewrite (sf_idle _ _ F1)|rewrite (sf_prio _ _ _ F1); eapply kern_prio; [done|by eexists|done]|].
    { rewrite (ready_step _ _ _ _ T1). intros [p Hp]. by apply deq_not_in in Hp. }
    intros _ s2 [T2 Hv2]. eexists. split_and!; [by eapply step_trans|by eapply same_view_trans|].
    intros p y. rewrite elem_of_enq_deq, (sf_prio _ _ _ F1). apply (rq_ready _ _ _ HR) in Hr as [px Hpx].
    rewrite (rq_ready_prio _ _ _ _ HR Hpx). destruct (decide (y = x)) as [->|]; [|naive_solver].
    split; [naive_solver|]. intros Hy. right. split; [done|]. by eapply rq_unique. }
  intros _ s1 (q' & T1 & Hv1 & Hq'). assert (is_Some (tcbs s1 !! x)) as [t1 Ht1] by (by apply (step_is_Some _ _ _ _ T1)).
  apply wp_bind. eapply wp_get_field; [done|]. apply wp_wr_alter; [by eexists|]. exists q'. split_and!; [|by eapply same_view_trans; [|apply same_view_alter; [|intros []]]|done].
  eapply step_trans; [done|]. apply step_write; [apply T1|by intros []..].
Qed.

(** [end_of_timeslice] and then [schedule]. *)
Lemma reschedule_spec s b h q x k flags :
  Kern [current_tcb s] s b h -> RQ s q -> is_Some (tcbs s !! x) -> x <> idle_tcb s ->
  wp (do! Scheduler.end_of_timeslice x in Scheduler.schedule (current_tcb s) k flags) (fun _ s' =>
    Running s' b h /\ sched_frame s s' /\ resumed s (current_tcb s) k s' /\
    exists s1 q1, same_ready q q1 /\ sched_frame s s1 /\ scheduled s1 q1 (current_tcb s) flags s') s.
Proof.
  intros K HR Hx Hid. apply wp_bind. wp_call end_of_timeslice_spec; [done..|]. intros _ s1 (q1 & T1 & Hv1 & Hq1).
  pose proof (st_frame _ _ _ T1) as F1. pose proof (st_current _ _ _ T1) as Hc.
  wp_call (schedule_spec s1 b h q1 (current_tcb s)); [|apply T1|done|].
  { eapply kern_same; [done|done|done|apply T1|done]. }
  intros _ s2 (R & F & Hres & Hs). split_and!; [done|by eapply sched_frame_trans|by eapply resumed_view|]. by exists s1, q1.
Qed.

Lemma yield_sched_spec s b h q k :
  Running s b h -> RQ s q -> is_Some (tcbs s !! current_schedule s) -> current_schedule s <> idle_tcb s ->
  wp (Scheduler.yield (current_tcb s) k) (fun _ s' =>
    Running s' b h /\ sched_frame s s' /\ resumed s (current_tcb s) k s' /\
    exists s1 q1, same_ready q q1 /\ sched_frame s s1 /\ scheduled s1 q1 (current_tcb s) Scheduler.sched_round_robin s') s.
Proof. intros R HR Hx Hid. unfold Scheduler.yield. apply wp_bind, wp_gets. apply reschedule_spec; [apply R|done..]. Qed.

(** ** The timer *)

(** After a tick the invariant holds again; without a wake-up, a thread that
    has time left, or has no competitor, keeps the processor. *)
Lemma handle_timer_interrupt_spec s b h t wakeup len k :
  Running s b h -> tcbs s !! current_schedule s = Some t -> (current_schedule s = idle_tcb s -> current_tcb s = idle_tcb s) ->
  wp (Scheduler.handle_timer_interrupt wakeup len k) (fun _ s' =>
    Running s' b h /\ sched_frame s s' /\ resumed s (current_tcb s) k s' /\
    (wakeup = false -> current_timeslice t = 0 \/ len < current_timeslice t -> current_tcb s' = current_tcb s)) s.
Proof.
  intros R Ht Hsi. destruct (running_rq _ _ _ R) as [q HR]. set (c := current_tcb s) in *. set (sch := current_schedule s) in *.
  assert (Hre : forall s1, Running s1 b h -> sched_frame s s1 -> current_tcb s1 = c -> same_view cont s s1 ->
    wp (if wakeup then Scheduler.schedule c k Scheduler.preempting_thread else ACTIVATE_CONTINUATION k) (fun _ s' =>
      Running s' b h /\ sched_frame s s' /\ resumed s c k s' /\
      (wakeup = false -> current_timeslice t = 0 \/ len < current_timeslice t -> current_tcb s' = c)) s1).
  { intros s1 R1 F1 Hc1 Hv1. destruct wakeup.
    - destruct (running_rq _ _ _ R1) as [q1 HR1]. wp_call (schedule_spec s1 b h q1 c); [rewrite <-Hc1; apply R1|done..|].
      intros _ s' (R' & F' & Hres & _). split_and!; [done|by eapply sched_frame_trans|by eapply resumed_view|done].
    - apply wp_modify. split_and!; [by apply running_activate|destruct F1; by constructor|unfold resumed; by rewrite decide_True|done]. }
  unfold Scheduler.handle_timer_interrupt. do 3 apply wp_bind, wp_gets. fold c sch.
  case_bool_decide as Hci; [by apply Hre; [|apply sched_frame_refl|..]|].
  assert (Hsid : sch <> idle_tcb s) by (intros Hs; by apply Hci, Hsi).
  apply wp_bind. eapply wp_get_field; [done|]. destruct (Z.eqb_spec (current_timeslice t) 0) as [H0|H0]; simpl negb; cbv iota.
  { by apply Hre; [|apply sched_frame_refl|..]. }
  destruct (Z.leb_spec (current_timeslice t) len) as [Hle|Hlt].
  - apply wp_bind. eapply wp_get_field; [done|]. apply wp_bind.
    assert (Hok : prio_ok (effective_prio t)) by (by apply (pi_range _ _ _ (k_pi0 _ _ _ _ (r_kern _ _ _ R)) sch)).
    eapply (wp_mono _ (fun _ s1 => s1 = s)).
    { destruct (bool_decide (c = sch) && negb wakeup); [|by apply wp_ret]. destruct (rq_ring _ _ HR _ Hok) as (hd & Hhd & _). unfold PrioQueue.get, prio_ok in *.
      apply wp_bind, wp_ASSERT; [apply andb_true_iff; split; apply Z.leb_le; lia|]. apply wp_bind, wp_gets. eapply wp_index; [lia|done|done]. }
    intros others s1 ->. case_bool_decide.
    + apply wp_bind. eapply wp_get_field; [done|]. apply wp_bind. apply wp_wr_alter; [by eexists|]. apply wp_modify. split_and!.
      * apply running_activate, running_write; [done|by intros []..].
      * constructor; [done..|]. apply same_view_alter; [done|by intros []].
      * unfold resumed. by rewrite decide_True.
      * done.
    + wp_call reschedule_spec; [apply R|done|by eexists|done|]. intros _ s' (R' & F' & Hres & _). split_and!; [done..|]. lia.
  - apply wp_bind. apply wp_wr_alter; [by eexists|]. apply Hre; [by apply running_write; [|intros []..]| |done|by apply same_view_alter; [|intros []]].
    constructor; [done..|]. by apply same_view_alter; [|intros []].
Qed.

End paths.
