(* ===== verification/MicroMutex.v ===== *)
(** * Kernel mutexes

    [mutex.cc] with priority inheritance: [acquire] and [release] keep the
    inheritance equation, the ring of held mutexes of every thread and the
    order of the waiters; [lock] and [unlock] leave the kernel with the most
    urgent thread running. *)

From S2P Require Import Prelude Rings Queueing MicroLib MicroState MicroSched MicroReady MicroBlocked MicroInherit MicroPropagate MicroSync MicroKernel MicroPaths.
#[local] Open Scope Z_scope.

Section mutexes.
Context {cfg : MicroConfig}.
Hypothesis inheritance : schedule_inheritance = true.
Implicit Types (s : mstate) (b : sync_ptr -> list nat) (h : nat -> list nat) (q : queues) (x y d n m : nat).

(** ** The rings of held mutexes *)

Record rings s h : Prop := {
  rg_ring x t : tcbs s !! x = Some t -> rl_queue held_list (mutexes s) (mutexes_head t) (h x);
  rg_disjoint x y m : m ∈ h x -> m ∈ h y -> x = y
}.

Definition upd_h h x (l : list nat) : nat -> list nat := fun y => if decide (y = x) then l else h y.

Lemma hq_rings s h : HQ s h -> rings s h.
Proof.
  intros H. constructor; [apply H|]. intros x y m Hx Hy. apply (hq_holder _ _ H) in Hx, Hy. congruence.
Qed.

(** The state with another head [hd] for [x] and another store [ms]. *)
Definition with_held s x hd ms : mstate := set_tcbs (alter (set_mutexes_head hd) x (tcbs s)) (set_mutexes ms s).

Lemma rings_change s h x l l' hd ms :
  rings s h -> is_Some (tcbs s !! x) -> rl_queue held_list ms hd l' -> rl_frame held_list l (mutexes s) ms ->
  (forall m y, m ∈ l \/ m ∈ l' -> m ∈ h y -> y = x) -> rings (with_held s x hd ms) (upd_h h x l').
Proof.
  intros H [t Ht] Hq Hf Hl. constructor.
  - intros y ty. unfold with_held, upd_h. simpl. case_decide as E.
    + subst y. rewrite lookup_alter_eq, Ht. simpl. intros [= <-]. by destruct t.
    + rewrite lookup_alter_ne by done. intros Hty. eapply rl_queue_disjoint; [by apply (rg_ring _ _ H)|done|].
      intros m Hm Hml. apply E. eapply Hl; [by left|done].
  - intros y z m. unfold upd_h. repeat case_decide; subst; intros Hy Hz; try done.
    + symmetry. eapply Hl; [by right|done].
    + eapply Hl; [by right|done].
    + by eapply (rg_disjoint _ _ H).
Qed.

Lemma frame_store s l ms m : rl_frame held_list l (mutexes s) ms -> l ⊆ elements (dom (mutexes s)) -> is_Some (ms !! m) <-> is_Some (mutexes s !! m).
Proof.
  intros Hf Hl. split; [|by apply (rl_frame_is_Some held_list l)]. intros Hm. destruct (decide (m ∈ l)) as [Hin|Hin].
  - apply Hl in Hin. by rewrite elem_of_elements, elem_of_dom in Hin.
  - destruct Hf as [Hf _]. by rewrite Hf in Hm.
Qed.

Lemma ring_store s h x t m : rings s h -> tcbs s !! x = Some t -> m ∈ h x -> is_Some (mutexes s !! m).
Proof. intros H Ht Hm. destruct (rg_ring _ _ H _ _ Ht) as (_ & _ & Hr). by eapply (ring_is_Some held_list). Qed.

Lemma enqueue_held_spec s h x m :
  rings s h -> is_Some (tcbs s !! x) -> is_Some (mutexes s !! m) -> (forall y, m ∉ h y) ->
  wp (Mutex.enqueue_held m x) (fun _ s' => exists hd ms, s' = with_held s x hd ms /\
    rings s' (upd_h h x (h x ++ [m])) /\ forall m', is_Some (ms !! m') <-> is_Some (mutexes s !! m')) s.
Proof.
  intros H [t Ht] Hm Hn. unfold Mutex.enqueue_held. apply wp_bind. eapply wp_get_field; [done|].
  apply wp_bind, wp_on_mutexes. eapply wp_mono; [apply enqueue_tail_spec; [apply _|by apply (rg_ring _ _ H)|done|done]|].
  intros hd ms [Hq Hf]. apply wp_wr_alter; [by eexists|]. exists hd, ms. split_and!; [done| |].
  - eapply (rings_change s); [done|by eexists|done|done|]. intros m' y Hm' Hy. assert (Hm'' : m' ∈ h x ++ [m]) by naive_solver.
    apply elem_of_app in Hm'' as [Hx|Hx]; [by eapply (rg_disjoint _ _ H)|]. apply list_elem_of_singleton in Hx as ->. by apply Hn in Hy.
  - intros m'. eapply frame_store; [done|]. intros a Ha. rewrite elem_of_elements, elem_of_dom. apply elem_of_app in Ha as [Ha|Ha].
    + by eapply ring_store.
    + by apply list_elem_of_singleton in Ha as ->.
Qed.

Lemma dequeue_held_spec s h x m l1 l2 :
  rings s h -> is_Some (tcbs s !! x) -> h x = l1 ++ m :: l2 ->
  wp (Mutex.dequeue_held m (Some x)) (fun _ s' => exists hd ms, s' = with_held s x hd ms /\
    rings s' (upd_h h x (l1 ++ l2)) /\ forall m', is_Some (ms !! m') <-> is_Some (mutexes s !! m')) s.
Proof.
  intros H [t Ht] Hl. pose proof (rg_ring _ _ H _ _ Ht) as Hq. rewrite Hl in Hq.
  unfold Mutex.dequeue_held. apply wp_bind. eapply wp_get_field; [done|].
  apply wp_bind, wp_on_mutexes. eapply wp_mono; [apply dequeue_spec; [apply _|done]|].
  intros hd ms (Hq' & Hf & _). apply wp_wr_alter; [by eexists|]. exists hd, ms. split_and!; [done| |].
  - eapply (rings_change s); [done|by eexists|done|done|]. intros m' y Hm' Hy. eapply (rg_disjoint _ _ H); [done|]. rewrite Hl.
    destruct Hm'; set_solver.
  - intros m'. eapply frame_store; [done|]. intros a Ha. rewrite <-Hl in Ha. rewrite elem_of_elements, elem_of_dom. by eapply ring_store.
Qed.

(** What of a thread a change of held mutexes leaves. *)
Definition other_view (t : tcb_t) := (base_prio t, effective_prio t, blocked_view t, thread_state t, ready_view t).

Lemma with_held_view s x hd ms : same_view other_view s (with_held s x hd ms).
Proof. intros y. unfold with_held. apply (same_view_alter other_view (set_mutexes ms s) (set_mutexes_head hd) x); [done|]. by intros []. Qed.

(** ** Changing who inherits *)

(** The state in which [sp] passes priorities on to [d]. *)
Definition with_donatee s sp (v : syncpoint_t) (d : ptr) : mstate := set_syncpoints (<[sp := set_donatee d v]> (syncpoints s)) s.

Lemma don_with s sp v (d : ptr) sp' : don (with_donatee s sp v d) sp' = if decide (sp' = sp) then d else don s sp'.
Proof. unfold don, with_donatee. simpl. case_decide; [subst; by rewrite lookup_insert_eq|by rewrite lookup_insert_ne]. Qed.

Lemma bq_donatee s b sp v (d : ptr) : BQ s b -> syncpoints s !! sp = Some v -> BQ (with_donatee s sp v d) b.
Proof.
  intros [] Hv. constructor; try done.
  - intros sp' v'. unfold with_donatee. simpl. destruct (decide (sp' = sp)) as [->|].
    + rewrite lookup_insert_eq. intros [= <-]. by apply (bq_ring _ _ Hv).
    + rewrite lookup_insert_ne by done. apply bq_ring.
  - intros sp'. unfold with_donatee. simpl. destruct (decide (sp' = sp)) as [->|]; [by rewrite lookup_insert_eq|].
    rewrite lookup_insert_ne by done. apply bq_out.
Qed.

Lemma head_below_spec s b sp v p :
  BQ s b -> (forall sp', sorted_by (prio s) (b sp')) -> syncpoints s !! sp = Some v -> (forall y, y ∈ b sp -> prio s y <= p) ->
  wp (Sync.head_below sp p) (fun r s' => s' = s /\ r = true) s.
Proof.
  intros H Hs Hv Hle. destruct (bq_ring _ _ H _ _ Hv) as (Hh & _). unfold Sync.head_below. apply wp_bind. eapply wp_rd_sync; [done|].
  rewrite Hh. destruct (b sp) as [|y l] eqn:Hb; simpl; [by apply wp_ret|]. apply wp_bind, wp_rd_prio; [eapply bq_in_tcbs; [done|rewrite Hb; set_solver]|].
  apply wp_ret. split; [done|]. apply Z.leb_le, Hle. set_solver.
Qed.

Lemma become_donatee_spec s b sp v x :
  BQ s b -> (forall sp', sorted_by (prio s) (b sp')) -> syncpoints s !! sp = Some v -> donatee v = None -> is_Some (tcbs s !! x) ->
  (forall y, y ∈ b sp -> prio s y <= prio s x) ->
  wp (Sync.become_donatee sp x) (fun _ s' => s' = with_donatee s sp v (Some x)) s.
Proof.
  intros H Hs Hv Hd Hx Hle. unfold Sync.become_donatee. apply wp_bind. eapply wp_rd_sync; [done|]. rewrite Hd.
  apply wp_bind, wp_ASSERT; [done|]. apply wp_bind, wp_rd_prio; [done|]. apply wp_bind. wp_call head_below_spec; [done..|].
  intros r s' [-> ->]. apply wp_bind, wp_ASSERT; [done|]. by eapply wp_wr_sync.
Qed.

(** ** Putting the invariants together again *)

(** What the blocked queues and the equation depend on. *)
Definition core_view (t : tcb_t) := (base_prio t, effective_prio t, blocked_view t).

Lemma core_prio s s' x : same_view core_view s s' -> prio s' x = prio s x.
Proof. intros H. unfold prio. specialize (H x). destruct (tcbs s' !! x), (tcbs s !! x); simpl in *; try done. unfold core_view in H. congruence. Qed.
Lemma core_base s s' x : same_view core_view s s' -> base s' x = base s x.
Proof. intros H. unfold base. specialize (H x). destruct (tcbs s' !! x), (tcbs s !! x); simpl in *; try done. unfold core_view in H. congruence. Qed.

Lemma hq_intro s s' h h' :
  HQ s h -> rings s' h' -> (forall x, is_Some (tcbs s' !! x) <-> is_Some (tcbs s !! x)) ->
  (forall x, don s' (SendQueue x) = don s (SendQueue x)) -> (forall x, don s' (RecvQueue x) = don s (RecvQueue x)) ->
  (forall x m, m ∈ h' x <-> don s' (MutexSync m) = Some x) -> (forall x m, m ∈ h' x -> is_Some (tcbs s !! x)) -> HQ s' h'.
Proof.
  intros H Hr Hs Hsd Hrd Hm Hin. constructor; try done.
  - apply Hr.
  - intros x Hx. rewrite Hsd. by apply (hq_send _ _ H), Hs.
  - intros x Hi Hx. rewrite Hrd. by apply (hq_recv _ _ H); [|apply Hs].
  - intros x y. rewrite Hsd, Hrd. apply (hq_endpoint _ _ H).
  - intros sp x Hd. apply Hs. destruct sp as [m|y|y].
    + by eapply Hin, Hm.
    + rewrite Hsd in Hd. by apply (hq_tcb _ _ H (SendQueue y)).
    + rewrite Hrd in Hd. by apply (hq_tcb _ _ H (RecvQueue y)).
Qed.

Lemma pi0_assemble s b h s' b' h' :
  PI0 s b h -> BQ s' b' -> HQ s' h' -> (exists q, RQ s' q) -> idle_tcb s' = idle_tcb s -> (forall x, base s' x = base s x) ->
  (forall x, is_Some (tcbs s' !! x) <-> is_Some (tcbs s !! x)) -> (forall sp y, y ∈ b' sp -> y ∈ b sp) ->
  (forall sp, sorted_by (prio s) (b' sp)) -> (forall sp y, y ∈ b' sp -> prio s' y = prio s y) ->
  (forall x, is_Some (tcbs s !! x) -> x <> idle_tcb s -> prio_ok (prio s' x)) ->
  (forall sp y, y ∈ b' sp -> don s' sp <> Some (idle_tcb s)) -> PI0 s' b' h'.
Proof.
  intros H HB HH HR Hi Hba Hs Hb Hso Hp Hok Hd. constructor; try done.
  - intros sp. eapply sorted_by_ext; [apply Hso|]. apply Hp.
  - intros x t' Ht' Hid. rewrite Hi in Hid. assert (is_Some (tcbs s !! x)) as [t Ht] by (apply Hs; by eexists).
    specialize (Hba x). unfold base in Hba. rewrite Ht', Ht in Hba. simpl in Hba. rewrite Hba.
    specialize (Hok x ltac:(by eexists) Hid). unfold prio in Hok. rewrite Ht' in Hok. split; [by apply (pi_range _ _ _ H x)|done].
  - intros y sp Hy. rewrite Hi. split; [by apply (pi_idle _ _ _ H y sp), Hb|by eapply Hd].
Qed.

Lemma kern_held E s b h s' b' h' :
  Kern E s b h -> PI0 s' b' h' -> PI s' b' ->
  same_view (fun t => (thread_state t, is_queued ready_list t)) s s' -> idle_tcb s' = idle_tcb s -> prio s' (idle_tcb s) = prio s (idle_tcb s) ->
  (forall sp y, y ∈ b' sp -> y ∈ b sp) -> (forall m, don s' (MutexSync m) = None -> b' (MutexSync m) = []) ->
  (forall m, is_Some (mutexes s' !! m) <-> is_Some (mutexes s !! m)) ->
  (forall m, is_Some (syncpoints s' !! MutexSync m) <-> is_Some (syncpoints s !! MutexSync m)) -> Kern E s' b' h'.
Proof.
  intros K H' HP' Hv Hi Hpi Hb Hf Hm Hs.
  assert (Hrd : forall x, ready s' x <-> ready s x).
  { intros x. specialize (Hv x). unfold ready. destruct (tcbs s' !! x), (tcbs s !! x); simpl in Hv; naive_solver congruence. }
  assert (Hrn : forall x, runnable s' x <-> runnable s x).
  { intros x. specialize (Hv x). unfold runnable. destruct (tcbs s' !! x), (tcbs s !! x); simpl in Hv; naive_solver congruence. }
  constructor; try done.
  - intros x Hx. rewrite Hrd, (same_view_is_Some _ _ _ _ Hv). by apply (k_hand _ _ _ _ K).
  - intros x Hx Hid. rewrite Hi in Hid. rewrite Hrd, Hrn. by apply (k_ready _ _ _ _ K).
  - rewrite Hi, Hrn, Hpi. apply (k_idle _ _ _ _ K).
  - intros x sp Hx. rewrite Hrn. by apply (k_blocked _ _ _ _ K x sp), Hb.
  - intros x m Hx. apply Hb in Hx. destruct (k_mutex _ _ _ _ K x m Hx) as (t & Ht & Hst). specialize (Hv x). rewrite Ht in Hv.
    destruct (tcbs s' !! x) as [t'|]; [|done]. exists t'. split; [done|]. simpl in Hv. congruence.
  - intros m. rewrite Hm, Hs. apply (k_object _ _ _ _ K).
Qed.

(** ** [acquire] *)

(** What [acquire] and [release] leave alone. *)
Record mutex_frame s s' : Prop := {
  mf_idle : idle_tcb s' = idle_tcb s;
  mf_current : current_tcb s' = current_tcb s;
  mf_violated : scheduling_invariants_violated s' = scheduling_invariants_violated s;
  mf_state : same_view (fun t => (thread_state t, is_queued ready_list t)) s s';
  mf_cont : same_view cont s s';
  mf_base x : base s' x = base s x
}.

(** A mutex without waiters changes hands. *)
Definition relinked s x hd ms m v (d : ptr) : mstate := with_donatee (with_held s x hd ms) (MutexSync m) v d.

Lemma relinked_don s x hd ms m v (d : ptr) sp : don (relinked s x hd ms m v d) sp = if decide (sp = MutexSync m) then d else don s sp.
Proof. unfold relinked. by rewrite don_with. Qed.

Lemma relinked_frame s x hd ms m v (d : ptr) : mutex_frame s (relinked s x hd ms m v d) /\ forall y, prio (relinked s x hd ms m v d) y = prio s y.
Proof.
  pose proof (with_held_view s x hd ms) as Hov. pose proof (same_view_weaken (fun w => w.1.1) other_view s _ Hov) as Hcv.
  split; [constructor; try done|intros y; exact (core_prio s _ y Hcv)].
  - exact (same_view_weaken (fun w => (w.1.2, bool_decide (w.2.1.1 <> None))) other_view s _ Hov).
  - apply (same_view_alter cont (set_mutexes ms s) (set_mutexes_head hd) x); [done|]. by intros [].
  - intros y. exact (core_base s _ y Hcv).
Qed.

Lemma kern_relinked E s b h x hd ms m v (d : ptr) h' :
  Kern E s b h -> b (MutexSync m) = [] -> syncpoints s !! MutexSync m = Some v -> HQ (relinked s x hd ms m v d) h' ->
  (forall m', is_Some (ms !! m') <-> is_Some (mutexes s !! m')) -> Kern E (relinked s x hd ms m v d) b h'.
Proof.
  intros K Hbm Hv HQ' Hms. pose proof (k_pi0 _ _ _ _ K) as H. set (s2 := relinked s x hd ms m v d) in *.
  destruct (relinked_frame s x hd ms m v d) as [F Hpr]. fold s2 in F, Hpr.
  pose proof (with_held_view s x hd ms) as Hov. pose proof (same_view_weaken (fun w => w.1.1) other_view s _ Hov : same_view core_view s s2) as Hcv.
  apply (kern_held E s b h); try done.
  - eapply (pi0_assemble s b h); try done.
    + apply bq_donatee; [|done]. eapply bq_frame; [apply H|done|]. exact (same_view_weaken (fun w => w.2) core_view s _ Hcv).
    + destruct (pi_rq _ _ _ H) as [q HR]. exists q. eapply rq_frame; [done..|]. exact (same_view_weaken (fun w => w.2) other_view s _ Hov).
    + apply (mf_base _ _ F).
    + intros y. by apply (same_view_is_Some core_view).
    + apply (pi_sorted _ _ _ H).
    + intros y Hy Hyi. rewrite Hpr. by eapply pi0_prio.
    + intros sp y Hy. unfold s2. rewrite relinked_don. destruct (pi_idle _ _ _ H _ _ Hy) as [A1 A2]. case_decide; [subst; rewrite Hbm in Hy; set_solver|done].
  - intros y Hy Hyi. apply (same_view_is_Some _ _ _ _ Hcv) in Hy. rewrite Hpr.
    eapply (inherited_ext s s2); [apply (mf_base _ _ F)| |intros; apply Hpr|by apply (k_pi _ _ _ _ K)].
    intros z. unfold waits, s2. setoid_rewrite relinked_don.
    split; intros (sp & Hz & Hdz); exists sp; (split; [done|]); case_decide; subst; try done; rewrite Hbm in Hz; set_solver.
  - apply F.
  - intros m' Hdm. unfold s2 in Hdm. rewrite relinked_don in Hdm. case_decide; [congruence|]. by apply (k_free _ _ _ _ K).
  - intros m'. unfold s2, relinked, with_donatee. simpl. destruct (decide (MutexSync m' = MutexSync m)) as [->|];
      [rewrite lookup_insert_eq, Hv; split; by eauto|by rewrite lookup_insert_ne].
Qed.

Lemma hq_relinked s h x hd ms m v (d : ptr) h' :
  HQ s h -> rings (with_held s x hd ms) h' -> (forall y, d = Some y -> is_Some (tcbs s !! y)) ->
  (forall y m', m' ∈ h' y <-> if decide (m' = m) then d = Some y else m' ∈ h y) -> HQ (relinked s x hd ms m v d) h'.
Proof.
  intros HH Hrg Hd Hh. pose proof (with_held_view s x hd ms) as Hov. eapply hq_intro; [done|constructor; apply Hrg|..].
  - intros y. exact (same_view_is_Some other_view s _ y Hov).
  - intros y. by rewrite relinked_don.
  - intros y. by rewrite relinked_don.
  - intros y m'. rewrite Hh, relinked_don. destruct (decide (m' = m)) as [->|Hne]; [by rewrite decide_True|].
    rewrite decide_False by congruence. apply (hq_holder _ _ HH).
  - intros y m'. rewrite Hh. case_decide; [apply Hd|]. intros Hy. apply (hq_tcb _ _ HH (MutexSync m')). by apply (hq_holder _ _ HH).
Qed.

Lemma acquire_free s b h E x t m :
  Kern E s b h -> don s (MutexSync m) = None -> is_Some (mutexes s !! m) -> tcbs s !! x = Some t -> waiting_for t = None ->
  wp (Mutex.acquire m x) (fun r s' => r = None /\ Kern E s' b (upd_h h x (h x ++ [m])) /\ mutex_frame s s' /\
    (forall sp, don s' sp = if decide (sp = MutexSync m) then Some x else don s sp) /\ (forall y, prio s' y = prio s y)) s.
Proof.
  intros K Hd Hm Ht Hw. pose proof (k_pi0 _ _ _ _ K) as H. pose proof (pi_hq _ _ _ H) as HH. pose proof (k_free _ _ _ _ K m Hd) as Hbm.
  assert (is_Some (syncpoints s !! MutexSync m)) as [v Hv] by (by apply (k_object _ _ _ _ K)).
  assert (Hdv : donatee v = None) by (unfold don in Hd; by rewrite Hv in Hd).
  assert (Hn : forall y, m ∉ h y) by (intros y Hy; apply (hq_holder _ _ HH) in Hy; congruence).
  unfold Mutex.acquire. apply wp_bind. eapply wp_get_field; [done|]. rewrite Hw. apply wp_bind, wp_ASSERT; [done|].
  apply wp_bind. unfold Mutex.get_holder. eapply wp_rd_sync; [done|]. rewrite Hdv. rewrite bool_decide_eq_false_2 by (intros Hn'; by apply Hn').
  apply wp_bind. wp_call (enqueue_held_spec s h x m); [by apply hq_rings|by eexists|done|done|].
  intros _ s1 (hd & ms & -> & Hrg & Hms). pose proof (with_held_view s x hd ms) as Hov.
  pose proof (same_view_weaken (fun w => w.1.1) other_view s _ Hov : same_view core_view s (with_held s x hd ms)) as Hcv.
  apply wp_bind. wp_call (become_donatee_spec (with_held s x hd ms) b (MutexSync m) v x); [|  |done|done| | |].
  { eapply bq_frame; [apply H|done|]. exact (same_view_weaken (fun w => w.2) core_view s _ Hcv). }
  { intros sp. eapply sorted_by_ext; [apply (pi_sorted _ _ _ H)|]. intros. by apply core_prio. }
  { apply (same_view_is_Some _ _ _ x Hcv). by eexists. }
  { rewrite Hbm. set_solver. }
  intros _ s2 ->. apply wp_ret. destruct (relinked_frame s x hd ms m v (Some x)) as [F Hp].
  split_and!; [done| |done|intros; apply relinked_don|done]. apply (kern_relinked E s b h x hd ms m v (Some x)); try done.
  apply (hq_relinked s h); [done|done|intros y [= <-]; by eexists|]. intros y m'. unfold upd_h. repeat case_decide; subst.
  - split; [done|]. set_solver.
  - set_solver.
  - split; [|naive_solver]. intros Hy. by apply Hn in Hy.
  - done.
Qed.

Lemma acquire_held s b h E x y t m :
  Kern E s b h -> don s (MutexSync m) = Some y -> tcbs s !! x = Some t -> waiting_for t = None ->
  wp (Mutex.acquire m x) (fun r s' => r = Some y /\ s' = s) s.
Proof.
  intros K Hd Ht Hw. destruct (don_sync _ _ _ Hd) as (v & Hv & Hdv). unfold Mutex.acquire. apply wp_bind. eapply wp_get_field; [done|].
  rewrite Hw. apply wp_bind, wp_ASSERT; [done|]. apply wp_bind. unfold Mutex.get_holder. eapply wp_rd_sync; [done|]. rewrite Hdv.
  rewrite bool_decide_eq_true_2 by done. by apply wp_ret.
Qed.

(** ** [release] *)

Lemma waiting_for_none s b x t : BQ s b -> tcbs s !! x = Some t -> (forall sp, x ∉ b sp) -> waiting_for t = None.
Proof. intros H Ht Hn. destruct (waiting_for t) as [sp|] eqn:E; [|done]. exfalso. apply (Hn sp). by apply (bq_wait _ _ H _ _ _ Ht). Qed.

Lemma release_empty s b h E d m :
  Kern E s b h -> don s (MutexSync m) = Some d -> b (MutexSync m) = [] -> d ∈ E -> (forall sp, d ∉ b sp) ->
  wp (Mutex.release m) (fun r s' => r = None /\ Kern E s' b (upd_h h d (filter (fun m' => m' <> m) (h d))) /\ mutex_frame s s' /\
    (forall sp, don s' sp = if decide (sp = MutexSync m) then None else don s sp) /\ (forall y, prio s' y = prio s y)) s.
Proof.
  intros K Hd Hbm HdE Hdb. pose proof (k_pi0 _ _ _ _ K) as H. pose proof (pi_hq _ _ _ H) as HH.
  destruct (k_hand _ _ _ _ K d HdE) as [[t Ht] Hdn]. destruct (not_ready_link _ _ _ Hdn Ht) as [Hdq _].
  destruct (don_sync _ _ _ Hd) as (v & Hv & Hdv). destruct (bq_ring _ _ (pi_bq _ _ _ H) _ _ Hv) as (Hbh & _). rewrite Hbm in Hbh. simpl in Hbh.
  assert (Hmd : m ∈ h d) by (by apply (hq_holder _ _ HH)). apply list_elem_of_split in Hmd as (l1 & l2 & Hl).
  assert (Hnd : NoDup (h d)) by (by destruct (hq_ring _ _ HH _ _ Ht) as (_ & ? & _)).
  unfold Mutex.release. apply wp_bind. unfold Mutex.get_holder. eapply wp_rd_sync; [done|]. rewrite Hdv. apply wp_bind, wp_ASSERT; [done|].
  apply wp_bind. eapply wp_get_field; [done|]. rewrite Hdq. apply wp_bind, wp_ASSERT; [done|]. apply wp_bind. eapply wp_rd_sync; [done|]. rewrite Hbh.
  apply wp_bind. wp_call (dequeue_held_spec s h d m l1 l2); [by apply hq_rings|by eexists|done|].
  intros _ s1 (hd & ms & -> & Hrg & Hms). set (s1 := with_held s d hd ms) in *.
  assert (Ht1 : tcbs s1 !! d = Some (set_mutexes_head hd t)) by (unfold s1, with_held; simpl; by rewrite lookup_alter_eq, Ht).
  apply wp_bind. unfold Sync.release_donatee. apply wp_bind. eapply wp_rd_sync; [exact Hv|]. rewrite Hdv. apply wp_bind, wp_ASSERT; [done|].
  apply wp_bind. eapply wp_get_field; [done|]. apply wp_bind, wp_ASSERT.
  { apply bool_decide_eq_true. change (waiting_for t = None). eapply waiting_for_none; [apply H|done..]. }
  rewrite inheritance. apply wp_bind. apply wp_bind. eapply wp_get_field; [done|]. apply wp_bind. unfold Sync.head_below. apply wp_bind. eapply wp_rd_sync; [exact Hv|].
  rewrite Hbh. apply wp_ret. apply wp_bind, wp_ASSERT; [done|]. apply wp_bind. eapply wp_get_field; [done|]. apply wp_bind, wp_ASSERT; [change (negb (is_queued ready_list t) = true); by rewrite Hdq|].
  apply wp_bind. eapply wp_rd_sync; [exact Hv|]. rewrite Hbh. apply wp_ret. eapply wp_wr_sync; [exact Hv|]. apply wp_ret.
  destruct (relinked_frame s d hd ms m v None) as [F Hp].
  split_and!; [done| |done|intros; apply (relinked_don s d hd ms m v None)|done]. apply (kern_relinked E s b h d hd ms m v None); try done.
  apply (hq_relinked s h); [done| |done|].
  - rewrite Hl, filter_ne_middle by (by rewrite <-Hl). exact Hrg.
  - intros y m'. unfold upd_h. destruct (decide (y = d)) as [->|Hyd].
    + rewrite list_elem_of_filter. case_decide; naive_solver.
    + case_decide; [|done]. subst m'. rewrite (hq_holder _ _ HH). split; [congruence|done].
Qed.

(** *** Handing the mutex to the first waiter *)

Definition with_prio s x (e : Z) : mstate := set_tcbs (alter (set_effective_prio e) x (tcbs s)) s.

Lemma with_prio_same s x t : tcbs s !! x = Some t -> with_prio s x (effective_prio t) = s.
Proof.
  intros Ht. unfold with_prio. rewrite (alter_id (set_effective_prio (effective_prio t)) (tcbs s) x); [by destruct s|].
  intros t' Ht'. rewrite Ht in Ht'. injection Ht' as <-. by destruct t.
Qed.

Lemma with_prio_prio s x e y : is_Some (tcbs s !! x) -> prio (with_prio s x e) y = if decide (y = x) then e else prio s y.
Proof.
  intros [t Ht]. unfold prio, with_prio. simpl. case_decide as E; [subst; rewrite lookup_alter_eq, Ht; by destruct t|by rewrite lookup_alter_ne].
Qed.

Lemma with_prio_view {A} (g : tcb_t -> A) s x e : (forall t, g (set_effective_prio e t) = g t) -> same_view g s (with_prio s x e).
Proof. intros. by apply same_view_alter. Qed.

Lemma with_prio_rq s q x t e : RQ s q -> tcbs s !! x = Some t -> is_queued ready_list t = false -> RQ (with_prio s x e) q.
Proof.
  intros H Ht Hq. unfold with_prio. replace (alter (set_effective_prio e) x (tcbs s)) with (<[x := set_effective_prio e t]> (tcbs s)).
  - apply (rq_wr_unqueued _ _ _ t); [done..|by destruct t].
  - apply map_eq. intros y. destruct (decide (x = y)) as [->|]; [by rewrite lookup_alter_eq, lookup_insert_eq, Ht|by rewrite lookup_alter_ne, lookup_insert_ne].
Qed.

(** The priority that a former holder of [m] keeps, with the mutexes [l]. *)
Definition kept s b d n (l : list nat) e : Prop :=
  max_over s b (base s d) ([SendQueue d] ++ [RecvQueue d] ++ (MutexSync <$> l)) e /\ e <= prio s d /\ (e = prio s d \/ prio s n = prio s d).

(** When nobody who waits for [m] is as urgent as [d], it keeps its priority. *)
Lemma kept_lower s b h d m n l' l :
  PI0 s b h -> PI s b -> is_Some (tcbs s !! d) -> d <> idle_tcb s -> b (MutexSync m) = n :: l' -> prio s n < prio s d ->
  (forall m', m' ∈ l <-> m' ∈ h d /\ m' <> m) -> kept s b d n l (prio s d).
Proof.
  intros H HP Hd Hid Hbm Hlt Hl. destruct (HP d Hd Hid) as (A1 & A2 & A3).
  pose proof (fun sp => held_queues_don s h d sp (pi_hq _ _ _ H) inheritance Hd) as Hq. unfold held_queues in Hq.
  assert (Hin : forall sp, sp ∈ [SendQueue d] ++ [RecvQueue d] ++ (MutexSync <$> l) <-> don s sp = Some d /\ sp <> MutexSync m).
  { intros sp. rewrite <-Hq, !elem_of_app, !list_elem_of_singleton, !list_elem_of_fmap. setoid_rewrite Hl. naive_solver. }
  split_and!; [|done|by left]. split_and!; [done| |].
  - intros sp y Hsp Hy. apply Hin in Hsp as [Hdn _]. apply A2. by exists sp.
  - destruct A3 as [?|(y & (sp & Hy & Hdn) & He)]; [by left|]. right. exists sp, y. split_and!; [|done|done]. apply Hin. split; [done|]. intros ->.
    pose proof (pi_sorted _ _ _ H (MutexSync m)) as Hs. rewrite Hbm in Hs, Hy. pose proof (sorted_by_head _ _ _ _ Hs Hy). lia.
Qed.

Lemma kept_calc s b h d m n l' l e :
  PI0 s b h -> PI s b -> is_Some (tcbs s !! d) -> d <> idle_tcb s -> b (MutexSync m) = n :: l' -> don s (MutexSync m) = Some d -> prio s d <= prio s n ->
  (forall m', m' ∈ l <-> m' ∈ h d /\ m' <> m) ->
  max_over s b (base s d) ([SendQueue d] ++ [RecvQueue d] ++ (MutexSync <$> l)) e -> kept s b d n l e.
Proof.
  intros H HP Hd Hid Hbm Hdm Hle Hl Hm. pose proof Hm as (B1 & B2 & B3). destruct (HP d Hd Hid) as (A1 & A2 & A3).
  pose proof (fun sp => held_queues_don s h d sp (pi_hq _ _ _ H) inheritance Hd) as Hq. unfold held_queues in Hq.
  split_and!; [done| |].
  - destruct B3 as [->|(sp & y & Hsp & Hy & <-)]; [done|]. apply A2. exists sp. split; [done|]. apply Hq.
    revert Hsp. rewrite !elem_of_app, !list_elem_of_singleton, !list_elem_of_fmap. setoid_rewrite Hl. naive_solver.
  - right. assert (prio s n <= prio s d); [|lia]. apply A2. exists (MutexSync m). split; [rewrite Hbm; set_solver|done].
Qed.

(** [release_donatee] after the mutex has left the ring of [d]. *)
Lemma release_donatee_spec s b h E d m n l' l hd ms v :
  Kern E s b h -> don s (MutexSync m) = Some d -> d ∈ E -> d <> idle_tcb s -> (forall sp, d ∉ b sp) -> b (MutexSync m) = n :: l' ->
  syncpoints s !! MutexSync m = Some v -> (forall m', m' ∈ l <-> m' ∈ h d /\ m' <> m) -> rings (with_held s d hd ms) (upd_h h d l) ->
  wp (Sync.release_donatee (MutexSync m)) (fun _ s' => exists e, kept s b d n l e /\
    s' = with_donatee (with_prio (with_held s d hd ms) d e) (MutexSync m) v None) (with_held s d hd ms).
Proof.
  intros K Hd HdE Hid Hdb Hbm Hv Hl Hrg. pose proof (k_pi0 _ _ _ _ K) as H. pose proof (pi_hq _ _ _ H) as HH. pose proof (k_pi _ _ _ _ K) as HP.
  destruct (k_hand _ _ _ _ K d HdE) as [[t Ht] Hdn]. destruct (not_ready_link _ _ _ Hdn Ht) as [Hdq _].
  assert (Hdv : donatee v = Some d) by (unfold don in Hd; by rewrite Hv in Hd).
  destruct (bq_ring _ _ (pi_bq _ _ _ H) _ _ Hv) as (Hbh & _). rewrite Hbm in Hbh. simpl in Hbh.
  set (s1 := with_held s d hd ms) in *. pose proof (with_held_view s d hd ms) as Hov. fold s1 in Hov.
  pose proof (same_view_weaken (fun w => w.1.1) other_view s s1 Hov : same_view core_view s s1) as Hcv.
  assert (Hpr : forall y, prio s1 y = prio s y) by (intros; by apply core_prio).
  assert (Ht1 : tcbs s1 !! d = Some (set_mutexes_head hd t)) by (unfold s1, with_held; simpl; by rewrite lookup_alter_eq, Ht).
  assert (HB1 : BQ s1 b) by (eapply bq_frame; [apply H|done|exact (same_view_weaken (fun w => w.2) core_view s _ Hcv)]).
  assert (Hs1 : forall sp, sorted_by (prio s1) (b sp)) by (intros sp; eapply sorted_by_ext; [apply (pi_sorted _ _ _ H)|auto]).
  assert (Hpt : effective_prio t = prio s d) by (unfold prio; by rewrite Ht).
  assert (Hn1 : is_Some (tcbs s1 !! n)) by (eapply bq_in_tcbs; [exact HB1|rewrite Hbm; set_solver]).
  unfold Sync.release_donatee. apply wp_bind. eapply wp_rd_sync; [exact Hv|]. rewrite Hdv. apply wp_bind, wp_ASSERT; [done|].
  apply wp_bind. eapply wp_get_field; [done|]. apply wp_bind, wp_ASSERT.
  { apply bool_decide_eq_true. change (waiting_for t = None). eapply waiting_for_none; [apply H|done..]. }
  rewrite inheritance. apply wp_bind. apply wp_bind. eapply wp_get_field; [done|]. change (effective_prio (set_mutexes_head hd t)) with (effective_prio t).
  apply wp_bind. wp_call (head_below_spec s1 b (MutexSync m) v); [done|done|exact Hv| |].
  { intros y Hy. rewrite Hpr, Hpt. destruct (HP d ltac:(by eexists) Hid) as (_ & A2 & _). apply A2. by exists (MutexSync m). }
  intros r s' [-> ->]. apply wp_bind, wp_ASSERT; [done|]. apply wp_bind. eapply wp_get_field; [done|].
  apply wp_bind, wp_ASSERT; [change (negb (is_queued ready_list t) = true); by rewrite Hdq|].
  apply wp_bind. eapply wp_rd_sync; [exact Hv|]. rewrite Hbh. apply wp_bind, wp_rd_prio; [done|]. rewrite Hpr, Hpt.
  destruct (Z.leb_spec (prio s d) (prio s n)) as [Hle|Hlt].
  - apply wp_bind, (wp_demand _ _ d); [done|].
    destruct (don_sync s _ _ (hq_send _ _ HH d ltac:(by eexists))) as (vs & Hvs & _).
    destruct (don_sync s _ _ (hq_recv _ _ HH d inheritance ltac:(by eexists))) as (vr & Hvr & _).
    apply wp_bind. wp_call (calc_held_spec s1 b l d (set_mutexes_head hd t) vs vr); [done..| | |done|done|].
    { pose proof (rg_ring _ _ Hrg _ _ Ht1) as Hq. unfold upd_h in Hq. by rewrite decide_True in Hq. }
    { intros m' Hm'. apply Hl in Hm' as [Hm' _]. by apply (hq_holder _ _ HH). }
    intros e s' [-> Hm]. apply wp_wr_alter; [by eexists|]. eapply wp_wr_sync; [exact Hv|]. exists e. split; [|done].
    apply (kept_calc s b h d m n l' l e); try done.
    assert (Hb : base s d = base_prio (set_mutexes_head hd t)) by (unfold base; by rewrite Ht). rewrite Hb.
    destruct Hm as (A1 & A2 & A3). split_and!; [done|intros sp y Hsp Hy; rewrite <-Hpr; by eapply A2|].
    destruct A3 as [?|(sp & y & ? & ? & He)]; [by left|right; exists sp, y; by rewrite <-Hpr].
  - apply wp_ret. eapply wp_wr_sync; [exact Hv|]. exists (prio s d). split; [by apply (kept_lower s b h d m n l' l)|].
    rewrite <-Hpt. change (effective_prio t) with (effective_prio (set_mutexes_head hd t)). by rewrite (with_prio_same s1 d _ Ht1).
Qed.

Lemma wait_frame_view {A} (g : tcb_t -> A) sp s s' :
  wait_frame sp s s' -> (forall p w, g (set_blocked_next p w) = g w) -> (forall p w, g (set_blocked_prev p w) = g w) ->
  (forall p w, g (set_waiting_for p w) = g w) -> same_view g s s'.
Proof.
  intros F H1 H2 H3 x. destruct (tcbs s !! x) as [t|] eqn:Ht; [|by rewrite (wf_none _ _ _ F)].
  destruct (wf_tcb _ _ _ F _ _ Ht) as (t' & -> & Hs). simpl. f_equal. by apply (Hs _ g).
Qed.

(** The thread [n] takes the mutex [m], which nobody holds, from the head of
    its queue. *)
Lemma hand_to_waiter s b h m n l v :
  BQ s b -> (forall sp, sorted_by (prio s) (b sp)) -> rings s h -> is_Some (mutexes s !! m) -> (forall y, m ∉ h y) ->
  syncpoints s !! MutexSync m = Some v -> donatee v = None -> b (MutexSync m) = n :: l ->
  wp (do! Mutex.enqueue_held m n in
      do! Sync.unblock (MutexSync m) n in
      do! Sync.become_donatee (MutexSync m) n in
      ret (Some n)) (fun r s' => r = Some n /\ BQ s' (upd_sp b (MutexSync m) l) /\ rings s' (upd_h h n (h n ++ [m])) /\
    (forall m', is_Some (mutexes s' !! m') <-> is_Some (mutexes s !! m')) /\
    (forall sp, is_Some (syncpoints s' !! sp) <-> is_Some (syncpoints s !! sp)) /\
    (forall sp, don s' sp = if decide (sp = MutexSync m) then Some n else don s sp) /\
    (forall q, RQ s q -> RQ s' q) /\ mutex_frame s s' /\ forall y, prio s' y = prio s y) s.
Proof.
  intros HB Hs Hrg Hm Hn Hv Hd Hbm.
  assert (Hns : is_Some (tcbs s !! n)) by (eapply bq_in_tcbs; [done|rewrite Hbm; set_solver]).
  apply wp_bind. wp_call enqueue_held_spec; [done..|]. intros _ s1 (hd & ms & -> & Hrg1 & Hms). set (s1 := with_held s n hd ms) in *.
  pose proof (with_held_view s n hd ms) as Hov. fold s1 in Hov.
  pose proof (same_view_weaken (fun w => w.1.1) other_view s s1 Hov : same_view core_view s s1) as Hcv.
  assert (HB1 : BQ s1 b) by (eapply bq_frame; [exact HB|done|exact (same_view_weaken (fun w => w.2) core_view s _ Hcv)]).
  assert (Hnin : n ∈ b (MutexSync m)) by (rewrite Hbm; set_solver).
  destruct (bq_waiting _ _ _ _ HB1 Hnin) as (t1 & Ht1 & Hw1).
  apply wp_bind. unfold Sync.unblock. apply wp_bind. eapply wp_get_field; [done|]. apply wp_bind, wp_ASSERT.
  { apply (rl_queue_queued blocked_list _ _ _ _ _ (bq_ring _ _ HB1 _ _ Hv) Hnin Ht1). }
  apply wp_bind. wp_call dequeue_blocked_spec; [done..|]. intros _ s2 (HB2 & F2 & _).
  assert (Hf : filter (fun y => y <> n) (b (MutexSync m)) = l).
  { rewrite Hbm. apply (filter_ne_middle [] l n). change (NoDup (n :: l)). rewrite <-Hbm. by eapply bq_nodup. }
  rewrite Hf in HB2. destruct (wait_sync _ _ _ v F2 Hv) as (v2 & Hv2 & Hd2).
  assert (Hdm : don s1 (MutexSync m) = None) by (unfold don; change (syncpoints s1) with (syncpoints s); by rewrite Hv). rewrite Hdm in Hd2.
  rewrite inheritance. apply wp_bind. eapply wp_rd_sync; [done|]. rewrite Hd2. rewrite bool_decide_eq_false_2 by (intros Hx; by apply Hx). apply wp_ret.
  assert (Hp2 : forall y, prio s2 y = prio s y) by (intros y; rewrite (wait_frame_prio _ _ _ _ F2); by apply core_prio).
  assert (Hs2 : forall sp, sorted_by (prio s2) (upd_sp b (MutexSync m) l sp)).
  { intros sp. eapply sorted_by_ext; [|intros; apply Hp2]. unfold upd_sp. case_decide; [|done]. specialize (Hs (MutexSync m)). rewrite Hbm in Hs.
    by apply StronglySorted_inv in Hs as [? _]. }
  apply wp_bind. wp_call (become_donatee_spec s2 _ (MutexSync m) v2 n); [exact HB2|done|done|done| | |].
  { apply (prop_frame_is_Some _ _ n (wait_frame_prop _ _ _ F2)). by eexists. }
  { intros y Hy. rewrite upd_sp_eq in Hy. rewrite !Hp2. specialize (Hs (MutexSync m)). rewrite Hbm in Hs. eapply sorted_by_head; [done|set_solver]. }
  intros _ s3 ->. apply wp_ret. pose proof (wait_frame_prop _ _ _ F2) as Fp.
  pose proof (wait_frame_view mutexes_head _ _ _ F2 ltac:(by intros ? []) ltac:(by intros ? []) ltac:(by intros ? [])) as Hmh.
  split_and!; try done.
  - by apply bq_donatee.
  - constructor; [|apply Hrg1]. intros y t' Ht'. destruct (same_view_lookup _ _ _ _ _ Hmh Ht') as (t0 & Ht0 & ->).
    change (mutexes (with_donatee s2 (MutexSync m) v2 (Some n))) with (mutexes s2). rewrite (wf_mutexes _ _ _ F2). by apply (rg_ring _ _ Hrg1).
  - intros m'. change (mutexes (with_donatee s2 (MutexSync m) v2 (Some n))) with (mutexes s2). rewrite (wf_mutexes _ _ _ F2). apply Hms.
  - intros sp. unfold with_donatee. simpl. destruct (decide (sp = MutexSync m)) as [->|].
    + rewrite lookup_insert_eq, Hv. split; by eauto.
    + rewrite lookup_insert_ne by done. apply (pf_sync _ _ Fp).
  - intros sp. rewrite don_with, (pf_don _ _ Fp). done.
  - intros q HR. eapply (rq_frame s2); [|done..]. eapply wait_frame_rq; [done|]. eapply rq_frame; [done..|exact (same_view_weaken (fun w => w.2) other_view s s1 Hov)].
  - constructor; simpl.
    + rewrite (wf_idle _ _ _ F2). done.
    + rewrite (wf_current _ _ _ F2). done.
    + rewrite (wf_violated _ _ _ F2). done.
    + eapply (same_view_trans _ s s1 s2); [exact (same_view_weaken (fun w => (w.1.2, bool_decide (w.2.1.1 <> None))) other_view s s1 Hov)|].
      apply (wait_frame_view _ _ _ _ F2); by intros ? [].
    + eapply (same_view_trans _ s s1 s2); [|apply (wait_frame_view _ _ _ _ F2); by intros ? []].
      apply (same_view_alter cont (set_mutexes ms s) (set_mutexes_head hd) n); [done|]. by intros [].
    + intros y. rewrite <-(core_base s s1 y Hcv). apply (prop_frame_base _ _ _ Fp).
Qed.

Lemma mutex_frame_trans s1 s2 s3 : mutex_frame s1 s2 -> mutex_frame s2 s3 -> mutex_frame s1 s3.
Proof. intros [] []. constructor; [congruence..|by eapply same_view_trans|by eapply same_view_trans|congruence]. Qed.

Lemma mutex_frame_is_Some s s' x : mutex_frame s s' -> is_Some (tcbs s' !! x) <-> is_Some (tcbs s !! x).
Proof. intros F. apply (same_view_is_Some _ _ _ _ (mf_cont _ _ F)). Qed.

(** The inheritance equation when [m] goes from [d] to its first waiter [n]
    and [d] keeps the priority [e]. *)
Lemma pi_handed s b h m d n l l' e s' :
  PI0 s b h -> PI s b -> don s (MutexSync m) = Some d -> b (MutexSync m) = n :: l' -> (forall sp, d ∉ b sp) ->
  (forall m', m' ∈ l <-> m' ∈ h d /\ m' <> m) -> kept s b d n l e ->
  mutex_frame s s' -> (forall sp, don s' sp = if decide (sp = MutexSync m) then Some n else don s sp) ->
  (forall y, prio s' y = if decide (y = d) then e else prio s y) -> PI s' (upd_sp b (MutexSync m) l').
Proof.
  intros H HP Hd Hbm Hdb Hl (Hmax & _) F Hdon Hp x Hx Hid. rewrite (mf_idle _ _ F) in Hid.
  apply (mutex_frame_is_Some _ _ x F) in Hx. set (b' := upd_sp b (MutexSync m) l').
  assert (Hn : n ∈ b (MutexSync m)) by (rewrite Hbm; set_solver). assert (Hnd : n <> d) by (intros ->; by apply (Hdb (MutexSync m))).
  assert (Hsub : forall sp y, y ∈ b' sp -> y ∈ b sp /\ prio s' y = prio s y).
  { intros sp y Hy. assert (Hy' : y ∈ b sp) by (revert Hy; unfold b', upd_sp; case_decide; [subst; rewrite Hbm; set_solver|done]).
    split; [done|]. rewrite Hp, decide_False; [done|]. intros ->. by apply (Hdb sp). }
  assert (Hw : forall y, waits s' b' y x <-> (exists sp, sp <> MutexSync m /\ y ∈ b sp /\ don s sp = Some x) \/ (y ∈ l' /\ x = n)).
  { intros y. unfold waits, b', upd_sp. setoid_rewrite Hdon. split.
    - intros (sp & Hy & Hdx). destruct (decide (sp = MutexSync m)); [right; naive_solver|left; eauto].
    - intros [(sp & Hne & Hy & Hdx)|[Hy ->]]; [exists sp; by rewrite !decide_False|exists (MutexSync m); by rewrite !decide_True]. }
  unfold inherited. rewrite (mf_base _ _ F), Hp. destruct (decide (x = d)) as [->|Hxd].
  - pose proof (fun sp => held_queues_don s h d sp (pi_hq _ _ _ H) inheritance Hx) as Hq. unfold held_queues in Hq.
    assert (Hin : forall sp, sp ∈ [SendQueue d] ++ [RecvQueue d] ++ (MutexSync <$> l) <-> don s sp = Some d /\ sp <> MutexSync m).
    { intros sp. rewrite <-Hq, !elem_of_app, !list_elem_of_singleton, !list_elem_of_fmap. setoid_rewrite Hl. naive_solver. }
    destruct Hmax as (A1 & A2 & A3). split_and!; [done| |].
    + intros y Hy. pose proof Hy as (sp0 & Hy0 & _). destruct (Hsub _ _ Hy0) as [_ ->]. apply Hw in Hy as [(sp & Hne & Hy & Hdx)|[_ ?]]; [|congruence].
      eapply A2; [apply Hin; by split|done].
    + destruct A3 as [?|(sp & y & Hsp & Hy & He)]; [by left|]. apply Hin in Hsp as [Hdx Hne]. right. exists y. split; [apply Hw; left; eauto|].
      rewrite Hp, decide_False; [done|]. intros ->. by apply (Hdb sp).
  - destruct (HP x Hx Hid) as (A1 & A2 & A3). split_and!; [done| |].
    + intros y Hy. pose proof Hy as (sp0 & Hy0 & _). destruct (Hsub _ _ Hy0) as [_ ->]. apply Hw in Hy as [(sp & _ & Hy & Hdx)|[Hy ->]].
      * apply A2. by exists sp.
      * pose proof (pi_sorted _ _ _ H (MutexSync m)) as Hs. rewrite Hbm in Hs. eapply sorted_by_head; [done|set_solver].
    + destruct A3 as [?|(y & (sp & Hy & Hdx) & He)]; [by left|]. right. exists y. split.
      * apply Hw. left. exists sp. split_and!; [|done|done]. intros ->. congruence.
      * rewrite Hp, decide_False; [done|]. intros ->. by apply (Hdb sp).
Qed.

(** The state in which [d] has given [m] up, at the priority [e]. *)
Definition released s d hd ms m v e : mstate := with_donatee (with_prio (with_held s d hd ms) d e) (MutexSync m) v None.

Lemma released_don s d hd ms m v e sp : don (released s d hd ms m v e) sp = if decide (sp = MutexSync m) then None else don s sp.
Proof. unfold released. by rewrite don_with. Qed.

Lemma released_prio s d hd ms m v e y :
  is_Some (tcbs s !! d) -> prio (released s d hd ms m v e) y = if decide (y = d) then e else prio s y.
Proof.
  intros Hd. pose proof (with_held_view s d hd ms) as Hov. change (prio (with_prio (with_held s d hd ms) d e) y = if decide (y = d) then e else prio s y).
  rewrite with_prio_prio by (by apply (same_view_is_Some other_view s _ d Hov)). case_decide; [done|].
  apply core_prio. exact (same_view_weaken (fun w => w.1.1) other_view s _ Hov).
Qed.

Lemma released_frame s d hd ms m v e : mutex_frame s (released s d hd ms m v e).
Proof.
  set (s1 := with_held s d hd ms). pose proof (with_held_view s d hd ms) as Hov. fold s1 in Hov. constructor; try done.
  - eapply (same_view_trans _ s s1 (with_prio s1 d e)); [exact (same_view_weaken (fun w => (w.1.2, bool_decide (w.2.1.1 <> None))) other_view s s1 Hov)|].
    apply with_prio_view. by intros [].
  - eapply (same_view_trans _ s s1 (with_prio s1 d e)); [|apply with_prio_view; by intros []].
    apply (same_view_alter cont (set_mutexes ms s) (set_mutexes_head hd) d); [done|]. by intros [].
  - intros y. unfold base. change (tcbs (released s d hd ms m v e)) with (tcbs (with_prio s1 d e)).
    rewrite (with_prio_view base_prio s1 d e ltac:(by intros [])). f_equal.
    exact (same_view_weaken (fun w => w.1.1.1.1) other_view s s1 Hov y).
Qed.

Lemma released_bq s b d hd ms m v e : BQ s b -> syncpoints s !! MutexSync m = Some v -> BQ (released s d hd ms m v e) b.
Proof.
  intros H Hv. pose proof (with_held_view s d hd ms) as Hov. apply bq_donatee; [|exact Hv].
  eapply (bq_frame (with_held s d hd ms)); [|done|apply (with_prio_view blocked_view); by intros []].
  eapply bq_frame; [exact H|done|]. exact (same_view_weaken (fun w => w.1.1.2) other_view s _ Hov).
Qed.

Lemma released_rq s q d t hd ms m v e :
  RQ s q -> tcbs s !! d = Some t -> is_queued ready_list t = false -> RQ (released s d hd ms m v e) q.
Proof.
  intros HR Ht Hq. pose proof (with_held_view s d hd ms) as Hov. eapply (rq_frame (with_prio (with_held s d hd ms) d e)); [|done..].
  eapply (with_prio_rq _ _ _ (set_mutexes_head hd t)); [|unfold with_held; simpl; by rewrite lookup_alter_eq, Ht|exact Hq].
  eapply rq_frame; [exact HR|done..|]. exact (same_view_weaken (fun w => w.2) other_view s _ Hov).
Qed.

Lemma released_rings s h d hd ms m v e : rings (with_held s d hd ms) h -> rings (released s d hd ms m v e) h.
Proof.
  intros Hrg. constructor; [|apply Hrg]. intros y t' Ht'. destruct (same_view_lookup mutexes_head (with_held s d hd ms) _ y t'
    (with_prio_view mutexes_head (with_held s d hd ms) d e ltac:(by intros [])) Ht') as (t0 & Ht0 & ->). by apply (rg_ring _ _ Hrg).
Qed.

(** The whole of the invariant after [m] went from [d] to [n]. *)
Lemma kern_handed E s b h m d n l l' e s' :
  Kern E s b h -> don s (MutexSync m) = Some d -> d <> idle_tcb s -> (forall sp, d ∉ b sp) -> b (MutexSync m) = n :: l' ->
  (forall m', m' ∈ l <-> m' ∈ h d /\ m' <> m) -> kept s b d n l e ->
  BQ s' (upd_sp b (MutexSync m) l') -> (exists q, RQ s' q) -> rings s' (upd_h (upd_h h d l) n (upd_h h d l n ++ [m])) ->
  mutex_frame s s' -> (forall sp, don s' sp = if decide (sp = MutexSync m) then Some n else don s sp) ->
  (forall y, prio s' y = if decide (y = d) then e else prio s y) ->
  (forall m', is_Some (mutexes s' !! m') <-> is_Some (mutexes s !! m')) ->
  (forall m', is_Some (syncpoints s' !! MutexSync m') <-> is_Some (syncpoints s !! MutexSync m')) ->
  Kern E s' (upd_sp b (MutexSync m) l') (upd_h (upd_h h d l) n (upd_h h d l n ++ [m])).
Proof.
  intros K Hd Hid Hdb Hbm Hl Hk HB HR Hrg F Hdon Hp Hm Hsy. pose proof (k_pi0 _ _ _ _ K) as H. pose proof (pi_hq _ _ _ H) as HH.
  assert (Hn : n ∈ b (MutexSync m)) by (rewrite Hbm; set_solver). assert (Hnd : n <> d) by (intros ->; by apply (Hdb (MutexSync m))).
  assert (Hds : is_Some (tcbs s !! d)) by (by apply (hq_tcb _ _ HH (MutexSync m))).
  assert (Hsub : forall sp y, y ∈ upd_sp b (MutexSync m) l' sp -> y ∈ b sp).
  { intros sp y. unfold upd_sp. case_decide; [subst; rewrite Hbm; set_solver|done]. }
  eapply (kern_held E s b h); [done| | |apply F|apply F| |done| |done|done].
  - eapply (pi0_assemble s b h); [done|done| |done|apply F|apply F|intros; by apply mutex_frame_is_Some|done| | | |].
    + eapply hq_intro; [done|done|intros; by apply mutex_frame_is_Some|intros; by rewrite Hdon|intros; by rewrite Hdon| |].
      * intros y m'. rewrite Hdon. unfold upd_h. destruct (decide (MutexSync m' = MutexSync m)) as [[= ->]|Hne].
        -- rewrite (decide_False (P := n = d)) by done. destruct (decide (y = n)) as [->|]; [split; [done|set_solver]|].
           destruct (decide (y = d)) as [->|]; [rewrite Hl; naive_solver|]. rewrite (hq_holder _ _ HH). split; [congruence|naive_solver].
        -- rewrite <-(hq_holder _ _ HH), (decide_False (P := n = d)) by done. destruct (decide (y = n)) as [->|];
             [rewrite elem_of_app, list_elem_of_singleton; naive_solver|]. destruct (decide (y = d)) as [->|]; [rewrite Hl; naive_solver|done].
      * intros y m'. unfold upd_h. rewrite (decide_False (P := n = d)) by done. destruct (decide (y = n)) as [->|];
          [intros _; eapply bq_in_tcbs; [apply H|done]|]. destruct (decide (y = d)) as [->|]; [done|].
        intros Hy. apply (hq_tcb _ _ HH (MutexSync m')). by apply (hq_holder _ _ HH).
    + intros sp. unfold upd_sp. pose proof (pi_sorted _ _ _ H sp) as Hs. case_decide; [|done]. subst. rewrite Hbm in Hs. by apply StronglySorted_inv in Hs as [? _].
    + intros sp y Hy. apply Hsub in Hy. rewrite Hp, decide_False; [done|]. intros ->. by apply (Hdb sp).
    + intros x Hx Hxi. rewrite Hp. case_decide; [subst|by eapply pi0_prio]. destruct Hk as ((Hlo & _) & Hhi & _).
      pose proof (pi0_prio _ _ _ _ H Hx Hxi) as Hok. destruct Hx as [t Ht]. destruct (pi_range _ _ _ H _ _ Ht Hxi) as [Hob _].
      unfold base in Hlo. rewrite Ht in Hlo. simpl in Hlo. unfold prio_ok in *. lia.
    + intros sp y Hy. rewrite Hdon. case_decide; [intros [= Hni]; by destruct (pi_idle _ _ _ H n (MutexSync m) Hn)|]. apply Hsub in Hy. by apply (pi_idle _ _ _ H y).
  - by eapply (pi_handed s b h m d n l l' e); [exact H|apply (k_pi _ _ _ _ K)|..].
  - rewrite Hp, decide_False by congruence. done.
  - intros m' Hm'. rewrite Hdon in Hm'. case_decide as E'; [done|]. rewrite upd_sp_ne by done. by apply (k_free _ _ _ _ K).
Qed.

Lemma release_waiter s b h E d m n l' :
  Kern E s b h -> don s (MutexSync m) = Some d -> d ∈ E -> d <> idle_tcb s -> (forall sp, d ∉ b sp) -> b (MutexSync m) = n :: l' ->
  wp (Mutex.release m) (fun r s' => r = Some n /\ exists h' e,
    Kern E s' (upd_sp b (MutexSync m) l') h' /\ mutex_frame s s' /\
    (forall sp, don s' sp = if decide (sp = MutexSync m) then Some n else don s sp) /\
    (forall y, prio s' y = if decide (y = d) then e else prio s y) /\ e <= prio s d /\ (e = prio s d \/ prio s n = prio s d)) s.
Proof.
  intros K Hd HdE Hid Hdb Hbm. pose proof (k_pi0 _ _ _ _ K) as H. pose proof (pi_hq _ _ _ H) as HH.
  destruct (k_hand _ _ _ _ K d HdE) as [[t Ht] Hdn]. destruct (not_ready_link _ _ _ Hdn Ht) as [Hdq _].
  destruct (don_sync _ _ _ Hd) as (v & Hv & Hdv). destruct (bq_ring _ _ (pi_bq _ _ _ H) _ _ Hv) as (Hbh & _). rewrite Hbm in Hbh. simpl in Hbh.
  assert (Hmd : m ∈ h d) by (by apply (hq_holder _ _ HH)). apply list_elem_of_split in Hmd as (l1 & l2 & Hl).
  assert (Hnd : NoDup (h d)) by (by destruct (hq_ring _ _ HH _ _ Ht) as (_ & ? & _)).
  assert (Hln : forall m', m' ∈ l1 ++ l2 <-> m' ∈ h d /\ m' <> m).
  { intros m'. rewrite <-(filter_ne_middle l1 l2 m) by (by rewrite <-Hl). rewrite <-Hl, list_elem_of_filter. tauto. }
  destruct (k_mutex _ _ _ _ K n m ltac:(rewrite Hbm; set_solver)) as (tn & Htn & Hstn). destruct (pi_rq _ _ _ H) as [q HR].
  unfold Mutex.release. apply wp_bind. unfold Mutex.get_holder. eapply wp_rd_sync; [done|]. rewrite Hdv. apply wp_bind, wp_ASSERT; [done|].
  apply wp_bind. eapply wp_get_field; [done|]. rewrite Hdq. apply wp_bind, wp_ASSERT; [done|]. apply wp_bind. eapply wp_rd_sync; [done|]. rewrite Hbh.
  apply wp_bind. eapply wp_get_field; [done|]. apply wp_bind, wp_ASSERT; [by apply bool_decide_eq_true|].
  apply wp_bind. wp_call (dequeue_held_spec s h d m l1 l2); [by apply hq_rings|by eexists|done|]. intros _ s1 (hd & ms & -> & Hrg & Hms).
  apply wp_bind. wp_call (release_donatee_spec s b h E d m n l' (l1 ++ l2) hd ms v); [done..|]. intros _ s2 (e & Hkept & ->).
  fold (released s d hd ms m v e). set (s2 := released s d hd ms m v e).
  pose proof (fun y => released_prio s d hd ms m v e y ltac:(by eexists)) as Hp2. fold s2 in Hp2.
  wp_call (hand_to_waiter s2 b (upd_h h d (l1 ++ l2)) m n l' (set_donatee None v)); [by apply released_bq; [apply H|]| |by apply released_rings| | | |done|done|].
  { intros sp. eapply sorted_by_ext; [apply (pi_sorted _ _ _ H)|]. intros y Hy. rewrite Hp2, decide_False; [done|]. intros ->. by apply (Hdb sp). }
  { apply Hms. apply (k_object _ _ _ _ K). by eexists. }
  { intros y. unfold upd_h. case_decide as E'; [rewrite Hln; naive_solver|]. rewrite (hq_holder _ _ HH). congruence. }
  { unfold s2, released, with_donatee. simpl. by rewrite lookup_insert_eq. }
  intros r s3 (-> & HB3 & Hrg3 & Hm3 & Hsy3 & Hd3 & HR3 & F3 & Hp3). pose proof (mutex_frame_trans _ _ _ (released_frame s d hd ms m v e) F3) as F.
  assert (Hp : forall y, prio s3 y = if decide (y = d) then e else prio s y) by (intros y; by rewrite Hp3, Hp2).
  assert (Hdon : forall sp, don s3 sp = if decide (sp = MutexSync m) then Some n else don s sp)
    by (intros sp; rewrite Hd3; unfold s2; rewrite released_don; by case_decide).
  pose proof Hkept as (_ & Hle & Hcase). split; [done|]. eexists _, e. split_and!; [|done..].
  eapply (kern_handed E s b h m d n (l1 ++ l2) l' e); try done.
  - exists q. apply HR3. by eapply released_rq.
  - intros m'. rewrite Hm3. apply Hms.
  - intros m'. rewrite Hsy3. unfold s2, released, with_donatee. simpl. destruct (decide (MutexSync m' = MutexSync m)) as [->|];
      [rewrite lookup_insert_eq, Hv; split; by eauto|by rewrite lookup_insert_ne].
Qed.

End mutexes.
