(* ===== verification/MicroLock.v ===== *)
(** * Locking and unlocking a kernel mutex

    The system calls of [mutex.cc] from kernel entry to kernel exit. *)

From S2P Require Import Prelude Rings Queueing MicroLib MicroState MicroSched MicroReady MicroBlocked MicroInherit MicroPropagate MicroSync MicroKernel MicroPaths MicroMutex.
#[local] Open Scope Z_scope.

Section lock.
Context {cfg : MicroConfig}.
Hypothesis inheritance : schedule_inheritance = true.
Implicit Types (s : mstate) (b : sync_ptr -> list nat) (h : nat -> list nat) (q : queues) (x y d n m c : nat).

Lemma prop_frame_view {A} (g : tcb_t -> A) s s' :
  prop_frame s s' -> (forall t t', prop_same t t' -> g t' = g t) -> same_view g s s'.
Proof.
  intros F Hg x. destruct (tcbs s !! x) as [t|] eqn:Ht; [|by rewrite (pf_none _ _ F)].
  destruct (pf_tcb _ _ F _ _ Ht) as (t' & -> & Hs & _). simpl. f_equal. by apply Hg.
Qed.

Lemma prop_frame_ready s s' x : prop_frame s s' -> ready s' x <-> ready s x.
Proof.
  intros F. unfold ready. destruct (tcbs s !! x) as [t|] eqn:Ht; [|rewrite (pf_none _ _ F) by done; naive_solver].
  destruct (pf_tcb _ _ F _ _ Ht) as (t' & -> & _ & Hq). naive_solver congruence.
Qed.

Lemma state_runnable s s' x : same_view thread_state s s' -> runnable s' x <-> runnable s x.
Proof. intros H. specialize (H x). unfold runnable. destruct (tcbs s' !! x), (tcbs s !! x); simpl in H; naive_solver congruence. Qed.

(** Assignments to fields of a thread that the invariants do not mention. *)
Lemma kern_write E s b h x f :
  Kern E s b h -> (forall t, pi_view (f t) = pi_view t) -> (forall t, thread_state (f t) = thread_state t) ->
  (forall t, ready_view (f t) = ready_view t) -> Kern E (set_tcbs (alter f x (tcbs s)) s) b h.
Proof.
  intros K Hp Hs Hr. set (s' := set_tcbs _ s).
  assert (Hpv : same_view pi_view s s') by (by apply same_view_alter). assert (Hsv : same_view thread_state s s') by (by apply same_view_alter).
  assert (Hrv : same_view ready_view s s') by (by apply same_view_alter). destruct (kern_rq _ _ _ _ K) as [q HR].
  assert (HR' : RQ s' q) by (by eapply rq_frame).
  assert (Hrd : forall y, ready s' y <-> ready s y) by (intros; by rewrite (rq_ready _ _ _ HR), (rq_ready _ _ _ HR')).
  eapply kern_change; [done|done|done..|by eexists| | | | |].
  - intros y Hy. rewrite Hrd. by apply (k_hand _ _ _ _ K).
  - intros y Hy Hid. rewrite Hrd, (state_runnable _ _ _ Hsv). by apply (k_ready _ _ _ _ K).
  - apply (state_runnable _ _ _ Hsv), (k_idle _ _ _ _ K).
  - intros y sp Hy. rewrite (state_runnable _ _ _ Hsv). by apply (k_blocked _ _ _ _ K y sp).
  - intros y m Hy. destruct (k_mutex _ _ _ _ K y m Hy) as (t & Ht & Hst). specialize (Hsv y). rewrite Ht in Hsv.
    destruct (tcbs s' !! y) as [t'|]; [|done]. exists t'. split; [done|]. simpl in Hsv. congruence.
Qed.

(** The state in which a system call has returned [r] to the thread [x]. *)
Definition returned s x (r : Z) : Prop := exists t, tcbs s !! x = Some t /\ syscall_result t = r.
Definition returned_error s x (e : Z) : Prop := exists t, tcbs s !! x = Some t /\ error_code t = e.

Lemma mutex_success_spec s b h k :
  Running s b h -> wp (Mutex.sys_mutex_success k) (fun _ s' => Running s' b h /\ sched_frame s s' /\
    current_tcb s' = current_tcb s /\ activated s' = k /\ returned s' (current_tcb s) 1) s.
Proof.
  intros R. destruct (running_current _ _ _ R) as [t Ht]. unfold Mutex.sys_mutex_success. apply wp_bind, wp_gets.
  apply wp_bind. apply wp_wr_alter; [by eexists|]. apply wp_modify. split_and!; try done.
  - apply running_activate, running_write; [done|by intros []..].
  - constructor; [done..|]. apply same_view_alter; [done|by intros []].
  - exists (set_syscall_result 1 t). simpl. by rewrite lookup_alter_eq, Ht.
Qed.

Lemma mutex_failure_spec s b h e k :
  Running s b h -> wp (Mutex.sys_mutex_failure e k) (fun _ s' => Running s' b h /\ sched_frame s s' /\
    current_tcb s' = current_tcb s /\ activated s' = k /\ returned s' (current_tcb s) 0 /\ returned_error s' (current_tcb s) e) s.
Proof.
  intros R. destruct (running_current _ _ _ R) as [t Ht]. unfold Mutex.sys_mutex_failure. apply wp_bind, wp_gets.
  apply wp_bind. apply wp_wr_alter; [by eexists|]. apply wp_bind. apply wp_wr_alter; [simpl; by apply is_Some_alter_store; eexists|]. apply wp_modify.
  assert (Hf : tcbs (set_tcbs (alter (set_error_code e) (current_tcb s) (tcbs s)) s) !! current_tcb s = Some (set_error_code e t))
    by (simpl; by rewrite lookup_alter_eq, Ht).
  split_and!; try done.
  - apply running_activate, running_write; [apply running_write; [done|by intros []..]|by intros []..].
  - constructor; [done..|]. eapply same_view_trans; [|apply same_view_alter; [done|by intros []]]. apply same_view_alter; [done|by intros []].
  - exists (set_syscall_result 0 (set_error_code e t)). simpl. by rewrite !lookup_alter_eq, Ht.
  - exists (set_syscall_result 0 (set_error_code e t)). simpl. by rewrite !lookup_alter_eq, Ht.
Qed.

(** ** [lock] *)

(** A running thread is in the kernel's hand and waits for nothing. *)
Lemma running_unblocked s b h : Running s b h -> forall sp, current_tcb s ∉ b sp.
Proof. intros R. apply (runnable_unblocked _ _ _ _ _ (r_kern _ _ _ R) (r_runnable _ _ _ R)). Qed.

Lemma running_waiting s b h t : Running s b h -> tcbs s !! current_tcb s = Some t -> waiting_for t = None.
Proof.
  intros R Ht. eapply waiting_for_none; [apply (pi_bq _ _ _ (k_pi0 _ _ _ _ (r_kern _ _ _ R)))|done|]. by apply (running_unblocked _ _ h).
Qed.

(** What [acquire] and [release] leave of the running state. *)
Lemma mutex_frame_running s b h s' b' h' :
  Running s b h -> Kern [current_tcb s] s' b' h' -> mutex_frame s s' -> (forall y, prio s' y = prio s y) -> Running s' b' h'.
Proof.
  intros R K F Hp. pose proof (mf_state _ _ F) as Hsv. constructor; rewrite ?(mf_current _ _ F); [done| |].
  - apply (state_runnable s s'); [exact (same_view_weaken fst _ s s' Hsv)|apply (r_runnable _ _ _ R)].
  - rewrite (mf_violated _ _ F). intros Hv x Hx. rewrite !Hp. apply (r_top _ _ _ R Hv). destruct Hx as (t' & Ht' & Hq).
    destruct (same_view_lookup _ _ _ _ _ Hsv Ht') as (t & Ht & He). exists t. split; [done|]. congruence.
Qed.

Lemma lock_free s b h m blocking k :
  Running s b h -> is_Some (mutexes s !! m) -> don s (MutexSync m) = None ->
  wp (Mutex.lock m (current_tcb s) blocking k) (fun _ s' =>
    (exists h', Running s' b h') /\ current_tcb s' = current_tcb s /\ activated s' = k /\ returned s' (current_tcb s) 1 /\
    (forall sp, don s' sp = if decide (sp = MutexSync m) then Some (current_tcb s) else don s sp) /\ (forall y, prio s' y = prio s y)) s.
Proof.
  intros R Hm Hd. destruct (running_current _ _ _ R) as [t Ht]. unfold Mutex.lock. apply wp_bind.
  wp_call acquire_free; [done|apply R|done|done|done|by eapply running_waiting|]. intros r s1 (-> & K1 & F1 & Hd1 & Hp1). rewrite bool_decide_eq_true_2 by done.
  pose proof (mutex_frame_running _ _ _ _ _ _ R K1 F1 Hp1) as R1. pose proof (mf_current _ _ F1) as Hc1.
  wp_call mutex_success_spec; [done|]. intros _ s2 (R2 & F2 & Hc & Hk & Hr). rewrite Hc1 in *. split_and!; try done.
  - by eexists.
  - intros sp. rewrite <-Hd1. unfold don. by rewrite (sf_sync _ _ F2).
  - intros y. by rewrite (sf_prio _ _ _ F2).
Qed.

(** A thread that must not or cannot wait gets an error, and nothing else
    changes. *)
Lemma lock_busy s b h m y blocking k :
  Running s b h -> don s (MutexSync m) = Some y -> blocking = false \/ y = current_tcb s ->
  wp (Mutex.lock m (current_tcb s) blocking k) (fun _ s' =>
    Running s' b h /\ sched_frame s s' /\ current_tcb s' = current_tcb s /\ activated s' = k /\
    returned s' (current_tcb s) 0 /\ returned_error s' (current_tcb s) Mutex.EMUTEX_BUSY) s.
Proof.
  intros R Hd Hcase. destruct (running_current _ _ _ R) as [t Ht]. unfold Mutex.lock. apply wp_bind.
  wp_call acquire_held; [apply R|done|done|by eapply running_waiting|]. intros r s1 [-> ->]. rewrite bool_decide_eq_false_2 by done.
  destruct blocking; simpl negb; cbv iota; [|by apply mutex_failure_spec].
  destruct Hcase as [?|Hy]; [done|]. rewrite bool_decide_eq_true_2 by (by rewrite Hy). by apply mutex_failure_spec.
Qed.

(** The blocked thread keeps what it needs when it wakes up. *)
Definition parked s x m (k : Z) : Prop := exists t, tcbs s !! x = Some t /\ thread_state t = waiting_mutex /\
  sysdata_mutex t = Some m /\ uncontended_hybrid t = false /\ mutex_continuation t = k.

(** The state of [lock] between blocking and scheduling: [c] is on the queue
    of [m] and marked as waiting. *)
Lemma kern_blocked s b h s1 b1 m y s2 :
  let c := current_tcb s in
  Running s b h -> don s (MutexSync m) = Some y -> c <> idle_tcb s ->
  PI0 s1 b1 h -> PI s1 b1 -> prop_frame s s1 -> (forall sp z, z ∈ b1 sp <-> z ∈ b sp \/ (z = c /\ sp = MutexSync m)) ->
  same_view pi_view s1 s2 -> mutexes s2 = mutexes s1 -> syncpoints s2 = syncpoints s1 -> idle_tcb s2 = idle_tcb s1 -> (exists q, RQ s2 q) ->
  (forall z, ready s2 z <-> ready s1 z) -> (forall z, z <> c -> thread_state <$> tcbs s2 !! z = thread_state <$> tcbs s1 !! z) ->
  thread_state <$> tcbs s2 !! c = Some waiting_mutex -> Kern [c] s2 b1 h.
Proof.
  intros c R Hd Hid H1 HP1 F Hmem Hv Hm Hs Hi HR Hrd Hst Hstc. pose proof (r_kern _ _ _ R) as K.
  assert (Hst1 : same_view thread_state s s1) by (apply prop_frame_view; [done|apply prop_same_state]).
  assert (Hrun : forall z, z <> c -> runnable s2 z <-> runnable s z).
  { intros z Hz. unfold runnable. specialize (Hst z Hz). rewrite (Hst1 z) in Hst. destruct (tcbs s2 !! z), (tcbs s !! z); simpl in Hst; naive_solver congruence. }
  assert (Hrc : ~ runnable s2 c). { intros (t & Ht & Hr). rewrite Ht in Hstc. simpl in Hstc. injection Hstc as Hstc. by rewrite Hstc in Hr. }
  constructor.
  - by eapply pi0_view.
  - by eapply pi_view_pi.
  - intros z Hz. rewrite Hrd, (prop_frame_ready _ _ _ F). destruct (k_hand _ _ _ _ K z Hz) as [Hzs Hzn]. split; [|done].
    apply (same_view_is_Some _ _ _ _ Hv). by apply (prop_frame_is_Some _ _ z F).
  - intros z Hz Hzi. rewrite Hi, (pf_idle _ _ F) in Hzi. rewrite Hrd, (prop_frame_ready _ _ _ F), Hrun by set_solver. by apply (k_ready _ _ _ _ K).
  - rewrite Hi, (pf_idle _ _ F), Hrun by done. rewrite (pi_view_prio _ _ _ Hv), (pf_idle_prio _ _ F). apply (k_idle _ _ _ _ K).
  - intros z sp Hz. destruct (decide (z = c)) as [->|Hne]; [done|]. rewrite Hrun by done. apply (k_blocked _ _ _ _ K z sp). apply Hmem in Hz. naive_solver.
  - intros z m' Hz. destruct (decide (z = c)) as [->|Hne].
    + destruct (tcbs s2 !! c) as [t|]; [|done]. simpl in Hstc. exists t. split; [done|]. congruence.
    + apply Hmem in Hz as [Hz|[? _]]; [|done]. destruct (k_mutex _ _ _ _ K z m' Hz) as (t & Ht & Hw). specialize (Hst z Hne). rewrite (Hst1 z), Ht in Hst.
      destruct (tcbs s2 !! z) as [t2|]; [|done]. exists t2. split; [done|]. simpl in Hst. congruence.
  - intros m' Hdm. unfold don in Hdm. rewrite Hs in Hdm. change (don s1 (MutexSync m') = None) in Hdm. rewrite (pf_don _ _ F) in Hdm.
    destruct (b1 (MutexSync m')) as [|z l] eqn:El; [done|]. exfalso. assert (Hz : z ∈ b1 (MutexSync m')) by (rewrite El; set_solver).
    apply Hmem in Hz as [Hz|[_ [= ->]]]; [|congruence]. rewrite (k_free _ _ _ _ K m' Hdm) in Hz. set_solver.
  - intros m'. rewrite Hm, Hs, (pf_mutexes _ _ F), (pf_sync _ _ F). apply (k_object _ _ _ _ K).
Qed.

Lemma lock_block s b h m y k :
  let c := current_tcb s in
  Running s b h -> c <> idle_tcb s -> don s (MutexSync m) = Some y -> y <> c -> y <> idle_tcb s ->
  wp (Mutex.lock m c true k) (fun _ s' =>
    (exists b', Running s' b' h /\ forall sp z, z ∈ b' sp <-> z ∈ b sp \/ (z = c /\ sp = MutexSync m)) /\
    current_tcb s' <> c /\ parked s' c m k /\ saved s' c Mutex.mutex_wakeup_cont /\ (forall sp, don s' sp = don s sp)) s.
Proof.
  intros c R Hid Hd Hyc Hyi. pose proof (k_pi0 _ _ _ _ (r_kern _ _ _ R)) as H. destruct (running_current _ _ _ R) as [t Ht]. fold c in Ht.
  pose proof (running_waiting _ _ _ _ R Ht) as Hw. destruct (don_sync _ _ _ Hd) as (v & Hv & Hdv).
  unfold Mutex.lock. apply wp_bind. wp_call acquire_held; [apply R|done|done|done|]. intros r s0 [-> ->].
  rewrite bool_decide_eq_false_2 by done. simpl negb. cbv iota. rewrite bool_decide_eq_false_2 by congruence.
  apply wp_bind. wp_call (block_spec inheritance s b h c t (MutexSync m)); [done|apply R|done|done|done|by eexists|congruence|].
  intros _ s1 (b1 & H1 & HP1 & F1 & Hmem). destruct (pf_tcb _ _ F1 _ _ Ht) as (t1 & Ht1 & Hs1 & Hq1). destruct (pi_rq _ _ _ H1) as [q1 HR1].
  apply wp_bind. apply wp_wr_alter; [by eexists|]. set (s2 := set_tcbs _ s1).
  assert (HR2 : RQ s2 q1) by (eapply rq_frame; [exact HR1|done..|]; apply (same_view_alter ready_view s1); [done|by intros []]).
  apply wp_bind. apply wp_wr_alter; [simpl; apply is_Some_alter_store; by eexists|]. set (s3 := set_tcbs _ s2).
  assert (HR3 : RQ s3 q1) by (eapply rq_frame; [exact HR2|done..|]; apply (same_view_alter ready_view s2); [done|by intros []]).
  apply wp_bind. apply wp_wr_alter; [simpl; do 2 apply is_Some_alter_store; by eexists|]. set (s4 := set_tcbs _ s3).
  assert (HR4 : RQ s4 q1) by (eapply rq_frame; [exact HR3|done..|]; apply (same_view_alter ready_view s3); [done|by intros []]).
  set (t4 := set_uncontended_hybrid false (set_sysdata_mutex (Some m) (set_mutex_continuation k t1))).
  assert (Ht4 : tcbs s4 !! c = Some t4) by (unfold s4, s3, s2; simpl; by rewrite !lookup_alter_eq, Ht1).
  assert (Ho4 : forall z, z <> c -> tcbs s4 !! z = tcbs s1 !! z) by (intros z Hz; unfold s4, s3, s2; simpl; by rewrite !lookup_alter_ne).
  set (s5 := with_state s4 c waiting_mutex).
  assert (Ht5 : tcbs s5 !! c = Some (set_thread_state waiting_mutex t4)) by (change (tcbs s5) with (alter (set_thread_state waiting_mutex) c (tcbs s4)); by rewrite lookup_alter_eq, Ht4).
  assert (Ho5 : forall z, z <> c -> tcbs s5 !! z = tcbs s1 !! z) by (intros z Hz; rewrite <-Ho4 by done; change (tcbs s5) with (alter (set_thread_state waiting_mutex) c (tcbs s4)); by rewrite lookup_alter_ne).
  assert (Hc4 : current_tcb s4 = c) by apply (pf_current _ _ F1).
  assert (K5 : Kern [c] s5 b1 h).
  { eapply (kern_blocked s b h s1 b1 m y); try done.
    - intros z. destruct (decide (z = c)) as [->|]; [rewrite Ht5, Ht1; by destruct t1|by rewrite Ho5].
    - exists q1. by apply with_state_rq.
    - intros z. unfold ready. destruct (decide (z = c)) as [->|]; [|by rewrite Ho5]. rewrite Ht5, Ht1. destruct t1. naive_solver.
    - intros z Hz. by rewrite Ho5.
    - fold c. by rewrite Ht5. }
  pose proof (deactivate_current_spec s4 b1 h waiting_mutex Mutex.mutex_wakeup_cont Scheduler.sched_default q1) as Hds. rewrite Hc4 in Hds.
  wp_call Hds; [exact K5|exact HR4| |exact (fun Hx => Hid (eq_trans Hx (pf_idle _ _ F1)))|done|].
  { exists t4. split; [done|]. change (is_runnable (thread_state t1) = true). rewrite (prop_same_state _ _ Hs1). destruct (r_runnable _ _ _ R) as (t0 & Ht0 & Hr). fold c in Ht0. rewrite Ht in Ht0. by injection Ht0 as <-. }
  intros _ s' (R' & F' & Hres & _).
  assert (Hne : current_tcb s' <> c).
  { intros He. pose proof (r_runnable _ _ _ R') as Hr. rewrite He in Hr. apply (sf_runnable _ _ _ F') in Hr as (t5 & Ht5' & Hr). change (tcbs s5 !! c = Some t5) in Ht5'.
    rewrite Ht5 in Ht5'. injection Ht5' as <-. done. }
  split_and!; [by exists b1|done| | |].
  - pose proof (sf_view _ _ F' c) as Hvw. change (with_state s4 c waiting_mutex) with s5 in Hvw. rewrite Ht5 in Hvw. destruct (tcbs s' !! c) as [t'|] eqn:Ht'; [|done].
    exists t'. split; [done|]. simpl in Hvw. unfold sched_view in Hvw. injection Hvw as _ _ _ _ Hst Hsd Hun Hmc. done.
  - unfold resumed in Hres. rewrite decide_False in Hres by done. by apply Hres.
  - intros sp. rewrite <-(pf_don _ _ F1). unfold don. by rewrite (sf_sync _ _ F').
Qed.

(** ** [unlock] *)

Lemma unlock_other s b h m k :
  Running s b h -> is_Some (syncpoints s !! MutexSync m) -> don s (MutexSync m) <> Some (current_tcb s) ->
  wp (Mutex.unlock m (current_tcb s) k) (fun _ s' =>
    Running s' b h /\ sched_frame s s' /\ current_tcb s' = current_tcb s /\ activated s' = k /\
    returned s' (current_tcb s) 0 /\ returned_error s' (current_tcb s) Mutex.EMUTEX_BUSY) s.
Proof.
  intros R [v Hv] Hd. unfold Mutex.unlock, Mutex.get_holder. apply wp_bind. eapply wp_rd_sync; [done|].
  assert (donatee v = don s (MutexSync m)) as -> by (unfold don; by rewrite Hv). rewrite bool_decide_eq_true_2 by done.
  by apply mutex_failure_spec.
Qed.

Lemma unlock_alone s b h m k :
  Running s b h -> don s (MutexSync m) = Some (current_tcb s) -> b (MutexSync m) = [] ->
  wp (Mutex.unlock m (current_tcb s) k) (fun _ s' =>
    (exists h', Running s' b h') /\ current_tcb s' = current_tcb s /\ activated s' = k /\ returned s' (current_tcb s) 1 /\
    (forall sp, don s' sp = if decide (sp = MutexSync m) then None else don s sp) /\ (forall y, prio s' y = prio s y)) s.
Proof.
  intros R Hd Hb. destruct (don_sync _ _ _ Hd) as (v & Hv & Hdv). unfold Mutex.unlock, Mutex.get_holder. apply wp_bind. eapply wp_rd_sync; [done|].
  rewrite Hdv. rewrite bool_decide_eq_false_2 by (intros Hn; by apply Hn). apply wp_bind.
  wp_call (release_empty inheritance); [apply R|done|done|set_solver|by apply (running_unblocked _ _ h)|].
  intros r s1 (-> & K1 & F1 & Hd1 & Hp1). pose proof (mutex_frame_running _ _ _ _ _ _ R K1 F1 Hp1) as R1. pose proof (mf_current _ _ F1) as Hc1.
  wp_call mutex_success_spec; [done|]. intros _ s2 (R2 & F2 & Hc & Hk & Hr). rewrite Hc1 in *. split_and!; try done.
  - by eexists.
  - intros sp. rewrite <-Hd1. unfold don. by rewrite (sf_sync _ _ F2).
  - intros y. by rewrite (sf_prio _ _ _ F2).
Qed.

(** The first waiter gets the mutex and competes for the processor. *)
Lemma unlock_waiter s b h m n l k :
  let c := current_tcb s in
  Running s b h -> c <> idle_tcb s -> don s (MutexSync m) = Some c -> b (MutexSync m) = n :: l ->
  wp (Mutex.unlock m c k) (fun _ s' =>
    (exists h', Running s' (upd_sp b (MutexSync m) l) h') /\ runnable s' n /\
    (if decide (current_tcb s' = c) then activated s' = Mutex.return_success_cont else saved s' c Mutex.return_success_cont) /\
    (exists t, tcbs s' !! c = Some t /\ mutex_continuation t = k) /\
    (forall sp, don s' sp = if decide (sp = MutexSync m) then Some n else don s sp) /\
    prio s' n = prio s n /\ prio s' c <= prio s c) s.
Proof.
  intros c R Hid Hd Hb. pose proof (r_kern _ _ _ R) as K. destruct (don_sync _ _ _ Hd) as (v & Hv & Hdv).
  assert (Hn : n ∈ b (MutexSync m)) by (rewrite Hb; set_solver). destruct (k_mutex _ _ _ _ K n m Hn) as (tn & Htn & Hst).
  assert (Hnc : n <> c) by (intros ->; by apply (running_unblocked _ _ _ R) in Hn).
  assert (Hnb : forall sp, n ∉ upd_sp b (MutexSync m) l sp).
  { intros sp. unfold upd_sp. case_decide as E.
    - intros Hin. pose proof (bq_nodup _ _ (MutexSync m) (pi_bq _ _ _ (k_pi0 _ _ _ _ K))) as Hnd. rewrite Hb in Hnd. by apply NoDup_cons in Hnd as [? _].
    - intros Hin. apply E. by apply (bq_unique _ _ _ _ _ (pi_bq _ _ _ (k_pi0 _ _ _ _ K)) Hin Hn). }
  unfold Mutex.unlock, Mutex.get_holder. apply wp_bind. eapply wp_rd_sync; [done|].
  rewrite Hdv. rewrite bool_decide_eq_false_2 by (intros Hx; by apply Hx). apply wp_bind.
  wp_call (release_waiter inheritance s b h [c] c m n l); [done|done|set_solver|done|by apply (running_unblocked _ _ h)|done|].
  intros r s1 (-> & h' & e & K1 & F1 & Hd1 & Hp1 & Hle & Hcase). pose proof (mf_state _ _ F1) as Hsv.
  destruct (k_hand _ _ _ _ K1 c ltac:(set_solver)) as [[t1 Ht1] _]. apply wp_bind. apply wp_wr_alter; [by eexists|]. set (s2 := set_tcbs _ s1).
  assert (Hpv2 : same_view pi_view s1 s2) by (apply same_view_alter; [done|by intros []]).
  assert (Hsv2 : same_view thread_state s s2).
  { eapply same_view_trans; [exact (same_view_weaken fst _ s s1 Hsv)|]. apply same_view_alter; [done|by intros []]. }
  assert (Hqv2 : same_view (is_queued ready_list) s s2).
  { eapply same_view_trans; [exact (same_view_weaken snd _ s s1 Hsv)|]. apply same_view_alter; [done|by intros []]. }
  assert (Hc2 : current_tcb s2 = c) by apply (mf_current _ _ F1).
  assert (Hp2 : forall y, prio s2 y = if decide (y = c) then e else prio s y) by (intros y; by rewrite (pi_view_prio _ _ _ Hpv2), Hp1).
  assert (Hr2 : forall y, runnable s2 y <-> runnable s y) by (intros; by apply state_runnable).
  pose proof (activate_sched_spec s2 (upd_sp b (MutexSync m) l) h' n running Mutex.return_success_cont Scheduler.sched_default) as Has. rewrite Hc2 in Has.
  wp_call Has; [apply kern_write; [done|by intros []..]|apply Hr2, (r_runnable _ _ _ R)| | |done|done| |].
  - apply (same_view_is_Some _ _ _ _ Hsv2). by eexists.
  - rewrite Hr2. intros (t' & Ht' & Hr). rewrite Htn in Ht'. injection Ht' as <-. by rewrite Hst in Hr.
  - intros Hv2 x Hx. rewrite !Hp2, (decide_True (P := c = c)), (decide_False (P := n = c)) by done.
    assert (Hxs : ready s x). { destruct Hx as (t' & Ht' & Hq). destruct (same_view_lookup _ _ _ _ _ Hqv2 Ht') as (t & Ht & He). exists t. split; [done|congruence]. }
    assert (Hxc : x <> c) by (intros ->; by apply (k_hand _ _ _ _ K c) in Hxs; [|set_solver]).
    rewrite decide_False by done. assert (Hviol : scheduling_invariants_violated s = false) by (rewrite <-(mf_violated _ _ F1); exact Hv2).
    pose proof (r_top _ _ _ R Hviol x Hxs) as Htop. fold c in Htop. lia.
  - intros _ s' (R' & F' & Hres). split_and!.
    + by exists h'.
    + apply (sf_runnable _ _ _ F'), with_state_runnable; [apply (same_view_is_Some _ _ _ _ Hsv2); by eexists|]. by rewrite decide_True.
    + unfold resumed in Hres. case_decide; [done|by apply Hres].
    + pose proof (sf_view _ _ F' c) as Hvw. unfold with_state in Hvw. simpl in Hvw. rewrite lookup_alter_ne, lookup_alter_eq, Ht1 in Hvw by done.
      destruct (tcbs s' !! c) as [t'|]; [|done]. exists t'. split; [done|]. simpl in Hvw. unfold sched_view in Hvw. by injection Hvw.
    + intros sp. rewrite <-Hd1. unfold don. by rewrite (sf_sync _ _ F').
    + rewrite (sf_prio _ _ _ F'), with_state_prio, Hp2, decide_False by done. done.
    + rewrite (sf_prio _ _ _ F'), with_state_prio, Hp2, decide_True by done. done.
Qed.

End lock.
