(* ===== verification/MicroDeadlock.v ===== *)
(** * Deadlock detection

    [is_deadlocked] follows the chain of threads that wait for each other with
    Brent's algorithm.  It always ends; it reports a deadlock exactly if the
    chain never ends, and then with the length of the loop and of the part
    that leads into it. *)

From Stdlib Require Import ZArith.
From S2P Require Import Prelude Rings Queueing MicroLib MicroState MicroSched MicroReady MicroBlocked MicroInherit.
#[local] Open Scope Z_scope.

(** ** Iterating a partial function *)

Section iterate.
Context (f : nat -> option nat) (x0 : nat).

Fixpoint it (k : nat) : option nat := match k with O => Some x0 | S k' => it k' ≫= f end.

Lemma it_none k j : it k = None -> it (k + j) = None.
Proof. intros H. induction j as [|j IH]; [by rewrite Nat.add_0_r|]. rewrite Nat.add_succ_r. simpl. by rewrite IH. Qed.

Lemma it_shift a b k : it a = it b -> it (a + k) = it (b + k).
Proof. intros H. induction k as [|k IH]; [by rewrite !Nat.add_0_r|]. rewrite !Nat.add_succ_r. simpl. by rewrite IH. Qed.

Lemma it_period a d n : it (a + d) = it a -> it (a + n * d) = it a.
Proof.
  intros H. induction n as [|n IH]; [by rewrite Nat.add_0_r|].
  replace (a + S n * d)%nat with ((a + n * d) + d)%nat by lia. by rewrite (it_shift _ _ d IH).
Qed.

(** A repetition anywhere has every other repetition's distance. *)
Lemma it_common a d j lam : (0 < d)%nat -> it (a + d) = it a -> it (j + lam) = it j -> it (a + lam) = it a.
Proof.
  intros Hd Ha Hj. set (k := (a + (j + 1) * d - j)%nat). assert (Hk : (a + (j + 1) * d = j + k)%nat) by nia.
  rewrite <-(it_period a d (j + 1) Ha). rewrite Hk. rewrite <-(it_shift _ _ k Hj).
  replace (j + lam + k)%nat with ((a + (j + 1) * d) + lam)%nat by lia. apply it_shift. symmetry. by apply it_period.
Qed.

(** The chain is a lead of [mu] elements into a loop of [lam]. *)
Definition loops (mu lam : nat) : Prop :=
  (0 < lam)%nat /\ it (mu + lam) = it mu /\ (forall k, is_Some (it k)) /\
  forall a b, (a < b)%nat -> (b < mu + lam)%nat -> it a <> it b.

Lemma loops_intro mu lam j :
  (0 < lam)%nat -> it (j + lam) = it j -> (forall l, (0 < l < lam)%nat -> it (j + l) <> it j) ->
  it (mu + lam) = it mu -> (forall k, (k < mu)%nat -> it (k + lam) <> it k) -> is_Some (it j) -> loops mu lam.
Proof.
  intros H0 Hj Hmin Hmu Hmin' Hs. split_and!; [done|done| |].
  - intros k. apply not_eq_None_Some. intros Hn. apply (it_none _ (j + k * lam - k)) in Hn.
    replace (k + (j + k * lam - k))%nat with (j + k * lam)%nat in Hn by nia. rewrite it_period in Hn by done. rewrite Hn in Hs. by destruct Hs.
  - intros a b Hab Hb Heq. set (d := (b - a)%nat). assert (Hd : it (a + d) = it a) by (unfold d; replace (a + (b - a))%nat with b by lia; done).
    assert (Hdj : it (j + d) = it j) by (apply (it_common j lam a d); done).
    pose proof (it_common a d j lam ltac:(unfold d; lia) Hd Hj) as Ha.
    destruct (decide (a < mu)%nat) as [Hlt|Hge]; [by apply (Hmin' a Hlt)|]. apply (Hmin d); [unfold d; lia|done].
Qed.

End iterate.

(** ** The search for the loop *)

Section brent.
Context (f : nat -> option nat) (x0 n : nat).
#[local] Abbreviation it := (it f x0).

(** A chain that does not end repeats within [n] steps. *)
Hypothesis repeats : forall k, (n <= k)%nat -> is_Some (it k) -> exists a d, (0 < d)%nat /\ (a + d <= n)%nat /\ it (a + d) = it a.

(** The state of the search: the slow pointer is at [j], the fast one at
    [j + lam]; no smaller distance and no smaller power had success. *)
Record brent (j lam power : nat) : Prop := {
  br_slow : (j + 1 = power)%nat;
  br_lam : (0 < lam <= power)%nat;
  br_tried l : (0 < l < lam)%nat -> it (j + l) <> it j;
  br_earlier : power = 1%nat \/ exists p, power = (2 * p)%nat /\ forall l, (0 < l <= p)%nat -> it (p - 1 + l) <> it (p - 1)
}.

Lemma brent_start : brent 0 1 1.
Proof. constructor; [lia|lia|intros; lia|by left]. Qed.

Lemma brent_step j lam power :
  brent j lam power -> it (j + lam) <> it j ->
  if (lam =? power)%nat then brent (j + lam) 1 (2 * power) else brent j (lam + 1) power.
Proof.
  intros [Hj Hl Ht He] Hne. destruct (Nat.eqb_spec lam power) as [->|Hlp].
  - constructor; [lia|lia|intros; lia|]. right. exists power. split; [done|]. intros l Hlp. replace (power - 1)%nat with j by lia.
    destruct (decide (l = power)) as [->|]; [done|]. apply Ht. lia.
  - constructor; [lia|lia| |done]. intros l Hlam. destruct (decide (l = lam)) as [->|]; [done|]. apply Ht. lia.
Qed.

(** The fast pointer stops within [3 n] steps. *)
Lemma brent_bound j lam power : brent j lam power -> it (j + lam) <> it j -> is_Some (it (j + lam)) -> (j + lam <= 3 * n + 1)%nat.
Proof.
  intros [Hj Hl Ht He] Hne Hs. destruct (decide (n <= j + lam)%nat) as [Hge|]; [|lia].
  destruct (repeats _ Hge Hs) as (a & d & Hd & Had & Heq).
  assert (Hper : forall k, (a <= k)%nat -> it (k + d) = it k).
  { intros k Hk. replace (k + d)%nat with ((a + d) + (k - a))%nat by lia. rewrite (it_shift f x0 _ a (k - a) Heq). f_equal. lia. }
  assert (Hlam : (a <= j)%nat -> (lam < d)%nat).
  { intros Haj. destruct (decide (lam < d)%nat) as [|Hnd]; [done|]. exfalso. destruct (decide (lam = d)) as [->|]; [by apply Hne, Hper|].
    apply (Ht d); [lia|]. by apply Hper. }
  assert (Hpow : (power <= 2 * n + 1)%nat).
  { destruct He as [->|(p & -> & Hp)]; [lia|]. destruct (decide (a <= p - 1)%nat) as [Hap|]; [|lia].
    destruct (decide (p < d)%nat); [lia|]. exfalso. apply (Hp d); [lia|]. by apply Hper. }
  destruct (decide (a <= j)%nat) as [Haj|]; [specialize (Hlam Haj); lia|lia].
Qed.

End brent.

(** ** The chain of waiting threads *)

Section deadlock.
Context {cfg : MicroConfig}.
Implicit Types (s : mstate) (b : sync_ptr -> list nat) (x y : nat).

(** The thread that [x] waits for. *)
Definition link s x : option nat := (tcbs s !! x ≫= waiting_for) ≫= don s.

(** [x] waits for [y], in terms of the queues. *)
Lemma link_waits s b x y : BQ s b -> is_Some (tcbs s !! x) -> link s x = Some y <-> waits s b x y.
Proof.
  intros H [t Ht]. unfold link, waits. rewrite Ht. simpl. split.
  - destruct (waiting_for t) as [sp|] eqn:E; [|done]. simpl. intros Hd. exists sp. split; [by apply (bq_wait _ _ H _ _ _ Ht)|done].
  - intros (sp & Hx & Hd). apply (bq_wait _ _ H _ _ _ Ht) in Hx. by rewrite Hx.
Qed.

Lemma link_tcb s b h x y : PI0 s b h -> link s x = Some y -> is_Some (tcbs s !! y).
Proof.
  intros H. unfold link. destruct (tcbs s !! x) as [t|]; [|done]. simpl. destruct (waiting_for t) as [sp|]; [|done]. simpl.
  apply (hq_tcb _ _ (pi_hq _ _ _ H)).
Qed.

Lemma chain_tcb s b h x k y : PI0 s b h -> is_Some (tcbs s !! x) -> it (link s) x k = Some y -> is_Some (tcbs s !! y).
Proof.
  intros H Hx. revert y. induction k as [|k IH]; simpl; intros y; [by intros [= <-]|].
  destruct (it (link s) x k) as [z|]; simpl; [|done]. by eapply link_tcb.
Qed.

Lemma next_link_spec s b h x :
  PI0 s b h -> is_Some (tcbs s !! x) -> wp (Sync.next_link (Some x)) (fun r s' => s' = s /\ r = link s x) s.
Proof.
  intros H [t Ht]. unfold Sync.next_link. apply wp_bind. eapply wp_get_field; [done|]. destruct (waiting_for t) as [sp|] eqn:Hw.
  - assert (Hx : x ∈ b sp) by (by apply (bq_wait _ _ (pi_bq _ _ _ H) _ _ _ Ht)).
    destruct (syncpoints s !! sp) as [v|] eqn:Hv; [|rewrite (bq_out _ _ (pi_bq _ _ _ H) _ Hv) in Hx; set_solver].
    eapply wp_rd_sync; [done|]. split; [done|]. unfold link, don. by rewrite Ht; simpl; rewrite Hw; simpl; rewrite Hv.
  - apply wp_ret. split; [done|]. unfold link. by rewrite Ht; simpl; rewrite Hw.
Qed.

Lemma not_NoDup_repeats (l : list nat) :
  ~ NoDup l -> exists i j y, (i < j)%nat /\ l !! i = Some y /\ l !! j = Some y.
Proof.
  induction l as [|z l IH]; intros Hn; [by destruct Hn; constructor|]. destruct (decide (z ∈ l)) as [Hz|Hz].
  - apply list_elem_of_lookup in Hz as [j Hj]. exists 0%nat, (S j), z. split_and!; [lia|done|done].
  - destruct IH as (i & j & y & Hij & Hi & Hj); [intros Hl; apply Hn; by constructor|]. exists (S i), (S j), y. split_and!; [lia|done|done].
Qed.

(** Among more threads than there are, one comes twice. *)
Lemma chain_repeats s b h x k :
  PI0 s b h -> is_Some (tcbs s !! x) -> (size (tcbs s) <= k)%nat -> is_Some (it (link s) x k) ->
  exists a d, (0 < d)%nat /\ (a + d <= size (tcbs s))%nat /\ it (link s) x (a + d) = it (link s) x a.
Proof.
  intros H Hx Hk Hs. set (n := size (tcbs s)) in *. set (l := (fun i => default 0%nat (it (link s) x i)) <$> seq 0 (S n)).
  assert (Hsome : forall i, (i <= n)%nat -> exists y, it (link s) x i = Some y /\ is_Some (tcbs s !! y)).
  { intros i Hi. destruct (it (link s) x i) as [y|] eqn:E; [exists y; split; [done|by eapply chain_tcb]|].
    apply (it_none _ _ _ (k - i)) in E. replace (i + (k - i))%nat with k in E by lia. rewrite E in Hs. by destruct Hs. }
  destruct (decide (NoDup l)) as [Hnd|Hnd].
  - exfalso. assert (Hle : (length l <= n)%nat); [|unfold l in Hle; rewrite length_fmap, length_seq in Hle; lia].
    apply nodup_length_size; [done|]. intros y Hy. apply list_elem_of_fmap in Hy as (i & -> & Hi). apply elem_of_seq in Hi.
    destruct (Hsome i ltac:(lia)) as (z & -> & Hz). done.
  - apply not_NoDup_repeats in Hnd as (a & c & y & Hac & Ha & Hc). unfold l in Ha, Hc. rewrite list_lookup_fmap in Ha, Hc.
    apply fmap_Some in Ha as (a' & Ha & Hya). apply fmap_Some in Hc as (c' & Hc & Hyc). apply lookup_seq in Ha as [-> Ha]. apply lookup_seq in Hc as [-> Hc].
    destruct (Hsome (0 + a)%nat ltac:(lia)) as (ya & Ea & _). destruct (Hsome (0 + c)%nat ltac:(lia)) as (yc & Ec & _).
    rewrite Ea in Hya. rewrite Ec in Hyc. simpl in *. exists a, (c - a)%nat. split_and!; [lia|lia|]. replace (a + (c - a))%nat with c by lia. congruence.
Qed.

#[local] Abbreviation chain s x := (it (link s) x).

Lemma brent_loop_spec fuel s b h x j lam power :
  PI0 s b h -> is_Some (tcbs s !! x) -> brent (link s) x j lam power -> is_Some (chain s x j) ->
  (3 * size (tcbs s) + 2 <= fuel + (j + lam))%nat ->
  wp (Sync.find_loop fuel (chain s x (j + lam)) (chain s x j) (Z.of_nat lam) (Z.of_nat power)) (fun r s' => s' = s /\
    match r with
    | None => exists k, chain s x k = None
    | Some l => exists j' l', l = Z.of_nat l' /\ (0 < l')%nat /\ is_Some (chain s x j') /\ chain s x (j' + l') = chain s x j' /\
                forall i, (0 < i < l')%nat -> chain s x (j' + i) <> chain s x j'
    end) s.
Proof.
  intros H Hx. revert j lam power. induction fuel as [|fuel IH]; intros j lam power B Hj Hf.
  all: cbn [Sync.find_loop]; case_bool_decide as Heq.
  1, 3: (apply wp_ret; split; [done|]; exists j, lam; split_and!; [done|apply B|done|done|apply B]).
  all: case_bool_decide as Hn; [apply wp_ret; split; [done|]; by eexists|].
  all: assert (Hs : is_Some (chain s x (j + lam))) by (by apply not_eq_None_Some).
  - exfalso. pose proof (brent_bound (link s) x (size (tcbs s)) (fun k => chain_repeats s b h x k H Hx) j lam power B Heq Hs). lia.
  - destruct Hs as [y Hy]. pose proof (brent_step _ _ _ _ _ B Heq) as B'.
    assert (Hnext : wp (Sync.next_link (chain s x (j + lam))) (fun r s' => s' = s /\ r = chain s x (j + lam + 1)) s).
    { rewrite Hy. eapply wp_mono; [eapply next_link_spec; [done|by eapply chain_tcb]|]. intros r s' [-> ->]. split; [done|].
      replace (j + lam + 1)%nat with (S (j + lam)) by lia. simpl. by rewrite Hy. }
    assert (Hlp : (Z.of_nat lam =? Z.of_nat power) = (lam =? power)%nat) by (apply eq_true_iff_eq; rewrite Z.eqb_eq, Nat.eqb_eq; lia).
    rewrite Hlp. destruct (lam =? power)%nat.
    + apply wp_bind. eapply wp_mono; [exact Hnext|]. intros r s' [-> ->]. specialize (IH (j + lam)%nat 1%nat (2 * power)%nat B' ltac:(by eexists) ltac:(lia)).
      replace (Z.of_nat (2 * power)) with (Z.of_nat power * 2) in IH by lia. exact IH.
    + apply wp_bind. eapply wp_mono; [exact Hnext|]. intros r s' [-> ->]. specialize (IH j (lam + 1)%nat power B' Hj ltac:(lia)).
      replace (Z.of_nat (lam + 1)) with (Z.of_nat lam + 1) in IH by lia. by rewrite <-Nat.add_assoc.
Qed.

Lemma advance_spec n s b h x k :
  PI0 s b h -> is_Some (tcbs s !! x) -> (forall i, is_Some (chain s x i)) ->
  wp (Sync.advance n (chain s x k)) (fun r s' => s' = s /\ r = chain s x (k + n)) s.
Proof.
  intros H Hx Hall. revert k. induction n as [|n IH]; intros k; cbn [Sync.advance].
  - apply wp_ret. by rewrite Nat.add_0_r.
  - destruct (Hall k) as [y Hy]. rewrite Hy. apply wp_bind. wp_call next_link_spec; [done|by eapply chain_tcb|]. intros r s' [-> ->].
    assert (link s y = chain s x (S k)) as -> by (simpl; by rewrite Hy). apply wp_bind, wp_ASSERT.
    { apply bool_decide_eq_true. by apply not_eq_None_Some. }
    rewrite Nat.add_succ_r, <-Nat.add_succ_l. apply IH.
Qed.

Lemma find_head_spec fuel s b h x lam mu :
  PI0 s b h -> is_Some (tcbs s !! x) -> (forall i, is_Some (chain s x i)) ->
  (exists m, (mu <= m)%nat /\ (m < mu + fuel)%nat /\ chain s x (m + lam) = chain s x m) -> (forall k, (k < mu)%nat -> chain s x (k + lam) <> chain s x k) ->
  wp (Sync.find_head fuel (chain s x (mu + lam)) (chain s x mu) (Z.of_nat mu)) (fun r s' => s' = s /\
    exists m, r = Z.of_nat m /\ chain s x (m + lam) = chain s x m /\ forall k, (k < m)%nat -> chain s x (k + lam) <> chain s x k) s.
Proof.
  intros H Hx Hall. revert mu. induction fuel as [|fuel IH]; intros mu (m & Hm1 & Hm2 & Hm) Hlow; [lia|].
  cbn [Sync.find_head]. case_bool_decide as Heq; [apply wp_ret; split; [done|]; by exists mu|].
  assert (mu <> m) by (intros ->; done). destruct (Hall mu) as [y Hy]. destruct (Hall (mu + lam)%nat) as [z Hz]. rewrite Hy, Hz.
  apply wp_bind. wp_call next_link_spec; [done|by eapply chain_tcb|]. intros r1 s' [-> ->].
  apply wp_bind. wp_call next_link_spec; [done|by eapply (chain_tcb s b h x mu)|]. intros r2 s' [-> ->].
  assert (link s z = chain s x (S mu + lam)) as -> by (simpl; by rewrite Hz). assert (link s y = chain s x (S mu)) as -> by (simpl; by rewrite Hy).
  apply wp_bind, wp_ASSERT; [apply bool_decide_eq_true; by apply not_eq_None_Some|].
  apply wp_bind, wp_ASSERT; [apply bool_decide_eq_true; by apply not_eq_None_Some|].
  replace (Z.of_nat mu + 1) with (Z.of_nat (S mu)) by lia. apply IH.
  - exists m. split_and!; [lia|lia|done].
  - intros k Hk. destruct (decide (k = mu)) as [->|]; [done|]. apply Hlow. lia.
Qed.

(** The answer of [is_deadlocked]. *)
Lemma is_deadlocked_spec s b h x :
  PI0 s b h -> is_Some (tcbs s !! x) ->
  wp (Sync.is_deadlocked x) (fun r s' => s' = s /\
    match r with
    | None => exists k, chain s x k = None
    | Some (mu, lam) => exists m l, mu = Z.of_nat m /\ lam = Z.of_nat l /\ loops (link s) x m l
    end) s.
Proof.
  intros H Hx. unfold Sync.is_deadlocked. apply wp_bind, wp_gets. apply wp_bind. wp_call next_link_spec; [done..|]. intros r s' [-> ->].
  change (link s x) with (chain s x (0 + 1)). change (Some x) with (chain s x 0).
  apply wp_bind. wp_call (brent_loop_spec (4 * size (tcbs s) + 4) s b h x 0 1 1); [done|done|apply brent_start|by eexists|lia|].
  intros [l|] s' [-> Hr]; [|by apply wp_ret]. destruct Hr as (j & l' & -> & H0 & Hj & Hl & Hmin). rewrite Nat2Z.id.
  assert (Hall : forall i, is_Some (chain s x i)).
  { intros k. apply not_eq_None_Some. intros Hn. apply (it_none _ _ _ (j + k * l' - k)) in Hn.
    replace (k + (j + k * l' - k))%nat with (j + k * l')%nat in Hn by nia. rewrite it_period in Hn by done. rewrite Hn in Hj. by destruct Hj. }
  destruct (chain_repeats s b h x (size (tcbs s)) H Hx ltac:(lia) (Hall _)) as (a & d & Hd & Had & He).
  apply wp_bind. wp_call (advance_spec l' s b h x 0); [done..|]. intros r s' [-> ->].
  apply wp_bind. wp_call (find_head_spec (size (tcbs s) + 1) s b h x l' 0); [done..| |intros; lia|].
  { exists a. split_and!; [lia|lia|]. by apply (it_common _ _ a d j l'). }
  intros r s' [-> (m & -> & Hm & Hlow)]. apply wp_ret. split; [done|]. exists m, l'. split_and!; [done|done|]. by apply (loops_intro _ _ m l' j).
Qed.

End deadlock.
