(* ===== verification/MicroTheorems.v ===== *)
(** * The microkernel: properties

    The claims about the scheduler, the synchronisation points, the mutexes
    and the deadlock detection, and a small system that they are applied to. *)

From S2P Require Import Prelude Rings Queueing MicroLib MicroState MicroSched MicroReady MicroBlocked MicroInherit MicroPropagate MicroSync MicroKernel MicroPaths MicroMutex MicroLock MicroDeadlock.
#[local] Open Scope Z_scope.

(** ** A small system

    The idle thread 0; thread 1 (priority 50) runs; threads 2 (priority 100),
    3 (priority 60) and 4 (priority 20) are halted; there is one mutex. *)
Module Example.

#[export] Instance config : MicroConfig := {| schedule_inheritance := true |}.

Definition thread (st : thread_state_e) (prio : Z) : tcb_t :=
  Tcb st prio prio 10 10 None None None None None None 0 0 0 0 false 0 None false 0 0.

Definition threads : gmap nat tcb_t :=
  <[0%nat := thread running (-1)]> (<[1%nat := thread running 50]> (<[2%nat := thread halted 100]>
  (<[3%nat := thread halted 60]> (<[4%nat := thread halted 20]> ∅)))).

Definition endpoints : list nat := [0; 1; 2; 3; 4]%nat.

Definition syncs : gmap sync_ptr syncpoint_t :=
  <[MutexSync 0 := Syncpoint None None]>
  (list_to_map ((fun x => (SendQueue x, Syncpoint (Some x) None)) <$> endpoints) ∪
   list_to_map ((fun x => (RecvQueue x, Syncpoint (Some x) None)) <$> endpoints)).

Definition start : mstate :=
  MState threads {[0%nat := Mutex None None]} syncs (replicate 256 None) 0 (replicate 8 0) false 1 1 0 0.

Definition no_waiters : sync_ptr -> list nat := fun _ => [].
Definition no_mutexes : nat -> list nat := fun _ => [].
Definition no_threads : queues := fun _ => [].

(** The result of a kernel entry that does not fail. *)
Definition run {A} (c : K A) (s : mstate) : mstate := match c s with Done _ s' => s' | Crash _ => s end.

Lemma run_wp (c : K unit) Q s : wp c Q s -> Q tt (run c s).
Proof. unfold wp, run. destruct (c s) as [[] s'|]; [done|by intros []]. Qed.

Lemma threads_inv x t : threads !! x = Some t ->
  (x = 0%nat /\ t = thread running (-1)) \/ (x = 1%nat /\ t = thread running 50) \/ (x = 2%nat /\ t = thread halted 100) \/
  (x = 3%nat /\ t = thread halted 60) \/ (x = 4%nat /\ t = thread halted 20).
Proof.
  unfold threads. repeat (rewrite lookup_insert_Some; intros [[<- <-]|[_ H]]; [naive_solver|revert H]). by rewrite lookup_empty.
Qed.

Lemma start_rq : RQ start no_threads.
Proof.
  constructor; try done.
  - intros p Hp. exists None. unfold prio_ok, MAX_PRIO in Hp. split; [change (replicate 256 (None : ptr) !! Z.to_nat p = Some None); apply lookup_replicate_2; lia|]. by split_and!; [|constructor|].
  - intros p x Hx. by apply elem_of_nil in Hx.
  - intros x t Ht Hq. apply threads_inv in Ht. naive_solver.
  - repeat constructor; unfold is_word, WORD_MOD; lia.
  - intros p Hp. unfold bm_bit. change (prio_bitmap start) with (replicate 8 0). destruct (prio_word p Hp) as [Hw _].
    rewrite lookup_replicate_2 by lia. apply Z.bits_0.
  - intros i Hi. change (prio_bitmap start) with (replicate 8 0). rewrite lookup_replicate_2 by lia. apply Z.bits_0.
Qed.

Lemma start_sync sp v : syncpoints start !! sp = Some v -> blocked_head v = None /\
  match sp with MutexSync m => m = 0%nat /\ donatee v = None | SendQueue x | RecvQueue x => donatee v = Some x /\ x ∈ endpoints end.
Proof.
  simpl. unfold syncs. rewrite lookup_insert_Some. intros [[<- <-]|[_ H]]; [done|].
  apply lookup_union_Some_raw in H as [H|[_ H]]; apply elem_of_list_to_map_2, list_elem_of_fmap in H as (x & [= -> ->] & Hx); done.
Qed.

Lemma start_endpoint x : is_Some (threads !! x) -> don start (SendQueue x) = Some x /\ don start (RecvQueue x) = Some x.
Proof. intros [t Ht]. apply threads_inv in Ht. destruct_or!; destruct Ht as [-> _]; by split; vm_compute. Qed.

Lemma start_don sp x : don start sp = Some x -> is_Some (threads !! x) /\ (sp = SendQueue x \/ sp = RecvQueue x).
Proof.
  unfold don. destruct (syncpoints start !! sp) as [v|] eqn:Hv; [|done]. simpl. intros Hd. apply start_sync in Hv as [_ Hv].
  destruct sp as [m|y|y]; [naive_solver|..]; destruct Hv as [Hv Hin]; rewrite Hd in Hv; injection Hv as ->; (split; [|auto]);
  unfold endpoints in Hin; repeat (apply elem_of_cons in Hin as [->|Hin]; [by vm_compute; eexists|]); by apply elem_of_nil in Hin.
Qed.

Lemma start_free : don start (MutexSync 0) = None.
Proof. by vm_compute. Qed.

Lemma start_pi0 : PI0 start no_waiters no_mutexes.
Proof.
  constructor.
  - constructor; try done.
    + intros sp v Hv. apply start_sync in Hv as [-> _]. by split_and!; [|constructor|].
    + intros x t sp Ht. apply threads_inv in Ht. split; [intros Hx; by apply elem_of_nil in Hx|]. naive_solver.
    + intros x t Ht. apply threads_inv in Ht. naive_solver.
  - constructor.
    + intros x t Ht. apply threads_inv in Ht. assert (mutexes_head t = None) as -> by naive_solver. by split_and!; [|constructor|].
    + intros x m. split; [intros Hx; by apply elem_of_nil in Hx|]. intros Hd. apply start_don in Hd. naive_solver.
    + intros x Hx. by apply start_endpoint.
    + intros x _ Hx. by apply start_endpoint.
    + intros x y [Hd|Hd]; apply start_don in Hd; naive_solver.
    + intros sp x Hd. by apply start_don in Hd as [? _].
  - exists no_threads. apply start_rq.
  - intros sp. constructor.
  - intros x t Ht Hid. apply threads_inv in Ht. simpl in Hid. unfold prio_ok, MAX_PRIO. destruct_or!; destruct Ht as [-> ->]; simpl; (done || lia).
  - intros y sp Hy. by apply elem_of_nil in Hy.
Qed.

Lemma start_running : Running start no_waiters no_mutexes.
Proof.
  assert (Hnr : forall x, ~ ready start x) by (intros x (t & Ht & Hq); apply threads_inv in Ht; naive_solver).
  constructor; [|by exists (thread running 50)|].
  - constructor; [apply start_pi0| | | | | | | |].
    + intros x [t Ht] Hid. apply threads_inv in Ht as Ht'. unfold inherited, base, prio. rewrite Ht. simpl. split_and!.
      * naive_solver.
      * intros y (sp & Hy & _). by apply elem_of_nil in Hy.
      * left. naive_solver.
    + intros x Hx. apply list_elem_of_singleton in Hx as ->. split; [by vm_compute; eexists|apply Hnr].
    + intros x Hx Hid. split; [intros Hr; by apply Hnr in Hr|]. intros (t & Ht & Hr). apply threads_inv in Ht. simpl in *. set_solver.
    + split; [by exists (thread running (-1))|done].
    + intros x sp Hx. by apply elem_of_nil in Hx.
    + intros x m Hx. by apply elem_of_nil in Hx.
    + done.
    + intros m. destruct (decide (m = 0%nat)) as [->|Hm]; [by vm_compute; split; eexists|]. simpl. rewrite lookup_singleton_ne by done. split; [by intros []|].
      intros [v Hv]. apply (start_sync (MutexSync m) v) in Hv as (_ & ? & _). done.
  - intros _ x Hx. by apply Hnr in Hx.
Qed.

(** Thread 1 takes the mutex, thread 2 wakes up and preempts it, and blocks on
    the mutex, whose holder inherits its priority. *)
Definition held : mstate := run (Mutex.lock 0 1 true 7) start.
Definition preempted : mstate := run (Scheduler.activate_sched 2 running 1 5 Scheduler.sched_default) held.
Definition waiting : mstate := run (Mutex.lock 0 2 true 9) preempted.

Example waiting_state :
  current_tcb waiting = 1%nat /\ prio waiting 1 = 100 /\ base waiting 1 = 50 /\ don waiting (MutexSync 0) = Some 1%nat /\ link waiting 2 = Some 1%nat.
Proof. by vm_compute. Qed.

Lemma held_running : exists h, Running held no_waiters h.
Proof. destruct (run_wp _ _ _ (lock_free (cfg := config) eq_refl start no_waiters no_mutexes 0 true 7 start_running ltac:(by vm_compute; eexists) eq_refl)) as [H _]. exact H. Qed.

Lemma preempted_running : exists h, Running preempted no_waiters h.
Proof.
  destruct held_running as [h R]. exists h.
  destruct (run_wp _ _ _ (activate_sched_spec held no_waiters h 2 running 5 Scheduler.sched_default (r_kern _ _ _ R) (r_runnable _ _ _ R)
    ltac:(by vm_compute; eexists) ltac:(intros (t & Ht & Hr); vm_compute in Ht; by simplify_eq) ltac:(intros sp Hx; by apply elem_of_nil in Hx) eq_refl
    ltac:(intros Hv x Hx; pose proof (r_top _ _ _ R Hv x Hx); lia))) as [H _]. exact H.
Qed.

Lemma waiting_running : exists b h, Running waiting b h /\ b (MutexSync 0) = [2%nat].
Proof.
  destruct preempted_running as [h R].
  destruct (run_wp _ _ _ (lock_block (cfg := config) eq_refl preempted no_waiters h 0 1 9 R ltac:(by vm_compute) eq_refl ltac:(by vm_compute) ltac:(by vm_compute))) as [(b & R' & Hb) _].
  exists b, h. split; [exact R'|]. pose proof (bq_nodup _ _ (MutexSync 0) (pi_bq _ _ _ (k_pi0 _ _ _ _ (r_kern _ _ _ R')))) as Hnd.
  assert (Hall : forall z, z ∈ b (MutexSync 0) <-> z = 2%nat).
  { intros z. rewrite Hb. split; [intros [Hz|[Hz _]]; [by apply elem_of_nil in Hz|exact Hz]|]. intros ->. by right. }
  destruct (b (MutexSync 0)) as [|z [|z' l]]; [exfalso; apply (elem_of_nil 2%nat), Hall; done| |].
  - f_equal. apply Hall, list_elem_of_here.
  - apply NoDup_cons in Hnd as [Hz _]. exfalso. apply Hz. rewrite (proj1 (Hall z) (list_elem_of_here _ _)).
    rewrite (proj1 (Hall z') (list_elem_of_further _ _ _ (list_elem_of_here _ _))). apply list_elem_of_here.
Qed.

End Example.

Section claims.
Context {cfg : MicroConfig}.
Implicit Types (s : mstate) (b : sync_ptr -> list nat) (h : nat -> list nat) (q : queues) (x : nat).

(** C7: the ready queues of [prio_queue_t] (256 rings and a two-level bitmap)
    refine a list of threads per priority: [enqueue] appends to the list of
    the thread's priority, [dequeue] takes the thread off it,
    [set_effective_priority] moves a queued thread to the end of the list of
    its new priority, and [get_highest_priority] returns the highest priority
    with a thread, or -1. *)
Theorem ready_queues_refine s q x t :
  RQ s q -> tcbs s !! x = Some t -> x <> idle_tcb s -> prio_ok (effective_prio t) ->
  (is_queued ready_list t = false -> wp (PrioQueue.enqueue x) (fun _ s' => RQ s' (enq q (effective_prio t) x)) s) /\
  (is_queued ready_list t = true -> wp (PrioQueue.dequeue x) (fun _ s' => RQ s' (deq q x)) s) /\
  (forall p, prio_ok p -> wp (PrioQueue.set_effective_priority x p) (fun _ s' => RQ s' (requeue q x t p)) s) /\
  wp PrioQueue.get_highest_priority (fun p s' => s' = s /\ highest q p) s.
Proof.
  intros H Ht Hid Hp. split_and!.
  - intros Hq. wp_call enqueue_ready_spec; [done..|]. by intros _ s' [? _].
  - intros Hq. wp_call dequeue_ready_queues; [done..|]. by intros _ s' [? _].
  - intros p Hp'. wp_call set_effective_priority_spec; [done..|]. by intros _ s' [? _].
  - by apply get_highest_priority_spec.
Qed.

(** C3: with [CONFIG_SCHEDULE_INHERITANCE], blocking a thread on a
    synchronisation point, unblocking it and changing its base priority all
    end, keep every queue sorted, and leave every thread at the maximum of its
    base priority and of the priorities of the threads that wait for it,
    directly or through others, even if threads wait for each other in a
    cycle; no other thread starts or stops waiting. *)
Theorem priority_inheritance_kept s b h x t :
  schedule_inheritance = true -> PI0 s b h -> PI s b -> tcbs s !! x = Some t -> x <> idle_tcb s ->
  (forall sp, waiting_for t = None -> is_Some (syncpoints s !! sp) -> don s sp <> Some (idle_tcb s) ->
     wp (Sync.block sp x) (fun _ s' => after s h s' (fun sp' y => y ∈ b sp' \/ (y = x /\ sp' = sp))) s) /\
  (forall sp, waiting_for t = Some sp ->
     wp (Sync.unblock sp x) (fun _ s' => after s h s' (fun sp' y => y ∈ b sp' /\ y <> x)) s) /\
  (forall p, prio_ok p -> wp (Scheduler.set_priority x p) (fun _ s' => settled (with_base s x p) b h s') s).
Proof.
  intros Hi H HP Ht Hid. split_and!.
  - intros sp Hw Hs Hd. by eapply block_spec.
  - intros sp Hw. by eapply unblock_spec.
  - intros p Hp. by eapply set_priority_spec.
Qed.

(** C4: whenever the kernel returns to a thread, that thread is runnable and,
    unless the scheduler has recorded the contrary, no ready thread has a
    higher effective priority.  [schedule] establishes this from any state in
    which the current thread is in the kernel's hand: the current thread
    stays exactly if it is runnable and at least as urgent as every ready
    thread (more urgent, when it yields), and otherwise the first thread of
    the highest queue takes over and the old one, if runnable, goes to the end
    of its queue.  A yield, a timer tick and the activation or deactivation of
    another thread keep it, started by a thread that runs in this order
    ([Running]), and a thread that is switched to continues where it had
    stopped.  A donation of the timeslice leaves the order without recording
    it ([donation_hides_the_donor]); nothing is claimed of the entries after
    one, until the next [schedule]. *)
Theorem scheduler_runs_the_highest s b h q k flags :
  RQ s q ->
  let c := current_tcb s in
  (Kern [c] s b h ->
     wp (Scheduler.schedule c k flags) (fun _ s' => Running s' b h /\ resumed s c k s' /\ scheduled s q c flags s') s) /\
  (Running s b h ->
     (is_Some (tcbs s !! current_schedule s) -> current_schedule s <> idle_tcb s ->
        wp (Scheduler.yield c k) (fun _ s' => Running s' b h /\ resumed s c k s' /\
          exists s1 q1, same_ready q q1 /\ sched_frame s s1 /\ scheduled s1 q1 c Scheduler.sched_round_robin s') s) /\
     (forall t wakeup len, tcbs s !! current_schedule s = Some t -> (current_schedule s = idle_tcb s -> c = idle_tcb s) ->
        wp (Scheduler.handle_timer_interrupt wakeup len k) (fun _ s' => Running s' b h /\ resumed s c k s' /\
          (wakeup = false -> current_timeslice t = 0 \/ len < current_timeslice t -> current_tcb s' = c)) s) /\
     (forall x, is_Some (tcbs s !! x) -> ~ runnable s x -> (forall sp, x ∉ b sp) ->
        wp (Scheduler.activate_sched x running c k flags) (fun _ s' => Running s' b h /\ runnable s' x /\ resumed s c k s') s) /\
     (forall x st, runnable s x -> x <> idle_tcb s -> x <> c -> is_runnable st = false ->
        wp (Scheduler.deactivate_sched x st c k flags) (fun _ s' => Running s' b h /\ ~ runnable s' x /\ resumed s c k s') s)).
Proof.
  intros HR c. split; [|intros R; split_and!].
  - intros K. wp_call schedule_spec; [done..|]. by intros _ s' (? & _ & ? & ?).
  - intros Hs Hsi. wp_call yield_sched_spec; [done..|]. by intros _ s' (? & _ & ? & ?).
  - intros t wakeup len Ht Hsi. wp_call handle_timer_interrupt_spec; [done..|]. by intros _ s' (? & _ & ? & ?).
  - intros x Hx Hn Hb. wp_call activate_sched_spec; [apply R|apply (r_runnable _ _ _ R)|done..| |].
    + intros Hv y Hy. pose proof (r_top _ _ _ R Hv y Hy). lia.
    + intros _ s' (R' & F & Hres). split_and!; [done| |done]. apply (sf_runnable _ _ _ F), with_state_runnable; [done|]. by rewrite decide_True.
  - intros x st Hx Hid Hc Hst. wp_call deactivate_other_spec; [done..|]. intros _ s' (R' & F & Hres). split_and!; [done| |done].
    destruct Hx as (t & Ht & _). rewrite (sf_runnable _ _ _ F), with_state_runnable by (by eexists). rewrite decide_True by done. by rewrite Hst.
Qed.

(** C5: locking a kernel mutex with priority inheritance.  A free mutex is
    acquired and 1 returned; a call that must not wait, or that comes from the
    holder, returns 0 with [EMUTEX_BUSY] and changes nothing else; otherwise
    the caller is queued on the mutex with what it needs to wake up, another
    thread runs, and the holder stays the same.  In each case the kernel
    leaves with the most urgent thread running and every inherited priority
    up to date. *)
Theorem mutex_lock_correct s b h m blocking k :
  schedule_inheritance = true -> Running s b h -> is_Some (mutexes s !! m) ->
  let c := current_tcb s in
  c <> idle_tcb s ->
  match don s (MutexSync m) with
  | None =>
      wp (Mutex.lock m c blocking k) (fun _ s' =>
        (exists h', Running s' b h') /\ current_tcb s' = c /\ activated s' = k /\ returned s' c 1 /\
        (forall sp, don s' sp = if decide (sp = MutexSync m) then Some c else don s sp) /\ (forall y, prio s' y = prio s y)) s
  | Some y =>
      if negb blocking || bool_decide (y = c) then
        wp (Mutex.lock m c blocking k) (fun _ s' =>
          Running s' b h /\ sched_frame s s' /\ current_tcb s' = c /\ activated s' = k /\ returned s' c 0 /\ returned_error s' c Mutex.EMUTEX_BUSY) s
      else y <> idle_tcb s ->
        wp (Mutex.lock m c blocking k) (fun _ s' =>
          (exists b', Running s' b' h /\ forall sp z, z ∈ b' sp <-> z ∈ b sp \/ (z = c /\ sp = MutexSync m)) /\
          current_tcb s' <> c /\ parked s' c m k /\ saved s' c Mutex.mutex_wakeup_cont /\ (forall sp, don s' sp = don s sp)) s
  end.
Proof.
  intros Hi R Hm c Hid. destruct (don s (MutexSync m)) as [y|] eqn:Hd.
  - destruct (negb blocking || bool_decide (y = c)) eqn:E.
    + eapply lock_busy; [done|done|]. apply orb_true_iff in E as [E|E]; [left; by destruct blocking|right; by apply bool_decide_eq_true in E].
    + apply orb_false_iff in E as [E1 E2]. destruct blocking; [|done]. apply bool_decide_eq_false in E2. intros Hy. by apply (lock_block Hi s b h m y k).
  - by apply (lock_free Hi s b h m blocking k).
Qed.

(** C6: unlocking a kernel mutex with priority inheritance.  A caller that
    does not hold it gets 0 and [EMUTEX_BUSY]; without waiters the mutex is
    free afterwards and 1 is returned; with waiters the first, the most urgent
    one, becomes the holder and runnable, the caller loses the priority it had
    inherited through the mutex, and the more urgent of the two runs, without
    a full schedule unless one is due. *)
Theorem mutex_unlock_correct s b h m k :
  schedule_inheritance = true -> Running s b h -> is_Some (mutexes s !! m) ->
  let c := current_tcb s in
  c <> idle_tcb s ->
  if decide (don s (MutexSync m) = Some c) then
    match b (MutexSync m) with
    | [] =>
        wp (Mutex.unlock m c k) (fun _ s' =>
          (exists h', Running s' b h') /\ current_tcb s' = c /\ activated s' = k /\ returned s' c 1 /\
          (forall sp, don s' sp = if decide (sp = MutexSync m) then None else don s sp) /\ (forall y, prio s' y = prio s y)) s
    | n :: l =>
        wp (Mutex.unlock m c k) (fun _ s' =>
          (exists h', Running s' (upd_sp b (MutexSync m) l) h') /\ runnable s' n /\
          (if decide (current_tcb s' = c) then activated s' = Mutex.return_success_cont else saved s' c Mutex.return_success_cont) /\
          (exists t, tcbs s' !! c = Some t /\ mutex_continuation t = k) /\
          (forall sp, don s' sp = if decide (sp = MutexSync m) then Some n else don s sp) /\
          (forall y, y ∈ n :: l -> prio s y <= prio s n) /\ prio s' n = prio s n /\ prio s' c <= prio s c) s
    end
  else
    wp (Mutex.unlock m c k) (fun _ s' =>
      Running s' b h /\ sched_frame s s' /\ current_tcb s' = c /\ activated s' = k /\ returned s' c 0 /\ returned_error s' c Mutex.EMUTEX_BUSY) s.
Proof.
  intros Hi R Hm c Hid. pose proof (r_kern _ _ _ R) as K. case_decide as Hd; [|apply (unlock_other s b h m k); [done|by apply (k_object _ _ _ _ K)|done]].
  destruct (b (MutexSync m)) as [|n l] eqn:Hb; [by apply (unlock_alone Hi s b h m k)|].
  wp_call (unlock_waiter Hi s b h m n l k); [done..|]. intros _ s' (H1 & H2 & H3 & H4 & H5 & H6 & H7). split_and!; try done.
  intros y Hy. pose proof (pi_sorted _ _ _ (k_pi0 _ _ _ _ K) (MutexSync m)) as Hs. rewrite Hb in Hs. by eapply sorted_by_head.
Qed.

(** C8: [is_deadlocked] always ends.  It reports no deadlock exactly if the
    chain of threads that [x] waits for ends; otherwise it returns the length
    of the lead and of the loop of that chain: [head_length] different threads
    and then [loop_length] different threads that wait for each other in a
    circle. *)
Theorem deadlock_detection_correct s b h x :
  PI0 s b h -> is_Some (tcbs s !! x) ->
  wp (Sync.is_deadlocked x) (fun r s' => s' = s /\
    match r with
    | None => exists k, it (link s) x k = None
    | Some (mu, lam) => exists m l, mu = Z.of_nat m /\ lam = Z.of_nat l /\ loops (link s) x m l
    end) s /\
  (forall m l, loops (link s) x m l -> forall k, is_Some (it (link s) x k)) /\
  (forall y z, is_Some (tcbs s !! y) -> link s y = Some z <-> waits s b y z).
Proof.
  intros H Hx. split_and!; [by eapply is_deadlocked_spec|by intros m l (_ & _ & ? & _)|]. intros y z Hy. apply link_waits; [apply H|done].
Qed.

End claims.

(** ** Applications *)

Import Example.

Lemma ready_queues_refine_witness :
  wp (PrioQueue.enqueue 1) (fun _ s' => RQ s' (enq no_threads 50 1)) start.
Proof.
  exact (proj1 (ready_queues_refine start no_threads 1 (thread running 50) start_rq eq_refl ltac:(done) ltac:(unfold prio_ok, MAX_PRIO; simpl; lia)) eq_refl).
Defined.

Lemma priority_inheritance_kept_witness :
  wp (Scheduler.set_priority 1 70) (fun _ s' => settled (with_base start 1 70) no_waiters no_mutexes s') start.
Proof.
  exact (proj2 (proj2 (priority_inheritance_kept start no_waiters no_mutexes 1 (thread running 50) eq_refl start_pi0
    (k_pi _ _ _ _ (r_kern _ _ _ start_running)) eq_refl ltac:(done))) 70 ltac:(unfold prio_ok, MAX_PRIO; lia)).
Defined.

Lemma scheduler_runs_the_highest_witness :
  wp (Scheduler.schedule 1 7 Scheduler.sched_default) (fun _ s' =>
    Running s' no_waiters no_mutexes /\ resumed start 1 7 s' /\ scheduled start no_threads 1 Scheduler.sched_default s') start.
Proof.
  exact (proj1 (scheduler_runs_the_highest start no_waiters no_mutexes no_threads 7 Scheduler.sched_default start_rq) (r_kern _ _ _ start_running)).
Defined.

Lemma mutex_lock_correct_witness : exists h', Running (run (Mutex.lock 0 1 true 7) start) no_waiters h'.
Proof.
  pose proof (mutex_lock_correct start no_waiters no_mutexes 0 true 7 eq_refl start_running ltac:(by vm_compute; eexists) ltac:(done)) as H.
  rewrite start_free in H. exact (proj1 (run_wp _ _ _ H)).
Defined.

(** Thread 1, which holds the mutex that thread 2 waits for, unlocks it. *)
Lemma mutex_unlock_correct_witness : exists b h, Running waiting b h /\ wp (Mutex.unlock 0 1 11) (fun _ s' => runnable s' 2) waiting.
Proof.
  destruct waiting_running as (b & h & R & Hb). exists b, h. split; [exact R|].
  pose proof (mutex_unlock_correct waiting b h 0 11 eq_refl R ltac:(by vm_compute; eexists) ltac:(by vm_compute)) as H.
  rewrite Hb in H. rewrite decide_True in H by (by vm_compute). eapply wp_mono; [exact H|]. intros _ s' (_ & Hr & _). exact Hr.
Defined.

Lemma deadlock_detection_correct_witness : exists b h, PI0 waiting b h /\
  wp (Sync.is_deadlocked 2) (fun r s' => s' = waiting /\ match r with None => exists k, it (link waiting) 2 k = None
    | Some (mu, lam) => exists m l, mu = Z.of_nat m /\ lam = Z.of_nat l /\ loops (link waiting) 2 m l end) waiting.
Proof.
  destruct waiting_running as (b & h & R & _). exists b, h. pose proof (k_pi0 _ _ _ _ (r_kern _ _ _ R)) as H. split; [exact H|].
  exact (proj1 (deadlock_detection_correct waiting b h 2 H ltac:(by vm_compute; eexists))).
Defined.

(** ** Timeslice donation *)

(** After a timeslice donation the scheduler's fast path can start the
    wrong thread.  [donate] switches to the chosen thread, however low its
    priority, without recording that the scheduling invariant no longer holds
    (as [context_switch] does); when that thread then wakes a third one,
    [activate_sched] compares only the two and runs the third although the
    donor, ready, has a higher priority. *)
Lemma donation_hides_the_donor :
  exists s b h k1 k2 k3, Running s b h /\ scheduling_invariants_violated s = false /\
    let donor := current_tcb s in
    exists dest woken,
      let s1 := run (Scheduler.donate dest donor k1) s in
      let s2 := run (Scheduler.activate_sched woken running dest k2 k3) s1 in
      current_tcb s1 = dest /\ ready s1 donor /\ scheduling_invariants_violated s1 = false /\
      current_tcb s2 = woken /\ ready s2 donor /\ prio s2 woken < prio s2 donor /\ scheduling_invariants_violated s2 = false.
Proof.
  destruct preempted_running as [h R]. exists preempted, no_waiters, h, 0, 0, 0. split_and!; [exact R|by vm_compute|].
  exists 1%nat, 3%nat. split_and!; [by vm_compute|by vm_compute; eexists|by vm_compute|by vm_compute|by vm_compute; eexists|by vm_compute|by vm_compute].
Qed.
