(* ===== verification/MicroKmem.v ===== *)
(** * The microkernel's memory allocator

    [kmem_t] of [pistachio/src/kmemory.cc] and [pistachio/include/kmemory.h]:
    memory is handed out in chunks of 1024 bytes, and the free chunks are
    linked through their first words, in the order of their addresses.  The
    model has the memory as words at their addresses, so that the links are
    where the code keeps them.  The poisoning of CONFIG_KMEM_DEBUG and the
    accounting of CONFIG_KMEM_TRACE are left out. *)

From S2P Require Import Prelude MicroLib.
#[local] Open Scope Z_scope.

Module Kmem.

Definition KMEM_CHUNKSIZE : Z := 1024.

Record kmem_t : Type := Kmem {
  kmem_free_list : Z;
  free_chunks : Z;
  memory : gmap Z Z
}.

Definition set_free_list v k := Kmem v (free_chunks k) (memory k).
Definition set_free_chunks v k := Kmem (kmem_free_list k) v (memory k).
Definition set_memory v k := Kmem (kmem_free_list k) (free_chunks k) v.

Abbreviation K A := (M kmem_t A).

(** [*p] and [*p = v] for a pointer to a word of memory. *)
Definition load (p : Z) : K Z := let! m := gets memory in demand InvalidPointer (m !! p).
Definition store (p v : Z) : K unit :=
  let! m := gets memory in
  let! _ := demand InvalidPointer (m !! p) in
  modify (set_memory (<[p := v]> m)).

(** The pointer [prev] of the code is the address of [kmem_free_list] or of
    the first word of a chunk. *)
Inductive link : Type :=
| FreeList
| Chunk (p : Z).

Definition store_link (prev : link) (v : Z) : K unit :=
  match prev with
  | FreeList => modify (set_free_list v)
  | Chunk p => store p v
  end.

(** ** [kmem_t::free] *)

(** Links the chunks of a region up to the one before [last]; returns the
    last one. *)
Fixpoint link_chunks (fuel : nat) (p last : Z) : K Z :=
  if p <? last then
    match fuel with
    | O => crash LoopBoundExceeded
    | S fuel' =>
        do! store p (u32 (p + KMEM_CHUNKSIZE)) in
        let! p := load p in
        link_chunks fuel' p last
    end
  else ret p.

Fixpoint find_link (fuel : nat) (address : Z) (prev : link) (curr : Z) : K (link * Z) :=
  if negb (curr =? 0) && (curr <? address) then
    match fuel with
    | O => crash LoopBoundExceeded
    | S fuel' =>
        let! next := load curr in
        find_link fuel' address (Chunk curr) next
    end
  else ret (prev, curr).

Definition free (address size : Z) : K unit :=
  let size := max_word size KMEM_CHUNKSIZE in
  do! ASSERT (size mod KMEM_CHUNKSIZE =? 0) in
  let! p := link_chunks (Z.to_nat (size / KMEM_CHUNKSIZE)) address (u32 (address + size - KMEM_CHUNKSIZE)) in
  let! n := gets (fun k => stdpp.base.size (memory k)) in
  let! head := gets kmem_free_list in
  let! r := find_link n address FreeList head in
  let '(prev, curr) := r in
  do! store_link prev address in
  do! store p curr in
  modify (fun k => set_free_chunks (u32 (free_chunks k + size / KMEM_CHUNKSIZE)) k).

(** ** [kmem_t::alloc] *)

(** The inner loop: [n - i] more chunks follow [curr] without a gap; yields
    what comes after them, or 0. *)
Fixpoint follow_run (n : nat) (curr tmp i : Z) : K Z :=
  match n with
  | O => ret tmp
  | S n' =>
      if tmp =? 0 then ret tmp
      else if negb (tmp =? u32 (curr + KMEM_CHUNKSIZE * i)) then ret 0
      else
        let! tmp := load tmp in
        follow_run n' curr tmp (i + 1)
  end.

(** The loop that clears four words a turn. *)
Definition zero_four (p : Z) : K unit :=
  do! store p 0 in
  do! store (u32 (p + 4)) 0 in
  do! store (u32 (p + 8)) 0 in
  store (u32 (p + 12)) 0.

Fixpoint zero_words (fuel : nat) (p last : Z) : K unit :=
  match fuel with
  | O => crash LoopBoundExceeded
  | S fuel' =>
      do! zero_four p in
      let p := u32 (p + 16) in
      if p <? last then zero_words fuel' p last else ret tt
  end.

Fixpoint search (fuel : nat) (size : Z) (zeroed : bool) (prev : link) (curr : Z) : K Z :=
  if curr =? 0 then ret 0
  else
    match fuel with
    | O => crash LoopBoundExceeded
    | S fuel' =>
        let num_chunks := size / KMEM_CHUNKSIZE in
        let! tmp := (if Z.land curr (u32 (size - 1)) =? 0 then
                       let! tmp := load curr in
                       follow_run (Z.to_nat (num_chunks - 1)) curr tmp 1
                     else ret 0) in
        if negb (tmp =? 0) then
          do! store_link prev tmp in
          do! (when zeroed do zero_words (Z.to_nat (size / 16)) curr (u32 (curr + size))) in
          do! modify (fun k => set_free_chunks (u32 (free_chunks k - num_chunks)) k) in
          ret curr
        else
          let! next := load curr in
          search fuel' size zeroed (Chunk curr) next
    end.

Definition alloc (size : Z) (zeroed : bool) : K Z :=
  let size := u32 (Z.land (u32 (size - 1)) (not32 (KMEM_CHUNKSIZE - 1)) + KMEM_CHUNKSIZE) in
  let! n := gets (fun k => stdpp.base.size (memory k)) in
  let! head := gets kmem_free_list in
  search n size zeroed FreeList head.

(** ** [kmem_t::init] *)

Definition init (start end_ : Z) : K unit :=
  do! modify (set_free_list 0) in
  do! modify (set_free_chunks 0) in
  free start (u32 (end_ - start)).

(** ** The free list as a list of chunks *)

Section proofs.
Implicit Types (k : kmem_t) (m : gmap Z Z) (L R : list Z) (a c p : Z).

(** Following the links from [p] through the chunks of [L] leads to [e]. *)
Fixpoint seg m p L e : Prop :=
  match L with
  | [] => p = e
  | c :: L' => p = c /\ exists n, m !! c = Some n /\ seg m n L' e
  end.

Lemma seg_app m p L R e : seg m p (L ++ R) e <-> exists q, seg m p L q /\ seg m q R e.
Proof.
  revert p. induction L as [|c L IH]; intros p; simpl; [naive_solver|]. setoid_rewrite IH. naive_solver.
Qed.

Lemma seg_frame m m' p L e : (forall c, c ∈ L -> m' !! c = m !! c) -> seg m p L e -> seg m' p L e.
Proof.
  revert p. induction L as [|c L IH]; intros p Hf; simpl; [done|]. intros (-> & n & Hn & H). split; [done|]. exists n. split.
  - rewrite Hf; [done|apply list_elem_of_here].
  - apply IH; [|done]. intros x Hx. by apply Hf, list_elem_of_further.
Qed.

(** A chunk: aligned, not at address 0, below the end of memory, and backed by
    memory. *)
Definition chunk_at c : Prop := 0 < c /\ c mod 1024 = 0 /\ c + 1024 < WORD_MOD.
Definition backed m c : Prop := forall j, 0 <= j < 256 -> is_Some (m !! (c + 4 * j)).

Record rep k L : Prop := {
  rep_seg : seg (memory k) (kmem_free_list k) L 0;
  rep_sorted : StronglySorted Z.lt L;
  rep_chunks : Forall chunk_at L;
  rep_backed : Forall (backed (memory k)) L;
  rep_count : free_chunks k = Z.of_nat (length L)
}.

(** [n] chunks without a gap. *)
Fixpoint run c (n : nat) : list Z := match n with O => [] | S n' => c :: run (c + 1024) n' end.

Lemma elem_of_run x c n : x ∈ run c n <-> exists i, 0 <= i < Z.of_nat n /\ x = c + 1024 * i.
Proof.
  revert c. induction n as [|n IH]; intros c; simpl.
  - split; [intros H; by apply elem_of_nil in H|intros (i & ? & _); lia].
  - rewrite elem_of_cons, IH. split.
    + intros [->|(i & Hi & ->)]; [exists 0; lia|exists (i + 1); lia].
    + intros (i & Hi & ->). destruct (Z.eq_dec i 0) as [->|]; [left; lia|right; exists (i - 1); lia].
Qed.

Lemma length_run c n : length (run c n) = n.
Proof. revert c. induction n; intros c; simpl; auto. Qed.

Lemma sorted_NoDup L : StronglySorted Z.lt L -> NoDup L.
Proof.
  induction 1 as [|c L _ IH Hc]; constructor; [|done]. intros Hin. rewrite Forall_forall in Hc. specialize (Hc _ Hin). lia.
Qed.

Lemma sorted_app L R :
  StronglySorted Z.lt (L ++ R) <->
  StronglySorted Z.lt L /\ StronglySorted Z.lt R /\ (forall x y, x ∈ L -> y ∈ R -> x < y).
Proof.
  induction L as [|c L IH]; simpl.
  - split; [intros H; split_and!; [constructor|done|by intros x y Hx; apply elem_of_nil in Hx]|by intros (_ & ? & _)].
  - split.
    + intros [H1 H2]%StronglySorted_inv. apply IH in H1 as (H1 & H3 & H4). rewrite Forall_app, !Forall_forall in H2. split_and!.
      * constructor; [done|]. apply Forall_forall. naive_solver.
      * done.
      * intros x y [->|Hx]%elem_of_cons Hy; [by apply H2|by apply H4].
    + intros ([H1 H2]%StronglySorted_inv & H3 & H4). constructor.
      * apply IH. split_and!; [done|done|]. intros x y Hx. by apply H4, list_elem_of_further.
      * apply Forall_app. split; [done|]. apply Forall_forall. intros y Hy. apply H4; [apply list_elem_of_here|done].
Qed.

Lemma sorted_run c n : StronglySorted Z.lt (run c n).
Proof.
  revert c. induction n as [|n IH]; intros c; simpl; constructor; [apply IH|]. apply Forall_forall. intros x (i & ? & ->)%elem_of_run. lia.
Qed.

(** There are fewer than 2^22 chunks. *)
Lemma sorted_span L lo hi :
  StronglySorted Z.lt L -> Forall (fun c => c mod 1024 = 0 /\ lo <= c < hi) L -> lo mod 1024 = 0 ->
  1024 * Z.of_nat (length L) <= Z.max 0 (hi - lo + 1023).
Proof.
  intros Hs. revert lo. induction Hs as [|c L _ IH Hc]; intros lo Hf Hlo; simpl; [lia|].
  apply Forall_cons in Hf as [[Hm Hr] Hf]. specialize (IH (c + 1024)). rewrite Nat2Z.inj_succ.
  assert (1024 * Z.of_nat (length L) <= Z.max 0 (hi - (c + 1024) + 1023)); [|lia].
  apply IH; [|Z.div_mod_to_equations; lia]. rewrite Forall_forall in *. intros x Hx. specialize (Hc x Hx). specialize (Hf x Hx).
  split; [apply Hf|]. Z.div_mod_to_equations. lia.
Qed.

Lemma chunks_bound L : StronglySorted Z.lt L -> Forall chunk_at L -> Z.of_nat (length L) < 2 ^ 22.
Proof.
  intros Hs Hc. pose proof (sorted_span L 1024 (WORD_MOD - 1024) Hs) as H. unfold WORD_MOD in *.
  assert (1024 * Z.of_nat (length L) <= Z.max 0 (2 ^ 32 - 1024 - 1024 + 1023)); [|lia]. apply H; [|done].
  rewrite Forall_forall in *. intros c Hin. destruct (Hc c Hin) as (? & ? & ?). unfold WORD_MOD in *. split; [done|]. Z.div_mod_to_equations. lia.
Qed.

(** *** Accesses *)

Lemma wp_kload p v (Q : Z -> kmem_t -> Prop) k : memory k !! p = Some v -> Q v k -> wp (load p) Q k.
Proof. intros Hp HQ. unfold load. apply wp_bind, wp_gets. by eapply wp_demand. Qed.

Lemma wp_kstore p v (Q : unit -> kmem_t -> Prop) k :
  is_Some (memory k !! p) -> Q tt (set_memory (<[p := v]> (memory k)) k) -> wp (store p v) Q k.
Proof. intros [w Hp] HQ. unfold store. apply wp_bind, wp_gets, wp_bind. eapply wp_demand; [done|]. by apply wp_modify. Qed.

(** [prev] is the link to what follows [L]. *)
Definition link_after L (prev : link) : Prop :=
  match last L with None => prev = FreeList | Some c => prev = Chunk c end.

Lemma link_after_snoc L c : link_after (L ++ [c]) (Chunk c).
Proof. unfold link_after. by rewrite last_snoc. Qed.

Lemma last_in L c : last L = Some c -> c ∈ L.
Proof. intros H. by apply last_Some_elem_of in H. Qed.

(** Memory changes only where [P] says. *)
Definition same_but (P : Z -> Prop) m m' : Prop := forall a, ~ P a -> m' !! a = m !! a.
Definition same_dom m m' : Prop := forall a, is_Some (m' !! a) <-> is_Some (m !! a).

Lemma same_dom_insert m p v : is_Some (m !! p) -> same_dom m (<[p := v]> m).
Proof.
  intros Hp a. destruct (decide (a = p)) as [->|Hne]; [rewrite lookup_insert_eq; split; eauto|by rewrite lookup_insert_ne].
Qed.

Lemma same_dom_trans m1 m2 m3 : same_dom m1 m2 -> same_dom m2 m3 -> same_dom m1 m3.
Proof. intros H1 H2 a. etrans; [apply H2|apply H1]. Qed.

Lemma backed_dom m m' c : same_dom m m' -> backed m c -> backed m' c.
Proof. intros Hd H j Hj. apply Hd, H, Hj. Qed.

(** Writing the link after [L]. *)
Lemma store_link_spec k L q prev v :
  seg (memory k) (kmem_free_list k) L q -> NoDup L -> link_after L prev ->
  wp (store_link prev v) (fun _ k' => seg (memory k') (kmem_free_list k') L v /\
    same_but (fun a => last L = Some a) (memory k) (memory k') /\ same_dom (memory k) (memory k') /\
    free_chunks k' = free_chunks k) k.
Proof.
  intros Hs Hnd Hl. destruct L as [|c L _] using rev_ind.
  - unfold link_after in Hl. simpl in Hl. subst. simpl. apply wp_modify. by split_and!.
  - unfold link_after in Hl. rewrite last_snoc in Hl. subst. apply seg_app in Hs as (q' & Hs & -> & n & Hn & ->).
    apply wp_kstore; [by eexists|]. split_and!.
    + apply seg_app. exists c. split.
      * eapply seg_frame; [|done]. intros x Hx. apply lookup_insert_ne. intros ->. apply NoDup_app in Hnd as (_ & Hd & _).
        apply (Hd _ Hx), list_elem_of_here.
      * split; [done|]. exists v. split; [by apply lookup_insert_eq|done].
    + intros a Ha. rewrite last_snoc in Ha. apply lookup_insert_ne. congruence.
    + apply same_dom_insert. by eexists.
    + done.
Qed.

(** *** The loops of [alloc] *)

Lemma follow_run_spec k n curr tmp i R :
  seg (memory k) tmp R 0 -> Forall (fun c => curr < c < WORD_MOD) R -> 0 <= curr -> 1 <= i -> i + Z.of_nat n <= 2 ^ 22 ->
  wp (follow_run n curr tmp i) (fun r k' => k' = k /\
    ((exists x R', R = run (curr + 1024 * i) n ++ x :: R' /\ r = x) \/
     (r = 0 /\ forall x R', R <> run (curr + 1024 * i) n ++ x :: R'))) k.
Proof.
  revert tmp i R. induction n as [|n IH]; intros tmp i R Hs Hf Hc Hi Hn; simpl.
  - wp_step. split; [done|]. destruct R as [|x R]; simpl in Hs; [right; split; [done|by intros]|left; destruct Hs as [-> _]; eauto].
  - destruct R as [|y R]; simpl in Hs.
    { subst. rewrite Z.eqb_refl. wp_step. split; [done|]. right. split; [done|]. by intros. }
    destruct Hs as (-> & q & Hq & Hs). apply Forall_cons in Hf as [Hy Hf]. destruct (Z.eqb_spec y 0); [lia|].
    unfold KMEM_CHUNKSIZE. unfold WORD_MOD in *. destruct (Z.eqb_spec y (u32 (curr + 1024 * i))) as [E|E]; simpl.
    + assert (Hb : curr + 1024 * i < 2 ^ 32).
      { destruct (Z.lt_ge_cases (curr + 1024 * i) (2 ^ 32)) as [|Hge]; [done|]. exfalso. unfold u32, WORD_MOD in E.
        assert ((curr + 1024 * i) mod 2 ^ 32 = curr + 1024 * i - 2 ^ 32); [|lia].
        symmetry. apply (Z.mod_unique_pos _ _ 1); lia. }
      rewrite u32_word in E by (unfold is_word, WORD_MOD; lia). wp_step. eapply wp_kload; [done|].
      eapply wp_mono; [apply (IH q (i + 1) R); [done|done|done|lia|lia]|]. cbn beta. replace (curr + 1024 * (i + 1)) with (curr + 1024 * i + 1024) by lia.
      intros r k' [-> [(x & R' & -> & ->)|[-> Hno]]]; (split; [done|]).
      * left. exists x, R'. by rewrite E.
      * right. split; [done|]. intros x R' Heq. injection Heq as _ Heq. by apply (Hno x R').
    + wp_step. split; [done|]. right. split; [done|]. intros x R' Heq. injection Heq as Heq _. apply E. rewrite Heq in *.
      by rewrite u32_word by (unfold is_word, WORD_MOD; lia).
Qed.

(** The words from [p] to [last]. *)
Definition words_in p last a : Prop := p <= a < last /\ (a - p) mod 4 = 0.

Lemma zero_turn k p :
  0 <= p -> p + 16 < WORD_MOD -> (forall a, words_in p (p + 16) a -> is_Some (memory k !! a)) ->
  exists m', wp (zero_four p) (fun _ k' => k' = set_memory m' k) k /\ (forall a, words_in p (p + 16) a -> m' !! a = Some 0) /\
    same_but (words_in p (p + 16)) (memory k) m' /\ same_dom (memory k) m'.
Proof.
  intros Hp Hl Hm. exists (<[p + 12 := 0]> (<[p + 8 := 0]> (<[p + 4 := 0]> (<[p := 0]> (memory k))))).
  assert (H : forall j, 0 <= j < 4 -> is_Some (memory k !! (p + 4 * j))).
  { intros j Hj. apply Hm. split; [lia|]. replace (p + 4 * j - p) with (j * 4) by lia. apply Z.mod_mul. lia. }
  pose proof (H 0 ltac:(lia)) as H0. pose proof (H 1 ltac:(lia)) as H1. pose proof (H 2 ltac:(lia)) as H2. pose proof (H 3 ltac:(lia)) as H3.
  replace (p + 4 * 0) with p in H0 by lia. simpl in H1, H2, H3. split_and!.
  - unfold zero_four. rewrite !u32_word by (unfold is_word; lia).
    wp_step. apply wp_kstore; [done|]. wp_step. apply wp_kstore; [simpl; by rewrite lookup_insert_ne by lia|].
    wp_step. apply wp_kstore; [simpl; by rewrite !lookup_insert_ne by lia|]. apply wp_kstore; [simpl; by rewrite !lookup_insert_ne by lia|]. done.
  - intros a [Ha Hmod]. assert (a = p \/ a = p + 4 \/ a = p + 8 \/ a = p + 12) as Hc by (Z.div_mod_to_equations; lia).
    destruct Hc as [->|[->|[->| ->]]]; repeat (rewrite lookup_insert_eq || rewrite lookup_insert_ne by lia); done.
  - intros a Ha. rewrite !lookup_insert_ne; [done|..]; intros <-; apply Ha; (split; [lia|]); by rewrite ?Z.add_simpl_l, ?Z.sub_diag.
  - repeat (eapply same_dom_trans; [|apply same_dom_insert; rewrite ?lookup_insert_ne by lia; done]). done.
Qed.

Lemma zero_words_spec k n p :
  0 <= p -> p + 16 * Z.of_nat (S n) < WORD_MOD -> (forall a, words_in p (p + 16 * Z.of_nat (S n)) a -> is_Some (memory k !! a)) ->
  wp (zero_words (S n) p (p + 16 * Z.of_nat (S n))) (fun _ k' => exists m', k' = set_memory m' k /\
    (forall a, words_in p (p + 16 * Z.of_nat (S n)) a -> m' !! a = Some 0) /\
    same_but (words_in p (p + 16 * Z.of_nat (S n))) (memory k) m' /\ same_dom (memory k) m') k.
Proof.
  revert k p. induction n as [|n IH]; intros k p Hp Hl Hm; destruct (zero_turn k p Hp) as (m' & Ht & Hz & Hs & Hd);
    [lia|intros a [Ha ?]; apply Hm; split; [lia|done]| |lia|intros a [Ha ?]; apply Hm; split; [lia|done]|]; cbn [zero_words];
    apply wp_bind; (eapply wp_mono; [exact Ht|]); cbn beta; intros _ k1 ->.
  - rewrite (u32_word (p + 16)) by (unfold is_word; lia). destruct (Z.ltb_spec (p + 16) (p + 16 * Z.of_nat 1)); [lia|]. wp_step.
    exists m'. by split_and!.
  - rewrite (u32_word (p + 16)) by (unfold is_word; lia). destruct (Z.ltb_spec (p + 16) (p + 16 * Z.of_nat (S (S n)))); [|lia].
    replace (p + 16 * Z.of_nat (S (S n))) with (p + 16 + 16 * Z.of_nat (S n)) in * by lia.
    eapply wp_mono; [apply IH; [lia|lia|]|].
    + intros a [Ha Hm4]. apply Hd, Hm. split; [lia|]. Z.div_mod_to_equations. lia.
    + cbn beta. intros _ k' (m2 & -> & Hz2 & Hs2 & Hd2). exists m2. split_and!; [done| | |by eapply same_dom_trans].
      * intros a Ha. destruct (Z.lt_ge_cases a (p + 16)).
        -- rewrite Hs2 by (intros [? _]; lia). apply Hz. destruct Ha as [? ?]. split; [lia|done].
        -- apply Hz2. destruct Ha as [? ?]. split; [lia|]. Z.div_mod_to_equations. lia.
      * intros a Ha. rewrite Hs2, Hs; [done|intros [? ?]; apply Ha; split; [lia|done]|].
        intros [? ?]. apply Ha. split; [lia|]. Z.div_mod_to_equations. lia.
Qed.

(** *** Allocation *)

(** A run of [n] free chunks at an address that is aligned for it, followed by
    another free chunk. *)
Definition fits (n : nat) L A c x B : Prop :=
  L = A ++ run c n ++ x :: B /\ Z.land c (1024 * Z.of_nat n - 1) = 0.

(** No run that fits comes before one at [A]. *)
Definition first_fit (n : nat) L (A : list Z) : Prop := forall A' c x B, fits n L A' c x B -> (length A <= length A')%nat.

Lemma first_fit_least n L A c x B A' c' x' B' :
  n <> 0%nat -> StronglySorted Z.lt L -> fits n L A c x B -> first_fit n L A -> fits n L A' c' x' B' -> c <= c'.
Proof.
  intros Hn Hs [HL _] Hf Hf'. pose proof (Hf _ _ _ _ Hf') as Hle. destruct Hf' as [HL' _], n as [|n]; [done|].
  rewrite HL in HL', Hs. simpl in HL', Hs. apply app_eq_inv in HL' as [(k & -> & E)|(k & -> & E)].
  - rewrite length_app in Hle. destruct k; [|simpl in Hle; lia]. injection E. lia.
  - destruct k as [|d k]; injection E; [lia|]. intros E' <-. apply sorted_app in Hs as (_ & Hs & _).
    apply StronglySorted_inv in Hs as [_ Hs]. rewrite E', Forall_app, Forall_cons in Hs. lia.
Qed.

(** The bytes of the chunks of [L]. *)
Definition in_chunks L a : Prop := exists c, c ∈ L /\ c <= a < c + 1024.

(** What taking the [n] chunks from [c] on out of the list does. *)
Record taken k L (n : nat) c (zeroed : bool) k' L' : Prop := {
  tk_rep : rep k' L';
  tk_frame : same_but (in_chunks L) (memory k) (memory k');
  tk_dom : same_dom (memory k) (memory k');
  tk_zero : zeroed = true -> forall a, words_in c (c + 1024 * Z.of_nat n) a -> memory k' !! a = Some 0
}.

Lemma run_app_bound A c n x B y :
  StronglySorted Z.lt (A ++ run c (S n) ++ x :: B) -> Forall chunk_at (A ++ run c (S n) ++ x :: B) -> y ∈ x :: B ->
  c + 1024 * Z.of_nat (S n) <= y.
Proof.
  intros Hs Hc Hy. apply sorted_app in Hs as (_ & Hs & _). apply sorted_app in Hs as (_ & _ & Hs).
  assert (Hl : c + 1024 * Z.of_nat n ∈ run c (S n)) by (apply elem_of_run; exists (Z.of_nat n); lia).
  specialize (Hs _ _ Hl Hy). rewrite Forall_forall in Hc.
  destruct (Hc y) as (_ & Hy1 & _); [rewrite !elem_of_app; tauto|]. destruct (Hc c) as (_ & Hc1 & _).
  { rewrite !elem_of_app. right. left. apply elem_of_run. exists 0. lia. }
  Z.div_mod_to_equations. lia.
Qed.

(** The bytes of a run. *)
Lemma run_byte c n a :
  c <= a < c + 1024 * Z.of_nat n -> exists y, y ∈ run c n /\ y <= a < y + 1024 /\ (a - y = (a - c) mod 1024).
Proof.
  intros Ha. exists (c + 1024 * ((a - c) / 1024)). split; [apply elem_of_run; exists ((a - c) / 1024); split; [|done]|];
    Z.div_mod_to_equations; lia.
Qed.

(** Clearing the chunks of a run, if asked for. *)
Lemma clear_spec k c n (zeroed : bool) :
  let size := 1024 * Z.of_nat (S n) in
  chunk_at c -> c + size < WORD_MOD -> (forall y, y ∈ run c (S n) -> backed (memory k) y) ->
  exists m', wp (when zeroed do zero_words (Z.to_nat (size / 16)) c (u32 (c + size))) (fun _ k' => k' = set_memory m' k) k /\
    same_but (words_in c (c + size)) (memory k) m' /\ same_dom (memory k) m' /\
    (zeroed = true -> forall a, words_in c (c + size) a -> m' !! a = Some 0).
Proof.
  intros size (Hc0 & Hcm & _) Hend Hbk. destruct zeroed; [|exists (memory k); split_and!; [by destruct k|done|done|done]].
  assert (Hn : exists j, Z.to_nat (size / 16) = S j /\ size = 16 * Z.of_nat (S j)).
  { exists (Z.to_nat (size / 16) - 1)%nat. unfold size in *. Z.div_mod_to_equations. lia. }
  destruct Hn as (j & Hj & Hsz). rewrite u32_word by (unfold is_word; lia). rewrite Hj, Hsz.
  pose proof (zero_words_spec k j c ltac:(lia) ltac:(lia)) as Hz. eapply wp_run in Hz as (u & k2 & Hrun & m2 & -> & Hz & Hs & Hd).
  - exists m2. split_and!; [unfold wp; by rewrite Hrun|done|done|done].
  - intros a [Ha Hm4]. destruct (run_byte c (S n) a) as (y & Hy & Hya & Hmod); [lia|]. specialize (Hbk y Hy ((a - y) / 4)).
    replace a with (y + 4 * ((a - y) / 4)); [apply Hbk|]; Z.div_mod_to_equations; lia.
Qed.

Lemma take_spec k A c n x B prev zeroed :
  rep k (A ++ run c (S n) ++ x :: B) -> link_after A prev ->
  let size := 1024 * Z.of_nat (S n) in
  wp (do! store_link prev x in
      do! (when zeroed do zero_words (Z.to_nat (size / 16)) c (u32 (c + size))) in
      do! modify (fun k => set_free_chunks (u32 (free_chunks k - Z.of_nat (S n))) k) in
      ret c) (fun r k' => r = c /\ taken k (A ++ run c (S n) ++ x :: B) (S n) c zeroed k' (A ++ x :: B)) k.
Proof.
  intros [Hseg Hsort Hch Hbk Hct] Hl size. pose proof (run_app_bound A c n x B) as Hhi.
  pose proof Hsort as Hsort'. apply sorted_app in Hsort' as (HsA & Hs2 & HAlt). apply sorted_app in Hs2 as (_ & HsB & HrB).
  apply seg_app in Hseg as (q & HsegA & Hseg). apply seg_app in Hseg as (q2 & Hsegr & HsegB). assert (q2 = x) as -> by apply HsegB.
  assert (Hcr : c ∈ run c (S n)) by apply list_elem_of_here.
  assert (Hxlo : forall y, y ∈ A -> y < c) by (intros y Hy; apply HAlt; [done|by apply elem_of_app; left]).
  wp_step. eapply wp_mono; [by eapply (store_link_spec k A _ prev x); [|apply sorted_NoDup|]|]. cbn beta.
  intros _ k1 (Hseg1 & Hsame1 & Hdom1 & Hct1).
  assert (HlastA : forall y, last A = Some y -> y < c) by (intros y Hy; by apply Hxlo, last_in).
  assert (HsegB1 : seg (memory k1) x (x :: B) 0).
  { eapply seg_frame; [|exact HsegB]. intros y Hy. apply Hsame1. intros Hla. specialize (HlastA y Hla).
    specialize (Hhi y Hsort Hch Hy). lia. }
  destruct (clear_spec k1 c n zeroed) as (m2 & Hrun2 & Hs2 & Hd2 & Hz2).
  { apply (proj1 (Forall_forall _ _) Hch). rewrite !elem_of_app. tauto. }
  { destruct (proj1 (Forall_forall _ _) Hch x) as (_ & _ & Hx); [rewrite !elem_of_app; right; right; apply list_elem_of_here|].
    specialize (Hhi x Hsort Hch (list_elem_of_here _ _)). lia. }
  { intros y Hy. eapply backed_dom; [done|]. apply (proj1 (Forall_forall _ _) Hbk). rewrite !elem_of_app. tauto. }
  fold size in Hrun2, Hs2, Hd2, Hz2. wp_step.
  eapply wp_mono; [exact Hrun2|]. cbn beta. intros _ k2 ->.
  apply wp_bind, wp_modify, wp_ret. split; [done|]. constructor; cbn [memory set_memory set_free_chunks].
  - constructor; cbn [memory kmem_free_list free_chunks set_memory set_free_chunks].
    + apply seg_app. exists x. split; (eapply seg_frame; [|eassumption]); intros y Hy; apply Hs2; intros [? _].
      * specialize (Hxlo y Hy). lia.
      * specialize (Hhi y Hsort Hch Hy). unfold size in *. lia.
    + apply sorted_app. split_and!; [done|done|]. intros y z Hy Hz. apply HAlt; [done|by apply elem_of_app; right].
    + apply Forall_app in Hch as [? Hch]. apply Forall_app in Hch as [_ ?]. by apply Forall_app.
    + apply Forall_app in Hbk as [HbA Hbk]. apply Forall_app in Hbk as [_ HbB].
      apply Forall_app; split; (eapply Forall_impl; [eassumption|]); intros y; apply backed_dom; by eapply same_dom_trans.
    + rewrite Hct1, Hct. rewrite !length_app, length_run. simpl.
      pose proof (chunks_bound _ Hsort Hch) as Hb. rewrite !length_app, length_run in Hb. simpl in Hb.
      rewrite u32_word; [lia|]. unfold is_word, WORD_MOD. lia.
  - intros a Ha. rewrite Hs2, Hsame1; [done| |].
    + intros Hla. apply Ha. exists a. split; [apply elem_of_app; left; by apply last_in|lia].
    + intros [Hr _]. destruct (run_byte c (S n) a) as (y & Hy & Hya & _); [done|]. apply Ha. exists y. rewrite !elem_of_app. tauto.
  - by eapply same_dom_trans.
  - done.
Qed.

Lemma run_S_app c n R : run c (S n) ++ R = c :: (run (c + 1024) n ++ R).
Proof. done. Qed.

(** Looking for a run at [c]. *)
Lemma look_spec k A c R n :
  rep k (A ++ c :: R) -> seg (memory k) c (c :: R) 0 -> Z.of_nat (S n) < 2 ^ 22 ->
  wp (if Z.land c (u32 (1024 * Z.of_nat (S n) - 1)) =? 0 then
        let! tmp := load c in follow_run (Z.to_nat (1024 * Z.of_nat (S n) / 1024 - 1)) c tmp 1
      else ret 0) (fun r k' => k' = k /\
    ((exists B, c :: R = run c (S n) ++ r :: B /\ Z.land c (1024 * Z.of_nat (S n) - 1) = 0 /\ r <> 0) \/
     (r = 0 /\ forall x B, c :: R = run c (S n) ++ x :: B -> Z.land c (1024 * Z.of_nat (S n) - 1) <> 0))) k.
Proof.
  intros [_ Hs Hch _ _] (_ & q & Hq & Hseg) Hn.
  rewrite u32_word by (unfold is_word, WORD_MOD; lia). destruct (Z.eqb_spec (Z.land c (1024 * Z.of_nat (S n) - 1)) 0) as [Hal|Hal].
  2: { wp_step. split; [done|]. right. split; [done|]. by intros. }
  apply Forall_app in Hch as [_ Hch]. apply Forall_cons in Hch as [(Hc0 & _) Hch]. apply sorted_app in Hs as (_ & Hs & _).
  apply StronglySorted_inv in Hs as [_ Hlt]. rewrite Forall_forall in Hch, Hlt.
  wp_step. eapply wp_kload; [done|]. rewrite (Z.mul_comm 1024), Z.div_mul by lia. replace (Z.to_nat (Z.of_nat (S n) - 1)) with n by lia.
  eapply wp_mono; [eapply (follow_run_spec k n c q 1 R); [done| |lia|lia|lia]|].
  - apply Forall_forall. intros y Hy. destruct (Hch y Hy) as (? & ? & ?). specialize (Hlt y Hy). lia.
  - cbn beta. rewrite Z.mul_1_r, (Z.mul_comm (Z.of_nat (S n))). intros r k' [-> [(x & B & -> & ->)|[-> Hno]]]; (split; [done|]).
    + left. exists B. rewrite run_S_app. split_and!; [done|done|].
      destruct (Hch x) as (? & _); [apply elem_of_app; right; apply list_elem_of_here|]. lia.
    + right. split; [done|]. intros x B Heq. rewrite run_S_app in Heq. injection Heq as Heq. by apply Hno in Heq.
Qed.

Lemma search_spec k L n zeroed fuel A R prev curr :
  L = A ++ R -> rep k L -> seg (memory k) (kmem_free_list k) A curr -> seg (memory k) curr R 0 -> link_after A prev ->
  (length R <= fuel)%nat -> Z.of_nat (S n) < 2 ^ 22 ->
  first_fit (S n) L A ->
  wp (search fuel (1024 * Z.of_nat (S n)) zeroed prev curr) (fun r k' =>
    (r = 0 /\ k' = k /\ forall A c x B, ~ fits (S n) L A c x B) \/
    (exists A c x B, fits (S n) L A c x B /\ first_fit (S n) L A /\ r = c /\ taken k L (S n) c zeroed k' (A ++ x :: B))) k.
Proof.
  intros -> Hrep. revert A R prev curr Hrep. induction fuel as [|fuel IH]; intros A R prev curr Hrep HsA HsR Hl Hfuel Hn Hno.
  all: destruct R as [|c R].
  1, 3: simpl in HsR; subst; simpl; wp_step; left; split_and!; [done|done|]; intros A' c x B Hf; pose proof (Hno _ _ _ _ Hf) as Hle;
    destruct Hf as [Heq _]; apply (f_equal length) in Heq; rewrite !length_app in Heq; simpl in Heq; lia.
  { simpl in Hfuel. lia. }
  pose proof HsR as (-> & q & Hq & HsR'). assert (Hc0 : c <> 0).
  { destruct (proj1 (Forall_forall _ _) (rep_chunks _ _ Hrep) c) as (? & _); [apply elem_of_app; right; apply list_elem_of_here|lia]. }
  cbn [search]. destruct (Z.eqb_spec c 0); [done|]. unfold KMEM_CHUNKSIZE.
  wp_step. eapply wp_mono; [eapply look_spec; [done|done|lia]|]. cbn beta. intros tmp k' [-> [(B & Heq & Hal & Ht)|[-> Hnot]]].
  - destruct (Z.eqb_spec tmp 0); [done|]. simpl negb. cbn iota. rewrite Heq in *.
    rewrite (Z.mul_comm 1024 (Z.of_nat (S n))), Z.div_mul by lia. rewrite (Z.mul_comm (Z.of_nat (S n)) 1024).
    eapply wp_mono; [by eapply take_spec|]. cbn beta. intros r k' [-> Htk]. right. exists A, c, tmp, B. by split_and!.
  - simpl negb. cbn iota. wp_step. eapply wp_kload; [done|].
    assert (Hsplit : A ++ c :: R = (A ++ [c]) ++ R) by (by rewrite <-app_assoc). rewrite Hsplit. apply IH.
    + by rewrite <-Hsplit.
    + apply seg_app. exists c. split; [done|]. split; [done|]. by exists q.
    + done.
    + apply link_after_snoc.
    + simpl in Hfuel. lia.
    + done.
    + rewrite <-Hsplit. intros A' c' x B Hf. pose proof (Hno _ _ _ _ Hf) as Hle. rewrite length_app. simpl.
      destruct (decide (length A = length A')) as [Hlen|]; [exfalso|lia]. destruct Hf as [Heq Hal].
      apply app_inj_1 in Heq as [-> Heq]; [|done]. pose proof Heq as Heq'. rewrite run_S_app in Heq'. injection Heq' as -> _.
      by apply (Hnot _ _ Heq).
Qed.

Lemma rep_length k L : rep k L -> (length L <= size (memory k))%nat.
Proof.
  intros [_ Hs _ Hb _]. apply nodup_length_size; [by apply sorted_NoDup|]. intros c Hc.
  rewrite Forall_forall in Hb. specialize (Hb c Hc 0). rewrite Z.mul_0_r, Z.add_0_r in Hb. apply Hb. lia.
Qed.

(** The number of chunks of a request. *)
Definition chunks_of (size : Z) : nat := Z.to_nat ((size + 1023) / 1024).

Lemma align_down (n x : Z) : 0 <= n < 32 -> is_word x -> Z.land x (not32 (2 ^ n - 1)) = 2 ^ n * (x / 2 ^ n).
Proof.
  intros Hk Hx. rewrite (Z.mul_comm (2 ^ n)), <-(Z.shiftr_div_pow2 _ n), <-(Z.shiftl_mul_pow2 _ n) by lia.
  rewrite <-Z.ldiff_ones_r by lia. replace (2 ^ n - 1) with (Z.ones n) by (rewrite Z.ones_equiv; lia).
  assert (Hw : is_word (Z.ones n)).
  { rewrite Z.ones_equiv. unfold is_word, WORD_MOD. pose proof (Z.pow_le_mono_r 2 n 31). pose proof (Z.pow_pos_nonneg 2 n). lia. }
  apply Z.bits_inj'. intros i Hi. rewrite Z.land_spec, Z.ldiff_spec.
  destruct (Z.lt_ge_cases i 32); [by rewrite testbit_not32|]. by rewrite (word_bits_high x).
Qed.

Lemma land_chunk x : is_word x -> Z.land x (not32 (KMEM_CHUNKSIZE - 1)) = 1024 * (x / 1024).
Proof. exact (align_down 10 x ltac:(lia)). Qed.

Lemma round_up size :
  0 < size <= WORD_MOD - 2048 ->
  u32 (Z.land (u32 (size - 1)) (not32 (KMEM_CHUNKSIZE - 1)) + KMEM_CHUNKSIZE) = 1024 * Z.of_nat (chunks_of size).
Proof.
  intros Hs. rewrite (u32_word (size - 1)) by (unfold is_word; lia). rewrite land_chunk by (unfold is_word; lia).
  unfold chunks_of, KMEM_CHUNKSIZE. unfold WORD_MOD in Hs. rewrite u32_word; unfold is_word, WORD_MOD; Z.div_mod_to_equations; lia.
Qed.

Lemma alloc_spec k L size zeroed :
  rep k L -> 0 < size <= WORD_MOD - 2048 ->
  wp (alloc size zeroed) (fun r k' =>
    (r = 0 /\ k' = k /\ forall A c x B, ~ fits (chunks_of size) L A c x B) \/
    (exists A c x B, fits (chunks_of size) L A c x B /\ first_fit (chunks_of size) L A /\ r = c /\
       taken k L (chunks_of size) c zeroed k' (A ++ x :: B))) k.
Proof.
  intros Hr Hs. unfold alloc. rewrite round_up by done. cbv zeta.
  assert (Hn : exists n, chunks_of size = S n /\ Z.of_nat (S n) < 2 ^ 22).
  { exists (Z.to_nat ((size + 1023) / 1024) - 1)%nat. unfold chunks_of, WORD_MOD in *. Z.div_mod_to_equations. lia. }
  destruct Hn as (n & -> & Hn). apply wp_bind, wp_gets, wp_bind, wp_gets.
  eapply (search_spec k L n zeroed _ [] L); [done|done|done|apply Hr|done|by apply rep_length|done|]. unfold first_fit. intros. simpl. lia.
Qed.

(** *** Release *)

Lemma run_snoc c n : run c (S n) = run c n ++ [c + 1024 * Z.of_nat n].
Proof.
  revert c. induction n as [|n IH]; intros c; [simpl; f_equal; lia|]. change (run c (S (S n))) with (c :: run (c + 1024) (S n)).
  rewrite IH. simpl. do 3 f_equal. lia.
Qed.

Lemma link_chunks_spec k n p :
  0 <= p -> p + 1024 * Z.of_nat n < WORD_MOD -> (forall c, c ∈ run p n -> is_Some (memory k !! c)) ->
  wp (link_chunks (S n) p (p + 1024 * Z.of_nat n)) (fun r k' => r = p + 1024 * Z.of_nat n /\
    exists m', k' = set_memory m' k /\ seg m' p (run p n) (p + 1024 * Z.of_nat n) /\
    same_but (fun a => a ∈ run p n) (memory k) m' /\ same_dom (memory k) m') k.
Proof.
  revert k p. induction n as [|n IH]; intros k p Hp Hl Hm; cbn [link_chunks].
  - destruct (Z.ltb_spec p (p + 1024 * Z.of_nat 0)); [lia|]. wp_step. split; [lia|]. exists (memory k).
    split_and!; [by destruct k|simpl; lia|done|done].
  - destruct (Z.ltb_spec p (p + 1024 * Z.of_nat (S n))); [|lia]. unfold KMEM_CHUNKSIZE. rewrite u32_word by (unfold is_word; lia).
    assert (Hpm : is_Some (memory k !! p)) by apply Hm, list_elem_of_here.
    wp_step. apply wp_kstore; [done|]. wp_step. eapply wp_kload; [by apply lookup_insert_eq|].
    replace (p + 1024 * Z.of_nat (S n)) with (p + 1024 + 1024 * Z.of_nat n) in * by lia.
    pose proof (same_dom_insert (memory k) p (p + 1024) Hpm) as Hd.
    eapply wp_mono; [apply IH; [lia|lia|]|].
    + intros c Hc. apply Hd, Hm. simpl. by apply list_elem_of_further.
    + cbn beta. intros r k' (-> & m' & -> & Hseg & Hs & Hd'). split; [done|]. exists m'. split_and!; [done| | |by eapply same_dom_trans].
      * split; [done|]. exists (p + 1024). split; [|done]. rewrite Hs; [simpl; by rewrite lookup_insert_eq|].
        intros (i & ? & ?)%elem_of_run. lia.
      * intros a Ha. simpl in Ha. rewrite elem_of_cons in Ha. rewrite Hs by tauto. simpl. apply lookup_insert_ne. intros ->. tauto.
Qed.

Lemma find_link_spec k address fuel A R prev curr :
  seg (memory k) (kmem_free_list k) A curr -> seg (memory k) curr R 0 -> link_after A prev -> Forall chunk_at (A ++ R) ->
  StronglySorted Z.lt (A ++ R) -> (length R <= fuel)%nat -> (forall y, y ∈ A -> y < address) ->
  wp (find_link fuel address prev curr) (fun r k' => k' = k /\ exists A' B', A ++ R = A' ++ B' /\
    link_after A' (fst r) /\ seg (memory k) (kmem_free_list k) A' (snd r) /\ seg (memory k) (snd r) B' 0 /\
    (forall y, y ∈ A' -> y < address) /\ (forall y, y ∈ B' -> address <= y)) k.
Proof.
  revert A R prev curr. induction fuel as [|fuel IH]; intros A R prev curr HsA HsR Hl Hc Hs Hf Hlt; (destruct R as [|c R];
    [simpl in HsR; subst; simpl; wp_step; split; [done|]; exists A, []; split_and!; try done; by intros y Hy; apply elem_of_nil in Hy|]).
  { simpl in Hf. lia. }
  pose proof HsR as (-> & q & Hq & HsR'). assert (Hc0 : 0 < c).
  { apply Forall_app in Hc as [_ Hc]. by apply Forall_cons in Hc as [[? _] _]. }
  cbn [find_link]. destruct (Z.eqb_spec c 0); [lia|]. simpl negb. destruct (Z.ltb_spec c address) as [Hca|Hca]; simpl.
  - wp_step. eapply wp_kload; [done|]. assert (Hsplit : A ++ c :: R = (A ++ [c]) ++ R) by (by rewrite <-app_assoc).
    rewrite Hsplit in *. apply IH.
    + apply seg_app. exists c. split; [done|]. split; [done|]. by exists q.
    + done.
    + apply link_after_snoc.
    + done.
    + done.
    + simpl in Hf. lia.
    + intros y [Hy|Hy]%elem_of_app; [by apply Hlt|]. apply list_elem_of_singleton in Hy. by subst.
  - wp_step. split; [done|]. exists A, (c :: R). split_and!; try done. intros y [->|Hy]%elem_of_cons; [done|].
    apply sorted_app in Hs as (_ & Hs & _). apply StronglySorted_inv in Hs as [_ Hs]. rewrite Forall_forall in Hs. specialize (Hs y Hy). lia.
Qed.

(** Two chunks that are different do not overlap. *)
Lemma chunk_apart c d : chunk_at c -> chunk_at d -> c <> d -> c + 1024 <= d \/ d + 1024 <= c.
Proof. intros (_ & Hc & _) (_ & Hd & _) Hne. Z.div_mod_to_equations. lia. Qed.

Lemma insert_sorted A B address n :
  StronglySorted Z.lt (A ++ B) -> Forall chunk_at (A ++ B) -> (forall c, c ∈ run address (S n) -> chunk_at c) ->
  (forall c, c ∈ run address (S n) -> c ∉ A ++ B) -> (forall y, y ∈ A -> y < address) -> (forall y, y ∈ B -> address <= y) ->
  StronglySorted Z.lt (A ++ run address (S n) ++ B).
Proof.
  intros Hs Hc Hr Hnew HA HB. apply sorted_app in Hs as (HsA & HsB & HAB). rewrite Forall_forall in Hc.
  assert (Hrun : forall x y, x ∈ run address (S n) -> y ∈ B -> x < y).
  { intros x y (i & Hi & ->)%elem_of_run Hy. destruct (Z.lt_ge_cases (address + 1024 * i) y) as [|Hge]; [done|exfalso].
    destruct (Hr address (list_elem_of_here _ _)) as (_ & Ha & _). destruct (Hc y) as (_ & Hym & _); [apply elem_of_app; by right|].
    apply (Hnew y); [|apply elem_of_app; by right]. apply elem_of_run. exists ((y - address) / 1024). specialize (HB y Hy).
    Z.div_mod_to_equations. lia. }
  rewrite !sorted_app. split_and!; [done|apply sorted_run|done|done|]. intros x y Hx [Hy|Hy]%elem_of_app; [|by apply HAB].
  specialize (HA x Hx). apply elem_of_run in Hy as (i & ? & ->). lia.
Qed.

(** Linking a prepared run between [A] and [B]. *)
Lemma link_run_spec k A B address n prev curr N :
  let p := address + 1024 * Z.of_nat n in
  seg (memory k) (kmem_free_list k) A curr -> seg (memory k) curr B 0 -> seg (memory k) address (run address n) p ->
  link_after A prev -> NoDup (A ++ run address (S n) ++ B) -> is_Some (memory k !! p) ->
  wp (do! store_link prev address in do! store p curr in modify (fun k => set_free_chunks (u32 (free_chunks k + N)) k)) (fun _ k' =>
    seg (memory k') (kmem_free_list k') (A ++ run address (S n) ++ B) 0 /\
    same_but (fun a => last A = Some a \/ a = p) (memory k) (memory k') /\ same_dom (memory k) (memory k') /\
    free_chunks k' = u32 (free_chunks k + N)) k.
Proof.
  intros p HsA HsB Hsr Hl Hnd Hp. rewrite run_snoc in Hnd |- *. fold p in Hnd |- *.
  apply NoDup_app in Hnd as (HndA & HA & Hnd). apply NoDup_app in Hnd as (Hndr & Hr & HndB). apply NoDup_app in Hndr as (_ & Hrp & _).
  assert (HpA : p ∉ A) by (intros Hin; apply (HA p Hin); rewrite !elem_of_app; left; right; apply list_elem_of_here).
  assert (HpB : p ∉ B) by (apply Hr; rewrite elem_of_app; right; apply list_elem_of_here).
  assert (Hpr : p ∉ run address n) by (intros Hin; apply (Hrp p Hin), list_elem_of_here).
  wp_step. eapply wp_mono; [by eapply (store_link_spec k A _ prev address)|]. cbn beta. intros _ k1 (Hs1 & Hsame & Hdom & Hc).
  assert (Hk1 : forall R q e, (forall y, y ∈ A -> y ∉ R) -> p ∉ R -> seg (memory k) q R e -> seg (<[p := curr]> (memory k1)) q R e).
  { intros R q e HAR HpR HR. eapply seg_frame; [|exact HR]. intros y Hy. rewrite lookup_insert_ne by (intros ->; done).
    apply Hsame. intros Hla. by apply last_in, HAR in Hla. }
  wp_step. apply wp_kstore; [by apply Hdom|]. apply wp_modify. simpl. split_and!.
  - apply seg_app. exists address. split.
    + eapply seg_frame; [|exact Hs1]. intros y Hy. apply lookup_insert_ne. intros ->. done.
    + apply seg_app. exists curr. split.
      * apply seg_app. exists p. split; [|split; [done|]; exists curr; split; [by apply lookup_insert_eq|done]].
        apply Hk1; [|done|done]. intros y Hy Hy'. apply (HA y Hy). rewrite !elem_of_app. tauto.
      * apply Hk1; [|done|done]. intros y Hy Hy'. apply (HA y Hy). rewrite !elem_of_app. tauto.
  - intros a Ha. rewrite lookup_insert_ne by (intros ->; tauto). apply Hsame. tauto.
  - eapply same_dom_trans; [done|]. apply same_dom_insert. by apply Hdom.
  - by rewrite Hc.
Qed.

Lemma kmem_free_spec k L address size n :
  rep k L -> n <> 0%nat -> Z.max size 1024 = 1024 * Z.of_nat n ->
  Forall chunk_at (run address n) -> Forall (backed (memory k)) (run address n) -> (forall c, c ∈ run address n -> c ∉ L) ->
  wp (free address size) (fun _ k' => exists A B, L = A ++ B /\ rep k' (A ++ run address n ++ B) /\
    same_but (in_chunks (run address n ++ L)) (memory k) (memory k') /\ same_dom (memory k) (memory k')) k.
Proof.
  intros [Hseg Hsort Hch Hbk Hct] Hn Hsz Hrc Hrb Hnew. destruct n as [|n]; [done|]. unfold free.
  assert (max_word size KMEM_CHUNKSIZE = 1024 * Z.of_nat (S n)) as ->.
  { unfold max_word, KMEM_CHUNKSIZE. destruct (Z.ltb_spec 1024 size); lia. }
  rewrite Forall_forall in Hrc, Hrb. unfold KMEM_CHUNKSIZE.
  set (p := address + 1024 * Z.of_nat n). assert (Hp : p ∈ run address (S n)) by (apply elem_of_run; exists (Z.of_nat n); lia).
  destruct (Hrc p Hp) as (_ & _ & Hpw). destruct (Hrc address (list_elem_of_here _ _)) as (Ha0 & _).
  rewrite (Z.mul_comm 1024 (Z.of_nat (S n))), Z.mod_mul, Z.div_mul by lia.
  wp_step. apply wp_ASSERT; [done|]. rewrite Nat2Z.id. replace (address + Z.of_nat (S n) * 1024 - 1024) with p by (unfold p; lia).
  rewrite u32_word by (unfold is_word; lia).
  wp_step. eapply wp_mono; [apply (link_chunks_spec k n address); [lia|fold p; lia|]|].
  { intros c Hc. specialize (Hrb c). rewrite run_snoc, elem_of_app in Hrb. destruct (Hrb (or_introl Hc) 0) as [v Hv]; [lia|].
    rewrite Z.mul_0_r, Z.add_0_r in Hv. by eexists. }
  cbn beta. fold p. intros r k' (-> & m1 & -> & Hsegr & Hs1 & Hd1).
  assert (Hseg1 : seg m1 (kmem_free_list k) L 0).
  { eapply seg_frame; [|exact Hseg]. intros c Hc. apply Hs1. intros Hr. apply (Hnew c); [|done]. rewrite run_snoc, elem_of_app. by left. }
  apply wp_bind, wp_gets, wp_bind, wp_gets, wp_bind. eapply wp_mono; [eapply (find_link_spec (set_memory m1 k) address _ [] L); try done|].
  { apply (nodup_length_size m1); [by apply sorted_NoDup|]. intros c Hc. apply Hd1.
    rewrite Forall_forall in Hbk. specialize (Hbk c Hc 0). rewrite Z.mul_0_r, Z.add_0_r in Hbk. apply Hbk. lia. }
  { by intros y Hy; apply elem_of_nil in Hy. }
  cbn beta. intros [prev curr] k' (-> & A & B & HL & Hla & HsA & HsB & HAlt & HBge). simpl in HL, Hla, HsA, HsB. subst L.
  pose proof (insert_sorted A B address n Hsort Hch Hrc Hnew HAlt HBge) as Hsort2.
  eapply wp_mono; [eapply (link_run_spec (set_memory m1 k) A B address n prev curr); try done; [by apply sorted_NoDup|]|].
  { apply Hd1. specialize (Hrb p Hp 0). rewrite Z.mul_0_r, Z.add_0_r in Hrb. apply Hrb. lia. }
  cbn beta. intros _ k' (Hseg' & Hsame' & Hd' & Hc'). simpl in Hsame', Hd', Hc'. pose proof (same_dom_trans _ _ _ Hd1 Hd') as Hd2.
  exists A, B. split_and!; [done| | |done].
  - assert (Hch2 : Forall chunk_at (A ++ run address (S n) ++ B)).
    { apply Forall_app in Hch as [? ?]. rewrite !Forall_app. split_and!; [done|by apply Forall_forall|done]. }
    constructor; [done|done|done| |].
    + apply Forall_app in Hbk as [? ?]. rewrite !Forall_app. split_and!; [|apply Forall_forall; intros y Hy; by eapply backed_dom, Hrb|];
        (eapply Forall_impl; [eassumption|]); intros y; by apply backed_dom.
    + rewrite Hc', Hct. pose proof (chunks_bound _ Hsort2 Hch2) as Hb. rewrite !length_app, length_run in *.
      rewrite u32_word; unfold is_word, WORD_MOD; lia.
  - intros a Ha. unfold in_chunks in Ha. setoid_rewrite elem_of_app in Ha. rewrite Hsame', Hs1; [done| |].
    + intros Hr. apply Ha. exists a. split; [left; rewrite run_snoc, elem_of_app; by left|lia].
    + intros [Hla'| ->]; apply Ha; [exists a|exists p]; (split; [|lia]); [right; apply elem_of_app; left; by apply last_in|by left].
Qed.

Lemma kmem_init_spec k start n :
  n <> 0%nat -> Forall chunk_at (run start n) -> Forall (backed (memory k)) (run start n) ->
  wp (init start (start + 1024 * Z.of_nat n)) (fun _ k' => rep k' (run start n) /\
    same_but (in_chunks (run start n)) (memory k) (memory k') /\ same_dom (memory k) (memory k')) k.
Proof.
  intros Hn Hc Hb. assert (Hlen : Z.of_nat n < 2 ^ 22).
  { pose proof (chunks_bound _ (sorted_run start n) Hc) as H. by rewrite length_run in H. }
  unfold init. apply wp_bind, wp_modify, wp_bind, wp_modify. rewrite Z.add_simpl_l, u32_word by (unfold is_word, WORD_MOD; lia).
  eapply wp_mono; [apply (kmem_free_spec _ [] start _ n); [constructor; [done|constructor..|done]|done|lia|done|done|]|].
  - intros c _ Hin. by apply elem_of_nil in Hin.
  - cbn beta. intros _ k' (A & B & HL & Hr & Hs & Hd). symmetry in HL. apply app_nil in HL as [-> ->]. simpl in Hr. rewrite app_nil_r in Hr, Hs. done.
Qed.

(** A run that was taken and is given back. *)
Lemma taken_free k L n c zeroed k' A x B :
  n <> 0%nat -> rep k L -> fits n L A c x B -> taken k L n c zeroed k' (A ++ x :: B) ->
  wp (free c (1024 * Z.of_nat n)) (fun _ k'' => rep k'' L) k'.
Proof.
  intros Hn [_ Hs Hc Hb _] [-> _] [Hr' _ Hd _].
  eapply wp_mono; [apply (kmem_free_spec k' (A ++ x :: B) c _ n); [done|done|lia|..]|].
  - apply Forall_app in Hc as [_ Hc]. by apply Forall_app in Hc as [? _].
  - apply Forall_app in Hb as [_ Hb]. apply Forall_app in Hb as [Hb _]. eapply Forall_impl; [done|]. intros y. by apply backed_dom.
  - intros y Hy Hin. apply sorted_NoDup in Hs. apply NoDup_app in Hs as (_ & HA & Hs). apply NoDup_app in Hs as (_ & Hr & _).
    apply elem_of_app in Hin as [Hin|Hin]; [apply (HA y Hin); apply elem_of_app; by left|by apply (Hr y Hy)].
  - cbn beta. intros _ k'' (A' & B' & HL & Hr & _). assert (A' ++ run c n ++ B' = A ++ run c n ++ x :: B) as <-; [|done].
    apply (StronglySorted_unique_strong Z.lt); [intros y z _ _; lia|apply Hr|done|].
    rewrite !(Permutation_app_comm (run c n)), !(assoc_L (++)), HL. done.
Qed.

(** The links determine the list. *)
Lemma seg_unique m p L L' :
  Forall chunk_at L -> Forall chunk_at L' -> seg m p L 0 -> seg m p L' 0 -> L = L'.
Proof.
  revert p L'. induction L as [|c L IH]; intros p [|c' L'] Hc Hc'; simpl; [done|..].
  - intros -> [<- _]. apply Forall_cons in Hc' as [[? _] _]. lia.
  - intros [-> _] ->. apply Forall_cons in Hc as [[? _] _]. lia.
  - intros (-> & n & Hn & Hs) (<- & n' & Hn' & Hs'). apply Forall_cons in Hc as [_ Hc]. apply Forall_cons in Hc' as [_ Hc'].
    f_equal. apply (IH n); [done|done|done|]. by simplify_eq.
Qed.

Lemma rep_unique k L L' : rep k L -> rep k L' -> L = L'.
Proof. intros H H'. eapply seg_unique; [apply H|apply H'|apply H|apply H']. Qed.

End proofs.
End Kmem.

(** ** What the allocator promises its clients

    A heap of bytes, some of which are free; [kalloc] takes whole chunks that
    were free and [kfree] gives them back. *)

Class Kheap (H : Type) := {
  kalloc : Z -> bool -> M H Z;
  kfree : Z -> Z -> M H unit;
  kheap_ok : H -> Prop;
  kheap_mem : H -> Z -> Prop;
  kheap_free : H -> Z -> Prop
}.

(** The bytes of [n] chunks from [r] on. *)
Definition in_region (r : Z) (n : nat) (a : Z) : Prop := r <= a < r + 1024 * Z.of_nat n.

Record kregion `{Kheap H} (h : H) (r : Z) (n : nat) : Prop := {
  kr_aligned : 0 < r /\ r mod 1024 = 0;
  kr_end : r + 1024 * Z.of_nat n < WORD_MOD;
  kr_mem : forall a, in_region r n a -> kheap_mem h a
}.

Class KheapLaws (H : Type) `{!Kheap H} := {
  kalloc_law (h : H) size zeroed :
    kheap_ok h -> 0 < size <= WORD_MOD - 2048 ->
    wp (kalloc size zeroed) (fun r h' => kheap_ok h' /\ (forall a, kheap_mem h' a <-> kheap_mem h a) /\
      ((r = 0 /\ h' = h) \/
       (kregion h r (Kmem.chunks_of size) /\
        Z.land r (1024 * Z.of_nat (Kmem.chunks_of size) - 1) = 0 /\
        (forall a, in_region r (Kmem.chunks_of size) a -> kheap_free h a) /\
        forall a, kheap_free h' a <-> kheap_free h a /\ ~ in_region r (Kmem.chunks_of size) a))) h;
  kfree_law (h : H) r size n :
    kheap_ok h -> n <> 0%nat -> Z.max size 1024 = 1024 * Z.of_nat n -> kregion h r n ->
    (forall a, in_region r n a -> ~ kheap_free h a) ->
    wp (kfree r size) (fun _ h' => kheap_ok h' /\ (forall a, kheap_mem h' a <-> kheap_mem h a) /\
      forall a, kheap_free h' a <-> kheap_free h a \/ in_region r n a) h
}.

(** [kmem_t] keeps this promise. *)
Section kheap.
Import Kmem.

#[export] Instance kmem_kheap : Kheap kmem_t := {|
  kalloc := alloc;
  kfree := free;
  kheap_ok k := exists L, rep k L;
  kheap_mem k a := is_Some (memory k !! (a - a mod 4));
  kheap_free k a := exists L, rep k L /\ in_chunks L a
|}.

Lemma kheap_free_rep k L a : rep k L -> kheap_free k a <-> in_chunks L a.
Proof. intros H. split; [|by exists L]. intros (L' & H' & Ha). by rewrite (rep_unique _ _ _ H H'). Qed.

Lemma in_chunks_run r n a : in_chunks (run r n) a <-> in_region r n a.
Proof.
  split.
  - intros (c & (i & Hi & ->)%elem_of_run & Ha). unfold in_region. lia.
  - intros Ha. destruct (run_byte r n a Ha) as (y & Hy & Hya & _). by exists y.
Qed.

Lemma in_chunks_app L R a : in_chunks (L ++ R) a <-> in_chunks L a \/ in_chunks R a.
Proof. unfold in_chunks. setoid_rewrite elem_of_app. naive_solver. Qed.

Lemma in_chunks_disjoint L R a :
  StronglySorted Z.lt (L ++ R) -> Forall chunk_at (L ++ R) -> in_chunks L a -> ~ in_chunks R a.
Proof.
  intros Hs Hc (c & Hc1 & Ha) (d & Hd & Hb). apply sorted_app in Hs as (_ & _ & Hs). specialize (Hs c d Hc1 Hd). rewrite Forall_forall in Hc.
  destruct (chunk_apart c d) as [?|?]; [apply Hc, elem_of_app; by left|apply Hc, elem_of_app; by right|lia|lia|lia].
Qed.

Lemma backed_byte k c a : chunk_at c -> backed (memory k) c -> c <= a < c + 1024 -> kheap_mem k a.
Proof.
  intros (_ & Hm & _) Hb Ha. simpl. specialize (Hb ((a - c) / 4)).
  replace (a - a mod 4) with (c + 4 * ((a - c) / 4)); [apply Hb|]; Z.div_mod_to_equations; lia.
Qed.

Lemma region_chunks k r n :
  kregion k r n -> Forall chunk_at (run r n) /\ Forall (backed (memory k)) (run r n).
Proof.
  intros [[Hr Ha] He Hm]. rewrite !Forall_forall. split; intros c (i & Hi & ->)%elem_of_run.
  - split_and!; [lia|Z.div_mod_to_equations; lia|lia].
  - intros j Hj. specialize (Hm (r + 1024 * i + 4 * j)). simpl in Hm.
    assert ((r + 1024 * i + 4 * j) mod 4 = 0) as E by (Z.div_mod_to_equations; lia). rewrite E, Z.sub_0_r in Hm. apply Hm. unfold in_region. lia.
Qed.

(** A run of the list, as a region of the heap. *)
Lemma run_region k A c n x B :
  rep k (A ++ run c (S n) ++ x :: B) ->
  kregion k c (S n) /\ (forall a, in_chunks (A ++ run c (S n) ++ x :: B) a <-> in_chunks (A ++ x :: B) a \/ in_region c (S n) a) /\
  (forall a, in_region c (S n) a -> ~ in_chunks (A ++ x :: B) a).
Proof.
  intros HL. pose proof (rep_sorted _ _ HL) as Hs. pose proof (rep_chunks _ _ HL) as Hch. pose proof (rep_backed _ _ HL) as Hbk. split_and!.
  - pose proof (run_app_bound A c n x B x Hs Hch (list_elem_of_here _ _)) as Hx. rewrite Forall_forall in Hch, Hbk.
    destruct (Hch c) as (? & ? & _); [rewrite !elem_of_app; right; left; apply list_elem_of_here|].
    destruct (Hch x) as (_ & _ & ?); [rewrite !elem_of_app; right; right; apply list_elem_of_here|].
    constructor; [done|lia|]. intros a Ha. apply in_chunks_run in Ha as (y & Hy & Ha).
    apply (backed_byte k y); [apply Hch|apply Hbk|done]; rewrite !elem_of_app; tauto.
  - intros a. rewrite !in_chunks_app, in_chunks_run. tauto.
  - intros a Ha. rewrite in_chunks_app. apply in_chunks_run in Ha. intros [H|H].
    + apply (in_chunks_disjoint _ _ a Hs Hch H). apply in_chunks_app. by left.
    + apply sorted_app in Hs as (_ & Hs & _). apply Forall_app in Hch as [_ Hch]. by apply (in_chunks_disjoint _ _ a Hs Hch Ha).
Qed.

Lemma chunks_of_pos size : 0 < size -> exists n, chunks_of size = S n.
Proof. intros H. exists (chunks_of size - 1)%nat. unfold chunks_of. Z.div_mod_to_equations. lia. Qed.

#[export] Instance kmem_laws : KheapLaws kmem_t.
Proof.
  split.
  - intros k size zeroed [L HL] Hs. simpl. eapply wp_mono; [by eapply alloc_spec|]. cbn beta.
    destruct (chunks_of_pos size) as [n ->]; [lia|].
    intros r k' [(-> & -> & _)|(A & c & x & B & Hf & _ & -> & [Hr _ Hd _])]; [split_and!; [by exists L|done|by left]|].
    split_and!; [by eexists|intros a; apply Hd|]. right. pose proof Hf as [-> Hal].
    destruct (run_region _ _ _ _ _ _ HL) as (Hreg & Hin & Hdis). split_and!; [done|done| |].
    + intros a Ha. eapply (kheap_free_rep k); [exact HL|]. apply Hin. by right.
    + intros a. change (kheap_free k' a <-> kheap_free k a /\ ~ in_region c (S n) a).
      rewrite (kheap_free_rep _ _ a Hr), (kheap_free_rep _ _ a HL), Hin. specialize (Hdis a). tauto.
  - intros k r size n [L HL] Hn Hsz Hreg Hnf. simpl. destruct (region_chunks _ _ _ Hreg) as [Hc Hb].
    eapply wp_mono; [apply (kmem_free_spec k L r size n); [done|done|done|done|done|]|].
    + intros c Hcr Hin. apply (Hnf c).
      * apply in_chunks_run. exists c. split; [done|lia].
      * apply (kheap_free_rep k L c HL). exists c. split; [done|lia].
    + cbn beta. intros _ k' (A & B & -> & Hr & _ & Hd). split_and!; [by eexists|intros a; apply Hd|].
      intros a. change (kheap_free k' a <-> kheap_free k a \/ in_region r n a).
      rewrite (kheap_free_rep _ _ a Hr), (kheap_free_rep _ _ a HL), !in_chunks_app, in_chunks_run. tauto.
Qed.

End kheap.

(** ** Correctness *)

Section kmem_properties.
Import Kmem.

(** C40: the kernel heap.  [alloc] finds the first run of free chunks that is
    long enough, aligned for its size and followed by another free chunk (no
    such run has a lower address), and takes exactly this run off the list, cleared if so asked; it returns NULL
    and changes nothing exactly when there is no such run.  Giving the run
    back restores the list.  [init] makes a list of all the chunks of a
    region. *)
Theorem kmem_correct k L size zeroed :
  rep k L -> 0 < size <= WORD_MOD - 2048 ->
  wp (alloc size zeroed) (fun r k' =>
    (r = 0 /\ k' = k /\ forall A c x B, ~ fits (chunks_of size) L A c x B) \/
    (exists A c x B, fits (chunks_of size) L A c x B /\
       (forall A' c' x' B', fits (chunks_of size) L A' c' x' B' -> c <= c') /\
       r = c /\ taken k L (chunks_of size) c zeroed k' (A ++ x :: B) /\
       wp (free c (1024 * Z.of_nat (chunks_of size))) (fun _ k'' => rep k'' L) k')) k /\
  (forall start n, n <> 0%nat -> Forall chunk_at (run start n) -> Forall (backed (memory k)) (run start n) ->
     wp (init start (start + 1024 * Z.of_nat n)) (fun _ k' => rep k' (run start n)) k).
Proof.
  intros Hr Hs. split.
  - eapply wp_mono; [by eapply alloc_spec|]. cbn beta. intros r k' [H|(A & c & x & B & Hf & Hff & -> & Ht)]; [by left|right].
    assert (Hn : chunks_of size <> 0%nat) by (destruct (chunks_of_pos size) as [n ->]; [lia|done]).
    exists A, c, x, B. split_and!; [done| |done|done|by eapply taken_free].
    intros A' c' x' B' Hf'. by eapply first_fit_least; [|apply Hr| | |].
  - intros start n Hn Hc Hb. eapply wp_mono; [by apply kmem_init_spec|]. by intros _ k' [? _].
Qed.

End kmem_properties.

Module KmemDemo.
Import Kmem.

(** [n] chunks of memory. *)
Definition memory_of (n : nat) : gmap Z Z := list_to_map ((fun i : nat => (4096 + 4 * Z.of_nat i, 0)) <$> seq 0 (256 * n)).

Lemma words_backed n : Forall (backed (memory_of n)) (run 4096 n).
Proof.
  apply Forall_forall. intros c (i & Hi & ->)%elem_of_run j Hj. unfold memory_of.
  exists 0. apply elem_of_list_to_map_1.
  - rewrite <-list_fmap_compose. apply NoDup_fmap_2_strong; [|apply NoDup_seq]. intros x y _ _. simpl. lia.
  - apply list_elem_of_fmap. exists (Z.to_nat (256 * i + j)). split; [f_equal; lia|]. apply elem_of_seq. lia.
Qed.

Definition raw (n : nat) : kmem_t := Kmem 77 78 (memory_of n).
Definition ready_of (n : nat) : kmem_t := match init 4096 (4096 + 1024 * Z.of_nat n) (raw n) with Done _ k => k | Crash _ => raw n end.

Lemma ready_of_rep n : n <> 0%nat -> Forall chunk_at (run 4096 n) -> rep (ready_of n) (run 4096 n).
Proof.
  intros Hn Hc. pose proof (kmem_init_spec (raw n) 4096 n Hn Hc (words_backed n)) as H. unfold wp in H. unfold ready_of.
  destruct (init 4096 _ (raw n)) as [u k|]; [apply H|destruct H].
Qed.

(** A heap of four chunks. *)
Definition ready : kmem_t := ready_of 4.

Lemma ready_rep : rep ready [4096; 5120; 6144; 7168].
Proof. apply (ready_of_rep 4); [done|repeat constructor]. Qed.

End KmemDemo.

Lemma kmem_correct_witness :
  wp (Kmem.alloc 2000 true) (fun r k' =>
    (r = 0 /\ k' = KmemDemo.ready /\ forall A c x B, ~ Kmem.fits 2 [4096; 5120; 6144; 7168] A c x B) \/
    (exists A c x B, Kmem.fits 2 [4096; 5120; 6144; 7168] A c x B /\
       (forall A' c' x' B', Kmem.fits 2 [4096; 5120; 6144; 7168] A' c' x' B' -> c <= c') /\ r = c /\
       Kmem.taken KmemDemo.ready [4096; 5120; 6144; 7168] 2 c true k' (A ++ x :: B) /\
       wp (Kmem.free c (1024 * Z.of_nat 2)) (fun _ k'' => Kmem.rep k'' [4096; 5120; 6144; 7168]) k')) KmemDemo.ready.
Proof.
  exact (proj1 (kmem_correct KmemDemo.ready [4096; 5120; 6144; 7168] 2000 true KmemDemo.ready_rep ltac:(unfold WORD_MOD; lia))).
Defined.

(** The last free chunk is never handed out, although it would do. *)
Lemma kmem_last_chunk k c zeroed : Kmem.rep k [c] -> wp (Kmem.alloc 1024 zeroed) (fun r k' => r = 0 /\ k' = k) k.
Proof.
  intros Hr. eapply wp_mono; [apply (Kmem.alloc_spec k [c] 1024 zeroed Hr); unfold WORD_MOD; lia|]. cbn beta.
  intros r k' [(-> & -> & _)|(A & d & x & B & [Heq _] & _)]; [done|]. exfalso.
  apply (f_equal length) in Heq. rewrite !length_app in Heq. simpl in Heq. lia.
Qed.
