(* ===== verification/MicroSmall.v ===== *)
(** * Small objects of the microkernel

    [pistachio/src/smallalloc.cc] and [smallalloc.h]: pools of objects of one
    size (TCBs, spaces, mutexes).  A pool keeps a list of blocks of 4096 bytes
    from the kernel heap; a block holds as many objects as fit and, behind
    them, a header with a link, a number and a bitmap of its free objects.
    The heap is any that keeps the promises of [KheapLaws]; what the memory of
    a new block holds before its header is written is arbitrary.  The poisoning
    of CONFIG_KMEM_DEBUG is left out. *)

From S2P Require Import Prelude MicroLib MicroKmem.
#[local] Open Scope Z_scope.

Module Small.

Definition SMALL_OBJECT_BLOCKSIZE : Z := 4096.

(** [small_alloc_block_t] *)
Record block_t : Type := Block { bnext : Z; bid : Z; bitmap : list Z }.
Definition set_bnext v b := Block v (bid b) (bitmap b).
Definition set_bid v b := Block (bnext b) v (bitmap b).
Definition set_bitmap v b := Block (bnext b) (bid b) v.

(** [small_alloc_t] *)
Record small_alloc_t : Type := SmallAlloc {
  head : Z;
  first_free : Z;
  num : Z;
  max_objs : Z;
  obj_size : Z;
  objs_per_block : Z;
  header_offset : Z
}.
Definition set_head v p := SmallAlloc v (first_free p) (num p) (max_objs p) (obj_size p) (objs_per_block p) (header_offset p).
Definition set_first_free v p := SmallAlloc (head p) v (num p) (max_objs p) (obj_size p) (objs_per_block p) (header_offset p).
Definition set_num v p := SmallAlloc (head p) (first_free p) v (max_objs p) (obj_size p) (objs_per_block p) (header_offset p).

Definition u16 (x : Z) : Z := x mod 2 ^ 16.

Definition header_size (obj_size : Z) : Z := u32 ((2 + BITMAP_SIZE (SMALL_OBJECT_BLOCKSIZE / obj_size)) * 4).

Section model.
Context {H : Type} `{KH : !Kheap H}.
(** The words at an address, read as a header. *)
Context (raw_header : Z -> block_t).

Record pstate : Type := PState { pool : small_alloc_t; blocks : gmap Z block_t; bytes : Z -> Z; pheap : H }.
Definition set_pool v s := PState v (blocks s) (bytes s) (pheap s).
Definition set_blocks v s := PState (pool s) v (bytes s) (pheap s).
Definition set_bytes v s := PState (pool s) (blocks s) v (pheap s).
Definition set_pheap v s := PState (pool s) (blocks s) (bytes s) v.

Abbreviation K A := (M pstate A).

Definition on_pheap {A} (c : M H A) : K A :=
  fun s => match c (pheap s) with Done a h => Done a (set_pheap h s) | Crash f => Crash f end.
Definition field {A} (f : small_alloc_t -> A) : K A := gets (fun s => f (pool s)).
Definition upd (g : small_alloc_t -> small_alloc_t) : K unit := modify (fun s => set_pool (g (pool s)) s).
Definition rd {A} (p : Z) (f : block_t -> A) : K A :=
  let! m := gets blocks in
  let! b := demand InvalidPointer (m !! p) in
  ret (f b).
Definition wr (p : Z) (g : block_t -> block_t) : K unit :=
  let! m := gets blocks in
  let! b := demand InvalidPointer (m !! p) in
  modify (set_blocks (<[p := g b]> m)).

(** [memset(addr, 0, size)] *)
Definition clear_bytes (addr size : Z) : K unit :=
  modify (fun s => set_bytes (fun a => if (addr <=? a) && (a <? addr + size) then 0 else bytes s a) s).

(** *** Addresses *)

Definition get_object (block index : Z) : K Z :=
  let! size := field obj_size in
  let! offset := field header_offset in
  ret (u32 (u32 (block - offset) + u32 (index * size))).
Definition get_object_base (object : Z) : Z := Z.land object (not32 (SMALL_OBJECT_BLOCKSIZE - 1)).
Definition get_block_base (block : Z) : K Z :=
  let! offset := field header_offset in
  ret (u32 (block - offset)).
Definition get_block (base : Z) : K Z :=
  let! offset := field header_offset in
  ret (u32 (base + offset)).

Definition id (object : Z) : K Z :=
  let base := get_object_base object in
  let! block := get_block base in
  let! size := field obj_size in
  let! n := rd block bid in
  ret (u32 (u32 (object - base) / size + n)).

(** *** Blocks *)

Definition init_block_bitmap (block length : Z) : K unit :=
  let! bm := rd block bitmap in
  let! bm := bitmap_init bm length 1 in
  wr block (set_bitmap bm).

(** The walk of [allocate_block] along the list from [current] on. *)
Fixpoint insert_block (fuel : nat) (block length current next_id : Z) : K Z :=
  let! per_block := field objs_per_block in
  let! max := field max_objs in
  let! next := rd current bnext in
  if negb (next =? 0) then
    let current := next in
    let! cid := rd current bid in
    if negb (cid =? next_id) then
      let! cnext := rd current bnext in
      do! wr block (set_bnext cnext) in
      do! wr current (set_bnext block) in
      do! wr block (set_bid next_id) in
      do! init_block_bitmap block length in
      ret block
    else
      match fuel with
      | O => crash LoopBoundExceeded
      | S fuel' => insert_block fuel' block length current (u32 (next_id + per_block))
      end
  else
    do! wr block (set_bid next_id) in
    do! ASSERT ((max =? 0) || (next_id <? max)) in
    do! wr current (set_bnext block) in
    do! wr block (set_bnext 0) in
    let length := if negb (max =? 0) && (max <=? u32 (length + next_id)) then u32 (max - next_id) else length in
    do! init_block_bitmap block length in
    ret block.

Definition allocate_block : K Z :=
  let! length := field objs_per_block in
  let! block_base := on_pheap (kalloc SMALL_OBJECT_BLOCKSIZE false) in
  if block_base =? 0 then ret 0
  else
    let! block := get_block block_base in
    do! modify (fun s => set_blocks (<[block := raw_header block]> (blocks s)) s) in
    let! h := field head in
    let! front := (if h =? 0 then ret true else let! hid := rd h bid in ret (negb (hid =? 0))) in
    if front then
      do! wr block (set_bnext h) in
      do! upd (set_head block) in
      let! max := field max_objs in
      let length := if negb (max =? 0) && (max <=? length) then max else length in
      do! init_block_bitmap block length in
      ret block
    else
      let! hid := rd h bid in
      let! fuel := gets (fun s => size (blocks s)) in
      insert_block fuel block length h (u32 (hid + length)).

(** The walk of [free_block]: the block before [block]. *)
Fixpoint find_before (fuel : nat) (block current : Z) : K Z :=
  let! next := rd current bnext in
  if (next =? 0) || (next =? block) then ret current
  else
    match fuel with
    | O => crash LoopBoundExceeded
    | S fuel' => find_before fuel' block next
    end.

Definition free_block (block : Z) : K unit :=
  let! h := field head in
  do! (if h =? block then
         let! next := rd block bnext in
         upd (set_head next)
       else
         let! fuel := gets (fun s => size (blocks s)) in
         let! current := find_before fuel block h in
         let! next := rd block bnext in
         wr current (set_bnext next)) in
  let! base := get_block_base block in
  do! on_pheap (kfree base SMALL_OBJECT_BLOCKSIZE) in
  modify (fun s => set_blocks (delete block (blocks s)) s).

(** The first block from [block] on with a free object, 0 if there is none. *)
Fixpoint find_free (fuel : nat) (block : Z) : K Z :=
  if block =? 0 then ret 0
  else
    let! per_block := field objs_per_block in
    let! bm := rd block bitmap in
    let! position := bitmap_findfirstset bm per_block in
    if position =? -1 then
      let! next := rd block bnext in
      match fuel with
      | O => crash LoopBoundExceeded
      | S fuel' => find_free fuel' next
      end
    else ret block.

(** *** Objects *)

Definition allocate (zeroed : bool) : K Z :=
  let! max := field max_objs in
  let! n := field num in
  if negb (max =? 0) && (max <=? n) then ret 0
  else
    let! ff := field first_free in
    do! (when ff =? 0 do
           let! block := allocate_block in
           upd (set_first_free block)) in
    let! ff := field first_free in
    if ff =? 0 then ret 0
    else
      let! per_block := field objs_per_block in
      let! bm := rd ff bitmap in
      let! position := bitmap_findfirstset bm per_block in
      do! ASSERT (negb (position =? -1)) in
      let! object := get_object ff position in
      let! bm := bitmap_clear bm position in
      do! wr ff (set_bitmap bm) in
      let! fuel := gets (fun s => size (blocks s)) in
      let! ff := find_free fuel ff in
      do! upd (set_first_free ff) in
      do! upd (fun p => set_num (u32 (num p + 1)) p) in
      let! size := field obj_size in
      do! (when zeroed do clear_bytes object size) in
      ret object.

Definition free (object : Z) : K unit :=
  do! ASSERT (negb (object =? 0)) in
  let! block := get_block (get_object_base object) in
  let! oid := id object in
  let! bid0 := rd block bid in
  let! bm := rd block bitmap in
  let! bm := bitmap_set bm (u32 (oid - bid0)) in
  do! wr block (set_bitmap bm) in
  let! ff := field first_free in
  let! early := (if ff =? 0 then ret true else let! ffid := rd ff bid in ret (bid0 <? ffid)) in
  if early then
    do! upd (set_first_free block) in
    upd (fun p => set_num (u32 (num p - 1)) p)
  else
    let! per_block := field objs_per_block in
    let! unused := bitmap_isallset bm per_block in
    do! (when unused do
           do! free_block block in
           when ff =? block do
             let! h := field head in
             let! fuel := gets (fun s => size (blocks s)) in
             let! ff := find_free fuel h in
             upd (set_first_free ff)) in
    upd (fun p => set_num (u32 (num p - 1)) p).

Definition init (object_size max_objects : Z) : K unit :=
  let size := u16 object_size in
  let header := header_size size in
  let extra_space := SMALL_OBJECT_BLOCKSIZE mod size in
  let per_block :=
    u16 (if header <=? extra_space then SMALL_OBJECT_BLOCKSIZE / size
         else u32 (SMALL_OBJECT_BLOCKSIZE / size - (header - extra_space) / size - 1)) in
  upd (fun _ => SmallAlloc 0 0 0 max_objects size per_block (u16 (per_block * size))).

End model.
End Small.
