(* ===== verification/MicroSmallProof.v ===== *)
(** * The pools of small objects are correct

    The invariant of a pool, and the proofs that [allocate] and [free] change
    exactly one object and that [init] lays out blocks so that objects and
    header fit. *)

From S2P Require Import Prelude MicroLib MicroKmem MicroSmall.
Import Small.
#[local] Open Scope Z_scope.

(** ** Lists of blocks *)

Section links.
Implicit Types (m : gmap Z Z) (A B L : list Z) (b c h q : Z).

Lemma seg_insert_after m h A c B q b :
  Kmem.seg m h (A ++ c :: B) 0 -> NoDup (A ++ c :: B) -> b ∉ A ++ c :: B -> m !! c = Some q ->
  Kmem.seg (<[c := b]> (<[b := q]> m)) h (A ++ c :: b :: B) 0.
Proof.
  intros Hs Hnd Hb Hc. rewrite elem_of_app, elem_of_cons in Hb. apply NoDup_app in Hnd as (_ & Hd & [Hcn Hnd]%NoDup_cons).
  apply Kmem.seg_app in Hs as (p & HA & -> & q' & Hq & HB). rewrite Hc in Hq. injection Hq as <-.
  apply Kmem.seg_app. exists c. split; [|split; [done|]].
  - eapply Kmem.seg_frame; [|exact HA]. intros x Hx. rewrite !lookup_insert_ne; [done| |]; intros ->; [tauto|]. apply (Hd x Hx), list_elem_of_here.
  - exists b. split; [apply lookup_insert_eq|]. split; [done|]. exists q. split; [rewrite lookup_insert_ne, lookup_insert_eq; [done|]; intros ->; tauto|].
    eapply Kmem.seg_frame; [|exact HB]. intros x Hx. rewrite !lookup_insert_ne; [done| |]; intros ->; tauto.
Qed.

Lemma seg_remove_after m h A c b B q :
  Kmem.seg m h (A ++ c :: b :: B) 0 -> NoDup (A ++ c :: b :: B) -> m !! b = Some q ->
  Kmem.seg (delete b (<[c := q]> m)) h (A ++ c :: B) 0.
Proof.
  intros Hs Hnd Hb. apply NoDup_app in Hnd as (_ & Hd & [Hcn [Hbn Hnd]%NoDup_cons]%NoDup_cons). rewrite elem_of_cons in Hcn.
  apply Kmem.seg_app in Hs as (p & HA & -> & n & Hn & -> & q' & Hq & HB). rewrite Hb in Hq. injection Hq as <-.
  assert (Hbc : b <> c) by (intros ->; tauto). apply Kmem.seg_app. exists c. split; [|split; [done|]].
  - eapply Kmem.seg_frame; [|exact HA]. intros x Hx. specialize (Hd x Hx). rewrite !elem_of_cons in Hd.
    rewrite lookup_delete_ne, lookup_insert_ne; [done| |]; intros ->; tauto.
  - exists q. split; [rewrite lookup_delete_ne, lookup_insert_eq by done; done|]. eapply Kmem.seg_frame; [|exact HB].
    intros x Hx. rewrite lookup_delete_ne, lookup_insert_ne; [done| |]; intros ->; tauto.
Qed.

End links.

(** ** The layout of a block *)

(** The address of an object. *)
Definition object_at (p : small_alloc_t) (b i : Z) : Z := b - header_offset p + i * obj_size p.

Record geometry (p : small_alloc_t) : Prop := {
  geo_size : 0 < obj_size p;
  geo_count : 0 < objs_per_block p;
  geo_offset : header_offset p = objs_per_block p * obj_size p;
  geo_header : header_offset p + 4 * (2 + BITMAP_SIZE (objs_per_block p)) <= 4096
}.

(** A block that lies in one aligned unit of memory. *)
Definition block_place (p : small_alloc_t) (b : Z) : Prop :=
  0 < b - header_offset p /\ (b - header_offset p) mod 4096 = 0 /\ b - header_offset p + 4096 < WORD_MOD.

Section layout.
Context (p : small_alloc_t) (G : geometry p).

Lemma object_range i : 0 <= i < objs_per_block p -> 0 <= i * obj_size p /\ i * obj_size p + obj_size p <= header_offset p.
Proof. intros Hi. destruct G as [G1 G2 G3 G4]. rewrite G3. nia. Qed.

Lemma offset_range : 0 < header_offset p < 4096.
Proof.
  destruct G as [G1 G2 G3 G4]. pose proof (bitmap_size_pos _ G2). rewrite G3 in *. nia.
Qed.

Lemma object_word b i : block_place p b -> 0 <= i < objs_per_block p -> 0 < object_at p b i /\ is_word (object_at p b i).
Proof.
  intros (H1 & H2 & H3) Hi. pose proof (object_range i Hi). pose proof offset_range. pose proof (geo_size _ G). unfold object_at, is_word. lia.
Qed.

Lemma object_base b i : block_place p b -> 0 <= i < objs_per_block p -> get_object_base (object_at p b i) = b - header_offset p.
Proof.
  intros Hb Hi. pose proof (object_word b i Hb Hi) as [_ Hw]. destruct Hb as (H1 & H2 & H3). unfold get_object_base.
  change (SMALL_OBJECT_BLOCKSIZE - 1) with (2 ^ 12 - 1). rewrite (Kmem.align_down 12) by (done || lia). change (2 ^ 12) with 4096.
  pose proof (object_range i Hi). pose proof offset_range. pose proof (geo_size _ G). unfold object_at. Z.div_mod_to_equations. lia.
Qed.

Lemma object_number b i : 0 <= i -> (object_at p b i - (b - header_offset p)) / obj_size p = i.
Proof. intros Hi. unfold object_at. destruct G as [G1 _ _ _]. replace (_ - _) with (i * obj_size p) by lia. apply Z.div_mul. lia. Qed.

Lemma object_inj b i b' i' :
  block_place p b -> block_place p b' -> 0 <= i < objs_per_block p -> 0 <= i' < objs_per_block p ->
  object_at p b i = object_at p b' i' -> b = b' /\ i = i'.
Proof.
  intros Hb Hb' Hi Hi' E. assert (b = b') as <-.
  { pose proof (object_base b i Hb Hi) as H1. pose proof (object_base b' i' Hb' Hi') as H2. rewrite E in H1. lia. }
  split; [done|]. unfold object_at in E. destruct G as [G1 _ _ _]. nia.
Qed.

(** Objects do not overlap. *)
Lemma object_disjoint b i b' i' :
  block_place p b -> block_place p b' -> 0 <= i < objs_per_block p -> 0 <= i' < objs_per_block p ->
  object_at p b i <> object_at p b' i' ->
  object_at p b i + obj_size p <= object_at p b' i' \/ object_at p b' i' + obj_size p <= object_at p b i.
Proof.
  intros (H1 & H2 & H3) (H1' & H2' & H3') Hi Hi' Hne. pose proof (object_range i Hi). pose proof (object_range i' Hi'). pose proof offset_range.
  unfold object_at in *. destruct G as [G1 _ _ _]. destruct (Z.eq_dec b b') as [<-|Hb].
  - assert (i <> i') by congruence. nia.
  - Z.div_mod_to_equations. lia.
Qed.

Lemma block_apart b b' a : block_place p b -> block_place p b' -> b <> b' ->
  in_region (b - header_offset p) 4 a -> ~ in_region (b' - header_offset p) 4 a.
Proof. intros (_ & H2 & _) (_ & H2' & _) Hne. unfold in_region. Z.div_mod_to_equations. lia. Qed.

End layout.

(** ** The invariant *)

Section pools.
Context {H : Type} `{KH : !Kheap H} `{KL : !KheapLaws H}.
Implicit Types (s : pstate (H := H)) (p : small_alloc_t) (L : list Z) (b : Z) (v : block_t).

Definition links s : gmap Z Z := bnext <$> blocks s.

Record Inv s L : Prop := {
  inv_geo : geometry (pool s);
  inv_heap : kheap_ok (pheap s);
  inv_seg : Kmem.seg (links s) (head (pool s)) L 0;
  inv_nodup : NoDup L;
  inv_dom : forall b, b ∈ L <-> is_Some (blocks s !! b);
  inv_bitmap : forall b v, blocks s !! b = Some v -> bm_wf (bitmap v) (objs_per_block (pool s));
  inv_place : forall b, b ∈ L -> block_place (pool s) b;
  inv_region : forall b, b ∈ L -> kregion (pheap s) (b - header_offset (pool s)) 4;
  inv_taken : forall b a, b ∈ L -> in_region (b - header_offset (pool s)) 4 a -> ~ kheap_free (pheap s) a
}.

(** A block that has a free object. *)
Definition has_free s b : Prop :=
  exists v i, blocks s !! b = Some v /\ 0 <= i < objs_per_block (pool s) /\ bm_bit (bitmap v) i = true.

(** The objects in use. *)
Definition used s b i : Prop :=
  exists v, blocks s !! b = Some v /\ 0 <= i < objs_per_block (pool s) /\ bm_bit (bitmap v) i = false.
Definition allocated s (o : Z) : Prop := exists b i, used s b i /\ o = object_at (pool s) b i.

(** The parts of a pool that [init] fixes. *)
Definition same_layout p p' : Prop :=
  obj_size p' = obj_size p /\ objs_per_block p' = objs_per_block p /\ header_offset p' = header_offset p /\ max_objs p' = max_objs p.

Lemma inv_nonzero s L b : Inv s L -> b ∈ L -> b <> 0.
Proof.
  intros I Hb. destruct (inv_place _ _ I b Hb) as (H1 & _). pose proof (offset_range _ (inv_geo _ _ I)). lia.
Qed.

(** What the invariant depends on. *)
Lemma Inv_ext s s' L :
  Inv s L -> (forall b, bnext <$> blocks s' !! b = bnext <$> blocks s !! b) ->
  (forall b v, blocks s' !! b = Some v -> bm_wf (bitmap v) (objs_per_block (pool s))) ->
  head (pool s') = head (pool s) -> obj_size (pool s') = obj_size (pool s) -> objs_per_block (pool s') = objs_per_block (pool s) ->
  header_offset (pool s') = header_offset (pool s) -> pheap s' = pheap s -> Inv s' L.
Proof.
  intros [I1 I2 I3 I4 I5 I6 I7 I8 I9] Hn Hb E1 E2 E3 E4 E5.
  assert (Hl : links s' = links s) by (apply map_eq; intros b; unfold links; rewrite !lookup_fmap; apply Hn).
  unfold block_place in *. constructor; unfold block_place; rewrite ?E1, ?E3, ?E4, ?E5, ?Hl; try done.
  - destruct I1. constructor; rewrite ?E2, ?E3, ?E4; done.
  - intros b. rewrite I5, <-(fmap_is_Some bnext (blocks s !! b)), <-Hn. apply fmap_is_Some.
Qed.

(** *** Steps *)

Lemma wp_field {A} (f : small_alloc_t -> A) Q s : Q (f (pool s)) s -> wp (field f) Q s.
Proof. done. Qed.

Lemma wp_upd g Q s : Q tt (set_pool (g (pool s)) s) -> wp (upd g) Q s.
Proof. done. Qed.

Lemma wp_rd_block {A} b (f : block_t -> A) v Q s : blocks s !! b = Some v -> Q (f v) s -> wp (rd b f) Q s.
Proof. intros Hb HQ. unfold rd. apply wp_bind, wp_gets, wp_bind, (wp_demand _ _ v); [done|]. by apply wp_ret. Qed.

Lemma wp_wr_block b g v Q s : blocks s !! b = Some v -> Q tt (set_blocks (<[b := g v]> (blocks s)) s) -> wp (wr b g) Q s.
Proof. intros Hb HQ. unfold wr. apply wp_bind, wp_gets, wp_bind, (wp_demand _ _ v); [done|]. by apply wp_modify. Qed.

Lemma wp_on_pheap {A} (c : M H A) Q s : wp c (fun a h => Q a (set_pheap h s)) (pheap s) -> wp (on_pheap c) Q s.
Proof. unfold wp, on_pheap. by destruct (c (pheap s)). Qed.

Lemma wp_init_block_bitmap b v n Q s :
  blocks s !! b = Some v -> 0 < n -> BITMAP_SIZE n <= Z.of_nat (length (bitmap v)) -> Forall is_word (bitmap v) ->
  (forall bm, bm_wf bm n -> (forall i, 0 <= i < n -> bm_bit bm i = true) -> Q tt (set_blocks (<[b := set_bitmap bm v]> (blocks s)) s)) ->
  wp (init_block_bitmap b n) Q s.
Proof.
  intros Hb Hn Hl Hw HQ. unfold init_block_bitmap. apply wp_bind, (wp_rd_block _ _ v); [done|]. apply wp_bind.
  wp_call (bitmap_init_spec (bitmap v) n 1); [done|done|done|]. cbn beta. intros bm s' (-> & Hwf & Hbits). apply (wp_wr_block _ _ v); [done|].
  apply HQ; [done|]. intros i Hi. by rewrite Hbits.
Qed.

Lemma links_insert s b v : bnext <$> <[b := v]> (blocks s) = <[b := bnext v]> (links s).
Proof. unfold links. by rewrite fmap_insert. Qed.

(** *** A new block *)

(** The two ends of the walk: the last block, and a gap in the numbers. *)
#[local] Ltac at_end vb vc Hb Hvc Hcb Hn Hlen Hw HQ HB block cur A :=
    apply wp_bind, (wp_wr_block _ _ vb); [done|]; apply wp_bind, wp_ASSERT; [done|];
    apply wp_bind, (wp_wr_block _ _ vc); [simpl; by rewrite lookup_insert_ne|];
    eapply wp_bind, wp_wr_block; [simpl; rewrite lookup_insert_ne by done; apply lookup_insert_eq|]; cbn [negb andb];
    apply wp_bind; eapply wp_init_block_bitmap; [simpl; apply lookup_insert_eq|done|exact Hlen|exact Hw|]; intros bm Hwf Hbits; apply wp_ret; simpl;
    rewrite insert_insert_eq, (insert_insert_ne _ cur block), insert_insert_eq by done;
    specialize (HQ A cur [] vc); rewrite HB in HQ; by apply HQ.
#[local] Ltac at_gap vb vd Hb Hvd Hdb Hn Hlen Hw HQ block d A cur B :=
    apply wp_bind, (wp_rd_block _ _ vd); [done|]; apply wp_bind, (wp_wr_block _ _ vb); [done|];
    apply wp_bind, (wp_wr_block _ _ vd); [simpl; by rewrite lookup_insert_ne|];
    eapply wp_bind, wp_wr_block; [simpl; rewrite lookup_insert_ne by done; apply lookup_insert_eq|];
    apply wp_bind; eapply wp_init_block_bitmap; [simpl; apply lookup_insert_eq|done|exact Hlen|exact Hw|]; intros bm Hwf Hbits; apply wp_ret; simpl;
    rewrite insert_insert_eq, (insert_insert_ne _ d block), insert_insert_eq by done;
    apply (HQ (A ++ [cur]) d B vd); [by rewrite <-app_assoc|done|done|done].

(** Where the walk puts the block: behind some block of the list. *)
Lemma wp_insert_block fuel block vb n cur B A next_id Q s :
  Kmem.seg (links s) (head (pool s)) (A ++ cur :: B) 0 -> NoDup (A ++ cur :: B) -> (forall x, x ∈ A ++ cur :: B -> x <> 0 /\ x <> block) ->
  (length B <= fuel)%nat -> blocks s !! block = Some vb -> max_objs (pool s) = 0 ->
  0 < n -> BITMAP_SIZE n <= Z.of_nat (length (bitmap vb)) -> Forall is_word (bitmap vb) ->
  (forall A' c B' vc nid bm, A ++ cur :: B = A' ++ c :: B' -> blocks s !! c = Some vc -> bm_wf bm n -> (forall i, 0 <= i < n -> bm_bit bm i = true) ->
     Q block (set_blocks (<[block := Block (bnext vc) nid bm]> (<[c := set_bnext block vc]> (blocks s))) s)) ->
  wp (insert_block fuel block n cur next_id) Q s.
Proof.
  revert cur B A next_id. induction fuel as [|fuel IH]; intros cur B A next_id Hs Hnd Hx Hf Hb Hmax Hn Hlen Hw HQ.
  all: pose proof Hs as Hs0; apply Kmem.seg_app in Hs as (q & HA & -> & nx & Hnx & HB); unfold links in Hnx; rewrite lookup_fmap in Hnx;
    apply fmap_Some in Hnx as (vc & Hvc & ->); destruct (Hx cur) as [_ Hcb]; [rewrite elem_of_app, elem_of_cons; tauto|].
  all: cbn [insert_block]; apply wp_bind, wp_field, wp_bind, wp_field, wp_bind, (wp_rd_block _ _ vc); [done|]; rewrite Hmax.
  all: destruct B as [|d B]; [simpl in HB; rewrite HB; cbn [Z.eqb negb]|destruct HB as (Hd & nd & Hnd' & HB); unfold links in Hnd'; rewrite lookup_fmap in Hnd';
    apply fmap_Some in Hnd' as (vd & Hvd & ->); rewrite Hd; destruct (Hx d) as [Hd0 Hdb]; [rewrite elem_of_app, !elem_of_cons; tauto|];
    rewrite (proj2 (Z.eqb_neq d 0) Hd0); cbn [negb]; cbv zeta; apply wp_bind, (wp_rd_block _ _ vd); [done|]].
  - at_end vb vc Hb Hvc Hcb Hn Hlen Hw HQ HB block cur A.
  - simpl in Hf. lia.
  - at_end vb vc Hb Hvc Hcb Hn Hlen Hw HQ HB block cur A.
  - destruct (Z.eqb_spec (bid vd) next_id) as [E|E]; cbn [negb]; [|at_gap vb vd Hb Hvd Hdb Hn Hlen Hw HQ block d A cur B].
    apply (IH d B (A ++ [cur])); rewrite <-?app_assoc; try done. simpl in Hf. lia.
Qed.


Lemma layout_geometry p p' : same_layout p p' -> geometry p -> geometry p'.
Proof. intros (E1 & E2 & E3 & _) []. constructor; by rewrite ?E1, ?E2, ?E3. Qed.

Lemma layout_place p p' b : same_layout p p' -> block_place p b -> block_place p' b.
Proof. intros (_ & _ & E & _). unfold block_place. by rewrite E. Qed.

(** What the heap hands out for a block. *)
Record fresh_block s (h : H) b : Prop := {
  fb_ok : kheap_ok h;
  fb_mem : forall a, kheap_mem h a <-> kheap_mem (pheap s) a;
  fb_place : block_place (pool s) b;
  fb_region : kregion h (b - header_offset (pool s)) 4;
  fb_was_free : forall a, in_region (b - header_offset (pool s)) 4 a -> kheap_free (pheap s) a;
  fb_free : forall a, kheap_free h a <-> kheap_free (pheap s) a /\ ~ in_region (b - header_offset (pool s)) 4 a
}.

Lemma kregion_mem (h h' : H) r n : (forall a, kheap_mem h' a <-> kheap_mem h a) -> kregion h r n -> kregion h' r n.
Proof. intros Hm [H1 H2 H3]. constructor; [done|done|]. intros a Ha. apply Hm, H3, Ha. Qed.

Lemma in_region_start r : in_region r 4 r.
Proof. unfold in_region. lia. Qed.

Lemma fresh_not_in s L h b : Inv s L -> fresh_block s h b -> b ∉ L.
Proof.
  intros I F Hb. apply (inv_taken _ _ I b (b - header_offset (pool s)) Hb), (fb_was_free _ _ _ F); apply in_region_start.
Qed.

Lemma fresh_none s L h b : Inv s L -> fresh_block s h b -> blocks s !! b = None.
Proof. intros I F. apply eq_None_not_Some. rewrite <-(inv_dom _ _ I). by eapply fresh_not_in. Qed.

(** A block joins the list. *)
Lemma inv_grow s L h b s' L' :
  Inv s L -> fresh_block s h b -> pheap s' = h -> same_layout (pool s) (pool s') ->
  Kmem.seg (links s') (head (pool s')) L' 0 -> L' ≡ₚ b :: L ->
  (forall x, is_Some (blocks s' !! x) <-> x = b \/ is_Some (blocks s !! x)) ->
  (forall x v, blocks s' !! x = Some v -> bm_wf (bitmap v) (objs_per_block (pool s))) -> Inv s' L'.
Proof.
  intros I F <- Hl Hseg HL Hdom Hbm. pose proof Hl as (_ & E2 & E3 & _). constructor.
  - eapply layout_geometry; [done|apply I].
  - apply F.
  - done.
  - rewrite HL. constructor; [by eapply fresh_not_in|apply I].
  - intros x. by rewrite HL, elem_of_cons, Hdom, (inv_dom _ _ I).
  - by rewrite E2.
  - intros x. rewrite HL, elem_of_cons. intros Hx. eapply layout_place; [done|]. destruct Hx as [->|Hx]; [apply F|by apply (inv_place _ _ I)].
  - intros x. rewrite E3, HL, elem_of_cons. intros [->|Hx]; [apply F|]. eapply kregion_mem; [apply F|]. by apply (inv_region _ _ I).
  - intros x a. rewrite E3, HL, elem_of_cons, (fb_free _ _ _ F). intros Hx Ha [Hf Hn].
    destruct Hx as [->|Hx]; [done|]. by apply (inv_taken _ _ I x a).
Qed.

Context (raw_header : Z -> block_t).

(** The words behind a header are words, and there are enough of them. *)
Definition raw_ok p : Prop :=
  forall b, Forall is_word (bitmap (raw_header b)) /\ BITMAP_SIZE (objs_per_block p) <= Z.of_nat (length (bitmap (raw_header b))).

(** What changes when a block joins the list. *)
Record grown s b s' : Prop := {
  gr_layout : same_layout (pool s) (pool s');
  gr_first : first_free (pool s') = first_free (pool s);
  gr_num : num (pool s') = num (pool s);
  gr_bytes : bytes s' = bytes s;
  gr_new : blocks s !! b = None;
  gr_block : exists v, blocks s' !! b = Some v /\ forall i, 0 <= i < objs_per_block (pool s) -> bm_bit (bitmap v) i = true;
  gr_old : forall x, x <> b -> bitmap <$> blocks s' !! x = bitmap <$> blocks s !! x;
  gr_heap : fresh_block s (pheap s') b
}.

(** How [allocate] uses the heap: new blocks are in memory that was free. *)
Record heap_frame s s' : Prop := {
  hf_mem : forall a, kheap_mem (pheap s') a <-> kheap_mem (pheap s) a;
  hf_free : forall a, kheap_free (pheap s') a -> kheap_free (pheap s) a;
  hf_blocks : forall b, is_Some (blocks s' !! b) ->
    is_Some (blocks s !! b) \/ (forall a, in_region (b - header_offset (pool s)) 4 a -> kheap_free (pheap s) a)
}.

Lemma grown_frame s b s' : grown s b s' -> heap_frame s s'.
Proof.
  intros G. pose proof (gr_heap _ _ _ G) as F. constructor; [apply F|intros a Ha; by apply (fb_free _ _ _ F) in Ha as [? _]|]. intros x Hx.
  destruct (decide (x = b)) as [->|Hne]; [right; apply F|left]. by rewrite <-(fmap_is_Some bitmap), <-(gr_old _ _ _ G), fmap_is_Some.
Qed.

(** The heap has no block to give. *)
Definition no_memory s : Prop := wp (kalloc SMALL_OBJECT_BLOCKSIZE false) (fun r _ => r = 0) (pheap s).

Lemma kalloc_block s L Q :
  Inv s L -> (no_memory s -> Q 0 (pheap s)) ->
  (forall h b, fresh_block s h b -> Q (b - header_offset (pool s)) h) ->
  wp (kalloc SMALL_OBJECT_BLOCKSIZE false) Q (pheap s).
Proof.
  intros I HQ0 HQ. pose proof (kalloc_law (pheap s) SMALL_OBJECT_BLOCKSIZE false (inv_heap _ _ I) ltac:(by vm_compute)) as Hlaw.
  unfold no_memory in HQ0. unfold wp in *. destruct (kalloc SMALL_OBJECT_BLOCKSIZE false (pheap s)) as [r h|]; [|done].
  change (Kmem.chunks_of SMALL_OBJECT_BLOCKSIZE) with 4%nat in Hlaw. destruct Hlaw as (Hok & Hm & [[-> ->]|(Hreg & Hal & Hwas & Hfree)]); [by apply HQ0|].
  replace r with (r + header_offset (pool s) - header_offset (pool s)) by lia. apply HQ.
  pose proof (offset_range _ (inv_geo _ _ I)) as Ho.
  constructor; rewrite ?Z.add_simpl_r; try done; [|by eapply kregion_mem].
  unfold block_place. rewrite Z.add_simpl_r. destruct Hreg as [[H1 _] H2 _]. split_and!; [done| |simpl in H2; lia].
  change (1024 * Z.of_nat 4 - 1) with (Z.ones 12) in Hal. by rewrite Z.land_ones in Hal by lia.
Qed.

Lemma seg_head_in m h L : Kmem.seg m h L 0 -> h <> 0 -> exists B, L = h :: B.
Proof. destruct L as [|x B]; simpl; [done|]. intros [-> _] _. eauto. Qed.

(** The two places a new block goes to. *)
Lemma grow_front s L h b nid bm :
  Inv s L -> fresh_block s h b -> bm_wf bm (objs_per_block (pool s)) -> (forall i, 0 <= i < objs_per_block (pool s) -> bm_bit bm i = true) ->
  let s' := PState (set_head b (pool s)) (<[b := Block (head (pool s)) nid bm]> (blocks s)) (bytes s) h in
  Inv s' (b :: L) /\ grown s b s'.
Proof.
  intros I F Hwf Hbits s'. assert (Hl : same_layout (pool s) (pool s')) by done. split.
  - apply (inv_grow s L h b s'); [done|done|done|done| |done| |].
    + simpl. split; [done|]. exists (head (pool s)). unfold links. simpl. rewrite fmap_insert, lookup_insert_eq. split; [done|].
      eapply Kmem.seg_frame; [|apply I]. intros x Hx. rewrite lookup_insert_ne; [done|]. intros ->. by eapply fresh_not_in.
    + intros x. simpl. rewrite lookup_insert_is_Some'. split; intros [?|?]; eauto.
    + simpl. intros x v [[<- <-]|[_ Hv]]%lookup_insert_Some; [done|]. by eapply I.
  - constructor; try done.
    + by eapply fresh_none.
    + eexists. simpl. split; [apply lookup_insert_eq|done].
    + intros x Hx. simpl. by rewrite lookup_insert_ne.
Qed.

Lemma grow_after s A c B h b vc nid bm :
  Inv s (A ++ c :: B) -> fresh_block s h b -> blocks s !! c = Some vc ->
  bm_wf bm (objs_per_block (pool s)) -> (forall i, 0 <= i < objs_per_block (pool s) -> bm_bit bm i = true) ->
  let s' := PState (pool s) (<[b := Block (bnext vc) nid bm]> (<[c := set_bnext b vc]> (blocks s))) (bytes s) h in
  Inv s' (A ++ c :: b :: B) /\ grown s b s'.
Proof.
  intros I F Hc Hwf Hbits s'. pose proof (fresh_none _ _ _ _ I F) as Hb. pose proof (fresh_not_in _ _ _ _ I F) as Hbn.
  assert (Hbc : b <> c) by congruence. split.
  - apply (inv_grow s (A ++ c :: B) h b s'); [done|done|done|done| | | |].
    + unfold links. simpl. rewrite insert_insert_ne, !fmap_insert by done. simpl.
      apply seg_insert_after; [apply I|apply I|done|]. by rewrite lookup_fmap, Hc.
    + rewrite <-!Permutation_middle. apply Permutation_swap.
    + intros x. simpl. rewrite !lookup_insert_is_Some'. split; [|naive_solver]. intros [->|[<-|?]]; eauto.
    + simpl. intros x v [[<- <-]|[_ [[<- <-]|[_ Hv]]%lookup_insert_Some]]%lookup_insert_Some; [done|exact (inv_bitmap _ _ I c vc Hc)|by eapply I].
  - constructor; try done.
    + eexists. simpl. split; [apply lookup_insert_eq|done].
    + intros x Hx. simpl. rewrite lookup_insert_ne by done. destruct (decide (x = c)) as [->|?]; [by rewrite lookup_insert_eq, Hc|by rewrite lookup_insert_ne].
Qed.

Lemma allocate_block_spec s L :
  Inv s L -> raw_ok (pool s) -> max_objs (pool s) = 0 ->
  wp (allocate_block raw_header) (fun r s' => (r = 0 /\ s' = s /\ no_memory s) \/ (exists L', Inv s' L' /\ grown s r s')) s.
Proof.
  intros I Hraw Hmax. unfold allocate_block. apply wp_bind, wp_field, wp_bind, wp_on_pheap. apply (kalloc_block s L); [done| |].
  { intros Hno. simpl. apply wp_ret. left. by destruct s. }
  intros h b F. destruct (fb_place _ _ _ F) as (Hb0 & _ & Hbw). rewrite (proj2 (Z.eqb_neq _ 0)) by lia.
  pose proof (offset_range _ (inv_geo _ _ I)) as Ho. destruct (Hraw b) as [Hrw Hrl]. pose proof (geo_count _ (inv_geo _ _ I)) as Hn.
  unfold get_block. apply wp_bind, wp_bind, wp_field. apply wp_ret. simpl. rewrite Z.sub_add, u32_word by (unfold is_word, WORD_MOD in *; lia).
  apply wp_bind, wp_modify, wp_bind, wp_field. simpl. apply wp_bind.
  set (hd := head (pool s)).
  assert (Hfront : wp (do! wr b (set_bnext hd) in
      do! upd (set_head b) in
      let! max := field max_objs in
      do! init_block_bitmap b (if negb (max =? 0) && (max <=? objs_per_block (pool s)) then max else objs_per_block (pool s)) in
      ret b) (fun r s' => (r = 0 /\ s' = s /\ no_memory s) \/ (exists L', Inv s' L' /\ grown s r s')) (set_blocks (<[b := raw_header b]> (blocks s)) (set_pheap h s))).
  { apply wp_bind, (wp_wr_block _ _ (raw_header b)); [apply lookup_insert_eq|]. apply wp_bind, wp_upd, wp_bind, wp_field. simpl. rewrite Hmax. simpl.
    apply wp_bind. eapply wp_init_block_bitmap; [apply lookup_insert_eq|done|exact Hrl|exact Hrw|]. intros bm Hwf Hbits. apply wp_ret. simpl.
    rewrite !insert_insert_eq. right. exists (b :: L). exact (grow_front s L h b (bid (raw_header b)) bm I F Hwf Hbits). }
  destruct (Z.eqb_spec hd 0) as [E|E]; [by apply wp_ret|].
  destruct (seg_head_in _ _ _ (inv_seg _ _ I) E) as [B HL]. fold hd in HL.
  assert (Hin : hd ∈ L) by (rewrite HL; apply list_elem_of_here).
  apply (inv_dom _ _ I) in Hin as [vh Hvh]. assert (Hhb : hd <> b) by (intros ->; pose proof (fresh_none _ _ _ _ I F); congruence).
  apply wp_bind, (wp_rd_block _ _ vh); [simpl; by rewrite lookup_insert_ne|]. apply wp_ret.
  destruct (Z.eqb_spec (bid vh) 0) as [_|_]; cbn [negb]; [|done].
  apply wp_bind, (wp_rd_block _ _ vh); [simpl; by rewrite lookup_insert_ne|]. apply wp_bind, wp_gets.
  apply (wp_insert_block _ _ (raw_header b) _ hd B []); cbn [app set_blocks set_pheap blocks pool]; [|rewrite <-HL; apply I| | |apply lookup_insert_eq|done|done|done|done|].
  - rewrite <-HL. unfold links. simpl. eapply Kmem.seg_frame; [|apply I]. intros x Hx. rewrite fmap_insert, lookup_insert_ne; [done|].
    intros ->. by eapply fresh_not_in.
  - rewrite <-HL. intros x Hx. split; [by eapply inv_nonzero|]. intros ->. by eapply fresh_not_in.
  - rewrite map_size_insert_None by (by eapply fresh_none). pose proof (nodup_length_size (blocks s) L (inv_nodup _ _ I)) as Hsz.
    rewrite HL in Hsz. simpl in Hsz. assert (S (length B) <= size (blocks s))%nat; [|lia]. apply Hsz. rewrite <-HL. intros x. apply (inv_dom _ _ I).
  - intros A c B' vc nid bm HA Hc Hwf Hbits. right. rewrite <-HL in HA. rewrite HA in I. exists (A ++ c :: b :: B').
    assert (Hcb : c <> b). { intros ->. apply (fresh_not_in _ _ _ _ I F), elem_of_app. right. apply list_elem_of_here. }
    rewrite lookup_insert_ne in Hc by done.
    rewrite (insert_insert_ne _ c b), insert_insert_eq by done. exact (grow_after s A c B' h b vc nid bm I F Hc Hwf Hbits).
Qed.

(** *** The first block with a free object *)

Lemma inv_length s L : Inv s L -> (length L <= size (blocks s))%nat.
Proof. intros I. apply nodup_length_size; [apply I|]. intros x. apply (inv_dom _ _ I). Qed.

Lemma find_free_spec s L fuel b B :
  Inv s L -> Kmem.seg (links s) b B 0 -> (forall x, x ∈ B -> x ∈ L) -> (length B <= fuel)%nat ->
  wp (find_free fuel b) (fun r s' => s' = s /\ (r = 0 \/ has_free s r)) s.
Proof.
  intros I. revert b B. induction fuel as [|fuel IH]; intros b B Hs Hin Hf.
  { destruct B; [|simpl in Hf; lia]. simpl in Hs. subst. simpl. apply wp_ret. tauto. }
  destruct B as [|x B]; [simpl in Hs; subst; apply wp_ret; tauto|]. destruct Hs as (-> & n & Hn & Hs).
  pose proof (inv_nonzero _ _ _ I (Hin x (list_elem_of_here _ _))) as Hx. unfold links in Hn. rewrite lookup_fmap in Hn. apply fmap_Some in Hn as (v & Hv & ->).
  cbn [find_free]. rewrite (proj2 (Z.eqb_neq _ _) Hx). apply wp_bind, wp_field, wp_bind, (wp_rd_block _ _ v); [done|].
  apply wp_bind. wp_call (bitmap_findfirstset_spec (bitmap v)); [by eapply I|]. cbn beta. intros r s' (-> & [[-> _]|(Hr & Hb & _)]).
  - cbn [Z.eqb Z.opp]. apply wp_bind, (wp_rd_block _ _ v); [done|]. apply (IH _ B); [done|set_solver|simpl in Hf; lia].
  - rewrite (proj2 (Z.eqb_neq _ _)) by lia. apply wp_ret. split; [done|]. right. by exists v, r.
Qed.

Lemma find_free_from s L b :
  Inv s L -> b ∈ L -> wp (find_free (size (blocks s)) b) (fun r s' => s' = s /\ (r = 0 \/ has_free s r)) s.
Proof.
  intros I (A & B & ->)%list_elem_of_split. pose proof (inv_length _ _ I) as Hl. rewrite length_app in Hl.
  pose proof (inv_seg _ _ I) as Hs. apply Kmem.seg_app in Hs as (q & _ & Hs). pose proof Hs as [-> _].
  apply (find_free_spec s _ _ b (b :: B) I); [done|set_solver|lia].
Qed.

(** *** One object changes *)

(** Object [i] of block [b] becomes used ([f] = false) or free. *)
Record one_object s b i (f : bool) s' : Prop := {
  oo_layout : same_layout (pool s) (pool s');
  oo_range : 0 <= i < objs_per_block (pool s);
  oo_block : exists v bm, blocks s !! b = Some v /\ blocks s' = <[b := set_bitmap bm v]> (blocks s) /\
    bm_wf bm (objs_per_block (pool s)) /\ (forall j, 0 <= j -> bm_bit bm j = if j =? i then f else bm_bit (bitmap v) j)
}.

Lemma one_object_used s b i f s' x j :
  one_object s b i f s' -> used s' x j <-> if decide (x = b /\ j = i) then f = false else used s x j.
Proof.
  intros [(_ & E & _) Hi (v & bm & Hv & Hbl & _ & Hbm)]. unfold used. rewrite E, Hbl. destruct (decide (x = b)) as [->|Hx].
  - setoid_rewrite lookup_insert_eq. case_decide as Hd.
    + destruct Hd as [_ ->]. specialize (Hbm i). rewrite Z.eqb_refl in Hbm. split.
      * intros (w & Hw & _ & Hb). injection Hw as <-. simpl in Hb. rewrite Hbm in Hb by lia. done.
      * intros ->. eexists. split; [done|]. split; [done|]. simpl. apply Hbm. lia.
    + assert (Hj : j <> i) by tauto. split; intros (w & Hw & Hr & Hb); simplify_eq; eexists; (split; [done|]); (split; [done|]); simpl in *;
        specialize (Hbm j ltac:(lia)); rewrite (proj2 (Z.eqb_neq _ _) Hj) in Hbm; congruence.
  - setoid_rewrite lookup_insert_ne; [|done..]. case_decide as Hd; [tauto|done].
Qed.

Lemma one_object_inv s L b i f s' :
  Inv s L -> one_object s b i f s' -> head (pool s') = head (pool s) -> pheap s' = pheap s -> Inv s' L.
Proof.
  intros I [(E1 & E2 & E3 & _) Hi (v & bm & Hv & Hbl & Hwf & _)] Eh Ep. apply (Inv_ext s); [done| | |done..].
  - intros x. rewrite Hbl. destruct (decide (x = b)) as [->|?]; [by rewrite lookup_insert_eq, Hv|by rewrite lookup_insert_ne].
  - intros x w. rewrite Hbl. intros [[<- <-]|[_ Hw]]%lookup_insert_Some; [done|by eapply I].
Qed.

Lemma used_word s L b i : Inv s L -> used s b i -> block_place (pool s) b /\ 0 <= i < objs_per_block (pool s).
Proof. intros I (v & Hv & Hi & _). split; [|done]. apply (inv_place _ _ I), (inv_dom _ _ I). by eexists. Qed.

Lemma object_same s L b i b' i' :
  Inv s L -> block_place (pool s) b -> 0 <= i < objs_per_block (pool s) -> used s b' i' ->
  object_at (pool s) b i = object_at (pool s) b' i' -> b = b' /\ i = i'.
Proof. intros I Hb Hi Hu Heq. destruct (used_word _ _ _ _ I Hu). by eapply (object_inj (pool s) (inv_geo _ _ I)). Qed.

Lemma layout_object p p' b i : same_layout p p' -> object_at p' b i = object_at p b i.
Proof. intros (E1 & _ & E3 & _). unfold object_at. by rewrite E1, E3. Qed.

(** The set of objects in use gains or loses this one. *)
Lemma one_object_taken s L b i s' o :
  Inv s L -> one_object s b i false s' -> allocated s' o <-> allocated s o \/ o = object_at (pool s) b i.
Proof.
  intros I O. unfold allocated. setoid_rewrite (one_object_used _ _ _ _ _ _ _ O). setoid_rewrite (layout_object _ _ _ _ (oo_layout _ _ _ _ _ O)). split.
  - intros (x & j & Hu & ->). case_decide as Hd; [destruct Hd as [-> ->]; by right|left; eauto].
  - intros [(x & j & Hu & ->)| ->]; [exists x, j|exists b, i]; (split; [|done]); case_decide; tauto.
Qed.

Lemma one_object_released s L b i s' o :
  Inv s L -> used s b i -> one_object s b i true s' -> allocated s' o <-> allocated s o /\ o <> object_at (pool s) b i.
Proof.
  intros I Hb O. unfold allocated. setoid_rewrite (one_object_used _ _ _ _ _ _ _ O). setoid_rewrite (layout_object _ _ _ _ (oo_layout _ _ _ _ _ O)).
  destruct (used_word _ _ _ _ I Hb) as [Hp Hi]. split.
  - intros (x & j & Hu & ->). case_decide as Hd; [done|]. split; [eauto|]. intros E. symmetry in E.
    destruct (object_same _ _ _ _ _ _ I Hp Hi Hu E) as [-> ->]. tauto.
  - intros [(x & j & Hu & ->) Hne]. exists x, j. split; [|done]. case_decide as Hd; [|done]. by destruct Hd as [-> ->].
Qed.

(** *** [allocate] *)

Definition first_ok s : Prop := first_free (pool s) = 0 \/ has_free s (first_free (pool s)).

Definition cleared (zeroed : bool) (o size : Z) (f f' : Z -> Z) : Prop :=
  forall a, f' a = if zeroed && ((o <=? a) && (a <? o + size)) then 0 else f a.

(** What [allocate] does to a pool that has a free object. *)
Record took s (zeroed : bool) r b i s' : Prop := {
  tk_object : r = object_at (pool s) b i;
  tk_place : block_place (pool s) b;
  tk_was_free : ~ used s b i;
  tk_one : one_object s b i false s';
  tk_head : head (pool s') = head (pool s);
  tk_heap : pheap s' = pheap s;
  tk_first : first_ok s';
  tk_num : num (pool s') = u32 (num (pool s) + 1);
  tk_bytes : cleared zeroed r (obj_size (pool s)) (bytes s) (bytes s')
}.

Lemma wp_get_object s L b i Q :
  Inv s L -> b ∈ L -> 0 <= i < objs_per_block (pool s) -> Q (object_at (pool s) b i) s -> wp (get_object b i) Q s.
Proof.
  intros I Hb Hi HQ. unfold get_object. apply wp_bind, wp_field, wp_bind, wp_field, wp_ret.
  pose proof (inv_place _ _ I b Hb) as Hp. destruct (object_word _ (inv_geo _ _ I) b i Hp Hi) as [_ Hw].
  pose proof (object_range _ (inv_geo _ _ I) i Hi) as Hr. pose proof (offset_range _ (inv_geo _ _ I)). pose proof (geo_size _ (inv_geo _ _ I)). destruct Hp as (? & _ & ?).
  rewrite (u32_word (b - _)), (u32_word (i * _)) by (unfold is_word, WORD_MOD in *; lia). rewrite u32_word; [done|exact Hw].
Qed.

Lemma has_free_in s L b : Inv s L -> has_free s b -> b ∈ L.
Proof. intros I (v & i & Hv & _). apply (inv_dom _ _ I). by eexists. Qed.

Lemma has_free_ext s s' b : blocks s' = blocks s -> objs_per_block (pool s') = objs_per_block (pool s) -> has_free s b -> has_free s' b.
Proof. intros E1 E2. unfold has_free. by rewrite E1, E2. Qed.

Lemma allocate_tail s L zeroed :
  Inv s L -> has_free s (first_free (pool s)) ->
  wp (let! ff := field first_free in
      if ff =? 0 then ret 0
      else
        let! per_block := field objs_per_block in
        let! bm := rd ff bitmap in
        let! position := bitmap_findfirstset bm per_block in
        do! ASSERT (negb (position =? -1)) in
        let! object := get_object ff position in
        let! bm := bitmap_clear bm position in
        do! wr ff (set_bitmap bm) in
        let! fuel := gets (fun s => size (blocks s)) in
        let! ff := find_free fuel ff in
        do! upd (set_first_free ff) in
        do! upd (fun p => set_num (u32 (num p + 1)) p) in
        let! size := field obj_size in
        do! (when zeroed do clear_bytes object size) in
        ret object)
    (fun r s' => exists b i, took s zeroed r b i s') s.
Proof.
  intros I Hff. set (b := first_free (pool s)) in *. pose proof (has_free_in _ _ _ I Hff) as Hb.
  apply wp_bind, wp_field. fold b. rewrite (proj2 (Z.eqb_neq _ _) (inv_nonzero _ _ _ I Hb)).
  destruct Hff as (v & i0 & Hv & Hi0 & Hbit0). pose proof (inv_bitmap _ _ I b v Hv) as Hwf.
  apply wp_bind, wp_field, wp_bind, (wp_rd_block _ _ v); [done|]. apply wp_bind. wp_call (bitmap_findfirstset_spec (bitmap v)); [done|].
  cbn beta. intros i s' (-> & [[_ Hno]|(Hi & Hbit & _)]); [by rewrite Hno in Hbit0|]. apply wp_bind, wp_ASSERT.
  { by rewrite (proj2 (Z.eqb_neq _ _)) by lia. }
  apply wp_bind, (wp_get_object s L); [done|done|done|]. apply wp_bind. wp_call (bitmap_clear_spec (bitmap v) (objs_per_block (pool s))); [done|done|].
  cbn beta. intros bm s' (-> & Hwf' & Hbm). apply wp_bind, (wp_wr_block _ _ v); [done|].
  set (s1 := set_blocks (<[b := set_bitmap bm v]> (blocks s)) s).
  assert (O : one_object s b i false s1) by (constructor; [done|done|by exists v, bm]).
  pose proof (one_object_inv _ _ _ _ _ _ I O eq_refl eq_refl) as I1. apply wp_bind, wp_gets, wp_bind.
  eapply wp_mono; [by apply (find_free_from s1 L b)|]. cbn beta. intros ff s' [-> Hff]. apply wp_bind, wp_upd, wp_bind, wp_upd, wp_bind, wp_field.
  set (s2 := set_pool _ _). assert (Hfin : forall f, cleared zeroed (object_at (pool s) b i) (obj_size (pool s)) (bytes s) f ->
    exists b' i', took s zeroed (object_at (pool s) b i) b' i' (set_bytes f s2)).
  { intros f Hf. exists b, i. constructor; try done; [by apply (inv_place _ _ I)| |].
    - intros (w & Hw & _ & Hw'). rewrite Hv in Hw. injection Hw as <-. congruence.
    - destruct O as [O1 O2 O3]. by constructor. }
  apply wp_bind. destruct zeroed.
  - unfold clear_bytes. apply wp_modify, wp_ret. apply Hfin. done.
  - apply wp_ret, wp_ret. specialize (Hfin (bytes s)). by apply Hfin.
Qed.

(** The pool, as its clients see it. *)
Definition PoolOk s : Prop :=
  (exists L, Inv s L) /\ first_ok s /\ max_objs (pool s) = 0 /\ objs_per_block (pool s) mod BITS_WORD <> 0.

(** [r] is an object that was not in use. *)
Record new_object s (zeroed : bool) r s' : Prop := {
  no_address : 0 < r < WORD_MOD;
  no_fresh : ~ allocated s r;
  no_set : forall o, allocated s' o <-> allocated s o \/ o = r;
  no_disjoint : forall o, allocated s o -> o + obj_size (pool s) <= r \/ r + obj_size (pool s) <= o;
  no_memory_of : forall a, r <= a < r + obj_size (pool s) -> kheap_mem (pheap s') a /\ ~ kheap_free (pheap s') a;
  no_bytes : cleared zeroed r (obj_size (pool s)) (bytes s) (bytes s');
  no_num : num (pool s') = u32 (num (pool s) + 1)
}.

Lemma took_new s L zeroed r b i s' :
  Inv s L -> b ∈ L -> took s zeroed r b i s' -> new_object s zeroed r s'.
Proof.
  intros I Hb [-> Hp Hu O Hh He _ Hn Hby]. pose proof (oo_range _ _ _ _ _ O) as Hi.
  pose proof (object_word _ (inv_geo _ _ I) b i Hp Hi) as [Hw1 Hw2].
  assert (Hnew : ~ allocated s (object_at (pool s) b i)).
  { intros (x & j & Hx & Heq). destruct (object_same _ _ _ _ _ _ I Hp Hi Hx Heq) as [-> ->]. done. }
  constructor; [destruct Hw2; lia|done|intros o; by eapply one_object_taken| | |done|done].
  - intros o (x & j & Hx & ->). destruct (used_word _ _ _ _ I Hx) as [Hpx Hj].
    apply (object_disjoint _ (inv_geo _ _ I)); [done..|]. intros E. apply Hnew. by exists x, j.
  - intros a Ha. rewrite He. assert (Hr : in_region (b - header_offset (pool s)) 4 a).
    { pose proof (object_range _ (inv_geo _ _ I) i Hi). pose proof (offset_range _ (inv_geo _ _ I)). unfold in_region, object_at in *. lia. }
    split; [by apply (kr_mem _ _ _ (inv_region _ _ I b Hb))|by apply (inv_taken _ _ I b a Hb)].
Qed.

Lemma grown_allocated s b s' o : grown s b s' -> allocated s' o <-> allocated s o.
Proof.
  intros [Hl _ _ _ Hn (v & Hv & Hbits) Ho]. assert (Hu : forall x j, used s' x j <-> used s x j).
  { intros x j. unfold used. pose proof Hl as (_ & -> & _). destruct (decide (x = b)) as [->|Hx].
    - rewrite Hn, Hv. split; intros (w & Hw & Hj & Hb); simplify_eq. by rewrite Hbits in Hb.
    - specialize (Ho x Hx). destruct (blocks s' !! x) as [w'|], (blocks s !! x) as [w|]; simpl in Ho; simplify_eq; [|done].
      split; intros (z & Hz & Hj & Hb); simplify_eq; eexists; (split; [done|]); (split; [done|]); congruence. }
  unfold allocated. setoid_rewrite Hu. by setoid_rewrite (layout_object _ _ _ _ Hl).
Qed.

Lemma layout_trans p1 p2 p3 : same_layout p1 p2 -> same_layout p2 p3 -> same_layout p1 p3.
Proof. unfold same_layout. intuition congruence. Qed.

Lemma took_ok s L zeroed r b i s' :
  Inv s L -> max_objs (pool s) = 0 -> objs_per_block (pool s) mod BITS_WORD <> 0 -> took s zeroed r b i s' -> PoolOk s'.
Proof.
  intros I Hm Hp [_ _ _ O Hh He Hf _ _]. pose proof (oo_layout _ _ _ _ _ O) as (_ & E2 & _ & E4). split_and!; [|done|congruence|congruence].
  exists L. by eapply one_object_inv.
Qed.

Lemma took_in s L zeroed r b i s' : Inv s L -> took s zeroed r b i s' -> b ∈ L.
Proof. intros I [_ _ _ [_ _ (v & bm & Hv & _)] _ _ _ _ _]. apply (inv_dom _ _ I). by eexists. Qed.

Lemma one_object_dom s b i f s' x : one_object s b i f s' -> is_Some (blocks s' !! x) <-> is_Some (blocks s !! x).
Proof.
  intros [_ _ (v & bm & Hv & -> & _)]. rewrite lookup_insert_is_Some'. split; [intros [<-|?]; [by rewrite Hv|done]|by right].
Qed.

Lemma took_frame s zeroed r b i s' : took s zeroed r b i s' -> heap_frame s s'.
Proof.
  intros [_ _ _ O _ He _ _ _]. constructor; rewrite ?He; [done|done|]. intros x Hx. left. by apply (one_object_dom _ _ _ _ _ x O).
Qed.

Lemma frame_trans s1 s2 s3 : same_layout (pool s1) (pool s2) -> heap_frame s1 s2 -> heap_frame s2 s3 -> heap_frame s1 s3.
Proof.
  intros (_ & _ & E & _) [M1 F1 B1] [M2 F2 B2]. constructor.
  - intros a. by rewrite M2.
  - auto.
  - intros b Hb. destruct (B2 b Hb) as [?|Hf]; [by apply B1|right]. intros a Ha. apply F1, Hf. by rewrite E.
Qed.

Definition allocate_post s (zeroed : bool) r s' : Prop :=
  PoolOk s' /\ same_layout (pool s) (pool s') /\ heap_frame s s' /\
  ((r = 0 /\ s' = s /\ first_free (pool s) = 0 /\ no_memory s) \/ new_object s zeroed r s').

Lemma small_allocate_spec s zeroed :
  PoolOk s -> raw_ok (pool s) -> wp (allocate raw_header zeroed) (allocate_post s zeroed) s.
Proof.
  intros (HI & Hff & Hm & Hp) Hraw. destruct HI as [L I].
  unfold allocate. apply wp_bind, wp_field, wp_bind, wp_field. rewrite Hm. cbn [Z.eqb negb andb]. apply wp_bind, wp_field, wp_bind.
  destruct (Z.eqb_spec (first_free (pool s)) 0) as [E|E].
  - apply wp_bind. eapply wp_mono; [by apply (allocate_block_spec s L)|]. cbn beta. intros b s1 [(-> & -> & Hno)|(L1 & I1 & G)]; apply wp_upd.
    + apply wp_bind, wp_field. simpl. apply wp_ret. assert (set_pool (set_first_free 0 (pool s)) s = s) as ->.
      { destruct s as [[]]. simpl in *. by subst. }
      split_and!; [split_and!; eauto|done|by constructor; auto|by left].
    + set (s2 := set_pool (set_first_free b (pool s1)) s1). assert (I2 : Inv s2 L1) by (apply (Inv_ext s1); [done|done|apply I1|done..]).
      pose proof G as [(E1 & E2 & E3 & E4) _ Gn Gb _ (v & Hv & Hbits) _].
      assert (Hf2 : has_free s2 (first_free (pool s2))).
      { pose proof (geo_count _ (inv_geo _ _ I)). exists v, 0. simpl. rewrite E2. split_and!; [done|lia|lia|]. apply Hbits. lia. }
      assert (Ha : forall o, allocated s2 o <-> allocated s o) by exact (fun o => grown_allocated _ _ _ o G).
      eapply wp_mono; [by apply (allocate_tail s2 L1)|]. cbn beta. intros r s' (b' & i & T). split_and!.
      * eapply took_ok; [exact I2|simpl; congruence|simpl; congruence|done].
      * eapply layout_trans; [exact (gr_layout _ _ _ G)|]. apply (oo_layout _ _ _ _ _ (tk_one _ _ _ _ _ _ T)).
      * apply (frame_trans s s2); [exact (gr_layout _ _ _ G)| |exact (took_frame _ _ _ _ _ _ T)]. by destruct (grown_frame _ _ _ G).
      * right. destruct (took_new _ _ _ _ _ _ _ I2 (took_in _ _ _ _ _ _ _ I2 T) T) as [N1 N2 N3 N4 N5 N6 N7]. simpl in *.
        setoid_rewrite Ha in N3. setoid_rewrite Ha in N4. rewrite E1 in *. constructor; [done|by rewrite <-Ha|done|done|done|by rewrite <-Gb|congruence].
  - destruct Hff as [?|Hff]; [done|]. apply wp_ret. eapply wp_mono; [by apply (allocate_tail s L)|]. cbn beta. intros r s' (b' & i & T). split_and!.
    + by eapply took_ok.
    + apply (oo_layout _ _ _ _ _ (tk_one _ _ _ _ _ _ T)).
    + by eapply took_frame.
    + right. eapply took_new; [done|by eapply took_in|done].
Qed.

(** *** [free] *)

Lemma find_before_spec s fuel b cur A B :
  Kmem.seg (links s) (head (pool s)) (A ++ cur :: B) 0 -> (forall x, x ∈ B -> x <> 0) -> b ∈ B -> (length B <= fuel)%nat ->
  wp (find_before fuel b cur) (fun r s' => s' = s /\ exists A' B', A ++ cur :: B = A' ++ r :: b :: B') s.
Proof.
  revert cur A B. induction fuel as [|fuel IH]; intros cur A B Hs Hnz Hb Hf; (destruct B as [|d B]; [by apply elem_of_nil in Hb|]); [simpl in Hf; lia|].
  pose proof Hs as Hs0. apply Kmem.seg_app in Hs0 as (q & _ & -> & n & Hn & -> & _). unfold links in Hn. rewrite lookup_fmap in Hn.
  apply fmap_Some in Hn as (v & Hv & Hd). cbn [find_before]. apply wp_bind, (wp_rd_block _ _ v); [done|]. rewrite <-Hd.
  rewrite (proj2 (Z.eqb_neq d 0)) by (apply Hnz, list_elem_of_here). cbn [orb]. destruct (Z.eqb_spec d b) as [->|Hne].
  - apply wp_ret. split; [done|]. by exists A, B.
  - apply elem_of_cons in Hb as [->|Hb]; [done|]. specialize (IH d (A ++ [cur]) B). rewrite <-app_assoc in IH.
    apply IH; [done|set_solver|done|simpl in Hf; lia].
Qed.

(** What changes when a block leaves the list. *)
Record shrunk s b s' : Prop := {
  sh_layout : same_layout (pool s) (pool s');
  sh_first : first_free (pool s') = first_free (pool s);
  sh_num : num (pool s') = num (pool s);
  sh_bytes : bytes s' = bytes s;
  sh_gone : blocks s' !! b = None;
  sh_old : forall x, x <> b -> bitmap <$> blocks s' !! x = bitmap <$> blocks s !! x;
  sh_ok : kheap_ok (pheap s');
  sh_mem : forall a, kheap_mem (pheap s') a <-> kheap_mem (pheap s) a;
  sh_free : forall a, kheap_free (pheap s') a <-> kheap_free (pheap s) a \/ in_region (b - header_offset (pool s)) 4 a
}.

Lemma inv_shrink s L b s' L' :
  Inv s L -> shrunk s b s' -> Kmem.seg (links s') (head (pool s')) L' 0 -> L ≡ₚ b :: L' -> Inv s' L'.
Proof.
  intros I S Hseg HL. pose proof (sh_layout _ _ _ S) as Hl. pose proof Hl as (_ & E2 & E3 & _).
  assert (Hnd : NoDup (b :: L')) by (rewrite <-HL; apply I). apply NoDup_cons in Hnd as [Hb Hnd].
  assert (Hin : forall x, x ∈ L' -> x ∈ L /\ x <> b) by (intros x Hx; split; [rewrite HL; by right|by intros ->]).
  assert (HbL : b ∈ L) by (rewrite HL; left). constructor.
  - eapply layout_geometry; [done|apply I].
  - apply S.
  - done.
  - done.
  - intros x. destruct (decide (x = b)) as [->|Hx].
    + rewrite (sh_gone _ _ _ S). split; [done|by intros [? ?]].
    + rewrite <-(fmap_is_Some bitmap), (sh_old _ _ _ S x Hx), fmap_is_Some, <-(inv_dom _ _ I), HL, elem_of_cons. tauto.
  - intros x v Hv. rewrite E2. destruct (decide (x = b)) as [->|Hx]; [by rewrite (sh_gone _ _ _ S) in Hv|].
    pose proof (sh_old _ _ _ S x Hx) as Ho. rewrite Hv in Ho. symmetry in Ho. apply fmap_Some in Ho as (w & Hw & ->). by eapply I.
  - intros x Hx. eapply layout_place; [done|]. apply (inv_place _ _ I). by apply Hin.
  - intros x Hx. rewrite E3. eapply kregion_mem; [apply S|]. apply (inv_region _ _ I). by apply Hin.
  - intros x a Hx Ha. rewrite E3 in Ha. destruct (Hin x Hx) as [HxL Hxb]. rewrite (sh_free _ _ _ S). intros [Hf|Hr]; [by apply (inv_taken _ _ I x a)|].
    by apply (block_apart (pool s) b x a); [apply (inv_place _ _ I)|apply (inv_place _ _ I)|intros ->| |].
Qed.

Lemma free_block_rest s1 s L b Q :
  Inv s L -> b ∈ L -> pheap s1 = pheap s -> header_offset (pool s1) = header_offset (pool s) ->
  (forall h, kheap_ok h -> (forall a, kheap_mem h a <-> kheap_mem (pheap s) a) ->
     (forall a, kheap_free h a <-> kheap_free (pheap s) a \/ in_region (b - header_offset (pool s)) 4 a) ->
     Q tt (PState (pool s1) (delete b (blocks s1)) (bytes s1) h)) ->
  wp (let! base := get_block_base b in
      do! on_pheap (kfree base SMALL_OBJECT_BLOCKSIZE) in
      modify (fun s => set_blocks (delete b (blocks s)) s)) Q s1.
Proof.
  intros I Hb Eh Eo HQ. unfold get_block_base. apply wp_bind, wp_bind, wp_field, wp_ret. rewrite Eo.
  destruct (inv_place _ _ I b Hb) as (? & _ & ?). rewrite u32_word by (unfold is_word, WORD_MOD in *; lia).
  apply wp_bind, wp_on_pheap. rewrite Eh. eapply wp_mono.
  - apply (kfree_law (pheap s) (b - header_offset (pool s)) SMALL_OBJECT_BLOCKSIZE 4); [apply I|done|done|by apply (inv_region _ _ I)|].
    intros a. by apply (inv_taken _ _ I).
  - cbn beta. intros _ h (K1 & K2 & K3). by apply wp_modify, HQ.
Qed.

Lemma free_block_spec s L b :
  Inv s L -> b ∈ L -> wp (free_block b) (fun _ s' => exists L', Inv s' L' /\ shrunk s b s') s.
Proof.
  intros I Hb. pose proof (proj1 (inv_dom _ _ I b) Hb) as [v Hv]. unfold free_block. apply wp_bind, wp_field, wp_bind.
  pose proof (inv_seg _ _ I) as Hs. destruct L as [|h B]; [by apply elem_of_nil in Hb|]. pose proof Hs as (Hh & n & Hn & HB). rewrite Hh.
  pose proof (inv_nodup _ _ I) as Hnd. apply NoDup_cons in Hnd as Hnd'. destruct Hnd' as [HhB _].
  destruct (Z.eqb_spec h b) as [->|Hne].
  - apply wp_bind, (wp_rd_block _ _ v); [done|]. apply wp_upd. apply (free_block_rest _ s (b :: B)); [done|done|done|done|]. intros h H1 H2 H3. exists B.
    set (s' := PState _ _ _ _). assert (S : shrunk s b s').
    { constructor; try done; [by apply lookup_delete_eq|]. intros x Hx. simpl. by rewrite lookup_delete_ne. }
    split; [|done]. eapply inv_shrink; [done|done| |done]. unfold links in *. simpl. rewrite lookup_fmap, Hv in Hn. injection Hn as ->.
    eapply Kmem.seg_frame; [|exact HB]. intros x Hx. rewrite fmap_delete, lookup_delete_ne; [done|]. by intros ->.
  - apply elem_of_cons in Hb as Hb'. destruct Hb' as [->|HbB]; [done|]. apply wp_bind, wp_gets, wp_bind.
    eapply wp_mono; [apply (find_before_spec s _ b h [] B); [done| |done|]|].
    + intros x Hx. apply (inv_nonzero _ _ _ I). by right.
    + pose proof (inv_length _ _ I) as Hl. simpl in Hl. lia.
    + cbn beta. intros c s' (-> & A & B' & HL). cbn [app] in HL. rewrite HL in *.
      destruct (proj1 (inv_dom _ _ I c)) as [vc Hvc]; [set_solver|].
      assert (Hcb : c <> b). { intros ->. apply NoDup_app in Hnd as (_ & _ & [Hd _]%NoDup_cons). apply Hd. left. }
      apply wp_bind, (wp_rd_block _ _ v); [done|]. apply (wp_wr_block _ _ vc); [done|].
      apply (free_block_rest _ s (A ++ c :: b :: B')); [done|done|done|done|]. intros h' H1 H2 H3. exists (A ++ c :: B'). set (s' := PState _ _ _ _).
      assert (S : shrunk s b s').
      { constructor; try done; [by apply lookup_delete_eq|]. intros x Hx. simpl. rewrite lookup_delete_ne by done.
        destruct (decide (x = c)) as [->|?]; [by rewrite lookup_insert_eq, Hvc|by rewrite lookup_insert_ne]. }
      split; [|done]. eapply inv_shrink; [done|done| |].
      * unfold links. simpl. rewrite fmap_delete, fmap_insert. apply seg_remove_after; [exact Hs|done|]. unfold links. by rewrite lookup_fmap, Hv.
      * rewrite <-!Permutation_middle. apply Permutation_swap.
Qed.

Lemma shrunk_allocated s b s' o :
  shrunk s b s' -> (forall i, ~ used s b i) -> allocated s' o <-> allocated s o.
Proof.
  intros S Hno. assert (Hu : forall x j, used s' x j <-> used s x j).
  { intros x j. destruct (decide (x = b)) as [->|Hx].
    - split; [|by intros ?%Hno]. intros (w & Hw & _). by rewrite (sh_gone _ _ _ S) in Hw.
    - unfold used. pose proof (sh_layout _ _ _ S) as (_ & -> & _). pose proof (sh_old _ _ _ S x Hx) as Ho.
      destruct (blocks s' !! x) as [w'|], (blocks s !! x) as [w|]; simpl in Ho; simplify_eq; [|done].
      split; intros (z & Hz & Hj & Hb); simplify_eq; eexists; (split; [done|]); (split; [done|]); congruence. }
  unfold allocated. setoid_rewrite Hu. by setoid_rewrite (layout_object _ _ _ _ (sh_layout _ _ _ S)).
Qed.

Lemma one_object_has_free s b i s' x : one_object s b i true s' -> has_free s x \/ x = b -> has_free s' x.
Proof.
  intros [(_ & E & _) Hi (v & bm & Hv & Hbl & _ & Hbm)] Hx. unfold has_free. rewrite E, Hbl. destruct (decide (x = b)) as [->|Hxb].
  - exists (set_bitmap bm v), i. rewrite lookup_insert_eq. split_and!; [done|lia|lia|]. simpl. rewrite Hbm by lia. by rewrite Z.eqb_refl.
  - rewrite lookup_insert_ne by done. by destruct Hx.
Qed.

(** The heap after [free]: as before, or with the object's block given back. *)
Definition heap_after s (o : Z) s' : Prop :=
  pheap s' = pheap s \/
  ((forall a, kheap_mem (pheap s') a <-> kheap_mem (pheap s) a) /\
   (forall a, kheap_free (pheap s') a <-> kheap_free (pheap s) a \/ in_region (get_object_base o) 4 a) /\
   (forall x, allocated s' x -> ~ in_region (get_object_base o) 4 x)).

Record free_post s o s' : Prop := {
  fp_ok : PoolOk s';
  fp_layout : same_layout (pool s) (pool s');
  fp_set : forall x, allocated s' x <-> allocated s x /\ x <> o;
  fp_bytes : bytes s' = bytes s;
  fp_num : num (pool s') = u32 (num (pool s) - 1);
  fp_blocks : forall b, is_Some (blocks s' !! b) -> is_Some (blocks s !! b);
  fp_heap : heap_after s o s'
}.

(** The state before [num] is decreased. *)
Record almost_freed s o s' : Prop := {
  af_inv : exists L, Inv s' L;
  af_first : first_ok s';
  af_layout : same_layout (pool s) (pool s');
  af_set : forall x, allocated s' x <-> allocated s x /\ x <> o;
  af_bytes : bytes s' = bytes s;
  af_num : num (pool s') = num (pool s);
  af_blocks : forall b, is_Some (blocks s' !! b) -> is_Some (blocks s !! b);
  af_heap : heap_after s o s'
}.

Lemma almost_done s o s' : PoolOk s -> almost_freed s o s' -> wp (upd (fun p => set_num (u32 (num p - 1)) p)) (fun _ s' => free_post s o s') s'.
Proof.
  intros (_ & _ & Hm & Hp) [[L I] Hf Hl Hs Hb Hn Hd Hh]. apply wp_upd. pose proof Hl as (_ & E2 & _ & E4). constructor.
  - split_and!; [exists L; by apply (Inv_ext s'); [|..|apply I| | | | |]|exact Hf|simpl; congruence|simpl; congruence].
  - exact Hl.
  - exact Hs.
  - exact Hb.
  - simpl. by rewrite Hn.
  - exact Hd.
  - exact Hh.
Qed.

(** [first_free] after the block it named is gone. *)
Lemma first_free_again s b Q :
  (exists L, Inv s L) -> ((first_free (pool s) = b /\ blocks s !! b = None) \/ (first_free (pool s) <> b /\ has_free s (first_free (pool s)))) ->
  (forall ff, first_ok (set_pool (set_first_free ff (pool s)) s) -> Q tt (set_pool (set_first_free ff (pool s)) s)) ->
  wp (when first_free (pool s) =? b do
        let! h := field head in
        let! fuel := gets (fun s => size (blocks s)) in
        let! ff := find_free fuel h in
        upd (set_first_free ff)) Q s.
Proof.
  intros [L I] Hff HQ. destruct (Z.eqb_spec (first_free (pool s)) b) as [E|E].
  - apply wp_bind, wp_field, wp_bind, wp_gets, wp_bind.
    eapply wp_mono; [apply (find_free_spec s L _ _ L); [done|apply I|done|by apply inv_length]|]. cbn beta. intros ff s' [-> Hf]. apply wp_upd, HQ. exact Hf.
  - apply wp_ret. destruct Hff as [[? _]|[_ Hf]]; [done|]. specialize (HQ (first_free (pool s))).
    assert (set_pool (set_first_free (first_free (pool s)) (pool s)) s = s) as E' by (by destruct s as [[]]). rewrite E' in HQ. apply HQ. by right.
Qed.

(** *** The block and the number of an object *)

Lemma wp_block_of s L b i Q :
  Inv s L -> b ∈ L -> 0 <= i < objs_per_block (pool s) -> Q b s -> wp (get_block (get_object_base (object_at (pool s) b i))) Q s.
Proof.
  intros I Hb Hi HQ. pose proof (inv_place _ _ I b Hb) as Hp. rewrite (object_base _ (inv_geo _ _ I)) by done.
  unfold get_block. apply wp_bind, wp_field, wp_ret. rewrite Z.sub_add. pose proof (offset_range _ (inv_geo _ _ I)). destruct Hp as (? & _ & ?).
  rewrite u32_word; [done|unfold is_word, WORD_MOD in *; lia].
Qed.

Lemma wp_id s L b i v Q :
  Inv s L -> blocks s !! b = Some v -> 0 <= i < objs_per_block (pool s) -> Q (u32 (i + bid v)) s -> wp (id (object_at (pool s) b i)) Q s.
Proof.
  intros I Hv Hi HQ. assert (Hb : b ∈ L) by (apply (inv_dom _ _ I); by eexists). pose proof (inv_place _ _ I b Hb) as Hp.
  unfold id. apply wp_bind, (wp_block_of s L); [done..|]. apply wp_bind, wp_field, wp_bind, (wp_rd_block _ _ v); [done|]. apply wp_ret.
  rewrite (object_base _ (inv_geo _ _ I)) by done. pose proof (object_range _ (inv_geo _ _ I) i Hi) as Hr.
  pose proof (offset_range _ (inv_geo _ _ I)). pose proof (geo_size _ (inv_geo _ _ I)).
  rewrite (u32_word (object_at _ _ _ - _)); [|unfold object_at, is_word, WORD_MOD; lia]. rewrite (object_number _ (inv_geo _ _ I)) by lia. done.
Qed.

Lemma index_of_id i n : is_word i -> u32 (u32 (i + n) - n) = i.
Proof. intros Hi. unfold u32. rewrite Zminus_mod_idemp_l, Z.add_simpl_r. by apply Z.mod_small. Qed.

Lemma objs_bound p : geometry p -> objs_per_block p < 4096.
Proof. intros G. pose proof (offset_range _ G). destruct G as [G1 G2 G3 _]. nia. Qed.

Lemma freed_heap s L b s1 s2 o i :
  Inv s L -> used s b i -> o = object_at (pool s) b i -> one_object s b i true s1 -> pheap s1 = pheap s -> shrunk s1 b s2 -> (exists L', Inv s2 L') ->
  heap_after s o s2.
Proof.
  intros I Hu -> O Eh S [L' I']. right. destruct (used_word _ _ _ _ I Hu) as [Hp Hi]. rewrite (object_base _ (inv_geo _ _ I)) by done.
  pose proof (oo_layout _ _ _ _ _ O) as Hl. pose proof Hl as (_ & _ & E3 & _). pose proof (layout_trans _ _ _ Hl (sh_layout _ _ _ S)) as Hl2.
  pose proof Hl2 as (F1 & F2 & F3 & _). split_and!.
  - intros a. by rewrite (sh_mem _ _ _ S), Eh.
  - intros a. by rewrite (sh_free _ _ _ S), Eh, E3.
  - intros x (c & j & Hc & ->). destruct (used_word _ _ _ _ I' Hc) as [Hpc Hj]. assert (Hcb : c <> b).
    { intros ->. destruct Hc as (w & Hw & _). by rewrite (sh_gone _ _ _ S) in Hw. }
    apply (block_apart (pool s) c b); [eapply layout_place; [|done]|done|done|].
    + unfold same_layout in *. intuition congruence.
    + pose proof (object_range _ (inv_geo _ _ I') j Hj). pose proof (offset_range _ (inv_geo _ _ I')). pose proof (geo_size _ (inv_geo _ _ I')).
      unfold object_at, in_region. rewrite F3 in *. lia.
Qed.

Lemma small_free_spec s o : PoolOk s -> allocated s o -> wp (free o) (fun _ s' => free_post s o s') s.
Proof.
  intros Hok (b & i & Hu & Ho). pose proof Hok as ([L I] & Hff & Hm & Hpb). destruct (used_word _ _ _ _ I Hu) as [Hp Hi]. pose proof Hu as (v & Hv & _).
  assert (Hb : b ∈ L) by (apply (inv_dom _ _ I); by eexists). destruct (object_word _ (inv_geo _ _ I) b i Hp Hi) as [Ho0 _]. rewrite <-Ho in Ho0.
  unfold free. apply wp_bind, wp_ASSERT; [by rewrite (proj2 (Z.eqb_neq _ _)) by lia|]. rewrite Ho.
  apply wp_bind, (wp_block_of s L); [done..|]. apply wp_bind, (wp_id s L _ _ v); [done..|]. apply wp_bind, (wp_rd_block _ _ v); [done|].
  apply wp_bind, (wp_rd_block _ _ v); [done|]. pose proof (objs_bound _ (inv_geo _ _ I)). rewrite index_of_id by (unfold is_word, WORD_MOD; lia).
  apply wp_bind. wp_call (bitmap_set_spec (bitmap v) (objs_per_block (pool s))); [by eapply I|done|]. cbn beta. intros bm s' (-> & Hwf & Hbm).
  apply wp_bind, (wp_wr_block _ _ v); [done|]. set (s1 := set_blocks _ _).
  assert (O : one_object s b i true s1) by (constructor; [done|done|by exists v, bm]). pose proof (one_object_inv _ _ _ _ _ _ I O eq_refl eq_refl) as I1.
  assert (Hdom : forall x, is_Some (blocks s1 !! x) -> is_Some (blocks s !! x)) by (intros x; by apply (one_object_dom _ _ _ _ _ x O)).
  pose proof (fun x => one_object_released _ _ _ _ _ x I Hu O) as Hrel. rewrite <-Ho in Hrel |- *.
  assert (Hearly : wp (do! upd (set_first_free b) in upd (fun p => set_num (u32 (num p - 1)) p)) (fun _ s' => free_post s o s') s1).
  { apply wp_bind, wp_upd, almost_done; [done|]. constructor; try done; [exists L; by apply (Inv_ext s1); [|..|apply I1| | | | |]| |by left].
    right. apply (one_object_has_free s b i s1 b O). by right. }
  apply wp_bind, wp_field, wp_bind. change (pool s1) with (pool s). destruct (Z.eqb_spec (first_free (pool s)) 0) as [E|E]; [by apply wp_ret|].
  destruct Hff as [?|Hff]; [done|]. pose proof (one_object_has_free _ _ _ _ _ O (or_introl Hff)) as Hff1. pose proof Hff1 as (vf & _ & Hvf & _).
  apply wp_bind, (wp_rd_block _ _ vf); [done|]. apply wp_ret. destruct (bid v <? bid vf); [done|].
  apply wp_bind, wp_field, wp_bind. wp_call (bitmap_isallset_spec bm (objs_per_block (pool s))); [done|done|]. cbn beta. intros un s' [-> Hun].
  destruct un; apply wp_bind; [|apply wp_ret, almost_done; [done|]; constructor; try done; [by exists L|by right|by left]].
  pose proof (proj1 Hun eq_refl) as Hall. apply wp_bind. eapply wp_mono; [by apply (free_block_spec s1 L b)|]. cbn beta. intros _ s2 (L2 & I2 & S).
  assert (Hno : forall j, ~ used s1 b j).
  { intros j (w & Hw & Hj & Hbit). simpl in Hw. rewrite lookup_insert_eq in Hw. injection Hw as <-. simpl in Hbit, Hj. by rewrite Hall in Hbit. }
  rewrite <-(sh_first _ _ _ S : _ = first_free (pool s)). apply first_free_again; [by exists L2| |].
  - rewrite (sh_first _ _ _ S). destruct (Z.eq_dec (first_free (pool s1)) b) as [Eb|Eb]; [left; split; [done|apply S]|right; split; [done|]].
    destruct Hff1 as (w & j & Hw & Hj & Hbit). pose proof (sh_old _ _ _ S _ Eb) as Hold. change (first_free (pool s1)) with (first_free (pool s)) in *.
    rewrite Hw in Hold. apply fmap_Some in Hold as (w' & Hw' & Hbm').
    exists w', j. pose proof (sh_layout _ _ _ S) as (_ & -> & _). by rewrite <-Hbm'.
  - intros ff Hfirst. apply almost_done; [done|]. pose proof (sh_layout _ _ _ S) as Hl. constructor; [|done|exact Hl| |exact (sh_bytes _ _ _ S)|exact (sh_num _ _ _ S)| |].
    + exists L2. by apply (Inv_ext s2); [|..|apply I2| | | | |].
    + intros x. rewrite <-Hrel. exact (shrunk_allocated _ _ _ _ S Hno).
    + intros x Hx. apply Hdom. destruct (decide (x = b)) as [->|Hne]; [|by rewrite <-(fmap_is_Some bitmap), <-(sh_old _ _ _ S _ Hne), fmap_is_Some].
      simpl in Hx. rewrite (sh_gone _ _ _ S) in Hx. by destruct Hx.
    + exact (freed_heap s L b s1 s2 o i I Hu Ho O eq_refl S (ex_intro _ L2 I2)).
Qed.

(** *** [init] *)

(** How many objects [init] puts into a block. *)
Definition per_block_of (size : Z) : Z :=
  let header := header_size size in
  let extra := SMALL_OBJECT_BLOCKSIZE mod size in
  u16 (if header <=? extra then SMALL_OBJECT_BLOCKSIZE / size
       else u32 (SMALL_OBJECT_BLOCKSIZE / size - (header - extra) / size - 1)).

(** The objects and the header fit into a block; two more objects would not. *)
Definition layout_fits (size : Z) : bool :=
  let n := per_block_of size in
  (0 <? n) && (u16 (n * size) =? n * size) && (n * size + header_size size <=? 4096) &&
  (n * size + 4 * (2 + BITMAP_SIZE n) <=? 4096) && (4096 <? (n + 2) * size + header_size size).

Lemma layouts_fit : forallb (fun n => layout_fits (Z.of_nat n)) (seq 1 4084) = true.
Proof. by vm_compute. Qed.

Lemma layout_fits_all size : 0 < size <= 4084 -> layout_fits size = true.
Proof.
  intros Hs. pose proof layouts_fit as Hf. rewrite forallb_forall in Hf. specialize (Hf (Z.to_nat size)).
  rewrite Z2Nat.id in Hf by lia. apply Hf, in_seq. lia.
Qed.

Definition init_post s (size max : Z) s' : Prop :=
  let p := pool s' in
  geometry p /\ obj_size p = size /\ objs_per_block p = per_block_of size /\ max_objs p = max /\ num p = 0 /\ header_offset p + header_size size <= 4096 /\
  4096 < (objs_per_block p + 2) * size + header_size size /\
  (forall o, ~ allocated s' o) /\ blocks s' = blocks s /\ bytes s' = bytes s /\ pheap s' = pheap s /\
  (max = 0 -> objs_per_block p mod BITS_WORD <> 0 -> PoolOk s').

Lemma small_init_spec s size max :
  0 < size <= 4084 -> blocks s = ∅ -> kheap_ok (pheap s) -> wp (init size max) (fun _ s' => init_post s size max s') s.
Proof.
  intros Hs Hb Hok. unfold init. apply wp_upd. assert (Eu : u16 size = size) by (apply Z.mod_small; lia). rewrite Eu. cbv zeta.
  fold (per_block_of size). pose proof (layout_fits_all size Hs) as Hf. unfold layout_fits in Hf. set (n := per_block_of size) in *.
  rewrite !andb_true_iff, !Z.leb_le, !Z.ltb_lt, Z.eqb_eq in Hf. destruct Hf as ((((H1 & H2) & H3) & H4) & H5). rewrite H2.
  set (s' := set_pool _ s). assert (G : geometry (pool s')) by (by constructor; simpl; try lia).
  unfold init_post. cbn zeta. split_and!; [done|done|done|done|done|exact H3|exact H5| |done|done|done|].
  - intros o (b & i & (v & Hv & _) & _). simpl in Hv. by rewrite Hb in Hv.
  - intros Hm Hn. split_and!; [|by left|done|done]. exists []. constructor; simpl; try done.
    + constructor.
    + intros x. rewrite Hb, lookup_empty. split; [intros Hx; by apply elem_of_nil in Hx|by intros []].
    + intros x v. by rewrite Hb.
    + intros x Hx. by apply elem_of_nil in Hx.
    + intros x Hx. by apply elem_of_nil in Hx.
    + intros x a Hx. by apply elem_of_nil in Hx.
Qed.

End pools.

(** ** Correctness *)

Section small_properties.
Context {H : Type} `{KH : !Kheap H} `{KL : !KheapLaws H}.

(** C39: the pools of small objects.  [allocate] returns an object that no
    earlier object in use overlaps, in memory the heap has handed out, cleared
    if so asked, and the objects in use are those from before and this one; it
    returns NULL and changes nothing only if the pool knows no free object and
    the heap has no block.  [free] takes exactly the object away; when its
    block goes back to the heap, no object in use lies in it.  [init] lays the
    blocks out so that objects and header fit and at most one more object
    would, and starts with no objects.  This is for the pools without a limit,
    which are those the kernel has, and for numbers of objects that are not a
    multiple of the word size. *)
Theorem small_alloc_correct (s : pstate (H := H)) raw_header zeroed :
  PoolOk s -> raw_ok raw_header (pool s) ->
  wp (allocate raw_header zeroed) (allocate_post s zeroed) s /\
  (forall o, allocated s o -> wp (free o) (fun _ s' => free_post s o s') s) /\
  (forall (s0 : pstate (H := H)) size max, 0 < size <= 4084 -> blocks s0 = ∅ -> kheap_ok (pheap s0) ->
     wp (init size max) (fun _ s' => init_post s0 size max s') s0).
Proof.
  intros Hok Hraw. split_and!; intros; [by apply small_allocate_spec|by apply small_free_spec|by apply small_init_spec].
Qed.

End small_properties.

(** A pool of objects of 1000 bytes on a heap of eight chunks. *)
Module SmallDemo.
Abbreviation kstate := (pstate (H := Kmem.kmem_t)).
Definition raw_header (b : Z) : block_t := Block 7 7 [7; 7].
Definition start : kstate := PState (SmallAlloc 1 2 3 4 5 6 7) ∅ (fun _ => 9) (KmemDemo.ready_of 8).
Definition run {A} (c : M kstate A) (s : kstate) : kstate := match c s with Done _ s' => s' | Crash _ => s end.
Definition empty : kstate := run (init 1000 0) start.
Definition one : kstate := run (allocate raw_header true) empty.

Lemma heap_ok : kheap_ok (KmemDemo.ready_of 8).
Proof. exists (Kmem.run 4096 8). apply KmemDemo.ready_of_rep; [done|repeat constructor]. Qed.

Lemma empty_ok : PoolOk empty.
Proof.
  pose proof (small_init_spec start 1000 0 ltac:(lia) eq_refl heap_ok) as Hi. unfold wp in Hi.
  assert (Hd : init 1000 0 start = Done tt empty) by reflexivity. rewrite Hd in Hi. apply Hi; [done|by vm_compute].
Qed.

Lemma raw_enough : raw_ok raw_header (pool empty).
Proof. intros b. split; [by repeat constructor|by vm_compute]. Qed.

Lemma first_object : allocate raw_header true empty = Done 7096 one.
Proof.
  unfold one, run. assert (Hr : match allocate raw_header true empty with Done r _ => r =? 7096 | Crash _ => false end = true) by (by vm_compute).
  destruct (allocate raw_header true empty) as [r s'|]; [|done]. by apply Z.eqb_eq in Hr as ->.
Qed.

Lemma one_allocated : PoolOk one /\ allocated one 7096.
Proof.
  pose proof (small_allocate_spec raw_header empty true empty_ok raw_enough) as Ha. unfold wp in Ha. rewrite first_object in Ha.
  destruct Ha as (Hok & _ & _ & [(? & _)|N]); [done|]. split; [done|]. apply (no_set _ _ _ _ N). by right.
Qed.
End SmallDemo.

Lemma small_alloc_correct_witness :
  wp (allocate SmallDemo.raw_header true) (allocate_post SmallDemo.one true) SmallDemo.one /\
  wp (free 7096) (fun _ s' => free_post SmallDemo.one 7096 s') SmallDemo.one /\
  wp (init 1000 0) (fun _ s' => init_post SmallDemo.start 1000 0 s') SmallDemo.start.
Proof.
  destruct (small_alloc_correct SmallDemo.one SmallDemo.raw_header true (proj1 SmallDemo.one_allocated) SmallDemo.raw_enough) as (Ha & Hf & Hi).
  split; [exact Ha|]. split; [apply Hf, SmallDemo.one_allocated|]. apply Hi; [lia|reflexivity|exact SmallDemo.heap_ok].
Defined.

(** With a number of objects in a block that is a multiple of the word size
    [free] can give a block back to the heap that has objects in use: of the 64
    objects of a block the second 32 stay in use, and all chunks are free. *)
Module SmallWords.
Import SmallDemo.
Fixpoint times {A} (n : nat) (c : M kstate A) : M kstate unit :=
  match n with O => ret tt | S n' => do! c in times n' c end.
Fixpoint free_all (os : list Z) : M kstate unit :=
  match os with [] => ret tt | o :: os' => do! free o in free_all os' end.
Definition script : M kstate unit :=
  do! init 63 0 in
  do! times 64 (allocate raw_header false) in
  free_all ((fun i : nat => 4096 + 63 * Z.of_nat i) <$> seq 0 32).

Lemma small_free_used_block :
  match script start with
  | Done _ s => num (pool s) = 32 /\ blocks s = ∅ /\ Kmem.free_chunks (pheap s) = 8
  | Crash _ => False
  end.
Proof. by vm_compute. Qed.
End SmallWords.
