(* ===== verification/MicroResource.v ===== *)
(** * Memory resources of the microkernel

    [kmem_resource_t] of [pistachio/src/kmem_resource.cc] and
    [kmem_resource.h]: a heap and the pools of small objects that take their
    blocks from it; a kind of kernel object either has a pool or is allocated
    from the heap.  The kinds are those of the architectures that add none
    (ARMv6 and the others, not ARMv5).  The pools use the heap of the current
    resource; the model has one resource, which is the current one.  The
    accounting of CONFIG_KMEM_TRACE and the lists of the debugger are left
    out. *)

From S2P Require Import Prelude MicroLib MicroKmem MicroSmall MicroSmallProof.
Import Small.
#[local] Open Scope Z_scope.

(** The sizes of the objects that have pools are known to the compiler. *)
Class ObjectSizes := { sizeof_space_t : Z; KTCB_SIZE : Z; sizeof_mutex_t : Z }.

Module Resource.

Inductive kmem_group_e : Type :=
| kmem_group_mutex
| kmem_group_space
| kmem_group_tcb
| kmem_group_clist
| kmem_group_clistids
| kmem_group_root_clist
| kmem_group_ll
| kmem_group_misc
| kmem_group_mutexids
| kmem_group_pgtab
| kmem_group_resource
| kmem_group_spaceids
| kmem_group_stack
| kmem_group_trace
| kmem_group_utcb
| kmem_group_irq
| kmem_group_physseg_list.

(** The number of a kind, for the first ones, which have pools. *)
Definition group_number (g : kmem_group_e) : nat :=
  match g with
  | kmem_group_mutex => 0
  | kmem_group_space => 1
  | kmem_group_tcb => 2
  | kmem_group_clist => 3
  | kmem_group_clistids => 4
  | kmem_group_root_clist => 5
  | kmem_group_ll => 6
  | kmem_group_misc => 7
  | kmem_group_mutexids => 8
  | kmem_group_pgtab => 9
  | kmem_group_resource => 10
  | kmem_group_spaceids => 11
  | kmem_group_stack => 12
  | kmem_group_trace => 13
  | kmem_group_utcb => 14
  | kmem_group_irq => 15
  | kmem_group_physseg_list => 16
  end%nat.

Definition MAX_KMEM_SMALL_ALLOC_GROUP : nat := group_number kmem_group_clist.

#[export] Instance kmem_group_eq_dec : EqDecision kmem_group_e.
Proof. solve_decision. Defined.

Definition is_small_alloc_group (group : kmem_group_e) : bool :=
  bool_decide (group = kmem_group_space) || bool_decide (group = kmem_group_tcb) || bool_decide (group = kmem_group_mutex).

Section model.
Context {H : Type} `{KH : !Kheap H}.
Context (raw_header : Z -> block_t).

(** A pool with the headers of its blocks. *)
Record small_pool : Type := SmallPool { sp_pool : small_alloc_t; sp_blocks : gmap Z block_t }.

Record kmem_resource_t : Type := KmemResource {
  heap : H;
  small_alloc_pools : list small_pool;
  rbytes : Z -> Z
}.

Abbreviation K A := (M kmem_resource_t A).

(** A pool as the functions of [smallalloc.cc] see it. *)
Definition view (r : kmem_resource_t) (p : small_pool) : pstate := PState (sp_pool p) (sp_blocks p) (rbytes r) (heap r).
Definition put_view (r : kmem_resource_t) (i : nat) (s : pstate) : kmem_resource_t :=
  KmemResource (pheap s) (<[i := SmallPool (pool s) (blocks s)]> (small_alloc_pools r)) (bytes s).

Definition on_pool {A} (i : nat) (c : M pstate A) : K A :=
  let! p := (let! ps := gets small_alloc_pools in demand IndexOutOfBounds (ps !! i)) in
  fun r => match c (view r p) with Done a s => Done a (put_view r i s) | Crash f => Crash f end.

Definition on_heap {A} (c : M H A) : K A :=
  fun r => match c (heap r) with Done a h => Done a (KmemResource h (small_alloc_pools r) (rbytes r)) | Crash f => Crash f end.

(** The two functions [alloc]. *)
Definition alloc_small (group : kmem_group_e) (zeroed : bool) : K Z :=
  do! ASSERT (is_small_alloc_group group) in
  on_pool (group_number group) (allocate raw_header zeroed).

Definition alloc (group : kmem_group_e) (size : Z) (zeroed : bool) : K Z :=
  do! ASSERT (negb (is_small_alloc_group group)) in
  on_heap (kalloc size zeroed).

Definition free (group : kmem_group_e) (address size : Z) : K unit :=
  if size =? 0 then
    do! ASSERT (is_small_alloc_group group) in
    on_pool (group_number group) (Small.free address)
  else
    do! ASSERT (negb (is_small_alloc_group group)) in
    on_heap (kfree address size).

Definition init_small_alloc_pools `{!ObjectSizes} : K unit :=
  do! on_pool (group_number kmem_group_space) (Small.init sizeof_space_t 0) in
  do! on_pool (group_number kmem_group_tcb) (Small.init KTCB_SIZE 0) in
  on_pool (group_number kmem_group_mutex) (Small.init sizeof_mutex_t 0).

End model.

Arguments kmem_resource_t : clear implicits.

(** [init]: the resource's own chunk comes first, the heap has the others. *)
Definition init `{!ObjectSizes} (this end_ : Z) : M (kmem_resource_t Kmem.kmem_t) unit :=
  do! ASSERT (u32 (end_ - this) mod Kmem.KMEM_CHUNKSIZE =? 0) in
  do! on_heap (Kmem.init (u32 (this + Kmem.KMEM_CHUNKSIZE)) end_) in
  init_small_alloc_pools.

End Resource.
