(* ===== verification/MicroResourceProof.v ===== *)
(** * Memory resources are correct

    Every byte of the heap is free or has one owner, a pool or an allocation
    from the heap; so objects of all kinds never overlap. *)

From S2P Require Import Prelude MicroLib MicroKmem MicroSmall MicroSmallProof MicroResource.
Import Small Resource.
#[local] Open Scope Z_scope.

(** The owners of memory: the pools, and the allocations from the heap. *)
Inductive owner : Type :=
| Pool (i : nat)
| Big (x : Z).

#[export] Instance owner_eq_dec : EqDecision owner.
Proof. solve_decision. Defined.

Section resource.
Context {H : Type} `{KH : !Kheap H} `{KL : !KheapLaws H}.
Implicit Types (r : kmem_resource_t H) (p : small_pool) (big : gmap Z nat) (s : pstate (H := H)).

Definition owns r big (w : owner) (a : Z) : Prop :=
  match w with
  | Pool i => exists p b, small_alloc_pools r !! i = Some p /\ is_Some (sp_blocks p !! b) /\ in_region (b - header_offset (sp_pool p)) 4 a
  | Big x => exists k, big !! x = Some k /\ in_region x k a
  end.

(** The invariant; [big] has the numbers of chunks of the allocations. *)
Record RInv r big : Prop := {
  ri_count : length (small_alloc_pools r) = MAX_KMEM_SMALL_ALLOC_GROUP;
  ri_heap : kheap_ok (heap r);
  ri_pools : forall i p, small_alloc_pools r !! i = Some p -> PoolOk (view r p);
  ri_big : forall x k, big !! x = Some k -> k <> 0%nat /\ kregion (heap r) x k;
  ri_taken : forall w a, owns r big w a -> ~ kheap_free (heap r) a;
  ri_excl : forall w w' a, owns r big w a -> owns r big w' a -> w = w'
}.

(** What is in use: an address and a size. *)
Definition live r big (o n : Z) : Prop :=
  (exists i p, small_alloc_pools r !! i = Some p /\ allocated (view r p) o /\ n = obj_size (sp_pool p)) \/
  (exists k, big !! o = Some k /\ n = 1024 * Z.of_nat k).

Definition apart (x n y m : Z) : Prop := x + n <= y \/ y + m <= x.

Lemma apart_intro x n y m : 0 < n -> 0 < m -> (forall a, x <= a < x + n -> ~ y <= a < y + m) -> apart x n y m.
Proof. intros Hn Hm Ha. specialize (Ha (Z.max x y)). unfold apart. lia. Qed.

Lemma apart_sym x n y m : apart x n y m -> apart y m x n.
Proof. unfold apart. tauto. Qed.

(** *** Owners *)

(** One owner [w] gets memory that was free. *)
Lemma excl_step r big r' big' w :
  RInv r big -> (forall o a, owns r' big' o a -> owns r big o a \/ (o = w /\ kheap_free (heap r) a)) ->
  forall o o' a, owns r' big' o a -> owns r' big' o' a -> o = o'.
Proof.
  intros R Hs o o' a Ho Ho'. destruct (Hs _ _ Ho) as [H1|[-> F1]], (Hs _ _ Ho') as [H2|[-> F2]]; [by eapply ri_excl| | |done]; exfalso; by eapply ri_taken.
Qed.

(** One owner [w] gives memory back. *)
Lemma taken_step r big r' big' w :
  RInv r big -> (forall o a, owns r' big' o a -> owns r big o a \/ (o = w /\ kheap_free (heap r) a)) ->
  (forall a, kheap_free (heap r') a -> kheap_free (heap r) a \/ owns r big w a) ->
  (forall a, owns r' big' w a -> ~ kheap_free (heap r') a) ->
  forall o a, owns r' big' o a -> ~ kheap_free (heap r') a.
Proof.
  intros R Hs Hf Hw o a Ho Hfree. destruct (Hs _ _ Ho) as [H1|[-> F1]]; [|by eapply Hw].
  destruct (Hf _ Hfree) as [F|Hwa]; [by eapply ri_taken|]. rewrite (ri_excl _ _ R _ _ _ H1 Hwa) in Ho. by eapply Hw.
Qed.

(** A pool that is not touched while the heap changes. *)
Lemma pool_heap s h f :
  PoolOk s -> kheap_ok h -> (forall a, kheap_mem h a <-> kheap_mem (pheap s) a) ->
  (forall b a, is_Some (blocks s !! b) -> in_region (b - header_offset (pool s)) 4 a -> ~ kheap_free h a) ->
  PoolOk (PState (pool s) (blocks s) f h).
Proof.
  intros ([L [I1 I2 I3 I4 I5 I6 I7 I8 I9]] & Hff & Hm & Hp) Hok Hmem Hfree. split_and!; [|exact Hff|done|done]. exists L.
  constructor; try done; simpl.
  - intros b Hb. eapply kregion_mem; [done|]. by apply I8.
  - intros b a Hb. apply Hfree. by apply I5.
Qed.

(** An object lies in a block of its pool. *)
Lemma allocated_region s o :
  PoolOk s -> allocated s o ->
  0 < obj_size (pool s) /\
  exists b, is_Some (blocks s !! b) /\ get_object_base o = b - header_offset (pool s) /\
    forall a, o <= a < o + obj_size (pool s) -> in_region (b - header_offset (pool s)) 4 a.
Proof.
  intros ([L I] & _) (b & i & Hu & ->). pose proof Hu as (v & Hv & _). destruct (used_word _ _ _ _ I Hu) as [Hp Hi].
  pose proof (geo_size _ (inv_geo _ _ I)). split; [done|]. exists b. split; [by eexists|]. split; [by apply (object_base _ (inv_geo _ _ I))|].
  intros a Ha. pose proof (object_range _ (inv_geo _ _ I) i Hi). pose proof (offset_range _ (inv_geo _ _ I)). unfold in_region, object_at in *. lia.
Qed.

Lemma live_owned r big o n :
  RInv r big -> live r big o n -> 0 < n /\ exists w, (forall a, o <= a < o + n -> owns r big w a) /\
    ((exists i p, w = Pool i /\ small_alloc_pools r !! i = Some p /\ allocated (view r p) o /\ n = obj_size (sp_pool p)) \/ w = Big o).
Proof.
  intros R [(i & p & Hp & Ha & ->)|(k & Hk & ->)].
  - destruct (allocated_region _ _ (ri_pools _ _ R i p Hp) Ha) as (Hn & b & Hb & _ & Hin). split; [done|]. exists (Pool i).
    split; [intros a Ha'; exists p, b; split_and!; [done|done|by apply Hin]|left; by exists i, p].
  - destruct (ri_big _ _ R _ _ Hk) as [Hk0 _]. split; [lia|]. exists (Big o). split; [|by right]. intros a Ha. by exists k.
Qed.

Lemma pool_not_big r big i p o x :
  RInv r big -> small_alloc_pools r !! i = Some p -> allocated (view r p) o -> owns r big (Big x) o -> False.
Proof.
  intros R Hp Ha Hx. destruct (allocated_region _ _ (ri_pools _ _ R i p Hp) Ha) as (Hn & b & Hb & _ & Hin). simpl in Hn, Hin.
  assert (Pool i = Big x); [|done]. apply (ri_excl _ _ R _ _ o); [|done]. exists p, b. split_and!; [done|done|apply Hin; lia].
Qed.

(** *** Steps of a pool *)

Lemma wp_on_pool {A} i (c : M pstate A) p Q r :
  small_alloc_pools r !! i = Some p -> wp c (fun a s => Q a (put_view r i s)) (view r p) -> wp (on_pool i c) Q r.
Proof.
  intros Hp Hc. unfold on_pool. apply wp_bind, wp_bind, wp_gets, (wp_demand _ _ p); [done|]. unfold wp in *. by destruct (c (view r p)).
Qed.

Lemma wp_res_heap {A} (c : M H A) Q r :
  wp c (fun a h => Q a (KmemResource h (small_alloc_pools r) (rbytes r))) (heap r) -> wp (on_heap c) Q r.
Proof. unfold wp, on_heap. by destruct (c (heap r)). Qed.

Lemma small_group g : is_small_alloc_group g = true -> (group_number g < MAX_KMEM_SMALL_ALLOC_GROUP)%nat.
Proof. destruct g; vm_compute; lia. Qed.

Lemma group_pool r big g : RInv r big -> is_small_alloc_group g = true -> exists p, small_alloc_pools r !! group_number g = Some p.
Proof. intros R Hg. apply lookup_lt_is_Some_2. rewrite (ri_count _ _ R). by apply small_group. Qed.

Lemma lookup_put_view r i s j p :
  small_alloc_pools (put_view r i s) !! j = Some p ->
  (j = i /\ p = SmallPool (pool s) (blocks s)) \/ (j <> i /\ small_alloc_pools r !! j = Some p).
Proof. simpl. rewrite list_lookup_insert_Some. intros [(<- & <- & _)|[? ?]]; auto. Qed.

(** A change of one pool. *)
Lemma rinv_pool r big i p s' :
  RInv r big -> small_alloc_pools r !! i = Some p -> PoolOk s' -> same_layout (sp_pool p) (pool s') ->
  (forall a, kheap_mem (pheap s') a <-> kheap_mem (heap r) a) ->
  (forall a, kheap_free (pheap s') a -> kheap_free (heap r) a \/ owns r big (Pool i) a) ->
  (forall b, is_Some (blocks s' !! b) -> is_Some (sp_blocks p !! b) \/
     forall a, in_region (b - header_offset (sp_pool p)) 4 a -> kheap_free (heap r) a) ->
  RInv (put_view r i s') big.
Proof.
  intros R Hp Hok (_ & _ & Eo & _) Hm Hf Hb. pose proof Hok as ([L I] & _).
  assert (Hs : forall o a, owns (put_view r i s') big o a -> owns r big o a \/ (o = Pool i /\ kheap_free (heap r) a)).
  { intros [j|x] a Ho; [|by left]. destruct Ho as (q & b & Hq & Hbq & Ha). apply lookup_put_view in Hq as [[-> ->]|[Hne Hq]]; simpl in *.
    - rewrite Eo in Ha. destruct (Hb b Hbq) as [?|Hfree]; [left; by exists p, b|right; split; [done|by apply Hfree]].
    - left. by exists q, b. }
  assert (Hown : forall a, owns (put_view r i s') big (Pool i) a -> ~ kheap_free (heap (put_view r i s')) a).
  { intros a (q & b & Hq & Hbq & Ha). apply lookup_put_view in Hq as [[_ ->]|[? _]]; [|done]. apply (inv_taken _ _ I b a); [by apply (inv_dom _ _ I)|done]. }
  pose proof (taken_step r big (put_view r i s') big (Pool i) R Hs Hf Hown) as Htaken.
  constructor; [by simpl; rewrite length_insert; apply R|apply I| | |done|by eapply excl_step].
  - intros j q Hq. pose proof Hq as Hq0. apply lookup_put_view in Hq as [[-> ->]|[Hne Hq]].
    + assert (view (put_view r i s') (SmallPool (pool s') (blocks s')) = s') as -> by (by destruct s'). done.
    + apply (pool_heap (view r q) (pheap s') (bytes s')); [by eapply ri_pools|apply I|done|].
      intros b a Hbq Ha. apply (Htaken (Pool j)). by exists q, b.
  - intros x k Hx. destruct (ri_big _ _ R x k Hx) as [? ?]. split; [done|]. by eapply kregion_mem.
Qed.

(** What is in use outside the pool [i]. *)
Definition live_but r big (i : nat) (o n : Z) : Prop :=
  (exists j p, j <> i /\ small_alloc_pools r !! j = Some p /\ allocated (view r p) o /\ n = obj_size (sp_pool p)) \/
  (exists k, big !! o = Some k /\ n = 1024 * Z.of_nat k).

Lemma live_split r big i p o n :
  small_alloc_pools r !! i = Some p -> live r big o n <-> (allocated (view r p) o /\ n = obj_size (sp_pool p)) \/ live_but r big i o n.
Proof.
  intros Hp. unfold live, live_but. split.
  - intros [(j & q & Hq & Ha & ->)|?]; [|tauto]. destruct (decide (j = i)) as [->|Hne]; [left; by simplify_eq|right; left; by exists j, q].
  - intros [[Ha ->]|[(j & q & _ & Hq & Ha & ->)|?]]; [left; by exists i, p|left; by exists j, q|tauto].
Qed.

Lemma live_put r big i p s' o n :
  small_alloc_pools r !! i = Some p -> same_layout (sp_pool p) (pool s') ->
  live (put_view r i s') big o n <-> (allocated s' o /\ n = obj_size (sp_pool p)) \/ live_but r big i o n.
Proof.
  intros Hp (E & _). assert (Hi : small_alloc_pools (put_view r i s') !! i = Some (SmallPool (pool s') (blocks s'))).
  { simpl. apply list_lookup_insert_eq. by eapply lookup_lt_Some. }
  rewrite (live_split _ _ _ _ _ _ Hi). simpl. rewrite E. apply or_iff_compat_l. unfold live_but. apply or_iff_compat_r. simpl.
  split; intros (j & q & Hne & Hq & Ha); exists j, q; (split; [done|]); (split; [|exact Ha]).
  - by rewrite list_lookup_insert_ne in Hq.
  - by rewrite list_lookup_insert_ne.
Qed.

(** What another owner uses is apart from a pool's memory. *)
Lemma live_but_apart r big i x n o m :
  RInv r big -> 0 < n -> (forall a, x <= a < x + n -> owns r big (Pool i) a \/ kheap_free (heap r) a) -> live_but r big i o m -> apart o m x n.
Proof.
  intros R Hn Hx Hl. assert (Hlive : live r big o m).
  { destruct Hl as [(j & p & _ & Hp)|Hk]; [left; by exists j, p|by right]. }
  destruct (live_owned _ _ _ _ R Hlive) as (Hm & _). apply apart_intro; [done|done|]. intros a Ha Ha'.
  assert (Hw : exists w, w <> Pool i /\ owns r big w a).
  { destruct Hl as [(j & p & Hne & Hp & Hal & ->)|(k & Hk & ->)]; [|by exists (Big o); split; [|exists k]].
    destruct (allocated_region _ _ (ri_pools _ _ R j p Hp) Hal) as (_ & b & Hb & _ & Hin). exists (Pool j). split; [congruence|].
    exists p, b. split_and!; [done|done|by apply Hin]. }
  destruct Hw as (w & Hwi & Hw). destruct (Hx a Ha') as [Ho|Hf]; [by rewrite (ri_excl _ _ R _ _ _ Hw Ho) in Hwi|by apply (ri_taken _ _ R _ _ Hw)].
Qed.

(** *** The operations *)

Context (raw_header : Z -> block_t).

Definition alloc_small_post r big g r' x : Prop :=
  RInv r' big /\
  ((x = 0 /\ r' = r) \/
   exists p, small_alloc_pools r !! group_number g = Some p /\ 0 < x /\
     (forall o m, live r' big o m <-> live r big o m \/ (o = x /\ m = obj_size (sp_pool p))) /\
     (forall o m, live r big o m -> apart o m x (obj_size (sp_pool p)))).

Lemma alloc_small_spec r big g zeroed :
  RInv r big -> (forall i p, small_alloc_pools r !! i = Some p -> raw_ok raw_header (sp_pool p)) -> is_small_alloc_group g = true ->
  wp (alloc_small raw_header g zeroed) (fun x r' => alloc_small_post r big g r' x) r.
Proof.
  intros R Hraw Hg. destruct (group_pool _ _ _ R Hg) as [p Hp]. pose proof (ri_pools _ _ R _ _ Hp) as Hok. unfold alloc_small.
  apply wp_bind, wp_ASSERT; [done|]. apply (wp_on_pool _ _ p); [done|].
  eapply wp_mono; [apply small_allocate_spec; [exact Hok|by eapply Hraw]|]. cbn beta. intros x s' (Hok' & Hl & F & Hc).
  assert (R' : RInv (put_view r (group_number g) s') big).
  { destruct F as [Fm Ff Fb]. eapply rinv_pool; [done|done|done|exact Hl|exact Fm| |exact Fb]. intros a Ha. left. by apply Ff. }
  split; [done|]. destruct Hc as [(-> & -> & _)|N].
  - left. split; [done|]. unfold put_view. simpl. destruct p. simpl. rewrite list_insert_id by done. by destruct r.
  - right. exists p. split; [done|]. destruct N as [N1 N2 N3 N4 N5 _ _]. simpl in N4, N5. split; [lia|].
    assert (Hx : allocated s' x) by (apply N3; by right). split.
    + intros o m. rewrite (live_put _ _ _ _ _ _ _ Hp Hl), (live_split _ _ _ _ o m Hp), N3. tauto.
    + intros o m Hlive. rewrite (live_split _ _ _ _ o m Hp) in Hlive. destruct Hlive as [[Ha ->]|Hlive]; [by apply N4|].
      pose proof Hl as (E & _ & Eo & _). destruct (allocated_region s' x Hok' Hx) as (Hn & b & Hb & _ & Hin). rewrite E, Eo in *.
      apply (live_but_apart r big (group_number g)); [done|exact Hn| |done]. intros a Ha. destruct (hf_blocks _ _ F b Hb) as [Hb'|Hf].
      * left. exists p, b. split_and!; [done|exact Hb'|by apply Hin].
      * right. by apply Hf, Hin.
Qed.

Lemma free_small_spec r big g p o :
  RInv r big -> is_small_alloc_group g = true -> small_alloc_pools r !! group_number g = Some p -> allocated (view r p) o ->
  wp (free g o 0) (fun _ r' => RInv r' big /\ forall x m, live r' big x m <-> live r big x m /\ x <> o) r.
Proof.
  intros R Hg Hp Ho. pose proof (ri_pools _ _ R _ _ Hp) as Hok. unfold free. cbn [Z.eqb]. apply wp_bind, wp_ASSERT; [done|].
  apply (wp_on_pool _ _ p); [done|]. eapply wp_mono; [by apply small_free_spec|]. cbn beta. intros _ s' [Hok' Hl Hset _ _ Hblocks Hheap].
  destruct (allocated_region _ _ Hok Ho) as (Hn & b & Hb & Hbase & Hin). simpl in Hn, Hb, Hbase, Hin.
  assert (Hown : forall a, in_region (get_object_base o) 4 a -> owns r big (Pool (group_number g)) a) by (rewrite Hbase; intros a Ha; by exists p, b).
  split.
  - eapply rinv_pool; [done|done|done|exact Hl| | |intros c Hc; left; by apply Hblocks].
    + destruct Hheap as [->|(Hm & _)]; [done|exact Hm].
    + destruct Hheap as [->|(_ & Hf & _)]; [by left|]. intros a [?|?]%Hf; [by left|right; by apply Hown].
  - intros x m. rewrite (live_put _ _ _ _ _ _ _ Hp Hl), (live_split _ _ _ _ x m Hp), Hset.
    assert (live_but r big (group_number g) x m -> x <> o); [|tauto]. intros Hlb ->.
    assert (Hap : apart o m o (obj_size (sp_pool p))).
    { apply (live_but_apart r big (group_number g)); [done|exact Hn| |done]. intros a Ha. left. apply Hown. rewrite Hbase. by apply Hin. }
    assert (0 < m); [|unfold apart in Hap; lia]. destruct (live_owned r big o m R) as [? _]; [|done].
    rewrite (live_split _ _ _ _ o m Hp). by right.
Qed.

(** A change of the heap and of the allocation at [x]. *)
Lemma rinv_heap r big h big' x :
  let r' := KmemResource h (small_alloc_pools r) (rbytes r) in
  RInv r big -> kheap_ok h -> (forall a, kheap_mem h a <-> kheap_mem (heap r) a) ->
  (forall y k, big' !! y = Some k -> k <> 0%nat /\ kregion (heap r) y k) ->
  (forall o a, owns r' big' o a -> owns r big o a \/ (o = Big x /\ kheap_free (heap r) a)) ->
  (forall a, kheap_free h a -> kheap_free (heap r) a \/ owns r big (Big x) a) ->
  (forall a, owns r' big' (Big x) a -> ~ kheap_free h a) -> RInv r' big'.
Proof.
  intros r' R Hok Hm Hbig Hs Hf Hown. pose proof (taken_step r big r' big' (Big x) R Hs Hf Hown) as Htaken.
  constructor; [apply R|done| | |done|by eapply excl_step].
  - intros j q Hq. apply (pool_heap (view r q) h (rbytes r)); [by eapply ri_pools|done|done|].
    intros b a Hb Ha. apply (Htaken (Pool j)). by exists q, b.
  - intros y k Hy. destruct (Hbig y k Hy). split; [done|]. by eapply kregion_mem.
Qed.

Definition alloc_post r big size r' x : Prop :=
  let k := Kmem.chunks_of size in
  (x = 0 /\ r' = r) \/
  (0 < x /\ RInv r' (<[x := k]> big) /\
   (forall o m, live r' (<[x := k]> big) o m <-> live r big o m \/ (o = x /\ m = 1024 * Z.of_nat k)) /\
   (forall o m, live r big o m -> apart o m x (1024 * Z.of_nat k))).

Lemma resource_alloc_spec r big g size zeroed :
  RInv r big -> is_small_alloc_group g = false -> 0 < size <= WORD_MOD - 2048 ->
  wp (alloc g size zeroed) (fun x r' => alloc_post r big size r' x) r.
Proof.
  intros R Hg Hs. unfold alloc. apply wp_bind, wp_ASSERT; [by rewrite Hg|]. apply wp_res_heap.
  eapply wp_mono; [by apply kalloc_law, Hs; apply R|]. cbn beta. destruct (chunks_of_pos size) as [k Ek]; [lia|]. unfold alloc_post. rewrite Ek.
  intros x h (Hok & Hm & [[-> ->]|(Hreg & _ & Hwas & Hfree)]); [left; split; [done|by destruct r]|]. right. pose proof (kr_aligned _ _ _ Hreg) as [Hx _].
  assert (Hin : in_region x (S k) x) by (unfold in_region; lia).
  assert (Hnew : big !! x = None).
  { apply eq_None_not_Some. intros [k' Hk']. apply (ri_taken _ _ R (Big x) x); [|by apply Hwas]. destruct (ri_big _ _ R _ _ Hk'). exists k'.
    split; [done|]. unfold in_region. lia. }
  split_and!; [done| | |].
  - apply (rinv_heap r big h _ x); [done|done|done| | | |].
    + intros y k' [[<- <-]|[_ Hy]]%lookup_insert_Some; [done|by apply (ri_big _ _ R)].
    + intros [i|y] a Ho; [by left|]. destruct Ho as (k' & [[<- <-]|[_ Hy]]%lookup_insert_Some & Ha); [right; split; [done|by apply Hwas]|left; by exists k'].
    + intros a [? _]%Hfree. by left.
    + intros a (k' & Hk' & Ha). rewrite lookup_insert_eq in Hk'. injection Hk' as <-. intros [_ Hn]%Hfree. done.
  - intros o m. unfold live. simpl. split.
    + intros [?|(k' & [[<- <-]|[_ Hy]]%lookup_insert_Some & ->)]; [by left; left|by right|left; right; by exists k'].
    + intros [[?|(k' & Hk' & ->)]|[-> ->]]; [by left|right; exists k'; split; [|done]|right; exists (S k); split; [apply lookup_insert_eq|done]].
      rewrite lookup_insert_ne; [done|]. intros <-. congruence.
  - intros o m Hl. destruct (live_owned _ _ _ _ R Hl) as (Hn & w & Hw & _). apply apart_intro; [done|lia|]. intros a Ha Ha'.
    by apply (ri_taken _ _ R w a); [apply Hw|apply Hwas].
Qed.

Lemma resource_free_spec r big g x k size :
  RInv r big -> is_small_alloc_group g = false -> big !! x = Some k -> 0 < size -> Z.max size 1024 = 1024 * Z.of_nat k ->
  wp (free g x size) (fun _ r' => RInv r' (delete x big) /\ forall o m, live r' (delete x big) o m <-> live r big o m /\ o <> x) r.
Proof.
  intros R Hg Hk Hs0 Hs. destruct (ri_big _ _ R _ _ Hk) as [Hk0 Hreg]. unfold free. rewrite (proj2 (Z.eqb_neq size 0)) by lia.
  apply wp_bind, wp_ASSERT; [by rewrite Hg|]. apply wp_res_heap. eapply wp_mono; [apply (kfree_law (heap r) x size k); [apply R|done|done|done|]|].
  { intros a Ha. apply (ri_taken _ _ R (Big x)). by exists k. }
  cbn beta. intros _ h (Hok & Hm & Hfree). split.
  - apply (rinv_heap r big h _ x); [done|done|done| | | |].
    + intros y k' [_ Hy]%lookup_delete_Some. by apply (ri_big _ _ R).
    + intros [i|y] a Ho; [by left|]. destruct Ho as (k' & [_ Hy]%lookup_delete_Some & Ha). left. by exists k'.
    + intros a [?|?]%Hfree; [by left|right; by exists k].
    + intros a (k' & Hk' & Ha). by rewrite lookup_delete_eq in Hk'.
  - intros o m. unfold live. simpl. split.
    + intros [(i & p & Hp & Ha & ->)|(k' & [Hne Hy]%lookup_delete_Some & ->)]; (split; [eauto 10|]); [|done]. intros ->.
      apply (pool_not_big r big i p x x R Hp Ha). exists k. split; [done|]. unfold in_region. lia.
    + intros [[?|(k' & Hk' & ->)] Hne]; [by left|right]. exists k'. by rewrite lookup_delete_ne.
Qed.

End resource.

(** *** [init] *)

(** The sizes [init] can lay blocks out for. *)
Definition size_ok (sz : Z) : Prop := 0 < sz <= 4084 /\ per_block_of sz mod BITS_WORD <> 0.

Section resource_init.
Context {H : Type} `{KH : !Kheap H} `{KL : !KheapLaws H}.

(** The pools in [D] have been initialised, and none has a block. *)
Record starting (h : H) (D : nat -> Prop) (r : kmem_resource_t H) : Prop := {
  st_heap : heap r = h;
  st_count : length (small_alloc_pools r) = MAX_KMEM_SMALL_ALLOC_GROUP;
  st_empty : forall i p, small_alloc_pools r !! i = Some p -> sp_blocks p = ∅;
  st_ok : forall i p, D i -> small_alloc_pools r !! i = Some p -> PoolOk (view r p)
}.

Lemma starting_step h D r i sz :
  kheap_ok h -> starting h D r -> (i < MAX_KMEM_SMALL_ALLOC_GROUP)%nat -> size_ok sz ->
  wp (on_pool i (Small.init sz 0)) (fun _ r' => starting h (fun j => j = i \/ D j) r') r.
Proof.
  intros Hok [<- Hc He Hd] Hi [Hs Hn]. destruct (lookup_lt_is_Some_2 (small_alloc_pools r) i) as [p Hp]; [by rewrite Hc|].
  apply (wp_on_pool _ _ p); [done|]. eapply wp_mono; [apply small_init_spec; [done|by eapply He|exact Hok]|]. cbn beta.
  intros _ s' (_ & _ & En & _ & _ & _ & _ & _ & Eb & Ey & Ep & Hpool). specialize (Hpool eq_refl). rewrite En in Hpool. specialize (Hpool Hn). constructor.
  - exact Ep.
  - simpl. by rewrite length_insert.
  - intros j q Hq. apply lookup_put_view in Hq as [[-> ->]|[_ Hq]]; [|by eapply He]. simpl. rewrite Eb. by eapply (He i p).
  - intros j q Hj Hq. apply lookup_put_view in Hq as [[-> ->]|[Hne Hq]].
    + assert (view (put_view r i s') (SmallPool (pool s') (blocks s')) = s') as -> by (by destruct s'). done.
    + destruct Hj as [?|Hj]; [done|]. assert (view (put_view r i s') q = view r q) as ->; [|by eapply Hd].
      unfold view, put_view. simpl. by rewrite Ey, Ep.
Qed.

(** All pools are there, nothing is in use. *)
Lemma starting_done h r :
  kheap_ok h -> starting h (fun i => i < MAX_KMEM_SMALL_ALLOC_GROUP)%nat r -> RInv r ∅ /\ forall o m, ~ live r ∅ o m.
Proof.
  intros Hok [<- Hc He Hd]. assert (Hlt : forall i p, small_alloc_pools r !! i = Some p -> (i < MAX_KMEM_SMALL_ALLOC_GROUP)%nat).
  { intros i p Hp. rewrite <-Hc. by eapply lookup_lt_Some. }
  assert (Hno : forall w a, ~ owns r ∅ w a).
  { intros [i|x] a; [intros (p & b & Hp & Hb & _)|by intros (k & Hk & _)]. rewrite (He i p Hp) in Hb. by destruct Hb. }
  split.
  - constructor; [done|done| |done| |].
    + intros i p Hp. eapply Hd; [by eapply Hlt|done].
    + intros w a Hw. by apply Hno in Hw.
    + intros w w' a Hw. by apply Hno in Hw.
  - intros o m [(i & p & Hp & (b & j & (v & Hv & _) & _) & _)|(k & Hk & _)]; [|done]. simpl in Hv. by rewrite (He i p Hp) in Hv.
Qed.

Lemma init_pools_spec `{!ObjectSizes} h r :
  kheap_ok h -> starting h (fun _ => False) r -> size_ok sizeof_space_t -> size_ok KTCB_SIZE -> size_ok sizeof_mutex_t ->
  wp init_small_alloc_pools (fun _ r' => RInv r' ∅ /\ forall o m, ~ live r' ∅ o m) r.
Proof.
  intros Hok S H1 H2 H3. unfold init_small_alloc_pools.
  apply wp_bind. eapply wp_mono; [by apply (starting_step h _ _ _ _ Hok S); [vm_compute; lia|]|]. cbn beta. intros _ r1 S1.
  apply wp_bind. eapply wp_mono; [by apply (starting_step h _ _ _ _ Hok S1); [vm_compute; lia|]|]. cbn beta. intros _ r2 S2.
  eapply wp_mono; [by apply (starting_step h _ _ _ _ Hok S2); [vm_compute; lia|]|]. cbn beta. intros _ r3 [S31 S32 S33 S34].
  apply (starting_done h); [done|]. constructor; [done|done|done|]. intros i p Hi. apply S34. unfold MAX_KMEM_SMALL_ALLOC_GROUP in Hi. simpl in *. lia.
Qed.

End resource_init.

Lemma resource_init_spec `{!ObjectSizes} (r : kmem_resource_t Kmem.kmem_t) this n :
  starting (heap r) (fun _ => False) r -> size_ok sizeof_space_t -> size_ok KTCB_SIZE -> size_ok sizeof_mutex_t ->
  0 <= this -> n <> 0%nat -> Forall Kmem.chunk_at (Kmem.run (this + 1024) n) -> Forall (Kmem.backed (Kmem.memory (heap r))) (Kmem.run (this + 1024) n) ->
  wp (init this (this + 1024 * Z.of_nat (S n))) (fun _ r' => RInv r' ∅ /\ forall o m, ~ live r' ∅ o m) r.
Proof.
  intros S H1 H2 H3 Ht Hn Hc Hb. assert (Hlast : this + 1024 * Z.of_nat (Datatypes.S n) < WORD_MOD).
  { rewrite Forall_forall in Hc. destruct (Hc (this + 1024 + 1024 * (Z.of_nat n - 1))) as (_ & _ & ?); [|lia].
    apply Kmem.elem_of_run. exists (Z.of_nat n - 1). lia. }
  unfold init. apply wp_bind, wp_ASSERT.
  { rewrite Z.add_simpl_l, u32_word by (unfold is_word, WORD_MOD in *; lia). apply Z.eqb_eq. rewrite Z.mul_comm. by apply Z.mod_mul. }
  apply wp_bind, wp_res_heap. unfold Kmem.KMEM_CHUNKSIZE. rewrite u32_word by (unfold is_word, WORD_MOD in *; lia).
  replace (this + 1024 * Z.of_nat (Datatypes.S n)) with (this + 1024 + 1024 * Z.of_nat n) by lia.
  eapply wp_mono; [by apply Kmem.kmem_init_spec|]. cbn beta. intros _ k (Hr & _).
  destruct S as [_ S2 S3 _]. apply (init_pools_spec k); [by eexists|by constructor|done|done|done].
Qed.

(** ** Correctness *)

Section resource_properties.
Context {OS : ObjectSizes}.

(** Two things in use are one or do not overlap. *)
Lemma live_apart {H} `{KH : !Kheap H} `{KL : !KheapLaws H} (r : kmem_resource_t H) big o m o' m' :
  RInv r big -> live r big o m -> live r big o' m' -> (o = o' /\ m = m') \/ apart o m o' m'.
Proof.
  intros R Hl Hl'. destruct (live_owned _ _ _ _ R Hl) as (Hm & w & Hw & Hk), (live_owned _ _ _ _ R Hl') as (Hm' & w' & Hw' & Hk').
  destruct (Z.eq_dec o o') as [<-|Hne].
  - left. split; [done|]. assert (w = w') as <- by (apply (ri_excl _ _ R _ _ o); [apply Hw|apply Hw']; lia).
    destruct Hk as [(i & p & -> & Hp & _ & ->)| ->], Hk' as [(i' & p' & Hi & Hp' & _ & ->)|Hi]; simplify_eq; [done|].
    assert (Hb : owns r big (Big o) o) by (apply Hw; lia).
    destruct Hl as [(i & p & Hp & Ha & _)|(k & Hk & ->)]; [by destruct (pool_not_big _ _ _ _ _ _ R Hp Ha Hb)|].
    destruct Hl' as [(i & p & Hp & Ha & _)|(k' & Hk' & ->)]; [by destruct (pool_not_big _ _ _ _ _ _ R Hp Ha Hb)|]. by simplify_eq.
  - right. destruct (decide (w = w')) as [<-|Hww].
    + destruct Hk as [(i & p & -> & Hp & Ha & ->)| ->], Hk' as [(i' & p' & Hi & Hp' & Ha' & ->)|Hi]; simplify_eq.
      destruct (ri_pools _ _ R _ _ Hp) as ([L I] & _). destruct Ha as (b & j & Hu & ->), Ha' as (b' & j' & Hu' & ->).
      destruct (used_word _ _ _ _ I Hu), (used_word _ _ _ _ I Hu'). by apply (object_disjoint _ (inv_geo _ _ I)).
    + apply apart_intro; [done|done|]. intros a Ha Ha'. apply Hww. by apply (ri_excl _ _ R _ _ a); [apply Hw|apply Hw'].
Qed.

(** C38: memory resources, with the kernel heap.  All objects in use, from the
    pools and from the heap, are pairwise disjoint.  Allocating an object or a
    region adds it, disjoint from all others, or returns NULL and changes
    nothing; freeing one removes exactly it; each keeps the invariant, which
    [init] establishes with nothing in use. *)
Theorem memory_resource_correct raw_header (r : kmem_resource_t Kmem.kmem_t) big :
  RInv r big -> (forall i p, small_alloc_pools r !! i = Some p -> raw_ok raw_header (sp_pool p)) ->
  (forall o m o' m', live r big o m -> live r big o' m' -> (o = o' /\ m = m') \/ apart o m o' m') /\
  (forall g zeroed, is_small_alloc_group g = true ->
     wp (alloc_small raw_header g zeroed) (fun x r' => alloc_small_post r big g r' x) r) /\
  (forall g size zeroed, is_small_alloc_group g = false -> 0 < size <= WORD_MOD - 2048 ->
     wp (alloc g size zeroed) (fun x r' => alloc_post r big size r' x) r) /\
  (forall g p o, is_small_alloc_group g = true -> small_alloc_pools r !! group_number g = Some p -> allocated (view r p) o ->
     wp (free g o 0) (fun _ r' => RInv r' big /\ forall x m, live r' big x m <-> live r big x m /\ x <> o) r) /\
  (forall g x k size, is_small_alloc_group g = false -> big !! x = Some k -> 0 < size -> Z.max size 1024 = 1024 * Z.of_nat k ->
     wp (free g x size) (fun _ r' => RInv r' (delete x big) /\ forall o m, live r' (delete x big) o m <-> live r big o m /\ o <> x) r) /\
  (forall (r0 : kmem_resource_t Kmem.kmem_t) this n,
     starting (heap r0) (fun _ => False) r0 -> size_ok sizeof_space_t -> size_ok KTCB_SIZE -> size_ok sizeof_mutex_t ->
     0 <= this -> n <> 0%nat -> Forall Kmem.chunk_at (Kmem.run (this + 1024) n) -> Forall (Kmem.backed (Kmem.memory (heap r0))) (Kmem.run (this + 1024) n) ->
     wp (init this (this + 1024 * Z.of_nat (S n))) (fun _ r' => RInv r' ∅ /\ forall o m, ~ live r' ∅ o m) r0).
Proof.
  intros R Hraw. split_and!; intros.
  - by apply (live_apart r big).
  - by apply alloc_small_spec.
  - by apply resource_alloc_spec.
  - by eapply free_small_spec.
  - by eapply resource_free_spec.
  - by apply resource_init_spec.
Qed.

End resource_properties.

(** A resource of nine chunks, the first of which it occupies itself. *)
Module ResourceDemo.
#[export] Instance sizes : ObjectSizes := {| sizeof_space_t := 200; KTCB_SIZE := 512; sizeof_mutex_t := 40 |}.
Abbreviation kres := (kmem_resource_t Kmem.kmem_t).
Definition raw_header (b : Z) : block_t := Block 7 7 [7; 7; 7; 7].
Definition blank : kres := KmemResource (KmemDemo.raw 8) (replicate 3 (SmallPool (SmallAlloc 1 2 3 4 5 6 7) ∅)) (fun _ => 9).
Definition run {A} (c : M kres A) (r : kres) : kres := match c r with Done _ r' => r' | Crash _ => r end.
Definition started : kres := run (init 3072 12288) blank.
Definition with_tcb : kres := run (alloc_small raw_header kmem_group_tcb true) started.

Lemma blank_starting : starting (heap blank) (fun _ => False) blank.
Proof. constructor; [done|done| |done]. intros i p Hp. by apply lookup_replicate in Hp as [-> _]. Qed.

Lemma sizes_ok : size_ok sizeof_space_t /\ size_ok KTCB_SIZE /\ size_ok sizeof_mutex_t.
Proof. unfold size_ok. split_and!; by vm_compute. Qed.

Lemma started_inv : RInv started ∅.
Proof.
  destruct sizes_ok as (H1 & H2 & H3).
  pose proof (resource_init_spec blank 3072 8 blank_starting H1 H2 H3 ltac:(lia) ltac:(done) ltac:(repeat constructor) (KmemDemo.words_backed 8)) as Hi.
  unfold wp in Hi. unfold started, run. change (3072 + 1024 * Z.of_nat 9) with 12288 in Hi. destruct (init 3072 12288 blank) as [u r|]; [apply Hi|destruct Hi].
Qed.

Lemma pools_of (r : kres) : (objs_per_block ∘ sp_pool) <$> small_alloc_pools r = [101; 20; 7] ->
  forall i p, small_alloc_pools r !! i = Some p -> raw_ok raw_header (sp_pool p).
Proof.
  intros Hr i p Hp b. split; [by repeat constructor|]. assert (Hi : ((objs_per_block ∘ sp_pool) <$> small_alloc_pools r) !! i = Some (objs_per_block (sp_pool p))).
  { by rewrite list_lookup_fmap, Hp. }
  rewrite Hr in Hi. destruct i as [|[|[|i]]]; simpl in Hi; [injection Hi as <-..|done]; by vm_compute.
Qed.

Lemma started_raw : forall i p, small_alloc_pools started !! i = Some p -> raw_ok raw_header (sp_pool p).
Proof. apply pools_of. by vm_compute. Qed.

Lemma with_tcb_raw : forall i p, small_alloc_pools with_tcb !! i = Some p -> raw_ok raw_header (sp_pool p).
Proof. apply pools_of. by vm_compute. Qed.

Lemma tcb_allocated : alloc_small_post started ∅ kmem_group_tcb with_tcb 7168.
Proof.
  pose proof (alloc_small_spec raw_header started ∅ kmem_group_tcb true started_inv started_raw eq_refl) as Ha. unfold wp in Ha. unfold with_tcb, run.
  assert (Hr : match alloc_small raw_header kmem_group_tcb true started with Done r _ => r =? 7168 | Crash _ => false end = true) by (by vm_compute).
  destruct (alloc_small raw_header kmem_group_tcb true started) as [x r'|]; [|done]. by apply Z.eqb_eq in Hr as ->.
Qed.

Definition sizes_are (r : kres) : Prop := (obj_size ∘ sp_pool) <$> small_alloc_pools r = [40; 200; 512].

Lemma size_at (r : kres) i p : sizes_are r -> small_alloc_pools r !! i = Some p -> [40; 200; 512] !! i = Some (obj_size (sp_pool p)).
Proof. intros <- Hp. by rewrite list_lookup_fmap, Hp. Qed.

Lemma tcb_in_pool (r r' : kres) x :
  sizes_are r -> sizes_are r' -> x <> 0 -> alloc_small_post r ∅ kmem_group_tcb r' x ->
  exists p, small_alloc_pools r' !! group_number kmem_group_tcb = Some p /\ allocated (view r' p) x.
Proof.
  intros Hr Hr' Hx [_ [[? _]|(p & Hp & _ & Hl & _)]]; [done|]. apply (size_at _ _ _ Hr) in Hp. injection Hp as Hp.
  destruct (proj2 (Hl x 512)) as [(i & q & Hq & Ha & Hs)|(k & Hk & _)]; [right; split; [done|congruence]| |done].
  pose proof (size_at _ _ _ Hr' Hq) as Hi. rewrite <-Hs in Hi. destruct i as [|[|[|i]]]; try done. by exists q.
Qed.

(** The object in the pool of TCBs. *)
Lemma with_tcb_pool : exists p, small_alloc_pools with_tcb !! group_number kmem_group_tcb = Some p /\ allocated (view with_tcb p) 7168.
Proof. apply (tcb_in_pool started); [by vm_compute|by vm_compute|done|exact tcb_allocated]. Qed.
End ResourceDemo.

#[local] Existing Instance ResourceDemo.sizes.

Lemma memory_resource_correct_witness :
  wp (alloc_small ResourceDemo.raw_header kmem_group_mutex false) (fun x r' => alloc_small_post ResourceDemo.with_tcb ∅ kmem_group_mutex r' x) ResourceDemo.with_tcb /\
  wp (alloc kmem_group_clist 3000 true) (fun x r' => alloc_post ResourceDemo.with_tcb ∅ 3000 r' x) ResourceDemo.with_tcb /\
  wp (free kmem_group_tcb 7168 0) (fun _ r' => RInv r' ∅ /\ forall x m, live r' ∅ x m <-> live ResourceDemo.with_tcb ∅ x m /\ x <> 7168) ResourceDemo.with_tcb /\
  wp (init 3072 12288) (fun _ r' => RInv r' ∅ /\ forall o m, ~ live r' ∅ o m) ResourceDemo.blank.
Proof.
  destruct (memory_resource_correct ResourceDemo.raw_header ResourceDemo.with_tcb ∅ (proj1 ResourceDemo.tcb_allocated) ResourceDemo.with_tcb_raw)
    as (_ & Hs & Ha & Hf & _ & Hi).
  split; [exact (Hs kmem_group_mutex false eq_refl)|]. split; [apply Ha; [reflexivity|unfold WORD_MOD; lia]|]. split.
  - destruct ResourceDemo.with_tcb_pool as (p & Hp & Hal). exact (Hf kmem_group_tcb p 7168 eq_refl Hp Hal).
  - destruct ResourceDemo.sizes_ok as (H1 & H2 & H3).
    exact (Hi ResourceDemo.blank 3072 8%nat ResourceDemo.blank_starting H1 H2 H3 ltac:(lia) ltac:(done) ltac:(repeat constructor) (KmemDemo.words_backed 8)).
Defined.
