(* ===== verification/MicroCaps.v ===== *)
(** * Capabilities of the microkernel

    [pistachio/include/caps.h], [capid.h], [idtable.h], [resource_ids.h],
    [clist.h], [ref_inline.h] and [pistachio/src/clist.cc], [caps.cc], and the
    parts of [thread.cc] that hold references to threads.  A capability list
    has an array of capabilities; every capability and every internal
    reference to a thread (its pager, its exception handler) is a cell of a
    word and a link, and all the cells that denote a thread are chained from
    its master capability, so that they can be revoked together.  The model is
    that of the uniprocessor kernel with debugging: the spin locks are empty
    and the read/write locks are counters that are only asserted. *)

From S2P Require Import Prelude MicroLib MicroKmem.
#[local] Open Scope Z_scope.

Module Caps.

(** ** Words *)

Definition VIRT_ADDR_BASE : Z := 0xF0000000.
Definition ARCH_OBJECT_PTR (index : Z) : Z := u32 (VIRT_ADDR_BASE + index).
Definition ARCH_OBJECT_INDEX (ptr : Z) : Z := u32 (ptr - VIRT_ADDR_BASE).

(** The two bit fields of a word: 28 bits for an index, 4 for a type. *)
Definition CAPID_INDEX_MASK : Z := bit32 28 - 1.
Definition field_index (w : Z) : Z := Z.land w CAPID_INDEX_MASK.
Definition field_type (w : Z) : Z := Z.shiftr w 28.
Definition make_word (type index : Z) : Z := Z.lor (Z.shiftl (Z.land type 15) 28) (Z.land index CAPID_INDEX_MASK).

(** *** [capid_t] *)

Definition ANYTHREAD_RAW : Z := 0xffffffff.
Definition NILTHREAD_RAW : Z := 0xfffffffc.
Definition MYSELF_RAW : Z := 0xfffffffd.
Definition TYPE_CAP : Z := 0.
Definition get_index (tid : Z) : Z := field_index tid.
Definition get_type (tid : Z) : Z := field_type tid.
Definition is_cap_type (tid : Z) : bool := get_type tid =? TYPE_CAP.
Definition is_nilthread (tid : Z) : bool := tid =? NILTHREAD_RAW.
Definition is_anythread (tid : Z) : bool := tid =? ANYTHREAD_RAW.
Definition is_myself (tid : Z) : bool := tid =? MYSELF_RAW.

(** *** [cap_t] *)

Definition cap_type_invalid : Z := 0.
Definition cap_type_thread : Z := 1.
Definition cap_type_ipc : Z := 2.

Definition thread_cap (tcb : Z) : Z := make_word cap_type_thread (ARCH_OBJECT_INDEX tcb).
Definition ipc_cap (tcb : Z) : Z := make_word cap_type_ipc (ARCH_OBJECT_INDEX tcb).
Definition word_tcb (w : Z) : Z := ARCH_OBJECT_PTR (field_index w).
Definition is_valid_cap (w : Z) : bool := negb (w =? cap_type_invalid).
Definition is_thread_cap (w : Z) : bool := field_type w =? cap_type_thread.
Definition is_ipc_cap (w : Z) : bool := field_type w =? cap_type_ipc.
Definition can_ipc_cap (w : Z) : bool := (field_type w =? cap_type_thread) || (field_type w =? cap_type_ipc).

(** ** The state *)

Inductive ref_field : Type := pager | exception_handler.

(** The address of a cell: an entry of a capability list, or a reference in a
    thread control block. *)
Inductive cell : Type :=
| Entry (clist i : Z)
| Ref (tcb : Z) (f : ref_field).

#[export] Instance ref_field_eq_dec : EqDecision ref_field.
Proof. solve_decision. Defined.
#[export] Instance cell_eq_dec : EqDecision cell.
Proof. solve_decision. Defined.
#[export] Instance cell_countable : Countable cell.
Proof.
  refine (inj_countable'
    (fun c => match c with Entry a i => inl (a, i) | Ref t pager => inr (t, true) | Ref t exception_handler => inr (t, false) end)
    (fun x => match x with inl (a, i) => Entry a i | inr (t, true) => Ref t pager | inr (t, false) => Ref t exception_handler end) _).
  by intros [?|? []].
Defined.

(** [cap_t] and [ref_t], which the code casts into each other: a word (the
    capability, or the pointer to the thread) and a link. *)
Record cap_t : Type := Cap { raw : Z; next : option cell }.
Definition set_raw v (c : cap_t) := Cap v (next c).
Definition set_next v (c : cap_t) := Cap (raw c) v.
Definition cap_init : cap_t := Cap 0 None.

Record clist_t : Type := Clist { max_id : Z; num_spaces : Z }.

(** The fields of a TCB that matter here. *)
Record ktcb : Type := Ktcb { master_cap : option cell; locked : Z }.
Definition set_master_cap v (t : ktcb) := Ktcb v (locked t).
Definition set_locked v (t : ktcb) := Ktcb (master_cap t) v.

Section model.
Context {H : Type} `{KH : !Kheap H}.

Record cstate : Type := CState {
  cells : gmap cell cap_t;
  clists : gmap Z clist_t;
  ktcbs : gmap Z ktcb;
  clist_lookup : list Z;
  reference_locked : Z;
  heap : H
}.

Definition set_cells v s := CState v (clists s) (ktcbs s) (clist_lookup s) (reference_locked s) (heap s).
Definition set_clists v s := CState (cells s) v (ktcbs s) (clist_lookup s) (reference_locked s) (heap s).
Definition set_ktcbs v s := CState (cells s) (clists s) v (clist_lookup s) (reference_locked s) (heap s).
Definition set_clist_lookup v s := CState (cells s) (clists s) (ktcbs s) v (reference_locked s) (heap s).
Definition set_reference_locked v s := CState (cells s) (clists s) (ktcbs s) (clist_lookup s) v (heap s).
Definition set_heap v s := CState (cells s) (clists s) (ktcbs s) (clist_lookup s) (reference_locked s) v.

Abbreviation K A := (M cstate A).

Definition on_heap {A} (c : M H A) : K A :=
  fun s => match c (heap s) with Done a h => Done a (set_heap h s) | Crash f => Crash f end.

Definition rd (p : option cell) : K cap_t :=
  let! c := demand InvalidPointer p in
  let! m := gets cells in
  demand InvalidPointer (m !! c).
Definition wr (p : option cell) (g : cap_t -> cap_t) : K unit :=
  let! c := demand InvalidPointer p in
  let! m := gets cells in
  let! v := demand InvalidPointer (m !! c) in
  modify (set_cells (<[c := g v]> m)).

Definition rd_tcb {A} (tcb : Z) (field : ktcb -> A) : K A :=
  let! m := gets ktcbs in
  let! t := demand InvalidPointer (m !! tcb) in
  ret (field t).
Definition wr_tcb (tcb : Z) (g : ktcb -> ktcb) : K unit :=
  let! m := gets ktcbs in
  let! t := demand InvalidPointer (m !! tcb) in
  modify (set_ktcbs (<[tcb := g t]> m)).

Definition rd_clist {A} (clist : Z) (field : clist_t -> A) : K A :=
  let! m := gets clists in
  let! l := demand InvalidPointer (m !! clist) in
  ret (field l).

(** ** Locks ([read_write_lock_t] without CONFIG_MUNITS) *)

Definition try_lock_read (tcb : Z) : K unit :=
  let! l := rd_tcb tcb locked in
  do! ASSERT (0 <=? s32 l) in
  wr_tcb tcb (set_locked (u32 (l + 1))).
Definition lock_read_already_held (tcb : Z) : K unit := try_lock_read tcb.
Definition unlock_read (tcb : Z) : K unit :=
  let! l := rd_tcb tcb locked in
  do! ASSERT (0 <? s32 l) in
  wr_tcb tcb (set_locked (u32 (l - 1))).
Definition try_lock_write (tcb : Z) : K unit :=
  let! l := rd_tcb tcb locked in
  do! ASSERT (s32 l =? 0) in
  wr_tcb tcb (set_locked (u32 (-1))).
Definition unlock_write (tcb : Z) : K unit :=
  let! l := rd_tcb tcb locked in
  do! ASSERT (s32 l =? -1) in
  wr_tcb tcb (set_locked 0).

(** [cap_reference_lock] *)
Definition reference_lock : K unit :=
  let! l := gets reference_locked in
  do! ASSERT (s32 l =? 0) in
  modify (set_reference_locked (u32 (-1))).
Definition reference_unlock : K unit :=
  let! l := gets reference_locked in
  do! ASSERT (s32 l =? -1) in
  modify (set_reference_locked 0).

(** ** The chains of references ([cap_reference_t]) *)

Definition add_reference_after (master_cap cap : option cell) : K unit :=
  let! m := rd master_cap in
  let! c := rd cap in
  do! ASSERT (word_tcb (raw m) =? word_tcb (raw c)) in
  do! reference_lock in
  let! m := rd master_cap in
  do! wr cap (set_next (next m)) in
  do! wr master_cap (set_next cap) in
  reference_unlock.

Definition add_reference (tcb : Z) (cap : option cell) : K unit :=
  let! m := rd_tcb tcb master_cap in
  match m with
  | None =>
      do! wr_tcb tcb (set_master_cap cap) in
      let! c := rd cap in
      ASSERT (bool_decide (next c = None))
  | Some _ => add_reference_after m cap
  end.

(** The cell whose link is [cap], from [prev] on. *)
Fixpoint find_prev (fuel : nat) (prev cap : option cell) : K (option cell) :=
  match prev with
  | None => ret None
  | Some _ =>
      let! p := rd prev in
      if bool_decide (next p = cap) then ret prev
      else
        match fuel with
        | O => crash LoopBoundExceeded
        | S fuel' => find_prev fuel' (next p) cap
        end
  end.

Definition unchain (master_cap cap : option cell) : K unit :=
  do! reference_lock in
  let! n := gets (fun s => size (cells s)) in
  let! prev := find_prev n master_cap cap in
  do! (when bool_decide (prev <> None) do
         let! c := rd cap in
         do! wr prev (set_next (next c)) in
         wr cap (fun _ => cap_init)) in
  reference_unlock.

(** [remove_reference] of a capability, and of an internal reference. *)
Definition remove_reference (tcb : Z) (cap : option cell) : K unit :=
  let! master := rd_tcb tcb master_cap in
  let! m := rd master in
  let! c := rd cap in
  do! ASSERT (word_tcb (raw m) =? word_tcb (raw c)) in
  unchain master cap.
Definition remove_reference_ref (tcb : Z) (ref : option cell) : K unit :=
  let! master := rd_tcb tcb master_cap in
  let! m := rd master in
  let! r := rd ref in
  do! ASSERT (word_tcb (raw m) =? raw r) in
  unchain master ref.

Fixpoint clear_chain (fuel : nat) (temp : option cell) : K unit :=
  match temp with
  | None => ret tt
  | Some _ =>
      match fuel with
      | O => crash LoopBoundExceeded
      | S fuel' =>
          do! wr temp (set_raw 0) in
          let! c := rd temp in
          do! wr temp (set_next None) in
          clear_chain fuel' (next c)
      end
  end.

Definition invalidate_reference (tcb : Z) : K unit :=
  let! master := rd_tcb tcb master_cap in
  do! reference_lock in
  let! n := gets (fun s => size (cells s)) in
  do! clear_chain n master in
  do! reference_unlock in
  wr_tcb tcb (set_master_cap None).

(** *** [ref_t] *)

Definition ref_get (tcb : Z) (f : ref_field) : K Z := let! r := rd (Some (Ref tcb f)) in ret (raw r).

Definition set_referenced (this : cell) (tcb : Z) : K unit :=
  do! ASSERT (negb (tcb =? 0)) in
  let! r := rd (Some this) in
  do! ASSERT (raw r =? 0) in
  do! wr (Some this) (set_raw tcb) in
  let! m := rd_tcb tcb master_cap in
  add_reference_after m (Some this).

Definition remove_referenced (this : cell) (tcb : Z) : K unit :=
  do! ASSERT (negb (tcb =? 0)) in
  let! r := rd (Some this) in
  do! ASSERT (raw r =? tcb) in
  remove_reference_ref tcb (Some this).

(** [tcb_t::set_pager] and [tcb_t::set_exception_handler]. *)
Definition set_handler (f : ref_field) (this tcb : Z) : K unit :=
  let! old := ref_get this f in
  do! (when negb (old =? 0) do remove_referenced (Ref this f) old) in
  when negb (tcb =? 0) do set_referenced (Ref this f) tcb.
Definition set_pager := set_handler pager.
Definition set_exception_handler := set_handler exception_handler.

(** ** Capability lists *)

Definition entry_at (clist tid : Z) : option cell := Some (Entry clist (get_index tid)).

Definition is_valid (clist tid : Z) : K bool :=
  let! m := rd_clist clist max_id in
  ret (negb (m <? get_index tid)).

(** The checks the four lookups share. *)
Definition lookup_entry (clist tid : Z) : K (option cap_t) :=
  if negb (is_cap_type tid) then ret None
  else
    let! ok := is_valid clist tid in
    if ok then (let! c := rd (entry_at clist tid) in ret (Some c)) else ret None.

(** Results are pointers to TCBs, 0 for NULL. *)
Definition lookup_thread_cap_locked (clist tid : Z) (write : bool) (tcb_locked : Z) : K Z :=
  let! entry := lookup_entry clist tid in
  match entry with
  | None => ret 0
  | Some c =>
      if negb (is_thread_cap (raw c)) then ret 0
      else
        let tcb := word_tcb (raw c) in
        do! (if write then try_lock_write tcb
             else if tcb =? tcb_locked then lock_read_already_held tcb else try_lock_read tcb) in
        ret tcb
  end.

Definition lookup_thread_cap_unlocked (clist tid : Z) : K Z :=
  let! entry := lookup_entry clist tid in
  match entry with
  | None => ret 0
  | Some c => if negb (is_thread_cap (raw c)) then ret 0 else ret (word_tcb (raw c))
  end.

Definition lookup_ipc_cap_locked (clist tid : Z) (tcb_locked : Z) : K Z :=
  let! entry := lookup_entry clist tid in
  match entry with
  | None => ret 0
  | Some c =>
      if negb (can_ipc_cap (raw c)) then ret 0
      else
        let tcb := word_tcb (raw c) in
        do! (if tcb =? tcb_locked then lock_read_already_held tcb else try_lock_read tcb) in
        ret tcb
  end.

Definition lookup_cap (clist tid : Z) : K (option cell) :=
  let! entry := lookup_entry clist tid in
  match entry with
  | None => ret None
  | Some c => if negb (is_valid_cap (raw c)) then ret None else ret (entry_at clist tid)
  end.

(** [add_thread_cap] and [add_ipc_cap], which differ in the word they store. *)
Definition add_cap (word : Z -> Z) (clist tid tcb : Z) : K bool :=
  do! ASSERT (negb (tcb =? 0)) in
  do! ASSERT (is_cap_type tid) in
  let! ok := is_valid clist tid in
  do! ASSERT ok in
  let entry := entry_at clist tid in
  let! c := rd entry in
  if is_valid_cap (raw c) then ret false
  else
    do! wr entry (set_raw (word tcb)) in
    do! add_reference tcb entry in
    ret true.
Definition add_thread_cap := add_cap thread_cap.
Definition add_ipc_cap := add_cap ipc_cap.

Definition remove_thread_cap (clist tid : Z) : K bool :=
  do! ASSERT (is_cap_type tid) in
  let! ok := is_valid clist tid in
  do! ASSERT ok in
  let! c := rd (entry_at clist tid) in
  if negb (is_thread_cap (raw c)) then ret false
  else
    do! invalidate_reference (word_tcb (raw c)) in
    ret true.

Definition remove_ipc_cap (clist tid : Z) : K bool :=
  do! ASSERT (is_cap_type tid) in
  let! ok := is_valid clist tid in
  do! ASSERT ok in
  let! c := rd (entry_at clist tid) in
  if negb (is_ipc_cap (raw c)) then ret false
  else
    let tcb := word_tcb (raw c) in
    do! try_lock_write tcb in
    do! remove_reference tcb (entry_at clist tid) in
    do! unlock_write tcb in
    ret true.

(** The loop of [is_empty]: some entry from [i] on is valid. *)
Fixpoint find_valid (n : nat) (clist i : Z) : K bool :=
  match n with
  | O => ret false
  | S n' =>
      let! c := rd (Some (Entry clist i)) in
      if is_valid_cap (raw c) then ret true else find_valid n' clist (i + 1)
  end.

Definition is_empty (clist : Z) : K bool :=
  let! m := rd_clist clist max_id in
  let! found := find_valid (Z.to_nat (m + 1)) clist 0 in
  ret (negb found).

Definition num_entries (clist : Z) : K Z := let! m := rd_clist clist max_id in ret (u32 (m + 1)).

(** [clist_t::init] *)
Definition clist_init (clist num_ids : Z) : K unit :=
  do! ASSERT (0 <? num_ids) in
  let! m := gets clists in
  let! _ := demand InvalidPointer (m !! clist) in
  modify (set_clists (<[clist := Clist (u32 (num_ids - 1)) 0]> m)).

(** *** The table of lists ([clistid_lookup_t], an [id_lookup_t]) *)

Definition valid_id (id : Z) : K bool :=
  let! t := gets clist_lookup in
  ret (negb (Z.of_nat (length t) - 1 <? id)).
Definition lookup_id (id : Z) : K Z :=
  let! ok := valid_id id in
  if ok then (let! t := gets clist_lookup in index t id) else ret 0.
Definition add_object (id obj : Z) : K unit :=
  let! ok := valid_id id in
  do! ASSERT ok in
  let! t := gets clist_lookup in
  let! old := index t id in
  do! ASSERT (old =? 0) in
  let! t' := index_set t id obj in
  modify (set_clist_lookup t').
Definition remove_object (id : Z) : K unit :=
  let! ok := valid_id id in
  do! ASSERT ok in
  let! t := gets clist_lookup in
  let! old := index t id in
  do! ASSERT (negb (old =? 0)) in
  let! t' := index_set t id 0 in
  modify (set_clist_lookup t').

(** [resource_ids_t]: a range of 16-bit identifiers; the argument of
    [is_valid] is a [u16_t]. *)
Record resource_ids_t : Type := ResourceIds { rbase : Z; rsize : Z }.
Definition u16 (x : Z) : Z := x mod 2 ^ 16.
Definition range_is_valid (r : resource_ids_t) (id : Z) : bool :=
  (rbase r <=? u16 id) && (u16 id <? rbase r + rsize r).

(** [generic_space_t::lookup_clist]; a space is known by its range. *)
Definition lookup_clist (space : resource_ids_t) (clist_id : Z) : K Z :=
  if negb (range_is_valid space clist_id) then ret 0 else lookup_id clist_id.

(** *** Memory of a list *)

Definition SIZEOF_CAP : Z := 8.
Definition SIZEOF_CLIST : Z := 12.
Definition addr_align_up (addr align : Z) : Z := Z.land (u32 (addr + (align - 1))) (not32 (align - 1)).
Definition clist_alloc_size (entries : Z) : Z :=
  addr_align_up (u32 (SIZEOF_CAP * entries + SIZEOF_CLIST)) Kmem.KMEM_CHUNKSIZE.

(** The entries that fit into [size] bytes of cleared memory at [clist]. *)
Definition entry_cells (clist size : Z) : gmap cell cap_t :=
  list_to_map ((fun i => (Entry clist (Z.of_nat i), cap_init)) <$> seq 0 (Z.to_nat ((size - SIZEOF_CLIST) / SIZEOF_CAP))).

Definition cell_in (clist : Z) (c : cell) : bool := match c with Entry a _ => a =? clist | Ref _ _ => false end.

(** [kresource->alloc] and [kresource->free] for capability lists. *)
Definition alloc_clist (size : Z) : K Z :=
  let! a := on_heap (kalloc size true) in
  do! (when negb (a =? 0) do
         modify (fun s => set_clists (<[a := Clist 0 0]> (clists s)) (set_cells (entry_cells a size ∪ cells s) s))) in
  ret a.
Definition free_clist (clist size : Z) : K unit :=
  do! on_heap (kfree clist size) in
  modify (fun s => set_clists (delete clist (clists s)) (set_cells (filter (fun cv => cell_in clist cv.1 = false) (cells s)) s)).

(** ** [SYS_CAP_CONTROL] *)

Definition EINVALID_THREAD : Z := 2.
Definition EINVALID_SPACE : Z := 3.
Definition EUTCB_AREA : Z := 6.
Definition ENO_MEM : Z := 8.
Definition ECLIST_NOT_EMPTY : Z := 9.
Definition EINVALID_PARAM : Z := 5.
Definition EINVALID_CLIST : Z := 12.
Definition EINVALID_CAP : Z := 13.

Definition op_create_clist : Z := 0.
Definition op_delete_clist : Z := 1.
Definition op_copy_cap : Z := 4.
Definition op_delete_cap : Z := 5.
Definition get_op (control : Z) : Z := Z.land control 7.

(** A system call returns 1, or 0 with an error code. *)
Inductive sys_result : Type :=
| Success
| Error (code : Z).

Definition create_clist (space : resource_ids_t) (clist_id clist entries : Z) : K sys_result :=
  if negb (range_is_valid space clist_id) then ret (Error EINVALID_CLIST)
  else if negb (clist =? 0) then ret (Error EINVALID_CLIST)
  else
    let! new_list := alloc_clist (clist_alloc_size entries) in
    if new_list =? 0 then ret (Error ENO_MEM)
    else
      do! clist_init new_list entries in
      do! add_object clist_id new_list in
      ret Success.

Definition delete_clist (clist_id clist : Z) : K sys_result :=
  if clist =? 0 then ret (Error EINVALID_CLIST)
  else
    let! n := rd_clist clist num_spaces in
    if negb (n =? 0) then ret (Error ECLIST_NOT_EMPTY)
    else
      let! e := is_empty clist in
      if negb e then ret (Error ECLIST_NOT_EMPTY)
      else
        let! entries := num_entries clist in
        do! remove_object clist_id in
        do! free_clist clist (clist_alloc_size entries) in
        ret Success.

Definition copy_cap (space : resource_ids_t) (clist src_id target_list_id target_id : Z) : K sys_result :=
  if clist =? 0 then ret (Error EINVALID_CLIST)
  else
    let! target_list := lookup_clist space target_list_id in
    if target_list =? 0 then ret (Error EINVALID_CLIST)
    else
      let! ok := is_valid target_list target_id in
      if negb ok then ret (Error EINVALID_CAP)
      else
        let! tcb_locked := lookup_thread_cap_locked clist src_id false 0 in
        if tcb_locked =? 0 then ret (Error EINVALID_CAP)
        else
          let! added := add_ipc_cap target_list target_id tcb_locked in
          do! unlock_read tcb_locked in
          ret (if added then Success else Error EINVALID_CAP).

Definition delete_cap (clist target_id : Z) : K sys_result :=
  if clist =? 0 then ret (Error EINVALID_CLIST)
  else
    let! ok := is_valid clist target_id in
    if negb ok then ret (Error EINVALID_CAP)
    else
      let! removed := remove_ipc_cap clist target_id in
      ret (if removed then Success else Error EINVALID_CAP).

(** The arguments: the caller's space, the list, the operation and the first
    three message registers. *)
Definition sys_cap_control (space : resource_ids_t) (clist_id control mr0 mr1 mr2 : Z) : K sys_result :=
  let! clist := lookup_clist space clist_id in
  let op := get_op control in
  if op =? op_create_clist then create_clist space clist_id clist mr0
  else if op =? op_delete_clist then delete_clist clist_id clist
  else if op =? op_copy_cap then copy_cap space clist mr0 mr1 mr2
  else if op =? op_delete_cap then delete_cap clist mr0
  else ret (Error EINVALID_PARAM).

(** ** References held by threads ([thread.cc]) *)

Definition acquire_read_lock_tcb (tcb tcb_locked : Z) : K Z :=
  let! master := rd_tcb tcb master_cap in
  match master with
  | None => ret 0
  | Some _ =>
      let! lookup := rd master in
      if negb (is_thread_cap (raw lookup)) then ret 0
      else if word_tcb (raw lookup) =? tcb then
        do! (if tcb =? tcb_locked then lock_read_already_held tcb else try_lock_read tcb) in
        ret tcb
      else ret 0
  end.

(** One handler of [set_thread_handlers]. *)
Definition set_thread_handler (f : ref_field) (clist dest_tcb tid : Z) : K bool :=
  if is_cap_type tid then
    let! tcb := lookup_thread_cap_unlocked clist tid in
    if tcb =? 0 then ret false
    else
      do! set_handler f dest_tcb tcb in
      ret true
  else ret (is_nilthread tid || is_anythread tid).

Definition set_thread_handlers (clist dest_tcb pager_tid except_handler_tid : Z) : K bool :=
  let! l := rd_tcb dest_tcb locked in
  do! ASSERT (negb (l =? 0)) in
  let! ok := set_thread_handler pager clist dest_tcb pager_tid in
  if negb ok then ret false else set_thread_handler exception_handler clist dest_tcb except_handler_tid.

(** ** [SYS_THREAD_CONTROL] *)

(** The parts of the call that are not about capabilities, by their results:
    whether the caller may use kernel memory, whether the space exists and
    takes the UTCB, the new TCB (0 if there is no memory for one), and the
    error codes with which its activation and the set-up of its resources
    fail. *)
Record tc_outside : Type := TcOutside {
  kresourced : bool;
  space_found : bool;
  utcb_location_ok : bool;
  new_tcb : Z;
  activate_error : option Z;
  resources_error : option Z
}.

(** A new TCB: cleared memory, an open lock ([tcb_t::init]), empty references;
    and a TCB given back.  The table of thread handles is not modelled. *)
Definition tcb_init (tcb : Z) : K unit :=
  modify (fun s => set_ktcbs (<[tcb := Ktcb None 0]> (ktcbs s))
    (set_cells (<[Ref tcb pager := cap_init]> (<[Ref tcb exception_handler := cap_init]> (cells s))) s)).
Definition free_tcb (tcb : Z) : K unit :=
  modify (fun s => set_ktcbs (delete tcb (ktcbs s))
    (set_cells (delete (Ref tcb pager) (delete (Ref tcb exception_handler) (cells s))) s)).

(** [tcb_t::delete_tcb]: the references it holds, and its memory. *)
Definition delete_tcb (tcb : Z) : K unit :=
  do! set_pager tcb 0 in
  do! set_exception_handler tcb 0 in
  free_tcb tcb.

Definition UTCB_KEEP : Z := 0xffffffff.

(** Modification and deletion of a thread; [fuel] bounds the retries. *)
Fixpoint modify_thread (fuel : nat) (o : tc_outside) (clist current dest_tid pager_tid except_handler_tid : Z)
    (resources_valid : bool) (utcb_address : Z) : K sys_result :=
  let! dest_tcb := lookup_thread_cap_locked clist dest_tid true 0 in
  if dest_tcb =? 0 then ret (Error EINVALID_THREAD)
  else if utcb_address =? 0 then
    if dest_tcb =? current then
      do! unlock_write dest_tcb in
      ret (Error EINVALID_THREAD)
    else
      let! removed := remove_thread_cap clist dest_tid in
      if removed then
        do! delete_tcb dest_tcb in
        ret Success
      else
        do! unlock_write dest_tcb in
        match fuel with
        | O => crash LoopBoundExceeded
        | S fuel' => modify_thread fuel' o clist current dest_tid pager_tid except_handler_tid resources_valid utcb_address
        end
  else if negb (utcb_address =? UTCB_KEEP) then
    do! unlock_write dest_tcb in
    ret (Error EUTCB_AREA)
  else
    let! ok := set_thread_handlers clist dest_tcb pager_tid except_handler_tid in
    do! unlock_write dest_tcb in
    ret (if negb ok then Error EINVALID_PARAM
         else if resources_valid then from_option Error Success (resources_error o) else Success).

(** The two ends of a creation that fails: with and without a capability. *)
Definition free_cap_error_out (dest_tcb code : Z) : K sys_result :=
  do! unlock_write dest_tcb in
  do! delete_tcb dest_tcb in
  ret (Error code).
Definition free_tcb_error_out (clist dest_tid dest_tcb code : Z) : K sys_result :=
  let! removed := remove_thread_cap clist dest_tid in
  do! ASSERT removed in
  free_cap_error_out dest_tcb code.

Definition create_thread (o : tc_outside) (clist dest_tid pager_tid except_handler_tid : Z) (resources_valid : bool) : K sys_result :=
  let! ok := is_valid clist dest_tid in
  if negb ok then ret (Error EINVALID_THREAD)
  else if negb (space_found o) then ret (Error EINVALID_SPACE)
  else if negb (utcb_location_ok o) then ret (Error EUTCB_AREA)
  else
    let dest_tcb := new_tcb o in
    if dest_tcb =? 0 then ret (Error ENO_MEM)
    else
      do! tcb_init dest_tcb in
      do! try_lock_write dest_tcb in
      let! added := add_thread_cap clist dest_tid dest_tcb in
      if negb added then free_cap_error_out dest_tcb EINVALID_THREAD
      else
        let! ok := set_thread_handlers clist dest_tcb pager_tid except_handler_tid in
        if negb ok then free_tcb_error_out clist dest_tid dest_tcb EINVALID_PARAM
        else
          match activate_error o with
          | Some e => free_tcb_error_out clist dest_tid dest_tcb e
          | None =>
              match (if resources_valid then resources_error o else None) with
              | Some e => free_tcb_error_out clist dest_tid dest_tcb e
              | None =>
                  do! unlock_write dest_tcb in
                  ret Success
              end
          end.

Definition sys_thread_control (o : tc_outside) (clist current dest_tid : Z) (nilspace : bool)
    (pager_tid except_handler_tid : Z) (resources_valid : bool) (utcb_address : Z) : K sys_result :=
  if is_myself dest_tid || is_myself pager_tid || is_myself except_handler_tid then ret (Error EINVALID_THREAD)
  else if negb (kresourced o) then ret (Error EINVALID_SPACE)
  else if negb (is_cap_type dest_tid) then ret (Error EINVALID_THREAD)
  else if nilspace then modify_thread 0 o clist current dest_tid pager_tid except_handler_tid resources_valid utcb_address
  else create_thread o clist dest_tid pager_tid except_handler_tid resources_valid.

End model.
End Caps.
