(* ===== verification/MicroCapInv.v ===== *)
(** * The capability invariant

    Every cell that is in use denotes a thread that exists and is on the chain
    of that thread; the first cell of a chain is the thread's only thread
    capability.  Capability lists lie in regions of the kernel heap that are
    not free and do not overlap. *)

From S2P Require Import Prelude MicroLib MicroKmem MicroCaps.
Import Caps.
#[local] Open Scope Z_scope.

(** ** Words *)

(** Addresses of kernel objects. *)
Definition is_object (t : Z) : Prop := VIRT_ADDR_BASE < t < WORD_MOD.

Lemma mask28 : CAPID_INDEX_MASK = Z.ones 28.
Proof. by vm_compute. Qed.

Lemma field_index_mod w : field_index w = w mod 2 ^ 28.
Proof. unfold field_index. rewrite mask28. by apply Z.land_ones. Qed.

Lemma field_type_div w : field_type w = w / 2 ^ 28.
Proof. unfold field_type. by apply Z.shiftr_div_pow2. Qed.

Lemma make_word_add ty i : 0 <= ty < 16 -> 0 <= i < 2 ^ 28 -> make_word ty i = ty * 2 ^ 28 + i.
Proof.
  intros Ht Hi. unfold make_word. rewrite mask28, Z.land_ones, Z.mod_small by lia.
  change 15 with (Z.ones 4). rewrite Z.land_ones, Z.mod_small by lia. rewrite Z.shiftl_mul_pow2 by lia.
  pose proof (Z.add_lor_land (ty * 2 ^ 28) i) as Hadd. assert (Z.land (ty * 2 ^ 28) i = 0) as E; [|lia].
  apply Z.bits_inj_0. intros n. rewrite Z.land_spec. destruct (Z.lt_ge_cases n 28) as [Hn|Hn].
  - destruct (Z.lt_ge_cases n 0); [by rewrite Z.testbit_neg_r|]. rewrite Z.mul_pow2_bits_low by lia. done.
  - rewrite (Z.bits_above_log2 i n); [by rewrite andb_false_r|lia|]. destruct (Z.eq_dec i 0) as [->|]; [simpl; lia|].
    apply Z.log2_lt_pow2; [lia|]. eapply Z.lt_le_trans; [apply Hi|]. by apply Z.pow_le_mono_r.
Qed.

Lemma object_index t : is_object t -> ARCH_OBJECT_INDEX t = t - VIRT_ADDR_BASE.
Proof. unfold is_object, ARCH_OBJECT_INDEX, VIRT_ADDR_BASE, WORD_MOD. intros Ht. apply u32_word. unfold is_word, WORD_MOD. lia. Qed.

Lemma cap_word_fields ty t :
  is_object t -> 0 <= ty < 16 ->
  field_type (make_word ty (ARCH_OBJECT_INDEX t)) = ty /\ word_tcb (make_word ty (ARCH_OBJECT_INDEX t)) = t.
Proof.
  intros Ht Hty. rewrite object_index by done. unfold is_object, VIRT_ADDR_BASE, WORD_MOD in Ht.
  rewrite make_word_add by (unfold VIRT_ADDR_BASE; lia). unfold word_tcb, ARCH_OBJECT_PTR. rewrite field_type_div, field_index_mod.
  rewrite Z.div_add_l by lia. rewrite (Z.add_comm (ty * 2 ^ 28)), Z.mod_add by lia. unfold VIRT_ADDR_BASE.
  rewrite Z.div_small, Z.mod_small by lia. split; [lia|]. rewrite u32_word; unfold is_word, WORD_MOD; lia.
Qed.

Lemma thread_cap_fields t : is_object t ->
  is_thread_cap (thread_cap t) = true /\ is_ipc_cap (thread_cap t) = false /\ can_ipc_cap (thread_cap t) = true /\
  word_tcb (thread_cap t) = t /\ is_valid_cap (thread_cap t) = true.
Proof.
  intros Ht. destruct (cap_word_fields 1 t Ht) as [H1 H2]; [lia|]. unfold is_thread_cap, is_ipc_cap, can_ipc_cap, is_valid_cap, thread_cap.
  unfold cap_type_thread, cap_type_ipc, cap_type_invalid in *. rewrite H1, H2. split_and!; try done.
  destruct (Z.eqb_spec (make_word 1 (ARCH_OBJECT_INDEX t)) 0) as [E|]; [|done]. by rewrite E in H1.
Qed.

Lemma ipc_cap_fields t : is_object t ->
  is_thread_cap (ipc_cap t) = false /\ is_ipc_cap (ipc_cap t) = true /\ can_ipc_cap (ipc_cap t) = true /\
  word_tcb (ipc_cap t) = t /\ is_valid_cap (ipc_cap t) = true.
Proof.
  intros Ht. destruct (cap_word_fields 2 t Ht) as [H1 H2]; [lia|]. unfold is_thread_cap, is_ipc_cap, can_ipc_cap, is_valid_cap, ipc_cap.
  unfold cap_type_thread, cap_type_ipc, cap_type_invalid in *. rewrite H1, H2. split_and!; try done.
  destruct (Z.eqb_spec (make_word 2 (ARCH_OBJECT_INDEX t)) 0) as [E|]; [|done]. by rewrite E in H1.
Qed.

(** A pointer to a thread, read as a capability, denotes the same thread. *)
Lemma pointer_fields t : is_object t -> word_tcb t = t /\ t <> 0.
Proof.
  unfold is_object, VIRT_ADDR_BASE, WORD_MOD. intros Ht. split; [|lia]. unfold word_tcb, ARCH_OBJECT_PTR, VIRT_ADDR_BASE. rewrite field_index_mod.
  assert (t mod 2 ^ 28 = t - 15 * 2 ^ 28) as -> by (symmetry; apply (Z.mod_unique_pos _ _ 15); lia).
  rewrite u32_word; unfold is_word, WORD_MOD; lia.
Qed.

Lemma zero_not_cap : is_thread_cap 0 = false /\ is_ipc_cap 0 = false /\ can_ipc_cap 0 = false /\ is_valid_cap 0 = false.
Proof. by vm_compute. Qed.

(** ** What a cell denotes *)

Inductive right : Type :=
| ThreadCap (t : Z)
| IpcCap (t : Z)
| Reference (t : Z).

Definition right_target (r : right) : Z := match r with ThreadCap t | IpcCap t | Reference t => t end.

(** The word that stands for a right, in an entry or in a reference. *)
Definition right_word (r : right) : Z :=
  match r with ThreadCap t => thread_cap t | IpcCap t => ipc_cap t | Reference t => t end.

Definition right_fits (c : cell) (r : right) : Prop :=
  match c, r with
  | Entry _ _, ThreadCap _ | Entry _ _, IpcCap _ | Ref _ _, Reference _ => True
  | _, _ => False
  end.

Lemma right_word_tcb r : is_object (right_target r) -> word_tcb (right_word r) = right_target r /\ right_word r <> 0.
Proof.
  destruct r as [t|t|t]; simpl; intros Ht.
  - destruct (thread_cap_fields t Ht) as (_ & _ & _ & H1 & H2). split; [done|]. intros E. by rewrite E in H2.
  - destruct (ipc_cap_fields t Ht) as (_ & _ & _ & H1 & H2). split; [done|]. intros E. by rewrite E in H2.
  - by apply pointer_fields.
Qed.

Lemma right_word_inj c r r' :
  right_fits c r -> right_fits c r' -> is_object (right_target r) -> is_object (right_target r') -> right_word r = right_word r' -> r = r'.
Proof.
  intros F F' O O' E. pose proof (right_word_tcb r O) as [T _]. pose proof (right_word_tcb r' O') as [T' _].
  rewrite E in T. assert (Et : right_target r = right_target r') by congruence.
  destruct c, r as [t|t|t], r' as [t'|t'|t']; simpl in *; try done; subst t'; try done.
  - destruct (thread_cap_fields t O) as [H _]. destruct (ipc_cap_fields t O) as [H' _]. congruence.
  - destruct (thread_cap_fields t O) as [H _]. destruct (ipc_cap_fields t O) as [H' _]. congruence.
Qed.

(** ** Chains *)

Section chains.
Implicit Types (m : gmap cell cap_t) (L : list cell) (c : cell) (p e : option cell).

(** Following the links from [p] through [L] leads to [e]. *)
Fixpoint cseg m p L e : Prop :=
  match L with
  | [] => p = e
  | c :: L' => p = Some c /\ exists v, m !! c = Some v /\ cseg m (next v) L' e
  end.

Lemma cseg_app m p L R e : cseg m p (L ++ R) e <-> exists q, cseg m p L q /\ cseg m q R e.
Proof.
  revert p. induction L as [|c L IH]; intros p; simpl; [naive_solver|]. setoid_rewrite IH. naive_solver.
Qed.

Lemma cseg_frame m m' p L e :
  (forall c, c ∈ L -> next <$> m' !! c = next <$> m !! c) -> cseg m p L e -> cseg m' p L e.
Proof.
  revert p. induction L as [|c L IH]; intros p Hf; simpl; [done|]. intros (-> & v & Hv & H). split; [done|].
  pose proof (Hf c (list_elem_of_here _ _)) as E. rewrite Hv in E. simpl in E. apply fmap_Some in E as (v' & Hv' & E).
  exists v'. split; [done|]. rewrite <-E. apply IH; [|done]. intros x Hx. by apply Hf, list_elem_of_further.
Qed.

Lemma cseg_in m p L e c : cseg m p L e -> c ∈ L -> is_Some (m !! c).
Proof.
  revert p. induction L as [|d L IH]; intros p; simpl; [by intros _ Hc; apply elem_of_nil in Hc|].
  intros (_ & v & Hv & H) [->|Hc]%elem_of_cons; [by eexists|by eapply IH].
Qed.

End chains.

(** ** The invariant of the cells *)

Implicit Types (D : gmap cell right) (ch : Z -> list cell) (t : Z).

Record Rep (m : gmap cell cap_t) (T : gmap Z ktcb) D ch : Prop := {
  rep_word : forall c v, m !! c = Some v -> match D !! c with Some r => raw v = right_word r | None => v = cap_init end;
  rep_dom : forall c r, D !! c = Some r -> is_Some (m !! c) /\ right_fits c r;
  rep_live : forall c r, D !! c = Some r -> is_Some (T !! right_target r);
  rep_obj : forall t, is_Some (T !! t) -> is_object t;
  rep_chain : forall t k, T !! t = Some k -> cseg m (master_cap k) (ch t) None;
  rep_nodup : forall t, NoDup (ch t);
  rep_in : forall t c, c ∈ ch t <-> exists r, D !! c = Some r /\ right_target r = t;
  rep_head : forall t c, D !! c = Some (ThreadCap t) <-> head (ch t) = Some c;
  rep_refs : forall t f, is_Some (m !! Ref t f) <-> is_Some (T !! t)
}.

Definition upd_chain ch t l : Z -> list cell := fun t' => if decide (t' = t) then l else ch t'.

Lemma upd_chain_eq ch t l : upd_chain ch t l t = l.
Proof. unfold upd_chain. by rewrite decide_True. Qed.
Lemma upd_chain_ne ch t l t' : t' <> t -> upd_chain ch t l t' = ch t'.
Proof. intros. unfold upd_chain. by rewrite decide_False. Qed.

Section rep.
Context (m : gmap cell cap_t) (T : gmap Z ktcb) D ch (R : Rep m T D ch).

Lemma rep_target c r : D !! c = Some r -> is_object (right_target r).
Proof. intros Hr. eapply rep_obj; [done|]. by eapply rep_live. Qed.

Lemma rep_chain_word t c : c ∈ ch t -> exists v r, m !! c = Some v /\ D !! c = Some r /\ raw v = right_word r /\ right_target r = t /\ word_tcb (raw v) = t /\ raw v <> 0.
Proof.
  intros Hc. apply (rep_in _ _ _ _ R) in Hc as (r & Hr & Ht). destruct (rep_dom _ _ _ _ R c r Hr) as [[v Hv] _].
  pose proof (rep_word _ _ _ _ R c v Hv) as Hw. rewrite Hr in Hw. destruct (right_word_tcb r (rep_target c r Hr)) as [H1 H2].
  exists v, r. rewrite Hw. split_and!; congruence.
Qed.

Lemma rep_disjoint t t' c : c ∈ ch t -> c ∈ ch t' -> t = t'.
Proof. rewrite !(rep_in _ _ _ _ R). intros (r & Hr & <-) (r' & Hr' & <-). by simplify_eq. Qed.

(** An entry is free exactly if its word is 0. *)
Lemma rep_free c v : m !! c = Some v -> D !! c = None <-> raw v = 0.
Proof.
  intros Hv. pose proof (rep_word _ _ _ _ R c v Hv) as Hw. destruct (D !! c) as [r|] eqn:E; [|by subst].
  rewrite Hw. split; [done|]. intros E'. by apply (right_word_tcb r (rep_target c r E)) in E'.
Qed.

(** Entering a cell behind the head of a chain. *)
Lemma rep_add c t h l vh r :
  D !! c = None -> is_Some (m !! c) -> ch t = h :: l -> m !! h = Some vh -> right_target r = t -> right_fits c r -> (forall t', r <> ThreadCap t') ->
  Rep (<[h := Cap (raw vh) (Some c)]> (<[c := Cap (right_word r) (next vh)]> m)) T (<[c := r]> D) (upd_chain ch t (h :: c :: l)).
Proof.
  intros HD Hc Hch Hh Hr Hf Hnt. assert (Hin : forall t', c ∉ ch t') by (intros t' (r' & Hr' & _)%(rep_in _ _ _ _ R); congruence).
  assert (Hhc : h <> c) by (intros ->; apply (Hin t); rewrite Hch; apply list_elem_of_here).
  assert (Hht : h ∈ ch t) by (rewrite Hch; apply list_elem_of_here).
  pose proof (rep_nodup _ _ _ _ R t) as Hnd. rewrite Hch in Hnd. apply NoDup_cons in Hnd as [Hhl Hnd].
  constructor.
  - intros d v Hv. destruct (decide (d = c)) as [->|Hdc]; [rewrite lookup_insert_ne, lookup_insert_eq in Hv by done; rewrite lookup_insert_eq; by simplify_eq|].
    rewrite lookup_insert_ne by done. destruct (decide (d = h)) as [->|Hdh].
    + rewrite lookup_insert_eq in Hv. injection Hv as <-. pose proof (rep_word _ _ _ _ R h vh Hh) as Hw. destruct (D !! h) eqn:E; [done|].
      apply (rep_in _ _ _ _ R) in Hht as (? & ? & _). congruence.
    + rewrite !lookup_insert_ne in Hv by done. by eapply rep_word.
  - intros d r' Hr'. rewrite !lookup_insert_is_Some. destruct (decide (d = c)) as [->|Hdc].
    + rewrite lookup_insert_eq in Hr'. injection Hr' as <-. split; [|done]. right. split; [done|]. by left.
    + rewrite lookup_insert_ne in Hr' by done. destruct (rep_dom _ _ _ _ R d r' Hr'). split; [|done].
      destruct (decide (h = d)); [by left|right; split; [done|]; right; by split].
  - intros d r' Hr'. destruct (decide (d = c)) as [->|Hdc]; [rewrite lookup_insert_eq in Hr'|rewrite lookup_insert_ne in Hr' by done; by eapply rep_live].
    injection Hr' as <-. rewrite Hr. apply (rep_in _ _ _ _ R) in Hht as (r0 & Hr0 & <-). by eapply rep_live.
  - apply R.
  - intros t' k Hk. destruct (decide (t' = t)) as [->|Hne].
    + rewrite upd_chain_eq. pose proof (rep_chain _ _ _ _ R t k Hk) as Hs. rewrite Hch in Hs. destruct Hs as (Hm & v & Hv & Hs). rewrite Hh in Hv. injection Hv as <-.
      simpl. split; [done|]. eexists. split; [by apply lookup_insert_eq|]. split; [done|]. eexists.
      split; [by rewrite lookup_insert_ne, lookup_insert_eq by done|]. simpl. eapply cseg_frame; [|done]. intros x Hx.
      rewrite !lookup_insert_ne; [done| |]; intros ->; [apply (Hin t); rewrite Hch; by apply list_elem_of_further|done].
    + rewrite upd_chain_ne by done. eapply cseg_frame; [|by eapply rep_chain]. intros x Hx.
      rewrite !lookup_insert_ne; [done|by intros ->; apply (Hin t')|]. intros ->. by apply Hne, (rep_disjoint t' t x).
  - intros t'. destruct (decide (t' = t)) as [->|Hne]; [rewrite upd_chain_eq|rewrite upd_chain_ne by done; apply R].
    apply NoDup_cons. split; [by rewrite not_elem_of_cons|]. apply NoDup_cons. split; [|done].
    intros Hcl. apply (Hin t). rewrite Hch. by apply list_elem_of_further.
  - intros t' d. destruct (decide (d = c)) as [->|Hdc].
    + rewrite lookup_insert_eq. destruct (decide (t' = t)) as [->|Hne].
      * rewrite upd_chain_eq. split; [by exists r|]. intros _. rewrite !elem_of_cons. tauto.
      * rewrite upd_chain_ne by done. split; [by intros H; apply Hin in H|]. intros (? & [= <-] & <-). done.
    + rewrite lookup_insert_ne by done. rewrite <-(rep_in _ _ _ _ R). destruct (decide (t' = t)) as [->|Hne]; [|by rewrite upd_chain_ne].
      rewrite upd_chain_eq, Hch, !elem_of_cons. tauto.
  - intros t' d. destruct (decide (d = c)) as [->|Hdc].
    + rewrite lookup_insert_eq. split; [intros [= E]; by apply Hnt in E|]. destruct (decide (t' = t)) as [->|Hne].
      * rewrite upd_chain_eq. simpl. congruence.
      * rewrite upd_chain_ne by done. intros Hhd. exfalso. apply (Hin t'). destruct (ch t'); [done|]. injection Hhd as ->. apply list_elem_of_here.
    + rewrite lookup_insert_ne by done. rewrite (rep_head _ _ _ _ R). destruct (decide (t' = t)) as [->|Hne]; [|by rewrite upd_chain_ne].
      by rewrite upd_chain_eq, Hch.
  - intros t' f. rewrite <-(rep_refs _ _ _ _ R t' f), !lookup_insert_is_Some. destruct (decide (h = Ref t' f)) as [->|]; [split; [by eexists|by left]|].
    destruct (decide (c = Ref t' f)) as [->|]; [split; [done|]; intros _; right; split; [done|]; by left|]. tauto.
Qed.

(** Entering the first cell of a chain. *)
Lemma rep_first c t k :
  D !! c = None -> is_Some (m !! c) -> T !! t = Some k -> ch t = [] -> right_fits c (ThreadCap t) ->
  Rep (<[c := Cap (thread_cap t) None]> m) (<[t := set_master_cap (Some c) k]> T) (<[c := ThreadCap t]> D) (upd_chain ch t [c]).
Proof.
  intros HD Hc Hk Hch Hf. assert (Hin : forall t', c ∉ ch t') by (intros t' (r' & Hr' & _)%(rep_in _ _ _ _ R); congruence).
  assert (HT : forall t', is_Some (<[t := set_master_cap (Some c) k]> T !! t') <-> is_Some (T !! t')).
  { intros t'. rewrite lookup_insert_is_Some. destruct (decide (t = t')) as [<-|]; [split; [by eexists|by left]|tauto]. }
  constructor.
  - intros d v Hv. destruct (decide (d = c)) as [->|Hdc]; [rewrite lookup_insert_eq in Hv; rewrite lookup_insert_eq; by injection Hv as <-|].
    rewrite lookup_insert_ne in Hv by done. rewrite lookup_insert_ne by done. by eapply rep_word.
  - intros d r Hr. rewrite lookup_insert_is_Some. destruct (decide (d = c)) as [->|Hdc].
    + rewrite lookup_insert_eq in Hr. injection Hr as <-. split; [by left|done].
    + rewrite lookup_insert_ne in Hr by done. destruct (rep_dom _ _ _ _ R d r Hr). split; [right; by split|done].
  - intros d r Hr. apply HT. destruct (decide (d = c)) as [->|Hdc]; [rewrite lookup_insert_eq in Hr; injection Hr as <-; by eexists|].
    rewrite lookup_insert_ne in Hr by done. by eapply rep_live.
  - intros t' Ht'. by apply (rep_obj _ _ _ _ R), HT.
  - intros t' k' Hk'. destruct (decide (t' = t)) as [->|Hne].
    + rewrite lookup_insert_eq in Hk'. injection Hk' as <-. rewrite upd_chain_eq. simpl. split; [done|]. eexists.
      split; [by apply lookup_insert_eq|done].
    + rewrite lookup_insert_ne in Hk' by done. rewrite upd_chain_ne by done. eapply cseg_frame; [|by eapply rep_chain].
      intros x Hx. rewrite lookup_insert_ne; [done|]. intros ->. by apply (Hin t').
  - intros t'. destruct (decide (t' = t)) as [->|Hne]; [rewrite upd_chain_eq; apply NoDup_singleton|rewrite upd_chain_ne by done; apply R].
  - intros t' d. destruct (decide (d = c)) as [->|Hdc].
    + rewrite lookup_insert_eq. destruct (decide (t' = t)) as [->|Hne].
      * rewrite upd_chain_eq. split; [by eexists|]. intros _. apply list_elem_of_here.
      * rewrite upd_chain_ne by done. split; [by intros H; apply Hin in H|]. intros (? & [= <-] & ?). done.
    + rewrite lookup_insert_ne by done. rewrite <-(rep_in _ _ _ _ R). destruct (decide (t' = t)) as [->|Hne]; [|by rewrite upd_chain_ne].
      rewrite upd_chain_eq, Hch, list_elem_of_singleton. split; [done|by intros H; apply elem_of_nil in H].
  - intros t' d. destruct (decide (t' = t)) as [->|Hne].
    + rewrite upd_chain_eq. simpl. destruct (decide (d = c)) as [->|Hdc]; [by rewrite lookup_insert_eq|]. rewrite lookup_insert_ne by done.
      rewrite (rep_head _ _ _ _ R), Hch. simpl. split; congruence.
    + rewrite upd_chain_ne by done. rewrite <-(rep_head _ _ _ _ R). destruct (decide (d = c)) as [->|Hdc]; [|by rewrite lookup_insert_ne].
      rewrite lookup_insert_eq, HD. split; [congruence|done].
  - intros t' f. rewrite HT, <-(rep_refs _ _ _ _ R t' f), lookup_insert_is_Some.
    destruct (decide (c = Ref t' f)) as [->|]; [split; [done|by left]|tauto].
Qed.

(** Removing a cell that is not the head of its chain. *)
Lemma rep_remove c t l1 p l2 vp vc :
  ch t = l1 ++ p :: c :: l2 -> m !! p = Some vp -> m !! c = Some vc ->
  Rep (<[c := cap_init]> (<[p := Cap (raw vp) (next vc)]> m)) T (delete c D) (upd_chain ch t (l1 ++ p :: l2)).
Proof.
  intros Hch Hp Hc. pose proof (rep_nodup _ _ _ _ R t) as Hnd. rewrite Hch in Hnd.
  assert (Hpt : p ∈ ch t) by (rewrite Hch, elem_of_app, elem_of_cons; tauto).
  assert (Hct : c ∈ ch t) by (rewrite Hch, elem_of_app, !elem_of_cons; tauto).
  apply NoDup_app in Hnd as (Hnd1 & Hd1 & Hnd2). apply NoDup_cons in Hnd2 as [Hpn Hnd2]. apply NoDup_cons in Hnd2 as [Hcn Hnd2].
  assert (Hpc : p <> c) by (intros ->; apply Hpn, list_elem_of_here).
  assert (Hd1c : forall x, x ∈ l1 -> x <> c /\ x <> p) by (intros x Hx; specialize (Hd1 x Hx); rewrite !not_elem_of_cons in Hd1; tauto).
  assert (Hmem : forall x, x ∈ ch t <-> x = c \/ x ∈ l1 ++ p :: l2) by (intros x; rewrite Hch, !elem_of_app, !elem_of_cons; tauto).
  assert (Hcnew : c ∉ l1 ++ p :: l2) by (rewrite elem_of_app, elem_of_cons; intros [H|[H|H]]; [by apply Hd1c in H as []|done|done]).
  constructor.
  - intros d v Hv. destruct (decide (d = c)) as [->|Hdc]; [rewrite lookup_delete_eq; rewrite lookup_insert_eq in Hv; by injection Hv as <-|].
    rewrite lookup_delete_ne by done. rewrite lookup_insert_ne in Hv by done. destruct (decide (d = p)) as [->|Hdp].
    + rewrite lookup_insert_eq in Hv. injection Hv as <-. destruct (rep_chain_word t p Hpt) as (v & r & Hv & -> & Hw & _). simpl. congruence.
    + rewrite lookup_insert_ne in Hv by done. by eapply rep_word.
  - intros d r Hr. apply lookup_delete_Some in Hr as [Hdc Hr]. destruct (rep_dom _ _ _ _ R d r Hr). split; [|done].
    rewrite !lookup_insert_is_Some. destruct (decide (p = d)); tauto.
  - intros d r [_ Hr]%lookup_delete_Some. by eapply rep_live.
  - apply R.
  - intros t' k Hk. pose proof (rep_chain _ _ _ _ R t' k Hk) as Hs. destruct (decide (t' = t)) as [->|Hne].
    + rewrite upd_chain_eq. rewrite Hch in Hs. apply cseg_app in Hs as (q & Hs1 & -> & vp' & Hvp & _ & vc' & Hvc & Hs2).
      rewrite Hp in Hvp. injection Hvp as <-. rewrite Hc in Hvc. injection Hvc as <-. apply cseg_app. exists (Some p). split.
      * eapply cseg_frame; [|done]. intros x Hx. destruct (Hd1c x Hx). by rewrite !lookup_insert_ne.
      * split; [done|]. eexists. split; [by rewrite lookup_insert_ne, lookup_insert_eq by done|]. eapply cseg_frame; [|done].
        intros x Hx. rewrite !lookup_insert_ne; [done| |]; intros ->; [apply Hpn; by apply list_elem_of_further|done].
    + rewrite upd_chain_ne by done. eapply cseg_frame; [|done]. intros x Hx.
      rewrite !lookup_insert_ne; [done| |]; intros ->; by apply Hne, (rep_disjoint t' t x).
  - intros t'. destruct (decide (t' = t)) as [->|Hne]; [rewrite upd_chain_eq|rewrite upd_chain_ne by done; apply R].
    apply NoDup_app. split_and!; [done| |].
    + intros x Hx Hx'. apply (Hd1 x Hx). rewrite !elem_of_cons in *. tauto.
    + apply NoDup_cons. split; [|done]. intros H. apply Hpn. by apply list_elem_of_further.
  - intros t' d. destruct (decide (t' = t)) as [->|Hne].
    + rewrite upd_chain_eq. destruct (decide (d = c)) as [->|Hdc].
      * rewrite lookup_delete_eq. split; [done|]. by intros (? & ? & _).
      * rewrite lookup_delete_ne by done. rewrite <-(rep_in _ _ _ _ R), Hmem. tauto.
    + rewrite upd_chain_ne by done. rewrite (rep_in _ _ _ _ R). destruct (decide (d = c)) as [->|Hdc]; [|by rewrite lookup_delete_ne].
      rewrite lookup_delete_eq. split; [|by intros (? & ? & _)]. intros Hr. exfalso. apply Hne, (rep_disjoint t' t c); [|done]. by apply (rep_in _ _ _ _ R).
  - intros t' d. assert (Hhd : head (upd_chain ch t (l1 ++ p :: l2) t') = head (ch t')).
    { destruct (decide (t' = t)) as [->|Hne]; [rewrite upd_chain_eq, Hch; by destruct l1|by rewrite upd_chain_ne]. }
    rewrite Hhd, <-(rep_head _ _ _ _ R). destruct (decide (d = c)) as [->|Hdc]; [|by rewrite lookup_delete_ne]. rewrite lookup_delete_eq.
    split; [done|]. intros Hr. exfalso. assert (t' = t) as ->.
    { apply (rep_disjoint t' t c); [|done]. apply (rep_in _ _ _ _ R). by eexists. }
    apply (rep_head _ _ _ _ R) in Hr. rewrite Hch in Hr. destruct l1 as [|x l1]; injection Hr as ->; [done|].
    by destruct (Hd1c c (list_elem_of_here _ _)).
  - intros t' f. rewrite <-(rep_refs _ _ _ _ R t' f), !lookup_insert_is_Some.
    destruct (decide (c = Ref t' f)) as [->|]; [split; [by eexists|by left]|].
    destruct (decide (p = Ref t' f)) as [->|]; [split; [by eexists|]; intros _; right; split; [done|by left]|tauto].
Qed.

(** Revoking everything that denotes a thread. *)
Definition clear_cells (L : list cell) (m0 : gmap cell cap_t) : gmap cell cap_t := foldr (fun c m' => <[c := cap_init]> m') m0 L.

Lemma lookup_clear_cells L m0 c : clear_cells L m0 !! c = if decide (c ∈ L) then Some cap_init else m0 !! c.
Proof.
  induction L as [|d L IH]; [case_decide as Hc; [by apply elem_of_nil in Hc|done]|].
  change (clear_cells (d :: L) m0) with (<[d := cap_init]> (clear_cells L m0)). destruct (decide (c = d)) as [->|Hne].
  - rewrite lookup_insert_eq, decide_True; [done|apply list_elem_of_here].
  - rewrite lookup_insert_ne, IH by done. apply decide_ext. rewrite elem_of_cons. tauto.
Qed.

Lemma rep_revoke t k :
  T !! t = Some k ->
  Rep (clear_cells (ch t) m) (<[t := set_master_cap None k]> T) (filter (fun cr => right_target cr.2 <> t) D) (upd_chain ch t []).
Proof.
  intros Hk. assert (HT : forall t', is_Some (<[t := set_master_cap None k]> T !! t') <-> is_Some (T !! t')).
  { intros t'. rewrite lookup_insert_is_Some. destruct (decide (t = t')) as [<-|]; [split; [by eexists|by left]|tauto]. }
  assert (Hsome : forall d, is_Some (clear_cells (ch t) m !! d) <-> is_Some (m !! d)).
  { intros d. rewrite lookup_clear_cells. case_decide as Hd; [|done]. split; [|by eexists]. intros _. by destruct (rep_chain_word t d Hd) as (v & _ & -> & _). }
  assert (HD : forall d r, filter (fun cr => right_target cr.2 <> t) D !! d = Some r <-> D !! d = Some r /\ right_target r <> t).
  { intros d r. by rewrite map_lookup_filter_Some. }
  constructor.
  - intros d v. rewrite lookup_clear_cells. case_decide as Hd.
    + intros [= <-]. apply (rep_in _ _ _ _ R) in Hd as (r & Hr & Hrt). destruct (filter _ D !! d) as [r'|] eqn:E; [|done].
      apply HD in E as [E Hne]. congruence.
    + intros Hv. pose proof (rep_word _ _ _ _ R d v Hv) as Hw. destruct (D !! d) as [r|] eqn:E.
      * assert (right_target r <> t) by (intros Ht; apply Hd, (rep_in _ _ _ _ R); by eexists).
        by rewrite (proj2 (HD d r) (conj E H)).
      * destruct (filter _ D !! d) as [r'|] eqn:E'; [|done]. apply HD in E' as [E' _]. congruence.
  - intros d r [Hr _]%HD. destruct (rep_dom _ _ _ _ R d r Hr). split; [by apply Hsome|done].
  - intros d r [Hr _]%HD. apply HT. by eapply rep_live.
  - intros t' Ht'. by apply (rep_obj _ _ _ _ R), HT.
  - intros t' k' Hk'. destruct (decide (t' = t)) as [->|Hne].
    + rewrite lookup_insert_eq in Hk'. injection Hk' as <-. by rewrite upd_chain_eq.
    + rewrite lookup_insert_ne in Hk' by done. rewrite upd_chain_ne by done. eapply cseg_frame; [|by eapply rep_chain].
      intros x Hx. rewrite lookup_clear_cells, decide_False; [done|]. intros Hx'. by apply Hne, (rep_disjoint t' t x).
  - intros t'. destruct (decide (t' = t)) as [->|Hne]; [rewrite upd_chain_eq; constructor|rewrite upd_chain_ne by done; apply R].
  - intros t' d. setoid_rewrite HD. destruct (decide (t' = t)) as [->|Hne].
    + rewrite upd_chain_eq. split; [by intros H; apply elem_of_nil in H|]. intros (r & [_ ?] & ?). done.
    + rewrite upd_chain_ne, (rep_in _ _ _ _ R) by done. split; [intros (r & Hr & <-); exists r; split; [by split|done]|intros (r & [Hr _] & <-); by exists r].
  - intros t' d. rewrite HD, (rep_head _ _ _ _ R). simpl. destruct (decide (t' = t)) as [->|Hne]; [rewrite upd_chain_eq|rewrite upd_chain_ne by done; tauto].
    split; [by intros [_ ?]|done].
  - intros t' f. by rewrite HT, <-(rep_refs _ _ _ _ R t' f), Hsome.
Qed.

End rep.
