(* ===== verification/MicroCapOps.v ===== *)
(** * The operations on capabilities

    What the functions of [clist.cc] and of [thread.cc] do to the rights that
    the cells denote: each changes the map of rights as its caller expects,
    keeps the invariant, and leaves lists, locks and heap alone. *)

From S2P Require Import Prelude MicroLib MicroKmem MicroCaps MicroCapInv.
Import Caps.
#[local] Open Scope Z_scope.

(** ** Further lemmas on the invariant *)

Section rep.
Context (m : gmap cell cap_t) (T : gmap Z ktcb) (D : gmap cell right) (ch : Z -> list cell) (R : Rep m T D ch).

(** The locks do not matter. *)
Lemma rep_locks T' : (forall t, master_cap <$> T' !! t = master_cap <$> T !! t) -> Rep m T' D ch.
Proof.
  intros E. assert (HT : forall t, is_Some (T' !! t) <-> is_Some (T !! t)).
  { intros t. rewrite <-!(fmap_is_Some master_cap). by rewrite E. }
  constructor; try apply R.
  - intros c r Hr. apply HT. by eapply rep_live.
  - intros t Ht. by apply (rep_obj _ _ _ _ R), HT.
  - intros t k Hk. specialize (E t). rewrite Hk in E. simpl in E. symmetry in E. apply fmap_Some in E as (k' & Hk' & ->). by eapply rep_chain.
  - intros t f. rewrite HT. apply R.
Qed.

(** A chain that is not empty starts with the thread capability. *)
Lemma rep_chain_head t c r : D !! c = Some r -> right_target r = t -> exists h l, ch t = h :: l /\ D !! h = Some (ThreadCap t).
Proof.
  intros Hr Ht. destruct (ch t) as [|h l] eqn:E.
  - assert (Hc : c ∈ ch t) by (apply (rep_in _ _ _ _ R); by exists r). rewrite E in Hc. by apply elem_of_nil in Hc.
  - exists h, l. split; [done|]. apply (rep_head _ _ _ _ R). by rewrite E.
Qed.

(** Any other cell of the chain has a predecessor. *)
Lemma rep_chain_prev t c r :
  D !! c = Some r -> right_target r = t -> r <> ThreadCap t -> exists l1 p l2, ch t = l1 ++ p :: c :: l2.
Proof.
  intros Hr Ht Hne. assert (Hc : c ∈ ch t) by (apply (rep_in _ _ _ _ R); by exists r).
  apply list_elem_of_split in Hc as (l1 & l2 & E). destruct l1 as [|x l1 _] using rev_ind.
  - assert (head (ch t) = Some c) as Hh by (by rewrite E). apply (rep_head _ _ _ _ R) in Hh. congruence.
  - exists l1, x, l2. by rewrite E, <-app_assoc.
Qed.

(** The word of a cell determines the right, and the other way round. *)
Lemma rep_entry_word a i v : m !! Entry a i = Some v ->
  match D !! Entry a i with
  | None => raw v = 0
  | Some (ThreadCap t) => raw v = thread_cap t /\ is_object t
  | Some (IpcCap t) => raw v = ipc_cap t /\ is_object t
  | Some (Reference _) => False
  end.
Proof.
  intros Hv. pose proof (rep_word _ _ _ _ R _ v Hv) as Hw. destruct (D !! Entry a i) as [r|] eqn:E; [|by rewrite Hw].
  pose proof (rep_target _ _ _ _ R _ _ E) as Ho. destruct (rep_dom _ _ _ _ R _ _ E) as [_ Hf]. by destruct r.
Qed.

Lemma rep_ref_word t f v : m !! Ref t f = Some v ->
  match D !! Ref t f with None => raw v = 0 | Some (Reference u) => raw v = u /\ is_object u | Some _ => False end.
Proof.
  intros Hv. pose proof (rep_word _ _ _ _ R _ v Hv) as Hw. destruct (D !! Ref t f) as [r|] eqn:E; [|by rewrite Hw].
  pose proof (rep_target _ _ _ _ R _ _ E) as Ho. destruct (rep_dom _ _ _ _ R _ _ E) as [_ Hf]. by destruct r.
Qed.

End rep.

Section ops.
Context {H : Type} `{KH : !Kheap H}.
Implicit Types (s : cstate (H := H)) (D : gmap cell right) (c : cell) (t : Z).

(** ** Primitive steps *)

Lemma wp_rd_cell c v Q s : cells s !! c = Some v -> Q v s -> wp (rd (Some c)) Q s.
Proof. intros E HQ. unfold rd. apply wp_bind, wp_ret, wp_bind, wp_gets. by apply (wp_demand _ _ v). Qed.

Lemma wp_wr_cell c g v Q s : cells s !! c = Some v -> Q tt (set_cells (<[c := g v]> (cells s)) s) -> wp (wr (Some c) g) Q s.
Proof. intros E HQ. unfold wr. apply wp_bind, wp_ret, wp_bind, wp_gets, wp_bind. by apply (wp_demand _ _ v). Qed.

Lemma wp_rd_tcb {A} t (field : ktcb -> A) k Q s : ktcbs s !! t = Some k -> Q (field k) s -> wp (rd_tcb t field) Q s.
Proof. intros E HQ. unfold rd_tcb. apply wp_bind, wp_gets, wp_bind. by apply (wp_demand _ _ k). Qed.

Lemma wp_wr_tcb t g k Q s : ktcbs s !! t = Some k -> Q tt (set_ktcbs (<[t := g k]> (ktcbs s)) s) -> wp (wr_tcb t g) Q s.
Proof. intros E HQ. unfold wr_tcb. apply wp_bind, wp_gets, wp_bind. by apply (wp_demand _ _ k). Qed.

Lemma wp_rd_clist {A} a (field : clist_t -> A) l Q s : clists s !! a = Some l -> Q (field l) s -> wp (rd_clist a field) Q s.
Proof. intros E HQ. unfold rd_clist. apply wp_bind, wp_gets, wp_bind. by apply (wp_demand _ _ l). Qed.

Lemma wp_reference_lock Q s : reference_locked s = 0 -> Q tt (set_reference_locked (u32 (-1)) s) -> wp reference_lock Q s.
Proof. intros E HQ. unfold reference_lock. apply wp_bind, wp_gets, wp_bind, wp_ASSERT; [by rewrite E|done]. Qed.

Lemma wp_reference_unlock Q s : reference_locked s = u32 (-1) -> Q tt (set_reference_locked 0 s) -> wp reference_unlock Q s.
Proof. intros E HQ. unfold reference_unlock. apply wp_bind, wp_gets, wp_bind, wp_ASSERT; [by rewrite E|done]. Qed.

(** ** Chains *)

Lemma wp_add_reference_after h c vh vc Q s :
  cells s !! h = Some vh -> cells s !! c = Some vc -> h <> c -> word_tcb (raw vh) = word_tcb (raw vc) -> reference_locked s = 0 ->
  Q tt (set_cells (<[h := set_next (Some c) vh]> (<[c := set_next (next vh) vc]> (cells s))) s) ->
  wp (add_reference_after (Some h) (Some c)) Q s.
Proof.
  intros Hh Hc Hne Hw Hl HQ. unfold add_reference_after. apply wp_bind, (wp_rd_cell _ vh); [done|]. apply wp_bind, (wp_rd_cell _ vc); [done|].
  apply wp_bind, wp_ASSERT; [by apply Z.eqb_eq|]. apply wp_bind, wp_reference_lock; [done|]. apply wp_bind, (wp_rd_cell _ vh); [done|].
  apply wp_bind, (wp_wr_cell _ _ vc); [done|]. apply wp_bind, (wp_wr_cell _ _ vh); [simpl; by rewrite lookup_insert_ne|]. apply wp_reference_unlock; [done|].
  destruct s; simpl in *. by subst.
Qed.

Lemma wp_find_prev l1 p c l2 fuel q Q s :
  cseg (cells s) q (l1 ++ p :: c :: l2) None -> NoDup (l1 ++ p :: c :: l2) -> (length l1 <= fuel)%nat ->
  Q (Some p) s -> wp (find_prev fuel q (Some c)) Q s.
Proof.
  revert q fuel. induction l1 as [|x l1 IH]; intros q fuel Hs Hnd Hf HQ; simpl in Hs.
  - destruct Hs as (-> & v & Hv & Hn & _). destruct fuel; simpl; apply wp_bind, (wp_rd_cell _ v); try done; by rewrite bool_decide_eq_true_2.
  - destruct Hs as (-> & v & Hv & Hs). simpl in Hf, Hnd. destruct fuel as [|fuel]; [lia|]. simpl. apply wp_bind, (wp_rd_cell _ v); [done|].
    apply NoDup_cons in Hnd as [_ Hnd]. rewrite bool_decide_eq_false_2; [apply (IH _ fuel); try done; lia|].
    intros E. destruct l1 as [|y l1]; destruct Hs as [Hs _]; rewrite E in Hs; injection Hs as <-.
    + apply NoDup_cons in Hnd as [Hnd _]. apply Hnd, list_elem_of_here.
    + apply NoDup_cons in Hnd as [Hnd _]. apply Hnd. rewrite elem_of_app, !elem_of_cons. tauto.
Qed.

Lemma wp_unchain l1 p c l2 q vp vc Q s :
  cseg (cells s) q (l1 ++ p :: c :: l2) None -> NoDup (l1 ++ p :: c :: l2) -> reference_locked s = 0 ->
  cells s !! p = Some vp -> cells s !! c = Some vc ->
  Q tt (set_cells (<[c := cap_init]> (<[p := Cap (raw vp) (next vc)]> (cells s))) s) ->
  wp (unchain q (Some c)) Q s.
Proof.
  intros Hs Hnd Hl Hp Hc HQ. unfold unchain. apply wp_bind, wp_reference_lock; [done|]. apply wp_bind, wp_gets.
  assert (Hne : p <> c) by (intros ->; apply NoDup_app in Hnd as (_ & _ & Hnd); apply NoDup_cons in Hnd as [Hnd _]; apply Hnd, list_elem_of_here).
  assert (Hlen : (length l1 <= size (cells s))%nat).
  { eapply Nat.le_trans; [|apply (nodup_length_size (cells s) _ Hnd); intros x Hx; by eapply cseg_in]. rewrite length_app. lia. }
  apply wp_bind, (wp_find_prev l1 p c l2); [done|done|done|]. rewrite bool_decide_eq_true_2 by done.
  apply wp_bind, wp_bind, (wp_rd_cell _ vc); [done|]. apply wp_bind, (wp_wr_cell _ _ vp); [done|].
  apply (wp_wr_cell _ _ vc); [simpl; by rewrite lookup_insert_ne|]. apply wp_reference_unlock; [done|]. destruct s; simpl in *. by subst.
Qed.

Lemma wp_clear_chain L fuel q Q s :
  cseg (cells s) q L None -> NoDup L -> (length L <= fuel)%nat ->
  Q tt (set_cells (clear_cells L (cells s)) s) -> wp (clear_chain fuel q) Q s.
Proof.
  revert q fuel s. induction L as [|c L IH]; intros q fuel s Hs Hnd Hf HQ.
  - simpl in Hs. subst q. destruct fuel; apply wp_ret; by destruct s.
  - destruct Hs as (-> & v & Hv & Hs). apply NoDup_cons in Hnd as [Hcn Hnd]. simpl in Hf. destruct fuel as [|fuel]; [lia|]. cbn [clear_chain].
    apply wp_bind, (wp_wr_cell _ _ v); [done|]. apply wp_bind, (wp_rd_cell _ (set_raw 0 v)); [apply lookup_insert_eq|].
    apply wp_bind, (wp_wr_cell _ _ (set_raw 0 v)); [apply lookup_insert_eq|]. simpl. rewrite insert_insert_eq. apply IH; [|done|lia|].
    + eapply cseg_frame; [|done]. intros x Hx. simpl. rewrite lookup_insert_ne; [done|]. by intros ->.
    + simpl. eassert (clear_cells L _ = _) as ->; [|apply HQ]. apply map_eq. intros d. rewrite !lookup_clear_cells.
      case_decide as Hd; [rewrite decide_True; [done|]; by apply list_elem_of_further|]. simpl.
      destruct (decide (d = c)) as [->|Hdc]; [rewrite decide_True, lookup_insert_eq; [done|apply list_elem_of_here]|].
      rewrite lookup_insert_ne, decide_False by (try done; rewrite elem_of_cons; tauto). done.
Qed.

(** ** The invariant of a state, and what the operations leave alone *)

Record CellInv s D : Prop := {
  ci_rep : exists ch, Rep (cells s) (ktcbs s) D ch;
  ci_unlocked : reference_locked s = 0
}.

Record frame s s' : Prop := {
  fr_clists : clists s' = clists s;
  fr_lookup : clist_lookup s' = clist_lookup s;
  fr_heap : heap s' = heap s;
  fr_cells : forall c, is_Some (cells s' !! c) <-> is_Some (cells s !! c);
  fr_locks : forall t, locked <$> ktcbs s' !! t = locked <$> ktcbs s !! t
}.

#[export] Instance frame_preorder : PreOrder frame.
Proof.
  split; [by constructor|]. intros s1 s2 s3 [A1 B1 C1 E1 F1] [A2 B2 C2 E2 F2].
  constructor; [congruence..|intros x; by rewrite E2|intros x; by rewrite F2].
Qed.

Lemma frame_tcb s s' t : frame s s' -> is_Some (ktcbs s' !! t) <-> is_Some (ktcbs s !! t).
Proof. intros [_ _ _ _ F]. by rewrite <-(fmap_is_Some locked), F, fmap_is_Some. Qed.

(** Changes of cells that exist. *)
Lemma frame_cells m s : (forall c, is_Some (m !! c) <-> is_Some (cells s !! c)) -> frame s (set_cells m s).
Proof. by constructor. Qed.

Lemma frame_master t k g s :
  ktcbs s !! t = Some k -> locked (g k) = locked k -> frame s (set_ktcbs (<[t := g k]> (ktcbs s)) s).
Proof.
  intros Hk Hg. constructor; try done. intros t'. simpl. destruct (decide (t' = t)) as [->|]; [|by rewrite lookup_insert_ne].
  rewrite lookup_insert_eq, Hk. simpl. by rewrite Hg.
Qed.

Lemma insert_dom (m : gmap cell cap_t) c v d : is_Some (m !! c) -> is_Some (<[c := v]> m !! d) <-> is_Some (m !! d).
Proof. intros Hc. rewrite lookup_insert_is_Some. destruct (decide (c = d)) as [<-|]; [split; [done|by left]|tauto]. Qed.

(** ** Adding capabilities *)

(** The range checks of a list. *)
Definition in_list s (a tid : Z) : Prop :=
  is_cap_type tid = true /\ exists l, clists s !! a = Some l /\ get_index tid <= max_id l.

Definition slot (a tid : Z) : cell := Entry a (get_index tid).

Lemma wp_is_valid a tid l Q s : clists s !! a = Some l -> Q (negb (max_id l <? get_index tid)) s -> wp (is_valid a tid) Q s.
Proof. intros Hl HQ. unfold is_valid. by apply wp_bind, (wp_rd_clist _ _ l), wp_ret. Qed.

(** What the checks at the head of the additions and removals leave. *)
Lemma wp_entry_checks {A} a tid (k : cap_t -> M cstate A) v Q s :
  in_list s a tid -> cells s !! slot a tid = Some v -> wp (k v) Q s ->
  wp (do! ASSERT (is_cap_type tid) in let! ok := is_valid a tid in do! ASSERT ok in let! x := rd (entry_at a tid) in k x) Q s.
Proof.
  intros [Ht (l & Hl & Hi)] Hv HQ. apply wp_bind, wp_ASSERT; [done|]. apply wp_bind, (wp_is_valid _ _ l); [done|].
  apply wp_bind, wp_ASSERT; [by destruct (Z.ltb_spec (max_id l) (get_index tid)); [lia|]|]. by apply wp_bind, (wp_rd_cell _ v).
Qed.

Lemma object_not_null t : is_object t -> (t =? 0) = false.
Proof. unfold is_object, VIRT_ADDR_BASE. intros. by apply Z.eqb_neq; lia. Qed.

(** Filling a free cell [c] with a right to a thread that has a thread
    capability. *)
Lemma wp_chain_cell D c r vc k Q s :
  CellInv s D -> D !! c = None -> right_fits c r -> (forall t, r <> ThreadCap t) ->
  (exists h, D !! h = Some (ThreadCap (right_target r))) -> cells s !! c = Some vc -> ktcbs s !! right_target r = Some k ->
  (forall s', frame s s' -> CellInv s' (<[c := r]> D) -> Q tt s') ->
  exists h, master_cap k = Some h /\
  wp (add_reference_after (Some h) (Some c)) Q (set_cells (<[c := set_raw (right_word r) vc]> (cells s)) s).
Proof.
  intros [(ch & R) Hu] HD Hf Hnt (h & Hh) Hvc Hk HQ. pose proof Hh as Hhd. apply (rep_head _ _ _ _ R) in Hhd. destruct (ch (right_target r)) as [|h' l] eqn:Hch; [done|].
  injection Hhd as ->. exists h. pose proof (rep_chain _ _ _ _ R _ k Hk) as Hs. rewrite Hch in Hs. destruct Hs as (Hm & vh & Hvh & _). split; [done|].
  assert (Hhc : h <> c) by (intros ->; congruence). pose proof (rep_word _ _ _ _ R _ _ Hvh) as Hw. rewrite Hh in Hw.
  pose proof (rep_target _ _ _ _ R _ _ Hh) as Ho. simpl in Ho, Hw.
  eapply (wp_add_reference_after _ _ vh (set_raw (right_word r) vc)); simpl; try done.
  - by rewrite lookup_insert_ne.
  - by apply lookup_insert_eq.
  - rewrite Hw. destruct (right_word_tcb _ Ho) as [-> _]. destruct (thread_cap_fields _ Ho) as (_ & _ & _ & -> & _). done.
  - rewrite insert_insert_eq. match goal with |- Q tt (set_cells ?m _) => change (Q tt (set_cells m s)) end. apply HQ.
    + apply frame_cells. intros d. rewrite !insert_dom; [done|by eexists|rewrite insert_dom; by eexists].
    + split; [|done]. eexists. simpl. eapply rep_add; eauto.
Qed.

Lemma rep_entry_free D ch s c v : Rep (cells s) (ktcbs s) D ch -> cells s !! c = Some v -> is_valid_cap (raw v) = bool_decide (is_Some (D !! c)).
Proof.
  intros R Hv. pose proof (rep_free _ _ _ _ R c v Hv) as Hf. unfold is_valid_cap, cap_type_invalid. destruct (D !! c) as [r|] eqn:E.
  - rewrite bool_decide_eq_true_2 by (by eexists). destruct (Z.eqb_spec (raw v) 0) as [E'|]; [by apply Hf in E'|done].
  - rewrite bool_decide_eq_false_2 by (by intros []). rewrite (proj1 Hf eq_refl). done.
Qed.

Lemma add_ipc_cap_spec D a tid t s :
  CellInv s D -> in_list s a tid -> is_Some (cells s !! slot a tid) -> (exists h, D !! h = Some (ThreadCap t)) ->
  wp (add_ipc_cap a tid t) (fun r s' => frame s s' /\
    match D !! slot a tid with
    | Some _ => r = false /\ s' = s
    | None => r = true /\ CellInv s' (<[slot a tid := IpcCap t]> D)
    end) s.
Proof.
  intros I Hin [v Hv] Hh. pose proof I as [(ch & R) Hu]. assert (Ho : is_object t) by (destruct Hh as [h Hh]; by apply (rep_target _ _ _ _ R) in Hh).
  assert (Ht : is_Some (ktcbs s !! t)) by (destruct Hh as [h Hh]; by apply (rep_live _ _ _ _ R) in Hh). destruct Ht as [k Hk].
  unfold add_ipc_cap, add_cap. apply wp_bind, wp_ASSERT; [by rewrite object_not_null|]. apply (wp_entry_checks _ _ _ v); [done|done|].
  rewrite (rep_entry_free _ _ _ _ _ R Hv). destruct (D !! slot a tid) as [r|] eqn:HD; simpl; [by apply wp_ret|].
  apply wp_bind, (wp_wr_cell _ _ v); [done|]. apply wp_bind.
  destruct (wp_chain_cell D (slot a tid) (IpcCap t) v k (fun u s' => wp (ret true) (fun r s' => frame s s' /\ r = true /\ CellInv s' (<[slot a tid := IpcCap t]> D)) s') s) as (h & Hm & Hwp); try done.
  unfold add_reference. apply wp_bind, (wp_rd_tcb _ _ k); [done|]. by rewrite Hm.
Qed.

Lemma add_thread_cap_spec D a tid t s :
  CellInv s D -> in_list s a tid -> is_Some (cells s !! slot a tid) -> is_Some (ktcbs s !! t) ->
  (forall c r, D !! c = Some r -> right_target r <> t) ->
  wp (add_thread_cap a tid t) (fun r s' => frame s s' /\
    match D !! slot a tid with
    | Some _ => r = false /\ s' = s
    | None => r = true /\ CellInv s' (<[slot a tid := ThreadCap t]> D)
    end) s.
Proof.
  intros I Hin [v Hv] [k Hk] Hno. pose proof I as [(ch & R) Hu]. pose proof (rep_obj _ _ _ _ R t (mk_is_Some _ _ Hk)) as Ho.
  unfold add_thread_cap, add_cap. apply wp_bind, wp_ASSERT; [by rewrite object_not_null|]. apply (wp_entry_checks _ _ _ v); [done|done|].
  rewrite (rep_entry_free _ _ _ _ _ R Hv). destruct (D !! slot a tid) as [r|] eqn:HD; simpl; [by apply wp_ret|].
  assert (Hch : ch t = []).
  { destruct (ch t) as [|x l] eqn:E; [done|]. assert (x ∈ ch t) as Hx by (rewrite E; apply list_elem_of_here).
    apply (rep_in _ _ _ _ R) in Hx as (r & Hr & Hrt). by apply Hno in Hr. }
  pose proof (rep_chain _ _ _ _ R t k Hk) as Hm. rewrite Hch in Hm. simpl in Hm.
  pose proof (rep_word _ _ _ _ R _ _ Hv) as Hw. rewrite HD in Hw. subst v.
  apply wp_bind, (wp_wr_cell _ _ cap_init); [done|]. unfold add_reference. apply wp_bind, wp_bind, (wp_rd_tcb _ _ k); [done|]. rewrite Hm.
  apply wp_bind, (wp_wr_tcb _ _ k); [done|]. apply wp_bind, (wp_rd_cell _ (set_raw (thread_cap t) cap_init)); [by apply lookup_insert_eq|].
  apply wp_ASSERT; [done|]. apply wp_ret. split; [|split; [done|split; [|done]; eexists; by eapply rep_first]].
  etransitivity; [apply (frame_cells (<[slot a tid := set_raw (thread_cap t) cap_init]> (cells s)))|].
  - intros d. apply insert_dom. by eexists.
  - by apply frame_master.
Qed.

(** ** Removing capabilities *)

Definition revoke t D : gmap cell right := filter (fun cr => right_target cr.2 <> t) D.

Lemma wp_invalidate_reference D t k Q s :
  CellInv s D -> ktcbs s !! t = Some k ->
  (forall s', frame s s' -> CellInv s' (revoke t D) -> Q tt s') -> wp (invalidate_reference t) Q s.
Proof.
  intros [(ch & R) Hu] Hk HQ. unfold invalidate_reference. apply wp_bind, (wp_rd_tcb _ _ k); [done|]. apply wp_bind, wp_reference_lock; [done|].
  pose proof (rep_chain _ _ _ _ R t k Hk) as Hs. apply wp_bind, wp_gets, wp_bind, (wp_clear_chain (ch t)); [done|apply R| |].
  { apply nodup_length_size; [apply R|]. intros x Hx. by eapply cseg_in. }
  apply wp_bind, wp_reference_unlock; [done|]. apply (wp_wr_tcb _ _ k); [done|]. apply HQ.
  - constructor; try done; [|apply (frame_master t k (set_master_cap None) s); done].
    intros d. simpl. rewrite lookup_clear_cells. case_decide as Hd; [|done]. split; [|by eexists]. intros _. by eapply cseg_in.
  - split; [|done]. eexists. by eapply rep_revoke.
Qed.

Lemma remove_thread_cap_spec D a tid s :
  CellInv s D -> in_list s a tid -> is_Some (cells s !! slot a tid) ->
  wp (remove_thread_cap a tid) (fun r s' => frame s s' /\
    match D !! slot a tid with
    | Some (ThreadCap t) => r = true /\ CellInv s' (revoke t D)
    | _ => r = false /\ s' = s
    end) s.
Proof.
  intros I Hin [v Hv]. pose proof I as [(ch & R) Hu]. unfold remove_thread_cap. apply (wp_entry_checks _ _ _ v); [done|done|].
  pose proof (rep_entry_word _ _ _ _ R _ _ _ Hv) as Hw. unfold slot in *. destruct (D !! Entry a (get_index tid)) as [[t|t|t]|] eqn:HD.
  - destruct Hw as [-> Ho]. destruct (thread_cap_fields t Ho) as (-> & _ & _ & -> & _). simpl.
    destruct (rep_live _ _ _ _ R _ _ HD) as [k Hk]. apply wp_bind. eapply (wp_invalidate_reference D); [done|done|]. intros s' F I'. by apply wp_ret.
  - destruct Hw as [-> Ho]. destruct (ipc_cap_fields t Ho) as (-> & _). by apply wp_ret.
  - destruct Hw.
  - rewrite Hw. by apply wp_ret.
Qed.

(** Taking a cell that is not a thread capability out of its chain. *)
Lemma wp_unchain_cell D c r k Q s :
  CellInv s D -> D !! c = Some r -> r <> ThreadCap (right_target r) -> ktcbs s !! right_target r = Some k ->
  (forall s', frame s s' -> ktcbs s' = ktcbs s -> CellInv s' (delete c D) -> Q tt s') ->
  (exists h vh, master_cap k = Some h /\ cells s !! h = Some vh /\ word_tcb (raw vh) = right_target r) /\
  wp (unchain (master_cap k) (Some c)) Q s.
Proof.
  intros [(ch & R) Hu] HD Hne Hk HQ. destruct (rep_chain_prev _ _ _ _ R _ _ _ HD eq_refl Hne) as (l1 & p & l2 & Hch).
  pose proof (rep_chain _ _ _ _ R _ _ Hk) as Hs. pose proof (rep_nodup _ _ _ _ R (right_target r)) as Hnd. split.
  - destruct (rep_chain_head _ _ _ _ R _ _ _ HD eq_refl) as (h & l & E & Hh). rewrite E in Hs. destruct Hs as (Hm & vh & Hvh & _). exists h, vh.
    split_and!; [done|done|]. assert (Hin : h ∈ ch (right_target r)) by (rewrite E; apply list_elem_of_here).
    destruct (rep_chain_word _ _ _ _ R _ _ Hin) as (v & r' & Hv & _ & _ & _ & Hw & _). congruence.
  - rewrite Hch in Hs, Hnd. destruct (cseg_in _ _ _ _ p Hs) as [vp Hp]; [set_solver|]. destruct (cseg_in _ _ _ _ c Hs) as [vc Hc]; [set_solver|].
    eapply wp_unchain; try done. apply HQ; [|done|].
    + apply frame_cells. intros d. rewrite !insert_dom; [done|by eexists|rewrite insert_dom; by eexists].
    + split; [|done]. eexists. simpl. by eapply rep_remove.
Qed.

Lemma wp_try_lock_write t k Q s :
  ktcbs s !! t = Some k -> locked k = 0 -> Q tt (set_ktcbs (<[t := set_locked (u32 (-1)) k]> (ktcbs s)) s) -> wp (try_lock_write t) Q s.
Proof.
  intros Hk Hl HQ. unfold try_lock_write. apply wp_bind, (wp_rd_tcb _ _ k); [done|]. apply wp_bind, wp_ASSERT; [by rewrite Hl|]. by apply (wp_wr_tcb _ _ k).
Qed.

Lemma wp_unlock_write t k Q s :
  ktcbs s !! t = Some k -> locked k = u32 (-1) -> Q tt (set_ktcbs (<[t := set_locked 0 k]> (ktcbs s)) s) -> wp (unlock_write t) Q s.
Proof.
  intros Hk Hl HQ. unfold unlock_write. apply wp_bind, (wp_rd_tcb _ _ k); [done|]. apply wp_bind, wp_ASSERT; [by rewrite Hl|]. by apply (wp_wr_tcb _ _ k).
Qed.

Lemma CellInv_locks s T D :
  CellInv s D -> (forall t, master_cap <$> T !! t = master_cap <$> ktcbs s !! t) -> CellInv (set_ktcbs T s) D.
Proof. intros [(ch & R) Hu] E. split; [|done]. exists ch. by eapply rep_locks. Qed.

Lemma master_lock (T : gmap Z ktcb) t k v : T !! t = Some k -> forall t', master_cap <$> <[t := set_locked v k]> T !! t' = master_cap <$> T !! t'.
Proof. intros Hk t'. destruct (decide (t' = t)) as [->|]; [by rewrite lookup_insert_eq, Hk|by rewrite lookup_insert_ne]. Qed.

Lemma remove_ipc_cap_spec D a tid s :
  CellInv s D -> in_list s a tid -> is_Some (cells s !! slot a tid) ->
  (forall t k, D !! slot a tid = Some (IpcCap t) -> ktcbs s !! t = Some k -> locked k = 0) ->
  wp (remove_ipc_cap a tid) (fun r s' => frame s s' /\
    match D !! slot a tid with
    | Some (IpcCap t) => r = true /\ CellInv s' (delete (slot a tid) D)
    | _ => r = false /\ s' = s
    end) s.
Proof.
  intros I Hin [v Hv] Hl. pose proof I as [(ch & R) Hu]. unfold remove_ipc_cap. apply (wp_entry_checks _ _ _ v); [done|done|].
  pose proof (rep_entry_word _ _ _ _ R _ _ _ Hv) as Hw. unfold slot in *. destruct (D !! Entry a (get_index tid)) as [[t|t|t]|] eqn:HD.
  - destruct Hw as [-> Ho]. destruct (thread_cap_fields t Ho) as (_ & -> & _). by apply wp_ret.
  - destruct Hw as [Hr Ho]. rewrite Hr. destruct (ipc_cap_fields t Ho) as (_ & -> & _ & -> & _). cbn [negb]. cbv zeta.
    destruct (rep_live _ _ _ _ R _ _ HD) as [k Hk]. simpl in Hk. specialize (Hl t k eq_refl Hk).
    apply wp_bind, (wp_try_lock_write _ k); [done|done|]. apply wp_bind. set (k1 := set_locked (u32 (-1)) k). set (s1 := set_ktcbs _ s).
    assert (Hk1 : ktcbs s1 !! t = Some k1) by apply lookup_insert_eq.
    assert (I1 : CellInv s1 D) by (apply CellInv_locks; [done|by apply master_lock]).
    destruct (wp_unchain_cell D (Entry a (get_index tid)) (IpcCap t) k1 (fun _ s' => wp (do! unlock_write t in ret true)
      (fun r s2 => frame s s2 /\ r = true /\ CellInv s2 (delete (Entry a (get_index tid)) D)) s') s1) as [(h & vh & Hm & Hvh & Hwh) Hun]; [done|done|done|done| |].
    + intros s' F E I'. apply wp_bind, (wp_unlock_write _ k1); [by rewrite E|done|]. apply wp_ret. split_and!; [|done|].
      * destruct F as [F1 F2 F3 F4 F5]. constructor; simpl; try done. intros t'. destruct (decide (t' = t)) as [->|].
        -- by rewrite lookup_insert_eq, Hk; simpl; rewrite Hl.
        -- rewrite lookup_insert_ne by done. rewrite F5. simpl. by rewrite lookup_insert_ne.
      * apply CellInv_locks; [done|]. apply master_lock. by rewrite E.
    + unfold remove_reference. apply wp_bind, (wp_rd_tcb _ _ k1); [done|]. rewrite Hm. apply wp_bind, (wp_rd_cell _ vh); [done|].
      apply wp_bind, (wp_rd_cell _ v); [done|]. apply wp_bind, wp_ASSERT; [|by rewrite <-Hm].
      rewrite Hwh, Hr. destruct (ipc_cap_fields t Ho) as (_ & _ & _ & -> & _). simpl. apply Z.eqb_refl.
  - destruct Hw.
  - rewrite Hw. by apply wp_ret.
Qed.

(** ** Lookups *)

(** The right that [tid] denotes in the list [a]. *)
Definition entry_right s D (a tid : Z) : option right :=
  match clists s !! a with
  | Some l => if is_cap_type tid && (get_index tid <=? max_id l) then D !! slot a tid else None
  | None => None
  end.

Definition thread_of (o : option right) : option Z := match o with Some (ThreadCap t) => Some t | _ => None end.
Definition partner_of (o : option right) : option Z := match o with Some (ThreadCap t) | Some (IpcCap t) => Some t | _ => None end.

(** Every index in the range of a list is backed by a cell. *)
Definition backed_list s (a : Z) : Prop :=
  exists l, clists s !! a = Some l /\ forall i, 0 <= i <= max_id l -> is_Some (cells s !! Entry a i).

Lemma get_index_bound tid : 0 <= get_index tid < 2 ^ 28.
Proof. unfold get_index. rewrite field_index_mod. by apply Z.mod_pos_bound. Qed.

Lemma wp_lookup_entry D a tid Q s :
  CellInv s D -> backed_list s a ->
  (entry_right s D a tid = None -> Q None s) ->
  (forall v, cells s !! slot a tid = Some v -> entry_right s D a tid = D !! slot a tid -> Q (Some v) s) ->
  wp (lookup_entry a tid) Q s.
Proof.
  intros I (l & Hl & Hb) HQ1 HQ2. unfold lookup_entry. unfold entry_right in *. rewrite Hl in *. destruct (is_cap_type tid) eqn:Ht; simpl in *; [|by apply wp_ret, HQ1].
  apply wp_bind, (wp_is_valid _ _ l); [done|]. pose proof (get_index_bound tid) as Hi.
  destruct (Z.ltb_spec (max_id l) (get_index tid)) as [Hlt|Hge]; cbn [negb].
  - apply wp_ret, HQ1. destruct (Z.leb_spec (get_index tid) (max_id l)); [lia|done].
  - destruct (Hb (get_index tid)) as [v Hv]; [lia|]. apply wp_bind, (wp_rd_cell _ v); [done|]. apply wp_ret, (HQ2 v); [done|].
    destruct (Z.leb_spec (get_index tid) (max_id l)); [done|lia].
Qed.

(** A word that was looked up, and what the checks make of it. *)
Lemma entry_checks D ch a tid v s :
  Rep (cells s) (ktcbs s) D ch -> cells s !! slot a tid = Some v ->
  (is_thread_cap (raw v) = true -> thread_of (D !! slot a tid) = Some (word_tcb (raw v))) /\
  (is_thread_cap (raw v) = false -> thread_of (D !! slot a tid) = None) /\
  (can_ipc_cap (raw v) = true -> partner_of (D !! slot a tid) = Some (word_tcb (raw v))) /\
  (can_ipc_cap (raw v) = false -> partner_of (D !! slot a tid) = None).
Proof.
  intros R Hv. pose proof (rep_entry_word _ _ _ _ R _ _ _ Hv) as Hw. unfold slot. destruct (D !! Entry a (get_index tid)) as [[t|t|t]|].
  - destruct Hw as [-> Ho]. destruct (thread_cap_fields t Ho) as (-> & _ & -> & -> & _). done.
  - destruct Hw as [-> Ho]. destruct (ipc_cap_fields t Ho) as (-> & _ & -> & -> & _). done.
  - destruct Hw.
  - rewrite Hw. by vm_compute.
Qed.

Lemma partner_live D ch s c t : Rep (cells s) (ktcbs s) D ch -> partner_of (D !! c) = Some t -> is_Some (ktcbs s !! t) /\ is_object t.
Proof.
  intros R E. assert (exists r, D !! c = Some r /\ right_target r = t) as (r & Hr & <-) by (destruct (D !! c) as [[]|]; naive_solver).
  split; [by eapply rep_live|by eapply rep_target].
Qed.

Lemma thread_partner o t : thread_of o = Some t -> partner_of o = Some t.
Proof. by destruct o as [[]|]. Qed.

Lemma thread_of_Some o t : thread_of o = Some t -> o = Some (ThreadCap t).
Proof. destruct o as [[]|]; naive_solver. Qed.

Lemma lookup_thread_cap_unlocked_spec D a tid s :
  CellInv s D -> backed_list s a ->
  wp (lookup_thread_cap_unlocked a tid) (fun r s' => s' = s /\ r = default 0 (thread_of (entry_right s D a tid))) s.
Proof.
  intros I Hb. unfold lookup_thread_cap_unlocked. apply wp_bind, (wp_lookup_entry D); [done|done| |].
  - intros ->. by apply wp_ret.
  - intros v Hv ->. destruct I as [(ch & R) _]. destruct (entry_checks D ch a tid v s R Hv) as (H1 & H2 & _).
    destruct (is_thread_cap (raw v)); apply wp_ret; [by rewrite H1|by rewrite H2].
Qed.

(** The effect of taking a read lock once more. *)
Definition read_locked t s : cstate := set_ktcbs (alter (fun k => set_locked (locked k + 1) k) t (ktcbs s)) s.
Definition write_locked t s : cstate := set_ktcbs (alter (set_locked (u32 (-1))) t (ktcbs s)) s.

Lemma alter_insert_tcb (T : gmap Z ktcb) g t k : T !! t = Some k -> <[t := g k]> T = alter g t T.
Proof.
  intros Hk. apply map_eq. intros t'. destruct (decide (t' = t)) as [->|]; [by rewrite lookup_insert_eq, lookup_alter_eq, Hk|by rewrite lookup_insert_ne, lookup_alter_ne].
Qed.

Lemma wp_try_lock_read t k Q s :
  ktcbs s !! t = Some k -> 0 <= locked k < 2 ^ 31 - 1 -> Q tt (read_locked t s) -> wp (try_lock_read t) Q s.
Proof.
  intros Hk Hl HQ. unfold try_lock_read. apply wp_bind, (wp_rd_tcb _ _ k); [done|].
  assert (Hs : s32 (locked k) = locked k) by (unfold s32; rewrite u32_word by (unfold is_word, WORD_MOD; lia); destruct (Z.ltb_spec (locked k) (2 ^ 31)); lia).
  apply wp_bind, wp_ASSERT; [rewrite Hs; apply Z.leb_le; lia|]. apply (wp_wr_tcb _ _ k); [done|].
  rewrite u32_word by (unfold is_word, WORD_MOD; lia). unfold read_locked in HQ. by rewrite <-(alter_insert_tcb _ _ _ k Hk) in HQ.
Qed.

Lemma wp_unlock_read t k Q s :
  ktcbs s !! t = Some k -> 0 < locked k < 2 ^ 31 -> Q tt (set_ktcbs (<[t := set_locked (locked k - 1) k]> (ktcbs s)) s) -> wp (unlock_read t) Q s.
Proof.
  intros Hk Hl HQ. unfold unlock_read. apply wp_bind, (wp_rd_tcb _ _ k); [done|].
  assert (Hs : s32 (locked k) = locked k) by (unfold s32; rewrite u32_word by (unfold is_word, WORD_MOD; lia); destruct (Z.ltb_spec (locked k) (2 ^ 31)); lia).
  apply wp_bind, wp_ASSERT; [rewrite Hs; apply Z.ltb_lt; lia|]. apply (wp_wr_tcb _ _ k); [done|].
  by rewrite u32_word by (unfold is_word, WORD_MOD; lia).
Qed.

(** The lookups that lock what they find; [t0] is a thread whose lock the
    caller holds already. *)
Lemma lookup_thread_cap_locked_spec D a tid (write : bool) t0 s :
  CellInv s D -> backed_list s a ->
  (forall t k, thread_of (entry_right s D a tid) = Some t -> ktcbs s !! t = Some k -> if write then locked k = 0 else 0 <= locked k < 2 ^ 31 - 1) ->
  wp (lookup_thread_cap_locked a tid write t0) (fun r s' =>
    match thread_of (entry_right s D a tid) with
    | Some t => r = t /\ is_object t /\ s' = (if write then write_locked t s else read_locked t s)
    | None => r = 0 /\ s' = s
    end) s.
Proof.
  intros I Hb Hl. unfold lookup_thread_cap_locked. apply wp_bind, (wp_lookup_entry D); [done|done| |].
  - intros ->. by apply wp_ret.
  - intros v Hv Er. rewrite Er in Hl |- *. destruct I as [(ch & R) _]. destruct (entry_checks D ch a tid v s R Hv) as (H1 & H2 & _).
    destruct (is_thread_cap (raw v)); cbn [negb]; [|by rewrite H2 by done; apply wp_ret]. specialize (H1 eq_refl). rewrite H1 in Hl |- *.
    destruct (partner_live D ch s _ _ R (thread_partner _ _ H1)) as [[k Hk] Ho]. specialize (Hl _ k eq_refl Hk). cbv zeta. apply wp_bind. destruct write.
    + apply (wp_try_lock_write _ k); [done|done|]. apply wp_ret. unfold write_locked. by rewrite <-(alter_insert_tcb _ _ _ k Hk).
    + unfold lock_read_already_held. destruct (word_tcb (raw v) =? t0); apply (wp_try_lock_read _ k); try done; by apply wp_ret.
Qed.

Lemma lookup_ipc_cap_locked_spec D a tid t0 s :
  CellInv s D -> backed_list s a ->
  (forall t k, partner_of (entry_right s D a tid) = Some t -> ktcbs s !! t = Some k -> 0 <= locked k < 2 ^ 31 - 1) ->
  wp (lookup_ipc_cap_locked a tid t0) (fun r s' =>
    match partner_of (entry_right s D a tid) with
    | Some t => r = t /\ is_object t /\ s' = read_locked t s
    | None => r = 0 /\ s' = s
    end) s.
Proof.
  intros I Hb Hl. unfold lookup_ipc_cap_locked. apply wp_bind, (wp_lookup_entry D); [done|done| |].
  - intros ->. by apply wp_ret.
  - intros v Hv Er. rewrite Er in Hl |- *. destruct I as [(ch & R) _]. destruct (entry_checks D ch a tid v s R Hv) as (_ & _ & H1 & H2).
    destruct (can_ipc_cap (raw v)); cbn [negb]; [|by rewrite H2 by done; apply wp_ret]. specialize (H1 eq_refl). rewrite H1 in Hl |- *.
    destruct (partner_live D ch s _ _ R H1) as [[k Hk] Ho]. specialize (Hl _ k eq_refl Hk). cbv zeta. apply wp_bind.
    unfold lock_read_already_held. destruct (word_tcb (raw v) =? t0); apply (wp_try_lock_read _ k); try done; by apply wp_ret.
Qed.

Lemma lookup_cap_spec D a tid s :
  CellInv s D -> backed_list s a ->
  wp (lookup_cap a tid) (fun r s' => s' = s /\ r = (_ ← entry_right s D a tid; Some (slot a tid))) s.
Proof.
  intros I Hb. unfold lookup_cap. apply wp_bind, (wp_lookup_entry D); [done|done| |].
  - intros ->. by apply wp_ret.
  - intros v Hv ->. destruct I as [(ch & R) _]. rewrite (rep_entry_free _ _ _ _ _ R Hv).
    destruct (D !! slot a tid); simpl; by apply wp_ret.
Qed.

(** ** References held by threads *)

Definition set_reference (this : Z) (f : ref_field) (tcb : Z) D : gmap cell right :=
  if tcb =? 0 then delete (Ref this f) D else <[Ref this f := Reference tcb]> D.

Lemma wp_remove_referenced D this f u Q s :
  CellInv s D -> D !! Ref this f = Some (Reference u) ->
  (forall s', frame s s' -> CellInv s' (delete (Ref this f) D) -> Q tt s') ->
  wp (remove_referenced (Ref this f) u) Q s.
Proof.
  intros I HD HQ. pose proof I as [(ch & R) _]. destruct (rep_dom _ _ _ _ R _ _ HD) as [[v Hv] _].
  pose proof (rep_ref_word _ _ _ _ R _ _ _ Hv) as Hw. rewrite HD in Hw. destruct Hw as [Hw Ho]. destruct (rep_live _ _ _ _ R _ _ HD) as [k Hk]. simpl in Hk.
  unfold remove_referenced. apply wp_bind, wp_ASSERT; [by rewrite object_not_null|]. apply wp_bind, (wp_rd_cell _ v); [done|].
  apply wp_bind, wp_ASSERT; [by apply Z.eqb_eq|].
  destruct (wp_unchain_cell D (Ref this f) (Reference u) k Q s) as [(h & vh & Hm & Hvh & Hwh) Hun]; try done; [by intros s' F _; apply HQ|].
  unfold remove_reference_ref. apply wp_bind, (wp_rd_tcb _ _ k); [done|]. rewrite Hm. apply wp_bind, (wp_rd_cell _ vh); [done|].
  apply wp_bind, (wp_rd_cell _ v); [done|]. apply wp_bind, wp_ASSERT; [by rewrite Hwh, Hw; apply Z.eqb_refl|]. by rewrite <-Hm.
Qed.

Lemma wp_set_referenced D this f u Q s :
  CellInv s D -> is_Some (cells s !! Ref this f) -> D !! Ref this f = None -> (exists h, D !! h = Some (ThreadCap u)) ->
  (forall s', frame s s' -> CellInv s' (<[Ref this f := Reference u]> D) -> Q tt s') ->
  wp (set_referenced (Ref this f) u) Q s.
Proof.
  intros I [v Hv] HD Hh HQ. pose proof I as [(ch & R) _]. pose proof Hh as (h0 & Hh0). pose proof (rep_target _ _ _ _ R _ _ Hh0) as Ho. simpl in Ho.
  destruct (rep_live _ _ _ _ R _ _ Hh0) as [k Hk]. simpl in Hk. pose proof (rep_ref_word _ _ _ _ R _ _ _ Hv) as Hw. rewrite HD in Hw.
  unfold set_referenced. apply wp_bind, wp_ASSERT; [by rewrite object_not_null|]. apply wp_bind, (wp_rd_cell _ v); [done|].
  apply wp_bind, wp_ASSERT; [by apply Z.eqb_eq|]. apply wp_bind, (wp_wr_cell _ _ v); [done|]. apply wp_bind, (wp_rd_tcb _ _ k); [done|].
  destruct (wp_chain_cell D (Ref this f) (Reference u) v k Q s) as (h & Hm & Hwp); try done. by rewrite Hm.
Qed.

Lemma wp_set_handler D f this tcb Q s :
  CellInv s D -> is_Some (ktcbs s !! this) -> (tcb = 0 \/ exists h, D !! h = Some (ThreadCap tcb)) ->
  (forall s', frame s s' -> CellInv s' (set_reference this f tcb D) -> Q tt s') ->
  wp (set_handler f this tcb) Q s.
Proof.
  intros I Ht Htcb HQ. pose proof I as [(ch & R) _]. pose proof (proj2 (rep_refs _ _ _ _ R this f) Ht) as [v Hv].
  pose proof (rep_ref_word _ _ _ _ R _ _ _ Hv) as Hw.
  assert (Hset : forall s1 D1, frame s s1 -> CellInv s1 D1 -> D1 = delete (Ref this f) D ->
    wp (when negb (tcb =? 0) do set_referenced (Ref this f) tcb) Q s1).
  { intros s1 D1 F1 I1 ->. unfold set_reference in HQ. destruct Htcb as [->|(h & Hh)]; [by apply HQ|].
    destruct (Z.eqb_spec tcb 0) as [|Hne]; [by apply HQ|]. cbn [negb]. eapply (wp_set_referenced (delete (Ref this f) D)); [done| | | |].
    - by rewrite (fr_cells _ _ F1); eexists.
    - apply lookup_delete_eq.
    - exists h. rewrite lookup_delete_ne; [done|]. intros <-. by destruct (rep_dom _ _ _ _ R _ _ Hh) as [_ ?].
    - intros s2 F2 I2. apply HQ; [by etransitivity|]. by rewrite insert_delete_eq in I2. }
  unfold set_handler, ref_get. apply wp_bind, wp_bind, (wp_rd_cell _ v); [done|]. apply wp_ret, wp_bind. destruct (D !! Ref this f) as [r|] eqn:HD.
  - destruct r as [?|?|u]; try (by destruct Hw). destruct Hw as [-> Ho]. rewrite object_not_null by done. cbn [negb].
    apply (wp_remove_referenced D); [done|done|]. intros s1 F1 I1. by eapply Hset.
  - rewrite Hw. apply wp_ret. apply (Hset s D); [done|done|]. by rewrite delete_id.
Qed.

(** One handler: a thread capability sets it, NILTHREAD and ANYTHREAD leave it
    as it is, anything else is an error. *)
Definition handler_result s D (f : ref_field) (a dest tid : Z) : bool * gmap cell right :=
  if is_cap_type tid then
    match thread_of (entry_right s D a tid) with
    | Some t => (true, set_reference dest f t D)
    | None => (false, D)
    end
  else (is_nilthread tid || is_anythread tid, D).

Lemma entry_right_slot s D a tid o : entry_right s D a tid = Some o -> D !! slot a tid = Some o.
Proof. unfold entry_right. destruct (clists s !! a) as [l|]; [|done]. by destruct (is_cap_type tid && _). Qed.

Lemma set_thread_handler_spec D f a dest tid s :
  CellInv s D -> backed_list s a -> is_Some (ktcbs s !! dest) ->
  wp (set_thread_handler f a dest tid) (fun r s' => frame s s' /\ r = (handler_result s D f a dest tid).1 /\
    CellInv s' (handler_result s D f a dest tid).2) s.
Proof.
  intros I Hb Hd. unfold set_thread_handler, handler_result. destruct (is_cap_type tid) eqn:Ht; [|by apply wp_ret].
  apply wp_bind. wp_call lookup_thread_cap_unlocked_spec; [done|done|]. intros r s' [-> ->]. pose proof I as [(ch & R) _].
  destruct (thread_of (entry_right s D a tid)) as [t|] eqn:Et; simpl; [|by apply wp_ret].
  apply thread_of_Some, entry_right_slot in Et. pose proof (rep_target _ _ _ _ R _ _ Et) as Ho. rewrite object_not_null by done.
  apply wp_bind, (wp_set_handler D); [done|done|right; by eexists|]. intros s' F I'. by apply wp_ret.
Qed.

Lemma backed_list_frame s s' a : frame s s' -> backed_list s a -> backed_list s' a.
Proof. intros [F1 _ _ F4 _] (l & Hl & Hb). exists l. rewrite F1. split; [done|]. intros i Hi. by apply F4, Hb. Qed.

Lemma entry_right_frame s s' D a tid : frame s s' -> entry_right s' D a tid = entry_right s D a tid.
Proof. intros [F1 _ _ _ _]. unfold entry_right. by rewrite F1. Qed.

Lemma set_thread_handlers_spec D a dest pager_tid exc_tid k s :
  CellInv s D -> backed_list s a -> ktcbs s !! dest = Some k -> locked k <> 0 ->
  wp (set_thread_handlers a dest pager_tid exc_tid) (fun r s' => frame s s' /\
    let '(ok1, D1) := handler_result s D pager a dest pager_tid in
    let '(ok2, D2) := handler_result s D1 exception_handler a dest exc_tid in
    if ok1 then r = ok2 /\ CellInv s' D2 else r = false /\ CellInv s' D1) s.
Proof.
  intros I Hb Hk Hl. unfold set_thread_handlers. apply wp_bind, (wp_rd_tcb _ _ k); [done|]. apply wp_bind, wp_ASSERT.
  { apply negb_true_iff, Z.eqb_neq. done. }
  apply wp_bind. wp_call (set_thread_handler_spec D); [done|done|by eexists|]. intros ok1 s1 (F1 & -> & I1).
  destruct (handler_result s D pager a dest pager_tid) as [ok1 D1] eqn:E1. cbn [fst snd] in *.
  destruct ok1; cbn [negb]; [|apply wp_ret; by destruct (handler_result s D1 exception_handler a dest exc_tid)].
  wp_call (set_thread_handler_spec D1); [done|by eapply backed_list_frame|eapply frame_tcb; [done|by eexists]|].
  intros ok2 s2 (F2 & -> & I2). assert (Eh : handler_result s1 D1 exception_handler a dest exc_tid = handler_result s D1 exception_handler a dest exc_tid).
  { unfold handler_result. by rewrite (entry_right_frame s s1). }
  rewrite Eh in *. destruct (handler_result s D1 exception_handler a dest exc_tid) as [ok2 D2]. split; [by etransitivity|done].
Qed.

(** A thread can be locked as long as it has a thread capability. *)
Lemma acquire_read_lock_tcb_spec D tcb t0 k s :
  CellInv s D -> ktcbs s !! tcb = Some k -> 0 <= locked k < 2 ^ 31 - 1 ->
  wp (acquire_read_lock_tcb tcb t0) (fun r s' =>
    (exists h, D !! h = Some (ThreadCap tcb)) /\ r = tcb /\ s' = read_locked tcb s \/
    (forall c rt, D !! c = Some rt -> right_target rt <> tcb) /\ r = 0 /\ s' = s) s.
Proof.
  intros [(ch & R) Hu] Hk Hl. unfold acquire_read_lock_tcb. apply wp_bind, (wp_rd_tcb _ _ k); [done|].
  pose proof (rep_chain _ _ _ _ R _ _ Hk) as Hs. destruct (ch tcb) as [|h l] eqn:Hch.
  - simpl in Hs. rewrite Hs. apply wp_ret. right. split; [|done]. intros c rt Hc Ht.
    assert (Hin : c ∈ ch tcb) by (apply (rep_in _ _ _ _ R); by exists rt). rewrite Hch in Hin. by apply elem_of_nil in Hin.
  - destruct Hs as (-> & v & Hv & _). assert (Hh : D !! h = Some (ThreadCap tcb)) by (apply (rep_head _ _ _ _ R); by rewrite Hch).
    pose proof (rep_word _ _ _ _ R _ _ Hv) as Hw. rewrite Hh in Hw. pose proof (rep_target _ _ _ _ R _ _ Hh) as Ho. simpl in Hw, Ho.
    apply wp_bind, (wp_rd_cell _ v); [done|]. rewrite Hw. destruct (thread_cap_fields _ Ho) as (-> & _ & _ & -> & _). rewrite Z.eqb_refl. cbn [negb].
    apply wp_bind. unfold lock_read_already_held. destruct (tcb =? t0); apply (wp_try_lock_read _ k); try done; apply wp_ret; left; by split; [eexists|].
Qed.

End ops.
