(* ===== verification/MicroCapControl.v ===== *)
(** * Capability lists and the capability control system call

    The invariant of the capability lists and of the heap they are allocated
    from, an abstract description of [SYS_CAP_CONTROL] on rights, lists and
    the table of lists, and the proof that the system call implements it. *)

From S2P Require Import Prelude MicroLib MicroKmem MicroCaps MicroCapInv MicroCapOps.
Import Caps.
#[local] Open Scope Z_scope.

(** ** Sizes *)

(** The number of entries a list can have without its size overflowing. *)
Definition entries_ok (n : Z) : Prop := 0 < n /\ SIZEOF_CAP * n + SIZEOF_CLIST <= WORD_MOD - 4096.

Lemma clist_alloc_size_eq n :
  entries_ok n -> clist_alloc_size n = 1024 * ((8 * n + 12 + 1023) / 1024).
Proof.
  unfold entries_ok, SIZEOF_CAP, SIZEOF_CLIST. intros [Hn Hm]. unfold clist_alloc_size, addr_align_up, SIZEOF_CAP, SIZEOF_CLIST.
  rewrite (u32_word (8 * n + 12)) by (unfold is_word, WORD_MOD in *; lia). change (Kmem.KMEM_CHUNKSIZE - 1) with 1023.
  rewrite u32_word by (unfold is_word, WORD_MOD in *; lia). change 1023 with (Kmem.KMEM_CHUNKSIZE - 1) at 2.
  apply Kmem.land_chunk. unfold is_word, WORD_MOD in *; lia.
Qed.

Lemma clist_alloc_size_bounds n :
  entries_ok n ->
  0 < clist_alloc_size n <= WORD_MOD - 2048 /\ 8 * n + 12 <= clist_alloc_size n /\
  Z.max (clist_alloc_size n) 1024 = 1024 * Z.of_nat (Kmem.chunks_of (clist_alloc_size n)) /\ Kmem.chunks_of (clist_alloc_size n) <> 0%nat.
Proof.
  intros Hn. rewrite clist_alloc_size_eq by done. unfold entries_ok, SIZEOF_CAP, SIZEOF_CLIST, WORD_MOD, Kmem.chunks_of in *.
  Z.div_mod_to_equations. lia.
Qed.

(** The entries of a new list. *)
Lemma lookup_entry_cells a size c v :
  entry_cells a size !! c = Some v <-> v = cap_init /\ exists i, c = Entry a i /\ 0 <= i < (size - SIZEOF_CLIST) / SIZEOF_CAP.
Proof.
  unfold entry_cells. rewrite <-elem_of_list_to_map.
  - rewrite list_elem_of_fmap. setoid_rewrite elem_of_seq. split.
    + intros (i & [= -> ->] & Hi). split; [done|]. exists (Z.of_nat i). split; [done|lia].
    + intros (-> & i & -> & Hi). exists (Z.to_nat i). split; [|lia]. rewrite Z2Nat.id by lia. done.
  - rewrite <-list_fmap_compose. apply NoDup_fmap_2_strong; [|apply NoDup_seq]. intros x y _ _ [= E]. lia.
Qed.

(** ** Cells that come and go *)

Lemma rep_cells m m' T D ch :
  Rep m T D ch -> (forall c r, D !! c = Some r -> m' !! c = m !! c) ->
  (forall c v, m' !! c = Some v -> D !! c = None -> v = cap_init) ->
  (forall t f, m' !! Ref t f = m !! Ref t f) -> Rep m' T D ch.
Proof.
  intros R Hu Hn Hr. constructor; try apply R.
  - intros c v Hv. destruct (D !! c) as [r|] eqn:E; [|by eapply Hn]. rewrite (Hu c r E) in Hv.
    pose proof (rep_word _ _ _ _ R c v Hv) as Hw. by rewrite E in Hw.
  - intros c r E. rewrite (Hu c r E). by eapply rep_dom.
  - intros t k Hk. eapply cseg_frame; [|by eapply rep_chain]. intros c Hc.
    apply (rep_in _ _ _ _ R) in Hc as (r & Hc & _). by rewrite (Hu c r Hc).
  - intros t f. rewrite Hr. apply R.
Qed.

(** ** The abstract system call *)

Record acaps : Type := ACaps { a_rights : gmap cell right; a_lists : gmap Z clist_t; a_table : list Z }.

Inductive cap_request : Type :=
| CreateList (entries : Z)
| DeleteList
| CopyCap (src_id target_list_id target_id : Z)
| DeleteCap (target_id : Z)
| UnknownRequest.

Definition request (control mr0 mr1 mr2 : Z) : cap_request :=
  let op := get_op control in
  if op =? op_create_clist then CreateList mr0
  else if op =? op_delete_clist then DeleteList
  else if op =? op_copy_cap then CopyCap mr0 mr1 mr2
  else if op =? op_delete_cap then DeleteCap mr0
  else UnknownRequest.

(** The list a space knows under a number, 0 if there is none. *)
Definition a_lookup (space : resource_ids_t) (A : acaps) (id : Z) : Z :=
  if range_is_valid space id then default 0 (a_table A !! Z.to_nat id) else 0.

(** The right to a thread under [tid] in a list. *)
Definition a_thread (A : acaps) (a tid : Z) : option Z :=
  match a_lists A !! a with
  | Some l => if is_cap_type tid && (get_index tid <=? max_id l) then thread_of (a_rights A !! slot a tid) else None
  | None => None
  end.

Definition a_in_range (A : acaps) (a tid : Z) : Prop := exists l, a_lists A !! a = Some l /\ get_index tid <= max_id l.
Definition a_out_of_range (A : acaps) (a tid : Z) : Prop := exists l, a_lists A !! a = Some l /\ max_id l < get_index tid.

Inductive cap_control (space : resource_ids_t) (A : acaps) (id : Z) : cap_request -> sys_result -> acaps -> Prop :=
| cc_create_range n : range_is_valid space id = false -> cap_control space A id (CreateList n) (Error EINVALID_CLIST) A
| cc_create_used n : a_lookup space A id <> 0 -> cap_control space A id (CreateList n) (Error EINVALID_CLIST) A
| cc_create_memory n :
    range_is_valid space id = true -> a_lookup space A id = 0 -> cap_control space A id (CreateList n) (Error ENO_MEM) A
| cc_create n a :
    range_is_valid space id = true -> a_lookup space A id = 0 -> a <> 0 -> a_lists A !! a = None ->
    cap_control space A id (CreateList n) Success
      (ACaps (a_rights A) (<[a := Clist (n - 1) 0]> (a_lists A)) (<[Z.to_nat id := a]> (a_table A)))
| cc_delete_none : a_lookup space A id = 0 -> cap_control space A id DeleteList (Error EINVALID_CLIST) A
| cc_delete_spaces l :
    a_lists A !! a_lookup space A id = Some l -> num_spaces l <> 0 -> cap_control space A id DeleteList (Error ECLIST_NOT_EMPTY) A
| cc_delete_entries j r :
    a_lookup space A id <> 0 -> a_rights A !! Entry (a_lookup space A id) j = Some r ->
    cap_control space A id DeleteList (Error ECLIST_NOT_EMPTY) A
| cc_delete l :
    a_lists A !! a_lookup space A id = Some l -> num_spaces l = 0 -> (forall j, a_rights A !! Entry (a_lookup space A id) j = None) ->
    cap_control space A id DeleteList Success
      (ACaps (a_rights A) (delete (a_lookup space A id) (a_lists A)) (<[Z.to_nat id := 0]> (a_table A)))
| cc_copy_source src tl tid : a_lookup space A id = 0 -> cap_control space A id (CopyCap src tl tid) (Error EINVALID_CLIST) A
| cc_copy_target src tl tid : a_lookup space A tl = 0 -> cap_control space A id (CopyCap src tl tid) (Error EINVALID_CLIST) A
| cc_copy_range src tl tid :
    a_lookup space A id <> 0 -> a_out_of_range A (a_lookup space A tl) tid ->
    cap_control space A id (CopyCap src tl tid) (Error EINVALID_CAP) A
| cc_copy_no_thread src tl tid :
    a_lookup space A id <> 0 -> a_in_range A (a_lookup space A tl) tid -> a_thread A (a_lookup space A id) src = None ->
    cap_control space A id (CopyCap src tl tid) (Error EINVALID_CAP) A
| cc_copy_occupied src tl tid t r :
    a_lookup space A id <> 0 -> a_in_range A (a_lookup space A tl) tid -> a_thread A (a_lookup space A id) src = Some t ->
    a_rights A !! slot (a_lookup space A tl) tid = Some r ->
    cap_control space A id (CopyCap src tl tid) (Error EINVALID_CAP) A
| cc_copy src tl tid t :
    a_lookup space A id <> 0 -> a_in_range A (a_lookup space A tl) tid -> a_thread A (a_lookup space A id) src = Some t ->
    a_rights A !! slot (a_lookup space A tl) tid = None ->
    cap_control space A id (CopyCap src tl tid) Success
      (ACaps (<[slot (a_lookup space A tl) tid := IpcCap t]> (a_rights A)) (a_lists A) (a_table A))
| cc_remove_list tid : a_lookup space A id = 0 -> cap_control space A id (DeleteCap tid) (Error EINVALID_CLIST) A
| cc_remove_range tid :
    a_out_of_range A (a_lookup space A id) tid -> cap_control space A id (DeleteCap tid) (Error EINVALID_CAP) A
| cc_remove_other tid :
    a_in_range A (a_lookup space A id) tid -> (forall t, a_rights A !! slot (a_lookup space A id) tid <> Some (IpcCap t)) ->
    cap_control space A id (DeleteCap tid) (Error EINVALID_CAP) A
| cc_remove tid t :
    a_in_range A (a_lookup space A id) tid -> a_rights A !! slot (a_lookup space A id) tid = Some (IpcCap t) ->
    cap_control space A id (DeleteCap tid) Success
      (ACaps (delete (slot (a_lookup space A id) tid) (a_rights A)) (a_lists A) (a_table A))
| cc_unknown : cap_control space A id UnknownRequest (Error EINVALID_PARAM) A.

(** The requests the kernel copes with: sizes that do not overflow, and
    capability identifiers where the lists assert them. *)
Definition request_ok (q : cap_request) : Prop :=
  match q with
  | CreateList n => entries_ok n
  | CopyCap _ tl tid => 0 <= tl < 2 ^ 16 /\ is_cap_type tid = true
  | DeleteCap tid => is_cap_type tid = true
  | DeleteList | UnknownRequest => True
  end.

Section control.
Context {H : Type} `{KH : !Kheap H} `{KL : !KheapLaws H}.
Implicit Types (s : cstate (H := H)) (D : gmap cell right).

(** ** The invariant of the lists *)

Definition list_chunks (l : clist_t) : nat := Kmem.chunks_of (clist_alloc_size (max_id l + 1)).

Record ListInv s D : Prop := {
  li_heap : kheap_ok (heap s);
  li_size : forall a l, clists s !! a = Some l -> entries_ok (max_id l + 1);
  li_entry : forall a l i, clists s !! a = Some l -> 0 <= i <= max_id l -> is_Some (cells s !! Entry a i);
  li_owner : forall a i, is_Some (cells s !! Entry a i) -> is_Some (clists s !! a);
  li_used : forall a i r, D !! Entry a i = Some r -> exists l, clists s !! a = Some l /\ 0 <= i <= max_id l;
  li_table : forall n a, clist_lookup s !! n = Some a -> a <> 0 -> is_Some (clists s !! a);
  li_inj : forall n n' a, clist_lookup s !! n = Some a -> clist_lookup s !! n' = Some a -> a <> 0 -> n = n';
  li_region : forall a l, clists s !! a = Some l -> kregion (heap s) a (list_chunks l);
  li_taken : forall a l x, clists s !! a = Some l -> in_region a (list_chunks l) x -> ~ kheap_free (heap s) x;
  li_disjoint : forall a l b l' x, clists s !! a = Some l -> clists s !! b = Some l' -> a <> b ->
    in_region a (list_chunks l) x -> ~ in_region b (list_chunks l') x
}.

Record CapInv s D : Prop := {
  inv_cells : CellInv s D;
  inv_lists : ListInv s D
}.

(** What the lists' invariant depends on. *)
Record list_frame s s' : Prop := {
  lf_clists : clists s' = clists s;
  lf_lookup : clist_lookup s' = clist_lookup s;
  lf_heap : heap s' = heap s;
  lf_cells : forall a i, is_Some (cells s' !! Entry a i) <-> is_Some (cells s !! Entry a i)
}.

#[export] Instance list_frame_preorder : PreOrder list_frame.
Proof.
  split; [by constructor|]. intros s1 s2 s3 [A1 B1 C1 E1] [A2 B2 C2 E2]. constructor; [congruence..|intros a i; by rewrite E2].
Qed.

Lemma frame_list_frame s s' : frame s s' -> list_frame s s'.
Proof. intros [F1 F2 F3 F4 _]. by constructor. Qed.

Lemma ListInv_frame s s' D D' :
  list_frame s s' -> ListInv s D ->
  (forall a i r, D' !! Entry a i = Some r -> exists l, clists s !! a = Some l /\ 0 <= i <= max_id l) -> ListInv s' D'.
Proof.
  intros [F1 F2 F3 F4] I Hu. constructor; rewrite ?F1, ?F2, ?F3; try apply I; try done.
  - intros a l i Hl Hi. rewrite F4. by eapply li_entry.
  - intros a i. rewrite F4. by eapply li_owner.
Qed.

Lemma list_backed s D a : ListInv s D -> is_Some (clists s !! a) -> backed_list s a.
Proof. intros I [l Hl]. exists l. split; [done|]. intros i Hi. by eapply li_entry. Qed.

Lemma slot_backed s D a tid : ListInv s D -> in_list s a tid -> is_Some (cells s !! slot a tid).
Proof. intros I [_ (l & Hl & Hi)]. eapply li_entry; [done|done|]. pose proof (get_index_bound tid). lia. Qed.

Lemma region_start s D a l : ListInv s D -> clists s !! a = Some l -> 0 < a /\ in_region a (list_chunks l) a.
Proof.
  intros I Hl. destruct (li_region _ _ I a l Hl) as [[Ha _] _ _]. split; [done|]. unfold in_region.
  destruct (clist_alloc_size_bounds (max_id l + 1)) as (_ & _ & _ & Hn); [by eapply li_size|]. unfold list_chunks. lia.
Qed.

(** ** Emptiness *)

Lemma wp_find_valid D ch a n i Q s :
  Rep (cells s) (ktcbs s) D ch -> (forall j, i <= j < i + Z.of_nat n -> is_Some (cells s !! Entry a j)) ->
  (forall b : bool, (if b then exists j r, D !! Entry a j = Some r else forall j, i <= j < i + Z.of_nat n -> D !! Entry a j = None) -> Q b s) ->
  wp (find_valid n a i) Q s.
Proof.
  intros R. revert i Q. induction n as [|n IH]; intros i Q Hb HQ; cbn [find_valid].
  - apply wp_ret, HQ. intros j Hj. lia.
  - destruct (Hb i) as [v Hv]; [lia|]. apply wp_bind, (wp_rd_cell _ v); [done|]. rewrite (rep_entry_free _ _ _ _ _ R Hv).
    destruct (D !! Entry a i) as [r|] eqn:E; simpl; [apply wp_ret, (HQ true); by exists i, r|].
    apply IH; [intros j Hj; apply Hb; lia|]. intros b Hbv. apply HQ. destruct b; [done|]. intros j Hj.
    destruct (decide (j = i)) as [->|]; [done|]. apply Hbv. lia.
Qed.

Lemma wp_is_empty D a l Q s :
  CapInv s D -> clists s !! a = Some l ->
  (forall b : bool, (if b then forall j, D !! Entry a j = None else exists j r, D !! Entry a j = Some r) -> Q b s) ->
  wp (is_empty a) Q s.
Proof.
  intros [[(ch & R) _] L] Hl HQ. pose proof (li_size _ _ L a l Hl) as [Hn _]. unfold is_empty. apply wp_bind, (wp_rd_clist _ _ l); [done|].
  apply wp_bind, (wp_find_valid D ch); [done| |].
  - intros j Hj. eapply li_entry; [done|done|lia].
  - intros b Hb. apply wp_ret, HQ. destruct b; simpl; [done|]. intros j. destruct (D !! Entry a j) as [r|] eqn:E; [|done].
    destruct (li_used _ _ L a j r E) as (l' & Hl' & Hj). simplify_eq. rewrite Hb in E; [done|lia].
Qed.

(** ** The table *)

Lemma wp_valid_id id Q s : Q (negb (Z.of_nat (length (clist_lookup s)) - 1 <? id)) s -> wp (valid_id id) Q s.
Proof. done. Qed.

Lemma wp_lookup_id id Q s : 0 <= id -> Q (default 0 (clist_lookup s !! Z.to_nat id)) s -> wp (lookup_id id) Q s.
Proof.
  intros Hid HQ. unfold lookup_id. apply wp_bind, wp_valid_id. destruct (Z.ltb_spec (Z.of_nat (length (clist_lookup s)) - 1) id) as [Hlt|Hge]; cbn [negb].
  - apply wp_ret. rewrite lookup_ge_None_2 in HQ by lia. done.
  - destruct (lookup_lt_is_Some_2 (clist_lookup s) (Z.to_nat id)) as [x Hx]; [lia|]. rewrite Hx in HQ.
    by apply wp_bind, wp_gets, (wp_index _ _ x).
Qed.

Lemma wp_add_object id obj Q s :
  0 <= id -> clist_lookup s !! Z.to_nat id = Some 0 -> Q tt (set_clist_lookup (<[Z.to_nat id := obj]> (clist_lookup s)) s) -> wp (add_object id obj) Q s.
Proof.
  intros Hid Hx HQ. pose proof (lookup_lt_Some _ _ _ Hx) as Hlen. unfold add_object. apply wp_bind, wp_valid_id, wp_bind, wp_ASSERT.
  { apply negb_true_iff, Z.ltb_ge. lia. }
  apply wp_bind, wp_gets, wp_bind, (wp_index _ _ 0); [done|done|]. apply wp_bind, wp_ASSERT; [done|]. apply wp_bind, wp_index_set; [lia|done].
Qed.

Lemma wp_remove_object id a Q s :
  0 <= id -> clist_lookup s !! Z.to_nat id = Some a -> a <> 0 ->
  Q tt (set_clist_lookup (<[Z.to_nat id := 0]> (clist_lookup s)) s) -> wp (remove_object id) Q s.
Proof.
  intros Hid Hx Ha HQ. pose proof (lookup_lt_Some _ _ _ Hx) as Hlen. unfold remove_object. apply wp_bind, wp_valid_id, wp_bind, wp_ASSERT.
  { apply negb_true_iff, Z.ltb_ge. lia. }
  apply wp_bind, wp_gets, wp_bind, (wp_index _ _ a); [done|done|]. apply wp_bind, wp_ASSERT; [by apply negb_true_iff, Z.eqb_neq|].
  apply wp_bind, wp_index_set; [lia|done].
Qed.

(** ** Allocation of lists *)

Lemma wp_on_heap {A} (c : M H A) Q s : wp c (fun a h => Q a (set_heap h s)) (heap s) -> wp (on_heap c) Q s.
Proof. unfold wp, on_heap. by destruct (c (heap s)). Qed.

(** A state in which nothing but the lists, their cells and the heap differ. *)
Definition with_list (a n : Z) s : cstate :=
  set_clists (<[a := Clist (n - 1) 0]> (clists s)) (set_cells (entry_cells a (clist_alloc_size n) ∪ cells s) s).

Lemma with_list_inv D a n h s :
  CapInv s D -> entries_ok n -> kheap_ok h -> (forall x, kheap_mem h x <-> kheap_mem (heap s) x) ->
  kregion (heap s) a (Kmem.chunks_of (clist_alloc_size n)) ->
  (forall x, in_region a (Kmem.chunks_of (clist_alloc_size n)) x -> kheap_free (heap s) x) ->
  (forall x, kheap_free h x <-> kheap_free (heap s) x /\ ~ in_region a (Kmem.chunks_of (clist_alloc_size n)) x) ->
  clists s !! a = None /\ a <> 0 /\ CapInv (set_heap h (with_list a n s)) D.
Proof.
  intros [[(ch & R) Hu] L] Hn Hok Hmem Hreg Hfree Hfree'. destruct (clist_alloc_size_bounds n Hn) as (_ & Hsz & _ & Hnz).
  assert (Hnew : clists s !! a = None).
  { destruct (clists s !! a) as [l|] eqn:E; [|done]. exfalso. destruct (region_start s D a l L E) as [_ Hin].
    apply (li_taken _ _ L a l a E Hin), Hfree. unfold in_region. lia. }
  assert (Ha : a <> 0) by (destruct Hreg as [[? _] _ _]; lia). split_and!; [done|done|].
  assert (Hcell : forall i, cells s !! Entry a i = None).
  { intros i. destruct (cells s !! Entry a i) eqn:E; [|done]. destruct (li_owner _ _ L a i) as [? E']; [by eexists|]. congruence. }
  assert (Hold : forall c, entry_cells a (clist_alloc_size n) !! c = None -> (entry_cells a (clist_alloc_size n) ∪ cells s) !! c = cells s !! c) by (intros; by apply lookup_union_r).
  assert (Hother : forall c, (forall i, c <> Entry a i) -> entry_cells a (clist_alloc_size n) !! c = None).
  { intros c Hc. destruct (entry_cells _ _ !! c) eqn:E; [|done]. apply lookup_entry_cells in E as (_ & i & -> & _). by destruct (Hc i). }
  assert (Hchunks : list_chunks (Clist (n - 1) 0) = Kmem.chunks_of (clist_alloc_size n)) by (unfold list_chunks; simpl; by rewrite Z.sub_add).
  split.
  - split; [|done]. exists ch. eapply rep_cells; [done| | |]; simpl.
    + intros c r Hr. apply Hold, Hother. intros i ->. destruct (rep_dom _ _ _ _ R _ _ Hr) as [[v Hv] _]. by rewrite Hcell in Hv.
    + intros c v [Hv|[_ Hv]]%lookup_union_Some_raw HD; [by apply lookup_entry_cells in Hv as [-> _]|].
      pose proof (rep_word _ _ _ _ R _ _ Hv) as Hw. by rewrite HD in Hw.
    + intros t f. by apply Hold, Hother.
  - destruct L as [L1 L2 L3 L4 L5 L6 L7 L8 L9 L10]. constructor; simpl; try done.
    + intros b l [[<- <-]|[_ Hl]]%lookup_insert_Some; [simpl; by rewrite Z.sub_add|by eauto].
    + intros b l i [[<- <-]|[Hne Hl]]%lookup_insert_Some Hi.
      * simpl in Hi. exists cap_init. apply lookup_union_Some_l, lookup_entry_cells. split; [done|]. exists i. split; [done|].
        unfold SIZEOF_CAP, SIZEOF_CLIST. Z.div_mod_to_equations. lia.
      * rewrite Hold by (apply Hother; intros ? [= ->]; done). by eapply L3.
    + intros b i Hs. destruct (decide (b = a)) as [->|Hne]; [rewrite lookup_insert_eq; by eexists|]. rewrite lookup_insert_ne by done.
      apply (L4 b i). rewrite <-Hold; [done|]. apply Hother. intros ? [= ->]; done.
    + intros b i r Hr. destruct (L5 b i r Hr) as (l & Hl & Hi). exists l. split; [|done]. rewrite lookup_insert_ne; [done|]. congruence.
    + intros m b Hm Hb. destruct (decide (b = a)) as [->|Hne]; [rewrite lookup_insert_eq; by eexists|]. rewrite lookup_insert_ne by done. by eapply L6.
    + assert (Hk : forall b k, kregion (heap s) b k -> kregion h b k) by (intros b k [K1 K2 K3]; constructor; [done|done|]; intros x Hx; by apply Hmem, K3).
      intros b l [[<- <-]|[_ Hl]]%lookup_insert_Some; apply Hk; [by rewrite Hchunks|by eapply L8].
    + intros b l x [[<- <-]|[_ Hl]]%lookup_insert_Some Hx Hf; apply Hfree' in Hf as [Hf1 Hf2]; [by rewrite Hchunks in Hx|by apply (L9 b l x)].
    + assert (Hd : forall b l x, clists s !! b = Some l -> in_region b (list_chunks l) x -> ~ in_region a (list_chunks (Clist (n - 1) 0)) x).
      { intros b l x Hl Hx. rewrite Hchunks. intros Hx'. by apply (L9 b l x Hl Hx), Hfree. }
      intros b l b' l' x [[<- <-]|[Hne Hl]]%lookup_insert_Some [[<- <-]|[Hne' Hl']]%lookup_insert_Some Hbb Hx; [done| | |by apply (L10 b l b' l' x)].
      * intros Hx'. by apply (Hd b' l' x).
      * by apply (Hd b l x).
Qed.

(** The table after a list has been entered or removed. *)
Lemma ListInv_enter s D n a :
  ListInv s D -> is_Some (clists s !! a) -> (forall n', clist_lookup s !! n' <> Some a) ->
  ListInv (set_clist_lookup (<[n := a]> (clist_lookup s)) s) D.
Proof.
  intros L Ha Hfresh. destruct L as [L1 L2 L3 L4 L5 L6 L7 L8 L9 L10]. constructor; simpl; try done.
  - intros m b Hm Hb. apply list_lookup_insert_Some in Hm as [(_ & <- & _)|[_ Hm]]; [done|by eapply L6].
  - intros m m' b Hm Hm' Hb. apply list_lookup_insert_Some in Hm as [(<- & <- & _)|[Hne Hm]];
      apply list_lookup_insert_Some in Hm' as [(<- & E & _)|[Hne' Hm']]; subst; try done; [by destruct (Hfresh m')|by destruct (Hfresh m)|by eapply L7].
Qed.

(** Giving a list back. *)
Lemma without_list_inv D a l n h s :
  CapInv s D -> clists s !! a = Some l -> (forall j, D !! Entry a j = None) -> clist_lookup s !! n = Some a ->
  kheap_ok h -> (forall x, kheap_mem h x <-> kheap_mem (heap s) x) ->
  (forall x, kheap_free h x <-> kheap_free (heap s) x \/ in_region a (list_chunks l) x) ->
  CapInv (set_clists (delete a (clists s)) (set_cells (filter (fun cv => cell_in a cv.1 = false) (cells s))
    (set_heap h (set_clist_lookup (<[n := 0]> (clist_lookup s)) s)))) D.
Proof.
  intros [[(ch & R) Hu] L] Hl Hempty Hn Hok Hmem Hfree. destruct (region_start s D a l L Hl) as [Ha _].
  assert (Hkeep : forall c, cell_in a c = false -> filter (fun cv => cell_in a cv.1 = false) (cells s) !! c = cells s !! c).
  { intros c Hc. destruct (cells s !! c) as [v|] eqn:E; [by apply map_lookup_filter_Some|]. apply map_lookup_filter_None. by left. }
  split.
  - split; [|done]. exists ch. eapply rep_cells; [done| | |]; simpl.
    + intros c r Hr. apply Hkeep. destruct c as [b i|]; [|done]. simpl. apply Z.eqb_neq. intros ->. by rewrite Hempty in Hr.
    + intros c v [Hv _]%map_lookup_filter_Some HD. pose proof (rep_word _ _ _ _ R _ _ Hv) as Hw. by rewrite HD in Hw.
    + intros t f. by apply Hkeep.
  - destruct L as [L1 L2 L3 L4 L5 L6 L7 L8 L9 L10]. constructor; simpl; try done.
    + intros b l' [_ Hl']%lookup_delete_Some. by eauto.
    + intros b l' i [Hne Hl']%lookup_delete_Some Hi. rewrite Hkeep by (apply Z.eqb_neq; congruence). by eapply L3.
    + intros b i [v [Hv Hc]%map_lookup_filter_Some]. simpl in Hc. apply Z.eqb_neq in Hc. rewrite lookup_delete_ne by congruence. apply (L4 b i). by eexists.
    + intros b i r Hr. destruct (L5 b i r Hr) as (l' & Hl' & Hi). exists l'. split; [|done]. rewrite lookup_delete_ne; [done|].
      intros <-. by rewrite Hempty in Hr.
    + intros m b Hm Hb. apply list_lookup_insert_Some in Hm as [(_ & <- & _)|[Hne Hm]]; [done|]. rewrite lookup_delete_ne; [by eapply L6|].
      intros <-. by apply Hne, (L7 n m a).
    + intros m m' b Hm Hm' Hb. apply list_lookup_insert_Some in Hm as [(_ & <- & _)|[_ Hm]]; [done|].
      apply list_lookup_insert_Some in Hm' as [(_ & <- & _)|[_ Hm']]; [done|]. by eapply L7.
    + intros b l' [_ Hl']%lookup_delete_Some. destruct (L8 b l' Hl') as [K1 K2 K3]. constructor; [done|done|]. intros x Hx. by apply Hmem, K3.
    + intros b l' x [Hne Hl']%lookup_delete_Some Hx [Hf|Hf]%Hfree; [by apply (L9 b l' x)|by apply (L10 b l' a l x)].
    + intros b l1 b' l2 x [_ Hl1]%lookup_delete_Some [_ Hl2]%lookup_delete_Some. by eapply L10.
Qed.

(** ** The system call implements it *)

Definition absc s D : acaps := ACaps D (clists s) (clist_lookup s).
Definition unlocked s : Prop := forall t k, ktcbs s !! t = Some k -> locked k = 0.

Definition space_ok (space : resource_ids_t) s : Prop :=
  0 <= rbase space /\ 0 <= rsize space /\ rbase space + rsize space <= Z.of_nat (length (clist_lookup s)).

(** What the call establishes. *)
Definition control_post (space : resource_ids_t) (id : Z) (q : cap_request) s D (r : sys_result) s' : Prop :=
  exists D', CapInv s' D' /\ unlocked s' /\ (forall t, is_Some (ktcbs s' !! t) <-> is_Some (ktcbs s !! t)) /\
    cap_control space (absc s D) id q r (absc s' D').

Lemma a_thread_entry s D a tid : a_thread (absc s D) a tid = thread_of (entry_right s D a tid).
Proof.
  unfold a_thread, entry_right, absc. cbn [a_lists a_rights]. destruct (clists s !! a) as [l|]; [|reflexivity].
  by destruct (is_cap_type tid && (get_index tid <=? max_id l)).
Qed.

Lemma unlocked_frame s s' : frame s s' -> unlocked s -> unlocked s'.
Proof.
  intros F Hu t k Hk. pose proof (fr_locks _ _ F t) as E. rewrite Hk in E. symmetry in E. apply fmap_Some in E as (k' & Hk' & E).
  rewrite E. by eapply Hu.
Qed.

Lemma control_same space id q r s D : CapInv s D -> unlocked s -> cap_control space (absc s D) id q r (absc s D) -> control_post space id q s D r s.
Proof. intros I U C. exists D. by split_and!. Qed.

Lemma control_cells space id q r s s' D D' :
  CapInv s D -> unlocked s -> frame s s' -> CellInv s' D' ->
  (forall a i rt, D' !! Entry a i = Some rt -> exists l, clists s !! a = Some l /\ 0 <= i <= max_id l) ->
  cap_control space (absc s D) id q r (ACaps D' (clists s) (clist_lookup s)) -> control_post space id q s D r s'.
Proof.
  intros [_ L] U F I' Hu C. exists D'. split_and!; [split; [done|by eapply ListInv_frame; [apply frame_list_frame|..]]|by eapply unlocked_frame|intros t; by apply frame_tcb|].
  unfold absc. by rewrite (fr_clists _ _ F), (fr_lookup _ _ F).
Qed.

Section call.
Context (space : resource_ids_t) (s : cstate (H := H)) (D : gmap cell right).
Context (I : CapInv s D) (U : unlocked s) (SO : space_ok space s).

Lemma range_table id : 0 <= id < 2 ^ 16 -> range_is_valid space id = true -> (Z.to_nat id < length (clist_lookup s))%nat.
Proof.
  intros Hid Hr. unfold range_is_valid, u16 in Hr. rewrite Z.mod_small in Hr by done. apply andb_true_iff in Hr as [_ Hr%Z.ltb_lt].
  destruct SO as (_ & _ & ?). lia.
Qed.

Lemma a_lookup_list id : 0 <= id -> a_lookup space (absc s D) id <> 0 ->
  range_is_valid space id = true /\ clist_lookup s !! Z.to_nat id = Some (a_lookup space (absc s D) id) /\ is_Some (clists s !! a_lookup space (absc s D) id).
Proof.
  intros Hid. unfold a_lookup. simpl. destruct (range_is_valid space id); [|done]. destruct (clist_lookup s !! Z.to_nat id) as [a|] eqn:E; simpl; [|done].
  intros Ha. split_and!; [done|done|]. by eapply li_table; [apply I| |].
Qed.

Lemma wp_lookup_clist id Q : 0 <= id -> Q (a_lookup space (absc s D) id) s -> wp (lookup_clist space id) Q s.
Proof.
  intros Hid HQ. unfold lookup_clist. unfold a_lookup in HQ. destruct (range_is_valid space id); cbn [negb]; [|by apply wp_ret].
  by apply wp_lookup_id.
Qed.

Lemma create_clist_ok id n :
  0 <= id < 2 ^ 16 -> entries_ok n ->
  wp (create_clist space id (a_lookup space (absc s D) id) n) (control_post space id (CreateList n) s D) s.
Proof.
  intros Hid Hn. unfold create_clist. destruct (range_is_valid space id) eqn:Hr; cbn [negb]; [|apply wp_ret, control_same; [done|done|by constructor]].
  destruct (Z.eqb_spec (a_lookup space (absc s D) id) 0) as [E|Hne]; cbn [negb]; [|apply wp_ret, control_same; [done|done|by constructor]].
  destruct (clist_alloc_size_bounds n Hn) as (Hsz & _). apply wp_bind. unfold alloc_clist. apply wp_bind, wp_on_heap.
  wp_call kalloc_law; [apply I|done|]. cbn beta. intros a h (Hok & Hmem & [[-> ->]|(Hreg & _ & Hfree & Hfree')]).
  - apply wp_bind, wp_ret, wp_ret. cbn [Z.eqb]. assert (set_heap (heap s) s = s) as -> by (by destruct s).
    apply wp_ret, control_same; [done|done|]. by apply cc_create_memory.
  - destruct (with_list_inv D a n h s I Hn Hok Hmem Hreg Hfree Hfree') as (Hnew & Ha & I').
    apply Z.eqb_neq in Ha as Ha'. rewrite Ha'. cbn [negb]. apply wp_bind, wp_modify, wp_ret. rewrite Ha'.
    apply wp_bind. unfold clist_init. apply wp_bind, wp_ASSERT; [apply Z.ltb_lt, Hn|]. apply wp_bind, wp_gets, wp_bind, (wp_demand _ _ (Clist 0 0)); [apply lookup_insert_eq|].
    apply wp_modify. simpl. rewrite insert_insert_eq. rewrite u32_word by (unfold entries_ok, SIZEOF_CAP, SIZEOF_CLIST, is_word, WORD_MOD in *; lia).
    assert (Hid0 : clist_lookup s !! Z.to_nat id = Some 0).
    { destruct (lookup_lt_is_Some_2 _ _ (range_table id Hid Hr)) as [x Hx]. unfold a_lookup in E. rewrite Hr in E. simpl in E. rewrite Hx in E. simpl in E. by subst. }
    apply wp_bind, wp_add_object; [lia|done|]. apply wp_ret. exists D. split_and!; [|done|done|by apply cc_create].
    destruct I' as [[R1 U1] L1]. split; [split; [exact R1|exact U1]|]. apply (ListInv_enter (set_heap h (with_list a n s)) D (Z.to_nat id) a L1); simpl; [rewrite lookup_insert_eq; by eexists|].
    intros m Hm. apply (li_table _ _ (inv_lists _ _ I)) in Hm as [? Hm]; [congruence|done].
Qed.

Lemma delete_clist_ok id :
  0 <= id < 2 ^ 16 -> wp (delete_clist id (a_lookup space (absc s D) id)) (control_post space id DeleteList s D) s.
Proof.
  intros Hid. unfold delete_clist. destruct (Z.eqb_spec (a_lookup space (absc s D) id) 0) as [E|Hne]; [apply wp_ret, control_same; [done|done|by constructor]|].
  destruct (a_lookup_list id) as (Hr & Ht & l & Hl); [lia|done|]. pose proof I as [CI L]. pose proof (li_size _ _ L _ _ Hl) as Hsz.
  apply wp_bind, (wp_rd_clist _ _ l); [done|]. destruct (Z.eqb_spec (num_spaces l) 0) as [E0|E0]; cbn [negb].
  2: { apply wp_ret, control_same; [done|done|]. by eapply cc_delete_spaces. }
  apply wp_bind, (wp_is_empty D _ l); [done|done|]. intros b Hb. destruct b; cbn [negb].
  2: { destruct Hb as (j & r & Hj). apply wp_ret, control_same; [done|done|]. by eapply cc_delete_entries. }
  apply wp_bind. unfold num_entries. apply wp_bind, (wp_rd_clist _ _ l); [done|]. apply wp_ret.
  rewrite u32_word by (unfold entries_ok, SIZEOF_CAP, SIZEOF_CLIST, is_word, WORD_MOD in *; lia).
  apply wp_bind, (wp_remove_object _ (a_lookup space (absc s D) id)); [lia|done|done|]. unfold free_clist. apply wp_bind, wp_bind, wp_on_heap.
  destruct (clist_alloc_size_bounds _ Hsz) as (_ & _ & Hmax & Hnz).
  wp_call kfree_law; [apply L|exact Hnz|exact Hmax|by apply (li_region _ _ L)|intros x Hx; by apply (li_taken _ _ L (a_lookup space (absc s D) id) l x)|].
  cbn beta. intros _ h (Hok & Hmem & Hfree). apply wp_modify, wp_ret. exists D. split_and!; [|done|done|by eapply cc_delete].
  exact (without_list_inv D _ l (Z.to_nat id) h s I Hl Hb Ht Hok Hmem Hfree).
Qed.

Lemma a_range a tid l : clists s !! a = Some l ->
  a_in_range (absc s D) a tid /\ negb (max_id l <? get_index tid) = true \/ a_out_of_range (absc s D) a tid /\ negb (max_id l <? get_index tid) = false.
Proof. intros Hl. destruct (Z.ltb_spec (max_id l) (get_index tid)); [right|left]; split; try done; by exists l. Qed.

Lemma delete_cap_ok id tid :
  0 <= id -> is_cap_type tid = true -> wp (delete_cap (a_lookup space (absc s D) id) tid) (control_post space id (DeleteCap tid) s D) s.
Proof.
  intros Hid Htid. unfold delete_cap. destruct (Z.eqb_spec (a_lookup space (absc s D) id) 0) as [E|Hne]; [apply wp_ret, control_same; [done|done|by constructor]|].
  destruct (a_lookup_list id) as (Hr & Ht & l & Hl); [lia|done|]. pose proof I as [CI L]. apply wp_bind, (wp_is_valid _ _ l); [done|].
  destruct (a_range _ tid l Hl) as [[Hin ->]|[Hout ->]]; cbn [negb]; [|apply wp_ret, control_same; [done|done|by constructor]].
  assert (Hil : in_list s (a_lookup space (absc s D) id) tid) by done. apply wp_bind.
  wp_call (remove_ipc_cap_spec D); [done|done|by eapply slot_backed|intros t k _; by apply U|]. cbn beta. intros r s' [F Hres]. apply wp_ret.
  destruct (D !! slot (a_lookup space (absc s D) id) tid) as [[t|t|t]|] eqn:HD.
  2: { destruct Hres as [-> I']. eapply control_cells; try done; [|by eapply cc_remove]. intros b i rt [_ Hb]%lookup_delete_Some. by eapply li_used. }
  all: destruct Hres as [-> ->]; apply control_same; [done|done|]; apply cc_remove_other; [done|]; intros u; simpl; congruence.
Qed.

Lemma CellInv_read_locked t : CellInv s D -> CellInv (read_locked t s) D.
Proof.
  intros CI. apply CellInv_locks; [done|]. intros t'. destruct (decide (t' = t)) as [->|]; [|by rewrite lookup_alter_ne].
  rewrite lookup_alter_eq. by destruct (ktcbs s !! t).
Qed.

Lemma copy_cap_ok id src tl tid :
  0 <= id -> 0 <= tl -> is_cap_type tid = true ->
  wp (copy_cap space (a_lookup space (absc s D) id) src tl tid) (control_post space id (CopyCap src tl tid) s D) s.
Proof.
  intros Hid Htl Htid. unfold copy_cap. destruct (Z.eqb_spec (a_lookup space (absc s D) id) 0) as [E|Hne]; [apply wp_ret, control_same; [done|done|by constructor]|].
  destruct (a_lookup_list id) as (_ & _ & l & Hl); [lia|done|]. pose proof I as [CI L]. apply wp_bind, wp_lookup_clist; [lia|].
  destruct (Z.eqb_spec (a_lookup space (absc s D) tl) 0) as [E|Hnet]; [apply wp_ret, control_same; [done|done|by apply cc_copy_target]|].
  destruct (a_lookup_list tl) as (_ & _ & lt & Hlt); [lia|done|]. apply wp_bind, (wp_is_valid _ _ lt); [done|].
  destruct (a_range _ tid lt Hlt) as [[Hin ->]|[Hout ->]]; cbn [negb]; [|apply wp_ret, control_same; [done|done|by apply cc_copy_range]].
  apply wp_bind. wp_call (lookup_thread_cap_locked_spec D); [done|by eapply list_backed|intros t k _ Hk; rewrite (U t k Hk); lia|].
  cbn beta. intros r s1 Hres. pose proof (a_thread_entry s D (a_lookup space (absc s D) id) src) as Ea.
  destruct (thread_of (entry_right s D (a_lookup space (absc s D) id) src)) as [t|] eqn:Et.
  2: { destruct Hres as [-> ->]. cbn [Z.eqb]. apply wp_ret, control_same; [done|done|]. by apply cc_copy_no_thread. }
  destruct Hres as (-> & Ho & ->). rewrite object_not_null by done. apply thread_of_Some, entry_right_slot in Et.
  pose proof (CellInv_read_locked t CI) as CI1. destruct CI as [(ch & R) _]. destruct (rep_live _ _ _ _ R _ _ Et) as [k Hk]. simpl in Hk.
  apply wp_bind. wp_call (add_ipc_cap_spec D _ _ t); [done|done|by eapply (slot_backed s)|by eexists|]. cbn beta. intros r s2 [F Hadd].
  assert (Hk2 : exists k2, ktcbs s2 !! t = Some k2 /\ locked k2 = 1).
  { pose proof (fr_locks _ _ F t) as E. simpl in E. rewrite lookup_alter_eq, Hk in E. simpl in E. rewrite (U t k Hk) in E.
    apply fmap_Some in E as (k2 & ? & ?). by exists k2. }
  destruct Hk2 as (k2 & Hk2 & Hl2). apply wp_bind, (wp_unlock_read _ k2); [done|lia|]. apply wp_ret.
  assert (F' : frame s (set_ktcbs (<[t := set_locked (locked k2 - 1) k2]> (ktcbs s2)) s2)).
  { destruct F as [F1 F2 F3 F4 F5]. constructor; try done. intros t'. simpl. destruct (decide (t' = t)) as [->|].
    - rewrite lookup_insert_eq, Hk. simpl. by rewrite Hl2, (U t k Hk).
    - rewrite lookup_insert_ne, F5 by done. simpl. by rewrite lookup_alter_ne. }
  destruct (D !! slot (a_lookup space (absc s D) tl) tid) as [rt|] eqn:HD; destruct Hadd as [-> Hadd].
  - subst s2. eapply control_cells; [done|done|done| |by apply I|by eapply cc_copy_occupied]. apply CellInv_locks; [done|by apply master_lock].
  - eapply control_cells; [done|done|done|apply CellInv_locks; [done|by apply master_lock]| |by eapply cc_copy].
    intros b i rt [[E _]|[_ Hb]]%lookup_insert_Some; [|by eapply li_used; [apply I|]]. injection E as <- <-. exists lt. split; [done|].
    destruct Hin as (l' & Hl' & Hi). simpl in Hl'. pose proof (get_index_bound tid). simplify_eq. lia.
Qed.

End call.

End control.
