(* ===== verification/MicroThreadControl.v ===== *)
(** * Threads as holders and targets of capabilities

    An abstract description of [SYS_THREAD_CONTROL] on rights and on the set
    of threads, and the proof that the system call implements it: a thread
    that is deleted, or whose creation fails, leaves no right behind. *)

From S2P Require Import Prelude MicroLib MicroKmem MicroCaps MicroCapInv MicroCapOps MicroCapControl.
Import Caps.
#[local] Open Scope Z_scope.

(** ** Threads that come and go *)

Section rep.
Context (m : gmap cell cap_t) (T : gmap Z ktcb) (D : gmap cell right) (ch : Z -> list cell) (R : Rep m T D ch).

Lemma rep_no_refs t : T !! t = None -> forall f, D !! Ref t f = None.
Proof.
  intros Ht f. destruct (D !! Ref t f) as [r|] eqn:E; [|done]. destruct (rep_dom _ _ _ _ R _ _ E) as [Hm _].
  apply (rep_refs _ _ _ _ R) in Hm as [k Hk]. congruence.
Qed.

Lemma rep_no_target t : T !! t = None -> forall c r, D !! c = Some r -> right_target r <> t.
Proof. intros Ht c r Hr E. destruct (rep_live _ _ _ _ R _ _ Hr) as [k Hk]. congruence. Qed.

Lemma rep_chain_nil t : (forall c r, D !! c = Some r -> right_target r <> t) -> ch t = [].
Proof.
  intros Hno. destruct (ch t) as [|c l] eqn:E; [done|]. assert (Hc : c ∈ ch t) by (rewrite E; apply list_elem_of_here).
  apply (rep_in _ _ _ _ R) in Hc as (r & Hr & Ht). by apply Hno in Hr.
Qed.

Lemma rep_new_tcb t :
  T !! t = None -> is_object t ->
  Rep (<[Ref t pager := cap_init]> (<[Ref t exception_handler := cap_init]> m)) (<[t := Ktcb None 0]> T) D ch.
Proof.
  intros Ht Ho. pose proof (rep_no_refs t Ht) as Hrefs. pose proof (rep_no_target t Ht) as Hno.
  assert (Hm : forall c, (forall f, c <> Ref t f) -> <[Ref t pager := cap_init]> (<[Ref t exception_handler := cap_init]> m) !! c = m !! c).
  { intros c Hc. by rewrite !lookup_insert_ne. }
  assert (HD : forall c r, D !! c = Some r -> forall f, c <> Ref t f) by (intros c r Hr f ->; by rewrite Hrefs in Hr).
  constructor; try apply R.
  - intros c v [[<- <-]|[_ [[<- <-]|[_ Hv]]%lookup_insert_Some]]%lookup_insert_Some; [by rewrite Hrefs|by rewrite Hrefs|by eapply rep_word].
  - intros c r Hr. rewrite Hm by (by eapply HD). by eapply rep_dom.
  - intros c r Hr. rewrite lookup_insert_ne; [by eapply rep_live|]. intros E. by apply (Hno _ _ Hr).
  - intros t' Ht'. apply lookup_insert_is_Some in Ht' as [<-|[_ Ht']]; [done|by apply (rep_obj _ _ _ _ R)].
  - intros t' k [[<- <-]|[_ Hk]]%lookup_insert_Some; [by rewrite (rep_chain_nil t Hno)|].
    eapply cseg_frame; [|by eapply rep_chain]. intros c Hc. apply (rep_in _ _ _ _ R) in Hc as (r & Hr & _). rewrite Hm; [done|by eapply HD].
  - intros t' f. destruct (decide (t' = t)) as [->|Hne].
    + rewrite (lookup_insert_eq T). split; [by eexists|]. intros _. rewrite !lookup_insert_is_Some. destruct f; [by left|right; split; [done|by left]].
    + rewrite (lookup_insert_ne T) by done. rewrite Hm by (intros f' [= E]; done). apply R.
Qed.

Lemma rep_free_tcb t :
  (forall c r, D !! c = Some r -> right_target r <> t) -> (forall f, D !! Ref t f = None) ->
  Rep (delete (Ref t pager) (delete (Ref t exception_handler) m)) (delete t T) D ch.
Proof.
  intros Hno Hrefs. assert (HD : forall c r, D !! c = Some r -> forall f, c <> Ref t f) by (intros c r Hr f ->; by rewrite Hrefs in Hr).
  assert (Hm : forall c, (forall f, c <> Ref t f) -> delete (Ref t pager) (delete (Ref t exception_handler) m) !! c = m !! c).
  { intros c Hc. by rewrite !lookup_delete_ne. }
  constructor; try apply R.
  - intros c v [_ [_ Hv]%lookup_delete_Some]%lookup_delete_Some. by eapply rep_word.
  - intros c r Hr. rewrite Hm by (by eapply HD). by eapply rep_dom.
  - intros c r Hr. rewrite lookup_delete_ne; [by eapply rep_live|]. intros E. by apply (Hno _ _ Hr).
  - intros t' [k [_ Hk]%lookup_delete_Some]. apply (rep_obj _ _ _ _ R). by eexists.
  - intros t' k [_ Hk]%lookup_delete_Some. eapply cseg_frame; [|by eapply rep_chain].
    intros c Hc. apply (rep_in _ _ _ _ R) in Hc as (r & Hr & _). rewrite Hm; [done|by eapply HD].
  - intros t' f. destruct (decide (t' = t)) as [->|Hne].
    + rewrite lookup_delete_eq. destruct f; [rewrite lookup_delete_eq|rewrite lookup_delete_ne, lookup_delete_eq by done]; split; by intros [].
    + rewrite (lookup_delete_ne T) by done. rewrite Hm by (intros f' [= E]; done). apply R.
Qed.

End rep.

(** ** The abstract system call *)

(** The rights after a thread is gone. *)
Definition drop_refs (t : Z) (D : gmap cell right) : gmap cell right := delete (Ref t exception_handler) (delete (Ref t pager) D).

Definition with_rights (A : acaps) (D : gmap cell right) : acaps := ACaps D (a_lists A) (a_table A).

Definition a_handler (A : acaps) (f : ref_field) (a dest tid : Z) : bool * gmap cell right :=
  if is_cap_type tid then
    match a_thread A a tid with
    | Some t => (true, set_reference dest f t (a_rights A))
    | None => (false, a_rights A)
    end
  else (is_nilthread tid || is_anythread tid, a_rights A).

Definition a_handlers (A : acaps) (a dest pager_tid except_handler_tid : Z) : bool * gmap cell right :=
  let '(ok, D1) := a_handler A pager a dest pager_tid in
  if ok then a_handler (with_rights A D1) exception_handler a dest except_handler_tid else (false, D1).

(** The arguments of the call. *)
Record tc_args : Type := TcArgs {
  tc_list : Z;
  tc_current : Z;
  tc_dest : Z;
  tc_nilspace : bool;
  tc_pager : Z;
  tc_except_handler : Z;
  tc_resources_valid : bool;
  tc_utcb : Z
}.

Definition resources_code (o : tc_outside) (g : tc_args) : option Z := if tc_resources_valid g then resources_error o else None.

(** The checks before anything is looked up. *)
Definition tc_refused (o : tc_outside) (g : tc_args) : option Z :=
  if is_myself (tc_dest g) || is_myself (tc_pager g) || is_myself (tc_except_handler g) then Some EINVALID_THREAD
  else if negb (kresourced o) then Some EINVALID_SPACE
  else if negb (is_cap_type (tc_dest g)) then Some EINVALID_THREAD
  else None.

Definition a_has_index (A : acaps) (a tid : Z) : bool :=
  match a_lists A !! a with Some l => get_index tid <=? max_id l | None => false end.

(** The error code that refuses a creation, if one does. *)
Definition create_error (o : tc_outside) (A : acaps) (g : tc_args) : option Z :=
  if negb (a_has_index A (tc_list g) (tc_dest g)) then Some EINVALID_THREAD
  else if negb (space_found o) then Some EINVALID_SPACE
  else if negb (utcb_location_ok o) then Some EUTCB_AREA
  else if new_tcb o =? 0 then Some ENO_MEM
  else if bool_decide (is_Some (a_rights A !! slot (tc_list g) (tc_dest g))) then Some EINVALID_THREAD
  else
    let A1 := with_rights A (<[slot (tc_list g) (tc_dest g) := ThreadCap (new_tcb o)]> (a_rights A)) in
    if negb (a_handlers A1 (tc_list g) (new_tcb o) (tc_pager g) (tc_except_handler g)).1 then Some EINVALID_PARAM
    else match activate_error o with Some e => Some e | None => resources_code o g end.

(** The call as a function: the result, the rights and the threads. *)
Definition thread_control (o : tc_outside) (A : acaps) (T : gset Z) (g : tc_args) : sys_result * gmap cell right * gset Z :=
  match tc_refused o g with
  | Some e => (Error e, a_rights A, T)
  | None =>
      if tc_nilspace g then
        match a_thread A (tc_list g) (tc_dest g) with
        | None => (Error EINVALID_THREAD, a_rights A, T)
        | Some t =>
            if tc_utcb g =? 0 then
              if t =? tc_current g then (Error EINVALID_THREAD, a_rights A, T)
              else (Success, drop_refs t (revoke t (a_rights A)), T ∖ {[t]})
            else if negb (tc_utcb g =? UTCB_KEEP) then (Error EUTCB_AREA, a_rights A, T)
            else
              let '(ok, D') := a_handlers A (tc_list g) t (tc_pager g) (tc_except_handler g) in
              (if negb ok then Error EINVALID_PARAM else from_option Error Success (resources_code o g), D', T)
        end
      else
        match create_error o A g with
        | Some e => (Error e, a_rights A, T)
        | None =>
            let A1 := with_rights A (<[slot (tc_list g) (tc_dest g) := ThreadCap (new_tcb o)]> (a_rights A)) in
            (Success, (a_handlers A1 (tc_list g) (new_tcb o) (tc_pager g) (tc_except_handler g)).2, T ∪ {[new_tcb o]})
        end
  end.

(** ** Rights before and after *)

Lemma a_handler_other A f a dest tid c : c <> Ref dest f -> (a_handler A f a dest tid).2 !! c = a_rights A !! c.
Proof.
  intros Hc. unfold a_handler. destruct (is_cap_type tid); [|done]. destruct (a_thread A a tid) as [t|]; [|done]. simpl. unfold set_reference.
  destruct (t =? 0); [by rewrite lookup_delete_ne|by rewrite lookup_insert_ne].
Qed.

Lemma a_handlers_other A a dest p e c : (forall f, c <> Ref dest f) -> (a_handlers A a dest p e).2 !! c = a_rights A !! c.
Proof.
  intros Hc. unfold a_handlers. pose proof (a_handler_other A pager a dest p c (Hc _)) as H1. destruct (a_handler A pager a dest p) as [ok D1].
  destruct ok; [|done]. rewrite a_handler_other by done. done.
Qed.

Lemma or_insert_iff (P : Prop) (t t' : Z) : P \/ t' = t <-> t = t' \/ t <> t' /\ P.
Proof. destruct (decide (t = t')); naive_solver. Qed.

(** A failed creation leaves no trace. *)
Lemma undo_creation D D' t c0 :
  D !! c0 = None -> (forall c r, D !! c = Some r -> right_target r <> t) -> (forall f, D !! Ref t f = None) ->
  D' !! c0 = Some (ThreadCap t) -> (forall c, c <> c0 -> (forall f, c <> Ref t f) -> D' !! c = D !! c) ->
  drop_refs t (revoke t D') = D.
Proof.
  intros H0 Hno Hrefs H0' Hsame. apply map_eq. intros c. unfold drop_refs, revoke.
  assert (Hr : forall f, c = Ref t f -> delete (Ref t exception_handler) (delete (Ref t pager) (filter (fun cr => right_target cr.2 <> t) D')) !! c = D !! c).
  { intros f ->. rewrite Hrefs. destruct f; [rewrite lookup_delete_ne, lookup_delete_eq by done|rewrite lookup_delete_eq]; done. }
  destruct (decide (c = Ref t pager)) as [E|Hp]; [by eapply Hr|]. destruct (decide (c = Ref t exception_handler)) as [E|He]; [by eapply Hr|].
  rewrite !lookup_delete_ne by done. assert (Hf : forall f, c <> Ref t f) by (by intros []).
  destruct (decide (c = c0)) as [->|Hc]; [rewrite H0; apply map_lookup_filter_None; right; intros r Hr'; rewrite H0' in Hr'; injection Hr' as <-; simpl; by intros Hn|].
  destruct (D !! c) as [r|] eqn:E.
  - apply map_lookup_filter_Some. rewrite Hsame by done. split; [done|]. by eapply Hno.
  - apply map_lookup_filter_None. left. by rewrite Hsame.
Qed.

Section control.
Context {H : Type} `{KH : !Kheap H}.
Implicit Types (s : cstate (H := H)) (D : gmap cell right).

(** ** The pieces of the call *)

Lemma a_handler_result s D f a dest tid : a_handler (absc s D) f a dest tid = handler_result s D f a dest tid.
Proof. unfold a_handler, handler_result. by rewrite a_thread_entry. Qed.

Lemma wp_set_thread_handlers D a dest p e k Q s :
  CellInv s D -> backed_list s a -> ktcbs s !! dest = Some k -> locked k <> 0 ->
  (forall s', frame s s' -> CellInv s' (a_handlers (absc s D) a dest p e).2 -> Q (a_handlers (absc s D) a dest p e).1 s') ->
  wp (set_thread_handlers a dest p e) Q s.
Proof.
  intros I Hb Hk Hl HQ. wp_call (set_thread_handlers_spec D); [done..|]. cbn beta. intros r s' [F Hr]. specialize (HQ s' F).
  unfold a_handlers in HQ. rewrite a_handler_result in HQ. destruct (handler_result s D pager a dest p) as [ok1 D1].
  change (with_rights (absc s D) D1) with (absc s D1) in HQ. rewrite a_handler_result in HQ.
  destruct (handler_result s D1 exception_handler a dest e) as [ok2 D2]. destruct ok1; destruct Hr as [-> I']; by apply HQ.
Qed.

Lemma CellInv_write_locked t s D : CellInv s D -> CellInv (write_locked t s) D.
Proof.
  intros I. apply CellInv_locks; [done|]. intros t'. destruct (decide (t' = t)) as [->|]; [|by rewrite lookup_alter_ne].
  rewrite lookup_alter_eq. by destruct (ktcbs s !! t).
Qed.

(** Releasing the write lock that was taken at the start. *)
Lemma wp_unlock_restore t k Q s s2 :
  unlocked s -> ktcbs s !! t = Some k -> frame (write_locked t s) s2 ->
  (forall s3, frame s s3 -> (forall D, CellInv s2 D -> CellInv s3 D) -> Q tt s3) ->
  wp (unlock_write t) Q s2.
Proof.
  intros U Hk [F1 F2 F3 F4 F5] HQ. pose proof (F5 t) as E. simpl in E. rewrite lookup_alter_eq, Hk in E. simpl in E.
  apply fmap_Some in E as (k2 & Hk2 & E). apply (wp_unlock_write _ k2); [done|by rewrite <-E|]. apply HQ.
  - constructor; try done. intros t'. simpl. destruct (decide (t' = t)) as [->|Hne].
    + rewrite lookup_insert_eq, Hk. simpl. by rewrite (U t k Hk).
    + rewrite lookup_insert_ne by done. rewrite F5. simpl. by rewrite lookup_alter_ne.
  - intros D I. apply CellInv_locks; [done|by apply master_lock].
Qed.

Lemma wp_delete_tcb D t Q s :
  CellInv s D -> is_Some (ktcbs s !! t) -> (forall c r, D !! c = Some r -> right_target r <> t) ->
  (forall s', list_frame s s' -> CellInv s' (drop_refs t D) -> ktcbs s' !! t = None ->
     (forall t', t' <> t -> locked <$> ktcbs s' !! t' = locked <$> ktcbs s !! t') -> Q tt s') ->
  wp (delete_tcb t) Q s.
Proof.
  intros I Ht Hno HQ. unfold delete_tcb, set_pager, set_exception_handler. apply wp_bind, (wp_set_handler D); [done|done|by left|].
  intros s1 F1 I1. apply wp_bind, (wp_set_handler (delete (Ref t pager) D)); [exact I1|by eapply frame_tcb|by left|]. intros s2 F2 I2.
  change (set_reference t exception_handler 0 (delete (Ref t pager) D)) with (drop_refs t D) in I2. unfold free_tcb. apply wp_modify, HQ; simpl.
  - etransitivity; [apply frame_list_frame; by etransitivity|]. constructor; try done. intros a i. simpl. by rewrite !lookup_delete_ne.
  - destruct I2 as [(ch & R) Hu]. split; [|done]. exists ch. apply rep_free_tcb; [done| |].
    + intros c r Hr. unfold drop_refs in Hr. apply lookup_delete_Some in Hr as [_ Hr]. apply lookup_delete_Some in Hr as [_ Hr]. by eapply Hno.
    + intros f. unfold drop_refs. destruct f; [rewrite lookup_delete_ne, lookup_delete_eq by done|rewrite lookup_delete_eq]; done.
  - apply lookup_delete_eq.
  - intros t' Hne. rewrite lookup_delete_ne by done. by rewrite (fr_locks _ _ F2), (fr_locks _ _ F1).
Qed.

Lemma wp_tcb_init D t Q s :
  CellInv s D -> unlocked s -> ktcbs s !! t = None -> is_object t ->
  (forall s', list_frame s s' -> CellInv s' D -> unlocked s' -> ktcbs s' = <[t := Ktcb None 0]> (ktcbs s) -> Q tt s') ->
  wp (tcb_init t) Q s.
Proof.
  intros [(ch & R) Hu] U Ht Ho HQ. unfold tcb_init. apply wp_modify, HQ.
  - constructor; try done. intros a i. simpl. by rewrite !lookup_insert_ne.
  - split; [|done]. exists ch. by apply rep_new_tcb.
  - intros t' k Hk. simpl in Hk. apply lookup_insert_Some in Hk as [[_ <-]|[_ Hk]]; [done|by eapply U].
  - done.
Qed.

(** ** The call implements its description *)

Definition thread_control_post (o : tc_outside) (g : tc_args) s D (r : sys_result) s' : Prop :=
  exists D', CapInv s' D' /\ unlocked s' /\ clists s' = clists s /\ clist_lookup s' = clist_lookup s /\
    thread_control o (absc s D) (dom (ktcbs s)) g = (r, D', dom (ktcbs s')).

Lemma dom_frame s s' : (forall t, is_Some (ktcbs s' !! t) <-> is_Some (ktcbs s !! t)) -> dom (ktcbs s') = dom (ktcbs s).
Proof. intros E. apply set_eq. intros t. by rewrite !elem_of_dom. Qed.

Lemma rights_within s D D' :
  ListInv s D -> (forall a i, is_Some (D' !! Entry a i) -> is_Some (D !! Entry a i)) ->
  forall a i r, D' !! Entry a i = Some r -> exists l, clists s !! a = Some l /\ 0 <= i <= max_id l.
Proof. intros L Hd a i r Hr. destruct (Hd a i) as [r' Hr']; [by eexists|]. by eapply li_used. Qed.

Section call.
Context (o : tc_outside) (g : tc_args) (s : cstate (H := H)) (D : gmap cell right).
Context (I : CapInv s D) (U : unlocked s).

Lemma tc_same r : thread_control o (absc s D) (dom (ktcbs s)) g = (r, D, dom (ktcbs s)) -> thread_control_post o g s D r s.
Proof. intros E. exists D. by split_and!. Qed.

Lemma tc_end r s' D' :
  list_frame s s' -> CellInv s' D' -> unlocked s' ->
  (forall a i rt, D' !! Entry a i = Some rt -> exists l, clists s !! a = Some l /\ 0 <= i <= max_id l) ->
  thread_control o (absc s D) (dom (ktcbs s)) g = (r, D', dom (ktcbs s')) -> thread_control_post o g s D r s'.
Proof.
  intros F I' U' Hw E. exists D'. split_and!; [split; [done|eapply ListInv_frame; [done|apply I|done]]|done|apply F|apply F|done].
Qed.

Lemma entry_right_in_list a tid r : entry_right s D a tid = Some r -> in_list s a tid.
Proof.
  unfold entry_right. destruct (clists s !! a) as [l|] eqn:Hl; [|done]. destruct (is_cap_type tid) eqn:Ht; [|done]. simpl.
  destruct (Z.leb_spec (get_index tid) (max_id l)); [|done]. intros _. split; [done|]. by exists l.
Qed.

(** Operations that keep all threads. *)
Lemma tc_keep r s' D' :
  frame s s' -> CellInv s' D' -> (forall a i, is_Some (D' !! Entry a i) -> is_Some (D !! Entry a i)) ->
  thread_control o (absc s D) (dom (ktcbs s)) g = (r, D', dom (ktcbs s)) -> thread_control_post o g s D r s'.
Proof.
  intros F I' HD' E. eapply tc_end; [by apply frame_list_frame|done|by eapply unlocked_frame|apply (rights_within s D); [apply I|done]|].
  rewrite E. f_equal. symmetry. apply dom_frame. intros t. by apply frame_tcb.
Qed.

(** A thread that has been freed. *)
Lemma tc_gone r s' D' t :
  list_frame s s' -> CellInv s' D' -> ktcbs s' !! t = None ->
  (forall t', t' <> t -> locked <$> ktcbs s' !! t' = locked <$> ktcbs s !! t') ->
  (forall a i, is_Some (D' !! Entry a i) -> is_Some (D !! Entry a i)) ->
  thread_control o (absc s D) (dom (ktcbs s)) g = (r, D', dom (ktcbs s) ∖ {[t]}) -> thread_control_post o g s D r s'.
Proof.
  intros F I' Hk Hlk HD' E. eapply tc_end; [done|done| |apply (rights_within s D); [apply I|done]|].
  - intros t' k' Hk'. destruct (decide (t' = t)) as [->|Hne]; [congruence|]. specialize (Hlk t' Hne). rewrite Hk' in Hlk. symmetry in Hlk.
    apply fmap_Some in Hlk as (k0 & Hk0 & ->). by eapply U.
  - rewrite E. f_equal. apply set_eq. intros t'. rewrite elem_of_difference, elem_of_singleton, !elem_of_dom. destruct (decide (t' = t)) as [->|Hne].
    + rewrite Hk. split; [by intros [_ []]|by intros []].
    + rewrite <-(fmap_is_Some locked (ktcbs s' !! t')), (Hlk t' Hne), fmap_is_Some. tauto.
Qed.

Lemma gone_entries t D1 : (forall a i, is_Some (D1 !! Entry a i) -> is_Some (D !! Entry a i)) ->
  forall a i, is_Some (drop_refs t (revoke t D1) !! Entry a i) -> is_Some (D !! Entry a i).
Proof.
  intros HD1 a i. unfold drop_refs, revoke. rewrite !lookup_delete_ne by done. intros [r [Hr _]%map_lookup_filter_Some]. apply HD1. by eexists.
Qed.

Lemma delete_ok t k :
  tc_refused o g = None -> tc_nilspace g = true -> thread_of (entry_right s D (tc_list g) (tc_dest g)) = Some t ->
  tc_utcb g = 0 -> t <> tc_current g -> ktcbs s !! t = Some k ->
  wp (remove_thread_cap (tc_list g) (tc_dest g)) (fun removed s2 => removed = true /\
    wp (do! delete_tcb t in ret Success) (thread_control_post o g s D) s2) (write_locked t s).
Proof.
  intros Hrf Hnil Et Hu Hc Hk. pose proof I as [CI L]. pose proof (thread_of_Some _ _ Et) as Et'. pose proof (entry_right_slot _ _ _ _ _ Et') as HD.
  pose proof (entry_right_in_list _ _ _ Et') as Hin.
  wp_call (remove_thread_cap_spec D); [by apply CellInv_write_locked|done|by apply (slot_backed s D)|]. cbn beta. intros r s2 [F2 Hr].
  rewrite HD in Hr. destruct Hr as [-> I2]. split; [done|]. apply wp_bind, (wp_delete_tcb (revoke t D)); [done| | |].
  - eapply frame_tcb; [done|]. simpl. rewrite lookup_alter_eq, Hk. by eexists.
  - intros c r [_ Hr]%map_lookup_filter_Some. done.
  - intros s3 F3 I3 Hk3 Hl3. apply wp_ret. eapply (tc_gone _ _ _ t); [etransitivity; [|exact F3]; etransitivity; [|by apply frame_list_frame]; by constructor|done|done| |by apply gone_entries|].
    + intros t' Hne. rewrite Hl3, (fr_locks _ _ F2) by done. simpl. by rewrite lookup_alter_ne.
    + unfold thread_control. apply Z.eqb_neq in Hc. rewrite Hrf, Hnil, a_thread_entry, Et, Hu, Z.eqb_refl, Hc. done.
Qed.

Lemma modify_thread_ok :
  tc_refused o g = None -> tc_nilspace g = true -> is_Some (clists s !! tc_list g) ->
  wp (modify_thread 0 o (tc_list g) (tc_current g) (tc_dest g) (tc_pager g) (tc_except_handler g) (tc_resources_valid g) (tc_utcb g))
    (thread_control_post o g s D) s.
Proof.
  intros Hrf Hnil Hl. pose proof I as [CI L]. pose proof (list_backed _ _ _ L Hl) as Hb. pose proof CI as [(ch & R) _].
  cbn [modify_thread]. apply wp_bind. wp_call (lookup_thread_cap_locked_spec D); [done|done|intros t k _; by apply U|]. cbn beta. intros r s1 Hres.
  destruct (thread_of (entry_right s D (tc_list g) (tc_dest g))) as [t|] eqn:Et.
  2: { destruct Hres as [-> ->]. apply wp_ret, tc_same. unfold thread_control. by rewrite Hrf, Hnil, a_thread_entry, Et. }
  destruct Hres as (-> & Ho & ->). rewrite object_not_null by done. pose proof (entry_right_slot _ _ _ _ _ (thread_of_Some _ _ Et)) as HD.
  destruct (rep_live _ _ _ _ R _ _ HD) as [k Hk]. simpl in Hk. pose proof (CellInv_write_locked t s D CI) as CI1.
  destruct (Z.eqb_spec (tc_utcb g) 0) as [Hu|Hu].
  - destruct (Z.eqb_spec t (tc_current g)) as [Hc|Hc].
    + apply wp_bind, (wp_unlock_restore t k _ s); [done|done|done|]. intros s3 F3 HI. apply wp_ret. apply (tc_keep _ s3 D); [done|by apply HI|done|].
      unfold thread_control. rewrite Hrf, Hnil, a_thread_entry, Et, Hu, Hc, !Z.eqb_refl. done.
    + apply wp_bind. wp_call (delete_ok t k); [done..|]. cbn beta. by intros removed s2 [-> Hd].
  - destruct (Z.eqb_spec (tc_utcb g) UTCB_KEEP) as [Hkp|Hkp]; cbn [negb]; apply Z.eqb_neq in Hu.
    + apply wp_bind, (wp_set_thread_handlers D _ _ _ _ (set_locked (u32 (-1)) k)); [done|exact Hb|simpl; by rewrite lookup_alter_eq, Hk|by vm_compute|].
      intros s2 F2 I2. apply wp_bind, (wp_unlock_restore t k _ s); [done|done|done|]. intros s3 F3 HI. apply wp_ret.
      change (absc (write_locked t s) D) with (absc s D) in *. eapply tc_keep; [done|by apply HI|intros a i; by rewrite a_handlers_other|].
      unfold thread_control. rewrite Hrf, Hnil, a_thread_entry, Et, Hu, Hkp, Z.eqb_refl. cbn [negb].
      unfold resources_code. destruct (a_handlers (absc s D) (tc_list g) t (tc_pager g) (tc_except_handler g)) as [ok D']. by destruct ok, (tc_resources_valid g).
    + apply wp_bind, (wp_unlock_restore t k _ s); [done|done|done|]. intros s3 F3 HI. apply wp_ret. apply (tc_keep _ s3 D); [done|by apply HI|done|].
      unfold thread_control. apply Z.eqb_neq in Hkp. rewrite Hrf, Hnil, a_thread_entry, Et, Hu, Hkp. done.
Qed.

(** What the TCB allocator gives: nothing, or an object that was not in use. *)
Definition fresh_tcb : Prop := new_tcb o = 0 \/ is_object (new_tcb o) /\ ktcbs s !! new_tcb o = None.

Lemma a_has_index_range a l tid : clists s !! a = Some l -> a_has_index (absc s D) a tid = negb (max_id l <? get_index tid).
Proof. intros Hl. unfold a_has_index, absc. cbn [a_lists]. rewrite Hl. by rewrite Z.ltb_antisym, negb_involutive. Qed.

(** Creation, from the new TCB on. *)
Section creation.
Context (l : clist_t) (s1 : cstate (H := H)).
Context (Hrf : tc_refused o g = None) (Hnil : tc_nilspace g = false) (Hl : clists s !! tc_list g = Some l).
Context (Hobj : is_object (new_tcb o)) (Hnew : ktcbs s !! new_tcb o = None).
Context (F1 : list_frame s s1) (I1 : CellInv s1 D) (U1 : unlocked s1) (E1 : ktcbs s1 = <[new_tcb o := Ktcb None 0]> (ktcbs s)).

Lemma new_no_target c r : D !! c = Some r -> right_target r <> new_tcb o.
Proof. destruct I as [[(ch & R) _] _]. by eapply rep_no_target. Qed.

Lemma new_no_refs f : D !! Ref (new_tcb o) f = None.
Proof. destruct I as [[(ch & R) _] _]. by eapply rep_no_refs. Qed.

Lemma new_tcb_lookup : ktcbs s1 !! new_tcb o = Some (Ktcb None 0).
Proof. rewrite E1. apply lookup_insert_eq. Qed.

Lemma free_cap_error_out_ok s2 D2 code :
  frame (write_locked (new_tcb o) s1) s2 -> CellInv s2 D2 -> (forall c r, D2 !! c = Some r -> right_target r <> new_tcb o) ->
  drop_refs (new_tcb o) D2 = D -> create_error o (absc s D) g = Some code ->
  wp (free_cap_error_out (new_tcb o) code) (thread_control_post o g s D) s2.
Proof.
  intros F2 I2 Hno Hdrop Herr. unfold free_cap_error_out. apply wp_bind, (wp_unlock_restore _ (Ktcb None 0) _ s1); [done|exact new_tcb_lookup|done|].
  intros s3 F3 HI. apply wp_bind, (wp_delete_tcb D2); [by apply HI| |done|].
  { eapply frame_tcb; [done|]. rewrite new_tcb_lookup. by eexists. }
  intros s4 F4 I4 Hk4 Hl4. apply wp_ret. rewrite Hdrop in I4.
  eapply (tc_gone _ _ _ (new_tcb o)); [|done|done| |done|].
  - etransitivity; [exact F1|]. etransitivity; [by apply frame_list_frame|done].
  - intros t' Hne. rewrite Hl4, (fr_locks _ _ F3), E1 by done. by rewrite lookup_insert_ne.
  - unfold thread_control. rewrite Hrf, Hnil, Herr. f_equal. apply set_eq. intros t'. rewrite elem_of_difference, elem_of_singleton.
    split; [|by intros [? _]]. intros Ht'. split; [done|]. intros ->. apply elem_of_dom in Ht' as [k' Hk']. congruence.
Qed.

Lemma free_tcb_error_out_ok s2 D2 code :
  frame (write_locked (new_tcb o) s1) s2 -> CellInv s2 D2 -> in_list s (tc_list g) (tc_dest g) ->
  D !! slot (tc_list g) (tc_dest g) = None -> D2 !! slot (tc_list g) (tc_dest g) = Some (ThreadCap (new_tcb o)) ->
  (forall c, c <> slot (tc_list g) (tc_dest g) -> (forall f, c <> Ref (new_tcb o) f) -> D2 !! c = D !! c) ->
  create_error o (absc s D) g = Some code ->
  wp (free_tcb_error_out (tc_list g) (tc_dest g) (new_tcb o) code) (thread_control_post o g s D) s2.
Proof.
  intros F2 I2 Hin HD HD2 Hsame Herr. pose proof I as [_ L]. unfold free_tcb_error_out. apply wp_bind.
  assert (Hcl : clists s2 = clists s) by (rewrite (fr_clists _ _ F2); apply F1).
  wp_call (remove_thread_cap_spec D2); [done|unfold in_list; by rewrite Hcl| |].
  { apply (fr_cells _ _ F2). apply (lf_cells _ _ F1). by eapply slot_backed. }
  cbn beta. intros r s3 [F3 Hr]. rewrite HD2 in Hr. destruct Hr as [-> I3]. apply wp_bind, wp_ASSERT; [done|].
  eapply (free_cap_error_out_ok s3 (revoke (new_tcb o) D2)); [by etransitivity|done| | |done].
  - intros c r [_ Hr]%map_lookup_filter_Some. done.
  - eapply undo_creation; [exact HD|exact new_no_target|exact new_no_refs|done|done].
Qed.

Lemma create_tail_ok :
  in_list s (tc_list g) (tc_dest g) -> space_found o = true -> utcb_location_ok o = true -> (new_tcb o =? 0) = false ->
  a_has_index (absc s D) (tc_list g) (tc_dest g) = true ->
  wp (add_thread_cap (tc_list g) (tc_dest g) (new_tcb o)) (fun added s2 =>
    wp (if negb added then free_cap_error_out (new_tcb o) EINVALID_THREAD
        else
          let! ok := set_thread_handlers (tc_list g) (new_tcb o) (tc_pager g) (tc_except_handler g) in
          if negb ok then free_tcb_error_out (tc_list g) (tc_dest g) (new_tcb o) EINVALID_PARAM
          else
            match activate_error o with
            | Some e => free_tcb_error_out (tc_list g) (tc_dest g) (new_tcb o) e
            | None =>
                match (if tc_resources_valid g then resources_error o else None) with
                | Some e => free_tcb_error_out (tc_list g) (tc_dest g) (new_tcb o) e
                | None => do! unlock_write (new_tcb o) in ret Success
                end
            end) (thread_control_post o g s D) s2) (write_locked (new_tcb o) s1).
Proof.
  intros Hin Hsp Hut Hnz Hidx. pose proof I as [_ L]. pose proof (CellInv_write_locked (new_tcb o) s1 D I1) as CI.
  assert (Hcl : clists (write_locked (new_tcb o) s1) = clists s) by apply F1.
  assert (Hlk : clist_lookup (write_locked (new_tcb o) s1) = clist_lookup s) by apply F1.
  assert (Herr : forall e, D !! slot (tc_list g) (tc_dest g) = None -> create_error o (absc s D) g = e <->
    (if negb (a_handlers (with_rights (absc s D) (<[slot (tc_list g) (tc_dest g) := ThreadCap (new_tcb o)]> D)) (tc_list g) (new_tcb o) (tc_pager g) (tc_except_handler g)).1
     then Some EINVALID_PARAM else match activate_error o with Some x => Some x | None => resources_code o g end) = e).
  { intros e HD. unfold create_error. rewrite Hidx, Hsp, Hut, Hnz. change (a_rights (absc s D)) with D. cbn [negb].
    rewrite HD, bool_decide_eq_false_2 by (by intros []). reflexivity. }
  wp_call (add_thread_cap_spec D); [done|unfold in_list; by rewrite Hcl| | |exact new_no_target|].
  { apply (lf_cells _ _ F1). by eapply slot_backed. }
  { simpl. rewrite lookup_alter_eq, new_tcb_lookup. by eexists. }
  cbn beta. intros added s2 [F2 Hadd]. destruct (D !! slot (tc_list g) (tc_dest g)) as [r|] eqn:HD; destruct Hadd as [-> Hadd]; cbn [negb].
  { subst s2. apply (free_cap_error_out_ok _ D); [done|done|exact new_no_target| |].
    - unfold drop_refs. rewrite !delete_id; [done|exact (new_no_refs _)|]. by rewrite delete_id by exact (new_no_refs _); apply new_no_refs.
    - unfold create_error. rewrite Hidx, Hsp, Hut, Hnz. change (a_rights (absc s D)) with D. cbn [negb].
      by rewrite HD, bool_decide_eq_true_2 by (by eexists). }
  specialize (fun e => Herr e eq_refl). set (D1 := <[slot (tc_list g) (tc_dest g) := ThreadCap (new_tcb o)]> D) in *.
  assert (Ea : absc s2 D1 = with_rights (absc s D) D1) by (unfold absc, with_rights; cbn [a_lists a_table]; by rewrite (fr_clists _ _ F2), (fr_lookup _ _ F2), Hcl, Hlk).
  assert (Hk2 : exists k2, ktcbs s2 !! new_tcb o = Some k2 /\ locked k2 = u32 (-1)).
  { pose proof (fr_locks _ _ F2 (new_tcb o)) as E. simpl in E. rewrite lookup_alter_eq, new_tcb_lookup in E. simpl in E. apply fmap_Some in E as (k2 & ? & ?). by exists k2. }
  destruct Hk2 as (k2 & Hk2 & Hl2). apply wp_bind, (wp_set_thread_handlers D1 _ _ _ _ k2); [done| |done|by rewrite Hl2|].
  { eapply backed_list_frame; [exact F2|]. destruct (list_backed s D (tc_list g) L (mk_is_Some _ _ Hl)) as (l0 & Hl0 & Hb0). exists l0. rewrite Hcl. split; [done|].
    intros i Hi. by apply (lf_cells _ _ F1), Hb0. }
  intros s3 F3 I3. rewrite Ea in *. set (D2 := (a_handlers _ _ _ _ _).2) in *. set (ok := (a_handlers _ _ _ _ _).1) in *.
  assert (HD2 : forall c, (forall f, c <> Ref (new_tcb o) f) -> D2 !! c = D1 !! c) by (intros c Hc; by apply a_handlers_other).
  assert (Hfail : forall code, create_error o (absc s D) g = Some code ->
    wp (free_tcb_error_out (tc_list g) (tc_dest g) (new_tcb o) code) (thread_control_post o g s D) s3).
  { intros code Hcode. apply (free_tcb_error_out_ok s3 D2); [by etransitivity|done|done|done| | |done].
    - rewrite HD2 by done. apply lookup_insert_eq.
    - intros c Hc Hc'. rewrite HD2 by done. by apply lookup_insert_ne. }
  destruct ok eqn:Eok; cbn [negb]; [|apply Hfail; by apply Herr]. destruct (activate_error o) as [e|]; [apply Hfail; by apply Herr|]. fold (resources_code o g).
  destruct (resources_code o g) as [e|] eqn:Er; [apply Hfail; by apply Herr|].
  apply wp_bind, (wp_unlock_restore _ (Ktcb None 0) _ s1); [done|exact new_tcb_lookup|by etransitivity|]. intros s4 F4 HI. apply wp_ret.
  eapply (tc_end _ _ D2); [etransitivity; [exact F1|by apply frame_list_frame]|by apply HI|by eapply unlocked_frame| |].
  - intros a i rt. rewrite HD2 by done. intros [[E _]|[_ Hr]]%lookup_insert_Some; [|by eapply li_used]. injection E as <- <-. exists l. split; [done|].
    destruct Hin as [_ (l' & Hl' & Hi)]. pose proof (get_index_bound (tc_dest g)). rewrite Hl in Hl'. injection Hl' as <-. lia.
  - unfold thread_control. rewrite Hrf, Hnil, (proj2 (Herr None) eq_refl). f_equal. apply set_eq. intros t'.
    rewrite elem_of_union, elem_of_singleton, !elem_of_dom, (frame_tcb s1 s4 t' F4), E1, lookup_insert_is_Some. apply or_insert_iff.
Qed.

End creation.

Lemma create_thread_ok :
  tc_refused o g = None -> tc_nilspace g = false -> is_cap_type (tc_dest g) = true -> is_Some (clists s !! tc_list g) -> fresh_tcb ->
  wp (create_thread o (tc_list g) (tc_dest g) (tc_pager g) (tc_except_handler g) (tc_resources_valid g)) (thread_control_post o g s D) s.
Proof.
  intros Hrf Hnil Hty [l Hl] Hfresh. pose proof I as [CI L]. unfold create_thread. apply wp_bind, (wp_is_valid _ _ l); [done|].
  rewrite <-(a_has_index_range _ _ _ Hl). assert (Hsame : forall e, create_error o (absc s D) g = Some e -> thread_control_post o g s D (Error e) s).
  { intros e He. apply tc_same. unfold thread_control. by rewrite Hrf, Hnil, He. }
  unfold create_error in Hsame. destruct (a_has_index (absc s D) (tc_list g) (tc_dest g)) eqn:Hidx; cbn [negb]; [|by apply wp_ret, Hsame].
  destruct (space_found o) eqn:Hsp; cbn [negb]; [|by apply wp_ret, Hsame]. destruct (utcb_location_ok o) eqn:Hut; cbn [negb]; [|by apply wp_ret, Hsame].
  cbv zeta. destruct (new_tcb o =? 0) eqn:Hnz; [by apply wp_ret, Hsame|]. destruct Hfresh as [E|[Hobj Hnew]]; [by rewrite E in Hnz|].
  apply wp_bind, (wp_tcb_init D); [done|done|done|done|]. intros s1 F1 I1 U1 E1.
  assert (Hk1 : ktcbs s1 !! new_tcb o = Some (Ktcb None 0)) by (rewrite E1; apply lookup_insert_eq).
  apply wp_bind, (wp_try_lock_write _ (Ktcb None 0)); [done|done|]. rewrite (alter_insert_tcb _ _ _ _ Hk1). apply wp_bind.
  eapply (create_tail_ok l s1); try done. split; [done|]. exists l. split; [done|].
  rewrite (a_has_index_range _ _ _ Hl) in Hidx. apply negb_true_iff, Z.ltb_ge in Hidx. done.
Qed.

Lemma sys_thread_control_ok :
  is_Some (clists s !! tc_list g) -> fresh_tcb ->
  wp (sys_thread_control o (tc_list g) (tc_current g) (tc_dest g) (tc_nilspace g) (tc_pager g) (tc_except_handler g) (tc_resources_valid g) (tc_utcb g))
    (thread_control_post o g s D) s.
Proof.
  intros Hl Hf. destruct (tc_refused o g) as [e|] eqn:Hrf.
  - assert (Hp : thread_control_post o g s D (Error e) s) by (apply tc_same; unfold thread_control; by rewrite Hrf).
    unfold sys_thread_control. unfold tc_refused in Hrf. destruct (_ || _); [injection Hrf as ->; by apply wp_ret|].
    destruct (kresourced o); cbn [negb] in *; [|injection Hrf as ->; by apply wp_ret].
    destruct (is_cap_type (tc_dest g)); cbn [negb] in *; [done|injection Hrf as ->; by apply wp_ret].
  - pose proof Hrf as Hrf'. unfold sys_thread_control. unfold tc_refused in Hrf'. destruct (_ || _); [done|].
    destruct (kresourced o); cbn [negb] in *; [|done]. destruct (is_cap_type (tc_dest g)) eqn:Hty; cbn [negb] in *; [|done].
    destruct (tc_nilspace g) eqn:Hnil; [by apply modify_thread_ok|by apply create_thread_ok].
Qed.

End call.

End control.
