(* ===== verification/MicroCapTheorems.v ===== *)
(** * Properties of capabilities

    The system calls that control capabilities and threads, the lookups every
    other system call starts with, and what holds in every state that these
    calls can lead to. *)

From S2P Require Import Prelude MicroLib MicroKmem MicroCaps MicroCapInv MicroCapOps MicroCapControl MicroThreadControl.
Import Caps.
#[local] Open Scope Z_scope.

Section properties.
Context {H : Type} `{KH : !Kheap H} `{KL : !KheapLaws H}.
Implicit Types (s : cstate (H := H)) (D : gmap cell right).

Lemma sys_cap_control_ok space id control mr0 mr1 mr2 s D :
  CapInv s D -> unlocked s -> space_ok space s -> 0 <= id < 2 ^ 16 -> request_ok (request control mr0 mr1 mr2) ->
  wp (sys_cap_control space id control mr0 mr1 mr2) (control_post space id (request control mr0 mr1 mr2) s D) s.
Proof.
  intros I U SO Hid Hok. unfold sys_cap_control. apply wp_bind, (wp_lookup_clist _ _ D); [lia|]. unfold request in *. cbv zeta in *.
  destruct (get_op control =? op_create_clist); [by apply create_clist_ok|]. destruct (get_op control =? op_delete_clist); [by apply delete_clist_ok|].
  destruct (get_op control =? op_copy_cap); [destruct Hok; apply copy_cap_ok; try done; lia|].
  destruct (get_op control =? op_delete_cap); [apply delete_cap_ok; try done; lia|]. apply wp_ret, control_same; [done|done|constructor].
Qed.

(** C10: [SYS_CAP_CONTROL].  On a state that satisfies the capability
    invariant, for the requests the kernel copes with, the call returns, keeps
    the invariant, and changes lists, table and rights exactly as the relation
    [cap_control] says, which names each error it reports with its condition:
    a list is created only under a free number of the caller's range and only
    deleted when it is empty and in no space's use; a capability is copied
    only from a thread capability into a free slot; only IPC capabilities are
    removed.  Left out are the requests the kernel does not check ([caps.cc]
    and [resource_ids.h]): a new list of no entries, or of so many that its
    size overflows; a target to copy to or delete that is not a capability
    identifier; list numbers of 2^16 and more. *)
Theorem sys_cap_control_refines space id control mr0 mr1 mr2 s D :
  CapInv s D -> unlocked s -> space_ok space s -> 0 <= id < 2 ^ 16 -> request_ok (request control mr0 mr1 mr2) ->
  wp (sys_cap_control space id control mr0 mr1 mr2) (control_post space id (request control mr0 mr1 mr2) s D) s.
Proof. apply sys_cap_control_ok. Qed.

(** C11: [SYS_THREAD_CONTROL], as far as capabilities go.  The call returns,
    keeps the invariant, and its result, the rights and the set of threads
    are those that the function [thread_control] computes: a deleted thread
    is denoted by nothing and refers to nothing, a creation that fails at any
    stage leaves rights and threads as they were, and the handlers of a
    thread become those its caller holds thread capabilities for. *)
Theorem sys_thread_control_correct o g s D :
  CapInv s D -> unlocked s -> is_Some (clists s !! tc_list g) -> fresh_tcb o s ->
  wp (sys_thread_control o (tc_list g) (tc_current g) (tc_dest g) (tc_nilspace g) (tc_pager g) (tc_except_handler g) (tc_resources_valid g) (tc_utcb g))
    (thread_control_post o g s D) s.
Proof. intros I U. by apply sys_thread_control_ok. Qed.

(** C12: the lookups.  A lookup finds exactly the right that the identifier
    denotes in the list, or NULL: a thread capability for thread operations,
    a thread or an IPC capability for IPC, any capability for [lookup_cap];
    what it finds is locked, and nothing else changes.  A pointer to a thread
    can be locked exactly if the thread still has a thread capability. *)
Theorem capability_lookups_correct s D a tid (write : bool) t0 tcb k :
  CapInv s D -> unlocked s -> is_Some (clists s !! a) -> ktcbs s !! tcb = Some k ->
  wp (lookup_thread_cap_locked a tid write t0) (fun r s' =>
    match thread_of (entry_right s D a tid) with
    | Some t => r = t /\ is_object t /\ s' = (if write then write_locked t s else read_locked t s)
    | None => r = 0 /\ s' = s
    end) s /\
  wp (lookup_thread_cap_unlocked a tid) (fun r s' => s' = s /\ r = default 0 (thread_of (entry_right s D a tid))) s /\
  wp (lookup_ipc_cap_locked a tid t0) (fun r s' =>
    match partner_of (entry_right s D a tid) with
    | Some t => r = t /\ is_object t /\ s' = read_locked t s
    | None => r = 0 /\ s' = s
    end) s /\
  wp (lookup_cap a tid) (fun r s' => s' = s /\ r = (_ ← entry_right s D a tid; Some (slot a tid))) s /\
  wp (acquire_read_lock_tcb tcb t0) (fun r s' =>
    (exists h, D !! h = Some (ThreadCap tcb)) /\ r = tcb /\ s' = read_locked tcb s \/
    (forall c rt, D !! c = Some rt -> right_target rt <> tcb) /\ r = 0 /\ s' = s) s.
Proof.
  intros [CI L] U Ha Hk. pose proof (list_backed _ _ _ L Ha) as Hb. assert (Hl : forall t k, ktcbs s !! t = Some k -> 0 <= locked k < 2 ^ 31 - 1).
  { intros t k' Hk'. rewrite (U t k' Hk'). lia. }
  split_and!.
  - apply lookup_thread_cap_locked_spec; [done|done|]. intros t k' _ Hk'. destruct write; [by eapply U|by eapply Hl].
  - by apply lookup_thread_cap_unlocked_spec.
  - apply lookup_ipc_cap_locked_spec; [done|done|]. intros t k' _. by apply Hl.
  - by apply lookup_cap_spec.
  - eapply acquire_read_lock_tcb_spec; [done|done|by eapply Hl].
Qed.

(** ** Reachable states *)

Inductive cap_step : relation (cstate (H := H)) :=
| step_cap_control space id control mr0 mr1 mr2 r s s' :
    space_ok space s -> 0 <= id < 2 ^ 16 -> request_ok (request control mr0 mr1 mr2) ->
    sys_cap_control space id control mr0 mr1 mr2 s = Done r s' -> cap_step s s'
| step_thread_control o g r s s' :
    is_Some (clists s !! tc_list g) -> fresh_tcb o s ->
    sys_thread_control o (tc_list g) (tc_current g) (tc_dest g) (tc_nilspace g) (tc_pager g) (tc_except_handler g) (tc_resources_valid g) (tc_utcb g) s
      = Done r s' -> cap_step s s'.

Lemma cap_step_inv s s' : cap_step s s' -> (exists D, CapInv s D) /\ unlocked s -> (exists D, CapInv s' D) /\ unlocked s'.
Proof.
  intros Hs [[D I] U]. destruct Hs as [space id control mr0 mr1 mr2 r s s' SO Hid Hok E|o g r s s' Hl Hf E].
  - pose proof (sys_cap_control_ok space id control mr0 mr1 mr2 s D I U SO Hid Hok) as Hw. unfold wp in Hw. rewrite E in Hw.
    destruct Hw as (D' & I' & U' & _). split; [by exists D'|done].
  - pose proof (sys_thread_control_ok o g s D I U Hl Hf) as Hw. unfold wp in Hw. rewrite E in Hw.
    destruct Hw as (D' & I' & U' & _). split; [by exists D'|done].
Qed.

Lemma cap_reach_inv s s' : rtc cap_step s s' -> (exists D, CapInv s D) /\ unlocked s -> (exists D, CapInv s' D) /\ unlocked s'.
Proof. induction 1 as [s|s1 s2 s3 Hs _ IH]; [done|]. intros I. by apply IH, (cap_step_inv s1). Qed.

(** The cells of a state, by the words they hold. *)
Record well_typed s : Prop := {
  wt_entry : forall a i v, cells s !! Entry a i = Some v -> raw v <> 0 ->
    (is_thread_cap (raw v) = true \/ is_ipc_cap (raw v) = true) /\ is_Some (ktcbs s !! word_tcb (raw v));
  wt_ref : forall t f v, cells s !! Ref t f = Some v -> raw v <> 0 -> is_Some (ktcbs s !! raw v);
  wt_master : forall c v, cells s !! c = Some v -> raw v <> 0 ->
    exists a i w, cells s !! Entry a i = Some w /\ raw w = thread_cap (word_tcb (raw v));
  wt_unique : forall a i v b j w, cells s !! Entry a i = Some v -> cells s !! Entry b j = Some w ->
    is_thread_cap (raw v) = true -> raw w = raw v -> a = b /\ i = j
}.

Lemma CapInv_well_typed s D : CapInv s D -> well_typed s.
Proof.
  intros [[(ch & R) _] _].
  assert (Hr : forall c v, cells s !! c = Some v -> raw v <> 0 -> exists r, D !! c = Some r /\ raw v = right_word r /\ is_object (right_target r)).
  { intros c v Hv Hne. destruct (D !! c) as [r|] eqn:E; [|by apply (rep_free _ _ _ _ R c v Hv) in E]. exists r. pose proof (rep_word _ _ _ _ R c v Hv) as Hw.
    rewrite E in Hw. split_and!; [done|done|by eapply rep_target]. }
  constructor.
  - intros a i v Hv Hne. destruct (Hr _ _ Hv Hne) as (r & E & Hw & Ho). pose proof (rep_live _ _ _ _ R _ _ E) as Hlive. destruct (rep_dom _ _ _ _ R _ _ E) as [_ Hf].
    rewrite Hw. destruct r as [t|t|t]; [|  |done]; simpl in *.
    + destruct (thread_cap_fields t Ho) as (-> & _ & _ & -> & _). split; [by left|done].
    + destruct (ipc_cap_fields t Ho) as (_ & -> & _ & -> & _). split; [by right|done].
  - intros t f v Hv Hne. destruct (Hr _ _ Hv Hne) as (r & E & Hw & Ho). pose proof (rep_live _ _ _ _ R _ _ E) as Hlive. destruct (rep_dom _ _ _ _ R _ _ E) as [_ Hf].
    rewrite Hw. by destruct r.
  - intros c v Hv Hne. destruct (Hr _ _ Hv Hne) as (r & E & Hw & Ho). destruct (rep_chain_head _ _ _ _ R _ _ _ E eq_refl) as (h & l & _ & Hh).
    destruct (rep_dom _ _ _ _ R _ _ Hh) as [[w Hw'] Hf]. destruct h as [a i|]; [|done]. exists a, i, w. split; [done|].
    pose proof (rep_word _ _ _ _ R _ _ Hw') as Hword. rewrite Hh in Hword. rewrite Hw. by destruct (right_word_tcb r Ho) as [-> _].
  - intros a i v b j w Hv Hw Ht E. assert (Hne : raw v <> 0) by (intros E0; by rewrite E0 in Ht). destruct (Hr _ _ Hv Hne) as (r & Er & Hword & Ho).
    assert (Hne' : raw w <> 0) by congruence. destruct (Hr _ _ Hw Hne') as (r' & Er' & Hword' & Ho').
    destruct (rep_dom _ _ _ _ R _ _ Er) as [_ Hf]. destruct (rep_dom _ _ _ _ R _ _ Er') as [_ Hf'].
    assert (r' = r) as -> by (apply (right_word_inj (Entry a i)); try done; congruence).
    destruct r as [t|t|t]; [| |done]. 2: { destruct (ipc_cap_fields t Ho) as [Hn _]. simpl in Hword. congruence. }
    apply (rep_head _ _ _ _ R) in Er, Er'. rewrite Er in Er'. by injection Er'.
Qed.

(** C9: types of capabilities.  In every state that capability and thread
    control lead to, an entry of a capability list is empty or is a thread or
    IPC capability of a thread that exists; a thread's pager and exception
    handler are NULL or threads that exist; every thread that anything
    denotes has one thread capability, and only one; and thread control does
    not fail an assertion, use an invalid pointer or run on for ever.  The
    calls of capability control are those of [request_ok]: a new list has at
    least one entry and not so many that its size overflows, a target is a
    capability identifier, and list numbers are below 2^16.  The kernel does
    not check this; a list whose size overflows has entries in the memory of
    others, of which nothing is claimed.  Calls of thread control name an
    existing list of the caller and get TCBs that are not in use. *)
Theorem reachable_capabilities_typed s0 D0 s :
  CapInv s0 D0 -> unlocked s0 -> rtc cap_step s0 s ->
  well_typed s /\
  forall o g, is_Some (clists s !! tc_list g) -> fresh_tcb o s -> exists r s',
    sys_thread_control o (tc_list g) (tc_current g) (tc_dest g) (tc_nilspace g) (tc_pager g) (tc_except_handler g) (tc_resources_valid g) (tc_utcb g) s
      = Done r s'.
Proof.
  intros I0 U0 Hs. destruct (cap_reach_inv _ _ Hs) as [[D I] U]; [split; [by exists D0|done]|]. split; [by eapply CapInv_well_typed|].
  intros o g Hl Hf. pose proof (sys_thread_control_ok o g s D I U Hl Hf) as Hw. apply wp_run in Hw as (r & s' & E & _). by exists r, s'.
Qed.

End properties.

(** ** A small system *)

Module CapDemo.

Abbreviation state := (cstate (H := Kmem.kmem_t)).

(** Two threads without capabilities, no lists, four chunks of memory. *)
Definition first : Z := 0xF0001000.
Definition second : Z := 0xF0002000.

Definition start : state :=
  CState {[Ref first pager := cap_init; Ref first exception_handler := cap_init]}
    ∅ {[first := Ktcb None 0]} [0; 0; 0; 0] 0 KmemDemo.ready.
Definition space : resource_ids_t := ResourceIds 0 4.

Lemma start_rep : Rep (cells start) (ktcbs start) ∅ (fun _ => []).
Proof.
  constructor; try done.
  - intros c v Hv. simpl in Hv. rewrite lookup_empty. by apply lookup_insert_Some in Hv as [[_ <-]|[_ [_ <-]%lookup_singleton_Some]].
  - intros t [k Hk]. simpl in Hk. apply lookup_singleton_Some in Hk as [<- _]. unfold first, is_object, VIRT_ADDR_BASE, WORD_MOD. lia.
  - intros t k Hk. simpl in Hk. apply lookup_singleton_Some in Hk as [<- <-]. done.
  - intros _. constructor.
  - intros t c. split; [by intros []%elem_of_nil|]. intros (r & Hr & _). by rewrite lookup_empty in Hr.
  - intros t f. simpl. destruct (decide (t = first)) as [->|Hne].
    + rewrite lookup_singleton_eq. split; intros _; [by eexists|]. apply lookup_insert_is_Some. destruct f; [by left|right; split; [done|by eexists]].
    + rewrite lookup_singleton_ne by done. split; [|by intros []]. intros [v Hv].
      exfalso. by apply lookup_insert_Some in Hv as [[[= <-] _]|[_ [[= <-] _]%lookup_singleton_Some]].
Qed.

Lemma start_inv : CapInv start ∅.
Proof.
  split; [split; [exists (fun _ => []); apply start_rep|done]|]. constructor; try done.
  - exists [4096; 5120; 6144; 7168]. apply KmemDemo.ready_rep.
  - intros a i [v Hv]. exfalso. simpl in Hv. by apply lookup_insert_Some in Hv as [[? _]|[_ [? _]%lookup_singleton_Some]].
  - intros n a Hn Ha. exfalso. simpl in Hn. apply Ha. by destruct n as [|[|[|[|n]]]]; simplify_eq/=.
  - intros n n' a Hn _ Ha. exfalso. simpl in Hn. apply Ha. by destruct n as [|[|[|[|n]]]]; simplify_eq/=.
Qed.

Lemma start_unlocked : unlocked start.
Proof. intros t k Hk. simpl in Hk. apply lookup_singleton_Some in Hk as [_ <-]. done. Qed.

Lemma space_covers : space_ok space start.
Proof. by unfold space_ok. Qed.

(** The state after a list of 16 entries has been created under number 1. *)
Definition created : outcome state sys_result := sys_cap_control space 1 op_create_clist 16 0 0 start.
Definition listed : state := match created with Done _ s => s | Crash _ => start end.

Lemma created_success : match created with Done Success _ => True | _ => False end.
Proof. by vm_compute. Qed.

Lemma create_request : request_ok (request op_create_clist 16 0 0).
Proof. unfold request_ok, request, entries_ok, SIZEOF_CAP, SIZEOF_CLIST, WORD_MOD. simpl. lia. Qed.

Lemma listed_inv : CapInv listed ∅ /\ unlocked listed /\ is_Some (ktcbs listed !! first) /\ ktcbs listed !! second = None.
Proof.
  pose proof (sys_cap_control_ok space 1 op_create_clist 16 0 0 start ∅ start_inv start_unlocked space_covers ltac:(lia) create_request) as Hw.
  pose proof created_success as Hs. unfold listed. unfold wp in Hw. fold created in Hw. destruct created as [r s|f]; [|done]. destruct r; [|done].
  destruct Hw as (D' & I' & U' & HT & HC). inversion HC. simplify_eq/=. split_and!; [done|done|apply HT; by eexists|].
  destruct (ktcbs s !! second) as [k|] eqn:E; [|done]. destruct (HT second) as [[? Hx] _]; [by rewrite E; eexists|]. done.
Qed.

Lemma listed_list : is_Some (clists listed !! 4096).
Proof. vm_compute. by eexists. Qed.

Lemma listed_thread : exists k, ktcbs listed !! first = Some k.
Proof. apply listed_inv. Qed.

(** A new thread under identifier 3, with itself as pager. *)
Definition outside : tc_outside := TcOutside true true true second None None.
Definition arguments : tc_args := TcArgs 4096 first 3 false 3 NILTHREAD_RAW true 4096.

Lemma second_fresh : fresh_tcb outside listed.
Proof. right. split; [unfold outside, second, is_object, VIRT_ADDR_BASE, WORD_MOD; simpl; lia|apply listed_inv]. Qed.

Definition one_list : acaps := ACaps ∅ {[4096 := Clist 15 0]} [0; 4096; 0; 0].

(** Its rights: the thread capability, and the reference to itself. *)
Example thread_created :
  let '(r, D, T) := thread_control outside one_list {[first]} arguments in
  r = Success /\ bool_decide (T = {[first; second]}) = true /\ size D = 2%nat /\
  D !! Entry 4096 3 = Some (ThreadCap second) /\ D !! Ref second pager = Some (Reference second).
Proof. by vm_compute. Qed.

(** With an exception handler that does not exist the thread is not created. *)
Example thread_refused :
  thread_control outside one_list {[first]} (TcArgs 4096 first 3 false 3 7 true 4096) = (Error EINVALID_PARAM, ∅, {[first]}).
Proof. by vm_compute. Qed.

End CapDemo.

Lemma sys_cap_control_refines_witness :
  wp (sys_cap_control CapDemo.space 1 op_create_clist 16 0 0) (control_post CapDemo.space 1 (CreateList 16) CapDemo.start ∅) CapDemo.start.
Proof.
  exact (sys_cap_control_refines CapDemo.space 1 op_create_clist 16 0 0 CapDemo.start ∅
    CapDemo.start_inv CapDemo.start_unlocked CapDemo.space_covers ltac:(lia) CapDemo.create_request).
Defined.

Lemma sys_thread_control_correct_witness :
  wp (sys_thread_control CapDemo.outside 4096 CapDemo.first 3 false 3 NILTHREAD_RAW true 4096)
    (thread_control_post CapDemo.outside CapDemo.arguments CapDemo.listed ∅) CapDemo.listed.
Proof.
  exact (sys_thread_control_correct CapDemo.outside CapDemo.arguments CapDemo.listed ∅ (proj1 CapDemo.listed_inv) (proj1 (proj2 CapDemo.listed_inv))
    CapDemo.listed_list CapDemo.second_fresh).
Defined.

Lemma capability_lookups_correct_witness :
  exists k, ktcbs CapDemo.listed !! CapDemo.first = Some k /\
  wp (lookup_cap 4096 3) (fun r s' => s' = CapDemo.listed /\ r = (_ ← entry_right CapDemo.listed ∅ 4096 3; Some (slot 4096 3))) CapDemo.listed.
Proof.
  destruct CapDemo.listed_thread as [k Hk]. exists k. split; [exact Hk|].
  exact (proj1 (proj2 (proj2 (proj2 (capability_lookups_correct CapDemo.listed ∅ 4096 3 true 0 CapDemo.first k
    (proj1 CapDemo.listed_inv) (proj1 (proj2 CapDemo.listed_inv)) CapDemo.listed_list Hk))))).
Defined.

Lemma reachable_capabilities_typed_witness : well_typed CapDemo.listed.
Proof.
  exact (proj1 (reachable_capabilities_typed CapDemo.listed ∅ CapDemo.listed (proj1 CapDemo.listed_inv) (proj1 (proj2 CapDemo.listed_inv)) (rtc_refl _ _))).
Defined.
